(* ===== verification/_CoqProject ===== *)
-Q . S2P
Prelude.v
LinkedList.v
ListADT.v
BitmapLib.v
HashTable.v
Machine.v
Mips.v
MipsArith.v
Interrupt.v
Disk.v
FileIO.v
Directory.v
FileSys.v
Threads.v
SynchInv.v
Synch.v
SynchThms.v
AddrSpace.v
Files.v
Syscall.v
Process.v
ProcessInv.v
ProcessStep.v
ProcessThms.v
Conc.v
SynchList.v
Hardware.v
SynchDisk.v
SynchConsole.v
Network.v
PostOffice.v
SemTable.v
ProcCalls.v
Multiprog.v
CoffNoff.v
Sockets.v
SocketCalls.v
Boot.v
Uniprog.v
Switch.v
