(* ===== verification/Prelude.v ===== *)
(** * A verification of the Nachos operating system

    The program under src/code is Nachos, an instructional operating system in
    C++ that runs on a simulated MIPS workstation inside one UNIX process, with
    the extensions of this repository: several user programs in memory, file
    descriptors, a process table, named semaphores and system calls.  The build
    (src/code/build.linux/Makefile) is 32-bit x86, little endian, with
    FILESYS_STUB, RDATA and SIM_FIX and without USE_TLB.

    ** The parts and the files that model them

    This file: outcomes ([res]), integers of 32 and 8 bits, C arrays, loops,
    byte encodings and byte ranges, with the lemmas and tactics the components
    share.

    lib/ -- LinkedList.v: List, SortedList and ListIterator on a store of cells;
    ListADT.v: the contracts ListADT and SortedADT the clients of lists use, and
    the instances; BitmapLib.v: Bitmap as words, read as a set of bit numbers;
    HashTable.v: the hash table over the list contract, read as a finite map.

    machine/ -- Machine.v: registers, memory, Translate, ReadMem, WriteMem,
    RaiseException (machine.cc, translate.cc); Mips.v and MipsArith.v: Decode,
    OneInstruction, Mult (mipssim.cc); Interrupt.v: the event queue, simulated
    time, OneTick, Idle, Timer and Alarm (interrupt.cc, stats.cc, timer.cc,
    alarm.cc), over the contract SortedADT; Disk.v: the disk device and its
    timing (disk.cc), and the contract SectorDisk of the synchronous disk.

    filesys/ -- FileIO.v: FileHeader and OpenFile over SectorDisk and Bitmap;
    Directory.v: PersistentBitmap and Directory; FileSys.v: FileSystem.  These
    are the versions without FILESYS_STUB.  Files.v: the FILESYS_STUB versions
    over the files of the host, DyOpenFile, the file descriptor table and the
    kernel side of the file and console calls (ksyscall.h).

    threads/ -- Threads.v: threads, scheduler, semaphores, locks and conditions
    as steps of a uniprocessor kernel; SynchInv.v and Synch.v: its invariant and
    the preservation by each step; SynchThms.v: reachable states.  Switch.v: the
    objects and stacks of threads, SWITCH and ThreadRoot (thread.cc, switch.S).
    Process.v: processes and the process table (pcb, ptable) as steps of threads;
    ProcessInv.v, ProcessStep.v and ProcessThms.v: invariant, preservation and
    reachable states.  SemTable.v: named semaphores (sem, stable).  Boot.v: the
    command line and the commands on files (main.cc, kernel.cc).

    Objects that several threads use -- Conc.v: monitors, as threads between the
    operations of Synch.v seen from outside, and their refinement of an object
    whose operations happen at one instant; SynchList.v: synchronised lists;
    Hardware.v: a machine with one device that interrupts;
    SynchDisk.v: the synchronous disk (synchdisk.cc) on the disk device;
    SynchConsole.v: the console and its devices (synchconsole.cc, console.cc);
    Network.v and PostOffice.v: the network device, sending and the mailboxes
    (network.cc, post.cc).

    userprog/ -- AddrSpace.v: address spaces, NOFF headers, loading, over
    Bitmap and Machine; Uniprog.v: the constructor and the loader for a single
    program; Multiprog.v: user programs that share the machine (Scheduler::Run);
    Syscall.v: ExceptionHandler, the transfer of strings between a program and
    the kernel, and the calls on files and the console, over Machine, AddrSpace
    and Files; ProcCalls.v: the calls on processes and named semaphores;
    SocketCalls.v: the calls on sockets.

    network/ -- Sockets.v: sockets, the server and its loop (socket.cc,
    serversocket.cc), over the table of descriptors of Files.v and the network of
    the host.

    src/coff2noff -- CoffNoff.v: the converter of executables.

    ** How code is translated

    A class is a Record with its fields, a method a function with the method's
    name.  Code that can abort or access memory it must not returns [res]; code
    of the simulated machine is in the monad [Machine.M], whose third outcome is
    the trap to the kernel; kernel calls are in the monads [Files.K] and
    [Syscall.S], whose outcomes include the end of the simulation.  Heap objects
    whose identity matters (list cells, pending interrupts, threads, semaphores)
    live in explicit stores.  A loop that counts is structural recursion on its
    number of rounds.  A loop over a list of cells has the number of cells in
    the store as fuel, the loop of CheckIfDue the number of pending interrupts:
    the invariants bound both, and the theorems are of total results, so fuel
    never runs out from the states they speak of; Copy and Print have more
    rounds than a file has bytes.  The loop of ServerListen, which the code does
    not bound, is run for any number of rounds.  The step relation of threads
    has one step from one point where a thread can lose the processor to the
    next.

    An [int] is a [Z] in its range with [s32] where the code can overflow:
    signed overflow wraps around, as in the compiled program.  So do the times
    of disk requests (Disk.v) and the values of named semaphores (SemTable.v);
    counters of statistics, the clock and queue of Interrupt.v and the values of
    the kernel's own semaphores are unbounded.
    Indeterminate memory (new buffers, uninitialised fields) is an argument
    ([fresh], [garbage]), so theorems hold for all its contents.  Functions that
    are passed as pointers are parameters.  The files of the host are the class
    [Files.Host] with the laws of POSIX ([HostLaws]; several names may lead to one
    file), its network the class [Sockets.Net] with [NetLaws], whose calls may wait
    for ever or end with a signal that kills the process; a small host and a small
    network show that the laws can hold.

    ** What the theorems show

    Each property is a Theorem whose comment begins with its number; the lemma
    with the suffix _witness applies it to a concrete input.
    - Refinements of abstract data: lists as duplicate-free sequences, bitmaps
      as sets, hash tables and directories as finite maps, files as byte
      sequences, the file system as a finite map from names to contents, open
      files as a finite map from descriptors.  They cover every failing case.
    - The machine: Translate branch by branch, memory round trips, the safety of
      every instruction on every state, Decode and Mult and overflow traps
      against arithmetic, an incorrect SRL; interrupts fire exactly when due,
      time advances, an idle machine makes progress; disk latency and requests.
    - Threads: one invariant for all interleavings, from which no assertion fails
      but those on locks not held, names too long and overwritten stacks, locks exclude each other and no wakeup is lost.  SWITCH gives every
      thread its registers and its stack back, and a new thread runs its function
      between ThreadBegin and ThreadFinish.
    - Objects that several threads use: lists, disk, console, network output and
      named semaphores refine objects whose operations happen at one instant;
      messages arrive unchanged, in order, at most once, and do arrive.
    - Processes: the process table, its bitmap and the PCBs agree in every
      reachable state, Join returns what Exit was given, and how each call fails.
    - User programs: frames belong to one address space, a loaded program sees
      its segments (whichever loader loads it, and from the COFF file on), no
      program touches another's memory, and programs that share the machine run
      as if alone; system calls do what the kernel functions do and return to the
      next instruction, characters written are read back, arguments reach the
      program, handlers end, and how each call fails.
    - The server of sockets is an echo server with a bounded number of places;
      what ends it, in errors and signals too, is listed.  The command line of
      Nachos is an operation on the map of files, when it is compiled without
      FILESYS_STUB, and leaves the disk alone when it is compiled with it.

    ** What is not modelled, and why

    The calls of lib/sysdep.cc to the host, other than the arrays between
    protected pages, since the models have the host as a parameter where they
    need it; debugging output and what Print, List and Dump print; the debugger
    of the machine; FileSystem::List and Print, in front of which the model of main
    stops; Kernel::Initialize and the destructor of Kernel, which only
    construct and delete the parts that the files above model, and the self tests
    that print or wait for a user; the code of switch.h and switch.S for
    processors other than the x86; the tutorial programs of src/c++example and
    the user programs of src/code/test, which are not parts of the system. *)

From Stdlib Require Export ZArith Lia.
From stdpp Require Export base tactics numbers sets fin_sets gmap sorting list.

#[global] Open Scope Z_scope.

(** * Outcomes of C++ code

    Every operation that can fail returns a [res].  [AssertFailed] is a false
    ASSERT (lib/debug.h) or a reached ASSERTNOTREACHED: the process aborts.
    [BadAccess] is undefined behaviour of C++: a null or dangling pointer is
    dereferenced, an array is indexed outside its bounds, an integer division
    overflows.  [OutOfFuel] is the end of the fuel that bounds a loop of the
    model whose length the code does not bound; the components prove that it
    does not occur from states that satisfy their invariant. *)

Inductive fault := AssertFailed | BadAccess | OutOfFuel.

Inductive res (A : Type) : Type :=
| Ok (a : A)
| Err (e : fault).
Arguments Ok {A} a.
Arguments Err {A} e.

#[global] Instance fault_eq_dec : EqDecision fault.
Proof. solve_decision. Defined.

#[global] Instance res_ret : MRet res := @Ok.
#[global] Instance res_bind : MBind res := λ A B f m,
  match m with Ok a => f a | Err e => Err e end.
#[global] Instance res_fmap : FMap res := λ A B f m,
  match m with Ok a => Ok (f a) | Err e => Err e end.

(** lib/debug.h, the ASSERT macro. *)
Definition ASSERT (condition : bool) : res unit :=
  if condition then Ok tt else Err AssertFailed.

(** Dereferencing a pointer held as an [option]: NULL is [None]. *)
Definition deref {A} (o : option A) : res A :=
  match o with Some a => Ok a | None => Err BadAccess end.

Lemma bind_Ok {A B} (m : res A) (f : A → res B) b :
  (m ≫= f) = Ok b ↔ ∃ a, m = Ok a ∧ f a = Ok b.
Proof. destruct m; cbn; naive_solver. Qed.

Lemma ASSERT_Ok b u : ASSERT b = Ok u ↔ b = true.
Proof. destruct b, u; cbn; naive_solver. Qed.

Lemma deref_Ok {A} (o : option A) a : deref o = Ok a ↔ o = Some a.
Proof. destruct o; cbn; naive_solver. Qed.

(** [res_inv] turns a hypothesis [m = Ok v] about a monadic term into the
    results of its steps. *)
Ltac res_inv_step :=
  match goal with
  | H : mbind _ _ = Ok _ |- _ => apply bind_Ok in H as (?&?&H)
  | H : ASSERT _ = Ok _ |- _ => apply ASSERT_Ok in H
  | H : deref _ = Ok _ |- _ => apply deref_Ok in H
  | H : Ok _ = Ok _ |- _ => injection H as H
  | H : Err _ = Ok _ |- _ => discriminate H
  | H : mret _ = Ok _ |- _ => injection H as H
  | p : (_ * _)%type |- _ => destruct p
  end.
Ltac res_inv := repeat (res_inv_step; simplify_eq/=).

(** * Fixed-width integers of C++ *)

Definition wordsize : Z := 4294967296.      (* 2^32 *)
Definition halfword : Z := 2147483648.      (* 2^31 *)

(** The value of an expression of type [unsigned int] and of type [int]: the
    representative of [z] modulo 2^32 in the range of the type. *)
Definition u32 (z : Z) : Z := z mod wordsize.
Definition s32 (z : Z) : Z :=
  let u := z mod wordsize in if u <? halfword then u else u - wordsize.

Definition is_u32 (z : Z) : Prop := 0 ≤ z < wordsize.
Definition is_s32 (z : Z) : Prop := - halfword ≤ z < halfword.

(** [char] and [unsigned char]. *)
Definition u8 (z : Z) : Z := z mod 256.
Definition s8 (z : Z) : Z :=
  let u := z mod 256 in if u <? 128 then u else u - 256.
Definition is_byte (z : Z) : Prop := 0 ≤ z < 256.

(** lib/utility.h, the macro divRoundUp on [int]s: C++ division truncates. *)
Definition divRoundUp (n s : Z) : Z :=
  Z.quot n s + (if 0 <? Z.rem n s then 1 else 0).
Definition divRoundDown (n s : Z) : Z := Z.quot n s.

(** [dlia] is [lia] with the equations of division and modulo. *)
Ltac dlia := Z.to_euclidean_division_equations; lia.
Ltac dnia := Z.to_euclidean_division_equations; nia.

Ltac unfold_int := unfold u32, s32, is_u32, is_s32, u8, s8, is_byte, halfword, wordsize in *.

Lemma u32_range z : is_u32 (u32 z).
Proof. unfold_int. apply Z.mod_pos_bound; lia. Qed.

Lemma s32_range z : is_s32 (s32 z).
Proof. unfold_int. destruct (Z.ltb_spec (z mod 4294967296) 2147483648); dlia. Qed.

Lemma u32_id z : is_u32 z → u32 z = z.
Proof. unfold_int. intros. by apply Z.mod_small. Qed.

Lemma s32_id z : is_s32 z → s32 z = z.
Proof. unfold_int. intros. case_match eqn:E; [apply Z.ltb_lt in E|apply Z.ltb_ge in E]; dlia. Qed.

Lemma u32_s32 z : u32 (s32 z) = u32 z.
Proof. unfold_int. case_match; dlia. Qed.

Lemma s32_u32 z : s32 (u32 z) = s32 z.
Proof. unfold s32, u32. by rewrite Z.mod_mod by (unfold wordsize; lia). Qed.

Lemma s8_range z : -128 ≤ s8 z < 128.
Proof. unfold_int. case_match eqn:E; [apply Z.ltb_lt in E|apply Z.ltb_ge in E]; dlia. Qed.

Lemma s8_id z : -128 ≤ z < 128 → s8 z = z.
Proof. unfold_int. intros. case_match eqn:E; [apply Z.ltb_lt in E|apply Z.ltb_ge in E]; dlia. Qed.

Lemma s8_idem z : s8 (s8 z) = s8 z.
Proof. apply s8_id, s8_range. Qed.

Lemma u8_s8 z : u8 (s8 z) = u8 z.
Proof. unfold_int. case_match; dlia. Qed.

Lemma u8_range z : is_byte (u8 z).
Proof. unfold_int. dlia. Qed.

Lemma u8_id z : is_byte z → u8 z = z.
Proof. unfold_int. intros. by apply Z.mod_small. Qed.

Lemma lor_u32 x y : is_u32 x → is_u32 y → is_u32 (Z.lor x y).
Proof.
  unfold is_u32, wordsize. change 4294967296 with (2 ^ 32). intros Hx Hy.
  assert (0 ≤ Z.lor x y) by (apply Z.lor_nonneg; lia). split; [done|].
  rewrite <- (Z.mod_small x (2 ^ 32)), <- (Z.mod_small y (2 ^ 32)), <- !Z.land_ones by lia.
  rewrite <- Z.land_lor_distr_l, Z.land_ones by lia. apply Z.mod_pos_bound. lia.
Qed.

Lemma land_u32 x y : is_u32 x → is_u32 (Z.land x y).
Proof.
  unfold is_u32, wordsize. change 4294967296 with (2 ^ 32). intros Hx.
  rewrite <- (Z.mod_small x (2 ^ 32)), <- Z.land_ones by lia.
  rewrite <- Z.land_assoc, (Z.land_comm _ y), Z.land_assoc, Z.land_ones by lia.
  apply Z.mod_pos_bound. lia.
Qed.

(** A number is an [int] when its bits from 31 on are all equal. *)
Lemma is_s32_shiftr z : is_s32 z ↔ Z.shiftr z 31 = 0 ∨ Z.shiftr z 31 = -1.
Proof.
  rewrite Z.shiftr_div_pow2 by lia. unfold is_s32, halfword. change (2 ^ 31) with 2147483648. dlia.
Qed.

Lemma is_s32_lor x y : is_s32 x → is_s32 y → is_s32 (Z.lor x y).
Proof. rewrite !is_s32_shiftr, Z.shiftr_lor. by intros [-> | ->] [-> | ->]; cbn; auto. Qed.

Lemma is_s32_land x y : is_s32 x → is_s32 y → is_s32 (Z.land x y).
Proof. rewrite !is_s32_shiftr, Z.shiftr_land. by intros [-> | ->] [-> | ->]; cbn; auto. Qed.

Lemma is_s32_lxor x y : is_s32 x → is_s32 y → is_s32 (Z.lxor x y).
Proof. rewrite !is_s32_shiftr, Z.shiftr_lxor. by intros [-> | ->] [-> | ->]; cbn; auto. Qed.

Lemma is_s32_lnot x : is_s32 x → is_s32 (Z.lnot x).
Proof. unfold_int. unfold Z.lnot. lia. Qed.

Lemma is_s32_sar x k : 0 ≤ k → is_s32 x → is_s32 (Z.shiftr x k).
Proof.
  intros Hk. unfold is_s32, halfword. rewrite Z.shiftr_div_pow2 by done.
  pose proof (Z.pow_pos_nonneg 2 k ltac:(lia) Hk). generalize dependent (2 ^ k). intros q Hq Hx. dnia.
Qed.

Lemma land_le x k : 0 ≤ k → 0 ≤ Z.land x k ≤ k.
Proof.
  intros Hk. split; [apply Z.land_nonneg; lia|].
  assert (0 ≤ k - Z.land x k); [|lia]. rewrite Z.sub_nocarry_ldiff.
  - apply Z.ldiff_nonneg. by left.
  - apply Z.bits_inj'. intros n Hn. rewrite Z.ldiff_spec, Z.land_spec, Z.bits_0.
    by destruct (Z.testbit k n), (Z.testbit x n).
Qed.

Lemma is_s32_land_mask x k : 0 ≤ k < halfword → is_s32 (Z.land x k).
Proof. intros Hk. pose proof (land_le x k (proj1 Hk)). unfold_int. lia. Qed.

Create HintDb ints.
#[export] Hint Resolve u32_range s32_range s8_range u8_range : ints.
#[export] Hint Resolve is_s32_lor is_s32_land is_s32_lxor is_s32_lnot is_s32_sar : ints.

Lemma divRoundUp_spec n s :
  0 ≤ n → 0 < s → s * (divRoundUp n s - 1) < n ≤ s * divRoundUp n s.
Proof.
  intros Hn Hs. unfold divRoundUp. rewrite Z.quot_div_nonneg, Z.rem_mod_nonneg by lia.
  pose proof (Z.mod_pos_bound n s Hs). pose proof (Z.div_mod n s ltac:(lia)).
  case_match eqn:E; [apply Z.ltb_lt in E|apply Z.ltb_ge in E]; nia.
Qed.

Lemma divRoundUp_nonneg n s : 0 ≤ n → 0 < s → 0 ≤ divRoundUp n s.
Proof. intros. pose proof (divRoundUp_spec n s). nia. Qed.

(** * Arrays

    A C++ array is a list, an index a [Z]: an access outside the bounds is
    [BadAccess], never a default value. *)

Definition aget {A} (l : list A) (i : Z) : res A :=
  if 0 <=? i then deref (l !! Z.to_nat i) else Err BadAccess.

Definition aset {A} (l : list A) (i : Z) (x : A) : res (list A) :=
  if (0 <=? i) && (i <? Z.of_nat (length l)) then Ok (<[Z.to_nat i := x]> l)
  else Err BadAccess.

Section arrays.
Context {A : Type}.
Implicit Types l : list A.

Lemma aget_Ok l i x : aget l i = Ok x ↔ 0 ≤ i ∧ l !! Z.to_nat i = Some x.
Proof.
  unfold aget. case_match eqn:E; [apply Z.leb_le in E|apply Z.leb_gt in E].
  - rewrite deref_Ok. naive_solver.
  - naive_solver lia.
Qed.

Lemma aget_ex l i : 0 ≤ i < Z.of_nat (length l) → ∃ x, aget l i = Ok x.
Proof.
  intros Hi. destruct (lookup_lt_is_Some_2 l (Z.to_nat i)) as [x Hx]; [lia|].
  exists x. apply aget_Ok. naive_solver lia.
Qed.

Lemma aset_Ok l i x l' :
  aset l i x = Ok l' ↔ 0 ≤ i < Z.of_nat (length l) ∧ l' = <[Z.to_nat i := x]> l.
Proof.
  unfold aset. destruct (Z.leb_spec 0 i), (Z.ltb_spec i (Z.of_nat (length l)));
    cbn; naive_solver lia.
Qed.

Lemma aset_in l i x :
  0 ≤ i < Z.of_nat (length l) → aset l i x = Ok (<[Z.to_nat i := x]> l).
Proof. intros. by apply aset_Ok. Qed.

Lemma aget_insert l i j x :
  0 ≤ i < Z.of_nat (length l) → 0 ≤ j →
  aget (<[Z.to_nat i := x]> l) j = if decide (i = j) then Ok x else aget l j.
Proof.
  intros Hi Hj. unfold aget. rewrite (proj2 (Z.leb_le 0 j) Hj).
  case_decide as E; subst.
  - rewrite list_lookup_insert_eq by lia. done.
  - rewrite list_lookup_insert_ne by lia. done.
Qed.
End arrays.

(** * Counting loops

    [for_up n i body s] is [for (k = i; k < i + n; k++) s = body k s]. *)

Fixpoint for_up {S} (n : nat) (i : Z) (body : Z → S → res S) (s : S) : res S :=
  match n with
  | O => Ok s
  | Datatypes.S n' => s' ← body i s; for_up n' (i + 1) body s'
  end.

(** The rule of a counting loop whose body never fails: [I k] holds before
    the iteration of index [k]. *)
Lemma for_up_inv {S} (I : Z → S → Prop) (body : Z → S → res S) n i s :
  I i s →
  (∀ k s, i ≤ k < i + Z.of_nat n → I k s → ∃ s', body k s = Ok s' ∧ I (k + 1) s') →
  ∃ s', for_up n i body s = Ok s' ∧ I (i + Z.of_nat n) s'.
Proof.
  revert i s. induction n as [|n IH]; intros i s HI Hstep; cbn [for_up].
  - exists s. by replace (i + Z.of_nat 0) with i by lia.
  - destruct (Hstep i s) as (s1&->&H1); [lia|done|]. cbn.
    destruct (IH (i + 1) s1 H1) as (s2&->&H2); [intros; apply Hstep; [lia|done]|].
    exists s2. split; [done|]. by replace (i + Z.of_nat (Datatypes.S n)) with (i + 1 + Z.of_nat n) by lia.
Qed.

(** The converse: what a loop that returned has established. *)
Lemma for_up_Ok {S} (I : Z → S → Prop) (body : Z → S → res S) n i s s' :
  for_up n i body s = Ok s' → I i s →
  (∀ k s s', i ≤ k < i + Z.of_nat n → I k s → body k s = Ok s' → I (k + 1) s') →
  I (i + Z.of_nat n) s'.
Proof.
  revert i s. induction n as [|n IH]; intros i s; cbn [for_up]; intros H HI Hstep.
  - injection H as <-. by replace (i + Z.of_nat 0) with i by lia.
  - res_inv. replace (i + Z.of_nat (Datatypes.S n)) with (i + 1 + Z.of_nat n) by lia.
    eapply IH; [done| |].
    + eapply Hstep; [lia|done|done].
    + intros; eapply Hstep; [lia|done|done].
Qed.

(** * Lists and options *)

Lemma NoDup_snoc {A} (l : list A) x : NoDup (l ++ [x]) ↔ NoDup l ∧ x ∉ l.
Proof.
  rewrite NoDup_app. split.
  - intros (H1&H2&_). split; [done|]. intros Hx. by apply (H2 x Hx), list_elem_of_singleton.
  - intros [H1 H2]. split; [done|]. split; [|apply NoDup_singleton].
    intros y Hy ->%list_elem_of_singleton. done.
Qed.

Lemma NoDup_middle {A} (l1 l2 : list A) x : NoDup (l1 ++ x :: l2) ↔ (x ∉ l1 ++ l2) ∧ NoDup (l1 ++ l2).
Proof. by rewrite <- Permutation_middle, NoDup_cons. Qed.

Lemma list_filter_all {A} (P : A → Prop) `{∀ x, Decision (P x)} (l : list A) :
  Forall P l → filter P l = l.
Proof. induction 1; [done|]. rewrite filter_cons_True by done. by f_equal. Qed.

(** The effects of [f] on the items of a list, in order. *)
Fixpoint foldM {A S} (f : A → S → res S) (l : list A) (s : S) : res S :=
  match l with
  | [] => Ok s
  | x :: l => s ← f x s; foldM f l s
  end.

Lemma foldM_app {A S} (f : A → S → res S) l1 l2 s :
  foldM f (l1 ++ l2) s = s' ← foldM f l1 s; foldM f l2 s'.
Proof.
  revert s. induction l1 as [|x l1 IH]; intros s; [done|]. cbn [app foldM].
  destruct (f x s); cbn [mbind res_bind]; [apply IH|done].
Qed.

(** * Little-endian integers as byte lists *)

Fixpoint le_encode (n : nat) (v : Z) : list Z :=
  match n with O => [] | S n => v mod 256 :: le_encode n (v / 256) end.

Definition le_decode (l : list Z) : Z := foldr (λ b r, b + 256 * r) 0 l.

Lemma length_le_encode n v : length (le_encode n v) = n.
Proof. revert v. induction n; intros; cbn; auto. Qed.

Lemma le_encode_bytes n v : Forall is_byte (le_encode n v).
Proof. revert v. induction n; intros; cbn; constructor; [apply u8_range|done]. Qed.

Lemma le_decode_encode n v : le_decode (le_encode n v) = v mod 256 ^ Z.of_nat n.
Proof.
  revert v. induction n as [|n IH]; intros v; [by rewrite Z.mod_1_r|].
  cbn [le_encode le_decode foldr]. fold (le_decode (le_encode n (v / 256))). rewrite IH.
  rewrite Nat2Z.inj_succ, Z.pow_succ_r by lia. symmetry. apply Z.rem_mul_r; lia.
Qed.

Lemma le_encode_decode l : Forall is_byte l → le_encode (length l) (le_decode l) = l.
Proof.
  induction 1 as [|b l Hb _ IH]; [done|]. cbn [length le_encode le_decode foldr].
  fold (le_decode l). unfold is_byte in Hb. f_equal; [dlia|].
  replace ((b + 256 * le_decode l) / 256) with (le_decode l) by dlia. done.
Qed.

(** An array of [int]s as the bytes of the host. *)
Definition words_encode (ws : list Z) : list Z := concat (map (λ w, le_encode 4 (u32 w)) ws).

Fixpoint words_decode (n : nat) (l : list Z) : list Z :=
  match n with
  | O => []
  | S n => s32 (le_decode (take 4 l)) :: words_decode n (drop 4 l)
  end.

Lemma length_words_encode ws : length (words_encode ws) = (4 * length ws)%nat.
Proof.
  induction ws as [|w ws IH]; [done|]. unfold words_encode in *. cbn [map concat].
  rewrite length_app, IH, length_le_encode. cbn [length]. lia.
Qed.

Lemma words_encode_bytes ws : Forall is_byte (words_encode ws).
Proof.
  unfold words_encode. induction ws as [|w ws IH]; [constructor|]. cbn [map concat].
  apply Forall_app. split; [apply le_encode_bytes|done].
Qed.

Lemma words_decode_encode ws rest :
  Forall is_s32 ws → words_decode (length ws) (words_encode ws ++ rest) = ws.
Proof.
  induction 1 as [|w ws Hw _ IH]; [done|]. unfold words_encode in *. cbn [length words_decode map concat].
  rewrite <- app_assoc, take_app_length', drop_app_length' by (by rewrite length_le_encode).
  rewrite IH, le_decode_encode. f_equal. change (256 ^ Z.of_nat 4) with wordsize.
  rewrite <- (s32_id w) at 2 by done. rewrite <- (s32_u32 w). unfold s32 at 1.
  by rewrite Z.mod_mod by (unfold wordsize; lia).
Qed.

(** * Byte ranges of a list

    [slice l a n] are [n] items from index [a]; [splice l a d] is [l] with the
    items from [a] on replaced by [d]. *)
Definition slice {A} (l : list A) (a n : Z) : list A := take (Z.to_nat n) (drop (Z.to_nat a) l).
Definition splice {A} (l : list A) (a : Z) (d : list A) : list A :=
  take (Z.to_nat a) l ++ d ++ drop (Z.to_nat a + length d) l.

Section slices.
Context {A : Type}.
Implicit Types l d : list A.

Lemma length_slice l a n :
  0 ≤ a → 0 ≤ n → a + n ≤ Z.of_nat (length l) → length (slice l a n) = Z.to_nat n.
Proof. intros. unfold slice. rewrite length_take, length_drop. lia. Qed.

Lemma length_splice l a d :
  0 ≤ a → a + Z.of_nat (length d) ≤ Z.of_nat (length l) → length (splice l a d) = length l.
Proof. intros. unfold splice. rewrite !length_app, length_take, length_drop. lia. Qed.

Lemma lookup_slice l a n (i : nat) :
  0 ≤ a → slice l a n !! i = if decide (Z.of_nat i < n) then l !! (Z.to_nat a + i)%nat else None.
Proof.
  intros Ha. unfold slice. case_decide.
  - rewrite lookup_take_lt by lia. by rewrite lookup_drop.
  - apply lookup_take_ge. lia.
Qed.

Lemma lookup_splice l a d (i : nat) :
  0 ≤ a → a + Z.of_nat (length d) ≤ Z.of_nat (length l) →
  splice l a d !! i =
    if decide (a ≤ Z.of_nat i < a + Z.of_nat (length d)) then d !! (i - Z.to_nat a)%nat else l !! i.
Proof.
  intros Ha Hl. unfold splice. case_decide as Hi.
  - rewrite lookup_app_r by (rewrite length_take; lia). rewrite length_take.
    replace (i - Z.to_nat a `min` length l)%nat with (i - Z.to_nat a)%nat by lia.
    rewrite lookup_app_l by lia. done.
  - destruct (decide (Z.of_nat i < a)).
    + rewrite lookup_app_l by (rewrite length_take; lia). rewrite lookup_take_lt by lia. done.
    + rewrite lookup_app_r by (rewrite length_take; lia). rewrite length_take.
      rewrite lookup_app_r by lia. rewrite lookup_drop. f_equal. lia.
Qed.

Lemma slice_splice_same l a d :
  0 ≤ a → a + Z.of_nat (length d) ≤ Z.of_nat (length l) → slice (splice l a d) a (Z.of_nat (length d)) = d.
Proof.
  intros Ha Hl. apply list_eq. intros i. rewrite lookup_slice by done. case_decide as Hi.
  - rewrite lookup_splice by done. rewrite decide_True by lia. f_equal. lia.
  - symmetry. apply lookup_ge_None. lia.
Qed.

Lemma slice_splice_disjoint l a d b n :
  0 ≤ a → a + Z.of_nat (length d) ≤ Z.of_nat (length l) → 0 ≤ b →
  b + n ≤ a ∨ a + Z.of_nat (length d) ≤ b → slice (splice l a d) b n = slice l b n.
Proof.
  intros Ha Hl Hb Hd. apply list_eq. intros i. rewrite !lookup_slice by done. case_decide as Hi; [|done].
  rewrite lookup_splice by done. rewrite decide_False by lia. done.
Qed.

Lemma splice_Forall (P : A → Prop) l a d : Forall P l → Forall P d → Forall P (splice l a d).
Proof.
  intros Hl Hd. unfold splice. apply Forall_app. split; [by apply Forall_take|].
  apply Forall_app. split; [done|by apply Forall_drop].
Qed.

Lemma slice_Forall (P : A → Prop) l a n : Forall P l → Forall P (slice l a n).
Proof. intros Hl. by apply Forall_take, Forall_drop. Qed.
End slices.

(** ** Sums over a finite map *)

Section COUNT.
Context {A : Type}.
Implicit Types (f : A → Z) (G : gmap nat A) (g : A).

Definition cnt (f : A → Z) (G : gmap nat A) : Z := map_fold (λ _ g n, f g + n) 0 G.

Lemma cnt_empty f : cnt f ∅ = 0.
Proof. apply map_fold_empty. Qed.

Lemma cnt_new f G t g : G !! t = None → cnt f (<[t := g]> G) = f g + cnt f G.
Proof. intros Ht. unfold cnt. rewrite map_fold_insert_L; [done|intros; lia|done]. Qed.

Lemma cnt_delete f G t g : G !! t = Some g → cnt f (delete t G) = cnt f G - f g.
Proof.
  intros Ht. rewrite <- (insert_delete_id G t g Ht) at 2. rewrite cnt_new by apply lookup_delete_eq. lia.
Qed.

Lemma cnt_update f G t g g' : G !! t = Some g → cnt f (<[t := g']> G) = cnt f G - f g + f g'.
Proof.
  intros Ht. rewrite <- insert_delete_eq, cnt_new by apply lookup_delete_eq. rewrite (cnt_delete f G t g) by done. lia.
Qed.

Lemma cnt_nonneg f G : (∀ g, 0 ≤ f g) → 0 ≤ cnt f G.
Proof. intros Hf. induction G as [|t g G Ht IH] using map_ind; [by rewrite cnt_empty|]. rewrite cnt_new by done. specialize (Hf g). lia. Qed.

Lemma cnt_ge f G t g : (∀ g, 0 ≤ f g) → G !! t = Some g → f g ≤ cnt f G.
Proof. intros Hf Ht. pose proof (cnt_delete f G t g Ht). pose proof (cnt_nonneg f (delete t G) Hf). lia. Qed.

Lemma cnt_ge2 f G t g t' g' : (∀ g, 0 ≤ f g) → G !! t = Some g → G !! t' = Some g' → t ≠ t' → f g + f g' ≤ cnt f G.
Proof.
  intros Hf Ht Ht' Hne. pose proof (cnt_delete f G t g Ht). assert (delete t G !! t' = Some g') by (by rewrite lookup_delete_ne).
  pose proof (cnt_ge f (delete t G) t' g' Hf ltac:(done)). lia.
Qed.

Lemma cnt_pos f G : 0 < cnt f G → ∃ t g, G !! t = Some g ∧ 0 < f g.
Proof.
  induction G as [|t g G Ht IH] using map_ind; [rewrite cnt_empty; lia|]. rewrite cnt_new by done. intros Hp.
  destruct (Z_lt_le_dec 0 (f g)) as [Hg|Hg]; [exists t, g; by rewrite lookup_insert_eq|].
  destruct IH as (t'&g'&Ht'&Hg'); [lia|]. exists t', g'. split; [|done]. rewrite lookup_insert_ne by congruence. done.
Qed.

Lemma cnt_zero f G : (∀ t g, G !! t = Some g → f g = 0) → cnt f G = 0.
Proof.
  induction G as [|t g G Ht IH] using map_ind; [by rewrite cnt_empty|]. intros Hf. rewrite cnt_new by done.
  rewrite (Hf t g) by apply lookup_insert_eq. rewrite IH; [done|]. intros t' g' Ht'. apply (Hf t'). rewrite lookup_insert_ne by congruence. done.
Qed.

Lemma cnt_le_length f G (l : list nat) :
  (∀ t g, G !! t = Some g → f g ≤ if bool_decide (t ∈ l) then 1 else 0) → cnt f G ≤ Z.of_nat (length l).
Proof.
  revert G. induction l as [|t l IH]; intros G Hf.
  - assert (cnt f G ≤ 0); [|done]. induction G as [|t g G Ht IHG] using map_ind; [by rewrite cnt_empty|]. rewrite cnt_new by done.
    pose proof (Hf t g (lookup_insert_eq _ _ _)) as Hg. rewrite bool_decide_false in Hg by apply not_elem_of_nil. assert (cnt f G ≤ 0); [|lia]. apply IHG. intros t' g' Ht'. apply (Hf t'). rewrite lookup_insert_ne; [done|congruence].
  - cbn [length]. destruct (G !! t) as [g|] eqn:Ht.
    + pose proof (cnt_delete f G t g Ht) as Hd. pose proof (Hf t g Ht) as Hg. rewrite bool_decide_true in Hg by (by left).
      specialize (IH (delete t G)). assert (cnt f (delete t G) ≤ Z.of_nat (length l)); [|lia]. apply IH. intros t' g' [Hne Ht']%lookup_delete_Some. specialize (Hf t' g' Ht').
      rewrite (bool_decide_ext (t' ∈ t :: l) (t' ∈ l)) in Hf; [done|]. rewrite elem_of_cons. naive_solver.
    + specialize (IH G). assert (cnt f G ≤ Z.of_nat (length l)); [|lia]. apply IH. intros t' g' Ht'. specialize (Hf t' g' Ht').
      rewrite (bool_decide_ext (t' ∈ t :: l) (t' ∈ l)) in Hf; [done|]. rewrite elem_of_cons. split; [|by right]. intros [->|?]; [congruence|done].
Qed.

Lemma cnt_insert f G t g : cnt f (<[t := g]> G) = cnt f G - from_option f 0 (G !! t) + f g.
Proof. destruct (G !! t) as [g0|] eqn:Ht; cbn; [by apply cnt_update|]. rewrite cnt_new by done. lia. Qed.

Lemma cnt_ge_length f G (l : list nat) : (∀ g, 0 ≤ f g) → NoDup l → (∀ t, t ∈ l → ∃ g, G !! t = Some g ∧ 1 ≤ f g) → Z.of_nat (length l) ≤ cnt f G.
Proof.
  intros Hf. revert G. induction l as [|t l IH]; intros G HN Hl; [by apply cnt_nonneg|]. apply NoDup_cons in HN as [Hni HN]. cbn [length].
  destruct (Hl t) as (g&Ht&Hg); [by left|]. pose proof (cnt_delete f G t g Ht). specialize (IH (delete t G) HN).
  assert (Z.of_nat (length l) ≤ cnt f (delete t G)); [|lia]. apply IH. intros t' Ht'. destruct (Hl t') as (g'&?&?); [by right|]. exists g'. split; [|done]. rewrite lookup_delete_ne; [done|]. by intros <-.
Qed.
End COUNT.
