(* ===== verification/LinkedList.v ===== *)
(** lib/list.h and lib/list.cc: the singly linked [List<T>], the [SortedList<T>]
    that inherits from it, and [ListIterator<T>].

    A list owns its ListElements: the record [List] carries the store of its
    own cells next to the fields [first], [last] and [numInList], and every
    pointer write of the code is an update of that store.  [Rep l xs] says that
    the pointer structure [l] holds exactly the sequence [xs] and no other
    cell; the theorems are refinements of the pure operations on [xs].  The
    class [ListADT] at the end is the contract the clients use. *)

From S2P Require Import Prelude.

(** Addresses of ListElements; NULL is [None]. *)
Abbreviation loc := nat.

Module NList.

Section LIST.
Context {T : Type} `{EqDecision T}.

Record ListElement := mkElement { item : T; next : option loc }.

Record List := mkList {
  cells : gmap loc ListElement;
  first : option loc;
  last : option loc;
  numInList : Z
}.

Definition new_List : List := mkList ∅ None None 0.

(** [new ListElement<T>(itm)]: an address that is not in use. *)
Definition new_ListElement (h : gmap loc ListElement) (itm : T) : loc * gmap loc ListElement :=
  let a := fresh (dom h) in (a, <[a := mkElement itm None]> h).

Definition IsEmpty (l : List) : bool := numInList l =? 0.
Definition NumInList (l : List) : Z := numInList l.

Definition Front (l : List) : res T :=
  a ← deref (first l); e ← deref (cells l !! a); Ok (item e).

(** The loop [for (ptr = first; ptr != NULL; ptr = ptr->next)] of IsInList. *)
Fixpoint IsInList_loop (fuel : nat) (h : gmap loc ListElement) (ptr : option loc) (x : T) : res bool :=
  match ptr, fuel with
  | None, _ => Ok false
  | Some _, O => Err OutOfFuel
  | Some a, S fuel =>
      e ← deref (h !! a);
      if decide (x = item e) then Ok true else IsInList_loop fuel h (next e) x
  end.

Definition IsInList (l : List) (x : T) : res bool :=
  IsInList_loop (size (cells l)) (cells l) (first l) x.

Definition Append (x : T) (l : List) : res List :=
  let '(element, h) := new_ListElement (cells l) x in
  let l := mkList h (first l) (last l) (numInList l) in
  dup ← IsInList l x; ASSERT (negb dup) ;;
  l ← (if IsEmpty l then Ok (mkList h (Some element) (Some element) (numInList l))
       else p ← deref (last l); e ← deref (h !! p);
            Ok (mkList (<[p := mkElement (item e) (Some element)]> h)
                       (first l) (Some element) (numInList l)));
  let l := mkList (cells l) (first l) (last l) (numInList l + 1) in
  found ← IsInList l x; ASSERT found ;; Ok l.

Definition Prepend (x : T) (l : List) : res List :=
  let '(element, h) := new_ListElement (cells l) x in
  let l := mkList h (first l) (last l) (numInList l) in
  dup ← IsInList l x; ASSERT (negb dup) ;;
  let l := if IsEmpty l then mkList h (Some element) (Some element) (numInList l)
           else mkList (<[element := mkElement x (first l)]> h)
                       (Some element) (last l) (numInList l) in
  let l := mkList (cells l) (first l) (last l) (numInList l + 1) in
  found ← IsInList l x; ASSERT found ;; Ok l.

Definition RemoveFront (l : List) : res (T * List) :=
  ASSERT (negb (IsEmpty l)) ;;
  element ← deref (first l);
  e ← deref (cells l !! element);
  let '(f, lst) := if decide (first l = last l) then (None, None)
                   else (next e, last l) in
  Ok (item e, mkList (delete element (cells l)) f lst (numInList l - 1)).

(** The loop of Remove, with [prev] one element behind [ptr]. *)
Fixpoint Remove_loop (fuel : nat) (x : T) (l : List) (prev : loc) (ptr : option loc) : res List :=
  match ptr, fuel with
  | None, _ => Err AssertFailed            (* ASSERT(ptr != NULL) after the loop *)
  | Some _, O => Err OutOfFuel
  | Some p, S fuel =>
      e ← deref (cells l !! p);
      if decide (x = item e) then
        pe ← deref (cells l !! prev);
        let h := <[prev := mkElement (item pe) (next e)]> (cells l) in
        let lst := match next e with None => Some prev | Some _ => last l end in
        Ok (mkList (delete p h) (first l) lst (numInList l - 1))
      else Remove_loop fuel x l p (next e)
  end.

Definition Remove (x : T) (l : List) : res List :=
  present ← IsInList l x; ASSERT present ;;
  f ← deref (first l); e ← deref (cells l !! f);
  l ← (if decide (x = item e) then
         '(removed, l) ← RemoveFront l;
         ASSERT (bool_decide (x = removed)) ;; Ok l
       else Remove_loop (size (cells l)) x l f (next e));
  still ← IsInList l x; ASSERT (negb still) ;; Ok l.

(** [Apply(func)], with the effects of [func] on the state [S] of its caller. *)
Fixpoint Apply_loop {S : Type} (fuel : nat) (func : T → S → res S)
    (h : gmap loc ListElement) (ptr : option loc) (s : S) : res S :=
  match ptr, fuel with
  | None, _ => Ok s
  | Some _, O => Err OutOfFuel
  | Some a, Datatypes.S fuel =>
      e ← deref (h !! a); s ← func (item e) s; Apply_loop fuel func h (next e) s
  end.

Definition Apply {S : Type} (func : T → S → res S) (l : List) (s : S) : res S :=
  Apply_loop (size (cells l)) func (cells l) (first l) s.

(** SanityCheck: the loop from [first] to [last] counts the elements and stops
    on an assertion when it counts more than [numInList]. *)
Fixpoint SanityCheck_loop (fuel : nat) (l : List) (ptr : option loc) (numFound : Z) : res Z :=
  if decide (ptr = last l) then Ok numFound else
  match fuel with
  | O => Err OutOfFuel
  | S fuel =>
      let numFound := numFound + 1 in
      ASSERT (numFound <=? numInList l) ;;
      p ← deref ptr; e ← deref (cells l !! p);
      SanityCheck_loop fuel l (next e) numFound
  end.

Definition last_next (l : List) : res (option loc) :=
  p ← deref (last l); e ← deref (cells l !! p); Ok (next e).

Definition SanityCheck (l : List) : res unit :=
  match first l with
  | None => ASSERT ((numInList l =? 0) && bool_decide (last l = None))
  | Some f =>
      if decide (first l = last l) then
        ASSERT (numInList l =? 1) ;; n ← last_next l; ASSERT (bool_decide (n = None))
      else
        numFound ← SanityCheck_loop (Z.to_nat (numInList l)) l (first l) 1;
        ASSERT (numFound =? numInList l) ;;
        n ← last_next l; ASSERT (bool_decide (n = None))
  end.

(** ListIterator. *)
Record ListIterator := mkIterator { current : option loc }.
Definition iter_new (l : List) : ListIterator := mkIterator (first l).
Definition IsDone (it : ListIterator) : bool := bool_decide (current it = None).
Definition Item (l : List) (it : ListIterator) : res T :=
  ASSERT (negb (IsDone it)) ;; a ← deref (current it); e ← deref (cells l !! a); Ok (item e).
Definition Next (l : List) (it : ListIterator) : res ListIterator :=
  a ← deref (current it); e ← deref (cells l !! a); Ok (mkIterator (next e)).

(** SelfTest(p, numEntries): the two loops over the test vector.  [Append] and
    [SanityCheck] are virtual, so SelfTest takes them as arguments: a
    SortedList runs it with its own. *)
Section SELFTEST.
Variables (vAppend : T → List → res List) (vSanityCheck : List → res unit).

Fixpoint SelfTest_append (p : list T) (l : List) : res List :=
  match p with
  | [] => Ok l
  | x :: p =>
      l ← vAppend x l; b ← IsInList l x; ASSERT b ;; ASSERT (negb (IsEmpty l)) ;;
      SelfTest_append p l
  end.

Fixpoint SelfTest_remove (p : list T) (l : List) : res List :=
  match p with
  | [] => Ok l
  | x :: p =>
      l ← Remove x l; b ← IsInList l x; ASSERT (negb b) ;; SelfTest_remove p l
  end.

Definition SelfTest (p : list T) (l : List) : res List :=
  let iterator := iter_new l in
  vSanityCheck l ;;
  ASSERT (IsEmpty l && bool_decide (first l = None)) ;;
  ASSERT (IsDone iterator) ;;               (* ASSERTNOTREACHED in the loop body *)
  l ← SelfTest_append p l;
  vSanityCheck l ;;
  l ← SelfTest_remove p l;
  ASSERT (IsEmpty l) ;; vSanityCheck l ;; Ok l.
End SELFTEST.

End LIST.

Arguments ListElement T : clear implicits.
Arguments List T : clear implicits.

End NList.

Module SortedList.
Import NList.

Section SORTED.
Context {T : Type} `{EqDecision T}.
Variable compare : T → T → Z.

(** The loop of Insert: [None] when it falls off the end of the list. *)
Fixpoint Insert_loop (fuel : nat) (x : T) (element : loc) (l : List T) (ptr : loc) : res (option (List T)) :=
  e ← deref (cells l !! ptr);
  match next e, fuel with
  | None, _ => Ok None
  | Some _, O => Err OutOfFuel
  | Some q, S fuel =>
      qe ← deref (cells l !! q);
      if compare x (item qe) <? 0 then
        let h := <[element := mkElement x (Some q)]> (cells l) in
        Ok (Some (mkList (<[ptr := mkElement (item e) (Some element)]> h)
                         (first l) (last l) (numInList l + 1)))
      else Insert_loop fuel x element l q
  end.

Definition Insert (x : T) (l : List T) : res (List T) :=
  let '(element, h) := new_ListElement (cells l) x in
  let l := mkList h (first l) (last l) (numInList l) in
  let finish (l : List T) :=
    let l := mkList (cells l) (first l) (last l) (numInList l + 1) in
    found ← IsInList l x; ASSERT found ;; Ok l in
  dup ← IsInList l x; ASSERT (negb dup) ;;
  if IsEmpty l then finish (mkList h (Some element) (Some element) (numInList l))
  else
    f ← deref (first l); fe ← deref (h !! f);
    if compare x (item fe) <? 0 then
      finish (mkList (<[element := mkElement x (Some f)]> h)
                     (Some element) (last l) (numInList l))
    else
      r ← Insert_loop (size (cells l)) x element l f;
      match r with
      | Some l => Ok l                       (* return from inside the loop *)
      | None =>
          p ← deref (last l); e ← deref (h !! p);
          finish (mkList (<[p := mkElement (item e) (Some element)]> h)
                         (first l) (Some element) (numInList l))
      end.

(** SortedList::SanityCheck. *)
Fixpoint SortedCheck_loop (fuel : nat) (l : List T) (prev : loc) (ptr : option loc) : res unit :=
  match ptr, fuel with
  | None, _ => Ok tt
  | Some _, O => Err OutOfFuel
  | Some p, S fuel =>
      pe ← deref (cells l !! prev); e ← deref (cells l !! p);
      ASSERT (compare (item pe) (item e) <=? 0) ;;
      SortedCheck_loop fuel l p (next e)
  end.

Definition SanityCheck (l : List T) : res unit :=
  NList.SanityCheck l ;;
  if decide (first l = last l) then Ok tt else
  f ← deref (first l); e ← deref (cells l !! f);
  SortedCheck_loop (size (cells l)) l f (next e).

(** SortedList::SelfTest: insert the vector, take everything out in order. *)
Fixpoint SelfTest_insert (p : list T) (l : List T) : res (List T) :=
  match p with
  | [] => Ok l
  | x :: p => l ← Insert x l; b ← IsInList l x; ASSERT b ;; SelfTest_insert p l
  end.

Fixpoint SelfTest_drain (numEntries : nat) (l : List T) : res (list T * List T) :=
  match numEntries with
  | O => Ok ([], l)
  | S n =>
      '(x, l) ← RemoveFront l; b ← IsInList l x; ASSERT (negb b) ;;
      '(q, l) ← SelfTest_drain n l; Ok (x :: q, l)
  end.

Fixpoint SelfTest_ordered (q : list T) : res unit :=
  match q with
  | x :: (y :: _) as q' => ASSERT (compare x y <=? 0) ;; SelfTest_ordered q'
  | _ => Ok tt
  end.

Definition SelfTest (p : list T) (l : List T) : res (List T) :=
  l ← NList.SelfTest Insert SanityCheck p l;
  l ← SelfTest_insert p l;
  SanityCheck l ;;
  '(q, l) ← SelfTest_drain (length p) l;
  ASSERT (IsEmpty l) ;; SelfTest_ordered q ;; SanityCheck l ;; Ok l.

End SORTED.
End SortedList.

(** * The sequence a pointer structure holds *)

Module Repr.
Import NList.

Section REPR.
Context {T : Type} `{EqDecision T}.
Implicit Types (ns : list (loc * T)) (xs : list T) (l : List T).

Definition heads ns : option loc := fst <$> head ns.

(** The store of the cells [ns], linked in this order. *)
Fixpoint cells_of ns : gmap loc (ListElement T) :=
  match ns with
  | [] => ∅
  | (a, x) :: ns' => <[a := mkElement x (heads ns')]> (cells_of ns')
  end.

Definition Rep l xs : Prop :=
  NoDup xs ∧ ∃ ns, NoDup ns.*1 ∧ xs = ns.*2 ∧ cells l = cells_of ns ∧ first l = heads ns
    ∧ last l = list.last ns.*1 ∧ numInList l = Z.of_nat (length ns).

Lemma dom_cells_of ns : dom (cells_of ns) = list_to_set ns.*1.
Proof. induction ns as [|[a x] ns IH]; cbn; [set_solver|]. rewrite dom_insert_L. set_solver. Qed.

Lemma cells_of_None ns a : a ∉ ns.*1 → cells_of ns !! a = None.
Proof. intros H. apply not_elem_of_dom. rewrite dom_cells_of. set_solver. Qed.

Lemma size_cells_of ns : NoDup ns.*1 → size (cells_of ns) = length ns.
Proof.
  intros H. rewrite <- size_dom, dom_cells_of, size_list_to_set by done. by rewrite length_fmap.
Qed.

Lemma heads_app ns ns' : ns ≠ [] → heads (ns ++ ns') = heads ns.
Proof. by destruct ns. Qed.

Lemma heads_cons_app ns a x ns' ns'' :
  heads (ns ++ (a, x) :: ns') = heads (ns ++ (a, x) :: ns'').
Proof. by destruct ns. Qed.

Lemma cells_of_mid ns a x ns' :
  NoDup (ns ++ (a, x) :: ns').*1 →
  cells_of (ns ++ (a, x) :: ns') !! a = Some (mkElement x (heads ns')).
Proof.
  induction ns as [|[b y] ns IH]; cbn; intros Hnd.
  - by simplify_map_eq.
  - apply NoDup_cons in Hnd as [Hb Hnd]. rewrite lookup_insert_ne; [by apply IH|].
    intros ->. apply Hb. rewrite fmap_app. set_solver.
Qed.

Lemma NoDup_insert_after ns p x e y ns' :
  NoDup (ns ++ (p, x) :: ns').*1 → e ∉ (ns ++ (p, x) :: ns').*1 →
  NoDup (ns ++ (p, x) :: (e, y) :: ns').*1.
Proof.
  rewrite (cons_middle (p, x)), app_assoc, (fmap_app _ (ns ++ [_])).
  rewrite (cons_middle (p, x) ns ((e, y) :: ns')), app_assoc, (fmap_app _ (ns ++ [_]) ((e, y) :: _)).
  cbn [fmap list_fmap fst]. rewrite (NoDup_middle _ _ e). done.
Qed.

Lemma cells_of_head a x ns :
  cells_of ((a, x) :: ns) !! a = Some (mkElement x (heads ns)).
Proof. apply lookup_insert_eq. Qed.

(** Linking a new cell behind a cell, and unlinking the cell behind a cell. *)
Lemma cells_of_insert_after ns p x e y ns' :
  NoDup (ns ++ (p, x) :: (e, y) :: ns').*1 →
  <[p := mkElement x (Some e)]> (<[e := mkElement y (heads ns')]> (cells_of (ns ++ (p, x) :: ns')))
  = cells_of (ns ++ (p, x) :: (e, y) :: ns').
Proof.
  induction ns as [|[b z] ns IH]; cbn; intros Hnd.
  - apply NoDup_cons in Hnd as [Hp _].
    rewrite (insert_insert_ne _ e p) by set_solver. by rewrite insert_insert_eq.
  - apply NoDup_cons in Hnd as [Hb Hnd].
    assert (b ≠ p ∧ b ≠ e) as [??] by (rewrite fmap_app in Hb; set_solver).
    rewrite (insert_insert_ne _ e b), (insert_insert_ne _ p b), IH by done.
    f_equal. f_equal. apply heads_cons_app.
Qed.

Lemma cells_of_delete_after ns p x q y ns' :
  NoDup (ns ++ (p, x) :: (q, y) :: ns').*1 →
  delete q (<[p := mkElement x (heads ns')]> (cells_of (ns ++ (p, x) :: (q, y) :: ns')))
  = cells_of (ns ++ (p, x) :: ns').
Proof.
  intros Hnd. rewrite <- cells_of_insert_after by done.
  rewrite fmap_app in Hnd; cbn in Hnd.
  apply list.NoDup_app in Hnd as (Hns&Hdis&Hnd).
  apply NoDup_cons in Hnd as [Hp Hnd]. apply NoDup_cons in Hnd as [Hq Hns'].
  rewrite insert_insert_eq, delete_insert_ne, delete_insert_eq by set_solver.
  rewrite delete_id.
  - apply insert_id, cells_of_mid. rewrite fmap_app; cbn.
    rewrite list.NoDup_app, NoDup_cons. set_solver.
  - apply cells_of_None. rewrite fmap_app; cbn. set_solver.
Qed.

(** Walking the chain: the fuel of the loops is the number of cells. *)
Lemma IsInList_loop_spec fuel h ns x :
  cells_of ns ⊆ h → NoDup ns.*1 → (length ns ≤ fuel)%nat →
  IsInList_loop fuel h (heads ns) x = Ok (bool_decide (x ∈ ns.*2)).
Proof.
  revert ns. induction fuel as [|fuel IH]; intros [|[a y] ns] Hh Hnd Hf; cbn in *; try lia; auto.
  assert (h !! a = Some (mkElement y (heads ns))) as -> by
    (eapply lookup_weaken; [apply lookup_insert_eq|exact Hh]).
  apply NoDup_cons in Hnd as [Ha Hnd]. cbn.
  case_decide as Hxy; subst.
  - rewrite bool_decide_true; [done|]. left.
  - change (fst <$> head ns) with (heads ns). rewrite IH; [|etrans; [|done]|done|lia].
    + f_equal. apply bool_decide_ext. set_solver.
    + apply insert_subseteq, cells_of_None, Ha.
Qed.

Lemma IsInList_spec lst h ns x n :
  cells_of ns ⊆ h → NoDup ns.*1 →
  IsInList (mkList h (heads ns) lst n) x = Ok (bool_decide (x ∈ ns.*2)).
Proof.
  intros Hh Hnd. unfold IsInList; cbn. apply IsInList_loop_spec; [done..|].
  rewrite <- size_cells_of by done. by apply map_subseteq_size.
Qed.

Lemma Rep_IsInList l xs x : Rep l xs → IsInList l x = Ok (bool_decide (x ∈ xs)).
Proof.
  intros (_&ns&Hnd&->&Hc&Hf&_). destruct l as [h f lst n]; cbn in *; subst.
  by apply IsInList_spec.
Qed.

Lemma Rep_IsEmpty l xs : Rep l xs → IsEmpty l = bool_decide (xs = []).
Proof.
  intros (_&ns&_&->&_&_&_&Hn). unfold IsEmpty. rewrite Hn.
  by destruct ns.
Qed.

Lemma Rep_new : Rep new_List [].
Proof. split; [constructor|]. exists []. repeat split; constructor. Qed.

(** A representation that is exposed: the fields of [l] in terms of [ns]. *)
Lemma Rep_intro h f lst n ns xs :
  NoDup xs → NoDup ns.*1 → xs = ns.*2 → h = cells_of ns → f = heads ns →
  lst = list.last ns.*1 → n = Z.of_nat (length ns) → Rep (mkList h f lst n) xs.
Proof. intros. split; [done|]. exists ns. naive_solver. Qed.

Lemma Rep_elim l xs :
  Rep l xs → NoDup xs ∧ ∃ ns, NoDup ns.*1 ∧ xs = ns.*2
    ∧ l = mkList (cells_of ns) (heads ns) (list.last ns.*1) (Z.of_nat (length ns)).
Proof.
  intros (Hx&ns&?&?&?&?&?&?). split; [done|]. exists ns. destruct l; cbn in *; by subst.
Qed.

Lemma new_element_fresh h x a h' :
  new_ListElement (T:=T) h x = (a, h') → (a ∉ dom h) ∧ (h' = <[a := mkElement x None]> h).
Proof. unfold new_ListElement. intros [= <- <-]. split; [apply is_fresh|done]. Qed.

Lemma fresh_cell ns (a : loc) y : a ∉ dom (cells_of ns) → cells_of ns ⊆ <[a := y]> (cells_of ns).
Proof. intros. by apply insert_subseteq, not_elem_of_dom. Qed.

Lemma fresh_not_in ns a : a ∉ dom (cells_of ns) → a ∉ ns.*1.
Proof. rewrite dom_cells_of. set_solver. Qed.

(** The last two lines of Append, Prepend and Insert. *)
Lemma finish_spec h f lst n ns xs x :
  NoDup xs → NoDup ns.*1 → xs = ns.*2 → h = cells_of ns → f = heads ns →
  lst = list.last ns.*1 → n + 1 = Z.of_nat (length ns) → x ∈ xs →
  ∃ l', (found ← IsInList (mkList h f lst (n + 1)) x; ASSERT found ;;
         Ok (mkList h f lst (n + 1))) = Ok l' ∧ Rep l' xs.
Proof.
  intros ? ? -> -> -> -> Hn Hx. rewrite IsInList_spec by done.
  rewrite bool_decide_true by done. cbn. eexists; split; [done|].
  by eapply Rep_intro.
Qed.

(** Every sequence of nodes is empty or has a last node. *)
Lemma nodes_snoc ns : ns = [] ∨ ∃ ns' p y, ns = ns' ++ [(p, y)].
Proof. destruct ns as [|[p y] ns' _] using rev_ind; naive_solver. Qed.

Lemma cells_of_append ns p y e x :
  NoDup (ns ++ [(p, y); (e, x)]).*1 →
  <[p := mkElement y (Some e)]> (<[e := mkElement x None]> (cells_of (ns ++ [(p, y)])))
  = cells_of (ns ++ [(p, y); (e, x)]).
Proof. intros. by rewrite <- (cells_of_insert_after ns p y e x []). Qed.

End REPR.
End Repr.

(** * The operations refine the operations on sequences *)

Module ListSpec.
Import NList Repr.

Section SPEC.
Context {T : Type} `{EqDecision T}.
Implicit Types (xs : list T) (l : List T).

Lemma Append_spec l xs x :
  Rep l xs → x ∉ xs → ∃ l', Append x l = Ok l' ∧ Rep l' (xs ++ [x]).
Proof.
  intros (Hx&ns&Hnd&->&->)%Rep_elim Hni. unfold Append.
  destruct (new_ListElement _ _) as [e h] eqn:Hnew.
  apply new_element_fresh in Hnew as [Hfr ->]; cbn [cells first last numInList].
  rewrite IsInList_spec by (done || by apply fresh_cell).
  rewrite bool_decide_false by done; cbn [mbind res_bind negb ASSERT IsEmpty numInList].
  apply fresh_not_in in Hfr.
  destruct (nodes_snoc ns) as [->|(ns'&p&y&->)].
  - cbn -[IsInList Z.add]. apply (finish_spec _ _ _ _ [(e, x)]); cbn; auto using NoDup_singleton.
    left.
  - assert (NoDup ((ns' ++ [(p, y)]) ++ [(e, x)]).*1) as Hnd'.
    { rewrite fmap_app. by apply NoDup_snoc. }
    assert (IsEmpty (mkList (cells_of (ns' ++ [(p, y)])) None None
       (Z.of_nat (length (ns' ++ [(p, y)])))) = false) as Hem.
    { unfold IsEmpty; cbn. rewrite length_app. cbn. apply Z.eqb_neq. lia. }
    unfold IsEmpty in *; cbn [numInList] in *. rewrite Hem.
    rewrite fmap_app; cbn [fmap list_fmap]. rewrite last_snoc. cbn [deref mbind res_bind].
    rewrite lookup_insert_ne, cells_of_mid by
      (done || (intros ->; apply Hfr; rewrite fmap_app; set_solver)).
    cbn [deref mbind res_bind item cells first last numInList].
    rewrite <- app_assoc in Hnd'. cbn [app] in Hnd'. rewrite cells_of_append by done.
    apply (finish_spec _ _ _ _ (ns' ++ [(p, y); (e, x)])); try done.
    + apply NoDup_snoc. rewrite fmap_app in *. done.
    + rewrite !fmap_app. cbn. by rewrite <- app_assoc.
    + apply heads_cons_app.
    + rewrite fmap_app. cbn. by rewrite last_app_cons.
    + rewrite !length_app. cbn. lia.
    + set_solver.
Qed.

Lemma Append_duplicate l xs x : Rep l xs → x ∈ xs → Append x l = Err AssertFailed.
Proof.
  intros (Hx&ns&Hnd&->&->)%Rep_elim Hin. unfold Append.
  destruct (new_ListElement _ _) as [e h] eqn:Hnew.
  apply new_element_fresh in Hnew as [Hfr ->]; cbn [cells first last numInList].
  rewrite IsInList_spec by (done || by apply fresh_cell).
  by rewrite bool_decide_true.
Qed.

Lemma Prepend_duplicate l xs x : Rep l xs → x ∈ xs → Prepend x l = Err AssertFailed.
Proof.
  intros (Hx&ns&Hnd&->&->)%Rep_elim Hin. unfold Prepend.
  destruct (new_ListElement _ _) as [e h] eqn:Hnew.
  apply new_element_fresh in Hnew as [Hfr ->]; cbn [cells first last numInList].
  rewrite IsInList_spec by (done || by apply fresh_cell).
  by rewrite bool_decide_true.
Qed.

Lemma Prepend_spec l xs x :
  Rep l xs → x ∉ xs → ∃ l', Prepend x l = Ok l' ∧ Rep l' (x :: xs).
Proof.
  intros (Hx&ns&Hnd&->&->)%Rep_elim Hni. unfold Prepend.
  destruct (new_ListElement _ _) as [e h] eqn:Hnew.
  apply new_element_fresh in Hnew as [Hfr ->]; cbn [cells first last numInList].
  rewrite IsInList_spec by (done || by apply fresh_cell).
  rewrite bool_decide_false by done; cbn [mbind res_bind negb ASSERT].
  apply fresh_not_in in Hfr.
  replace (if IsEmpty _ then _ else _) with
    (mkList (cells_of ((e, x) :: ns)) (Some e) (list.last ((e, x) :: ns).*1) (Z.of_nat (length ns))).
  - apply (finish_spec _ _ _ _ ((e, x) :: ns)); cbn; auto with lia; [by constructor..|left].
  - destruct ns as [|[p y] ns]; [done|].
    cbn -[cells_of insert]. by rewrite insert_insert_eq.
Qed.

Lemma RemoveFront_spec l x xs :
  Rep l (x :: xs) → ∃ l', RemoveFront l = Ok (x, l') ∧ Rep l' xs.
Proof.
  intros (Hx&[|[p y] ns]&Hnd&?&->)%Rep_elim; simplify_eq/=.
  apply NoDup_cons in Hnd as [Hp Hnd]. apply NoDup_cons in Hx as [_ Hx].
  unfold RemoveFront; cbn -[Z.of_nat insert delete]. rewrite lookup_insert_eq; cbn -[Z.of_nat insert delete].
  destruct ns as [|[q z] ns]; cbn -[Z.of_nat insert delete list.last].
  - rewrite decide_True by done. eexists; split; [done|].
    apply (Rep_intro _ _ _ _ []); try done. cbn. by rewrite delete_insert_eq.
  - rewrite decide_False.
    + eexists; split; [done|]. apply (Rep_intro _ _ _ _ ((q, z) :: ns)); try done.
      * rewrite delete_insert_id; [done|]. by apply (cells_of_None ((q, z) :: ns)).
      * cbn [length]. lia.
    + cbn -[list.last]. rewrite list.last_cons_cons. intros Heq. symmetry in Heq.
      apply last_Some_elem_of in Heq. done.
Qed.

Lemma RemoveFront_empty l : Rep l [] → RemoveFront l = Err AssertFailed.
Proof. intros HR. unfold RemoveFront. by rewrite (Rep_IsEmpty _ _ HR). Qed.

Lemma last_after_unlink (ns : list (loc * T)) p y q x ns' :
  match heads ns' with None => Some p | Some _ => list.last (ns ++ (p, y) :: (q, x) :: ns').*1 end
  = list.last (ns ++ (p, y) :: ns').*1.
Proof.
  rewrite !fmap_app; cbn [fmap list_fmap fst]. rewrite !last_app_cons.
  by destruct ns' as [|[r z] ns'].
Qed.

Lemma Remove_loop_spec fuel (x : T) ns1 p (y : T) ns3 q ns4 f n :
  NoDup (ns1 ++ (p, y) :: ns3 ++ (q, x) :: ns4).*1 → x ∉ ns3.*2 → (length ns3 < fuel)%nat →
  Remove_loop fuel x
    (mkList (cells_of (ns1 ++ (p, y) :: ns3 ++ (q, x) :: ns4)) f
            (list.last (ns1 ++ (p, y) :: ns3 ++ (q, x) :: ns4).*1) n)
    p (heads (ns3 ++ (q, x) :: ns4))
  = Ok (mkList (cells_of (ns1 ++ (p, y) :: ns3 ++ ns4)) f
               (list.last (ns1 ++ (p, y) :: ns3 ++ ns4).*1) (n - 1)).
Proof.
  revert ns1 p y fuel. induction ns3 as [|[r z] ns3 IH]; intros ns1 p y [|fuel] Hnd Hx Hf;
    cbn [length app] in *; try lia; cbn [heads head fmap option_fmap option_map fst Remove_loop cells].
  - rewrite (cons_middle _ ns1), app_assoc in Hnd |- *. rewrite cells_of_mid by done.
    cbn [deref mbind res_bind item next]. rewrite decide_True by done.
    rewrite <- app_assoc in Hnd |- *; cbn [app] in *. rewrite cells_of_mid by done.
    cbn [deref mbind res_bind item next last first numInList].
    by rewrite cells_of_delete_after, last_after_unlink.
  - rewrite (cons_middle _ ns1), app_assoc in Hnd |- *. rewrite cells_of_mid by done.
    cbn [deref mbind res_bind item next]. rewrite decide_False by set_solver.
    rewrite IH; [|done|set_solver|lia]. by rewrite <- app_assoc.
Qed.

(** What Remove leaves: the sequence without [x]. *)
Definition remove_item (x : T) (xs : list T) : list T := filter (λ y, y ≠ x) xs.
Arguments remove_item : simpl never.

Lemma remove_item_mid x xs1 xs2 :
  x ∉ xs1 → x ∉ xs2 → remove_item x (xs1 ++ x :: xs2) = xs1 ++ xs2.
Proof.
  intros H1 H2. unfold remove_item. rewrite filter_app, filter_cons_False by auto.
  f_equal; apply list_filter_all, Forall_forall; set_solver.
Qed.

(** The two ways Remove unlinks its item: at the front, or behind [prev]. *)
Lemma Remove_front_spec l x xs :
  Rep l (x :: xs) →
  ∃ l', ('(removed, l) ← RemoveFront l; ASSERT (bool_decide (x = removed)) ;; Ok l) = Ok l'
        ∧ Rep l' (remove_item x (x :: xs)).
Proof.
  intros HR. destruct (RemoveFront_spec l x xs HR) as (l'&->&HR').
  cbn. rewrite bool_decide_true by done; cbn. exists l'; split; [done|].
  destruct HR as [[Hx _]%NoDup_cons _].
  pose proof (remove_item_mid x [] xs) as E. cbn [app] in E. rewrite E; set_solver.
Qed.

Lemma Remove_behind_spec ns x p y :
  let ns0 := (p, y) :: ns in
  let l := mkList (cells_of ns0) (Some p) (list.last ns0.*1) (Z.of_nat (length ns0)) in
  Rep l ns0.*2 → NoDup ns0.*1 → x ∈ ns.*2 →
  ∃ l', Remove_loop (size (cells l)) x l p (heads ns) = Ok l' ∧ Rep l' (remove_item x ns0.*2).
Proof.
  intros ns0 l [Hx _] Hnd ([q z]&->&Hin)%list_elem_of_fmap; cbn [snd] in *; subst ns0 l.
  apply list_elem_of_split in Hin as (ns3&ns4&->).
  cbn [fmap list_fmap fst snd] in Hx, Hnd. rewrite fmap_app in Hx. rewrite fmap_app in Hnd. cbn in Hx, Hnd.
  apply NoDup_cons in Hx as [Hy (H3&Hd&[Hz H4]%NoDup_cons)%list.NoDup_app].
  assert (z ∉ ns3.*2) as Hz3 by (intros Hc; apply (Hd z Hc); left).
  eexists. split; [apply (Remove_loop_spec _ _ [])|].
  - cbn. rewrite fmap_app. done.
  - done.
  - cbn [cells]. rewrite size_cells_of; cbn; rewrite ?fmap_app; [rewrite length_app; cbn; lia|done].
  - assert (remove_item z ((p, y) :: ns3 ++ (q, z) :: ns4).*2 = ((p, y) :: ns3 ++ ns4).*2) as ->.
    { cbn. rewrite !fmap_app. apply (remove_item_mid z (y :: ns3.*2)); set_solver. }
    apply NoDup_cons in Hnd as [Hp (?&?&[? ?]%NoDup_cons)%list.NoDup_app].
    apply Rep_intro with ((p, y) :: ns3 ++ ns4); try done.
    + cbn. rewrite fmap_app, NoDup_cons, list.NoDup_app. set_solver.
    + cbn. rewrite fmap_app, NoDup_cons, list.NoDup_app. set_solver.
    + cbn. rewrite !length_app. cbn. lia.
Qed.

Lemma Remove_spec l xs x :
  Rep l xs → x ∈ xs → ∃ l', Remove x l = Ok l' ∧ Rep l' (remove_item x xs).
Proof.
  intros HR Hin. pose proof HR as (Hx&[|[p y] ns]&Hnd&->&->)%Rep_elim; [by apply not_elem_of_nil in Hin|].
  unfold Remove. rewrite (Rep_IsInList _ _ _ HR), bool_decide_true by done.
  cbn [mbind res_bind ASSERT first cells heads head fmap option_fmap option_map fst deref].
  rewrite cells_of_head. cbn [deref mbind res_bind item next].
  assert (∀ l', Rep l' (remove_item x ((p, y) :: ns).*2) →
    ∃ l'', (still ← IsInList l' x; ASSERT (negb still) ;; Ok l') = Ok l''
           ∧ Rep l'' (remove_item x ((p, y) :: ns).*2)) as Hlast.
  { intros l' HR'. rewrite (Rep_IsInList _ _ _ HR'), bool_decide_false; [by exists l'|].
    unfold remove_item. rewrite list_elem_of_filter. naive_solver. }
  case_decide as Hxy; [subst y|].
  - destruct (Remove_front_spec _ _ _ HR) as (l'&Hl'&HR'). setoid_rewrite Hl'. by apply Hlast.
  - destruct (Remove_behind_spec ns x p y) as (l'&Hl'&HR'); [done..|set_solver|].
    setoid_rewrite Hl'. by apply Hlast.
Qed.

Lemma Remove_absent l xs x : Rep l xs → x ∉ xs → Remove x l = Err AssertFailed.
Proof.
  intros HR Hni. unfold Remove. by rewrite (Rep_IsInList _ _ _ HR), bool_decide_false.
Qed.

Lemma Front_spec l x xs : Rep l (x :: xs) → Front l = Ok x.
Proof.
  intros (_&[|[p y] ns]&_&Heq&->)%Rep_elim; [done|]. injection Heq as -> ->.
  unfold Front; cbn [first cells heads head fmap option_fmap option_map fst deref mbind res_bind].
  by rewrite cells_of_head.
Qed.

Lemma Apply_loop_spec {S} (f : T → S → res S) h ns s fuel :
  NoDup ns.*1 → cells_of ns ⊆ h → (length ns ≤ fuel)%nat →
  Apply_loop fuel f h (heads ns) s = foldM f ns.*2 s.
Proof.
  revert ns s. induction fuel as [|fuel IH]; intros [|[a y] ns] s Hnd Hh Hf; cbn in Hf; try lia; [done..|].
  cbn [Apply_loop heads head fmap option_fmap option_map fst list_fmap foldM snd].
  rewrite (lookup_weaken _ _ _ _ (cells_of_head a y ns) Hh). cbn [deref mbind res_bind item next].
  apply NoDup_cons in Hnd as [Ha Hnd].
  destruct (f y s); cbn [mbind res_bind]; [|done]. apply IH; [done| |lia].
  etrans; [|exact Hh]. by apply insert_subseteq, cells_of_None.
Qed.

Lemma Apply_spec {S} (f : T → S → res S) l xs s : Rep l xs → Apply f l s = foldM f xs s.
Proof.
  intros (_&ns&Hnd&->&->)%Rep_elim. unfold Apply; cbn [cells first].
  apply Apply_loop_spec; [done..|]. by rewrite size_cells_of.
Qed.

Lemma SanityCheck_loop_spec fuel ns1 p (y : T) ns2 :
  let ns := ns1 ++ (p, y) :: ns2 in
  NoDup ns.*1 → (length ns2 ≤ fuel)%nat →
  SanityCheck_loop fuel
    (mkList (cells_of ns) (heads ns) (list.last ns.*1) (Z.of_nat (length ns)))
    (Some p) (Z.of_nat (length ns1) + 1) = Ok (Z.of_nat (length ns)).
Proof.
  intros ns. subst ns. revert ns1 p y fuel.
  induction ns2 as [|[q z] ns2 IH]; intros ns1 p y fuel Hnd Hf.
  - rewrite fmap_app; cbn [fmap list_fmap fst]. rewrite last_snoc.
    destruct fuel; cbn [SanityCheck_loop last]; rewrite decide_True by done;
      rewrite length_app; cbn; f_equal; lia.
  - destruct fuel as [|fuel]; cbn in Hf; [lia|]. cbn [SanityCheck_loop last].
    rewrite decide_False.
    + rewrite (proj2 (Z.leb_le _ _)) by (cbn; rewrite length_app; cbn; lia).
      cbn [ASSERT deref mbind res_bind cells]. rewrite cells_of_mid by done.
      cbn [deref mbind res_bind next heads head fmap option_fmap option_map fst].
      rewrite (cons_middle (p, y)), app_assoc in Hnd |- *.
      replace (Z.of_nat (length ns1) + 1 + 1) with (Z.of_nat (length (ns1 ++ [(p, y)])) + 1)
        by (rewrite length_app; cbn; lia).
      apply IH; [done|lia].
    + intros Heq. rewrite fmap_app in *. cbn [fmap list_fmap fst] in *.
      rewrite last_app_cons, last_cons_cons in Heq. symmetry in Heq.
      apply last_Some_elem_of in Heq.
      apply list.NoDup_app in Hnd as (_&_&[Hp _]%NoDup_cons). done.
Qed.

Lemma last_next_spec ns f n :
  NoDup ns.*1 → ns ≠ [] →
  last_next (mkList (cells_of (T:=T) ns) f (list.last ns.*1) n) = Ok None.
Proof.
  intros Hnd Hne. destruct (nodes_snoc ns) as [->|(ns'&p&y&->)]; [done|].
  unfold last_next; cbn [last cells]. rewrite fmap_app; cbn [fmap list_fmap fst].
  rewrite last_snoc; cbn [deref mbind res_bind]. by rewrite cells_of_mid.
Qed.

Lemma SanityCheck_spec l xs : Rep l xs → SanityCheck l = Ok tt.
Proof.
  intros (_&[|[p y] ns]&Hnd&->&->)%Rep_elim; [done|].
  unfold SanityCheck; cbn [first heads head fmap option_fmap option_map fst last].
  case_decide as Heq.
  - destruct ns as [|[q z] ns].
    + cbn [numInList length]. rewrite (last_next_spec [(p, y)]) by done. done.
    + exfalso. apply NoDup_cons in Hnd as [Hp _]. cbn [fmap list_fmap fst] in *.
      rewrite last_cons_cons in Heq. symmetry in Heq. by apply last_Some_elem_of in Heq.
  - pose proof (SanityCheck_loop_spec (Z.to_nat (Z.of_nat (length ((p, y) :: ns)))) [] p y ns) as H.
    cbn [app] in H. cbn [numInList first]. setoid_rewrite H; [|done|cbn; lia].
    cbn [mbind res_bind]. rewrite Z.eqb_refl; cbn [ASSERT mbind res_bind].
    by setoid_rewrite last_next_spec.
Qed.

(** An iterator that has still to visit [xs]. *)
Definition IterRep l (it : ListIterator) xs : Prop :=
  ∃ ns1 ns2, NoDup (ns1 ++ ns2).*1 ∧ cells l = cells_of (ns1 ++ ns2)
    ∧ current it = heads ns2 ∧ xs = ns2.*2.

Lemma iter_new_spec l xs : Rep l xs → IterRep l (iter_new l) xs.
Proof. intros (_&ns&Hnd&->&->)%Rep_elim. by exists [], ns. Qed.

Lemma iter_done_spec l it xs : IterRep l it xs → IsDone it = bool_decide (xs = []).
Proof. intros (ns1&[|[p y] ns2]&_&_&Hc&->); unfold IsDone; by rewrite Hc. Qed.

Lemma iter_step_spec l it x xs :
  IterRep l it (x :: xs) → Item l it = Ok x ∧ ∃ it', Next l it = Ok it' ∧ IterRep l it' xs.
Proof.
  intros HI. pose proof (iter_done_spec _ _ _ HI) as Hd. rewrite bool_decide_false in Hd by done.
  destruct HI as (ns1&[|[p y] ns2]&Hnd&Hcells&Hc&Heq); [done|]. injection Heq as -> ->.
  unfold Item, Next. rewrite Hd, Hc, Hcells; cbn [deref mbind res_bind negb ASSERT heads head fmap option_fmap option_map fst].
  rewrite cells_of_mid by done. cbn [deref mbind res_bind item next]. split; [done|].
  eexists; split; [done|]. exists (ns1 ++ [(p, y)]), ns2. rewrite <- app_assoc. done.
Qed.

(** SelfTest of a class derived from List: [G] is the invariant of the class. *)
Section SELFTEST.
Variables (G : List T → list T → Prop)
  (vAppend : T → List T → res (List T)) (vSanityCheck : List T → res unit).
Hypothesis G_Rep : ∀ l xs, G l xs → Rep l xs.
Hypothesis G_append : ∀ l xs x, G l xs → x ∉ xs →
  ∃ l' xs', vAppend x l = Ok l' ∧ G l' xs' ∧ xs' ≡ₚ x :: xs.
Hypothesis G_remove : ∀ l xs x, G l xs → x ∈ xs → ∃ l', Remove x l = Ok l' ∧ G l' (remove_item x xs).
Hypothesis G_check : ∀ l xs, G l xs → vSanityCheck l = Ok tt.

Lemma SelfTest_append_spec p l xs :
  G l xs → NoDup (p ++ xs) →
  ∃ l' xs', SelfTest_append vAppend p l = Ok l' ∧ G l' xs' ∧ xs' ≡ₚ p ++ xs.
Proof.
  revert l xs. induction p as [|x p IH]; intros l xs HG Hnd; cbn [SelfTest_append app] in *; [by eauto|].
  apply NoDup_cons in Hnd as [Hx Hnd].
  destruct (G_append l xs x HG) as (l1&xs1&->&HG1&Hp); [set_solver|]. cbn [mbind res_bind].
  rewrite (Rep_IsInList _ _ _ (G_Rep _ _ HG1)), bool_decide_true by (rewrite Hp; left).
  rewrite (Rep_IsEmpty _ _ (G_Rep _ _ HG1)), bool_decide_false by (intros ->; by apply Permutation_nil_cons in Hp).
  cbn [ASSERT negb mbind res_bind].
  destruct (IH l1 xs1 HG1) as (l2&xs2&->&HG2&Hp2).
  { rewrite Hp. rewrite <- Permutation_middle. by constructor. }
  exists l2, xs2. split; [done|]. split; [done|]. rewrite Hp2, Hp. symmetry. apply Permutation_middle.
Qed.

Lemma SelfTest_remove_spec p l xs :
  G l xs → xs ≡ₚ p → ∃ l', SelfTest_remove p l = Ok l' ∧ G l' [].
Proof.
  revert l xs. induction p as [|x p IH]; intros l xs HG Hp; cbn [SelfTest_remove].
  - symmetry in Hp. apply Permutation_nil in Hp as ->. eauto.
  - destruct (G_remove l xs x HG) as (l1&->&HG1); [rewrite Hp; left|]. cbn [mbind res_bind].
    rewrite (Rep_IsInList _ _ _ (G_Rep _ _ HG1)), bool_decide_false
      by (unfold remove_item; rewrite list_elem_of_filter; naive_solver).
    cbn [ASSERT negb mbind res_bind]. apply (IH _ _ HG1).
    destruct (G_Rep _ _ HG) as [Hnd _]. rewrite Hp in Hnd. apply NoDup_cons in Hnd as [Hx _].
    unfold remove_item. rewrite Hp. rewrite filter_cons_False by auto.
    by rewrite list_filter_all by (apply Forall_forall; set_solver).
Qed.

Lemma SelfTest_spec p l :
  G l [] → NoDup p → ∃ l', SelfTest vAppend vSanityCheck p l = Ok l' ∧ G l' [].
Proof.
  intros HG Hnd. unfold SelfTest. rewrite (G_check _ _ HG); cbn [mbind res_bind].
  pose proof (G_Rep _ _ HG) as HR. rewrite (Rep_IsEmpty _ _ HR).
  rewrite (iter_done_spec _ _ _ (iter_new_spec _ _ HR)).
  assert (first l = None) as -> by (by destruct HR as (_&[|[]]&?&?&?&->&?)).
  cbn [bool_decide andb ASSERT mbind res_bind].
  destruct (SelfTest_append_spec p l [] HG) as (l1&xs1&->&HG1&Hp); [by rewrite app_nil_r|].
  rewrite app_nil_r in Hp. cbn [mbind res_bind]. rewrite (G_check _ _ HG1); cbn [mbind res_bind].
  destruct (SelfTest_remove_spec p l1 xs1 HG1 Hp) as (l2&->&HG2). cbn [mbind res_bind].
  rewrite (Rep_IsEmpty _ _ (G_Rep _ _ HG2)), (G_check _ _ HG2). by exists l2.
Qed.
End SELFTEST.

End SPEC.
End ListSpec.

Module SortedSpec.
Import NList Repr ListSpec.

Section SPEC.
Context {T : Type} `{EqDecision T}.
Variable compare : T → T → Z.
Implicit Types (xs : list T) (l : List T) (ns : list (loc * T)).

(** Insertion before the first item that is bigger than [x]. *)
Fixpoint insert_by {A} (key : A → T) (a : A) (l : list A) : list A :=
  match l with
  | [] => [a]
  | b :: l' => if compare (key a) (key b) <? 0 then a :: b :: l' else b :: insert_by key a l'
  end.

Definition bigger (x : T) (l : list T) : Prop := Exists (λ y, compare x y < 0) l.

Lemma insert_by_fmap (e : loc) x ns : (insert_by snd (e, x) ns).*2 = insert_by id x ns.*2.
Proof. induction ns as [|[q z] ns IH]; cbn; [done|]. case_match; cbn; by rewrite ?IH. Qed.

Lemma insert_by_perm {A} (key : A → T) a (l : list A) : insert_by key a l ≡ₚ a :: l.
Proof.
  induction l as [|b l IH]; cbn; [done|]. case_match; [done|]. rewrite IH. constructor.
Qed.

Lemma insert_by_end (e : loc) x ns : ¬ bigger x ns.*2 → insert_by snd (e, x) ns = ns ++ [(e, x)].
Proof.
  induction ns as [|[q z] ns IH]; cbn; intros Hb; [done|]. unfold bigger in *.
  rewrite Exists_cons in Hb. rewrite (proj2 (Z.ltb_ge _ _)) by lia.
  rewrite IH; [done|]. intros ?; apply Hb; by right.
Qed.

Lemma insert_by_last (e : loc) x ns :
  bigger x ns.*2 → list.last (insert_by snd (e, x) ns).*1 = list.last ns.*1.
Proof.
  induction ns as [|[q z] ns IH]; cbn; intros Hb; [by inversion Hb|].
  case_match eqn:E; cbn [fmap list_fmap fst]; [by rewrite last_cons_cons|].
  apply Exists_cons in Hb as [Hb|Hb]; [apply Z.ltb_ge in E; lia|].
  specialize (IH Hb). destruct ns as [|[r y] ns]; [by inversion Hb|].
  cbn in *. case_match; cbn in *; rewrite ?last_cons_cons in *; done.
Qed.

Lemma Insert_loop_spec fuel x e ns1 p y ns2 f lst n :
  let ns := ns1 ++ (p, y) :: ns2 in
  NoDup ns.*1 → e ∉ ns.*1 → (length ns2 ≤ fuel)%nat →
  SortedList.Insert_loop compare fuel x e
    (mkList (<[e := mkElement x None]> (cells_of ns)) f lst n) p
  = Ok (if decide (bigger x ns2.*2) then
          Some (mkList (cells_of (ns1 ++ (p, y) :: insert_by snd (e, x) ns2)) f lst (n + 1))
        else None).
Proof.
  intros ns. subst ns. revert ns1 p y fuel.
  induction ns2 as [|[q z] ns2 IH]; intros ns1 p y fuel Hnd He Hf.
  - assert (e ≠ p) by (rewrite fmap_app in He; set_solver).
    destruct fuel; cbn [SortedList.Insert_loop cells]; rewrite lookup_insert_ne, cells_of_mid by done;
      cbn [deref mbind res_bind next heads head fmap option_fmap option_map];
      rewrite decide_False by (intros Hc; inversion Hc); done.
  - assert (e ≠ p ∧ e ≠ q) as [??] by (rewrite fmap_app in He; set_solver).
    destruct fuel as [|fuel]; cbn in Hf; [lia|]. cbn [SortedList.Insert_loop cells].
    rewrite lookup_insert_ne, cells_of_mid by done.
    cbn [deref mbind res_bind next heads head fmap option_fmap option_map fst].
    pose proof Hnd as Hnd'. rewrite (cons_middle (p, y)), app_assoc in Hnd', He |- *.
    rewrite lookup_insert_ne, cells_of_mid by done. cbn [deref mbind res_bind item].
    destruct (Z.ltb_spec (compare x z) 0) as [E|E].
    + rewrite decide_True by (by left). rewrite insert_insert_eq.
      rewrite <- app_assoc; cbn [app first last numInList insert_by snd].
      rewrite (proj2 (Z.ltb_lt _ _)) by done.
      change (Some q) with (heads ((q, z) :: ns2)).
      rewrite cells_of_insert_after; [done|].
      apply NoDup_insert_after; [done|]. by rewrite <- app_assoc in He.
    + rewrite IH by (done || lia).
      cbn [insert_by snd fmap list_fmap]. rewrite (proj2 (Z.ltb_ge _ _)) by done.
      rewrite <- app_assoc; cbn [app]. f_equal.
      apply decide_ext. unfold bigger. rewrite Exists_cons. naive_solver lia.
Qed.

(** The nodes after an insertion, in whichever place, form a representation. *)
Lemma insert_finish h f lst n ns e x :
  NoDup ns.*1 → NoDup ns.*2 → e ∉ ns.*1 → x ∉ ns.*2 →
  h = cells_of (insert_by snd (e, x) ns) → f = heads (insert_by snd (e, x) ns) →
  lst = list.last (insert_by snd (e, x) ns).*1 → n = Z.of_nat (length ns) →
  Rep (mkList h f lst (n + 1)) (insert_by id x ns.*2).
Proof.
  intros Hnd Hx He Hxi -> -> -> ->. apply Rep_intro with (insert_by snd (e, x) ns); try done.
  - rewrite insert_by_perm. by constructor.
  - rewrite (insert_by_perm snd (e, x)). by constructor.
  - by rewrite insert_by_fmap.
  - rewrite (Permutation_length (insert_by_perm snd (e, x) ns)). cbn. lia.
Qed.

Lemma insert_check h f lst n xs x :
  Rep (mkList h f lst (n + 1)) xs → x ∈ xs →
  ∃ l', (found ← IsInList (mkList h f lst (n + 1)) x; ASSERT found ;;
         Ok (mkList h f lst (n + 1))) = Ok l' ∧ Rep l' xs.
Proof.
  intros HR Hx. rewrite (Rep_IsInList _ _ _ HR), bool_decide_true by done. by eexists.
Qed.

Lemma insert_by_In x xs : x ∈ insert_by id x xs.
Proof. rewrite insert_by_perm. left. Qed.

Lemma Insert_spec l xs x :
  Rep l xs → x ∉ xs →
  ∃ l', SortedList.Insert compare x l = Ok l' ∧ Rep l' (insert_by id x xs).
Proof.
  intros (Hx&ns&Hnd&->&->)%Rep_elim Hni. unfold SortedList.Insert.
  destruct (new_ListElement _ _) as [e h] eqn:Hnew.
  apply new_element_fresh in Hnew as [Hfr ->]; cbn [cells first last numInList].
  rewrite IsInList_spec by (done || by apply fresh_cell).
  rewrite bool_decide_false by done; cbn [mbind res_bind negb ASSERT].
  apply fresh_not_in in Hfr. pose proof (insert_by_In x ns.*2) as Hin.
  destruct ns as [|[p y] ns]; [by apply insert_check; [by apply (insert_finish _ _ _ 0 [] e x)|]|].
  cbn [IsEmpty numInList length Z.of_nat Z.eqb].
  cbn [first heads head fmap option_fmap option_map fst deref mbind res_bind].
  rewrite lookup_insert_ne by set_solver. rewrite cells_of_head; cbn [deref mbind res_bind item].
  destruct (Z.ltb_spec (compare x y) 0) as [E|E].
  { apply insert_check; [|done]. apply (insert_finish _ _ _ _ ((p, y) :: ns) e x); try done;
      cbn [insert_by snd]; rewrite (proj2 (Z.ltb_lt _ _)) by done; [|done..].
    cbn [cells]. by rewrite insert_insert_eq. }
  pose proof (Insert_loop_spec (size (<[e := mkElement x None]> (cells_of ((p, y) :: ns)))) x e [] p y ns) as Hl.
  cbn [app] in Hl. setoid_rewrite Hl; [|done..|].
  2:{ rewrite map_size_insert_None, size_cells_of by (done || by apply cells_of_None). cbn. lia. }
  cbn [mbind res_bind]. case_decide as Hb.
  - eexists; split; [done|]. apply (insert_finish _ _ _ _ ((p, y) :: ns) e x); try done;
      cbn [insert_by snd]; rewrite (proj2 (Z.ltb_ge _ _)) by done; try done.
    change ((p, y) :: ns) with ([(p, y)] ++ ns).
    change ((p, y) :: insert_by snd (e, x) ns) with ([(p, y)] ++ insert_by snd (e, x) ns).
    rewrite !fmap_app. destruct ns as [|n0 ns]; [by inversion Hb|].
    rewrite !last_app, insert_by_last by done. done.
  - assert (¬ bigger x ((p, y) :: ns).*2) as Hb' by (intros [?|?]%Exists_cons; [cbn in *; lia|done]).
    destruct (nodes_snoc ((p, y) :: ns)) as [?|(ns'&q&z&Heq)]; [done|].
    cbn [last]. rewrite Heq in *. rewrite fmap_app; cbn [fmap list_fmap fst].
    rewrite last_snoc; cbn [deref mbind res_bind].
    rewrite lookup_insert_ne, cells_of_mid by (done || (rewrite fmap_app in Hfr; set_solver)).
    cbn [deref mbind res_bind item].
    apply insert_check; [|done]. apply (insert_finish _ _ _ _ (ns' ++ [(q, z)]) e x); try done.
    4: by rewrite <- Heq.
    all: rewrite insert_by_end, <- app_assoc by done; cbn [app].
    + rewrite cells_of_append; [done|]. by apply NoDup_insert_after.
    + destruct ns'; naive_solver.
    + rewrite fmap_app; cbn. by rewrite last_app_cons.
Qed.

Lemma insert_by_split x xs :
  ∃ before after, xs = before ++ after ∧ insert_by id x xs = before ++ x :: after
    ∧ Forall (λ y, 0 ≤ compare x y) before ∧ Forall (λ y, compare x y < 0) (take 1 after).
Proof.
  induction xs as [|y xs (b&a&->&Heq&Hb&Ha)]; [by exists [], []|]. cbn.
  destruct (Z.ltb_spec (compare x y) 0).
  - exists [], (y :: b ++ a). repeat split; [constructor..|]. by repeat constructor.
  - exists (y :: b), a. rewrite Heq. repeat split; [by constructor|done].
Qed.

(** A comparison function that orders its items: what list.h asks of Compare. *)
Definition cmp_le (x y : T) : Prop := compare x y ≤ 0.
Definition Ordered : list T → Prop := StronglySorted cmp_le.

Hypothesis compare_total : ∀ x y, 0 ≤ compare x y → compare y x ≤ 0.
Hypothesis compare_trans : ∀ x y z, compare x y ≤ 0 → compare y z ≤ 0 → compare x z ≤ 0.

Lemma insert_by_Ordered x xs : Ordered xs → Ordered (insert_by id x xs).
Proof.
  unfold Ordered. induction xs as [|y xs IH]; cbn; intros Hs; [by repeat constructor|].
  apply StronglySorted_cons in Hs as [Hy Hs].
  destruct (Z.ltb_spec (compare x y) 0) as [E|E]; apply StronglySorted_cons.
  - split; [|by constructor]. constructor; [unfold cmp_le; lia|].
    eapply Forall_impl; [exact Hy|]. intros z Hz. eapply compare_trans; [|exact Hz]. lia.
  - split; [|by apply IH]. rewrite insert_by_perm. constructor; [by apply compare_total|done].
Qed.

Lemma remove_item_Ordered x xs : Ordered xs → Ordered (remove_item x xs).
Proof.
  unfold Ordered, remove_item. induction 1 as [|y xs Hs IH Hy]; [constructor|].
  destruct (decide (y ≠ x)); [|by rewrite filter_cons_False].
  rewrite filter_cons_True by done. constructor; [done|].
  apply Forall_forall. intros z [_ Hz]%list_elem_of_filter. rewrite Forall_forall in Hy. auto.
Qed.

Definition SRep l xs : Prop := Rep l xs ∧ Ordered xs.

Lemma SortedCheck_loop_spec fuel ns1 p y ns2 f lst n :
  let ns := ns1 ++ (p, y) :: ns2 in
  NoDup ns.*1 → Ordered (y :: ns2.*2) → (length ns2 ≤ fuel)%nat →
  SortedList.SortedCheck_loop compare fuel (mkList (cells_of ns) f lst n) p (heads ns2) = Ok tt.
Proof.
  intros ns. subst ns. revert ns1 p y fuel.
  induction ns2 as [|[q z] ns2 IH]; intros ns1 p y fuel Hnd Ho Hf; [by destruct fuel|].
  destruct fuel as [|fuel]; cbn in Hf; [lia|].
  apply StronglySorted_cons in Ho as [Hy Ho]. apply Forall_cons in Hy as [Hyz _].
  cbn [SortedList.SortedCheck_loop heads head fmap option_fmap option_map fst cells].
  rewrite cells_of_mid by done. cbn [deref mbind res_bind item].
  rewrite (cons_middle (p, y)), app_assoc in Hnd |- *. rewrite cells_of_mid by done.
  cbn [deref mbind res_bind item next]. rewrite (proj2 (Z.leb_le _ _)) by done.
  cbn [ASSERT mbind res_bind]. by apply IH; [| |lia].
Qed.

Lemma SortedCheck_spec l xs : SRep l xs → SortedList.SanityCheck compare l = Ok tt.
Proof.
  intros [HR Ho]. unfold SortedList.SanityCheck. rewrite (SanityCheck_spec _ _ HR).
  cbn [mbind res_bind]. case_decide; [done|].
  apply Rep_elim in HR as (_&[|[p y] ns]&Hnd&->&->); [done|].
  cbn [first heads head fmap option_fmap option_map fst cells deref mbind res_bind].
  rewrite cells_of_head; cbn [deref mbind res_bind next].
  eapply (SortedCheck_loop_spec _ [] p y ns); [done..|].
  rewrite size_cells_of by done. cbn. lia.
Qed.

Lemma SInsert_spec l xs x :
  SRep l xs → x ∉ xs →
  ∃ l', SortedList.Insert compare x l = Ok l' ∧ SRep l' (insert_by id x xs).
Proof.
  intros [HR Ho] Hx. destruct (Insert_spec l xs x HR Hx) as (l'&->&HR').
  exists l'. split; [done|]. split; [done|]. by apply insert_by_Ordered.
Qed.

Lemma SelfTest_insert_spec p l xs :
  SRep l xs → NoDup (p ++ xs) →
  ∃ l' xs', SortedList.SelfTest_insert compare p l = Ok l' ∧ SRep l' xs' ∧ xs' ≡ₚ p ++ xs.
Proof.
  revert l xs. induction p as [|x p IH]; intros l xs HS Hnd; cbn [SortedList.SelfTest_insert app] in *; [by eauto|].
  apply NoDup_cons in Hnd as [Hx Hnd].
  destruct (SInsert_spec l xs x HS) as (l1&->&HS1); [set_solver|]. cbn [mbind res_bind].
  rewrite (Rep_IsInList _ _ _ (proj1 HS1)), bool_decide_true by apply insert_by_In.
  cbn [ASSERT mbind res_bind].
  destruct (IH l1 _ HS1) as (l2&xs2&->&HS2&Hp2).
  { rewrite insert_by_perm, <- Permutation_middle. by constructor. }
  exists l2, xs2. split; [done|]. split; [done|]. by rewrite Hp2, insert_by_perm, <- Permutation_middle.
Qed.

Lemma SelfTest_drain_spec n l xs :
  Rep l xs → length xs = n → ∃ l', SortedList.SelfTest_drain n l = Ok (xs, l') ∧ Rep l' [].
Proof.
  revert l xs. induction n as [|n IH]; intros l [|x xs] HR Hn; try done; [by exists l|].
  cbn [SortedList.SelfTest_drain]. destruct (RemoveFront_spec l x xs HR) as (l1&->&HR1).
  destruct HR as [[Hx _]%NoDup_cons _]. cbn [mbind res_bind].
  rewrite (Rep_IsInList _ _ _ HR1), bool_decide_false by done. cbn [negb ASSERT mbind res_bind].
  destruct (IH l1 xs HR1) as (l2&->&HR2); [by injection Hn|]. by exists l2.
Qed.

Lemma SelfTest_ordered_spec xs : Ordered xs → SortedList.SelfTest_ordered compare xs = Ok tt.
Proof.
  induction xs as [|x [|y xs] IH]; [done..|]. intros [Hx Hs]%StronglySorted_cons.
  apply Forall_cons in Hx as [Hxy _]. cbn [SortedList.SelfTest_ordered].
  rewrite (proj2 (Z.leb_le _ _)) by done. cbn [ASSERT mbind res_bind]. by apply IH.
Qed.

Lemma SortedSelfTest_spec p l :
  SRep l [] → NoDup p → ∃ l', SortedList.SelfTest compare p l = Ok l' ∧ SRep l' [].
Proof.
  intros HS Hnd. unfold SortedList.SelfTest.
  destruct (ListSpec.SelfTest_spec SRep (SortedList.Insert compare) (SortedList.SanityCheck compare))
    with (p := p) (l := l) as (l1&->&HS1); [..|done|done|].
  { by intros ?? []. }
  { intros l0 xs x H0 Hx. destruct (SInsert_spec l0 xs x H0 Hx) as (l'&->&HS').
    eexists _, _. split; [done|]. split; [done|]. apply insert_by_perm. }
  { intros l0 xs x [HR Ho] Hx. destruct (Remove_spec l0 xs x HR Hx) as (l'&->&HR').
    eexists. split; [done|]. split; [done|]. by apply remove_item_Ordered. }
  { apply SortedCheck_spec. }
  cbn [mbind res_bind]. destruct (SelfTest_insert_spec p l1 [] HS1) as (l2&xs2&->&HS2&Hp);
    [by rewrite app_nil_r|]. rewrite app_nil_r in Hp.
  cbn [mbind res_bind]. rewrite (SortedCheck_spec _ _ HS2). cbn [mbind res_bind].
  destruct (SelfTest_drain_spec (length p) l2 xs2 (proj1 HS2)) as (l3&->&HR3);
    [by rewrite (Permutation_length Hp)|].
  cbn [mbind res_bind]. rewrite (Rep_IsEmpty _ _ HR3). cbn [bool_decide ASSERT mbind res_bind].
  rewrite (SelfTest_ordered_spec _ (proj2 HS2)). cbn [mbind res_bind].
  assert (SRep l3 []) as HS3 by (split; [done|constructor]).
  rewrite (SortedCheck_spec _ _ HS3). by exists l3.
Qed.

End SPEC.
End SortedSpec.
