(* ===== verification/ListADT.v ===== *)
(** The contract of lib/list.h towards its clients.

    [ListADT] and [SortedADT] state what the linked lists promise: operations,
    a representation relation to sequences, and the law of each operation on
    every branch.  Clients (hash table, interrupt queue) are verified against
    the classes; the instances discharge them with the theorems of LinkedList.v.
    [run_list] and [run_seq] compare whole histories of calls. *)

From S2P Require Import Prelude LinkedList.

Class ListADT (T : Type) `{EqDecision T} (L It : Type) := {
  lst_new : L;
  lst_append : T → L → res L;
  lst_removeFront : L → res (T * L);
  lst_remove : T → L → res L;
  lst_isEmpty : L → bool;
  lst_num : L → Z;
  lst_check : L → res unit;
  lst_apply : ∀ S, (T → S → res S) → L → S → res S;
  it_new : L → It;
  it_done : It → bool;
  it_item : L → It → res T;
  it_next : L → It → res It;
  lst_rep : L → list T → Prop;
  it_rep : L → It → list T → Prop;
  lst_rep_NoDup l xs : lst_rep l xs → NoDup xs;
  lst_new_ok : lst_rep lst_new [];
  lst_append_ok l xs x : lst_rep l xs → x ∉ xs →
    ∃ l', lst_append x l = Ok l' ∧ lst_rep l' (xs ++ [x]);
  lst_append_dup l xs x : lst_rep l xs → x ∈ xs → lst_append x l = Err AssertFailed;
  lst_removeFront_ok l x xs : lst_rep l (x :: xs) →
    ∃ l', lst_removeFront l = Ok (x, l') ∧ lst_rep l' xs;
  lst_remove_ok l xs x : lst_rep l xs → x ∈ xs →
    ∃ l', lst_remove x l = Ok l' ∧ lst_rep l' (ListSpec.remove_item x xs);
  lst_isEmpty_ok l xs : lst_rep l xs → lst_isEmpty l = bool_decide (xs = []);
  lst_num_ok l xs : lst_rep l xs → lst_num l = Z.of_nat (length xs);
  lst_check_ok l xs : lst_rep l xs → lst_check l = Ok tt;
  lst_apply_ok S (f : T → S → res S) l xs s : lst_rep l xs → lst_apply S f l s = foldM f xs s;
  it_new_ok l xs : lst_rep l xs → it_rep l (it_new l) xs;
  it_done_ok l it xs : it_rep l it xs → it_done it = bool_decide (xs = []);
  it_step_ok l it x xs : it_rep l it (x :: xs) →
    it_item l it = Ok x ∧ ∃ it', it_next l it = Ok it' ∧ it_rep l it' xs
}.

#[global] Program Instance NList_ADT (T : Type) `{EqDecision T} :
    ListADT T (NList.List T) NList.ListIterator := {
  lst_new := NList.new_List;
  lst_append := NList.Append;
  lst_removeFront := NList.RemoveFront;
  lst_remove := NList.Remove;
  lst_isEmpty := NList.IsEmpty;
  lst_num := NList.NumInList;
  lst_check := NList.SanityCheck;
  lst_apply S := NList.Apply;
  it_new := NList.iter_new;
  it_done := NList.IsDone;
  it_item := NList.Item;
  it_next := NList.Next;
  lst_rep := Repr.Rep;
  it_rep := ListSpec.IterRep
}.
Next Obligation. by intros ???? []. Qed.
Next Obligation. intros. apply Repr.Rep_new. Qed.
Next Obligation. intros. by apply ListSpec.Append_spec. Qed.
Next Obligation. intros. by eapply ListSpec.Append_duplicate. Qed.
Next Obligation. intros. by apply ListSpec.RemoveFront_spec. Qed.
Next Obligation. intros. by apply ListSpec.Remove_spec. Qed.
Next Obligation. intros. by apply Repr.Rep_IsEmpty. Qed.
Next Obligation. intros ???? (_&ns&_&->&_&_&_&Hn). unfold NList.NumInList. by rewrite Hn, length_fmap. Qed.
Next Obligation. intros. by eapply ListSpec.SanityCheck_spec. Qed.
Next Obligation. intros. by apply ListSpec.Apply_spec. Qed.
Next Obligation. intros. by apply ListSpec.iter_new_spec. Qed.
Next Obligation. intros. by eapply ListSpec.iter_done_spec. Qed.
Next Obligation. intros. by apply ListSpec.iter_step_spec. Qed.

Class SortedADT (T : Type) `{EqDecision T} (compare : T → T → Z) (L : Type) := {
  srt_new : L;
  srt_insert : T → L → res L;
  srt_front : L → res T;
  srt_removeFront : L → res (T * L);
  srt_isEmpty : L → bool;
  srt_rep : L → list T → Prop;
  srt_new_ok : srt_rep srt_new [];
  srt_ordered l xs : srt_rep l xs → SortedSpec.Ordered compare xs;
  srt_NoDup l xs : srt_rep l xs → NoDup xs;
  srt_insert_ok l xs x : srt_rep l xs → x ∉ xs →
    ∃ l', srt_insert x l = Ok l' ∧ srt_rep l' (SortedSpec.insert_by compare id x xs);
  srt_front_ok l x xs : srt_rep l (x :: xs) → srt_front l = Ok x;
  srt_removeFront_ok l x xs : srt_rep l (x :: xs) →
    ∃ l', srt_removeFront l = Ok (x, l') ∧ srt_rep l' xs;
  srt_isEmpty_ok l xs : srt_rep l xs → srt_isEmpty l = bool_decide (xs = [])
}.

(** A comparison function as list.h asks for it. *)
Class Comparison {T : Type} (compare : T → T → Z) := {
  comparison_total x y : 0 ≤ compare x y → compare y x ≤ 0;
  comparison_trans x y z : compare x y ≤ 0 → compare y z ≤ 0 → compare x z ≤ 0
}.

#[global] Program Instance SortedList_ADT (T : Type) `{EqDecision T} (compare : T → T → Z)
    `{!Comparison compare} : SortedADT T compare (NList.List T) := {
  srt_new := NList.new_List;
  srt_insert := SortedList.Insert compare;
  srt_front := NList.Front;
  srt_removeFront := NList.RemoveFront;
  srt_isEmpty := NList.IsEmpty;
  srt_rep := SortedSpec.SRep compare
}.
Next Obligation. intros. split; [apply Repr.Rep_new|constructor]. Qed.
Next Obligation. by intros ??????[]. Qed.
Next Obligation. by intros ??????[[]]. Qed.
Next Obligation.
  intros. apply SortedSpec.SInsert_spec; [apply comparison_total|apply comparison_trans|done..].
Qed.
Next Obligation. intros ???????[HR _]. by eapply ListSpec.Front_spec. Qed.
Next Obligation.
  intros ???????[HR Ho]. apply StronglySorted_cons in Ho as [_ Ho].
  destruct (ListSpec.RemoveFront_spec _ _ _ HR) as (l'&->&HR'). by exists l'.
Qed.
Next Obligation. intros ??????[HR _]. by apply Repr.Rep_IsEmpty. Qed.

(** * Histories of calls *)

Section HISTORY.
Context {T : Type} `{EqDecision T}.

Inductive list_op := OAppend (x : T) | OPrepend (x : T) | ORemoveFront | ORemove (x : T) | OIsInList (x : T).
Inductive list_out := NoOut | OutItem (x : T) | OutBool (b : bool).

Definition list_step (o : list_op) (l : NList.List T) : res (list_out * NList.List T) :=
  match o with
  | OAppend x => l ← NList.Append x l; Ok (NoOut, l)
  | OPrepend x => l ← NList.Prepend x l; Ok (NoOut, l)
  | ORemoveFront => '(x, l) ← NList.RemoveFront l; Ok (OutItem x, l)
  | ORemove x => l ← NList.Remove x l; Ok (NoOut, l)
  | OIsInList x => b ← NList.IsInList l x; Ok (OutBool b, l)
  end.

(** The abstract list: a sequence without duplicates; the ASSERTs of the code
    are its preconditions. *)
Definition seq_step (o : list_op) (xs : list T) : res (list_out * list T) :=
  match o with
  | OAppend x => ASSERT (negb (bool_decide (x ∈ xs))) ;; Ok (NoOut, xs ++ [x])
  | OPrepend x => ASSERT (negb (bool_decide (x ∈ xs))) ;; Ok (NoOut, x :: xs)
  | ORemoveFront => match xs with [] => Err AssertFailed | x :: xs => Ok (OutItem x, xs) end
  | ORemove x => ASSERT (bool_decide (x ∈ xs)) ;; Ok (NoOut, ListSpec.remove_item x xs)
  | OIsInList x => Ok (OutBool (bool_decide (x ∈ xs)), xs)
  end.

Fixpoint run {S : Type} (step : list_op → S → res (list_out * S)) (os : list list_op) (s : S)
  : res (list list_out * S) :=
  match os with
  | [] => Ok ([], s)
  | o :: os => '(a, s) ← step o s; '(out, s) ← run step os s; Ok (a :: out, s)
  end.

(** The simulation relation between two results. *)
Definition sim {A} (r1 : res (A * NList.List T)) (r2 : res (A * list T)) : Prop :=
  match r1, r2 with
  | Ok (a, l), Ok (b, xs) => a = b ∧ Repr.Rep l xs
  | Err e, Err e' => e = e'
  | _, _ => False
  end.

Lemma list_step_sim o l xs : Repr.Rep l xs → sim (list_step o l) (seq_step o xs).
Proof.
  intros HR. destruct o as [x|x| |x|x]; cbn [list_step seq_step].
  - destruct (decide (x ∈ xs)).
    + by rewrite (ListSpec.Append_duplicate _ xs), bool_decide_true.
    + destruct (ListSpec.Append_spec _ _ _ HR n) as (l'&->&HR'). by rewrite bool_decide_false.
  - destruct (decide (x ∈ xs)).
    + by rewrite (ListSpec.Prepend_duplicate _ xs), bool_decide_true.
    + destruct (ListSpec.Prepend_spec _ _ _ HR n) as (l'&->&HR'). by rewrite bool_decide_false.
  - destruct xs as [|x xs]; [by rewrite ListSpec.RemoveFront_empty|].
    by destruct (ListSpec.RemoveFront_spec _ _ _ HR) as (l'&->&HR').
  - destruct (decide (x ∈ xs)).
    + destruct (ListSpec.Remove_spec _ _ _ HR e) as (l'&->&HR'). by rewrite bool_decide_true.
    + by rewrite (ListSpec.Remove_absent _ xs), bool_decide_false.
  - by rewrite (Repr.Rep_IsInList _ _ _ HR).
Qed.

Lemma run_sim os l xs : Repr.Rep l xs → sim (run list_step os l) (run seq_step os xs).
Proof.
  revert l xs. induction os as [|o os IH]; intros l xs HR; cbn [run]; [done|].
  pose proof (list_step_sim o l xs HR) as Hs.
  destruct (list_step o l) as [[a l1]|e], (seq_step o xs) as [[b xs1]|e']; cbn in Hs |- *; try done.
  destruct Hs as [-> HR1]. specialize (IH l1 xs1 HR1).
  by destruct (run list_step os l1) as [[out l2]|e], (run seq_step os xs1) as [[out' xs2]|e'];
    cbn in IH |- *; naive_solver.
Qed.

(** C1 (refinement): every history of Append, Prepend, RemoveFront, Remove and
    IsInList calls on a new linked list returns exactly what the abstract
    sequence returns, and fails with the same assertion at the same call; the
    pointer structure it leaves holds the abstract sequence, with no cell lost,
    leaked or dangling. *)
Theorem linked_list_refines_sequence (os : list list_op) :
  sim (run list_step os NList.new_List) (run seq_step os []).
Proof. apply run_sim, Repr.Rep_new. Qed.
End HISTORY.

Section PROPERTIES.
Context {T : Type} `{EqDecision T} (compare : T → T → Z) `{!Comparison compare}.

(** SortedList::Insert of an item that is not in the list
    returns, and leaves a well-formed list that is sorted, is a permutation of
    the old items and the new one, and has the new item behind every item it
    does not precede (items that compare equal keep their insertion order). *)
Theorem sorted_insert_correct (l : NList.List T) (xs : list T) (x : T)
    (Hl : SortedSpec.SRep compare l xs) (Hx : x ∉ xs) :
  ∃ l' before after,
    SortedList.Insert compare x l = Ok l' ∧ Repr.Rep l' (before ++ x :: after)
    ∧ xs = before ++ after ∧ SortedSpec.Ordered compare (before ++ x :: after)
    ∧ Forall (λ y, 0 ≤ compare x y) before ∧ Forall (λ y, compare x y < 0) (take 1 after).
Proof.
  destruct (SortedSpec.SInsert_spec compare comparison_total comparison_trans l xs x Hl Hx)
    as (l'&Hl'&HR&Ho).
  destruct (SortedSpec.insert_by_split compare x xs) as (before&after&Hxs&Heq&Hb&Ha).
  exists l', before, after. rewrite <- Heq. done.
Qed.

(** the self test of List and of SortedList (lib/list.cc) runs
    to its end on every vector of distinct items: no assertion of the list
    operations fails, no pointer is NULL or dangling, and the list is empty
    again afterwards. *)
Theorem list_selftests_pass (p : list T) (Hp : NoDup p) :
  (∃ l, NList.SelfTest NList.Append NList.SanityCheck p NList.new_List = Ok l ∧ Repr.Rep l [])
  ∧ (∃ l, SortedList.SelfTest compare p NList.new_List = Ok l ∧ Repr.Rep l []).
Proof.
  split.
  - apply (ListSpec.SelfTest_spec Repr.Rep); try done.
    + intros l xs x HR Hx. destruct (ListSpec.Append_spec l xs x HR Hx) as (l'&->&HR').
      eexists _, _. split; [done|]. split; [done|]. symmetry. apply Permutation_cons_append.
    + apply ListSpec.Remove_spec.
    + apply ListSpec.SanityCheck_spec.
    + apply Repr.Rep_new.
  - destruct (SortedSpec.SortedSelfTest_spec compare comparison_total comparison_trans p NList.new_List)
      as (l&->&[HR _]); [split; [apply Repr.Rep_new|constructor]|done|]. by exists l.
Qed.
End PROPERTIES.

(** lib/libtest.cc: the comparison and the vector of the self test. *)
Definition IntCompare (x y : Z) : Z := if x <? y then -1 else if x =? y then 0 else 1.
Definition listTestVector : list Z := [9; 5; 7].

#[global] Instance IntCompare_Comparison : Comparison IntCompare.
Proof.
  split; unfold IntCompare; intros x y.
  - destruct (Z.ltb_spec x y), (Z.eqb_spec x y), (Z.ltb_spec y x), (Z.eqb_spec y x); lia.
  - intros z. destruct (Z.ltb_spec x y), (Z.eqb_spec x y), (Z.ltb_spec y z), (Z.eqb_spec y z),
      (Z.ltb_spec x z), (Z.eqb_spec x z); lia.
Qed.

Lemma sorted_insert_correct_witness :
  ∃ l' before after,
    SortedList.Insert IntCompare 3 NList.new_List = Ok l' ∧ Repr.Rep l' (before ++ 3 :: after)
    ∧ [] = before ++ after ∧ SortedSpec.Ordered IntCompare (before ++ 3 :: after)
    ∧ Forall (λ y, 0 ≤ IntCompare 3 y) before ∧ Forall (λ y, IntCompare 3 y < 0) (take 1 after).
Proof.
  apply (sorted_insert_correct IntCompare NList.new_List [] 3).
  - split; [apply Repr.Rep_new|constructor].
  - apply not_elem_of_nil.
Defined.

Lemma list_selftests_pass_witness :
  (∃ l, NList.SelfTest NList.Append NList.SanityCheck listTestVector NList.new_List = Ok l ∧ Repr.Rep l [])
  ∧ (∃ l, SortedList.SelfTest IntCompare listTestVector NList.new_List = Ok l ∧ Repr.Rep l []).
Proof. apply (list_selftests_pass IntCompare). unfold listTestVector. by vm_compute; repeat constructor; set_solver. Defined.
