(* ===== verification/BitmapLib.v ===== *)
(** lib/bitmap.h and lib/bitmap.cc: an array of bits kept in an array of
    [unsigned int]s.

    The record [Bitmap] has the fields of the class; [Marked b n s] relates it
    to the set [s] of the marked bits among [0 .. n-1].  The allocator contract
    ([FindAndSet] returns the least free index) is what the file system, the
    page allocator, the process table and the semaphore table rely on. *)

From S2P Require Import Prelude.

Module Bitmap.

Definition BitsInByte : Z := 8.
Definition BitsInWord : Z := 4 * BitsInByte.

Record Bitmap := mkBitmap { numBits : Z; numWords : Z; map : list Z }.

Definition in_range (b : Bitmap) (which : Z) : bool := (0 <=? which) && (which <? numBits b).

(** [1 << (which % BitsInWord)], as an [unsigned int]. *)
Definition mask (which : Z) : Z := u32 (Z.shiftl 1 (Z.rem which BitsInWord)).

Definition Test (b : Bitmap) (which : Z) : res bool :=
  ASSERT (in_range b which) ;;
  w ← aget (map b) (Z.quot which BitsInWord);
  Ok (negb (Z.land w (mask which) =? 0)).

Definition Mark (which : Z) (b : Bitmap) : res Bitmap :=
  ASSERT (in_range b which) ;;
  w ← aget (map b) (Z.quot which BitsInWord);
  m ← aset (map b) (Z.quot which BitsInWord) (Z.lor w (mask which));
  let b := mkBitmap (numBits b) (numWords b) m in
  t ← Test b which; ASSERT t ;; Ok b.

Definition Clear (which : Z) (b : Bitmap) : res Bitmap :=
  ASSERT (in_range b which) ;;
  w ← aget (map b) (Z.quot which BitsInWord);
  m ← aset (map b) (Z.quot which BitsInWord) (Z.land w (u32 (Z.lnot (mask which))));
  let b := mkBitmap (numBits b) (numWords b) m in
  t ← Test b which; ASSERT (negb t) ;; Ok b.

(** The constructor: the two loops of bitmap.cc. *)
Definition new_Bitmap (numItems : Z) : res Bitmap :=
  ASSERT (0 <? numItems) ;;
  let numWords := divRoundUp numItems BitsInWord in
  let b := mkBitmap numItems numWords (replicate (Z.to_nat numWords) 0) in
  for_up (Z.to_nat numItems) 0 Clear b.

(** [for (int i = 0; i < numBits; i++) if (!Test(i)) { Mark(i); return i; }],
    from index [i] with [k] iterations left. *)
Fixpoint FindAndSet_loop (k : nat) (i : Z) (b : Bitmap) : res (Z * Bitmap) :=
  match k with
  | O => Ok (-1, b)
  | S k =>
      t ← Test b i;
      if negb t then b ← Mark i b; Ok (i, b) else FindAndSet_loop k (i + 1) b
  end.

Definition FindAndSet (b : Bitmap) : res (Z * Bitmap) :=
  FindAndSet_loop (Z.to_nat (numBits b)) 0 b.

Definition NumClear (b : Bitmap) : res Z :=
  for_up (Z.to_nat (numBits b)) 0
    (λ i count, t ← Test b i; Ok (if negb t then count + 1 else count)) 0.

(** Print: the indices it writes to the console, in order. *)
Definition Print (b : Bitmap) : res (list Z) :=
  for_up (Z.to_nat (numBits b)) 0
    (λ i out, t ← Test b i; Ok (if t : bool then out ++ [i] else out)) [].

Definition SelfTest (b : Bitmap) : res Bitmap :=
  ASSERT (BitsInWord <=? numBits b) ;;
  n ← NumClear b; ASSERT (n =? numBits b) ;;
  '(i, b) ← FindAndSet b; ASSERT (i =? 0) ;;
  b ← Mark 31 b;
  t0 ← Test b 0; t31 ← Test b 31; ASSERT (t0 && t31) ;;
  '(i, b) ← FindAndSet b; ASSERT (i =? 1) ;;
  b ← Clear 0 b; b ← Clear 1 b; b ← Clear 31 b;
  b ← for_up (Z.to_nat (numBits b)) 0 Mark b;
  '(i, b) ← FindAndSet b; ASSERT (i =? -1) ;;
  for_up (Z.to_nat (numBits b)) 0 Clear b.

End Bitmap.

(** * The set of marked bits *)

Module BitmapSpec.
Import Bitmap.

Implicit Types (b : Bitmap) (s : gset Z) (n i : Z).

(** The well-formed representation, and bit [i] of the bit storage. *)
Definition wf b n : Prop :=
  0 < n ∧ numBits b = n ∧ numWords b = divRoundUp n BitsInWord
  ∧ length (map b) = Z.to_nat (numWords b) ∧ Forall is_u32 (map b).

Definition bit b i : bool :=
  Z.testbit (default 0 (map b !! Z.to_nat (i / 32))) (i mod 32).

Definition Marked b n s : Prop :=
  wf b n ∧ ∀ i, i ∈ s ↔ 0 ≤ i < n ∧ bit b i = true.

Lemma Marked_range b n s i : Marked b n s → i ∈ s → 0 ≤ i < n.
Proof. intros [_ H] Hi. by apply H in Hi as [? _]. Qed.

Lemma Marked_bit b n s i : Marked b n s → 0 ≤ i < n → bit b i = bool_decide (i ∈ s).
Proof. intros [_ H] Hi. destruct (bit b i) eqn:E; case_bool_decide; naive_solver. Qed.

Lemma wf_word b n i :
  wf b n → 0 ≤ i < n →
  ∃ w, map b !! Z.to_nat (i / 32) = Some w ∧ is_u32 w ∧ aget (map b) (Z.quot i BitsInWord) = Ok w
       ∧ 0 ≤ i / 32 < Z.of_nat (length (map b)).
Proof.
  intros (Hn&Hb&Hw&Hl&Hf) Hi. unfold BitsInWord, BitsInByte in *.
  rewrite Z.quot_div_nonneg by lia. change (4 * 8) with 32 in *.
  assert (0 ≤ i / 32 < Z.of_nat (length (map b))) as Hr.
  { rewrite Hl, Hw. pose proof (divRoundUp_spec n 32 ltac:(lia) ltac:(lia)).
    pose proof (divRoundUp_nonneg n 32 ltac:(lia) ltac:(lia)). dlia. }
  destruct (lookup_lt_is_Some_2 (map b) (Z.to_nat (i / 32))) as [w Hww]; [lia|].
  exists w. split; [done|]. split; [by apply (Forall_lookup_1 _ _ _ _ Hf Hww)|].
  split; [|done]. apply aget_Ok. split; [lia|done].
Qed.

Lemma mask_pow i : 0 ≤ i → mask i = 2 ^ (i mod 32).
Proof.
  intros Hi. unfold mask, BitsInWord, BitsInByte. change (4 * 8) with 32.
  rewrite Z.rem_mod_nonneg, Z.shiftl_1_l by lia. apply u32_id. unfold is_u32, wordsize.
  pose proof (Z.mod_pos_bound i 32 ltac:(lia)).
  change 4294967296 with (2 ^ 32). split; [lia|]. apply Z.pow_lt_mono_r; lia.
Qed.

Lemma mask_test w k : 0 ≤ k → negb (Z.land w (2 ^ k) =? 0) = Z.testbit w k.
Proof.
  intros Hk. destruct (Z.testbit w k) eqn:E.
  - apply negb_true_iff, Z.eqb_neq. intros H. apply (f_equal (λ z, Z.testbit z k)) in H.
    rewrite Z.land_spec, Z.pow2_bits_true, Z.bits_0, E in H by done. done.
  - apply negb_false_iff, Z.eqb_eq. apply Z.bits_inj'. intros j Hj.
    rewrite Z.land_spec, Z.bits_0. destruct (decide (j = k)) as [->|]; [by rewrite E|].
    rewrite Z.pow2_bits_false by lia. apply andb_false_r.
Qed.

Lemma in_range_true b n i : wf b n → 0 ≤ i < n → in_range b i = true.
Proof. unfold in_range. intros (_&->&_) ?. lia. Qed.

Lemma in_range_false b n i : wf b n → ¬ 0 ≤ i < n → in_range b i = false.
Proof. unfold in_range. intros (_&->&_) ?. lia. Qed.

Lemma Test_bit b n i : wf b n → 0 ≤ i < n → Test b i = Ok (bit b i).
Proof.
  intros Hwf Hi. unfold Test. rewrite (in_range_true _ _ _ Hwf Hi); cbn [ASSERT mbind res_bind].
  destruct (wf_word _ _ _ Hwf Hi) as (w&Hw&_&->&_). cbn [mbind res_bind].
  rewrite mask_pow, mask_test by dlia. unfold bit. by rewrite Hw.
Qed.

Lemma Test_spec b n s i : Marked b n s → 0 ≤ i < n → Test b i = Ok (bool_decide (i ∈ s)).
Proof. intros HM Hi. rewrite (Test_bit b n i (proj1 HM) Hi). f_equal. by eapply Marked_bit. Qed.

(** Writing a word at the place of bit [i]. *)
Lemma bit_update b n i w j :
  wf b n → 0 ≤ i < n → 0 ≤ j →
  bit (mkBitmap (numBits b) (numWords b) (<[Z.to_nat (i / 32) := w]> (map b))) j
  = if decide (i / 32 = j / 32) then Z.testbit w (j mod 32) else bit b j.
Proof.
  intros Hwf Hi Hj. destruct (wf_word _ _ _ Hwf Hi) as (_&_&_&_&Hr). unfold bit; cbn [map].
  case_decide as E.
  - rewrite <- E, list_lookup_insert_eq by lia. done.
  - rewrite list_lookup_insert_ne; [done|]. intros H. apply E. apply Z2Nat.inj in H; dlia.
Qed.

Lemma wf_update b n i w :
  wf b n → is_u32 w → wf (mkBitmap (numBits b) (numWords b) (<[Z.to_nat i := w]> (map b))) n.
Proof.
  intros (?&?&?&?&?) Hw. repeat split; cbn; try done.
  - by rewrite length_insert.
  - by apply Forall_insert.
Qed.

Lemma split_index i j : i / 32 = j / 32 → i mod 32 = j mod 32 → i = j.
Proof. dlia. Qed.

Lemma set_word w i j :
  0 ≤ i → i / 32 = j / 32 → Z.testbit (Z.lor w (mask i)) (j mod 32) = Z.testbit w (j mod 32) || bool_decide (i = j).
Proof.
  intros Hi E. rewrite mask_pow, Z.lor_spec, Z.pow2_bits_eqb by dlia. f_equal.
  case_bool_decide as H; [subst; apply Z.eqb_refl|]. apply Z.eqb_neq. intros ?. apply H. by apply split_index.
Qed.

Lemma clear_word w i j :
  0 ≤ i → i / 32 = j / 32 →
  Z.testbit (Z.land w (u32 (Z.lnot (mask i)))) (j mod 32) = Z.testbit w (j mod 32) && negb (bool_decide (i = j)).
Proof.
  intros Hi E. rewrite Z.land_spec. f_equal. unfold u32, wordsize. change 4294967296 with (2 ^ 32).
  rewrite Z.mod_pow2_bits_low, Z.lnot_spec, mask_pow, Z.pow2_bits_eqb by dlia. f_equal.
  case_bool_decide as H; [subst; apply Z.eqb_refl|]. apply Z.eqb_neq. intros ?. apply H. by apply split_index.
Qed.

Lemma mask_u32 i : is_u32 (mask i).
Proof. apply u32_range. Qed.

Lemma quot_word b n i : wf b n → 0 ≤ i < n → Z.quot i BitsInWord = i / 32.
Proof. intros. unfold BitsInWord, BitsInByte. change (4 * 8) with 32. apply Z.quot_div_nonneg; lia. Qed.

Lemma Mark_spec b n s i :
  Marked b n s → 0 ≤ i < n → ∃ b', Mark i b = Ok b' ∧ Marked b' n ({[i]} ∪ s).
Proof.
  intros [Hwf Hs] Hi. unfold Mark. rewrite (in_range_true _ _ _ Hwf Hi); cbn [ASSERT mbind res_bind].
  destruct (wf_word _ _ _ Hwf Hi) as (w&Hw&Hu&->&Hr). cbn [mbind res_bind].
  rewrite (quot_word b n) by done. rewrite aset_in by done. cbn [mbind res_bind].
  set (b' := mkBitmap _ _ _).
  assert (wf b' n) as Hwf' by (apply wf_update, lor_u32; auto using mask_u32).
  assert (Marked b' n ({[i]} ∪ s)) as HM.
  { split; [done|]. intros j. rewrite elem_of_union, elem_of_singleton, Hs.
    destruct (decide (0 ≤ j < n)) as [Hj|]; [|naive_solver lia].
    subst b'. rewrite bit_update with (n := n) by (done || lia). case_decide as E.
    - rewrite set_word by (done || lia). unfold bit. rewrite <- E, Hw. cbn.
      case_bool_decide; rewrite ?orb_true_r, ?orb_false_r; naive_solver.
    - assert (i ≠ j) by congruence. naive_solver. }
  rewrite (Test_spec _ _ _ _ HM Hi), bool_decide_true by set_solver. by exists b'.
Qed.

Lemma Clear_spec b n s i :
  Marked b n s → 0 ≤ i < n → ∃ b', Clear i b = Ok b' ∧ Marked b' n (s ∖ {[i]}).
Proof.
  intros [Hwf Hs] Hi. unfold Clear. rewrite (in_range_true _ _ _ Hwf Hi); cbn [ASSERT mbind res_bind].
  destruct (wf_word _ _ _ Hwf Hi) as (w&Hw&Hu&->&Hr). cbn [mbind res_bind].
  rewrite (quot_word b n) by done. rewrite aset_in by done. cbn [mbind res_bind].
  set (b' := mkBitmap _ _ _).
  assert (wf b' n) as Hwf' by (by apply wf_update, land_u32).
  assert (Marked b' n (s ∖ {[i]})) as HM.
  { split; [done|]. intros j. rewrite elem_of_difference, elem_of_singleton, Hs.
    destruct (decide (0 ≤ j < n)) as [Hj|]; [|naive_solver lia].
    subst b'. rewrite bit_update with (n := n) by (done || lia). case_decide as E.
    - rewrite clear_word by (done || lia). unfold bit. rewrite <- E, Hw. cbn.
      case_bool_decide; rewrite ?andb_true_r, ?andb_false_r; naive_solver.
    - assert (i ≠ j) by congruence. naive_solver. }
  rewrite (Test_spec _ _ _ _ HM Hi), bool_decide_false by set_solver. by exists b'.
Qed.

Lemma out_of_range b n s i :
  Marked b n s → ¬ 0 ≤ i < n →
  Test b i = Err AssertFailed ∧ Mark i b = Err AssertFailed ∧ Clear i b = Err AssertFailed.
Proof.
  intros [Hwf _] Hi. unfold Test, Mark, Clear. by rewrite (in_range_false _ _ _ Hwf Hi).
Qed.

Lemma numBits_Marked b n s : Marked b n s → numBits b = n.
Proof. by intros [(_&?&_) _]. Qed.

Lemma Marked_pos b n s : Marked b n s → 0 < n.
Proof. by intros [(?&_) _]. Qed.

Lemma new_Bitmap_spec n : 0 < n → ∃ b, new_Bitmap n = Ok b ∧ Marked b n ∅.
Proof.
  intros Hn. unfold new_Bitmap. rewrite (proj2 (Z.ltb_lt 0 n)) by done. cbn [ASSERT mbind res_bind].
  set (b0 := mkBitmap _ _ _).
  assert (Marked b0 n ∅) as H0.
  { split.
    - subst b0. repeat split; try done; cbn; [by rewrite length_replicate|].
      apply Forall_replicate. unfold_int; lia.
    - intros i. split; [set_solver|]. intros [_ Hb]. unfold bit in Hb; cbn [map b0] in Hb.
      destruct (replicate _ _ !! _) as [w|] eqn:E; cbn in Hb.
      + apply lookup_replicate in E as [-> _]. by rewrite Z.bits_0 in Hb.
      + by rewrite Z.bits_0 in Hb. }
  destruct (for_up_inv (λ _ b, Marked b n ∅) Clear (Z.to_nat n) 0 b0 H0) as (b&->&HM); [|by exists b].
  intros k b Hk HM. destruct (Clear_spec b n ∅ k HM) as (b'&->&HM'); [lia|].
  exists b'. split; [done|]. by replace (∅ ∖ {[k]}) with (∅ : gset Z) in HM' by set_solver.
Qed.

(** FindAndSet allocates the least clear bit. *)
Lemma FindAndSet_loop_spec k i b n s :
  Marked b n s → 0 ≤ i → i + Z.of_nat k = n → (∀ j, 0 ≤ j < i → j ∈ s) →
  ∃ r b', FindAndSet_loop k i b = Ok (r, b')
    ∧ ((r = -1 ∧ b' = b ∧ ∀ j, 0 ≤ j < n → j ∈ s)
       ∨ (0 ≤ r < n ∧ r ∉ s ∧ (∀ j, 0 ≤ j < r → j ∈ s) ∧ Marked b' n ({[r]} ∪ s))).
Proof.
  intros HM. revert i. induction k as [|k IH]; intros i Hi Hn Hlow; cbn [FindAndSet_loop].
  - exists (-1), b. split; [done|]. left. repeat split; try done. intros; apply Hlow; lia.
  - rewrite (Test_spec _ _ _ _ HM) by lia. cbn [mbind res_bind]. case_bool_decide as Hin; cbn [negb].
    + apply IH; [lia..|]. intros j Hj. destruct (decide (j = i)) as [->|]; [done|]. apply Hlow; lia.
    + destruct (Mark_spec b n s i HM) as (b'&->&HM'); [lia|]. cbn [mbind res_bind].
      exists i, b'. split; [done|]. right. naive_solver lia.
Qed.

Lemma FindAndSet_spec b n s :
  Marked b n s →
  ∃ r b', FindAndSet b = Ok (r, b')
    ∧ ((r = -1 ∧ b' = b ∧ ∀ j, 0 ≤ j < n → j ∈ s)
       ∨ (0 ≤ r < n ∧ r ∉ s ∧ (∀ j, 0 ≤ j < r → j ∈ s) ∧ Marked b' n ({[r]} ∪ s))).
Proof.
  intros HM. unfold FindAndSet. rewrite (numBits_Marked _ _ _ HM).
  pose proof (Marked_pos _ _ _ HM).
  apply FindAndSet_loop_spec; [done|lia|lia|]. intros; lia.
Qed.

(** The marked bits below an index. *)
Definition below (k : Z) s : gset Z := filter (λ j, j < k) s.

Lemma below_succ b n s k :
  Marked b n s → below (k + 1) s = if decide (k ∈ s) then {[k]} ∪ below k s else below k s.
Proof.
  intros _. unfold below. apply set_eq. intros j. case_decide; set_unfold; rewrite ?elem_of_filter;
    destruct (decide (j = k)); naive_solver lia.
Qed.

Lemma below_all b n s : Marked b n s → below n s = s.
Proof.
  intros HM. unfold below. apply set_eq. intros j. rewrite elem_of_filter. split; [naive_solver|].
  intros Hj. split; [|done]. pose proof (Marked_range _ _ _ _ HM Hj). lia.
Qed.

Lemma below_0 b n s : Marked b n s → below 0 s = ∅.
Proof.
  intros HM. unfold below. apply set_eq. intros j. rewrite elem_of_filter. split; [|set_solver].
  intros [? Hj]. pose proof (Marked_range _ _ _ _ HM Hj). lia.
Qed.

Lemma NumClear_spec b n s : Marked b n s → NumClear b = Ok (n - Z.of_nat (size s)).
Proof.
  intros HM. pose proof (Marked_pos _ _ _ HM). unfold NumClear. rewrite (numBits_Marked _ _ _ HM).
  destruct (for_up_inv (λ k count, count + Z.of_nat (size (below k s)) = k)
    (λ i count, t ← Test b i; Ok (if negb t then count + 1 else count)) (Z.to_nat n) 0 0)
    as (c&->&Hc).
  - by rewrite (below_0 _ _ _ HM), size_empty.
  - intros k c Hk Hc. rewrite (Test_spec _ _ _ _ HM) by lia. cbn [mbind res_bind].
    eexists; split; [done|]. rewrite (below_succ _ _ _ _ HM).
    case_decide; case_bool_decide; try done; cbn [negb]; [|lia].
    rewrite size_union, size_singleton; [lia|]. unfold below. set_solver by lia.
  - f_equal. replace (0 + Z.of_nat (Z.to_nat n)) with n in Hc by lia.
    rewrite (below_all _ _ _ HM) in Hc. lia.
Qed.

(** Marking, and then clearing, every bit: the last loops of SelfTest. *)
Lemma Mark_all_spec b n s :
  Marked b n s → ∃ b' s', for_up (Z.to_nat n) 0 Mark b = Ok b' ∧ Marked b' n s'
    ∧ ∀ j, 0 ≤ j < n → j ∈ s'.
Proof.
  intros HM. destruct (for_up_inv (λ k b, ∃ s', Marked b n s' ∧ ∀ j, 0 ≤ j < k → j ∈ s') Mark (Z.to_nat n) 0 b)
    as (b'&->&s'&HM'&Hall).
  - exists s. split; [done|lia].
  - intros k b1 Hk (s1&HM1&Hlow). destruct (Mark_spec b1 n s1 k HM1) as (b2&->&HM2); [lia|].
    exists b2. split; [done|]. eexists; split; [done|]. intros j Hj.
    destruct (decide (j = k)); [set_solver|]. apply elem_of_union_r, Hlow. lia.
  - exists b', s'. split; [done|]. split; [done|]. intros j Hj. apply Hall. lia.
Qed.

Lemma Clear_all_spec b n s :
  Marked b n s → ∃ b', for_up (Z.to_nat n) 0 Clear b = Ok b' ∧ Marked b' n ∅.
Proof.
  intros HM. pose proof (Marked_pos _ _ _ HM).
  destruct (for_up_inv (λ k b, ∃ s', Marked b n s' ∧ ∀ j, j ∈ s' → k ≤ j) Clear (Z.to_nat n) 0 b)
    as (b'&->&s'&HM'&Hall).
  - exists s. split; [done|]. intros j Hj. pose proof (Marked_range _ _ _ _ HM Hj). lia.
  - intros k b1 Hk (s1&HM1&Hlow). destruct (Clear_spec b1 n s1 k HM1) as (b2&->&HM2); [lia|].
    exists b2. split; [done|]. eexists; split; [done|]. intros j [Hj Hne]%elem_of_difference.
    specialize (Hlow j Hj). set_unfold. lia.
  - exists b'. split; [done|]. replace ∅ with s'; [done|]. apply set_eq. intros j. split; [|set_solver].
    intros Hj. specialize (Hall j Hj). pose proof (Marked_range _ _ _ _ HM' Hj). lia.
Qed.

Lemma FindAndSet_first b n s r :
  Marked b n s → 0 ≤ r < n → r ∉ s → (∀ j, 0 ≤ j < r → j ∈ s) →
  ∃ b', FindAndSet b = Ok (r, b') ∧ Marked b' n ({[r]} ∪ s).
Proof.
  intros HM Hr Hni Hlow. destruct (FindAndSet_spec b n s HM) as (r'&b'&->&[(->&->&H)|(Hr'&Hni'&Hlow'&HM')]).
  - exfalso. by apply Hni, H.
  - exists b'. destruct (Z.lt_trichotomy r r') as [?|[<-|?]]; [|done|].
    + exfalso. apply Hni, Hlow'. lia.
    + exfalso. apply Hni', Hlow. lia.
Qed.

Lemma FindAndSet_full b n s :
  Marked b n s → (∀ j, 0 ≤ j < n → j ∈ s) → FindAndSet b = Ok (-1, b).
Proof.
  intros HM Hall. destruct (FindAndSet_spec b n s HM) as (r'&b'&->&[(->&->&H)|(Hr'&Hni'&_)]); [done|].
  exfalso. by apply Hni', Hall.
Qed.

Lemma full_set_size (N : Z) (used : gset Z) :
  (∀ j, 0 ≤ j < N → j ∈ used) → N ≤ Z.of_nat (size used).
Proof.
  intros Hall. assert (Hsub : (list_to_set (seqZ 0 N) : gset Z) ⊆ used).
  { intros j Hj%elem_of_list_to_set%elem_of_seqZ. apply Hall. lia. }
  apply subseteq_size in Hsub. rewrite size_list_to_set in Hsub by apply NoDup_seqZ.
  rewrite length_seqZ in Hsub. lia.
Qed.

Lemma Marked_size b n s : Marked b n s → Z.of_nat (size s) ≤ n.
Proof.
  intros HM. pose proof (Marked_pos _ _ _ HM). assert (Hsub : s ⊆ (list_to_set (seqZ 0 n) : gset Z)).
  { intros j Hj. apply elem_of_list_to_set, elem_of_seqZ. pose proof (Marked_range _ _ _ _ HM Hj). lia. }
  apply subseteq_size in Hsub. rewrite size_list_to_set in Hsub by apply NoDup_seqZ.
  rewrite length_seqZ in Hsub. lia.
Qed.

Lemma BSelfTest_spec b n : Marked b n ∅ → 32 ≤ n → ∃ b', SelfTest b = Ok b' ∧ Marked b' n ∅.
Proof.
  intros HM Hn. unfold SelfTest. rewrite (numBits_Marked _ _ _ HM).
  rewrite (proj2 (Z.leb_le BitsInWord n)) by (unfold BitsInWord, BitsInByte; lia). cbn [ASSERT mbind res_bind].
  rewrite (NumClear_spec _ _ _ HM), size_empty; cbn [mbind res_bind].
  rewrite (proj2 (Z.eqb_eq _ _)) by lia. cbn [ASSERT mbind res_bind].
  destruct (FindAndSet_first b n ∅ 0 HM) as (b1&->&H1); [lia|set_solver|lia|]. cbn [mbind res_bind ASSERT Z.eqb].
  destruct (Mark_spec b1 n _ 31 H1) as (b2&->&H2); [lia|]. cbn [mbind res_bind].
  rewrite (Test_spec _ _ _ 0 H2), (Test_spec _ _ _ 31 H2), !bool_decide_true by (set_solver || lia).
  cbn [mbind res_bind ASSERT andb].
  destruct (FindAndSet_first b2 n _ 1 H2) as (b3&->&H3); [lia|set_solver by lia| |].
  { intros j Hj. replace j with 0 by lia. set_solver. }
  cbn [mbind res_bind ASSERT Z.eqb Pos.eqb].
  destruct (Clear_spec b3 n _ 0 H3) as (b4&->&H4); [lia|]. cbn [mbind res_bind].
  destruct (Clear_spec b4 n _ 1 H4) as (b5&->&H5); [lia|]. cbn [mbind res_bind].
  destruct (Clear_spec b5 n _ 31 H5) as (b6&->&H6); [lia|]. cbn [mbind res_bind].
  rewrite (numBits_Marked _ _ _ H6).
  destruct (Mark_all_spec b6 n _ H6) as (b7&s7&->&H7&Hall). cbn [mbind res_bind].
  rewrite (FindAndSet_full b7 n s7 H7 Hall). cbn [mbind res_bind ASSERT Z.eqb Pos.eqb].
  rewrite (numBits_Marked _ _ _ H7). by eapply Clear_all_spec.
Qed.

End BitmapSpec.

(** C2 (refinement): on a bitmap of [n] bits that holds the set [s], Test, Mark,
    Clear, FindAndSet and NumClear are membership, insertion, removal,
    allocation of the least free index and the count of free indices; an index
    outside [0, n) fails the ASSERT of Test, Mark and Clear; a full bitmap
    makes FindAndSet return -1 and changes nothing. *)
Theorem bitmap_refines_set (b : Bitmap.Bitmap) (n : Z) (s : gset Z)
    (Hb : BitmapSpec.Marked b n s) :
  (∀ i, 0 ≤ i < n →
     Bitmap.Test b i = Ok (bool_decide (i ∈ s))
     ∧ (∃ b', Bitmap.Mark i b = Ok b' ∧ BitmapSpec.Marked b' n ({[i]} ∪ s))
     ∧ (∃ b', Bitmap.Clear i b = Ok b' ∧ BitmapSpec.Marked b' n (s ∖ {[i]})))
  ∧ (∀ i, ¬ (0 ≤ i < n) →
     Bitmap.Test b i = Err AssertFailed ∧ Bitmap.Mark i b = Err AssertFailed
     ∧ Bitmap.Clear i b = Err AssertFailed)
  ∧ (∃ r b', Bitmap.FindAndSet b = Ok (r, b')
      ∧ ((r = -1 ∧ b' = b ∧ ∀ j, 0 ≤ j < n → j ∈ s)
         ∨ (0 ≤ r < n ∧ r ∉ s ∧ (∀ j, 0 ≤ j < r → j ∈ s) ∧ BitmapSpec.Marked b' n ({[r]} ∪ s))))
  ∧ Bitmap.NumClear b = Ok (n - Z.of_nat (size s)).
Proof.
  split; [|split; [|split]].
  - intros i Hi. split; [by eapply BitmapSpec.Test_spec|].
    split; [by eapply BitmapSpec.Mark_spec|by eapply BitmapSpec.Clear_spec].
  - intros i Hi. by eapply BitmapSpec.out_of_range.
  - by apply BitmapSpec.FindAndSet_spec.
  - by apply BitmapSpec.NumClear_spec.
Qed.

(** the constructor gives a bitmap with every bit clear, and on
    a bitmap of at least 32 bits SelfTest (lib/bitmap.cc) runs through all its
    assertions and leaves every bit clear. *)
Theorem bitmap_create_and_selftest (n : Z) (Hn : 32 ≤ n) :
  ∃ b b', Bitmap.new_Bitmap n = Ok b ∧ BitmapSpec.Marked b n ∅
    ∧ Bitmap.SelfTest b = Ok b' ∧ BitmapSpec.Marked b' n ∅.
Proof.
  destruct (BitmapSpec.new_Bitmap_spec n) as (b&Hb&HM); [lia|].
  destruct (BitmapSpec.BSelfTest_spec b n HM Hn) as (b'&Hb'&HM'). by exists b, b'.
Qed.

(** The bitmap of LibSelfTest (lib/libtest.cc). *)
Lemma bitmap_create_and_selftest_witness :
  ∃ b b', Bitmap.new_Bitmap 200 = Ok b ∧ BitmapSpec.Marked b 200 ∅
    ∧ Bitmap.SelfTest b = Ok b' ∧ BitmapSpec.Marked b' 200 ∅.
Proof. apply (bitmap_create_and_selftest 200). lia. Defined.

Definition one_word : Bitmap.Bitmap := Bitmap.mkBitmap 32 1 [1].

Lemma one_word_Marked : BitmapSpec.Marked one_word 32 {[0]}.
Proof.
  split; [repeat split; try done; repeat constructor; done|].
  intros i. rewrite elem_of_singleton. unfold BitmapSpec.bit, one_word; cbn [Bitmap.map]. split.
  - intros ->. split; [lia|done].
  - intros [Hi Hb]. rewrite Z.div_small, Z.mod_small in Hb by lia. cbn in Hb.
    destruct i; [done| |lia]. by destruct p.
Qed.

Lemma bitmap_refines_set_witness :
  BitmapSpec.Marked one_word 32 {[0]} ∧ Bitmap.NumClear one_word = Ok 31.
Proof.
  split; [exact one_word_Marked|].
  exact (proj2 (proj2 (proj2 (bitmap_refines_set one_word 32 {[0]} one_word_Marked)))).
Defined.
