(* ===== verification/HashTable.v ===== *)
(** lib/hash.{h,cc}: the self-expanding chained hash table.

    Module Hash holds the operations, written against the list interface of
    ListADT.v (a bucket is a linked list); Module HashSpec the representation
    of a finite map by the buckets and the law of each operation.  The
    theorems at the end compare whole histories of calls with [gmap].

    The function pointers [getKey] and [hash] are parameters; [hash] returns
    an [unsigned].  A found item is [Some item], the NULL stored through
    [itemPtr] by a failed search is [None]. *)

From S2P Require Import Prelude LinkedList ListADT.

Module Hash.

Definition InitialBuckets : Z := 4.
Definition ResizeRatio : Z := 3.
Definition IncreaseSizeBy : Z := 4.

Record HashTable (L : Type) := mkTable { buckets : list L; numBuckets : Z; numItems : Z }.
#[global] Arguments mkTable {L}.
#[global] Arguments buckets {L}.
#[global] Arguments numBuckets {L}.
#[global] Arguments numItems {L}.

Record HashIterator (It : Type) := mkHashIterator { bucket : Z; bucketIter : option It }.
#[global] Arguments mkHashIterator {It}.
#[global] Arguments bucket {It}.
#[global] Arguments bucketIter {It}.

Section HASH.
Context {Key T L It : Type} `{EqDecision Key} `{LA : ListADT T L It}.
Context (getKey : T → Key) (hash : Key → Z).
Implicit Types t : HashTable L.

(** [new Bucket[sz]] throws for a negative size. *)
Definition InitBuckets (sz : Z) t : res (HashTable L) :=
  if sz <? 0 then Err BadAccess
  else Ok (mkTable (replicate (Z.to_nat sz) lst_new) sz (numItems t)).

Definition new_HashTable : res (HashTable L) := InitBuckets InitialBuckets (mkTable [] 0 0).

Definition IsEmpty t : bool := numItems t =? 0.

(** The destructor. *)
Definition destroy t : res unit := ASSERT (IsEmpty t).

(** The usual conversions: [unsigned % int] is computed on [unsigned]. *)
Definition HashValue t (key : Key) : res Z :=
  if numBuckets t =? 0 then Err BadAccess
  else
    let result := s32 (u32 (hash key) mod u32 (numBuckets t)) in
    ASSERT ((0 <=? result) && (result <? numBuckets t)) ;;
    Ok result.

Fixpoint FindInBucket_loop (fuel : nat) (l : L) (iterator : It) (key : Key) : res (option T) :=
  match fuel with
  | O => Err OutOfFuel
  | S fuel =>
    if it_done iterator then Ok None
    else
      x ← it_item l iterator;
      if decide (key = getKey x) then y ← it_item l iterator; Ok (Some y)
      else iterator ← it_next l iterator; FindInBucket_loop fuel l iterator key
  end.

Definition FindInBucket t (b : Z) (key : Key) : res (option T) :=
  l ← aget (buckets t) b;
  FindInBucket_loop (S (Z.to_nat (lst_num l))) l (it_new l) key.

Definition Find t (key : Key) : res (option T) :=
  b ← HashValue t key;
  FindInBucket t b key.

Definition IsInTable t (key : Key) : res bool :=
  found ← Find t key;
  Ok (bool_decide (is_Some found)).

(** [buckets[HashValue(getKey(item))]->Append(item)]. *)
Definition append_item (item : T) t : res (HashTable L) :=
  b ← HashValue t (getKey item);
  l ← aget (buckets t) b;
  l ← lst_append item l;
  bs ← aset (buckets t) b l;
  Ok (mkTable bs (numBuckets t) (numItems t)).

(** The [while] loop of ReHash on one bucket of the old table. *)
Fixpoint ReHash_drain (fuel : nat) (old : L) t : res (HashTable L) :=
  match fuel with
  | O => Err OutOfFuel
  | S fuel =>
    if lst_isEmpty old then Ok t
    else
      '(item, old) ← lst_removeFront old;
      t ← append_item item t;
      ReHash_drain fuel old t
  end.

Fixpoint SanityCheck_loop (fuel : nat) t (i : Z) (l : L) (iterator : It) : res unit :=
  match fuel with
  | O => Err OutOfFuel
  | S fuel =>
    if it_done iterator then Ok tt
    else
      x ← it_item l iterator;
      h ← HashValue t (getKey x);
      ASSERT (i =? h) ;;
      iterator ← it_next l iterator;
      SanityCheck_loop fuel t i l iterator
  end.

Definition SanityCheck t : res unit :=
  numFound ← for_up (Z.to_nat (numBuckets t)) 0 (λ i numFound,
    l ← aget (buckets t) i;
    lst_check l ;;
    SanityCheck_loop (S (Z.to_nat (lst_num l))) t i l (it_new l) ;;
    Ok (numFound + lst_num l)) 0;
  ASSERT (numItems t =? numFound).

Definition ReHash t : res (HashTable L) :=
  let oldTable := buckets t in
  let oldSize := numBuckets t in
  SanityCheck t ;;
  t ← InitBuckets (s32 (numBuckets t * IncreaseSizeBy)) t;
  t ← for_up (Z.to_nat oldSize) 0 (λ i t,
    l ← aget oldTable i;
    ReHash_drain (S (Z.to_nat (lst_num l))) l t) t;
  SanityCheck t ;;
  Ok t.

Definition Insert (item : T) t : res (HashTable L) :=
  let key := getKey item in
  found ← IsInTable t key;
  ASSERT (negb found) ;;
  (if numBuckets t =? 0 then Err BadAccess else Ok tt) ;;
  t ← (if ResizeRatio <=? Z.quot (numItems t) (numBuckets t) then ReHash t else Ok t);
  t ← append_item item t;
  let t := mkTable (buckets t) (numBuckets t) (numItems t + 1) in
  found ← IsInTable t key;
  ASSERT found ;;
  Ok t.

Definition Remove (key : Key) t : res (T * HashTable L) :=
  b ← HashValue t key;
  found ← FindInBucket t b key;
  match found with
  | None => Err AssertFailed
  | Some item =>
    l ← aget (buckets t) b;
    l ← lst_remove item l;
    bs ← aset (buckets t) b l;
    let t := mkTable bs (numBuckets t) (numItems t - 1) in
    still ← IsInTable t key;
    ASSERT (negb still) ;;
    Ok (item, t)
  end.

Definition Apply {S : Type} (func : T → S → res S) t (s : S) : res S :=
  for_up (Z.to_nat (numBuckets t)) 0 (λ b s, l ← aget (buckets t) b; lst_apply S func l s) s.

Fixpoint FindNextFullBucket_loop (k : nat) t (b : Z) : res Z :=
  match k with
  | O => Ok b
  | S k =>
    l ← aget (buckets t) b;
    if negb (lst_isEmpty l) then Ok b else FindNextFullBucket_loop k t (b + 1)
  end.

Definition FindNextFullBucket t (b : Z) : res Z :=
  FindNextFullBucket_loop (Z.to_nat (numBuckets t - b)) t b.

Definition open_bucket t (b : Z) : res (HashIterator It) :=
  if b <? numBuckets t then l ← aget (buckets t) b; Ok (mkHashIterator b (Some (it_new l)))
  else Ok (mkHashIterator b None).

Definition new_HashIterator t : res (HashIterator It) :=
  b ← FindNextFullBucket t 0;
  open_bucket t b.

Definition IsDone t (iter : HashIterator It) : bool := bucket iter =? numBuckets t.

Definition Item t (iter : HashIterator It) : res T :=
  ASSERT (negb (IsDone t iter)) ;;
  it ← deref (bucketIter iter);
  l ← aget (buckets t) (bucket iter);
  it_item l it.

Definition Next t (iter : HashIterator It) : res (HashIterator It) :=
  it ← deref (bucketIter iter);
  l ← aget (buckets t) (bucket iter);
  it ← it_next l it;
  if it_done it then
    b ← FindNextFullBucket t (bucket iter + 1);
    open_bucket t b
  else Ok (mkHashIterator (bucket iter) (Some it)).

Fixpoint SelfTest_insert (p : list T) t : res (HashTable L) :=
  match p with
  | [] => Ok t
  | x :: p =>
    t ← Insert x t;
    found ← IsInTable t (getKey x);
    ASSERT found ;;
    ASSERT (negb (IsEmpty t)) ;;
    SelfTest_insert p t
  end.

Fixpoint SelfTest_remove (p : list T) t : res (HashTable L) :=
  match p with
  | [] => Ok t
  | x :: p =>
    '(y, t) ← Remove (getKey x) t;
    ASSERT (bool_decide (y = x)) ;;
    SelfTest_remove p t
  end.

(** The body of the first loop is ASSERTNOTREACHED. *)
Definition SelfTest (p : list T) t : res (HashTable L) :=
  iterator ← new_HashIterator t;
  SanityCheck t ;;
  ASSERT (IsEmpty t) ;;
  ASSERT (IsDone t iterator) ;;
  t ← SelfTest_insert p t;
  t ← SelfTest_remove p t;
  ASSERT (IsEmpty t) ;;
  SanityCheck t ;;
  Ok t.

End HASH.
#[global] Arguments HashValue {Key L} hash t key : simpl never.
#[global] Arguments FindInBucket : simpl never.
#[global] Arguments IsInTable : simpl never.
#[global] Arguments append_item : simpl never.
#[global] Arguments SanityCheck : simpl never.
#[global] Arguments ReHash : simpl never.
End Hash.

Module HashSpec.
Import Hash.
Section SPEC.
Context {Key T L It : Type} `{EqDecision Key} `{LA : ListADT T L It}.
Context (getKey : T → Key) (hash : Key → Z).
Implicit Types (t : HashTable L) (xss : list (list T)).

(** The bucket of a key in a table of [n] buckets. *)
Definition hv (n : Z) (key : Key) : Z := u32 (hash key) mod n.

(** Every bucket is a legal list, and every item is in the bucket its key
    hashes to. *)
Definition placed (n : Z) xss : Prop :=
  ∀ (i : nat) xs x, xss !! i = Some xs → x ∈ xs → hv n (getKey x) = Z.of_nat i.

Record Tab t xss : Prop := {
  tab_lists : Forall2 lst_rep (buckets t) xss;
  tab_len : Z.of_nat (length xss) = numBuckets t;
  tab_range : 0 < numBuckets t < halfword;
  tab_placed : placed (numBuckets t) xss
}.

Lemma hv_range n key : 0 < n → 0 ≤ hv n key < n.
Proof. intros. by apply Z.mod_pos_bound. Qed.

Lemma HashValue_ok t key :
  0 < numBuckets t < halfword → HashValue hash t key = Ok (hv (numBuckets t) key).
Proof.
  intros Hn. unfold HashValue. destruct (Z.eqb_spec (numBuckets t) 0); [lia|].
  pose proof (hv_range (numBuckets t) key ltac:(lia)) as Hr.
  rewrite (u32_id (numBuckets t)) by (unfold_int; lia).
  change (u32 (hash key) mod numBuckets t) with (hv (numBuckets t) key).
  rewrite s32_id by (unfold_int; lia).
  by rewrite (proj2 (Z.leb_le 0 _)), (proj2 (Z.ltb_lt _ _)) by lia.
Qed.

Lemma Tab_bucket t xss (b : Z) :
  Tab t xss → 0 ≤ b < numBuckets t →
  ∃ l xs, aget (buckets t) b = Ok l ∧ xss !! Z.to_nat b = Some xs ∧ lst_rep l xs.
Proof.
  intros HT Hb. destruct (lookup_lt_is_Some_2 xss (Z.to_nat b)) as [xs Hxs].
  { pose proof (tab_len _ _ HT). lia. }
  destruct (Forall2_lookup_r _ _ _ _ _ (tab_lists _ _ HT) Hxs) as (l&Hl&HR).
  exists l, xs. split; [|done]. apply aget_Ok. split; [lia|done].
Qed.

Lemma in_concat_bucket t xss x :
  Tab t xss → x ∈ concat xss →
  ∃ xs, xss !! Z.to_nat (hv (numBuckets t) (getKey x)) = Some xs ∧ x ∈ xs.
Proof.
  intros HT (xs&Hxs&Hx)%list_elem_of_In%in_concat.
  apply list_elem_of_In, list_elem_of_lookup in Hxs as [i Hi]. apply list_elem_of_In in Hx.
  exists xs. by rewrite (tab_placed _ _ HT i xs x Hi Hx), Nat2Z.id.
Qed.

Lemma bucket_in_concat xss (i : nat) xs (x : T) : xss !! i = Some xs → x ∈ xs → x ∈ concat xss.
Proof.
  intros Hi%list_elem_of_lookup_2 Hx. apply list_elem_of_In, in_concat.
  exists xs. by rewrite <- !list_elem_of_In.
Qed.

(** ** Searching *)

Definition found_in (key : Key) (xs : list T) (o : option T) : Prop :=
  match o with
  | Some x => x ∈ xs ∧ getKey x = key
  | None => ∀ x, x ∈ xs → getKey x ≠ key
  end.

Lemma FindInBucket_loop_ok fuel l it xs key :
  it_rep l it xs → (length xs < fuel)%nat →
  ∃ o, FindInBucket_loop getKey fuel l it key = Ok o ∧ found_in key xs o.
Proof.
  revert it xs. induction fuel as [|fuel IH]; intros it xs Hit Hf; [lia|].
  cbn [FindInBucket_loop]. rewrite (it_done_ok _ _ _ Hit).
  destruct xs as [|x xs].
  { rewrite bool_decide_true by done. exists None. split; [done|]. intros x Hx%elem_of_nil. done. }
  rewrite bool_decide_false by done.
  destruct (it_step_ok _ _ _ _ Hit) as (Hi&it'&Hn&Hit'). rewrite Hi. cbn [mbind res_bind].
  destruct (decide (key = getKey x)) as [->|Hne].
  { cbn. exists (Some x). split; [done|]. split; [by left|done]. }
  rewrite Hn. cbn [mbind res_bind]. destruct (IH it' xs Hit') as (o&->&Ho); [cbn in Hf; lia|].
  exists o. split; [done|]. destruct o as [y|]; cbn in Ho |- *.
  - destruct Ho. split; [by right|done].
  - intros y [->|Hy]%elem_of_cons; [congruence|by apply Ho].
Qed.

Lemma FindInBucket_ok t xss key :
  Tab t xss →
  ∃ o, FindInBucket getKey t (hv (numBuckets t) key) key = Ok o ∧ found_in key (concat xss) o.
Proof.
  intros HT. pose proof (tab_range _ _ HT) as Hn.
  destruct (Tab_bucket _ _ (hv (numBuckets t) key) HT) as (l&xs&Hl&Hxs&HR); [by apply hv_range; lia|].
  unfold FindInBucket. rewrite Hl. cbn [mbind res_bind]. rewrite (lst_num_ok _ _ HR).
  destruct (FindInBucket_loop_ok (S (Z.to_nat (Z.of_nat (length xs)))) l (it_new l) xs key)
    as (o&->&Ho); [by apply it_new_ok|lia|].
  exists o. split; [done|]. destruct o as [x|]; cbn in Ho |- *.
  - destruct Ho as [Hx <-]. split; [by eapply bucket_in_concat|done].
  - intros x Hx Heq. destruct (in_concat_bucket _ _ _ HT Hx) as (xs'&Hxs'&Hx').
    rewrite Heq in Hxs'. simplify_eq. by apply (Ho x).
Qed.

Lemma Find_ok t xss key :
  Tab t xss → ∃ o, Find getKey hash t key = Ok o ∧ found_in key (concat xss) o.
Proof.
  intros HT. unfold Find. rewrite HashValue_ok by apply HT. by apply FindInBucket_ok.
Qed.

Lemma IsInTable_ok t xss key :
  Tab t xss →
  ∃ b, IsInTable getKey hash t key = Ok b ∧ (b = true ↔ ∃ x, x ∈ concat xss ∧ getKey x = key).
Proof.
  intros HT. unfold IsInTable. destruct (Find_ok _ _ key HT) as (o&->&Ho). cbn.
  eexists. split; [done|]. rewrite bool_decide_eq_true.
  destruct o as [x|]; cbn in Ho; [naive_solver|]. split; [intros []; done|naive_solver].
Qed.

(** ** Changing one bucket *)

Lemma Tab_update t xss (b : Z) xs l' xs' num :
  Tab t xss → xss !! Z.to_nat b = Some xs → 0 ≤ b →
  lst_rep l' xs' → (∀ x, x ∈ xs' → hv (numBuckets t) (getKey x) = b) →
  aset (buckets t) b l' = Ok (<[Z.to_nat b := l']> (buckets t))
  ∧ Tab (mkTable (<[Z.to_nat b := l']> (buckets t)) (numBuckets t) num) (<[Z.to_nat b := xs']> xss).
Proof.
  intros HT Hxs Hb HR Hpl. pose proof (lookup_lt_Some _ _ _ Hxs) as Hlt.
  pose proof (Forall2_length _ _ _ (tab_lists _ _ HT)) as Hlen. split; [apply aset_in; lia|].
  split; cbn.
  - apply Forall2_insert; [apply HT|done].
  - rewrite length_insert. apply HT.
  - apply HT.
  - intros i ys x Hi Hx. destruct (decide (i = Z.to_nat b)) as [->|Hne].
    + rewrite list_lookup_insert_eq in Hi by done. simplify_eq. rewrite Hpl by done. lia.
    + rewrite list_lookup_insert_ne in Hi by done. by eapply tab_placed.
Qed.

Lemma concat_insert_perm xss (i : nat) xs xs' :
  xss !! i = Some xs → concat (<[i := xs']> xss) ++ xs ≡ₚ xs' ++ concat xss.
Proof.
  intros Hi. rewrite (insert_take_drop _ _ _ (lookup_lt_Some _ _ _ Hi)).
  rewrite <- (take_drop_middle xss i xs Hi) at 3.
  rewrite !concat_app. cbn. solve_Permutation.
Qed.

Lemma append_item_ok t xss x :
  Tab t xss → x ∉ concat xss →
  ∃ t' xss', append_item getKey hash x t = Ok t' ∧ Tab t' xss'
    ∧ concat xss' ≡ₚ x :: concat xss
    ∧ numBuckets t' = numBuckets t ∧ numItems t' = numItems t.
Proof.
  intros HT Hx. pose proof (tab_range _ _ HT) as Hn.
  pose proof (hv_range (numBuckets t) (getKey x) ltac:(lia)) as Hr.
  destruct (Tab_bucket _ _ _ HT Hr) as (l&xs&Hl&Hxs&HR).
  destruct (lst_append_ok l xs x HR) as (l'&Ha&HR').
  { intros ?. by apply Hx, (bucket_in_concat _ _ _ _ Hxs). }
  destruct (Tab_update t xss _ xs l' (xs ++ [x]) (numItems t) HT Hxs) as [Hset HT']; [lia|done| |].
  { intros y [Hy| ->%list_elem_of_singleton]%elem_of_app; [|done].
    rewrite (tab_placed _ _ HT _ _ _ Hxs Hy). lia. }
  unfold append_item. rewrite HashValue_ok by done. cbn [mbind res_bind].
  rewrite Hl. cbn [mbind res_bind]. rewrite Ha. cbn [mbind res_bind]. rewrite Hset.
  eexists _, _. split; [done|]. split; [done|]. split; [|done].
  pose proof (concat_insert_perm xss _ xs (xs ++ [x]) Hxs) as HP.
  apply (Permutation_app_inv_r xs). rewrite HP. solve_Permutation.
Qed.

(** ** Sanity check and rehashing *)

Lemma SanityCheck_loop_ok fuel t (i : Z) l it xs :
  0 < numBuckets t < halfword → it_rep l it xs → (length xs < fuel)%nat →
  (∀ x, x ∈ xs → hv (numBuckets t) (getKey x) = i) →
  SanityCheck_loop getKey hash fuel t i l it = Ok tt.
Proof.
  intros Hn. revert it xs. induction fuel as [|fuel IH]; intros it xs Hit Hf Hpl; [lia|].
  cbn [SanityCheck_loop]. rewrite (it_done_ok _ _ _ Hit).
  destruct xs as [|x xs]; [by rewrite bool_decide_true|]. rewrite bool_decide_false by done.
  destruct (it_step_ok _ _ _ _ Hit) as (->&it'&Hnx&Hit'). cbn [mbind res_bind].
  rewrite HashValue_ok by done. cbn [mbind res_bind].
  rewrite (Hpl x), Z.eqb_refl by left. cbn [mbind res_bind ASSERT].
  rewrite Hnx. cbn [mbind res_bind]. apply (IH _ _ Hit'); [cbn in Hf; lia|].
  intros y Hy. apply Hpl. by right.
Qed.

Lemma SanityCheck_ok t xss :
  Tab t xss → numItems t = Z.of_nat (length (concat xss)) → SanityCheck getKey hash t = Ok tt.
Proof.
  intros HT Hnum. pose proof (tab_range _ _ HT). pose proof (tab_len _ _ HT). unfold SanityCheck.
  destruct (for_up_inv (λ k n, n = Z.of_nat (length (concat (take (Z.to_nat k) xss))))
    (λ i numFound, l ← aget (buckets t) i; lst_check l ;;
      SanityCheck_loop getKey hash (S (Z.to_nat (lst_num l))) t i l (it_new l) ;;
      Ok (numFound + lst_num l)) (Z.to_nat (numBuckets t)) 0 0) as (n&->&Hn); [done| |].
  - intros k n Hk ->. destruct (Tab_bucket _ _ k HT) as (l&xs&->&Hxs&HR); [lia|].
    cbn [mbind res_bind]. rewrite (lst_check_ok _ _ HR). cbn [mbind res_bind].
    rewrite (SanityCheck_loop_ok _ _ _ _ _ xs); [cbn|done|by apply it_new_ok| |].
    + eexists. split; [done|]. rewrite (lst_num_ok _ _ HR), Z2Nat.inj_add by lia.
      rewrite Nat.add_1_r, (take_S_r _ _ _ Hxs), concat_app, length_app. cbn. rewrite app_nil_r. lia.
    + rewrite (lst_num_ok _ _ HR). lia.
    + intros x Hx. rewrite (tab_placed _ _ HT _ _ _ Hxs Hx). lia.
  - cbn. rewrite take_ge in Hn by lia. by rewrite Hnum, Hn, Z.eqb_refl.
Qed.

Lemma Tab_init n num :
  0 < n < halfword → Tab (mkTable (replicate (Z.to_nat n) lst_new) n num) (replicate (Z.to_nat n) []).
Proof.
  intros Hn. split; cbn.
  - apply Forall2_replicate, lst_new_ok.
  - rewrite length_replicate. lia.
  - done.
  - intros i xs x [-> _]%lookup_replicate ?%elem_of_nil. done.
Qed.

Lemma concat_replicate_nil {A} n : concat (replicate n (@nil A)) = [].
Proof. by induction n. Qed.

Lemma ReHash_drain_ok fuel l ys t xss :
  lst_rep l ys → (length ys < fuel)%nat → Tab t xss → NoDup (ys ++ concat xss) →
  ∃ t' xss', ReHash_drain getKey hash fuel l t = Ok t' ∧ Tab t' xss'
    ∧ concat xss' ≡ₚ concat xss ++ ys
    ∧ numBuckets t' = numBuckets t ∧ numItems t' = numItems t.
Proof.
  revert l ys t xss. induction fuel as [|fuel IH]; intros l ys t xss HR Hf HT Hnd; [lia|].
  cbn [ReHash_drain]. rewrite (lst_isEmpty_ok _ _ HR). destruct ys as [|y ys].
  { rewrite bool_decide_true by done. exists t, xss. by rewrite app_nil_r. }
  rewrite bool_decide_false by done.
  destruct (lst_removeFront_ok _ _ _ HR) as (l'&->&HR'). cbn [mbind res_bind].
  cbn in Hnd. apply NoDup_cons in Hnd as [Hy Hnd].
  destruct (append_item_ok t xss y HT) as (t1&xss1&->&HT1&HP1&Hb1&Hi1); [set_solver|].
  cbn [mbind res_bind].
  destruct (IH l' ys t1 xss1) as (t2&xss2&->&HT2&HP2&Hb2&Hi2); [done|cbn in Hf; lia|done| |].
  { rewrite HP1, <- Permutation_middle. by apply NoDup_cons. }
  exists t2, xss2. split; [done|]. split; [done|]. split; [|split; congruence].
  rewrite HP2, HP1. solve_Permutation.
Qed.

Lemma ReHash_ok t xss :
  Tab t xss → NoDup (concat xss) → numItems t = Z.of_nat (length (concat xss)) →
  numBuckets t * IncreaseSizeBy < halfword →
  ∃ t' xss', ReHash getKey hash t = Ok t' ∧ Tab t' xss' ∧ concat xss' ≡ₚ concat xss
    ∧ numBuckets t' = numBuckets t * IncreaseSizeBy ∧ numItems t' = numItems t.
Proof.
  intros HT Hnd Hnum Hsz. pose proof (tab_range _ _ HT) as Hr. pose proof (tab_len _ _ HT).
  unfold ReHash. rewrite (SanityCheck_ok t xss) by done. cbn [mbind res_bind].
  unfold IncreaseSizeBy in *. rewrite s32_id by (unfold_int; lia).
  unfold InitBuckets. destruct (Z.ltb_spec (numBuckets t * 4) 0); [lia|]. cbn [mbind res_bind].
  set (t0 := mkTable _ _ _).
  destruct (for_up_inv (λ k t', ∃ xss', Tab t' xss'
      ∧ concat xss' ≡ₚ concat (take (Z.to_nat k) xss)
      ∧ numBuckets t' = numBuckets t * 4 ∧ numItems t' = numItems t)
    (λ i t', l ← aget (buckets t) i;
      ReHash_drain getKey hash (S (Z.to_nat (lst_num l))) l t') (Z.to_nat (numBuckets t)) 0 t0)
    as (t'&->&xss'&HT'&HP&Hb&Hi).
  - eexists. split; [apply Tab_init; lia|]. by rewrite concat_replicate_nil.
  - intros k s Hk (xss1&HT1&HP1&Hb1&Hi1).
    destruct (Tab_bucket _ _ k HT) as (l&xs&->&Hxs&HR); [lia|]. cbn [mbind res_bind].
    assert (Hcat : concat (take (Z.to_nat (k + 1)) xss) = concat (take (Z.to_nat k) xss) ++ xs).
    { rewrite Z2Nat.inj_add, Nat.add_1_r by lia.
      by rewrite (take_S_r _ _ _ Hxs), concat_app; cbn; rewrite app_nil_r. }
    destruct (ReHash_drain_ok (S (Z.to_nat (lst_num l))) l xs s xss1)
      as (t2&xss2&->&HT2&HP2&Hb2&Hi2); [done| |done| |].
    + rewrite (lst_num_ok _ _ HR). lia.
    + rewrite Permutation_app_comm, HP1, <- Hcat.
      rewrite <- (take_drop (Z.to_nat (k + 1)) xss), concat_app in Hnd.
      by apply list.NoDup_app in Hnd as [? _].
    + exists t2. split; [done|]. exists xss2. rewrite Hcat, <- HP1. split; [done|].
      split; [done|]. split; congruence.
  - cbn [mbind res_bind]. rewrite take_ge in HP by lia.
    rewrite (SanityCheck_ok t' xss'); [|done|by rewrite HP, Hi].
    cbn. by exists t', xss'.
Qed.

(** ** The finite map a table represents *)

Context `{!Countable Key}.
Implicit Types m : gmap Key T.

Definition HRep t m : Prop :=
  ∃ xss, Tab t xss ∧ NoDup (concat xss)
    ∧ numItems t = Z.of_nat (length (concat xss)) ∧ length (concat xss) = size m
    ∧ ∀ key x, m !! key = Some x ↔ x ∈ concat xss ∧ getKey x = key.

Lemma found_in_lookup m xs key o :
  (∀ key x, m !! key = Some x ↔ x ∈ xs ∧ getKey x = key) →
  found_in key xs o → o = m !! key.
Proof.
  intros Hm Ho. destruct o as [x|]; cbn in Ho; [by symmetry; apply Hm|].
  destruct (m !! key) as [x|] eqn:E; [|done]. apply Hm in E as [Hx Hk]. by apply Ho in Hk.
Qed.

Lemma HRep_Find t m key : HRep t m → Find getKey hash t key = Ok (m !! key).
Proof.
  intros (xss&HT&_&_&_&Hm). destruct (Find_ok _ _ key HT) as (o&->&Ho).
  by rewrite (found_in_lookup m _ _ _ Hm Ho).
Qed.

Lemma HRep_IsInTable t m key :
  HRep t m → IsInTable getKey hash t key = Ok (bool_decide (is_Some (m !! key))).
Proof. intros HR. unfold IsInTable. by rewrite (HRep_Find _ _ _ HR). Qed.

Lemma HRep_IsEmpty t m : HRep t m → IsEmpty t = bool_decide (m = ∅).
Proof.
  intros (xss&_&_&Hn&Hs&_). unfold IsEmpty. rewrite Hn, Hs.
  destruct (decide (m = ∅)) as [->|Hne].
  - by rewrite map_size_empty, bool_decide_true.
  - rewrite bool_decide_false by done. apply Z.eqb_neq. intros ?.
    apply Hne, map_size_empty_inv. lia.
Qed.

Lemma HRep_SanityCheck t m : HRep t m → SanityCheck getKey hash t = Ok tt.
Proof. intros (xss&HT&_&Hn&_). by eapply SanityCheck_ok. Qed.

Lemma HRep_new :
  ∃ t, new_HashTable = Ok t ∧ HRep t ∅ ∧ numBuckets t = InitialBuckets.
Proof.
  eexists. split; [done|]. split; [|done]. eexists. split.
  { apply (Tab_init 4 0). unfold_int. lia. }
  rewrite concat_replicate_nil. split; [by constructor|]. split; [done|].
  split; [by rewrite map_size_empty|]. intros key x.
  rewrite lookup_empty. split; [done|]. by intros [?%elem_of_nil _].
Qed.

(** What Insert and Remove do to the items determines the new map. *)
Lemma HRep_added t m xss x :
  Tab t xss → m !! getKey x = None →
  (∃ xs, concat xss ≡ₚ x :: xs ∧ NoDup xs ∧ length xs = size m
     ∧ ∀ key y, m !! key = Some y ↔ y ∈ xs ∧ getKey y = key) →
  numItems t = Z.of_nat (size m) + 1 →
  HRep t (<[getKey x := x]> m).
Proof.
  intros HT Hx (xs&HP&Hnd&Hs&Hm) Hn. exists xss.
  assert (Hxs : x ∉ xs) by (intros ?; by rewrite (proj2 (Hm _ x)) in Hx).
  split; [done|]. rewrite HP. split; [by apply NoDup_cons|].
  split; [cbn; lia|]. split; [by rewrite map_size_insert_None by done; cbn; rewrite Hs|].
  intros key y. rewrite HP, elem_of_cons, lookup_insert_Some, Hm.
  split; [naive_solver|]. intros [[->|Hy] Hk]; [by left|].
  right. split; [|done]. intros Heq. rewrite Heq in Hx. rewrite (proj2 (Hm _ y)) in Hx; naive_solver.
Qed.

Lemma Insert_ok t m x :
  HRep t m → m !! getKey x = None → numBuckets t * IncreaseSizeBy < halfword →
  ∃ t', Insert getKey hash x t = Ok t' ∧ HRep t' (<[getKey x := x]> m)
    ∧ (numBuckets t' = numBuckets t
       ∨ numBuckets t' = numBuckets t * IncreaseSizeBy ∧ numBuckets t * ResizeRatio ≤ Z.of_nat (size m)).
Proof.
  intros HR Hx Hsz. unfold Insert. rewrite (HRep_IsInTable _ _ _ HR), Hx.
  rewrite bool_decide_false by (by intros []). cbn [mbind res_bind negb ASSERT].
  destruct HR as (xss&HT&Hnd&Hn&Hs&Hm). pose proof (tab_range _ _ HT) as Hr.
  destruct (Z.eqb_spec (numBuckets t) 0); [lia|]. cbn [mbind res_bind].
  assert (∃ t1 xss1, (if ResizeRatio <=? Z.quot (numItems t) (numBuckets t)
      then ReHash getKey hash t else Ok t) = Ok t1
    ∧ Tab t1 xss1 ∧ concat xss1 ≡ₚ concat xss ∧ numItems t1 = numItems t
    ∧ (numBuckets t1 = numBuckets t
       ∨ numBuckets t1 = numBuckets t * IncreaseSizeBy ∧ numBuckets t * ResizeRatio ≤ Z.of_nat (size m)))
    as (t1&xss1&->&HT1&HP1&Hn1&Hgrow).
  { destruct (Z.leb_spec ResizeRatio (Z.quot (numItems t) (numBuckets t))); [|by exists t, xss; split_and!; auto].
    destruct (ReHash_ok t xss HT Hnd Hn Hsz) as (t1&xss1&->&?&?&?&?).
    exists t1, xss1. do 4 (split; [done|]). right. split; [done|].
    rewrite Z.quot_div_nonneg in * by lia. unfold ResizeRatio in *. dnia. }
  cbn [mbind res_bind].
  destruct (append_item_ok t1 xss1 x HT1) as (t2&xss2&->&HT2&HP2&Hb2&Hn2).
  { rewrite HP1. intros Hin. by rewrite (proj2 (Hm _ x)) in Hx. }
  cbn [mbind res_bind].
  assert (HR' : HRep (mkTable (buckets t2) (numBuckets t2) (numItems t2 + 1)) (<[getKey x := x]> m)).
  { apply (HRep_added _ _ xss2); [by destruct HT2; split|done| |cbn; lia].
    exists (concat xss). rewrite HP2, HP1. done. }
  rewrite (HRep_IsInTable _ _ _ HR'), lookup_insert_eq, bool_decide_true by done.
  cbn [mbind res_bind ASSERT]. eexists. split; [done|]. split; [done|]. by cbn; rewrite Hb2.
Qed.

Lemma Insert_duplicate t m x :
  HRep t m → is_Some (m !! getKey x) → Insert getKey hash x t = Err AssertFailed.
Proof.
  intros HR Hx. unfold Insert. by rewrite (HRep_IsInTable _ _ _ HR), bool_decide_true.
Qed.

Lemma HRemove_absent t m key :
  HRep t m → m !! key = None → Remove getKey hash key t = Err AssertFailed.
Proof.
  intros HR Hk. pose proof (HRep_Find _ _ key HR) as HF. unfold Find in HF. unfold Remove.
  destruct (HashValue hash t key); cbn [mbind res_bind] in HF |- *; [|done]. by rewrite HF, Hk.
Qed.

Lemma remove_item_perm xs (x : T) : NoDup xs → x ∈ xs → xs ≡ₚ x :: ListSpec.remove_item x xs.
Proof.
  intros Hnd (xs1&xs2&->)%list_elem_of_split. apply NoDup_middle in Hnd as [Hx _].
  unfold ListSpec.remove_item. rewrite filter_app, filter_cons_False by naive_solver.
  rewrite !list_filter_all; [by rewrite <- Permutation_middle| |];
    apply Forall_forall; intros y Hy ->; set_solver.
Qed.

Lemma Remove_ok t m key x :
  HRep t m → m !! key = Some x →
  ∃ t', Remove getKey hash key t = Ok (x, t') ∧ HRep t' (delete key m)
    ∧ numBuckets t' = numBuckets t.
Proof.
  intros HR Hk. pose proof (HRep_Find _ _ key HR) as HF. unfold Find in HF. unfold Remove.
  destruct HR as (xss&HT&Hnd&Hn&Hs&Hm). pose proof (tab_range _ _ HT) as Hr.
  rewrite (HashValue_ok t key Hr) in HF |- *. cbn [mbind res_bind] in HF |- *.
  rewrite HF, Hk. cbn [mbind res_bind]. destruct (proj1 (Hm _ _) Hk) as [Hx <-].
  destruct (Tab_bucket _ _ (hv (numBuckets t) (getKey x)) HT) as (l&xs&->&Hxs&HR); [apply hv_range; lia|].
  cbn [mbind res_bind].
  destruct (in_concat_bucket _ _ _ HT Hx) as (xs'&Hxs'&Hx'). simplify_eq.
  destruct (lst_remove_ok _ _ _ HR Hx') as (l'&->&HR'). cbn [mbind res_bind].
  destruct (Tab_update t xss _ xs l' (ListSpec.remove_item x xs) (numItems t - 1) HT Hxs)
    as [-> HT']; [apply hv_range; lia|done| |].
  { intros y [_ Hy]%list_elem_of_filter. rewrite (tab_placed _ _ HT _ _ _ Hxs Hy).
    pose proof (hv_range (numBuckets t) (getKey x)). lia. }
  cbn [mbind res_bind].
  set (t' := mkTable _ _ _) in *. set (xss' := <[_ := _]> xss) in *.
  assert (HP : concat xss ≡ₚ x :: concat xss').
  { pose proof (concat_insert_perm xss _ xs (ListSpec.remove_item x xs) Hxs) as HP.
    rewrite (remove_item_perm xs x) in HP at 2; [|by eapply lst_rep_NoDup|done].
    apply (Permutation_app_inv_l (ListSpec.remove_item x xs)).
    rewrite <- HP. subst xss'. solve_Permutation. }
  assert (HR2 : HRep t' (delete (getKey x) m)).
  { rewrite HP in Hnd. apply NoDup_cons in Hnd as [Hnx Hnd]. exists xss'.
    rewrite HP in Hn, Hs. cbn in Hn, Hs. split; [done|]. split; [done|]. split; [cbn; lia|].
    split; [rewrite map_size_delete_Some by done; lia|].
    intros k y. rewrite lookup_delete_Some, Hm, HP, elem_of_cons.
    split; [naive_solver|]. intros [Hy <-]. split; [|by auto]. intros Heq.
    assert (Hyx : m !! getKey x = Some y) by (apply Hm; rewrite HP; set_solver).
    by simplify_eq. }
  rewrite (HRep_IsInTable _ _ _ HR2), lookup_delete_eq, bool_decide_false by (by intros []).
  cbn. by eexists.
Qed.

(** ** Traversals *)

(** The items of a table, each once. *)
Definition enumerates m (xs : list T) : Prop :=
  NoDup xs ∧ ∀ x, x ∈ xs ↔ m !! getKey x = Some x.

Lemma Apply_loop_ok {S} (f : T → S → res S) ls xss (b n : nat) s :
  Forall2 lst_rep ls xss → (b + n = length xss)%nat →
  for_up n (Z.of_nat b) (λ b s, l ← aget ls b; lst_apply S f l s) s = foldM f (concat (drop b xss)) s.
Proof.
  intros HF. revert b s. induction n as [|n IH]; intros b s Hlen; cbn [for_up].
  { by rewrite drop_ge by lia. }
  destruct (lookup_lt_is_Some_2 xss b) as [xs Hxs]; [lia|].
  destruct (Forall2_lookup_r _ _ _ _ _ HF Hxs) as (l&Hl&HR).
  rewrite (proj2 (aget_Ok ls (Z.of_nat b) l)) by (rewrite Nat2Z.id; split; [lia|done]).
  cbn [mbind res_bind]. rewrite (lst_apply_ok S f l xs s HR), (drop_S _ _ _ Hxs).
  cbn [concat]. rewrite foldM_app. destruct (foldM f xs s); [|done]. cbn [mbind res_bind].
  replace (Z.of_nat b + 1) with (Z.of_nat (Datatypes.S b)) by lia. apply IH. lia.
Qed.

Lemma Apply_ok t xss {S} (f : T → S → res S) s :
  Tab t xss → Apply f t s = foldM f (concat xss) s.
Proof.
  intros HT. unfold Apply. rewrite <- (tab_len _ _ HT), Nat2Z.id.
  change 0 with (Z.of_nat 0). by rewrite (Apply_loop_ok f _ xss) by (done || apply HT).
Qed.

Lemma FindNextFullBucket_ok t xss (b : Z) :
  Tab t xss → 0 ≤ b ≤ numBuckets t →
  ∃ b', FindNextFullBucket t b = Ok b' ∧ b ≤ b' ≤ numBuckets t
    ∧ concat (drop (Z.to_nat b) xss) = concat (drop (Z.to_nat b') xss)
    ∧ (b' < numBuckets t → xss !! Z.to_nat b' ≠ Some []).
Proof.
  intros HT. unfold FindNextFullBucket.
  remember (Z.to_nat (numBuckets t - b)) as k eqn:Hk. revert b Hk.
  induction k as [|k IH]; intros b Hk Hb; cbn [FindNextFullBucket_loop].
  { exists b. do 3 (split; [done || lia|]). lia. }
  destruct (Tab_bucket _ _ b HT) as (l&xs&->&Hxs&HR); [lia|]. cbn [mbind res_bind].
  rewrite (lst_isEmpty_ok _ _ HR). destruct xs as [|x xs].
  - rewrite bool_decide_true by done. cbn.
    destruct (IH (b + 1)) as (b'&->&Hb'&Hc&Hne); [lia..|].
    exists b'. do 2 (split; [done || lia|]). split; [|done].
    rewrite <- Hc, (drop_S _ _ _ Hxs), Z2Nat.inj_add, Nat.add_1_r by lia. done.
  - rewrite bool_decide_false by done. cbn. exists b. do 3 (split; [done || lia|]).
    intros _. by rewrite Hxs.
Qed.

(** [ys] is what the iterator has still to visit. *)
Definition HIter t xss (iter : HashIterator It) (ys : list T) : Prop :=
  (bucket iter = numBuckets t ∧ ys = [])
  ∨ ∃ l it z zs, 0 ≤ bucket iter < numBuckets t ∧ bucketIter iter = Some it
      ∧ aget (buckets t) (bucket iter) = Ok l ∧ it_rep l it (z :: zs)
      ∧ ys = (z :: zs) ++ concat (drop (Z.to_nat (bucket iter + 1)) xss).

Lemma open_bucket_ok t xss (b : Z) :
  Tab t xss → 0 ≤ b ≤ numBuckets t → (b < numBuckets t → xss !! Z.to_nat b ≠ Some []) →
  ∃ iter, open_bucket t b = Ok iter ∧ HIter t xss iter (concat (drop (Z.to_nat b) xss)).
Proof.
  intros HT Hb Hne. unfold open_bucket. destruct (Z.ltb_spec b (numBuckets t)).
  - destruct (Tab_bucket _ _ b HT) as (l&xs&Hl&Hxs&HR); [lia|]. rewrite Hl. cbn.
    eexists. split; [done|]. right. destruct xs as [|x xs]; [by specialize (Hne H)|].
    exists l, (it_new l), x, xs. split; [cbn; lia|]. do 2 (split; [done|]).
    split; [by apply it_new_ok|]. cbn [bucket].
    by rewrite (drop_S _ _ _ Hxs), Z2Nat.inj_add, Nat.add_1_r by lia.
  - eexists. split; [done|]. left. cbn. split; [lia|].
    pose proof (tab_len _ _ HT). by rewrite drop_ge by lia.
Qed.

Lemma new_HashIterator_ok t xss :
  Tab t xss → ∃ iter, new_HashIterator t = Ok iter ∧ HIter t xss iter (concat xss).
Proof.
  intros HT. pose proof (tab_range _ _ HT). unfold new_HashIterator.
  destruct (FindNextFullBucket_ok t xss 0 HT) as (b&->&Hb&Hc&Hne); [lia|]. cbn [mbind res_bind].
  rewrite Z2Nat.inj_0, drop_0 in Hc. rewrite Hc. by apply open_bucket_ok.
Qed.

Lemma IsDone_ok t xss iter ys : HIter t xss iter ys → IsDone t iter = bool_decide (ys = []).
Proof.
  unfold IsDone. intros [[-> ->]|(l&it&z&zs&?&_&_&_&->)].
  - by rewrite Z.eqb_refl.
  - rewrite bool_decide_false by done. apply Z.eqb_neq. lia.
Qed.

Lemma iter_step_ok t xss iter y ys :
  Tab t xss → HIter t xss iter (y :: ys) →
  Item t iter = Ok y ∧ ∃ iter', Next t iter = Ok iter' ∧ HIter t xss iter' ys.
Proof.
  intros HT Hi. pose proof (IsDone_ok _ _ _ _ Hi) as Hd.
  destruct Hi as [[_ ?]|(l&it&z&zs&Hb&Hit&Hl&Hr&Heq)]; [done|]. injection Heq as -> Heq.
  unfold Item, Next. rewrite Hd, Hit, bool_decide_false by done. cbn [negb ASSERT deref mbind res_bind].
  rewrite Hl. cbn [mbind res_bind]. destruct (it_step_ok _ _ _ _ Hr) as (->&it'&->&Hr').
  split; [done|]. cbn [mbind res_bind]. rewrite (it_done_ok _ _ _ Hr'). destruct zs as [|z' zs].
  - rewrite bool_decide_true by done.
    destruct (FindNextFullBucket_ok t xss (bucket iter + 1) HT) as (b&->&Hb'&Hc&Hne); [lia|].
    cbn [mbind res_bind]. cbn in Heq. rewrite Heq, Hc. apply open_bucket_ok; [done|lia|done].
  - rewrite bool_decide_false by done. eexists. split; [done|]. right. cbn [bucket bucketIter].
    by exists l, it', z', zs.
Qed.

(** The loop [for (; !iter.IsDone(); iter.Next()) visit iter.Item()]. *)
Fixpoint visit (fuel : nat) t (iter : HashIterator It) : res (list T) :=
  match fuel with
  | O => Err OutOfFuel
  | S fuel =>
    if IsDone t iter then Ok []
    else x ← Item t iter; iter ← Next t iter; xs ← visit fuel t iter; Ok (x :: xs)
  end.

Lemma visit_ok fuel t xss iter ys :
  Tab t xss → HIter t xss iter ys → (length ys < fuel)%nat → visit fuel t iter = Ok ys.
Proof.
  intros HT. revert iter ys. induction fuel as [|fuel IH]; intros iter ys Hi Hf; [lia|].
  cbn [visit]. rewrite (IsDone_ok _ _ _ _ Hi). destruct ys as [|y ys]; [done|].
  rewrite bool_decide_false by done.
  destruct (iter_step_ok _ _ _ _ _ HT Hi) as (->&iter'&->&Hi'). cbn [mbind res_bind].
  rewrite (IH _ _ Hi') by (cbn in Hf; lia). done.
Qed.

Lemma traversals_ok t m :
  HRep t m → ∃ xs, enumerates m xs
    ∧ (iter ← new_HashIterator t; visit (S (size m)) t iter) = Ok xs
    ∧ ∀ S (f : T → S → res S) s, Apply f t s = foldM f xs s.
Proof.
  intros (xss&HT&Hnd&Hn&Hs&Hm). exists (concat xss). split; [split; [done|]|].
  { intros x. rewrite Hm. naive_solver. }
  split; [|intros; by apply Apply_ok].
  destruct (new_HashIterator_ok _ _ HT) as (iter&->&Hi). cbn [mbind res_bind].
  apply (visit_ok _ _ xss); [done..|lia].
Qed.

(** ** Growth

    After at most [n] insertions the table has at most [4 + 4n/3] buckets, so
    the product in ReHash stays an [int] for 2^28 insertions. *)

Definition HInv t m (n : Z) : Prop :=
  HRep t m ∧ Z.of_nat (size m) ≤ n ∧ 3 * numBuckets t ≤ 12 + 4 * n.

Definition max_inserts : Z := 268435456.

Lemma HInv_Insert t m n x :
  HInv t m n → m !! getKey x = None → n < max_inserts →
  ∃ t', Insert getKey hash x t = Ok t' ∧ HInv t' (<[getKey x := x]> m) (n + 1).
Proof.
  unfold max_inserts. intros (HR&Hs&Hb) Hx Hn.
  destruct (Insert_ok t m x HR Hx) as (t'&->&HR'&Hg); [unfold_int; unfold IncreaseSizeBy; lia|].
  exists t'. split; [done|]. split; [done|]. rewrite map_size_insert_None by done.
  unfold IncreaseSizeBy, ResizeRatio in Hg. lia.
Qed.

Lemma HInv_Remove t m n key x :
  HInv t m n → m !! key = Some x →
  ∃ t', Remove getKey hash key t = Ok (x, t') ∧ HInv t' (delete key m) n.
Proof.
  intros (HR&Hs&Hb) Hk. destruct (Remove_ok t m key x HR Hk) as (t'&->&HR'&Hb').
  exists t'. split; [done|]. split; [done|]. rewrite map_size_delete_Some by done. lia.
Qed.

Lemma HInv_new : ∃ t, new_HashTable = Ok t ∧ HInv t ∅ 0.
Proof.
  destruct HRep_new as (t&->&HR&Hb). exists t. split; [done|]. split; [done|].
  rewrite map_size_empty, Hb. unfold InitialBuckets. lia.
Qed.

(** ** The self test *)

Definition of_items (p : list T) : gmap Key T := list_to_map ((λ x, (getKey x, x)) <$> p).

Lemma of_items_None p key : key ∉ getKey <$> p → of_items p !! key = None.
Proof.
  intros Hk. apply not_elem_of_list_to_map_1. rewrite <- list_fmap_compose. done.
Qed.

Lemma SelfTest_insert_ok p t m n :
  HInv t m n → NoDup (getKey <$> p) → (∀ x, x ∈ p → m !! getKey x = None) →
  n + Z.of_nat (length p) ≤ max_inserts →
  ∃ t', SelfTest_insert getKey hash p t = Ok t' ∧ HInv t' (of_items p ∪ m) (n + Z.of_nat (length p)).
Proof.
  revert t m n. induction p as [|x p IH]; intros t m n HI Hnd Hm Hn; cbn [SelfTest_insert].
  { exists t. change (of_items []) with (∅ : gmap Key T).
    rewrite (left_id_L ∅ (∪)). by rewrite Z.add_0_r. }
  cbn in Hnd. apply NoDup_cons in Hnd as [Hx Hnd].
  destruct (HInv_Insert t m n x HI) as (t1&->&HI1); [apply Hm; by left|cbn in Hn; lia|].
  cbn [mbind res_bind]. destruct HI1 as (HR1&HI1).
  rewrite (HRep_IsInTable _ _ _ HR1), lookup_insert_eq, bool_decide_true by done.
  cbn [mbind res_bind ASSERT]. rewrite (HRep_IsEmpty _ _ HR1), bool_decide_false.
  2: { intros E. by apply (insert_non_empty m (getKey x) x). }
  cbn [mbind res_bind ASSERT negb].
  destruct (IH t1 (<[getKey x := x]> m) (n + 1)) as (t2&->&HI2); [by split|done| |cbn in Hn; lia|].
  { intros y Hy. rewrite lookup_insert_ne; [apply Hm; by right|].
    intros E. apply Hx. rewrite E. by apply list_elem_of_fmap_2. }
  exists t2. split; [done|]. unfold of_items. cbn. rewrite <- insert_union_l.
  rewrite <- insert_union_r in HI2 by (by apply of_items_None).
  replace (n + Z.of_nat (S (length p))) with (n + 1 + Z.of_nat (length p)) by lia. done.
Qed.

Lemma SelfTest_remove_ok p t n :
  HInv t (of_items p) n → NoDup (getKey <$> p) →
  ∃ t', SelfTest_remove getKey hash p t = Ok t' ∧ HInv t' ∅ n.
Proof.
  revert t. induction p as [|x p IH]; intros t HI Hnd; cbn [SelfTest_remove]; [by exists t|].
  cbn in Hnd. apply NoDup_cons in Hnd as [Hx Hnd].
  destruct (HInv_Remove t _ n (getKey x) x HI) as (t1&->&HI1).
  { unfold of_items. cbn. by rewrite lookup_insert_eq. }
  cbn [mbind res_bind]. rewrite bool_decide_true by done. cbn [mbind res_bind ASSERT].
  apply IH; [|done]. unfold of_items in HI1 |- *. cbn in HI1.
  rewrite delete_insert_id in HI1; [done|]. by apply (of_items_None p).
Qed.

Lemma SelfTest_ok p t :
  HInv t ∅ 0 → NoDup (getKey <$> p) → Z.of_nat (length p) ≤ max_inserts →
  ∃ t', SelfTest getKey hash p t = Ok t' ∧ HRep t' ∅.
Proof.
  intros HI Hnd Hn. destruct HI as (HR&HI). unfold SelfTest.
  destruct HR as (xss&HT&HR'). assert (HR : HRep t ∅) by (by exists xss).
  destruct (new_HashIterator_ok t xss HT) as (iter&->&Hit). cbn [mbind res_bind].
  rewrite (HRep_SanityCheck _ _ HR), (HRep_IsEmpty _ _ HR), bool_decide_true by done.
  cbn [mbind res_bind ASSERT]. rewrite (IsDone_ok _ _ _ _ Hit), bool_decide_true.
  2: { destruct HR' as (_&_&Hs&_). rewrite map_size_empty in Hs. by apply nil_length_inv. }
  cbn [mbind res_bind ASSERT].
  destruct (SelfTest_insert_ok p t ∅ 0) as (t1&->&HI1); [by split|done|done|lia|].
  cbn [mbind res_bind]. rewrite (right_id_L ∅ (∪)) in HI1.
  destruct (SelfTest_remove_ok p t1 _ HI1 Hnd) as (t2&->&HR2&_). cbn [mbind res_bind].
  rewrite (HRep_SanityCheck _ _ HR2), (HRep_IsEmpty _ _ HR2), bool_decide_true by done.
  cbn. by exists t2.
Qed.

End SPEC.
End HashSpec.

(** * Histories of calls on a hash table of linked lists *)

Section HISTORY.
Context {Key T : Type} `{EqDecision Key} `{!Countable Key} `{EqDecision T}.
Context (getKey : T → Key) (hash : Key → Z).
Abbreviation table := (Hash.HashTable (NList.List T)).

Inductive hash_op := HInsert (x : T) | HRemove (k : Key) | HFind (k : Key) | HIsInTable (k : Key)
  | HIsEmpty | HSanityCheck.
Inductive hash_out := HDone | HItem (x : T) | HFound (o : option T) | HBool (b : bool).

Definition hash_step (o : hash_op) (t : table) : res (hash_out * table) :=
  match o with
  | HInsert x => t ← Hash.Insert getKey hash x t; Ok (HDone, t)
  | HRemove k => '(x, t) ← Hash.Remove getKey hash k t; Ok (HItem x, t)
  | HFind k => r ← Hash.Find getKey hash t k; Ok (HFound r, t)
  | HIsInTable k => b ← Hash.IsInTable getKey hash t k; Ok (HBool b, t)
  | HIsEmpty => Ok (HBool (Hash.IsEmpty t), t)
  | HSanityCheck => Hash.SanityCheck getKey hash t ;; Ok (HDone, t)
  end.

(** The abstract table: a finite map from keys to items; the ASSERTs of Insert
    and Remove are its preconditions. *)
Definition map_step (o : hash_op) (m : gmap Key T) : res (hash_out * gmap Key T) :=
  match o with
  | HInsert x => match m !! getKey x with None => Ok (HDone, <[getKey x := x]> m) | Some _ => Err AssertFailed end
  | HRemove k => match m !! k with Some x => Ok (HItem x, delete k m) | None => Err AssertFailed end
  | HFind k => Ok (HFound (m !! k), m)
  | HIsInTable k => Ok (HBool (bool_decide (is_Some (m !! k))), m)
  | HIsEmpty => Ok (HBool (bool_decide (m = ∅)), m)
  | HSanityCheck => Ok (HDone, m)
  end.

Fixpoint run_hash {S : Type} (step : hash_op → S → res (hash_out * S)) (os : list hash_op) (s : S)
  : res (list hash_out * S) :=
  match os with
  | [] => Ok ([], s)
  | o :: os => '(a, s) ← step o s; '(out, s) ← run_hash step os s; Ok (a :: out, s)
  end.

Definition hash_sim {A} (n : Z) (r1 : res (A * table)) (r2 : res (A * gmap Key T)) : Prop :=
  match r1, r2 with
  | Ok (a, t), Ok (b, m) => a = b ∧ HashSpec.HInv getKey hash t m n
  | Err e, Err e' => e = e'
  | _, _ => False
  end.

Lemma HInv_weaken (t : table) m n : HashSpec.HInv getKey hash t m n → HashSpec.HInv getKey hash t m (n + 1).
Proof. intros (?&?&?). split; [done|lia]. Qed.

Lemma hash_step_sim o t m n :
  HashSpec.HInv getKey hash t m n → n < HashSpec.max_inserts →
  hash_sim (n + 1) (hash_step o t) (map_step o m).
Proof.
  intros HI Hn. pose proof HI as (HR&_). pose proof (HInv_weaken _ _ _ HI).
  destruct o as [x|k|k|k| |]; cbn [hash_step map_step].
  - destruct (m !! getKey x) eqn:E.
    + by rewrite (HashSpec.Insert_duplicate _ _ _ _ _ HR) by (by rewrite E).
    + by destruct (HashSpec.HInv_Insert _ _ _ _ _ _ HI E Hn) as (t'&->&HI').
  - destruct (m !! k) as [x|] eqn:E.
    + destruct (HashSpec.HInv_Remove _ _ _ _ _ _ _ HI E) as (t'&->&HI'). cbn.
      split; [done|]. by apply HInv_weaken.
    + by rewrite (HashSpec.HRemove_absent _ _ _ _ _ HR).
  - by rewrite (HashSpec.HRep_Find _ _ _ _ _ HR).
  - by rewrite (HashSpec.HRep_IsInTable _ _ _ _ _ HR).
  - by rewrite (HashSpec.HRep_IsEmpty _ _ _ _ HR).
  - by rewrite (HashSpec.HRep_SanityCheck _ _ _ _ HR).
Qed.

Lemma run_hash_sim os t m n :
  HashSpec.HInv getKey hash t m n → n + Z.of_nat (length os) ≤ HashSpec.max_inserts →
  hash_sim (n + Z.of_nat (length os)) (run_hash hash_step os t) (run_hash map_step os m).
Proof.
  revert t m n. induction os as [|o os IH]; intros t m n HI Hn; cbn [run_hash].
  { by rewrite Z.add_0_r. }
  cbn in Hn. pose proof (hash_step_sim o t m n HI ltac:(lia)) as Hs.
  destruct (hash_step o t) as [[a t1]|e], (map_step o m) as [[b m1]|e']; cbn in Hs |- *; try done.
  destruct Hs as [-> HI1]. specialize (IH t1 m1 (n + 1) HI1 ltac:(lia)).
  replace (n + Z.of_nat (S (length os))) with (n + 1 + Z.of_nat (length os)) by lia.
  by destruct (run_hash hash_step os t1) as [[out t2]|e], (run_hash map_step os m1) as [[out' m2]|e'];
    cbn in IH |- *; naive_solver.
Qed.

(** C3 (refinement): every history of at most 2^28 calls of Insert, Remove,
    Find, IsInTable, IsEmpty and SanityCheck on a new hash table, with any key
    and hash function, returns exactly what a finite map from keys to items
    returns, fails with the same assertion at the same call, and leaves buckets
    that hold exactly that map; no rehash loses or duplicates an item. *)
Theorem hash_table_refines_map (os : list hash_op)
    (Hlen : Z.of_nat (length os) ≤ HashSpec.max_inserts) :
  hash_sim (Z.of_nat (length os))
    (t ← Hash.new_HashTable; run_hash hash_step os t) (run_hash map_step os ∅).
Proof.
  destruct (HashSpec.HInv_new getKey hash) as (t&->&HI). by apply (run_hash_sim os t ∅ 0).
Qed.

(** On a table that represents the map [m], HashIterator
    stepped to its end visits every item of [m] exactly once, and Apply runs
    its function on the same items in the same order. *)
Theorem hash_traversals_enumerate (t : table) (m : gmap Key T)
    (Ht : HashSpec.HRep getKey hash t m) :
  ∃ xs, HashSpec.enumerates getKey m xs
    ∧ (iter ← Hash.new_HashIterator t; HashSpec.visit (S (size m)) t iter) = Ok xs
    ∧ ∀ S (f : T → S → res S) s, Hash.Apply f t s = foldM f xs s.
Proof. by apply (HashSpec.traversals_ok getKey hash). Qed.

(** HashTable::SelfTest runs to its end on a new table for
    every vector of at most 2^28 items with distinct keys, through all the
    rehashes the insertions force, and leaves the table empty, so that the
    assertion of the destructor holds. *)
Theorem hash_selftest_passes (p : list T) (Hp : NoDup (getKey <$> p))
    (Hlen : Z.of_nat (length p) ≤ HashSpec.max_inserts) :
  ∃ t, (t ← (Hash.new_HashTable : res table); Hash.SelfTest getKey hash p t) = Ok t
    ∧ HashSpec.HRep getKey hash t ∅ ∧ Hash.destroy t = Ok tt.
Proof.
  destruct (HashSpec.HInv_new getKey hash) as (t&->&HI). cbn [mbind res_bind].
  destruct (HashSpec.SelfTest_ok getKey hash p t HI Hp Hlen) as (t'&->&HR). exists t'.
  split; [done|]. split; [done|]. unfold Hash.destroy. by rewrite (HashSpec.HRep_IsEmpty _ _ _ _ HR).
Qed.
End HISTORY.

(** lib/libtest.cc: the key function, the hash function and the vector of the
    self test.  A string is the list of its character codes; [atoi] reads the
    leading decimal digits. *)
Definition HashInt (key : Z) : Z := u32 key.

Fixpoint atoi_from (acc : Z) (str : list Z) : Z :=
  match str with
  | c :: str => if (48 <=? c) && (c <=? 57) then atoi_from (acc * 10 + (c - 48)) str else acc
  | [] => acc
  end.
Definition HashKey (str : list Z) : Z := atoi_from 0 str.

Definition hashTestVector : list (list Z) :=
  [[48]; [49]; [50]; [51]; [52]; [53]; [54]; [55]; [56]; [57];
   [49; 48]; [49; 49]; [49; 50]; [49; 51]; [49; 52]].

Definition sample_history : list (@hash_op Z (list Z)) :=
  [HInsert [51]; HInsert [53]; HFind 3; HRemove 3; HFind 3; HIsEmpty; HRemove 3].

Lemma hash_table_refines_map_witness :
  hash_sim HashKey HashInt 7
    (t ← Hash.new_HashTable; run_hash (hash_step HashKey HashInt) sample_history t)
    (run_hash (map_step HashKey) sample_history ∅).
Proof. apply (hash_table_refines_map HashKey HashInt sample_history). vm_compute. discriminate. Defined.

Definition sample_table : Hash.HashTable (NList.List (list Z)) :=
  match (t ← Hash.new_HashTable; Hash.Insert HashKey HashInt [51] t) with
  | Ok t => t
  | Err _ => Hash.mkTable [] 0 0
  end.

Lemma sample_table_rep : HashSpec.HRep HashKey HashInt sample_table {[3 := [51]]}.
Proof.
  destruct (HashSpec.HInv_new (L := NList.List (list Z)) HashKey HashInt) as (t&Ht&HI).
  destruct (HashSpec.HInv_Insert HashKey HashInt t ∅ 0 [51] HI) as (t'&Ht'&HR&_); [done..|].
  unfold sample_table. rewrite Ht. cbn [mbind res_bind]. by rewrite Ht'.
Qed.

Lemma hash_traversals_enumerate_witness :
  ∃ xs, HashSpec.enumerates HashKey {[3 := [51]]} xs
    ∧ (iter ← Hash.new_HashIterator sample_table; HashSpec.visit 2 sample_table iter) = Ok xs
    ∧ ∀ S (f : list Z → S → res S) s, Hash.Apply f sample_table s = foldM f xs s.
Proof. exact (hash_traversals_enumerate HashKey HashInt sample_table {[3 := [51]]} sample_table_rep). Defined.

Lemma hash_selftest_passes_witness :
  ∃ t, (t ← (Hash.new_HashTable : res (Hash.HashTable (NList.List (list Z))));
        Hash.SelfTest HashKey HashInt hashTestVector t) = Ok t
    ∧ HashSpec.HRep HashKey HashInt t ∅ ∧ Hash.destroy t = Ok tt.
Proof.
  apply (hash_selftest_passes HashKey HashInt hashTestVector).
  - apply (bool_decide_unpack _). vm_compute. exact I.
  - vm_compute. discriminate.
Defined.
