(* ===== verification/Machine.v ===== *)
(** machine/machine.{h,cc} and machine/translate.{h,cc}: the registers, main
    memory and address translation of the simulated workstation.

    Module Machine holds the state and the operations; Module MachineSpec the
    invariant, the little-endian lemmas and the laws of the operations.

    An operation of the simulator is a function of the monad [M]: it returns a
    value and a new state ([Ret]), or traps to the kernel ([Trap], the state
    being the one ExceptionHandler is entered with, after BadVAddrReg has been
    set and the delayed load in progress has been finished), or fails.  What
    the kernel does on a trap is not part of the machine.

    Signed arithmetic that overflows wraps around, as the compiled program
    does on its 32-bit x86 host; conversions to [int] and [char] as on that
    host.  A byte of mainMemory is kept as a number in 0..255.  The debugger
    (Debugger, DumpState, singleStep, runUntilTime) is not modelled. *)

From S2P Require Import Prelude.

Module Machine.

Definition PageSize : Z := 128.
Definition NumPhysPages : Z := 128.
Definition MemorySize : Z := NumPhysPages * PageSize.
Definition TLBSize : Z := 4.

Inductive ExceptionType :=
| NoException
| SyscallException
| PageFaultException
| ReadOnlyException
| BusErrorException
| AddressErrorException
| OverflowException
| IllegalInstrException
| NumExceptionTypes.

#[global] Instance ExceptionType_eq_dec : EqDecision ExceptionType.
Proof. solve_decision. Defined.

Definition StackReg : Z := 29.
Definition RetAddrReg : Z := 31.
Definition NumGPRegs : Z := 32.
Definition HiReg : Z := 32.
Definition LoReg : Z := 33.
Definition PCReg : Z := 34.
Definition NextPCReg : Z := 35.
Definition PrevPCReg : Z := 36.
Definition LoadReg : Z := 37.
Definition LoadValueReg : Z := 38.
Definition BadVAddrReg : Z := 39.
Definition NumTotalRegs : Z := 40.

Record TranslationEntry := mkEntry {
  virtualPage : Z; physicalPage : Z;
  valid : bool; readOnly : bool; use : bool; dirty : bool
}.

Record Machine := mkMachine {
  registers : list Z;
  mainMemory : list Z;
  tlb : option (list TranslationEntry);
  pageTable : option (list TranslationEntry);
  pageTableSize : Z
}.

Definition set_registers (r : list Z) (m : Machine) : Machine :=
  mkMachine r (mainMemory m) (tlb m) (pageTable m) (pageTableSize m).
Definition set_mainMemory (mem : list Z) (m : Machine) : Machine :=
  mkMachine (registers m) mem (tlb m) (pageTable m) (pageTableSize m).
Definition set_pageTable (pt : list TranslationEntry) (m : Machine) : Machine :=
  mkMachine (registers m) (mainMemory m) (tlb m) (Some pt) (pageTableSize m).
Definition set_tlb (t : list TranslationEntry) (m : Machine) : Machine :=
  mkMachine (registers m) (mainMemory m) (Some t) (pageTable m) (pageTableSize m).

(** ** The monad of the simulator *)

Inductive out (A : Type) :=
| Ret (a : A) (m : Machine)
| Trap (which : ExceptionType) (m : Machine)
| Fault (e : fault).
#[global] Arguments Ret {A}.
#[global] Arguments Trap {A}.
#[global] Arguments Fault {A}.

Definition M (A : Type) : Type := Machine → out A.
#[global] Instance M_ret : MRet M := λ A a m, Ret a m.
#[global] Instance M_bind : MBind M := λ A B f c m,
  match c m with
  | Ret a m' => f a m'
  | Trap e m' => Trap e m'
  | Fault e => Fault e
  end.

Definition lift {A} (r : res A) : M A := λ m,
  match r with Ok a => Ret a m | Err e => Fault e end.
Definition gets {A} (f : Machine → A) : M A := λ m, Ret (f m) m.
Definition trap {A} (which : ExceptionType) : M A := λ m, Trap which m.
Definition modify (f : Machine → Machine) : M unit := λ m, Ret tt (f m).

(** [registers[num]], read and written by the simulator itself. *)
Definition reg (num : Z) : M Z := rs ← gets registers; lift (aget rs num).
Definition wreg (num value : Z) : M unit :=
  rs ← gets registers;
  rs ← lift (aset rs num value);
  modify (set_registers rs).

(** ** machine.cc *)

(** The bytes of an integer in the order of a little-endian host. *)
Definition CheckEndian : res unit :=
  ASSERT (1 + 256 * (2 + 256 * (3 + 256 * 4)) =? 67305985).

(** The constructor, without USE_TLB; the page table size is set when an
    address space is restored, [pts] is its indeterminate first value. *)
Definition new_Machine (pts : Z) : res Machine :=
  CheckEndian ;;
  Ok (mkMachine (replicate (Z.to_nat NumTotalRegs) 0) (replicate (Z.to_nat MemorySize) 0) None None pts).

Definition ReadRegister (num : Z) : M Z :=
  lift (ASSERT ((0 <=? num) && (num <? NumTotalRegs))) ;; reg num.

Definition WriteRegister (num value : Z) : M unit :=
  lift (ASSERT ((0 <=? num) && (num <? NumTotalRegs))) ;; wreg num value.

(** mipssim.cc. *)
Definition DelayedLoad (nextReg nextValue : Z) : M unit :=
  r ← reg LoadReg;
  v ← reg LoadValueReg;
  wreg r v ;;
  wreg LoadReg nextReg ;;
  wreg LoadValueReg nextValue ;;
  wreg 0 0.

(** Control leaves the simulator at the call of ExceptionHandler. *)
Definition RaiseException {A} (which : ExceptionType) (badVAddr : Z) : M A :=
  wreg BadVAddrReg badVAddr ;;
  DelayedLoad 0 0 ;;
  trap which.

(** ** translate.cc *)

Definition WordToHost (word : Z) : Z := word.
Definition ShortToHost (shortword : Z) : Z := shortword.
Definition WordToMachine (word : Z) : Z := WordToHost word.
Definition ShortToMachine (shortword : Z) : Z := ShortToHost shortword.

(** The search of the TLB: the index of the first entry that matches. *)
Fixpoint tlb_search (k : nat) (i : Z) (t : list TranslationEntry) (vpn : Z) : res (option Z) :=
  match k with
  | O => Ok None
  | S k =>
    e ← aget t i;
    if valid e && (virtualPage e =? s32 vpn) then Ok (Some i) else tlb_search k (i + 1) t vpn
  end.

(** The entry is found: access check, use and dirty bits, physical address. *)
Definition entry_check (e : TranslationEntry) (offset size : Z) (writing : bool)
  : res (ExceptionType + Z * TranslationEntry) :=
  if readOnly e && writing then Ok (inl ReadOnlyException)
  else
    let pageFrame := u32 (physicalPage e) in
    if NumPhysPages <=? pageFrame then Ok (inl BusErrorException)
    else
      let e := mkEntry (virtualPage e) (physicalPage e) (valid e) (readOnly e) true
                       (if writing then true else dirty e) in
      let physAddr := s32 (pageFrame * PageSize + offset) in
      ASSERT ((0 <=? physAddr) && (physAddr + size <=? MemorySize)) ;;
      Ok (inr (physAddr, e)).

Definition Translate (virtAddr size : Z) (writing : bool) (m : Machine)
  : res ((ExceptionType + Z) * Machine) :=
  if ((size =? 4) && negb (Z.land virtAddr 3 =? 0)) || ((size =? 2) && negb (Z.land virtAddr 1 =? 0))
  then Ok (inl AddressErrorException, m)
  else
    ASSERT (bool_decide (tlb m = None) || bool_decide (pageTable m = None)) ;;
    ASSERT (negb (bool_decide (tlb m = None)) || negb (bool_decide (pageTable m = None))) ;;
    let vpn := u32 virtAddr / PageSize in
    let offset := u32 virtAddr mod PageSize in
    match tlb m with
    | None =>
      if pageTableSize m <=? vpn then Ok (inl AddressErrorException, m)
      else
        pt ← deref (pageTable m);
        e ← aget pt vpn;
        if negb (valid e) then Ok (inl PageFaultException, m)
        else
          r ← entry_check e offset size writing;
          match r with
          | inl exception => Ok (inl exception, m)
          | inr (physAddr, e) =>
            pt ← aset pt vpn e;
            Ok (inr physAddr, set_pageTable pt m)
          end
    | Some t =>
      found ← tlb_search (Z.to_nat TLBSize) 0 t vpn;
      match found with
      | None => Ok (inl PageFaultException, m)
      | Some i =>
        e ← aget t i;
        r ← entry_check e offset size writing;
        match r with
        | inl exception => Ok (inl exception, m)
        | inr (physAddr, e) =>
          t ← aset t i e;
          Ok (inr physAddr, set_tlb t m)
        end
      end
    end.

Definition translate (virtAddr size : Z) (writing : bool) : M Z := λ m,
  match Translate virtAddr size writing m with
  | Ok (inr physAddr, m') => Ret physAddr m'
  | Ok (inl exception, m') => RaiseException exception virtAddr m'
  | Err e => Fault e
  end.

(** An unsigned integer of [n] bytes of the host, read and stored. *)
Fixpoint load_le (n : nat) (mem : list Z) (a : Z) : res Z :=
  match n with
  | O => Ok 0
  | S n => b ← aget mem a; r ← load_le n mem (a + 1); Ok (b + 256 * r)
  end.

Fixpoint store_le (n : nat) (mem : list Z) (a v : Z) : res (list Z) :=
  match n with
  | O => Ok mem
  | S n => mem ← aset mem a (v mod 256); store_le n mem (a + 1) (v / 256)
  end.

Definition ReadMem (addr size : Z) : M Z :=
  physicalAddress ← translate addr size false;
  mem ← gets mainMemory;
  match size with
  | 1 => data ← lift (load_le 1 mem physicalAddress); mret (s8 data)
  | 2 => data ← lift (load_le 2 mem physicalAddress); mret (ShortToHost data)
  | 4 => data ← lift (load_le 4 mem physicalAddress); mret (s32 (WordToHost data))
  | _ => lift (Err AssertFailed)
  end.

Definition WriteMem (addr size value : Z) : M unit :=
  physicalAddress ← translate addr size true;
  mem ← gets mainMemory;
  mem ← (match size with
         | 1 => lift (store_le 1 mem physicalAddress (Z.land value 255))
         | 2 => lift (store_le 2 mem physicalAddress (ShortToMachine (Z.land value 65535)))
         | 4 => lift (store_le 4 mem physicalAddress (WordToMachine (u32 value)))
         | _ => lift (Err AssertFailed)
         end);
  modify (set_mainMemory mem).

End Machine.

Module MachineSpec.
Import Machine.
Implicit Types (m : Machine) (mem : list Z) (t pt : list TranslationEntry) (e : TranslationEntry).

(** ** Little-endian integers in a byte array *)

Definition bytes mem : Prop := Forall is_byte mem.

Lemma store_le_ok n mem a v :
  0 ≤ a → a + Z.of_nat n ≤ Z.of_nat (length mem) →
  ∃ mem', store_le n mem a v = Ok mem' ∧ length mem' = length mem
    ∧ (bytes mem → bytes mem')
    ∧ ∀ j, 0 ≤ j → j < a ∨ a + Z.of_nat n ≤ j → aget mem' j = aget mem j.
Proof.
  revert mem a v. induction n as [|n IH]; intros mem a v Ha Hlen; cbn [store_le].
  { by exists mem. }
  rewrite aset_in by lia. cbn [mbind res_bind].
  destruct (IH (<[Z.to_nat a := v mod 256]> mem) (a + 1) (v / 256)) as (mem'&->&Hl&Hb&Hj);
    [lia|rewrite length_insert; lia|].
  exists mem'. split; [done|]. split; [by rewrite Hl, length_insert|]. split.
  - intros H. apply Hb, Forall_insert; [done|]. apply u8_range.
  - intros j Hj0 Hout. rewrite Hj by lia. rewrite aget_insert by lia. by case_decide; [lia|].
Qed.

Lemma load_le_ok n mem a :
  0 ≤ a → a + Z.of_nat n ≤ Z.of_nat (length mem) → bytes mem →
  ∃ v, load_le n mem a = Ok v ∧ 0 ≤ v < 256 ^ Z.of_nat n.
Proof.
  intros Ha Hlen Hb. revert a Ha Hlen. induction n as [|n IH]; intros a Ha Hlen; cbn [load_le].
  { exists 0. by cbn. }
  destruct (aget_ex mem a) as [b Eb]; [lia|]. rewrite Eb. cbn [mbind res_bind].
  destruct (IH (a + 1)) as (v&->&Hv); [lia..|]. cbn. eexists. split; [done|].
  apply aget_Ok in Eb as [_ Eb]. pose proof (proj1 (Forall_lookup _ _) Hb _ _ Eb) as Hbb.
  unfold is_byte in Hbb. rewrite Nat2Z.inj_succ, Z.pow_succ_r by lia. lia.
Qed.

(** Loading depends on the bytes loaded only. *)
Lemma load_le_ext n mem mem' a :
  0 ≤ a → (∀ j, a ≤ j < a + Z.of_nat n → aget mem' j = aget mem j) →
  load_le n mem' a = load_le n mem a.
Proof.
  revert a. induction n as [|n IH]; intros a Ha Heq; cbn [load_le]; [done|].
  rewrite Heq by lia. destruct (aget mem a); cbn; [|done].
  rewrite IH by (intros; try apply Heq; lia). done.
Qed.

Lemma load_le_bytes mem : ∀ l p, 0 ≤ p → (∀ i b, l !! i = Some b → mem !! Z.to_nat (p + Z.of_nat i) = Some b) →
  load_le (length l) mem p = Ok (le_decode l).
Proof.
  induction l as [|c l IH]; intros p Hp Hl; cbn [length load_le]; [done|].
  assert (E : aget mem p = Ok c) by (apply aget_Ok; split; [lia|]; specialize (Hl 0%nat c eq_refl); by rewrite Z.add_0_r in Hl). rewrite E. cbn [mbind res_bind].
  rewrite IH; [done|lia|]. intros i b Hi. specialize (Hl (S i) b Hi). by replace (p + 1 + Z.of_nat i) with (p + Z.of_nat (S i)) by lia.
Qed.

Lemma load_store_le n mem a v mem' :
  0 ≤ a → a + Z.of_nat n ≤ Z.of_nat (length mem) → store_le n mem a v = Ok mem' →
  load_le n mem' a = Ok (v mod 256 ^ Z.of_nat n).
Proof.
  revert mem a v. induction n as [|n IH]; intros mem a v Ha Hlen Hs; cbn [store_le load_le] in *.
  { by rewrite Z.mod_1_r. }
  rewrite aset_in in Hs by lia. cbn [mbind res_bind] in Hs.
  set (mem1 := <[_ := _]> mem) in Hs.
  assert (Hlen1 : a + 1 + Z.of_nat n ≤ Z.of_nat (length mem1)) by (subst mem1; rewrite length_insert; lia).
  destruct (store_le_ok n mem1 (a + 1) (v / 256)) as (mem2&E&_&_&Hj); [lia..|].
  rewrite E in Hs. injection Hs as ->. rewrite Hj by lia. subst mem1. rewrite aget_insert by lia.
  rewrite decide_True by done. cbn [mbind res_bind]. rewrite (IH _ (a + 1) _ ltac:(lia) Hlen1 E).
  cbn [mbind res_bind]. f_equal. rewrite Nat2Z.inj_succ, Z.pow_succ_r by lia.
  symmetry. apply Z.rem_mul_r; lia.
Qed.

(** ** The invariant *)

(** A table entry up to its use and dirty bits, which the hardware sets. *)
Definition same_entry e e' : Prop :=
  virtualPage e = virtualPage e' ∧ physicalPage e = physicalPage e'
  ∧ valid e = valid e' ∧ readOnly e = readOnly e'.

Definition same_table m m' : Prop :=
  option_Forall2 (Forall2 same_entry) (tlb m) (tlb m')
  ∧ option_Forall2 (Forall2 same_entry) (pageTable m) (pageTable m')
  ∧ pageTableSize m = pageTableSize m'.

Definition table m : list TranslationEntry := default (default [] (pageTable m)) (tlb m).

(** Physical page [frame] is mapped writable. *)
Definition writable m (frame : Z) : Prop :=
  ∃ e, e ∈ table m ∧ valid e = true ∧ readOnly e = false ∧ u32 (physicalPage e) = frame.

Record Wfx m : Prop := {
  wf_nregs : length (registers m) = 40%nat;
  wf_s32 : Forall is_s32 (registers m);
  wf_load : ∃ r, registers m !! 37%nat = Some r ∧ 0 ≤ r < NumGPRegs;
  wf_memlen : Z.of_nat (length (mainMemory m)) = MemorySize;
  wf_mem : bytes (mainMemory m);
  wf_table : match tlb m, pageTable m with
             | None, Some pt => Z.of_nat (length pt) = pageTableSize m
             | Some t, None => length t = 4%nat
             | _, _ => False
             end
}.

(** Between two instructions R0 is zero. *)
Definition R0_zero m : Prop := registers m !! 0%nat = Some 0.
Definition Wf m : Prop := Wfx m ∧ R0_zero m.

(** What user code may do to the machine: set use and dirty bits, and write to
    pages that are mapped writable. *)
Record Evolves m m' : Prop := {
  ev_table : same_table m m';
  ev_mem : ∀ a, 0 ≤ a → ¬ writable m (a / PageSize) → aget (mainMemory m') a = aget (mainMemory m) a
}.

#[global] Instance same_entry_equiv : Equivalence same_entry.
Proof. split; unfold same_entry; intros ?; naive_solver congruence. Qed.

#[global] Instance same_table_equiv : Equivalence same_table.
Proof.
  split; unfold same_table.
  - intros m. split_and!; reflexivity.
  - intros m1 m2 (?&?&?). split_and!; by symmetry.
  - intros m1 m2 m3 (?&?&?) (?&?&?). split_and!; by etransitivity.
Qed.

Lemma same_table_table m m' : same_table m m' → Forall2 same_entry (table m) (table m').
Proof.
  unfold same_table, table. intros (H1&H2&_).
  destruct H1 as [t t' H1|]; [done|]. by destruct H2.
Qed.

Lemma writable_same m m' frame : same_table m m' → writable m frame → writable m' frame.
Proof.
  intros HF%same_table_table (e&He&Hv&Hr&Hp).
  apply list_elem_of_lookup in He as [i Hi].
  destruct (Forall2_lookup_l _ _ _ _ _ HF Hi) as (e'&Hi'&_&Hp'&Hv'&Hr').
  exists e'. split; [by eapply list_elem_of_lookup_2|]. split_and!; congruence.
Qed.

#[global] Instance Evolves_preorder : PreOrder Evolves.
Proof.
  split.
  - intros m. by split.
  - intros m1 m2 m3 [T1 M1] [T2 M2]. split; [by etransitivity|].
    intros a Ha Hw. rewrite M2, M1; [done..|]. intros Hw2. apply Hw.
    eapply writable_same; [symmetry; exact T1|done].
Qed.

(** ** Translation *)

(** The sizes of an access. *)
Definition access_size (size : Z) : Prop := size = 1 ∨ size = 2 ∨ size = 4.

Definition misaligned (virtAddr size : Z) : bool :=
  ((size =? 4) && negb (Z.land virtAddr 3 =? 0)) || ((size =? 2) && negb (Z.land virtAddr 1 =? 0)).

Lemma aligned_offset va size :
  access_size size → misaligned va size = false →
  0 ≤ u32 va mod PageSize ∧ u32 va mod PageSize + size ≤ PageSize.
Proof.
  unfold misaligned, PageSize. change (Z.land va 3) with (Z.land va (Z.ones 2)).
  change (Z.land va 1) with (Z.land va (Z.ones 1)).
  rewrite !Z.land_ones by lia. change (2 ^ 2) with 4. change (2 ^ 1) with 2. unfold u32, wordsize.
  intros [->|[->| ->]]; cbn.
  - intros _. dlia.
  - destruct (Z.eqb_spec (va mod 2) 0); cbn; [intros _|done]. dlia.
  - destruct (Z.eqb_spec (va mod 4) 0); cbn; [intros _|done]. dlia.
Qed.

Lemma entry_check_ok e offset size w :
  access_size size → 0 ≤ offset → offset + size ≤ PageSize →
  ∃ r, entry_check e offset size w = Ok r
    ∧ match r with
      | inl x => x ≠ NoException
      | inr (p, e') => same_entry e e' ∧ (w = true → readOnly e = false)
          ∧ p = u32 (physicalPage e) * PageSize + offset ∧ 0 ≤ u32 (physicalPage e) < NumPhysPages
      end.
Proof.
  intros Hsz H0 H1. unfold entry_check. destruct (readOnly e && w) eqn:Ero; [by eexists|].
  destruct (Z.leb_spec NumPhysPages (u32 (physicalPage e))) as [|Hp]; [by eexists|].
  pose proof (u32_range (physicalPage e)) as [Hp0 _].
  unfold PageSize, NumPhysPages, MemorySize, access_size in *.
  rewrite s32_id by (unfold_int; lia).
  rewrite (proj2 (Z.leb_le 0 _)), (proj2 (Z.leb_le _ (NumPhysPages * PageSize)))
    by (unfold NumPhysPages, PageSize; lia).
  cbn. eexists. split; [done|]. split; [done|]. split; [|done].
  intros ->. by rewrite andb_true_r in Ero.
Qed.

Lemma tlb_search_ok k i t vpn :
  0 ≤ i → i + Z.of_nat k = Z.of_nat (length t) →
  ∃ o, tlb_search k i t vpn = Ok o
    ∧ ∀ j, o = Some j → 0 ≤ j < Z.of_nat (length t) ∧ ∃ e, aget t j = Ok e ∧ valid e = true.
Proof.
  revert i. induction k as [|k IH]; intros i Hi Hlen; cbn [tlb_search]; [by eexists|].
  destruct (aget_ex t i) as [e He]; [lia|]. rewrite He. cbn [mbind res_bind].
  destruct (valid e) eqn:Hv; cbn [andb]; [|apply IH; lia].
  destruct (virtualPage e =? s32 vpn); [|apply IH; lia].
  eexists. split; [done|]. intros j [= <-]. split; [lia|by exists e].
Qed.

Lemma same_entry_insert t (i : nat) e e' :
  t !! i = Some e → same_entry e e' → Forall2 same_entry t (<[i := e']> t).
Proof.
  intros Hi He. rewrite <- (list_insert_id t i e Hi) at 1. by apply Forall2_insert.
Qed.

(** The outcome of a translation in state [m]. *)
Record translated m (va size : Z) (w : bool) (r : ExceptionType + Z) m' : Prop := {
  tr_regs : registers m' = registers m;
  tr_mem : mainMemory m' = mainMemory m;
  tr_same : same_table m m';
  tr_wf : Wfx m';
  tr_addr : match r with
            | inl x => x ≠ NoException ∧ m' = m
            | inr p => 0 ≤ p ∧ p mod PageSize + size ≤ PageSize ∧ p + size ≤ MemorySize
                       ∧ p mod PageSize = u32 va mod PageSize
                       ∧ (w = true → writable m (p / PageSize))
            end
}.

Lemma translated_exception m va size w x :
  Wfx m → x ≠ NoException → translated m va size w (inl x) m.
Proof. by split. Qed.

Lemma phys_addr_split p frame offset :
  0 ≤ frame → 0 ≤ offset < PageSize → p = frame * PageSize + offset →
  p / PageSize = frame ∧ p mod PageSize = offset.
Proof. unfold PageSize. intros. subst. dlia. Qed.

Lemma translated_entry m va size w (i : nat) e e' (f : list TranslationEntry → Machine) p :
  Wfx m → access_size size → misaligned va size = false →
  table m !! i = Some e → valid e = true → same_entry e e' →
  (w = true → readOnly e = false) →
  p = u32 (physicalPage e) * PageSize + u32 va mod PageSize →
  0 ≤ u32 (physicalPage e) < NumPhysPages →
  (f = (λ t, set_tlb t m) ∧ tlb m = Some (table m)
   ∨ f = (λ t, set_pageTable t m) ∧ tlb m = None ∧ pageTable m = Some (table m)) →
  translated m va size w (inr p) (f (<[i := e']> (table m))).
Proof.
  intros Hwf Hsz Hal Hi Hv Hse Hro Hp Hfr Hf.
  pose proof (aligned_offset va size Hsz Hal) as [Ho1 Ho2].
  assert (0 ≤ u32 va mod PageSize < PageSize) as Ho by (unfold access_size in Hsz; lia).
  destruct (phys_addr_split p _ _ (proj1 Hfr) Ho Hp) as [Hdiv Hmod].
  pose proof (same_entry_insert _ _ _ _ Hi Hse) as HF.
  destruct Hwf. destruct Hf as [[-> Ht]|(->&Ht&Hpt)].
  all: split; [done|done| | |].
  - split; [|split; [reflexivity|done]]. rewrite Ht. by constructor.
  - split; try done. cbn. rewrite Ht in *. destruct (pageTable m); [done|]. by rewrite length_insert.
  - rewrite Hmod, Hdiv. unfold MemorySize, NumPhysPages, PageSize, access_size in *.
    split_and!; try lia. intros ->. exists e. split_and!; auto. by eapply list_elem_of_lookup_2.
  - split; [reflexivity|]. split; [|done]. rewrite Hpt. by constructor.
  - split; try done. cbn. rewrite Ht, Hpt in *. by rewrite length_insert.
  - rewrite Hmod, Hdiv. unfold MemorySize, NumPhysPages, PageSize, access_size in *.
    split_and!; try lia. intros ->. exists e. split_and!; auto. by eapply list_elem_of_lookup_2.
Qed.

Lemma Translate_ok m va size w :
  Wfx m → access_size size →
  ∃ r m', Translate va size w m = Ok (r, m') ∧ translated m va size w r m'.
Proof.
  intros Hwf Hsz. unfold Translate. fold (misaligned va size).
  destruct (misaligned va size) eqn:Hal.
  { eexists _, _. split; [done|]. by apply translated_exception. }
  pose proof (aligned_offset va size Hsz Hal) as [Ho1 Ho2].
  pose proof (wf_table _ Hwf) as Htab.
  assert (0 ≤ u32 va / PageSize) by (apply Z.div_pos; [apply u32_range|unfold PageSize; lia]).
  destruct (tlb m) as [t|] eqn:Et, (pageTable m) as [pt|] eqn:Ept; try done;
    cbn [bool_decide orb negb ASSERT mbind res_bind deref].
  - destruct (tlb_search_ok (Z.to_nat TLBSize) 0 t (u32 va / PageSize)) as (o&->&Ho); [lia|by rewrite Htab|].
    cbn [mbind res_bind]. destruct o as [i|].
    2: { eexists _, _. split; [done|]. by apply translated_exception. }
    destruct (Ho i eq_refl) as (Hi&e&He&Hv). rewrite He. cbn [mbind res_bind].
    destruct (entry_check_ok e _ size w Hsz Ho1 Ho2) as (r&->&Hr). cbn [mbind res_bind].
    destruct r as [x|[p e']]; [eexists _, _; split; [done|by apply translated_exception]|].
    rewrite aset_in by done. cbn [mbind res_bind]. eexists _, _. split; [done|].
    destruct Hr as (Hse&Hro&Hp&Hfr). apply aget_Ok in He as [_ He].
    assert (Htt : table m = t) by (unfold table; by rewrite Et). rewrite <- Htt in He |- *.
    apply (translated_entry m va size w _ e e' (λ t, set_tlb t m)); auto. left. by rewrite Htt.
  - destruct (Z.leb_spec (pageTableSize m) (u32 va / PageSize)).
    { eexists _, _. split; [done|]. by apply translated_exception. }
    destruct (aget_ex pt (u32 va / PageSize)) as [e He]; [lia|]. rewrite He. cbn [mbind res_bind].
    destruct (valid e) eqn:Hv; cbn [negb].
    2: { eexists _, _. split; [done|]. by apply translated_exception. }
    destruct (entry_check_ok e _ size w Hsz Ho1 Ho2) as (r&->&Hr). cbn [mbind res_bind].
    destruct r as [x|[p e']]; [eexists _, _; split; [done|by apply translated_exception]|].
    rewrite aset_in by lia. cbn [mbind res_bind]. eexists _, _. split; [done|].
    destruct Hr as (Hse&Hro&Hp&Hfr). apply aget_Ok in He as [_ He].
    assert (Htt : table m = pt) by (unfold table; by rewrite Et, Ept). rewrite <- Htt in He |- *.
    apply (translated_entry m va size w _ e e' (λ t, set_pageTable t m)); auto. right. by rewrite Htt.
Qed.

(** A translation looks at the entries only up to their use and dirty bits,
    and an address that can be written can be read. *)
Lemma aget_same t t' i e :
  Forall2 same_entry t t' → aget t i = Ok e → ∃ e', aget t' i = Ok e' ∧ same_entry e e'.
Proof.
  intros HF [Hi He]%aget_Ok. destruct (Forall2_lookup_l _ _ _ _ _ HF He) as (e'&He'&Hs).
  exists e'. split; [by apply aget_Ok|done].
Qed.

Lemma tlb_search_same k i t t' vpn o :
  Forall2 same_entry t t' → tlb_search k i t vpn = Ok o → tlb_search k i t' vpn = Ok o.
Proof.
  intros HF. revert i. induction k as [|k IH]; intros i; cbn [tlb_search]; [done|].
  intros Hs. res_inv_step. match goal with H : aget t i = Ok _ |- _ =>
    destruct (aget_same _ _ _ _ HF H) as (e'&->&Hv&_&Hvv&_) end.
  cbn [mbind res_bind]. rewrite <- Hv, <- Hvv. case_match; [done|]. by apply IH.
Qed.

Lemma entry_check_same e e' offset size w p e1 :
  same_entry e e' → entry_check e offset size w = Ok (inr (p, e1)) →
  ∃ e2, entry_check e' offset size false = Ok (inr (p, e2)).
Proof.
  intros (Hv&Hp&Hva&Hr). unfold entry_check. rewrite <- Hp, andb_false_r.
  destruct (readOnly e && w); [done|]. case_match; [done|]. intros H1. res_inv.
  eexists. match goal with H : (_ && _) = true |- _ => rewrite H end. done.
Qed.

Lemma Translate_again va size w m p m1 m2 :
  Translate va size w m = Ok (inr p, m1) → same_table m m2 →
  ∃ m3, Translate va size false m2 = Ok (inr p, m3).
Proof.
  intros HT (Ht&Hpt&Hsz). unfold Translate in *. fold (misaligned va size) in *.
  destruct (misaligned va size); [done|]. rewrite <- Hsz.
  destruct Ht as [t t' Ht|], Hpt as [pt pt' Hpt|]; cbn in HT |- *; try done.
  - apply bind_Ok in HT as (o&Hs&HT). rewrite (tlb_search_same _ _ _ _ _ _ Ht Hs). cbn [mbind res_bind].
    destruct o as [i|]; [|done]. apply bind_Ok in HT as (e&He&HT). apply bind_Ok in HT as (r&Hr&HT).
    destruct (aget_same _ _ _ _ Ht He) as (e'&He'&Hse). rewrite He'. cbn [mbind res_bind].
    destruct r as [|[p' e1]]; [done|]. destruct (entry_check_same _ _ _ _ _ _ _ Hse Hr) as (e2&->).
    cbn [mbind res_bind]. apply bind_Ok in HT as (t1&Ha&HT). injection HT as -> _.
    apply aset_Ok in Ha as [Ha _]. rewrite aset_in by (by rewrite <- (Forall2_length _ _ _ Ht)).
    cbn. by eexists.
  - case_match; [done|]. cbn in HT |- *. apply bind_Ok in HT as (e&He&HT).
    destruct (aget_same _ _ _ _ Hpt He) as (e'&He'&Hse). rewrite He'. cbn [mbind res_bind].
    pose proof Hse as (_&_&Hva&_). rewrite <- Hva. destruct (valid e); [|done]. cbn [negb] in *.
    apply bind_Ok in HT as (r&Hr&HT). destruct r as [|[p' e1]]; [done|].
    destruct (entry_check_same _ _ _ _ _ _ _ Hse Hr) as (e2&->). cbn [mbind res_bind].
    apply bind_Ok in HT as (t1&Ha&HT). injection HT as -> _.
    apply aset_Ok in Ha as [Ha _]. rewrite aset_in by (by rewrite <- (Forall2_length _ _ _ Hpt)).
    cbn. by eexists.
Qed.

(** ** Weakest preconditions

    [post c m Q E]: run from [m], [c] does not fail; a value and state it
    returns satisfy [Q], a trap and the state it enters the kernel in [E]. *)
Definition post {A} (c : M A) m (Q : A → Machine → Prop) (E : ExceptionType → Machine → Prop) : Prop :=
  match c m with
  | Ret a m' => Q a m'
  | Trap x m' => E x m'
  | Fault _ => False
  end.

Lemma post_bind {A B} (c : M A) (f : A → M B) m Q E :
  post c m (λ a m', post (f a) m' Q E) E → post (c ≫= f) m Q E.
Proof. unfold post, mbind, M_bind. by destruct (c m). Qed.

Lemma post_ret {A} (a : A) m (Q : A → Machine → Prop) E : Q a m → post (mret a) m Q E.
Proof. done. Qed.

Lemma post_mono {A} (c : M A) m (Q Q' : A → Machine → Prop) (E E' : ExceptionType → Machine → Prop) :
  post c m Q E → (∀ a m', Q a m' → Q' a m') → (∀ x m', E x m' → E' x m') → post c m Q' E'.
Proof. unfold post. destruct (c m); naive_solver. Qed.

(** The states an instruction that started in [m0] goes through. *)
Definition Ev m0 m : Prop := Wfx m ∧ Evolves m0 m.

Lemma Ev_refl m : Wfx m → Ev m m.
Proof. by split. Qed.

Lemma post_reg m0 m (i : Z) (Q : Z → Machine → Prop) E :
  Ev m0 m → 0 ≤ i < NumTotalRegs →
  (∀ v, is_s32 v → registers m !! Z.to_nat i = Some v → Q v m) → post (reg i) m Q E.
Proof.
  intros [Hwf _] Hi HQ. unfold post, reg, gets, mbind, M_bind, lift.
  destruct (aget_ex (registers m) i) as [v Hv]; [rewrite (wf_nregs _ Hwf); unfold NumTotalRegs in Hi; lia|].
  rewrite Hv. apply aget_Ok in Hv as [_ Hv]. apply HQ; [|done].
  exact (proj1 (Forall_lookup _ _) (wf_s32 _ Hwf) _ _ Hv).
Qed.

Definition update_reg m (i v : Z) : Machine := set_registers (<[Z.to_nat i := v]> (registers m)) m.

Lemma Ev_update m0 m (i v : Z) :
  Ev m0 m → is_s32 v → (i = LoadReg → 0 ≤ v < NumGPRegs) → Ev m0 (update_reg m i v).
Proof.
  intros [Hwf He] Hv Hl. split.
  - destruct Hwf. split; cbn; try done.
    + by rewrite length_insert.
    + by apply Forall_insert.
    + destruct (decide (Z.to_nat i = 37%nat)) as [Hi|Hi].
      * exists v. rewrite Hi. split; [apply list_lookup_insert_eq; lia|].
        apply Hl. unfold LoadReg. lia.
      * by rewrite list_lookup_insert_ne.
  - destruct He. by split.
Qed.

Lemma wreg_run m (i v : Z) :
  Wfx m → 0 ≤ i < NumTotalRegs → wreg i v m = Ret tt (update_reg m i v).
Proof.
  intros Hwf Hi. unfold wreg, gets, mbind, M_bind, lift, modify.
  rewrite aset_in; [done|]. rewrite (wf_nregs _ Hwf). unfold NumTotalRegs in Hi. lia.
Qed.

Lemma post_wreg m0 m (i v : Z) (Q : unit → Machine → Prop) E :
  Ev m0 m → 0 ≤ i < NumTotalRegs → is_s32 v → (i = LoadReg → 0 ≤ v < NumGPRegs) →
  (Ev m0 (update_reg m i v) → Q tt (update_reg m i v)) → post (wreg i v) m Q E.
Proof.
  intros HE Hi Hv Hl HQ. unfold post. rewrite wreg_run by (done || apply HE).
  by apply HQ, Ev_update.
Qed.

Lemma R0_update m : Wfx m → R0_zero (update_reg m 0 0).
Proof.
  intros Hwf. apply list_lookup_insert_eq. rewrite (wf_nregs _ Hwf). lia.
Qed.

Ltac reg_num := unfold HiReg, LoReg, PCReg, NextPCReg, PrevPCReg, LoadReg, LoadValueReg,
  BadVAddrReg, NumTotalRegs, NumGPRegs in *; lia.

Lemma is_s32_0 : is_s32 0.
Proof. unfold_int. lia. Qed.

Lemma post_DelayedLoad m0 m (r v : Z) (Q : unit → Machine → Prop) E :
  Ev m0 m → 0 ≤ r < NumGPRegs → is_s32 v →
  (∀ m', Ev m0 m' → R0_zero m' → Q tt m') → post (DelayedLoad r v) m Q E.
Proof.
  intros HE Hr Hv HQ. pose proof HE as [Hwf _]. destruct (wf_load _ Hwf) as (l&Hl&Hlr).
  unfold DelayedLoad.
  eapply post_bind, post_reg; [done|reg_num|]. intros l' _ Hl'.
  change (Z.to_nat LoadReg) with 37%nat in Hl'. rewrite Hl in Hl'. injection Hl' as <-.
  eapply post_bind, post_reg; [done|reg_num|]. intros lv Hlv _.
  eapply post_bind, (post_wreg m0); [done|reg_num|done|reg_num|intros HE1].
  eapply post_bind, (post_wreg m0); [done|reg_num|unfold NumGPRegs in Hr; unfold_int; lia|done|intros HE2].
  eapply post_bind, (post_wreg m0); [done|reg_num|done|reg_num|intros HE3].
  eapply (post_wreg m0); [done|reg_num|apply is_s32_0|reg_num|intros HE4].
  apply HQ; [done|]. apply R0_update, HE3.
Qed.

Lemma post_Raise {A} m0 m x (va : Z) (Q : A → Machine → Prop) (E : ExceptionType → Machine → Prop) :
  Ev m0 m → is_s32 va → (∀ m', Ev m0 m' → R0_zero m' → E x m') →
  post (RaiseException x va) m Q E.
Proof.
  intros HE Hva HQ. unfold RaiseException.
  eapply post_bind, (post_wreg m0); [done|reg_num|done|reg_num|intros HE1].
  eapply post_bind, (post_DelayedLoad m0); [done|reg_num|apply is_s32_0|].
  intros m' HE' H0. by apply HQ.
Qed.

Lemma post_translate m0 m (va size : Z) w (Q : Z → Machine → Prop) (E : ExceptionType → Machine → Prop) :
  Ev m0 m → is_s32 va → access_size size →
  (∀ p m', Ev m0 m' → translated m va size w (inr p) m' → Q p m') →
  (∀ x m', Ev m0 m' → R0_zero m' → x ≠ NoException → E x m') →
  post (translate va size w) m Q E.
Proof.
  intros HE Hva Hsz HQ HX. unfold post, translate.
  destruct (Translate_ok m va size w (proj1 HE) Hsz) as (r&m'&->&Htr).
  destruct r as [x|p].
  - destruct (tr_addr _ _ _ _ _ _ Htr) as [Hx ->].
    apply (post_Raise (A := Z) m0 m x va Q E HE Hva). auto.
  - apply HQ; [|done]. destruct HE as [_ HE], Htr. split; [done|].
    transitivity m; [done|]. split; [done|]. intros a _ _. by rewrite tr_mem0.
Qed.

Lemma post_ReadMem m0 m (va size : Z) (Q : Z → Machine → Prop) (E : ExceptionType → Machine → Prop) :
  Ev m0 m → is_s32 va → access_size size →
  (∀ v m', Ev m0 m' → is_s32 v → registers m' = registers m → Q v m') →
  (∀ x m', Ev m0 m' → R0_zero m' → x ≠ NoException → E x m') →
  post (ReadMem va size) m Q E.
Proof.
  intros HE Hva Hsz HQ HX. unfold ReadMem.
  eapply post_bind, (post_translate m0); [done..| |done]. intros p m' HE' Htr.
  destruct (tr_addr _ _ _ _ _ _ Htr) as (Hp0&_&Hp1&_).
  pose proof (wf_memlen _ (proj1 HE')) as Hlen. pose proof (wf_mem _ (proj1 HE')) as Hb.
  pose proof (tr_regs _ _ _ _ _ _ Htr) as Hregs.
  destruct Hsz as [->|[->| ->]]; unfold post, mbind, M_bind, gets, lift, mret, M_ret.
  - destruct (load_le_ok 1 (mainMemory m') p) as (v&->&Hv); [lia..|done|].
    apply HQ; [done| |done]. pose proof (s8_range v). unfold_int. lia.
  - destruct (load_le_ok 2 (mainMemory m') p) as (v&->&Hv); [lia..|done|].
    apply HQ; [done| |done]. change (256 ^ Z.of_nat 2) with 65536 in Hv.
    unfold ShortToHost. unfold_int. lia.
  - destruct (load_le_ok 4 (mainMemory m') p) as (v&->&Hv); [lia..|done|].
    apply HQ; [done|apply s32_range|done].
Qed.

Lemma Ev_store m0 m m' (va size : Z) p mem :
  Ev m0 m' → Evolves m0 m → translated m va size true (inr p) m' →
  length mem = length (mainMemory m') → bytes mem →
  (∀ j, 0 ≤ j → j < p ∨ p + size ≤ j → aget mem j = aget (mainMemory m') j) →
  Ev m0 (set_mainMemory mem m').
Proof.
  intros [Hwf He] Hm Htr Hlen Hb Hj. split.
  - destruct Hwf. split; try done. cbn. lia.
  - transitivity m'; [done|]. split; [done|]. intros a Ha Hw. cbn. apply Hj; [done|].
    destruct (tr_addr _ _ _ _ _ _ Htr) as (Hp0&Hin&_&_&Hwr).
    destruct (Z_lt_le_dec a p) as [|Hge]; [by left|].
    destruct (Z_lt_le_dec a (p + size)) as [Hlt|]; [|by right]. exfalso. apply Hw.
    replace (a / PageSize) with (p / PageSize) by (unfold PageSize in *; dlia).
    eapply writable_same; [exact (tr_same _ _ _ _ _ _ Htr)|by apply Hwr].
Qed.

(** The store of WriteMem at the translated address. *)
Definition stored (size value p : Z) mem mem' : Prop :=
  match size with
  | 1 => store_le 1 mem p (Z.land value 255) = Ok mem'
  | 2 => store_le 2 mem p (Z.land value 65535) = Ok mem'
  | _ => store_le 4 mem p (u32 value) = Ok mem'
  end.

Lemma stored_ok (size value p : Z) mem :
  access_size size → 0 ≤ p → p + size ≤ Z.of_nat (length mem) →
  ∃ mem', stored size value p mem mem' ∧ length mem' = length mem ∧ (bytes mem → bytes mem')
    ∧ ∀ j, 0 ≤ j → j < p ∨ p + size ≤ j → aget mem' j = aget mem j.
Proof.
  intros [->|[->| ->]] Hp Hlen; cbn [stored].
  - apply (store_le_ok 1); lia.
  - apply (store_le_ok 2); lia.
  - apply (store_le_ok 4); lia.
Qed.

Lemma post_WriteMem' m0 m (va size value : Z) (Q : unit → Machine → Prop) (E : ExceptionType → Machine → Prop) :
  Ev m0 m → is_s32 va → access_size size →
  (∀ p m1 mem, Ev m0 (set_mainMemory mem m1) → translated m va size true (inr p) m1 →
     stored size value p (mainMemory m) mem →
     (∀ j, 0 ≤ j → j < p ∨ p + size ≤ j → aget mem j = aget (mainMemory m) j) →
     Q tt (set_mainMemory mem m1)) →
  (∀ x m', Ev m0 m' → R0_zero m' → x ≠ NoException → E x m') →
  post (WriteMem va size value) m Q E.
Proof.
  intros HE Hva Hsz HQ HX. unfold WriteMem.
  eapply post_bind, (post_translate m0); [done..| |done]. intros p m1 HE1 Htr.
  destruct (tr_addr _ _ _ _ _ _ Htr) as (Hp0&_&Hp1&_).
  pose proof (wf_memlen _ (proj1 HE1)) as Hlen. pose proof (wf_mem _ (proj1 HE1)) as Hb.
  destruct (stored_ok size value p (mainMemory m1)) as (mem&Hst&Hl&Hby&Hj); [done..|lia|].
  assert (HE2 : Ev m0 (set_mainMemory mem m1)).
  { eapply Ev_store; eauto. apply HE. }
  rewrite (tr_mem _ _ _ _ _ _ Htr) in Hst, Hj.
  specialize (HQ p m1 mem HE2 Htr Hst Hj).
  unfold post, mbind, M_bind, gets, lift, modify. rewrite (tr_mem _ _ _ _ _ _ Htr).
  destruct Hsz as [->|[->| ->]]; cbn [stored] in Hst; unfold ShortToMachine, ShortToHost, WordToMachine, WordToHost;
    by rewrite Hst.
Qed.

Lemma post_WriteMem m0 m (va size value : Z) (Q : unit → Machine → Prop) (E : ExceptionType → Machine → Prop) :
  Ev m0 m → is_s32 va → access_size size →
  (∀ m', Ev m0 m' → registers m' = registers m → Q tt m') →
  (∀ x m', Ev m0 m' → R0_zero m' → x ≠ NoException → E x m') →
  post (WriteMem va size value) m Q E.
Proof.
  intros HE Hva Hsz HQ HX. apply (post_WriteMem' m0); [done..| |done].
  intros p m1 mem HE1 Htr _ _. apply HQ; [done|]. exact (tr_regs _ _ _ _ _ _ Htr).
Qed.

(** What a read of [size] bytes returns of a value written with that size. *)
Definition truncate (size value : Z) : Z :=
  match size with 1 => s8 value | 2 => value mod 65536 | _ => s32 value end.

Lemma load_stored (size value p : Z) mem mem' :
  access_size size → 0 ≤ p → p + size ≤ Z.of_nat (length mem) → stored size value p mem mem' →
  match size with
  | 1 => ∃ v, load_le 1 mem' p = Ok v ∧ s8 v = truncate size value
  | 2 => load_le 2 mem' p = Ok (truncate size value)
  | _ => ∃ v, load_le 4 mem' p = Ok v ∧ s32 v = truncate size value
  end.
Proof.
  intros [->|[->| ->]] Hp Hlen Hst; cbn [stored truncate] in Hst |- *.
  - eexists. split; [apply (load_store_le 1 _ _ _ _ Hp) in Hst; [done|lia]|].
    change 255 with (Z.ones 8). rewrite Z.land_ones by lia. change (256 ^ Z.of_nat 1) with 256.
    change (2 ^ 8) with 256. unfold s8. by rewrite !Z.mod_mod by lia.
  - apply (load_store_le 2 _ _ _ _ Hp) in Hst; [|lia]. rewrite Hst.
    change 65535 with (Z.ones 16). rewrite Z.land_ones by lia. change (256 ^ Z.of_nat 2) with 65536.
    change (2 ^ 16) with 65536. by rewrite Z.mod_mod by lia.
  - eexists. split; [apply (load_store_le 4 _ _ _ _ Hp) in Hst; [done|lia]|].
    change (256 ^ Z.of_nat 4) with wordsize. fold (u32 (u32 value)).
    by rewrite !s32_u32.
Qed.

Lemma Raise_not_Ret {A} x (va : Z) m (a : A) m' : RaiseException x va m ≠ Ret a m'.
Proof.
  unfold RaiseException, mbind, M_bind. destruct (wreg BadVAddrReg va m) as [? m1| |]; try done.
  by destruct (DelayedLoad 0 0 m1).
Qed.

Lemma WriteMem_inv m (va size value : Z) m' :
  Wfx m → access_size size → WriteMem va size value m = Ret tt m' →
  ∃ p m1 mem, Translate va size true m = Ok (inr p, m1) ∧ m' = set_mainMemory mem m1
    ∧ translated m va size true (inr p) m1 ∧ stored size value p (mainMemory m) mem
    ∧ Wfx (set_mainMemory mem m1)
    ∧ ∀ j, 0 ≤ j → j < p ∨ p + size ≤ j → aget mem j = aget (mainMemory m) j.
Proof.
  intros Hwf Hsz Hw. destruct (Translate_ok m va size true Hwf Hsz) as (r&m1&HT&Htr).
  unfold WriteMem, translate, mbind, M_bind, gets, lift, modify in Hw. rewrite HT in Hw.
  destruct r as [x|p].
  { destruct (RaiseException x va m1) eqn:E; try done. by apply Raise_not_Ret in E. }
  destruct (tr_addr _ _ _ _ _ _ Htr) as (Hp0&_&Hp1&_). pose proof (wf_memlen _ Hwf) as Hlen.
  rewrite (tr_mem _ _ _ _ _ _ Htr) in Hw.
  destruct (stored_ok size value p (mainMemory m)) as (mem&Hst&Hl&Hby&Hj); [done..|lia|].
  exists p, m1, mem. split; [done|]. split.
  { destruct Hsz as [->|[->| ->]]; cbn [stored] in Hst;
      unfold ShortToMachine, ShortToHost, WordToMachine, WordToHost in Hw;
      rewrite Hst in Hw; by injection Hw. }
  split; [done|]. split; [done|]. split; [|done].
  destruct (tr_wf _ _ _ _ _ _ Htr). split; try done; cbn; [lia|]. apply Hby, Hwf.
Qed.

Lemma ReadMem_run m (va size p value : Z) m1 mem :
  Wfx m → access_size size → Translate va size false m = Ok (inr p, m1) →
  0 ≤ p → p + size ≤ Z.of_nat (length mem) → stored size value p mem (mainMemory m) →
  ∃ m', ReadMem va size m = Ret (truncate size value) m'.
Proof.
  intros Hwf Hsz HT Hp0 Hp1 Hst. exists m1. pose proof (Translate_ok m va size false Hwf Hsz) as (r&m2&E&Htr).
  rewrite HT in E. injection E as <- <-.
  unfold ReadMem, translate, mbind, M_bind, gets, lift, mret, M_ret. rewrite HT, (tr_mem _ _ _ _ _ _ Htr).
  pose proof (load_stored size value p _ _ Hsz Hp0 Hp1 Hst) as Hload.
  destruct Hsz as [->|[->| ->]]; cbn in Hload |- *; unfold ShortToHost, WordToHost.
  - destruct Hload as (v&->&Hv). by rewrite Hv.
  - by rewrite Hload.
  - destruct Hload as (v&->&Hv). by rewrite Hv.
Qed.

End MachineSpec.

Import Machine MachineSpec.

(** C4 (functional): with a linear page table, Translate never fails, and its
    outcome is determined case by case: a physical address exactly for an
    aligned access to a valid page that permits it and has a frame inside main
    memory, and then only the use and dirty bits of that one entry change;
    otherwise the exception that names the reason, and no state change. *)
Theorem translate_page_table_exact (m : Machine) (pt : list TranslationEntry) (va size : Z) (w : bool)
    (Hwf : Wfx m) (Ht : tlb m = None) (Hpt : pageTable m = Some pt) (Hsz : access_size size) :
  let vpn := Z.to_nat (u32 va / PageSize) in
  ∃ r m', Translate va size w m = Ok (r, m') ∧
    match r with
    | inr p => misaligned va size = false ∧ ∃ e, pt !! vpn = Some e ∧ valid e = true
        ∧ (w = true → readOnly e = false) ∧ u32 (physicalPage e) < NumPhysPages
        ∧ p = u32 (physicalPage e) * PageSize + u32 va mod PageSize
        ∧ m' = set_pageTable (<[vpn := mkEntry (virtualPage e) (physicalPage e) true (readOnly e) true (w || dirty e)]> pt) m
    | inl x => m' = m ∧
        match x with
        | AddressErrorException => misaligned va size = true ∨ (length pt ≤ vpn)%nat
        | PageFaultException => ∃ e, pt !! vpn = Some e ∧ valid e = false
        | ReadOnlyException => ∃ e, pt !! vpn = Some e ∧ valid e = true ∧ readOnly e = true ∧ w = true
        | BusErrorException => ∃ e, pt !! vpn = Some e ∧ valid e = true ∧ NumPhysPages ≤ u32 (physicalPage e)
        | _ => False
        end
    end.
Proof.
  intros vpn. unfold Translate. fold (misaligned va size). destruct (misaligned va size) eqn:Hal.
  { eexists _, _. split; [done|]. split; [done|by left]. }
  pose proof (aligned_offset va size Hsz Hal) as [Ho1 Ho2].
  pose proof (wf_table _ Hwf) as Htab. rewrite Ht, Hpt in Htab |- *. cbn.
  assert (0 ≤ u32 va / PageSize) by (apply Z.div_pos; [apply u32_range|unfold PageSize; lia]).
  destruct (Z.leb_spec (pageTableSize m) (u32 va / PageSize)).
  { eexists _, _. split; [done|]. split; [done|]. right. lia. }
  destruct (aget_ex pt (u32 va / PageSize)) as [e He]; [lia|]. rewrite He. cbn [mbind res_bind].
  apply aget_Ok in He as [_ He]. destruct (valid e) eqn:Hv; cbn [negb].
  2: { eexists _, _. split; [done|]. cbn. eauto. }
  destruct (entry_check_ok e _ size w Hsz Ho1 Ho2) as (r&Hr&Hok). rewrite Hr. unfold entry_check in Hr.
  destruct (readOnly e && w) eqn:Hro.
  { injection Hr as <-. apply andb_true_iff in Hro as [??]. eexists _, _. split; [done|]. cbn. eauto 6. }
  destruct (Z.leb_spec NumPhysPages (u32 (physicalPage e))).
  { injection Hr as <-. eexists _, _. split; [done|]. cbn. eauto 6. }
  res_inv. cbn [mbind res_bind]. destruct Hok as (_&Hw&Hp&_). rewrite aset_in by lia.
  cbn [mbind res_bind]. eexists _, _. split; [done|]. split; [done|]. exists e.
  rewrite Hv. by destruct w.
Qed.

(** After WriteMem has written [value] with 1, 2 or 4 bytes at a
    virtual address, ReadMem of the same size at that address succeeds and
    returns the value truncated to that size (sign-extended for one byte); the
    registers and every byte of main memory outside the written ones are
    unchanged. *)
Theorem write_read_roundtrip (m m' : Machine) (addr size value : Z)
    (Hwf : Wfx m) (Hsz : access_size size) (Hw : WriteMem addr size value m = Ret tt m') :
  (∃ m'', ReadMem addr size m' = Ret (truncate size value) m'')
  ∧ registers m' = registers m
  ∧ ∃ p, 0 ≤ p ∧ p + size ≤ MemorySize
      ∧ ∀ j, 0 ≤ j → j < p ∨ p + size ≤ j → aget (mainMemory m') j = aget (mainMemory m) j.
Proof.
  destruct (WriteMem_inv m addr size value m' Hwf Hsz Hw) as (p&m1&mem&HT&->&Htr&Hst&Hwf'&Hj).
  destruct (tr_addr _ _ _ _ _ _ Htr) as (Hp0&_&Hp1&_). pose proof (wf_memlen _ Hwf) as Hlen.
  split; [|split; [exact (tr_regs _ _ _ _ _ _ Htr)|by exists p]].
  destruct (Translate_again addr size true m p m1 (set_mainMemory mem m1) HT) as (m3&HT3).
  { exact (tr_same _ _ _ _ _ _ Htr). }
  apply (ReadMem_run _ _ _ p _ m3 (mainMemory m)); [done..|lia|done].
Qed.

(** On a well-formed machine every access of 1, 2 or 4 bytes at any
    address returns or traps to the kernel, never fails; the machine stays well
    formed, a trap reports an exception with R0 zero and no load pending beyond
    the finished one, the page table changes in use and dirty bits only, and no
    byte of main memory changes outside pages mapped valid and writable. *)
Theorem memory_access_safe (m : Machine) (addr size value : Z)
    (Hwf : Wfx m) (Haddr : is_s32 addr) (Hsz : access_size size) :
  post (ReadMem addr size) m
    (λ v m', Wfx m' ∧ Evolves m m' ∧ is_s32 v ∧ registers m' = registers m)
    (λ x m', Wf m' ∧ Evolves m m' ∧ x ≠ NoException)
  ∧ post (WriteMem addr size value) m
    (λ _ m', Wfx m' ∧ Evolves m m' ∧ registers m' = registers m)
    (λ x m', Wf m' ∧ Evolves m m' ∧ x ≠ NoException).
Proof.
  split.
  - apply (post_ReadMem m); [by apply Ev_refl|done|done| |]; unfold Ev, Wf; naive_solver.
  - apply (post_WriteMem m); [by apply Ev_refl|done|done| |]; unfold Ev, Wf; naive_solver.
Qed.

(** A machine with one writable page, virtual page 0 in frame 1, for the
    witnesses. *)
Definition sample_machine : Machine :=
  mkMachine (replicate 40 0) (replicate (Z.to_nat MemorySize) 0) None (Some [mkEntry 0 1 true false false false]) 1.

Lemma sample_machine_Wfx : Wfx sample_machine.
Proof.
  split; try done.
  - apply Forall_replicate, is_s32_0.
  - exists 0. split; [done|reg_num].
  - apply Forall_replicate. unfold_int. lia.
Qed.

Lemma translate_page_table_exact_witness :
  ∃ r m', Translate 8 4 true sample_machine = Ok (r, m') ∧ r = inr 136.
Proof.
  destruct (translate_page_table_exact sample_machine [mkEntry 0 1 true false false false] 8 4 true
    sample_machine_Wfx eq_refl eq_refl (or_intror (or_intror eq_refl))) as (r&m'&E&_).
  exists r, m'. split; [exact E|]. revert E. vm_compute. intros [= <- _]. reflexivity.
Defined.

Lemma write_read_roundtrip_witness :
  ∃ m', WriteMem 8 2 (-3) sample_machine = Ret tt m' ∧ ∃ m'', ReadMem 8 2 m' = Ret 65533 m''.
Proof.
  destruct (WriteMem 8 2 (-3) sample_machine) as [[] m'|x m'|e] eqn:E; [|exfalso; revert E; vm_compute; discriminate..].
  exists m'. split; [reflexivity|].
  exact (proj1 (write_read_roundtrip sample_machine m' 8 2 (-3) sample_machine_Wfx
    (or_intror (or_introl eq_refl)) E)).
Defined.

Lemma memory_access_safe_witness :
  post (WriteMem 200 1 7) sample_machine
    (λ _ m', Wfx m' ∧ Evolves sample_machine m' ∧ registers m' = registers sample_machine)
    (λ x m', Wf m' ∧ Evolves sample_machine m' ∧ x ≠ NoException).
Proof.
  apply (memory_access_safe sample_machine 200 1 7 sample_machine_Wfx).
  - vm_compute; split; [discriminate|reflexivity].
  - left. reflexivity.
Defined.
