(* ===== verification/Mips.v ===== *)
(** machine/mipssim.{h,cc}: the simulated MIPS processor.

    Module Mips holds the opcode tables, Instruction::Decode, Mult and
    Machine::OneInstruction; Module MipsSpec the lemmas on decoding,
    multiplication and the execution of one instruction.

    The switch of OneInstruction is [exec_1] (its cases up to OP_LWR) followed
    by [exec_2] (the cases from OP_MFHI on); a case that breaks returns the
    pending load and the program counter to install, a case that returns
    early is a trap.  The numeric opcodes are constructors of [opcode].  The
    code is the one compiled with SIM_FIX. *)

From S2P Require Import Prelude Machine.
Import Machine.

Module Mips.

Inductive opcode :=
| OP_ADD | OP_ADDI | OP_ADDIU | OP_ADDU | OP_AND | OP_ANDI | OP_BEQ | OP_BGEZ | OP_BGEZAL | OP_BGTZ
| OP_BLEZ | OP_BLTZ | OP_BLTZAL | OP_BNE | OP_DIV | OP_DIVU | OP_J | OP_JAL | OP_JALR | OP_JR
| OP_LB | OP_LBU | OP_LH | OP_LHU | OP_LUI | OP_LW | OP_LWL | OP_LWR | OP_MFHI | OP_MFLO
| OP_MTHI | OP_MTLO | OP_MULT | OP_MULTU | OP_NOR | OP_OR | OP_ORI | OP_RFE | OP_SB | OP_SH
| OP_SLL | OP_SLLV | OP_SLT | OP_SLTI | OP_SLTIU | OP_SLTU | OP_SRA | OP_SRAV | OP_SRL | OP_SRLV
| OP_SUB | OP_SUBU | OP_SW | OP_SWL | OP_SWR | OP_XOR | OP_XORI | OP_SYSCALL | OP_UNIMP | OP_RES
| SPECIAL | BCOND.

Inductive fmt := IFMT | JFMT | RFMT.

#[global] Instance opcode_eq_dec : EqDecision opcode.
Proof. solve_decision. Defined.
#[global] Instance fmt_eq_dec : EqDecision fmt.
Proof. solve_decision. Defined.

Definition IndexToAddr (x : Z) : Z := s32 (Z.shiftl x 2).
Definition SIGN_BIT : Z := 2147483648.
Definition R31 : Z := 31.

Definition opTable : list (opcode * fmt) := [
  (SPECIAL, RFMT); (BCOND, IFMT); (OP_J, JFMT); (OP_JAL, JFMT);
  (OP_BEQ, IFMT); (OP_BNE, IFMT); (OP_BLEZ, IFMT); (OP_BGTZ, IFMT);
  (OP_ADDI, IFMT); (OP_ADDIU, IFMT); (OP_SLTI, IFMT); (OP_SLTIU, IFMT);
  (OP_ANDI, IFMT); (OP_ORI, IFMT); (OP_XORI, IFMT); (OP_LUI, IFMT);
  (OP_UNIMP, IFMT); (OP_UNIMP, IFMT); (OP_UNIMP, IFMT); (OP_UNIMP, IFMT);
  (OP_RES, IFMT); (OP_RES, IFMT); (OP_RES, IFMT); (OP_RES, IFMT);
  (OP_RES, IFMT); (OP_RES, IFMT); (OP_RES, IFMT); (OP_RES, IFMT);
  (OP_RES, IFMT); (OP_RES, IFMT); (OP_RES, IFMT); (OP_RES, IFMT);
  (OP_LB, IFMT); (OP_LH, IFMT); (OP_LWL, IFMT); (OP_LW, IFMT);
  (OP_LBU, IFMT); (OP_LHU, IFMT); (OP_LWR, IFMT); (OP_RES, IFMT);
  (OP_SB, IFMT); (OP_SH, IFMT); (OP_SWL, IFMT); (OP_SW, IFMT);
  (OP_RES, IFMT); (OP_RES, IFMT); (OP_SWR, IFMT); (OP_RES, IFMT);
  (OP_UNIMP, IFMT); (OP_UNIMP, IFMT); (OP_UNIMP, IFMT); (OP_UNIMP, IFMT);
  (OP_RES, IFMT); (OP_RES, IFMT); (OP_RES, IFMT); (OP_RES, IFMT);
  (OP_UNIMP, IFMT); (OP_UNIMP, IFMT); (OP_UNIMP, IFMT); (OP_UNIMP, IFMT);
  (OP_RES, IFMT); (OP_RES, IFMT); (OP_RES, IFMT); (OP_RES, IFMT)].

Definition specialTable : list opcode := [
  OP_SLL; OP_RES; OP_SRL; OP_SRA; OP_SLLV; OP_RES; OP_SRLV; OP_SRAV;
  OP_JR; OP_JALR; OP_RES; OP_RES; OP_SYSCALL; OP_UNIMP; OP_RES; OP_RES;
  OP_MFHI; OP_MTHI; OP_MFLO; OP_MTLO; OP_RES; OP_RES; OP_RES; OP_RES;
  OP_MULT; OP_MULTU; OP_DIV; OP_DIVU; OP_RES; OP_RES; OP_RES; OP_RES;
  OP_ADD; OP_ADDU; OP_SUB; OP_SUBU; OP_AND; OP_OR; OP_XOR; OP_NOR;
  OP_RES; OP_RES; OP_SLT; OP_SLTU; OP_RES; OP_RES; OP_RES; OP_RES;
  OP_RES; OP_RES; OP_RES; OP_RES; OP_RES; OP_RES; OP_RES; OP_RES;
  OP_RES; OP_RES; OP_RES; OP_RES; OP_RES; OP_RES; OP_RES; OP_RES].

Record Instruction := mkInstruction {
  value : Z; opCode : opcode; rs : Z; rt : Z; rd : Z; extra : Z
}.

(** Bit tests of C: [x & mask] as a condition. *)
Definition has (x mask : Z) : bool := negb (Z.land x mask =? 0).

(** The register and immediate fields of the instruction word. *)
Definition field (value shift mask : Z) : Z := Z.land (Z.shiftr value shift) mask.

Definition decode_extra (value : Z) (format : fmt) : Z :=
  match format with
  | IFMT =>
    let e := Z.land value 65535 in
    if has e 32768 then s32 (Z.lor e 4294901760) else e
  | RFMT => field value 6 31
  | JFMT => Z.land value 67108863
  end.

Definition decode_bcond (value : Z) : opcode :=
  let i := Z.land value 2031616 in
  if i =? 0 then OP_BLTZ
  else if i =? 65536 then OP_BGEZ
  else if i =? 1048576 then OP_BLTZAL
  else if i =? 1114112 then OP_BGEZAL
  else OP_UNIMP.

Definition Decode (value : Z) : res Instruction :=
  '(op, format) ← aget opTable (field value 26 63);
  op ← (match op with
        | SPECIAL => aget specialTable (Z.land value 63)
        | BCOND => Ok (decode_bcond value)
        | _ => Ok op
        end);
  Ok (mkInstruction value op (field value 21 31) (field value 16 31) (field value 11 31)
        (decode_extra value format)).

(** ** Mult *)

Record mult_state := mkMult { m_a : Z; bLo : Z; bHi : Z; lo : Z; hi : Z }.

(** One iteration of the loop; [inl] when it breaks. *)
Definition Mult_step (s : mult_state) : mult_state + mult_state :=
  let '(mkMult a bLo bHi lo hi) := s in
  let shift '(lo, hi) :=
    inr (mkMult (Z.shiftr a 1) (u32 (Z.shiftl bLo 1))
           (Z.lor (u32 (Z.shiftl bHi 1)) (if has bLo SIGN_BIT then 1 else 0)) lo hi) in
  if has a 1 then
    let lo := u32 (lo + bLo) in
    let hi := if lo <? bLo then u32 (hi + 1) else hi in
    let hi := u32 (hi + bHi) in
    if Z.land a 4294967294 =? 0 then inl (mkMult a bLo bHi lo hi) else shift (lo, hi)
  else shift (lo, hi).

Fixpoint Mult_loop (k : nat) (s : mult_state) : mult_state :=
  match k with
  | O => s
  | S k => match Mult_step s with inl s => s | inr s => Mult_loop k s end
  end.

(** The pair (hi, lo). *)
Definition Mult (a b : Z) (signedArith : bool) : Z * Z :=
  if (a =? 0) || (b =? 0) then (0, 0)
  else
    let '(negative, a, b) :=
      if signedArith then
        let '(negative, a) := if a <? 0 then (true, s32 (- a)) else (false, a) in
        let '(negative, b) := if b <? 0 then (negb negative, s32 (- b)) else (negative, b) in
        (negative, a, b)
      else (false, a, b) in
    let s := Mult_loop 32 (mkMult a (u32 b) 0 0 0) in
    let '(hi, lo) :=
      if negative then
        let hi := u32 (Z.lnot (hi s)) in
        let lo := u32 (u32 (Z.lnot (lo s)) + 1) in
        (if lo =? 0 then u32 (hi + 1) else hi, lo)
      else (hi s, lo s) in
    (s32 hi, s32 lo).

(** ** OneInstruction *)

(** What a case of the switch leaves: nextLoadReg, nextLoadValue, pcAfter. *)
Record effect := mkEffect { nextLoadReg : Z; nextLoadValue : Z; pcAfter : Z }.

Section EXEC.
Context (i : Instruction) (pc : Z).     (* the instruction and pcAfter on entry *)

Definition done : M effect := mret (mkEffect 0 0 pc).
Definition jump (pcAfter : Z) : M effect := mret (mkEffect 0 0 pcAfter).
Definition load (r v : Z) : M effect := mret (mkEffect r v pc).

Definition branch (taken : bool) : M effect :=
  if taken then n ← reg NextPCReg; jump (s32 (n + IndexToAddr (extra i))) else done.

Definition link (r : Z) : M unit := n ← reg NextPCReg; wreg r (s32 (n + 4)).

(** [tmp = registers[instr->rs] + instr->extra]. *)
Definition address : M Z := a ← reg (rs i); mret (s32 (a + extra i)).

Definition op_ADD : M effect :=
  a ← reg (rs i); b ← reg (rt i);
  let sum := s32 (a + b) in
  if negb (has (Z.lxor a b) SIGN_BIT) && has (Z.lxor a sum) SIGN_BIT then RaiseException OverflowException 0
  else wreg (rd i) sum ;; done.

Definition op_ADDI : M effect :=
  a ← reg (rs i);
  let sum := s32 (a + extra i) in
  if negb (has (Z.lxor a (extra i)) SIGN_BIT) && has (Z.lxor (extra i) sum) SIGN_BIT
  then RaiseException OverflowException 0
  else wreg (rt i) sum ;; done.

(** [INT_MIN / -1] raises SIGFPE on the host. *)
Definition op_DIV : M effect :=
  b ← reg (rt i);
  if b =? 0 then wreg LoReg 0 ;; wreg HiReg 0 ;; done
  else
    a ← reg (rs i);
    (if (a =? - halfword) && (b =? -1) then lift (Err BadAccess) else mret tt) ;;
    wreg LoReg (Z.quot a b) ;; wreg HiReg (Z.rem a b) ;; done.

Definition op_DIVU : M effect :=
  a ← reg (rs i); b ← reg (rt i);
  let '(a, b) := (u32 a, u32 b) in
  if b =? 0 then wreg LoReg 0 ;; wreg HiReg 0 ;; done
  else wreg LoReg (s32 (a / b)) ;; wreg HiReg (s32 (a mod b)) ;; done.

Definition op_LB (unsigned : bool) : M effect :=
  tmp ← address;
  v ← ReadMem tmp 1;
  load (rt i) (if has v 128 && negb unsigned then s32 (Z.lor v 4294967040) else Z.land v 255).

Definition op_LH (unsigned : bool) : M effect :=
  tmp ← address;
  if has tmp 1 then RaiseException AddressErrorException tmp
  else
    v ← ReadMem tmp 2;
    load (rt i) (if has v 32768 && negb unsigned then s32 (Z.lor v 4294901760) else Z.land v 65535).

Definition op_LW : M effect :=
  tmp ← address;
  if has tmp 3 then RaiseException AddressErrorException tmp
  else v ← ReadMem tmp 4; load (rt i) v.

(** The value of register rt, a load of it that is still pending included. *)
Definition pending_rt : M Z :=
  l ← reg LoadReg;
  if l =? rt i then reg LoadValueReg else reg (rt i).

Definition merge_LWL (byte old v : Z) : Z :=
  match 3 - byte with
  | 0 => v
  | 1 => s32 (Z.lor (Z.land old 255) (s32 (Z.shiftl v 8)))
  | 2 => s32 (Z.lor (Z.land old 65535) (s32 (Z.shiftl v 16)))
  | 3 => s32 (Z.lor (Z.land old 16777215) (s32 (Z.shiftl v 24)))
  | _ => old
  end.

Definition op_LWL : M effect :=
  tmp ← address;
  let byte := Z.land tmp 3 in
  v ← ReadMem (s32 (tmp - byte)) 4;
  old ← pending_rt;
  load (rt i) (merge_LWL byte old v).

Definition merge_LWR (byte old v : Z) : Z :=
  match 3 - byte with
  | 0 => s32 (Z.lor (Z.land old 4294967040) (Z.land (Z.shiftr v 24) 255))
  | 1 => s32 (Z.lor (Z.land old 4294901760) (Z.land (Z.shiftr v 16) 65535))
  | 2 => s32 (Z.lor (Z.land old 4278190080) (Z.land (Z.shiftr v 8) 16777215))
  | 3 => v
  | _ => old
  end.

Definition op_LWR : M effect :=
  tmp ← address;
  let byte := Z.land tmp 3 in
  v ← ReadMem (s32 (tmp - byte)) 4;
  old ← pending_rt;
  load (rt i) (merge_LWR byte old v).

Definition merge_SWL (byte r v : Z) : Z :=
  match 3 - byte with
  | 0 => r
  | 1 => s32 (Z.lor (Z.land v 4278190080) (Z.land (Z.shiftr r 8) 16777215))
  | 2 => s32 (Z.lor (Z.land v 4294901760) (Z.land (Z.shiftr r 16) 65535))
  | 3 => s32 (Z.lor (Z.land v 4294967040) (Z.land (Z.shiftr r 24) 255))
  | _ => v
  end.

Definition op_SWL : M effect :=
  tmp ← address;
  let byte := Z.land tmp 3 in
  v ← ReadMem (s32 (tmp - byte)) 4;
  r ← reg (rt i);
  WriteMem (s32 (tmp - byte)) 4 (merge_SWL byte r v) ;; done.

Definition merge_SWR (byte r v : Z) : Z :=
  match 3 - byte with
  | 0 => s32 (Z.lor (Z.land v 16777215) (s32 (Z.shiftl r 24)))
  | 1 => s32 (Z.lor (Z.land v 65535) (s32 (Z.shiftl r 16)))
  | 2 => s32 (Z.lor (Z.land v 255) (s32 (Z.shiftl r 8)))
  | 3 => r
  | _ => v
  end.

Definition op_SWR : M effect :=
  tmp ← address;
  let byte := Z.land tmp 3 in
  v ← ReadMem (s32 (tmp - byte)) 4;
  r ← reg (rt i);
  WriteMem (s32 (tmp - byte)) 4 (merge_SWR byte r v) ;; done.

(** The address of a store is converted to unsigned and back. *)
Definition op_store (size : Z) : M effect :=
  tmp ← address;
  v ← reg (rt i);
  WriteMem (s32 (u32 tmp)) size v ;; done.

Definition op_SUB : M effect :=
  a ← reg (rs i); b ← reg (rt i);
  let diff := s32 (a - b) in
  if has (Z.lxor a b) SIGN_BIT && has (Z.lxor a diff) SIGN_BIT then RaiseException OverflowException 0
  else wreg (rd i) diff ;; done.

Definition op_MULT (signedArith : bool) : M effect :=
  a ← reg (rs i); b ← reg (rt i);
  let '(hi, lo) := Mult a b signedArith in
  wreg HiReg hi ;; wreg LoReg lo ;; done.

(** [registers[rd] = f(registers[rs], registers[rt])]. *)
Definition alu (f : Z → Z → Z) : M effect :=
  a ← reg (rs i); b ← reg (rt i); wreg (rd i) (f a b) ;; done.

(** [registers[rt] = f(registers[rs], extra)]. *)
Definition alu_imm (f : Z → Z → Z) : M effect :=
  a ← reg (rs i); wreg (rt i) (f a (extra i)) ;; done.

Definition move (src dst : Z) : M effect := v ← reg src; wreg dst v ;; done.

(** The cases OP_MFHI to the default. *)
Definition exec_2 : M effect :=
  match opCode i with
  | OP_MFHI => move HiReg (rd i)
  | OP_MFLO => move LoReg (rd i)
  | OP_MTHI => move (rs i) HiReg
  | OP_MTLO => move (rs i) LoReg
  | OP_MULT => op_MULT true
  | OP_MULTU => op_MULT false
  | OP_NOR => alu (λ a b, Z.lnot (Z.lor a b))
  | OP_OR => alu Z.lor
  | OP_ORI => alu_imm (λ a e, Z.lor a (Z.land e 65535))
  | OP_SB => op_store 1
  | OP_SH => op_store 2
  | OP_SLL => b ← reg (rt i); wreg (rd i) (s32 (Z.shiftl b (extra i))) ;; done
  | OP_SLLV => alu (λ a b, s32 (Z.shiftl b (Z.land a 31)))
  | OP_SLT => alu (λ a b, if a <? b then 1 else 0)
  | OP_SLTI => alu_imm (λ a e, if a <? e then 1 else 0)
  | OP_SLTIU => alu_imm (λ a e, if u32 a <? u32 e then 1 else 0)
  | OP_SLTU => alu (λ a b, if u32 a <? u32 b then 1 else 0)
  | OP_SRA => b ← reg (rt i); wreg (rd i) (Z.shiftr b (extra i)) ;; done
  | OP_SRAV => alu (λ a b, Z.shiftr b (Z.land a 31))
  | OP_SRL => tmp ← reg (rt i); let tmp := Z.shiftr tmp (extra i) in wreg (rd i) tmp ;; done
  | OP_SRLV => alu (λ a tmp, Z.shiftr tmp (Z.land a 31))
  | OP_SUB => op_SUB
  | OP_SUBU => alu (λ a b, s32 (a - b))
  | OP_SW => op_store 4
  | OP_SWL => op_SWL
  | OP_SWR => op_SWR
  | OP_SYSCALL => RaiseException SyscallException 0
  | OP_XOR => alu Z.lxor
  | OP_XORI => alu_imm (λ a e, Z.lxor a (Z.land e 65535))
  | OP_RES | OP_UNIMP => RaiseException IllegalInstrException 0
  | _ => lift (Err AssertFailed)
  end.

(** The cases OP_ADD to OP_LWR; OP_BGEZAL, OP_BLTZAL, OP_JAL and OP_JALR fall
    through to the case behind them. *)
Definition exec_1 : M effect :=
  match opCode i with
  | OP_ADD => op_ADD
  | OP_ADDI => op_ADDI
  | OP_ADDIU => alu_imm (λ a e, s32 (a + e))
  | OP_ADDU => alu (λ a b, s32 (a + b))
  | OP_AND => alu Z.land
  | OP_ANDI => alu_imm (λ a e, Z.land a (Z.land e 65535))
  | OP_BEQ => a ← reg (rs i); b ← reg (rt i); branch (a =? b)
  | OP_BGEZAL => link R31 ;; a ← reg (rs i); branch (negb (has a SIGN_BIT))
  | OP_BGEZ => a ← reg (rs i); branch (negb (has a SIGN_BIT))
  | OP_BGTZ => a ← reg (rs i); branch (0 <? a)
  | OP_BLEZ => a ← reg (rs i); branch (a <=? 0)
  | OP_BLTZAL => link R31 ;; a ← reg (rs i); branch (has a SIGN_BIT)
  | OP_BLTZ => a ← reg (rs i); branch (has a SIGN_BIT)
  | OP_BNE => a ← reg (rs i); b ← reg (rt i); branch (negb (a =? b))
  | OP_DIV => op_DIV
  | OP_DIVU => op_DIVU
  | OP_JAL => link R31 ;; jump (s32 (Z.lor (Z.land pc 4026531840) (IndexToAddr (extra i))))
  | OP_J => jump (s32 (Z.lor (Z.land pc 4026531840) (IndexToAddr (extra i))))
  | OP_JALR => link (rd i) ;; a ← reg (rs i); jump a
  | OP_JR => a ← reg (rs i); jump a
  | OP_LB => op_LB false
  | OP_LBU => op_LB true
  | OP_LH => op_LH false
  | OP_LHU => op_LH true
  | OP_LUI => wreg (rt i) (s32 (Z.shiftl (extra i) 16)) ;; done
  | OP_LW => op_LW
  | OP_LWL => op_LWL
  | OP_LWR => op_LWR
  | _ => exec_2
  end.
End EXEC.

(** The end of OneInstruction: delayed load, then the program counters. *)
Definition advance (e : effect) : M unit :=
  DelayedLoad (nextLoadReg e) (nextLoadValue e) ;;
  pc ← reg PCReg;
  wreg PrevPCReg pc ;;
  n ← reg NextPCReg;
  wreg PCReg n ;;
  wreg NextPCReg (pcAfter e).

Definition OneInstruction : M unit :=
  pc ← reg PCReg;
  raw ← ReadMem pc 4;
  i ← lift (Decode (u32 raw));
  n ← reg NextPCReg;
  e ← exec_1 i (s32 (n + 4));
  advance e.

(** Run: instructions forever; [handler] is the kernel's ExceptionHandler and
    [OneTick] the interrupt simulation, both functions on the machine state.
    [k] instructions of the loop. *)
Fixpoint Run (handler : ExceptionType → Machine → res Machine) (OneTick : Machine → res Machine)
    (k : nat) (m : Machine) : res Machine :=
  match k with
  | O => Ok m
  | S k =>
    m ← (match OneInstruction m with
         | Ret _ m => Ok m
         | Trap x m => handler x m
         | Fault e => Err e
         end);
    m ← OneTick m;
    Run handler OneTick k m
  end.

End Mips.

Module MipsSpec.
Import Mips MachineSpec.

(** ** Decoding *)

(** The opcodes the switch of OneInstruction has a case for. *)
Definition executable (op : opcode) : bool :=
  match op with SPECIAL | BCOND | OP_RFE => false | _ => true end.

(** The instructions that use the shift amount field. *)
Definition is_shift (op : opcode) : bool :=
  match op with OP_SLL | OP_SRA | OP_SRL => true | _ => false end.

Record Decoded (i : Instruction) : Prop := {
  dec_op : executable (opCode i) = true;
  dec_rs : 0 ≤ rs i < NumGPRegs;
  dec_rt : 0 ≤ rt i < NumGPRegs;
  dec_rd : 0 ≤ rd i < NumGPRegs;
  dec_extra : is_s32 (extra i);
  dec_shamt : is_shift (opCode i) = true → 0 ≤ extra i < 32
}.

Lemma field_range v k mask : 0 ≤ mask → 0 ≤ field v k mask ≤ mask.
Proof. apply land_le. Qed.

Lemma decode_extra_range v f : is_s32 (decode_extra v f) ∧ (f = RFMT → 0 ≤ decode_extra v f < 32).
Proof.
  destruct f; cbn [decode_extra].
  - split; [|done]. pose proof (land_le v 65535 ltac:(lia)).
    case_match; [apply s32_range|unfold_int; lia].
  - split; [|done]. pose proof (land_le v 67108863 ltac:(lia)). unfold_int; lia.
  - pose proof (field_range v 6 31 ltac:(lia)). unfold_int. lia.
Qed.

Definition table_ok (p : opcode * fmt) : bool :=
  let '(op, f) := p in
  match op with SPECIAL => bool_decide (f = RFMT) | BCOND => true | _ => executable op && negb (is_shift op) end.

Lemma opTable_ok : forallb table_ok opTable = true.
Proof. reflexivity. Qed.

Lemma specialTable_ok : forallb executable specialTable = true.
Proof. reflexivity. Qed.

Lemma table_lookup {A} (P : A → bool) (l : list A) k (mask : Z) :
  forallb P l = true → 0 ≤ k ≤ mask → mask < Z.of_nat (length l) → ∃ a, aget l k = Ok a ∧ P a = true.
Proof.
  intros HP Hk Hlen. destruct (aget_ex l k) as [a Ha]; [lia|]. exists a. split; [done|].
  apply aget_Ok in Ha as [_ Ha%list_elem_of_lookup_2]. rewrite forallb_forall in HP.
  by apply HP, list_elem_of_In.
Qed.

Lemma Decode_ok v : ∃ i, Decode v = Ok i ∧ Decoded i.
Proof.
  unfold Decode. pose proof (field_range v 26 63 ltac:(lia)) as Hf.
  destruct (table_lookup table_ok opTable _ 63 opTable_ok Hf ltac:(done)) as ([op f]&->&Hop).
  cbn [mbind res_bind].
  assert (∃ op', match op with SPECIAL => aget specialTable (Z.land v 63)
      | BCOND => Ok (decode_bcond v) | _ => Ok op end = Ok op'
      ∧ executable op' = true ∧ (is_shift op' = true → f = RFMT)) as (op'&->&He&Hs).
  { destruct op; try (eexists; split; [done|]; cbn in Hop |- *; done).
    - destruct (table_lookup executable specialTable (Z.land v 63) 63 specialTable_ok) as (op'&->&He);
        [apply land_le; lia|done|].
      exists op'. split; [done|]. split; [done|]. intros _. by apply bool_decide_eq_true in Hop.
    - eexists. split; [done|]. unfold decode_bcond. by repeat case_match. }
  cbn [mbind res_bind]. eexists. split; [done|].
  destruct (decode_extra_range v f) as [Hx1 Hx2].
  split; cbn; auto; unfold NumGPRegs;
    [pose proof (field_range v 21 31 ltac:(lia))|pose proof (field_range v 16 31 ltac:(lia))
    |pose proof (field_range v 11 31 ltac:(lia))]; lia.
Qed.

(** ** One instruction *)

Definition effect_ok (m0 : Machine) (e : effect) (m : Machine) : Prop :=
  Ev m0 m ∧ 0 ≤ nextLoadReg e < NumGPRegs ∧ is_s32 (nextLoadValue e) ∧ is_s32 (pcAfter e).

Definition trap_ok (m0 : Machine) (x : ExceptionType) (m : Machine) : Prop :=
  Ev m0 m ∧ R0_zero m ∧ x ≠ NoException.

Ltac s32_side :=
  first [assumption | apply s32_range | apply is_s32_0
    | (apply is_s32_land_mask; unfold halfword; lia) | (unfold_int; lia)
    | (apply is_s32_sar; [lia|assumption])
    | (repeat case_match; unfold_int; lia) | solve [eauto with ints]].

(** One step of symbolic execution. *)
Ltac exec_step :=
  cbv beta zeta;
  match goal with
  | |- post (mbind _ _) _ _ _ => apply post_bind
  | |- post (mret _) _ _ _ => apply post_ret
  | |- post (lift (Ok _)) _ _ _ => apply post_ret
  | HE : Ev ?m0 ?m |- post (reg _) ?m _ _ => apply (post_reg m0); [exact HE|reg_num|intros ?v ?Hv _]
  | HE : Ev ?m0 ?m |- post (wreg _ _) ?m _ _ =>
    apply (post_wreg m0); [exact HE|reg_num|s32_side|reg_num|clear HE; intros ?HE]
  | HE : Ev ?m0 ?m |- post (RaiseException _ _) ?m _ _ =>
    apply (post_Raise m0); [exact HE|s32_side|intros ?m ?HE ?H0; by split]
  | HE : Ev ?m0 ?m |- post (ReadMem _ _) ?m _ _ =>
    apply (post_ReadMem m0); [exact HE|s32_side|unfold access_size; lia
      |intros ?v ?m ?HE ?Hv ?Hregs|by intros ?x ?m ?HE ?H0 ?Hx]
  | HE : Ev ?m0 ?m |- post (WriteMem _ _ _) ?m _ _ =>
    apply (post_WriteMem m0); [exact HE|s32_side|unfold access_size; lia
      |intros ?m ?HE ?Hregs|by intros ?x ?m ?HE ?H0 ?Hx]
  | |- post (if ?b then _ else _) _ _ _ => destruct b eqn:?
  | |- post (match ?b with inl _ => _ | inr _ => _ end) _ _ _ => destruct b eqn:?
  end.

Ltac exec_solve :=
  repeat exec_step;
  try (split; [eassumption|]; cbn [nextLoadReg nextLoadValue pcAfter]; split; [reg_num|split; s32_side]).

Section INSTRUCTIONS.
Context (m0 : Machine) (i : Instruction) (pc : Z).
Context (Hi : Decoded i) (Hpc : is_s32 pc).

Let Hrs := dec_rs _ Hi.
Let Hrt := dec_rt _ Hi.
Let Hrd := dec_rd _ Hi.
Let Hextra := dec_extra _ Hi.

Lemma exec_alu m f :
  Ev m0 m → (∀ a b, is_s32 a → is_s32 b → is_s32 (f a b)) →
  post (alu i pc f) m (effect_ok m0) (trap_ok m0).
Proof. intros HE Hf. unfold alu, Mips.done. exec_solve. Qed.

Lemma exec_alu_imm m f :
  Ev m0 m → (∀ a, is_s32 a → is_s32 (f a (extra i))) →
  post (alu_imm i pc f) m (effect_ok m0) (trap_ok m0).
Proof. intros HE Hf. unfold alu_imm, Mips.done. exec_solve. Qed.

Lemma exec_branch m b : Ev m0 m → post (branch i pc b) m (effect_ok m0) (trap_ok m0).
Proof. intros HE. unfold branch, jump, Mips.done. destruct b; exec_solve. Qed.

Lemma exec_address m (Q : Z → Machine → Prop) E :
  Ev m0 m → (∀ a, is_s32 a → Q a m) → post (address i) m Q E.
Proof. intros HE HQ. unfold address. exec_solve. apply HQ. apply s32_range. Qed.

Lemma exec_link m r : Ev m0 m → 0 ≤ r < NumGPRegs →
  post (link r) m (λ _ m', Ev m0 m') (trap_ok m0).
Proof. intros HE Hr. unfold link. exec_solve. done. Qed.

Lemma exec_pending m (Q : Z → Machine → Prop) E :
  Ev m0 m → (∀ a, is_s32 a → Q a m) → post (pending_rt i) m Q E.
Proof. intros HE HQ. unfold pending_rt. exec_solve; auto. Qed.

Ltac go :=
  repeat first
    [ exec_step
    | apply exec_address; [eassumption|intros ?a ?Ha]
    | apply exec_pending; [eassumption|intros ?a ?Ha] ];
  try (split; [eassumption|]; cbn [nextLoadReg nextLoadValue pcAfter]; split; [reg_num|split; s32_side]).

Lemma exec_ADD m : Ev m0 m → post (op_ADD i pc) m (effect_ok m0) (trap_ok m0).
Proof. intros HE. unfold op_ADD, Mips.done. go. Qed.

Lemma exec_ADDI m : Ev m0 m → post (op_ADDI i pc) m (effect_ok m0) (trap_ok m0).
Proof. intros HE. unfold op_ADDI, Mips.done. go. Qed.

Lemma exec_SUB m : Ev m0 m → post (op_SUB i pc) m (effect_ok m0) (trap_ok m0).
Proof. intros HE. unfold op_SUB, Mips.done. go. Qed.

Lemma quot_rem_s32 a b :
  is_s32 a → is_s32 b → b ≠ 0 → ¬ (a = - halfword ∧ b = -1) →
  is_s32 (Z.quot a b) ∧ is_s32 (Z.rem a b).
Proof. unfold is_s32, halfword. intros. split; dnia. Qed.

(** The one arithmetic instruction the host does not execute. *)
Definition div_overflow (m : Machine) : Prop :=
  opCode i = OP_DIV ∧ aget (registers m) (rs i) = Ok (- halfword) ∧ aget (registers m) (rt i) = Ok (-1).

Lemma exec_DIV m :
  Ev m0 m → opCode i = OP_DIV → ¬ div_overflow m → post (op_DIV i pc) m (effect_ok m0) (trap_ok m0).
Proof.
  intros HE Hop Hno. unfold op_DIV, Mips.done.
  apply post_bind, (post_reg m0); [done|reg_num|]. intros b Hb Lb. cbv beta.
  destruct (Z.eqb_spec b 0); [go|].
  apply post_bind, (post_reg m0); [done|reg_num|]. intros a Ha La. cbv beta.
  assert (Hab : ¬ (a = - halfword ∧ b = -1)).
  { intros [-> ->]. apply Hno. split; [done|]. rewrite !aget_Ok. repeat split; try done; reg_num. }
  destruct (Z.eqb_spec a (- halfword)), (Z.eqb_spec b (-1)); [naive_solver| | |]; cbn [andb];
    destruct (quot_rem_s32 a b) as [Hq Hr]; auto; go.
Qed.

Lemma exec_DIVU m : Ev m0 m → post (op_DIVU i pc) m (effect_ok m0) (trap_ok m0).
Proof. intros HE. unfold op_DIVU, Mips.done. go. Qed.

Lemma exec_LB m u : Ev m0 m → post (op_LB i pc u) m (effect_ok m0) (trap_ok m0).
Proof.
  intros HE. unfold op_LB, load. go. split; [done|]. cbn [nextLoadReg nextLoadValue pcAfter].
  split; [reg_num|]. split; [|done]. case_match; s32_side.
Qed.

Lemma exec_LH m u : Ev m0 m → post (op_LH i pc u) m (effect_ok m0) (trap_ok m0).
Proof.
  intros HE. unfold op_LH, load. go. split; [done|]. cbn [nextLoadReg nextLoadValue pcAfter].
  split; [reg_num|]. split; [|done]. case_match; s32_side.
Qed.

Lemma exec_LW m : Ev m0 m → post (op_LW i pc) m (effect_ok m0) (trap_ok m0).
Proof. intros HE. unfold op_LW, load. go. Qed.

Lemma merge_s32 (f : Z → Z → Z → Z) byte a b :
  f ∈ [merge_LWL; merge_LWR; merge_SWL; merge_SWR] → is_s32 a → is_s32 b → is_s32 (f byte a b).
Proof.
  intros Hf Ha Hb. rewrite !elem_of_cons, elem_of_nil in Hf.
  destruct Hf as [->|[->|[->|[->|[]]]]];
    unfold merge_LWL, merge_LWR, merge_SWL, merge_SWR; repeat case_match; auto with ints.
Qed.

Lemma exec_LWL m : Ev m0 m → post (op_LWL i pc) m (effect_ok m0) (trap_ok m0).
Proof.
  intros HE. unfold op_LWL, load. go. split; [done|]. cbn [nextLoadReg nextLoadValue pcAfter].
  split; [reg_num|]. split; [|done]. apply merge_s32; [set_solver|done..].
Qed.

Lemma exec_LWR m : Ev m0 m → post (op_LWR i pc) m (effect_ok m0) (trap_ok m0).
Proof.
  intros HE. unfold op_LWR, load. go. split; [done|]. cbn [nextLoadReg nextLoadValue pcAfter].
  split; [reg_num|]. split; [|done]. apply merge_s32; [set_solver|done..].
Qed.

Lemma exec_SWL m : Ev m0 m → post (op_SWL i pc) m (effect_ok m0) (trap_ok m0).
Proof. intros HE. unfold op_SWL, Mips.done. go. Qed.

Lemma exec_SWR m : Ev m0 m → post (op_SWR i pc) m (effect_ok m0) (trap_ok m0).
Proof. intros HE. unfold op_SWR, Mips.done. go. Qed.

Lemma exec_store m size : access_size size → Ev m0 m → post (op_store i pc size) m (effect_ok m0) (trap_ok m0).
Proof. intros [->|[->| ->]] HE; unfold op_store, Mips.done; go. Qed.

Lemma Mult_s32 a b sg : is_s32 (Mult a b sg).1 ∧ is_s32 (Mult a b sg).2.
Proof.
  unfold Mult. case_match; [split; apply is_s32_0|].
  repeat case_match; simplify_eq/=; split; apply s32_range.
Qed.

Lemma exec_MULT m sg : Ev m0 m → post (op_MULT i pc sg) m (effect_ok m0) (trap_ok m0).
Proof.
  intros HE. unfold op_MULT, Mips.done. do 4 exec_step.
  match goal with |- context [Mult ?a ?b sg] => pose proof (Mult_s32 a b sg) as [Hhi Hlo];
    destruct (Mult a b sg) as [hi lo] end.
  cbn in Hhi, Hlo. go.
Qed.

Lemma exec_move m s d :
  Ev m0 m → 0 ≤ s < NumTotalRegs → 0 ≤ d < NumTotalRegs → d ≠ LoadReg →
  post (move pc s d) m (effect_ok m0) (trap_ok m0).
Proof. intros HE Hs Hd Hl. unfold move, Mips.done. go. Qed.

Create HintDb exec.
Hint Resolve exec_alu exec_alu_imm exec_branch exec_ADD exec_ADDI exec_SUB exec_DIVU exec_LB exec_LH
  exec_LW exec_LWL exec_LWR exec_SWL exec_SWR exec_store exec_MULT exec_move : exec.

Ltac alu_side := intros; cbv beta; first [s32_side | (apply is_s32_sar; [apply land_le; lia|assumption])
  | (apply is_s32_lor; s32_side) | (apply is_s32_lxor; s32_side) | (apply is_s32_land; s32_side)].

Lemma exec_ok m : Ev m0 m → ¬ div_overflow m → post (exec_1 i pc) m (effect_ok m0) (trap_ok m0).
Proof.
  intros HE Hno. pose proof (dec_op _ Hi) as Hop. pose proof (dec_shamt _ Hi) as Hsh.
  unfold exec_1, exec_2. destruct (opCode i) eqn:Eop; try done; try specialize (Hsh eq_refl);
    try (apply exec_alu; [done|alu_side]); try (apply exec_alu_imm; [done|alu_side]);
    try (apply exec_move; [done|reg_num..]); try (apply exec_store; [unfold access_size; lia|done]);
    try (solve [auto with exec]); try (by apply exec_DIV);
    unfold Mips.done, jump; repeat exec_step; try (by apply exec_branch).
  all: try (eapply post_mono; [by apply exec_link; [eassumption|unfold R31; reg_num]| |by auto];
            intros [] m1 HE1; cbv beta; repeat exec_step; try (by apply exec_branch)).
  all: try (split; [eassumption|]; cbn [nextLoadReg nextLoadValue pcAfter]; split; [reg_num|split; s32_side]).
Qed.

End INSTRUCTIONS.

Lemma advance_ok m0 m e : effect_ok m0 e m → post (advance e) m (λ _ m', Ev m0 m' ∧ R0_zero m') (trap_ok m0).
Proof.
  intros (HE&Hr&Hv&Hpc). unfold advance.
  apply post_bind, (post_DelayedLoad m0); [done..|]. intros m1 HE1 H0.
  assert (Hkeep : ∀ m' k v, R0_zero m' → 0 < k → R0_zero (update_reg m' k v)).
  { intros m' k v' Hz Hk. unfold R0_zero, update_reg. cbn. by rewrite list_lookup_insert_ne by lia. }
  repeat exec_step. split; [done|]. repeat (apply Hkeep; [|reg_num]). done.
Qed.

(** The instruction at the program counter is the division the host traps on. *)
Definition div_faults (m : Machine) : Prop :=
  ∃ pc raw m1 i, aget (registers m) PCReg = Ok pc ∧ ReadMem pc 4 m = Ret raw m1
    ∧ Decode (u32 raw) = Ok i ∧ div_overflow i m1.

Lemma OneInstruction_ok m :
  Wf m → ¬ div_faults m →
  post OneInstruction m (λ _ m', Ev m m' ∧ R0_zero m') (trap_ok m).
Proof.
  intros [Hwf H0] Hno. pose proof (Ev_refl m Hwf) as HE. unfold OneInstruction.
  apply post_bind, (post_reg m); [done|reg_num|]. intros pc Hpc Lpc. cbv beta.
  assert (Hrd : post (ReadMem pc 4) m (λ raw m1, Ev m m1 ∧ ReadMem pc 4 m = Ret raw m1) (trap_ok m)).
  { pose proof (post_ReadMem m m pc 4 (λ _ m1, Ev m m1) (trap_ok m) HE Hpc) as HP.
    unfold post in *. destruct (ReadMem pc 4 m) as [raw m1|x m1|e];
      [split; [|done]| |]; apply HP; unfold access_size, trap_ok; auto. }
  apply post_bind. eapply post_mono; [exact Hrd| |done]. clear Hrd. intros raw m1 [HE1 Eraw]. cbv beta.
  destruct (Decode_ok (u32 raw)) as (i&Ei&Hi). apply post_bind. rewrite Ei. apply post_ret. cbv beta.
  apply post_bind, (post_reg m); [done|reg_num|]. intros n Hn _. cbv beta.
  apply post_bind. eapply post_mono; [apply (exec_ok m i _ Hi (s32_range _) m1 HE1)| |done].
  - intros Hdiv. apply Hno. exists pc, raw, m1, i. split; [|done].
    apply aget_Ok. split; [reg_num|done].
  - intros e m2 He. cbv beta. by apply advance_ok.
Qed.

End MipsSpec.

Import Mips MachineSpec MipsSpec.

(** Instruction::Decode is total: every instruction word decodes,
    within the bounds of both opcode tables, to an instruction whose opcode has
    a case in the switch of OneInstruction (so its default assertion cannot
    fail), whose register fields are general purpose registers, whose
    immediate is an [int], and whose shift amount is below 32. *)
Theorem decode_total (word : Z) : ∃ i, Decode word = Ok i ∧ Decoded i.
Proof. apply Decode_ok. Qed.

(** C5 (type): one instruction, whatever the words in memory are, returns or
    traps to the kernel from every well-formed machine, the signed division of
    the smallest integer by -1 excepted; afterwards the machine is well formed
    (forty 32-bit registers, R0 zero, a pending load into a general purpose
    register, byte memory, one translation table), page table entries differ in
    use and dirty bits only, and no byte of main memory has changed outside the
    pages that are mapped valid and writable. *)
Theorem one_instruction_safe (m : Machine) (Hm : Wf m) (Hdiv : ¬ div_faults m) :
  post OneInstruction m
    (λ _ m', Wf m' ∧ Evolves m m')
    (λ x m', Wf m' ∧ Evolves m m' ∧ x ≠ NoException).
Proof.
  eapply post_mono; [by apply OneInstruction_ok| |].
  - intros _ m' [[Hwf He] H0]. by split.
  - intros x m' ([Hwf He]&H0&Hx). by split.
Qed.

Lemma sample_machine_Wf : Wf sample_machine.
Proof. split; [exact sample_machine_Wfx|reflexivity]. Qed.

Lemma sample_no_div : ¬ div_faults sample_machine.
Proof.
  intros (pc&raw&m1&i&Hpc&Hr&Hd&Hop&_). vm_compute in Hpc. injection Hpc as <-.
  assert (raw = 0) as -> by (revert Hr; vm_compute; congruence).
  vm_compute in Hd. injection Hd as <-. discriminate.
Qed.

Lemma one_instruction_safe_witness :
  post OneInstruction sample_machine
    (λ _ m', Wf m' ∧ Evolves sample_machine m')
    (λ x m', Wf m' ∧ Evolves sample_machine m' ∧ x ≠ NoException).
Proof. exact (one_instruction_safe sample_machine sample_machine_Wf sample_no_div). Defined.

