(* ===== verification/MipsArith.v ===== *)
(** machine/mipssim.cc: arithmetic of the simulated processor.

    Module MultSpec proves the shift-and-add loop of Mult against 64-bit
    multiplication; Module ArithSpec treats the overflow tests, the merging of
    unaligned words and the shifts.  The theorems at the end are about the
    instructions as [exec_1] of Mips.v executes them. *)

From S2P Require Import Prelude Machine Mips.
Import Machine Mips MachineSpec MipsSpec.

Module MultSpec.
Import Mips.

(** A double word. *)
Definition dword (hi lo : Z) : Z := hi * wordsize + lo.
Definition dsize : Z := wordsize * wordsize.

Lemma has_bit0 a : has a 1 = bool_decide (a mod 2 = 1).
Proof.
  unfold has. change 1 with (Z.ones 1) at 1. rewrite Z.land_ones by lia. change (2 ^ 1) with 2.
  pose proof (Z.mod_pos_bound a 2). destruct (Z.eqb_spec (a mod 2) 0), (decide (a mod 2 = 1));
    rewrite ?bool_decide_true, ?bool_decide_false by done; cbn; lia || done.
Qed.

Lemma has_sign_u32 z : is_u32 z → has z SIGN_BIT = (halfword <=? z).
Proof.
  intros Hz. unfold has, SIGN_BIT. unfold_int.
  assert (E : Z.land z 2147483648 = 2147483648 * (z / 2147483648)).
  { apply Z.bits_inj'. intros n Hn. rewrite Z.land_spec.
    change 2147483648 with (2 ^ 31). rewrite Z.pow2_bits_eqb by lia.
    rewrite <- Z.shiftr_div_pow2, Z.mul_comm, <- Z.shiftl_mul_pow2 by lia.
    destruct (Z_lt_le_dec n 31).
    - rewrite Z.shiftl_spec_low by lia. destruct (Z.eqb_spec 31 n); [lia|]. by rewrite andb_false_r.
    - rewrite Z.shiftl_spec_high, Z.shiftr_spec by lia. replace (n - 31 + 31) with n by lia.
      destruct (Z.eqb_spec 31 n) as [<-|]; [by rewrite andb_true_r|].
      rewrite andb_false_r. symmetry. destruct (Z.eq_dec z 0) as [->|]; [by rewrite Z.bits_0|].
      apply Z.bits_above_log2; [lia|]. apply Z.log2_lt_pow2; [lia|].
      assert (2 ^ 32 ≤ 2 ^ n) by (apply Z.pow_le_mono_r; lia). lia. }
  rewrite E. destruct (Z.eqb_spec (2147483648 * (z / 2147483648)) 0), (Z.leb_spec 2147483648 z); cbn; dlia || done.
Qed.

(** Adding double words with the carry test of the code. *)
Lemma add_carry lo hi bLo bHi :
  is_u32 lo → is_u32 hi → is_u32 bLo → is_u32 bHi →
  let lo' := u32 (lo + bLo) in
  let hi1 := if lo' <? bLo then u32 (hi + 1) else hi in
  dword (u32 (hi1 + bHi)) lo' = (dword hi lo + dword bHi bLo) mod dsize.
Proof.
  unfold dword, dsize. unfold_int. cbv zeta. intros.
  destruct (Z.ltb_spec ((lo + bLo) mod 4294967296) bLo); dlia.
Qed.

Lemma shift_left bLo bHi :
  is_u32 bLo → is_u32 bHi →
  let bHi' := Z.lor (u32 (Z.shiftl bHi 1)) (if has bLo SIGN_BIT then 1 else 0) in
  let bLo' := u32 (Z.shiftl bLo 1) in
  is_u32 bHi' ∧ is_u32 bLo' ∧ dword bHi' bLo' = (2 * dword bHi bLo) mod dsize.
Proof.
  cbv zeta. intros HL HH. rewrite (has_sign_u32 bLo HL), !Z.shiftl_mul_pow2 by lia. change (2 ^ 1) with 2.
  split; [apply lor_u32; [apply u32_range|case_match; unfold_int; lia]|]. split; [apply u32_range|].
  assert (Hor : ∀ b : bool, Z.lor (u32 (bHi * 2)) (if b then 1 else 0) = u32 (bHi * 2) + (if b then 1 else 0)).
  { intros [|]; [|by rewrite Z.lor_0_r, Z.add_0_r]. unfold_int.
    rewrite Z.add_nocarry_lxor, Z.lxor_lor; [done|..];
      change 1 with (Z.ones 1); rewrite Z.land_ones by lia; change (2 ^ 1) with 2; dlia. }
  rewrite Hor. unfold dword, dsize. unfold_int. destruct (Z.leb_spec 2147483648 bLo); dlia.
Qed.

(** The two's complement of a double word. *)
Lemma negate_dword hi lo :
  is_u32 hi → is_u32 lo →
  let hi' := u32 (Z.lnot hi) in
  let lo' := u32 (u32 (Z.lnot lo) + 1) in
  dword (if lo' =? 0 then u32 (hi' + 1) else hi') lo' = (- dword hi lo) mod dsize.
Proof.
  unfold dword, dsize. unfold_int. unfold Z.lnot. cbv zeta. intros.
  destruct (Z.eqb_spec (((Z.pred (- lo)) mod 4294967296 + 1) mod 4294967296) 0); dlia.
Qed.

Section LOOP.
Context (a b : Z) (Ha : is_s32 a) (Hb : is_u32 b).

(** Before iteration [k] of the loop. *)
Definition Inv (k : Z) (s : mult_state) : Prop :=
  m_a s = Z.shiftr a k ∧ is_u32 (bLo s) ∧ is_u32 (bHi s) ∧ is_u32 (lo s) ∧ is_u32 (hi s)
  ∧ dword (bHi s) (bLo s) = (b * 2 ^ k) mod dsize
  ∧ dword (hi s) (lo s) = (b * (u32 a mod 2 ^ k)) mod dsize.

Lemma bit_step k :
  0 ≤ k < 32 →
  u32 a mod 2 ^ (k + 1) = u32 a mod 2 ^ k + 2 ^ k * (Z.shiftr a k mod 2).
Proof.
  intros Hk. rewrite Z.pow_add_r, Z.rem_mul_r by lia. change (2 ^ 1) with 2. do 2 f_equal.
  rewrite Z.shiftr_div_pow2 by lia. unfold u32, wordsize. change 4294967296 with (2 ^ 32).
  replace (2 ^ 32) with (2 ^ k * (2 * 2 ^ (31 - k))).
  - rewrite Z.rem_mul_r by lia. rewrite Z.mul_comm, Z.div_add, Z.div_small by (try apply Z.mod_pos_bound; lia).
    rewrite Z.add_0_l, Z.mul_comm, Z.mod_mod_divide; [done|].
    exists (2 ^ (31 - k)). lia.
  - rewrite <- Z.pow_succ_r, <- Z.pow_add_r by lia. f_equal. lia.
Qed.

(** The break: no bits of [a] are left above the current one. *)
Lemma break_bits k :
  0 ≤ k < 32 → has (Z.shiftr a k) 1 = true → Z.land (Z.shiftr a k) 4294967294 = 0 →
  u32 a mod 2 ^ (k + 1) = u32 a.
Proof.
  intros Hk H1 H2. rewrite has_bit0 in H1. apply bool_decide_eq_true in H1.
  apply (f_equal (λ z, Z.shiftr z 1)) in H2. rewrite Z.shiftr_land in H2.
  change (Z.shiftr 4294967294 1) with (Z.ones 31) in H2.
  rewrite Z.land_ones, Z.shiftr_div_pow2 in H2 by lia. change (2 ^ 1) with 2 in H2.
  change (2 ^ 31) with halfword in H2. change (Z.shiftr 0 1) with 0 in H2.
  assert (Hc : is_s32 (Z.shiftr a k)) by (apply is_s32_sar; [lia|done]).
  assert (Hc1 : Z.shiftr a k = 1) by (unfold_int; dlia).
  rewrite Z.shiftr_div_pow2 in Hc1 by lia.
  assert (0 < 2 ^ k) by (apply Z.pow_pos_nonneg; lia).
  assert (Hr : 2 ^ k ≤ a < 2 ^ (k + 1)) by (rewrite Z.pow_add_r by lia; change (2 ^ 1) with 2; dnia).
  rewrite u32_id by (unfold_int; lia). apply Z.mod_small. lia.
Qed.

Lemma accumulate k s :
  0 ≤ k < 32 → Inv k s → has (m_a s) 1 = true →
  let lo' := u32 (lo s + bLo s) in
  let hi1 := if lo' <? bLo s then u32 (hi s + 1) else hi s in
  dword (u32 (hi1 + bHi s)) lo' = (b * (u32 a mod 2 ^ (k + 1))) mod dsize.
Proof.
  intros Hk (HA&HbL&HbH&HL&HH&HB&HS) H1. cbv zeta.
  rewrite (add_carry (lo s) (hi s) (bLo s) (bHi s) HL HH HbL HbH), HB, HS.
  rewrite <- Z.add_mod by (unfold dsize, wordsize; lia).
  rewrite (bit_step k Hk). rewrite has_bit0, HA in H1. apply bool_decide_eq_true in H1.
  rewrite H1. f_equal. lia.
Qed.

Lemma shift_inv k s l h :
  0 ≤ k < 32 → Inv k s → is_u32 l → is_u32 h →
  dword h l = (b * (u32 a mod 2 ^ (k + 1))) mod dsize →
  Inv (k + 1) (mkMult (Z.shiftr (m_a s) 1) (u32 (Z.shiftl (bLo s) 1))
    (Z.lor (u32 (Z.shiftl (bHi s) 1)) (if has (bLo s) SIGN_BIT then 1 else 0)) l h).
Proof.
  intros Hk (HA&HbL&HbH&HL&HH&HB&HS) Hl Hh Hd.
  destruct (shift_left (bLo s) (bHi s) HbL HbH) as (H1&H2&H3).
  split; cbn [m_a]; [by rewrite HA, Z.shiftr_shiftr by lia|]. cbn [bLo bHi lo hi].
  do 4 (split; [done|]). split; [|done]. rewrite H3, HB.
  rewrite Z.mul_mod_idemp_r by (unfold dsize, wordsize; lia). f_equal.
  rewrite Z.pow_add_r by lia. lia.
Qed.

Lemma Mult_loop_ok n k s :
  Inv k s → 0 ≤ k → k + Z.of_nat n = 32 →
  let r := Mult_loop n s in
  is_u32 (lo r) ∧ is_u32 (hi r) ∧ dword (hi r) (lo r) = b * u32 a.
Proof.
  assert (Hfin : (b * u32 a) mod dsize = b * u32 a).
  { apply Z.mod_small. pose proof (u32_range a). unfold dsize. unfold is_u32, wordsize in *. nia. }
  revert k s. induction n as [|n IH]; intros k s HI Hk0 Hkn.
  { replace k with 32 in HI by lia. destruct HI as (_&_&_&HL&HH&_&HS). cbn.
    change (2 ^ 32) with wordsize in HS. fold (u32 (u32 a)) in HS.
    rewrite (u32_id (u32 a)), Hfin in HS by apply u32_range. done. }
  cbn [Mult_loop]. pose proof HI as (HA&HbL&HbH&HL&HH&HB&HS).
  pose proof (accumulate k s ltac:(lia) HI) as Hacc.
  pose proof (shift_inv k s) as Hsh. destruct s as [a' bL bH l h]. cbn [m_a bLo bHi lo hi] in *.
  unfold Mult_step. destruct (has a' 1) eqn:E1.
  - specialize (Hacc eq_refl). cbv zeta in Hacc. cbv zeta.
    destruct (Z.eqb_spec (Z.land a' 4294967294) 0) as [E2|].
    + cbn [lo hi]. split; [apply u32_range|]. split; [apply u32_range|].
      rewrite Hacc. subst a'. by rewrite (break_bits k ltac:(lia) E1 E2).
    + apply (IH (k + 1)); [|lia..]. apply Hsh; [lia|done|apply u32_range..|done].
  - apply (IH (k + 1)); [|lia..]. apply Hsh; [lia|done..|]. rewrite HS.
    rewrite (bit_step k) by lia. rewrite has_bit0 in E1. apply bool_decide_eq_false in E1.
    subst a'. pose proof (Z.mod_pos_bound (Z.shiftr a k) 2 ltac:(lia)).
    replace (Z.shiftr a k mod 2) with 0 by lia. by rewrite Z.mul_0_r, Z.add_0_r.
Qed.
End LOOP.

Lemma Mult_loop_init a b :
  is_s32 a → is_u32 b →
  let r := Mult_loop 32 (mkMult a b 0 0 0) in
  is_u32 (lo r) ∧ is_u32 (hi r) ∧ dword (hi r) (lo r) = b * u32 a.
Proof.
  intros Ha Hb. apply (Mult_loop_ok a b Ha Hb 32 0); [|lia..].
  split; [done|]. cbn [bLo bHi lo hi]. do 2 (split; [done || (unfold_int; lia)|]).
  do 2 (split; [unfold_int; lia|]). unfold dword. split.
  - rewrite Z.mod_small; [lia|]. unfold dsize. unfold is_u32, wordsize in *. lia.
  - by rewrite Z.mod_1_r, Z.mul_0_r.
Qed.

(** The magnitude of an [int] as the code computes it. *)
Lemma magnitude a : is_s32 a → u32 (if a <? 0 then s32 (- a) else a) = Z.abs a.
Proof.
  intros Ha. destruct (Z.ltb_spec a 0).
  - rewrite u32_s32. unfold_int. dlia.
  - rewrite u32_id by (unfold_int; lia). lia.
Qed.

(** Reading the result registers as one signed or unsigned number. *)
Lemma dword_unsigned hi lo :
  is_u32 hi → is_u32 lo → dword (u32 (s32 hi)) (u32 (s32 lo)) = dword hi lo.
Proof. intros. by rewrite !u32_s32, !u32_id. Qed.

Lemma dword_signed hi lo p :
  is_u32 hi → is_u32 lo → - (halfword * wordsize) ≤ p < halfword * wordsize →
  dword hi lo = p mod dsize → dword (s32 hi) (u32 (s32 lo)) = p.
Proof.
  intros Hh Hl Hp Hd. rewrite u32_s32, (u32_id lo Hl). unfold dword, dsize in *. unfold_int.
  rewrite (Z.mod_small hi) by lia. destruct (Z.ltb_spec hi 2147483648); dlia.
Qed.

(** The sign of a signed multiplication and the magnitudes of its operands. *)
Lemma Mult_unfold a b :
  a ≠ 0 → b ≠ 0 →
  let a' := if a <? 0 then s32 (- a) else a in
  let b' := if b <? 0 then s32 (- b) else b in
  let s := Mult_loop 32 (mkMult a' (u32 b') 0 0 0) in
  Mult a b true =
    if xorb (a <? 0) (b <? 0) then
      let hi' := u32 (Z.lnot (hi s)) in
      let lo' := u32 (u32 (Z.lnot (lo s)) + 1) in
      (s32 (if lo' =? 0 then u32 (hi' + 1) else hi'), s32 lo')
    else (s32 (hi s), s32 (lo s)).
Proof.
  intros Ha Hb. unfold Mult. rewrite (proj2 (Z.eqb_neq a 0) Ha), (proj2 (Z.eqb_neq b 0) Hb).
  by destruct (a <? 0), (b <? 0).
Qed.

Lemma Mult_signed a b :
  is_s32 a → is_s32 b → let '(hi, lo) := Mult a b true in dword hi (u32 lo) = a * b.
Proof.
  intros Ha Hb. destruct (decide (a = 0)) as [->|Ha0]; [done|].
  destruct (decide (b = 0)) as [->|Hb0]; [unfold Mult; rewrite orb_true_r, Z.mul_0_r; done|].
  rewrite Mult_unfold by done. cbv zeta. set (a' := if a <? 0 then _ else _). set (b' := if b <? 0 then _ else _).
  assert (Ha' : is_s32 a') by (subst a'; case_match; auto with ints).
  destruct (Mult_loop_init a' (u32 b') Ha' (u32_range _)) as (HL&HH&HD).
  set (s := Mult_loop _ _) in *. subst a' b'. rewrite !magnitude in HD by done.
  assert (Hbound : Z.abs b * Z.abs a ≤ halfword * halfword)
    by (unfold is_s32, halfword in *; apply Z.mul_le_mono_nonneg; lia).
  assert (Hsmall : halfword * halfword < halfword * wordsize) by done.
  destruct (xorb (a <? 0) (b <? 0)) eqn:Esign.
  - pose proof (negate_dword (hi s) (lo s) HH HL) as HN. cbv zeta in HN. rewrite HD in HN.
    apply dword_signed; [case_match; apply u32_range|apply u32_range| |].
    + destruct (Z.ltb_spec a 0), (Z.ltb_spec b 0); try done; lia.
    + rewrite HN. f_equal. destruct (Z.ltb_spec a 0), (Z.ltb_spec b 0); try done; lia.
  - apply dword_signed; [done..| |].
    + destruct (Z.ltb_spec a 0), (Z.ltb_spec b 0); try done; lia.
    + rewrite HD, Z.mod_small; destruct (Z.ltb_spec a 0), (Z.ltb_spec b 0); try done;
        unfold dsize; unfold wordsize, halfword in *; lia.
Qed.

Lemma Mult_unsigned a b :
  is_s32 a → is_s32 b → let '(hi, lo) := Mult a b false in dword (u32 hi) (u32 lo) = u32 a * u32 b.
Proof.
  intros Ha Hb. destruct (decide (a = 0)) as [->|Ha0]; [done|].
  destruct (decide (b = 0)) as [->|Hb0]; [unfold Mult; rewrite orb_true_r, Z.mul_0_r; done|].
  unfold Mult. rewrite (proj2 (Z.eqb_neq a 0) Ha0), (proj2 (Z.eqb_neq b 0) Hb0). cbn [orb].
  destruct (Mult_loop_init a (u32 b) Ha (u32_range _)) as (HL&HH&HD).
  rewrite dword_unsigned by done. lia.
Qed.

End MultSpec.

Module ArithSpec.
Import Mips MachineSpec MipsSpec MultSpec.

Lemma has_sign_s32 z : is_s32 z → has z SIGN_BIT = (z <? 0).
Proof.
  intros Hz. assert (E : has z SIGN_BIT = has (u32 z) SIGN_BIT).
  { unfold has, u32, wordsize. change 4294967296 with (2 ^ 32). rewrite <- Z.land_ones by lia.
    rewrite <- Z.land_assoc. done. }
  rewrite E, has_sign_u32 by apply u32_range. unfold_int.
  destruct (Z.leb_spec 2147483648 (z mod 4294967296)), (Z.ltb_spec z 0); dlia || done.
Qed.

Lemma has_sign_lxor a b :
  is_s32 a → is_s32 b → has (Z.lxor a b) SIGN_BIT = xorb (a <? 0) (b <? 0).
Proof.
  intros Ha Hb. rewrite has_sign_s32 by auto with ints. pose proof (Z.lxor_nonneg a b).
  destruct (Z.ltb_spec (Z.lxor a b) 0), (Z.ltb_spec a 0), (Z.ltb_spec b 0); cbn; lia || done.
Qed.

Definition fits (z : Z) : bool := (- halfword <=? z) && (z <? halfword).

Lemma fits_s32 z : fits z = true → s32 z = z.
Proof. intros H. apply s32_id. unfold fits in H. unfold is_s32. lia. Qed.

(** The sign tests of ADD and ADDI ([sum] against either operand) and of SUB. *)
Lemma add_sign_test a b :
  is_s32 a → is_s32 b →
  negb (has (Z.lxor a b) SIGN_BIT) && has (Z.lxor a (s32 (a + b))) SIGN_BIT = negb (fits (a + b)).
Proof.
  intros Ha Hb. rewrite !has_sign_lxor by auto with ints. unfold fits. unfold_int.
  destruct (Z.leb_spec (- 2147483648) (a + b)), (Z.ltb_spec (a + b) 2147483648),
    (Z.ltb_spec ((a + b) mod 4294967296) 2147483648), (Z.ltb_spec a 0), (Z.ltb_spec b 0);
    cbn; try done; repeat (match goal with |- context [?x <? 0] => destruct (Z.ltb_spec x 0) end);
    cbn; done || dlia.
Qed.

Lemma sub_sign_test a b :
  is_s32 a → is_s32 b →
  has (Z.lxor a b) SIGN_BIT && has (Z.lxor a (s32 (a - b))) SIGN_BIT = negb (fits (a - b)).
Proof.
  intros Ha Hb. rewrite !has_sign_lxor by auto with ints. unfold fits. unfold_int.
  destruct (Z.leb_spec (- 2147483648) (a - b)), (Z.ltb_spec (a - b) 2147483648),
    (Z.ltb_spec ((a - b) mod 4294967296) 2147483648), (Z.ltb_spec a 0), (Z.ltb_spec b 0);
    cbn; try done; repeat (match goal with |- context [?x <? 0] => destruct (Z.ltb_spec x 0) end);
    cbn; done || dlia.
Qed.

Lemma reg_run m k v : aget (registers m) k = Ok v → reg k m = Ret v m.
Proof. intros E. unfold reg, gets, lift, mbind, M_bind. by rewrite E. Qed.

Lemma reg_s32 m k v : Wfx m → aget (registers m) k = Ok v → is_s32 v.
Proof.
  intros Hwf [_ H]%aget_Ok. exact (proj1 (Forall_lookup _ _) (wf_s32 _ Hwf) _ _ H).
Qed.

(** The result of a checked addition or subtraction into register [r]. *)
Definition checked (m : Machine) (pc r v : Z) : out effect :=
  if fits v then Ret (mkEffect 0 0 pc) (update_reg m r v) else RaiseException OverflowException 0 m.

Lemma checked_run (m : Machine) (pc r v : Z) :
  Wfx m → 0 ≤ r < NumGPRegs →
  (if negb (fits v) then RaiseException OverflowException 0 else wreg r (s32 v) ;; Mips.done pc) m
  = checked m pc r v.
Proof.
  intros Hwf Hr. unfold checked. destruct (fits v) eqn:E; [|done]. cbn [negb].
  rewrite fits_s32 by done. unfold mbind, M_bind. rewrite wreg_run; [done|done|reg_num].
Qed.

(** ** Unaligned words *)

Lemma s32_cong x y : x mod wordsize = y mod wordsize → s32 x = s32 y.
Proof. unfold s32. by intros ->. Qed.

(** A field of low bits and a shifted value do not overlap. *)
Lemma lor_shifted x v k :
  0 ≤ k → Z.lor (Z.land x (Z.ones k)) (Z.shiftl v k) = x mod 2 ^ k + v * 2 ^ k.
Proof.
  intros Hk. assert (Hdis : Z.land (Z.land x (Z.ones k)) (Z.shiftl v k) = 0).
  { apply Z.bits_inj'. intros n Hn. rewrite !Z.land_spec, Z.bits_0.
    destruct (Z_lt_le_dec n k); [by rewrite Z.shiftl_spec_low, andb_false_r by lia|].
    by rewrite Z.ones_spec_high, andb_false_r by lia. }
  rewrite <- Z.lxor_lor, <- Z.add_nocarry_lxor by done.
  by rewrite Z.land_ones, Z.shiftl_mul_pow2 by done.
Qed.

(** Masking with low bits commutes with the conversions. *)
Lemma land_ones_s32 x k : 0 ≤ k ≤ 32 → Z.land (s32 x) (Z.ones k) = x mod 2 ^ k.
Proof.
  intros Hk. rewrite Z.land_ones by lia.
  assert (E : s32 x mod 2 ^ 32 = x mod 2 ^ 32) by (apply (u32_s32 x)).
  assert (D : (2 ^ k | 2 ^ 32)).
  { exists (2 ^ (32 - k)). rewrite <- Z.pow_add_r by lia. f_equal. lia. }
  by rewrite <- (Z.mod_mod_divide (s32 x) (2 ^ 32) (2 ^ k) D), E, Z.mod_mod_divide.
Qed.

(** The bytes [byte], ..., [byte + 3] of the two words [w0], [w1]. *)
Definition window (byte w0 w1 : Z) : Z :=
  s32 (u32 w0 / 256 ^ byte + (u32 w1 mod 256 ^ byte) * 256 ^ (4 - byte)).

Lemma s32_lor_s32 a b : s32 (Z.lor a (s32 b)) = s32 (Z.lor a b).
Proof.
  apply s32_cong. unfold wordsize. change 4294967296 with (2 ^ 32).
  rewrite <- !Z.land_ones, !Z.land_lor_distr_l by lia. f_equal.
  rewrite land_ones_s32, Z.land_ones by lia. done.
Qed.

Lemma u32_mod x k : 0 ≤ k ≤ 32 → u32 x mod 2 ^ k = x mod 2 ^ k.
Proof.
  intros Hk. unfold u32, wordsize. change 4294967296 with (2 ^ 32). apply Z.mod_mod_divide.
  exists (2 ^ (32 - k)). rewrite <- Z.pow_add_r by lia. f_equal. lia.
Qed.

Lemma u32_shiftr x k : 0 ≤ k ≤ 32 → u32 x / 2 ^ k = Z.shiftr x k mod 2 ^ (32 - k).
Proof.
  intros Hk. unfold u32, wordsize. change 4294967296 with (2 ^ 32).
  rewrite <- Z.shiftr_div_pow2, <- !Z.land_ones by lia. rewrite Z.shiftr_land. f_equal.
  apply Z.bits_inj'. intros n Hn. rewrite Z.shiftr_spec, !Z.testbit_ones by lia.
  destruct (Z.leb_spec 0 n), (Z.ltb_spec n (32 - k)), (Z.leb_spec 0 (n + k)), (Z.ltb_spec (n + k) 32);
    lia || done.
Qed.

(** LWL behind LWR: the low part comes from LWR, the old value is gone. *)
Lemma merge_pair old w0 w1 k :
  0 < k < 32 →
  s32 (Z.lor (Z.land (s32 (Z.lor (Z.land old (Z.shiftl (Z.ones k) (32 - k)))
                        (Z.land (Z.shiftr w0 k) (Z.ones (32 - k)))))
               (Z.ones (32 - k))) (s32 (Z.shiftl w1 (32 - k))))
  = s32 (u32 w0 / 2 ^ k + (u32 w1 mod 2 ^ k) * 2 ^ (32 - k)).
Proof.
  intros Hk. rewrite s32_lor_s32, land_ones_s32, <- Z.land_ones by lia.
  rewrite Z.land_lor_distr_l, <- !Z.land_assoc, Z.land_diag.
  assert (Z.land (Z.shiftl (Z.ones k) (32 - k)) (Z.ones (32 - k)) = 0) as ->.
  { rewrite Z.land_ones, Z.shiftl_mul_pow2 by lia. apply Z.mod_mul. apply Z.pow_nonzero; lia. }
  rewrite Z.land_0_r, Z.lor_0_l, lor_shifted, u32_shiftr, u32_mod by lia.
  apply s32_cong. unfold wordsize. change 4294967296 with (2 ^ 32).
  rewrite <- (Z.add_mod_idemp_r _ (w1 * _)) by lia. f_equal. f_equal.
  replace (2 ^ 32) with (2 ^ k * 2 ^ (32 - k)) by (rewrite <- Z.pow_add_r by lia; f_equal; lia).
  apply Z.mul_mod_distr_r; apply Z.pow_nonzero; lia.
Qed.

Lemma unaligned_pair byte old w0 w1 :
  0 ≤ byte < 4 → is_s32 w0 → (byte = 0 → w1 = w0) →
  merge_LWL (Z.land (byte + 3) 3) (merge_LWR byte old w0) w1 = window byte w0 w1.
Proof.
  intros Hb Hw0 Hsame. assert (byte = 0 ∨ byte = 1 ∨ byte = 2 ∨ byte = 3) as [->|[->|[->| ->]]] by lia.
  - rewrite (Hsame eq_refl). unfold window. cbn -[u32 s32]. rewrite Z.div_1_r, Z.mod_1_r.
    by rewrite Z.mul_0_l, Z.add_0_r, s32_u32, s32_id.
  - exact (merge_pair old w0 w1 8 ltac:(lia)).
  - exact (merge_pair old w0 w1 16 ltac:(lia)).
  - exact (merge_pair old w0 w1 24 ltac:(lia)).
Qed.

Lemma logical_shift_iff v k :
  is_s32 v → 0 ≤ k < 32 → (s32 (u32 v / 2 ^ k) = v / 2 ^ k ↔ 0 ≤ v ∨ k = 0).
Proof.
  intros Hv Hk. destruct (decide (k = 0)) as [->|Hk0].
  { rewrite !Z.div_1_r, s32_u32, s32_id by done. naive_solver. }
  assert (Hp : 2 ≤ 2 ^ k) by (change 2 with (2 ^ 1) at 1; apply Z.pow_le_mono_r; lia).
  pose proof (u32_range v) as Hu.
  assert (Hq : 0 ≤ u32 v / 2 ^ k < halfword).
  { unfold is_u32, wordsize, halfword in *. split; [apply Z.div_pos; lia|].
    apply Z.div_lt_upper_bound; lia. }
  rewrite s32_id by (unfold is_s32, halfword in *; lia). split.
  - intros E. left. destruct (Z_lt_le_dec v 0) as [Hneg|]; [|done].
    assert (v / 2 ^ k < 0) by (apply Z.div_lt_upper_bound; lia). lia.
  - intros [Hpos|]; [|done]. rewrite u32_id; [done|]. unfold_int. lia.
Qed.
End ArithSpec.

Import ArithSpec MultSpec.

(** C6 (functional): Mult computes the full 64-bit product: for every pair of
    [int]s the signed multiplication leaves hi and lo with
    hi * 2^32 + unsigned lo = a * b, and the unsigned one the product of the
    operands read as [unsigned]. *)
Theorem mult_correct (a b : Z) (Ha : is_s32 a) (Hb : is_s32 b) :
  (let '(hi, lo) := Mult a b true in hi * 2 ^ 32 + u32 lo = a * b)
  ∧ (let '(hi, lo) := Mult a b false in u32 hi * 2 ^ 32 + u32 lo = u32 a * u32 b).
Proof.
  pose proof (Mult_signed a b Ha Hb) as Hs. pose proof (Mult_unsigned a b Ha Hb) as Hu. split.
  - destruct (Mult a b true) as [hi lo]. exact Hs.
  - destruct (Mult a b false) as [hi lo]. exact Hu.
Qed.

(** ADD, ADDI and SUB raise OverflowException exactly when the
    mathematical result does not fit in an [int], and otherwise store that exact
    result in their target register and change nothing else. *)
Theorem overflow_trap_exact (m : Machine) (i : Instruction) (pc a b : Z)
    (Hm : Wfx m) (Hi : Decoded i)
    (Ha : aget (registers m) (rs i) = Ok a) (Hb : aget (registers m) (rt i) = Ok b) :
  (opCode i = OP_ADD → exec_1 i pc m = checked m pc (rd i) (a + b))
  ∧ (opCode i = OP_ADDI → exec_1 i pc m = checked m pc (rt i) (a + extra i))
  ∧ (opCode i = OP_SUB → exec_1 i pc m = checked m pc (rd i) (a - b)).
Proof.
  pose proof (reg_s32 _ _ _ Hm Ha) as Hsa. pose proof (reg_s32 _ _ _ Hm Hb) as Hsb.
  pose proof (dec_extra _ Hi) as Hx.
  split_and!; intros Hop; unfold exec_1, exec_2; rewrite Hop; unfold op_ADD, op_ADDI, op_SUB;
    unfold mbind at 1, M_bind at 1; rewrite (reg_run _ _ _ Ha).
  - unfold mbind at 1, M_bind at 1; rewrite (reg_run _ _ _ Hb). rewrite add_sign_test by done.
    apply checked_run; [done|apply Hi].
  - rewrite (Z.lxor_comm a), (Z.add_comm a). rewrite add_sign_test by done.
    apply checked_run; [done|apply Hi].
  - unfold mbind at 1, M_bind at 1; rewrite (reg_run _ _ _ Hb). rewrite sub_sign_test by done.
    apply checked_run; [done|apply Hi].
Qed.

(** the instruction pair LWR at address A, LWL at A + 3 loads
    the unaligned word at A: merged in sequence into any old register value,
    the two aligned words give the four bytes from the offset of A on. *)
Theorem unaligned_load_pair (address old w0 w1 : Z) (Hw0 : is_s32 w0)
    (Hsame : Z.land address 3 = 0 → w1 = w0) :
  merge_LWL (Z.land (address + 3) 3) (merge_LWR (Z.land address 3) old w0) w1
  = window (Z.land address 3) w0 w1.
Proof.
  assert (E : Z.land (address + 3) 3 = Z.land (Z.land address 3 + 3) 3).
  { assert (H4 : ∀ z, Z.land z 3 = z mod 4) by (intros z; apply (Z.land_ones z 2); lia).
    rewrite !H4. dlia. }
  rewrite E. apply unaligned_pair; [pose proof (land_le address 3); lia|done..].
Qed.

(** SRL shifts the [int] variable [tmp], so it stores the
    arithmetic shift v / 2^k of the register value; that is the logical shift
    the MIPS instruction asks for exactly when v is not negative or k is 0. *)
Theorem srl_shifts_arithmetically (m : Machine) (i : Instruction) (pc v : Z)
    (Hm : Wfx m) (Hi : Decoded i) (Hop : opCode i = OP_SRL) (Hv : aget (registers m) (rt i) = Ok v) :
  exec_1 i pc m = Ret (mkEffect 0 0 pc) (update_reg m (rd i) (v / 2 ^ extra i))
  ∧ (s32 (u32 v / 2 ^ extra i) = v / 2 ^ extra i ↔ 0 ≤ v ∨ extra i = 0).
Proof.
  pose proof (dec_shamt _ Hi) as Hk. rewrite Hop in Hk. specialize (Hk eq_refl).
  pose proof (reg_s32 _ _ _ Hm Hv) as Hsv. split.
  - unfold exec_1, exec_2. rewrite Hop. unfold mbind, M_bind. rewrite (reg_run _ _ _ Hv).
    rewrite wreg_run by (done || (pose proof (dec_rd _ Hi); reg_num)).
    by rewrite Z.shiftr_div_pow2 by lia.
  - by apply logical_shift_iff.
Qed.

(** ** Witnesses *)

Lemma mult_correct_witness :
  (let '(hi, lo) := Mult (-3) 2147483647 true in hi * 2 ^ 32 + u32 lo = -6442450941).
Proof. apply (mult_correct (-3) 2147483647); vm_compute; split; (discriminate || reflexivity). Defined.

Definition sample_add : Instruction := mkInstruction 0 OP_ADD 1 2 3 0.

Lemma sample_add_Decoded : Decoded sample_add.
Proof. split; cbn; unfold NumGPRegs; unfold_int; lia || done. Qed.

Lemma overflow_trap_exact_witness :
  exec_1 sample_add 8 sample_machine = checked sample_machine 8 3 (0 + 0).
Proof.
  exact (proj1 (overflow_trap_exact sample_machine sample_add 8 0 0 sample_machine_Wfx
    sample_add_Decoded eq_refl eq_refl) eq_refl).
Defined.

Lemma unaligned_load_pair_witness :
  merge_LWL (Z.land (1001 + 3) 3) (merge_LWR (Z.land 1001 3) 7 67305985) 134678021 = 84148994.
Proof.
  rewrite (unaligned_load_pair 1001 7 67305985 134678021).
  - reflexivity.
  - vm_compute; split; (discriminate || reflexivity).
  - vm_compute. discriminate.
Defined.

Definition sample_srl : Instruction := mkInstruction 0 OP_SRL 0 2 3 4.
Definition sample_negative : Machine := update_reg sample_machine 2 (-16).

Lemma sample_srl_Decoded : Decoded sample_srl.
Proof. split; cbn; unfold NumGPRegs; unfold_int; lia || done. Qed.

Lemma sample_negative_Wfx : Wfx sample_negative.
Proof.
  apply (Ev_update sample_machine sample_machine 2 (-16) (Ev_refl _ sample_machine_Wfx));
    [unfold_int; lia|unfold LoadReg; lia].
Qed.

Lemma srl_shifts_arithmetically_witness :
  exec_1 sample_srl 8 sample_negative = Ret (mkEffect 0 0 8) (update_reg sample_negative 3 (-1)).
Proof.
  exact (proj1 (srl_shifts_arithmetically sample_negative sample_srl 8 (-16) sample_negative_Wfx
    sample_srl_Decoded eq_refl eq_refl)).
Defined.
