(* ===== verification/Interrupt.v ===== *)
(** machine/interrupt.{h,cc}, machine/stats.{h,cc}, machine/timer.{h,cc},
    machine/callback.h and threads/alarm.{h,cc}: simulated time and hardware
    interrupts.

    Module Interrupt holds the state and the operations of class Interrupt;
    Module Timer the timer device and the software alarm behind it; Module
    InterruptSpec the invariant, the law interrupt handlers obey ([Lawful]) and
    the theorems about the interrupt loop.

    The sorted list of pending interrupts is used through the interface
    SortedADT.  A PendingInterrupt is a heap object: [id] is its identity, so
    that two interrupts with the same contents are different items, and
    [nextObj] the supply of new objects.  A callback object is a value of the
    parameter type [C], its virtual method CallBack a function on the state;
    [D] is the state of the devices and of the kernel behind the callbacks.
    The function that pulls due interrupts off the list also returns them, in
    the order of their handlers' calls.  Simulated time is an unbounded
    integer (the counter is an [int]: runs of less than 2^31 ticks). *)

From S2P Require Import Prelude LinkedList ListADT Machine.

Module Interrupt.

Inductive IntStatus := IntOff | IntOn.
Inductive MachineStatus := IdleMode | SystemMode | UserMode.
Inductive IntType := TimerInt | DiskInt | ConsoleWriteInt | ConsoleReadInt | NetworkSendInt | NetworkRecvInt.

#[global] Instance IntStatus_eq_dec : EqDecision IntStatus.
Proof. solve_decision. Defined.
#[global] Instance MachineStatus_eq_dec : EqDecision MachineStatus.
Proof. solve_decision. Defined.
#[global] Instance IntType_eq_dec : EqDecision IntType.
Proof. solve_decision. Defined.

Record Statistics := mkStats {
  totalTicks : Z; idleTicks : Z; systemTicks : Z; userTicks : Z;
  numDiskReads : Z; numDiskWrites : Z; numConsoleCharsRead : Z; numConsoleCharsWritten : Z;
  numPageFaults : Z; numPacketsSent : Z; numPacketsRecvd : Z
}.
Definition new_Statistics : Statistics := mkStats 0 0 0 0 0 0 0 0 0 0 0.

Definition UserTick : Z := 1.
Definition SystemTick : Z := 10.
Definition RotationTime : Z := 500.
Definition SeekTime : Z := 500.
Definition ConsoleTime : Z := 100.
Definition NetworkTime : Z := 100.
Definition TimerTicks : Z := 100.

(** [ticks st total idle system user]: the four clocks replaced. *)
Definition ticks (st : Statistics) (total idle system user : Z) : Statistics :=
  mkStats total idle system user (numDiskReads st) (numDiskWrites st) (numConsoleCharsRead st)
    (numConsoleCharsWritten st) (numPageFaults st) (numPacketsSent st) (numPacketsRecvd st).

Record PendingInterrupt (C : Type) := mkPending {
  id : nat; callOnInterrupt : C; when : Z; type : IntType
}.
#[global] Arguments mkPending {C}.
#[global] Arguments id {C}.
#[global] Arguments callOnInterrupt {C}.
#[global] Arguments when {C}.
#[global] Arguments type {C}.

#[global] Instance PendingInterrupt_eq_dec {C} `{EqDecision C} : EqDecision (PendingInterrupt C).
Proof. solve_decision. Defined.

Definition PendingCompare {C} (x y : PendingInterrupt C) : Z :=
  if when x <? when y then -1 else if when y <? when x then 1 else 0.

#[global] Instance PendingCompare_Comparison {C} : Comparison (@PendingCompare C).
Proof.
  split; unfold PendingCompare; intros x y.
  - destruct (Z.ltb_spec (when x) (when y)), (Z.ltb_spec (when y) (when x)); lia.
  - intros z. destruct (Z.ltb_spec (when x) (when y)), (Z.ltb_spec (when y) (when x)),
      (Z.ltb_spec (when y) (when z)), (Z.ltb_spec (when z) (when y)),
      (Z.ltb_spec (when x) (when z)), (Z.ltb_spec (when z) (when x)); lia.
Qed.

(** The simulation: class Interrupt, the statistics and the processor it
    updates (kernel->stats, kernel->machine), the devices. *)
Record Interrupt (D L : Type) := mkInterrupt {
  level : IntStatus;
  pending : L;
  inHandler : bool;
  yieldOnReturn : bool;
  status : MachineStatus;
  stats : Statistics;
  machine : option Machine.Machine;
  nextObj : nat;
  dev : D
}.
#[global] Arguments mkInterrupt {D L}.
#[global] Arguments level {D L}.
#[global] Arguments pending {D L}.
#[global] Arguments inHandler {D L}.
#[global] Arguments yieldOnReturn {D L}.
#[global] Arguments status {D L}.
#[global] Arguments stats {D L}.
#[global] Arguments machine {D L}.
#[global] Arguments nextObj {D L}.
#[global] Arguments dev {D L}.

Section INTERRUPT.
Context {C D L : Type} `{EqDecision C}.
Context `{SA : !SortedADT (PendingInterrupt C) PendingCompare L}.
Implicit Types s : Interrupt D L.

Definition set_level (x : IntStatus) s :=
  mkInterrupt x (pending s) (inHandler s) (yieldOnReturn s) (status s) (stats s) (machine s) (nextObj s) (dev s).
Definition set_pending (x : L) s :=
  mkInterrupt (level s) x (inHandler s) (yieldOnReturn s) (status s) (stats s) (machine s) (nextObj s) (dev s).
Definition set_inHandler (x : bool) s :=
  mkInterrupt (level s) (pending s) x (yieldOnReturn s) (status s) (stats s) (machine s) (nextObj s) (dev s).
Definition set_yieldOnReturn (x : bool) s :=
  mkInterrupt (level s) (pending s) (inHandler s) x (status s) (stats s) (machine s) (nextObj s) (dev s).
Definition set_status (x : MachineStatus) s :=
  mkInterrupt (level s) (pending s) (inHandler s) (yieldOnReturn s) x (stats s) (machine s) (nextObj s) (dev s).
Definition set_stats (x : Statistics) s :=
  mkInterrupt (level s) (pending s) (inHandler s) (yieldOnReturn s) (status s) x (machine s) (nextObj s) (dev s).
Definition set_machine (x : option Machine.Machine) s :=
  mkInterrupt (level s) (pending s) (inHandler s) (yieldOnReturn s) (status s) (stats s) x (nextObj s) (dev s).
Definition set_nextObj (x : nat) s :=
  mkInterrupt (level s) (pending s) (inHandler s) (yieldOnReturn s) (status s) (stats s) (machine s) x (dev s).
Definition set_dev (x : D) s :=
  mkInterrupt (level s) (pending s) (inHandler s) (yieldOnReturn s) (status s) (stats s) (machine s) (nextObj s) x.

Definition new_Interrupt (m : option Machine.Machine) (d : D) : Interrupt D L :=
  mkInterrupt IntOff srt_new false false SystemMode new_Statistics m O d.

Definition ChangeLevel (old now : IntStatus) s : Interrupt D L := set_level now s.

(** [new PendingInterrupt(...)]. *)
Definition new_PendingInterrupt (callOnInt : C) (time : Z) (kind : IntType) s
  : PendingInterrupt C * Interrupt D L :=
  (mkPending (nextObj s) callOnInt time kind, set_nextObj (S (nextObj s)) s).

Definition Schedule (toCall : C) (fromNow : Z) (kind : IntType) s : res (Interrupt D L) :=
  let now := totalTicks (stats s) + fromNow in
  let '(toOccur, s) := new_PendingInterrupt toCall now kind s in
  ASSERT (0 <? fromNow) ;;
  p ← srt_insert toOccur (pending s);
  Ok (set_pending p s).

Definition YieldOnReturn s : res (Interrupt D L) :=
  ASSERT (inHandler s) ;; Ok (set_yieldOnReturn true s).

(** [kernel->machine->DelayedLoad(0, 0)], when there is a machine. *)
Definition finish_load s : res (Interrupt D L) :=
  match machine s with
  | None => Ok s
  | Some m =>
    match Machine.DelayedLoad 0 0 m with
    | Machine.Ret _ m => Ok (set_machine (Some m) s)
    | Machine.Trap _ m => Ok (set_machine (Some m) s)
    | Machine.Fault e => Err e
    end
  end.

Section HANDLERS.
Context (CallBack : C → Interrupt D L → res (Interrupt D L)).

(** The [do ... while] of CheckIfDue. *)
Fixpoint fire_due (fuel : nat) s : res (list (PendingInterrupt C) * Interrupt D L) :=
  match fuel with
  | O => Err OutOfFuel
  | S fuel =>
    '(next, p) ← srt_removeFront (pending s);
    s ← CallBack (callOnInterrupt next) (set_pending p s);
    due ← (if srt_isEmpty (pending s) then Ok false
           else front ← srt_front (pending s); Ok (when front <=? totalTicks (stats s)));
    if (due : bool) then '(fired, s) ← fire_due fuel s; Ok (next :: fired, s)
    else Ok ([next], s)
  end.

(** The list is what CheckIfDue fired; it returns TRUE when it is not empty.
    [fuel] bounds the loop. *)
Definition CheckIfDue (fuel : nat) (advanceClock : bool) s
  : res (list (PendingInterrupt C) * Interrupt D L) :=
  ASSERT (bool_decide (level s = IntOff)) ;;
  if srt_isEmpty (pending s) then Ok ([], s)
  else
    next ← srt_front (pending s);
    let st := stats s in
    if (totalTicks st <? when next) && negb advanceClock then Ok ([], s)
    else
      let s := if totalTicks st <? when next
               then set_stats (ticks st (when next) (idleTicks st + (when next - totalTicks st))
                                 (systemTicks st) (userTicks st)) s
               else s in
      s ← finish_load s;
      '(fired, s) ← fire_due fuel (set_inHandler true s);
      Ok (fired, set_inHandler false s).

(** [Yield] is kernel->currentThread->Yield(). *)
Definition OneTick (Yield : Interrupt D L → res (Interrupt D L)) (fuel : nat) s : res (Interrupt D L) :=
  let oldStatus := status s in
  let st := stats s in
  let s := match status s with
           | SystemMode => set_stats (ticks st (totalTicks st + SystemTick) (idleTicks st)
                                        (systemTicks st + SystemTick) (userTicks st)) s
           | _ => set_stats (ticks st (totalTicks st + UserTick) (idleTicks st)
                               (systemTicks st) (userTicks st + UserTick)) s
           end in
  let s := ChangeLevel IntOn IntOff s in
  '(_, s) ← CheckIfDue fuel false s;
  let s := ChangeLevel IntOff IntOn s in
  if yieldOnReturn s then
    let s := set_status SystemMode (set_yieldOnReturn false s) in
    s ← Yield s;
    Ok (set_status oldStatus s)
  else Ok s.

Definition SetLevel (Yield : Interrupt D L → res (Interrupt D L)) (fuel : nat) (now : IntStatus) s
  : res (IntStatus * Interrupt D L) :=
  let old := level s in
  ASSERT (bool_decide (now = IntOff) || negb (inHandler s)) ;;
  let s := ChangeLevel old now s in
  s ← (if bool_decide (now = IntOn) && bool_decide (old = IntOff) then OneTick Yield fuel s else Ok s);
  Ok (old, s).

(** Idle returns the state to go on with, or [None] when it calls Halt, which
    never returns. *)
Definition Idle (fuel : nat) s : res (option (Interrupt D L)) :=
  let s := set_status IdleMode s in
  '(fired, s) ← CheckIfDue fuel true s;
  match fired with
  | [] => Ok None
  | _ => Ok (Some (set_status SystemMode s))
  end.
End HANDLERS.
End INTERRUPT.
End Interrupt.

Module Timer.
Import Interrupt.

(** timer.h; the object that the timer calls is the alarm. *)
Record Timer := mkTimer { randomize : bool; disable : bool }.

Section TIMER.
Context {C D L : Type} `{EqDecision C}.
Context `{SA : !SortedADT (PendingInterrupt C) PendingCompare L}.
(** Where the device state keeps the timer, the callback object of the timer,
    and the host's random number generator (a stream kept in [D]). *)
Context (timer_of : D → Timer) (set_timer : Timer → D → D) (this : C)
  (RandomNumber : D → Z * D).
Implicit Types s : Interrupt D L.

Definition SetInterrupt s : res (Interrupt D L) :=
  if negb (disable (timer_of (dev s))) then
    let '(delay, s) :=
      if randomize (timer_of (dev s)) then
        let '(r, d) := RandomNumber (dev s) in (1 + u32 r mod (TimerTicks * 2), set_dev d s)
      else (TimerTicks, s) in
    Schedule this delay TimerInt s
  else Ok s.

Definition new_Timer (doRandom : bool) s : res (Interrupt D L) :=
  SetInterrupt (set_dev (set_timer (mkTimer doRandom false) (dev s)) s).

Definition Disable s : Interrupt D L :=
  set_dev (set_timer (mkTimer (randomize (timer_of (dev s))) true) (dev s)) s.

(** alarm.cc, Alarm::CallBack. *)
Definition Alarm_CallBack s : res (Interrupt D L) :=
  match status s with
  | IdleMode => Ok s
  | _ => YieldOnReturn s
  end.

Definition CallBack s : res (Interrupt D L) :=
  s ← Alarm_CallBack s;
  SetInterrupt s.

(** alarm.cc, Alarm::Alarm. *)
Definition new_Alarm (doRandom : bool) s : res (Interrupt D L) := new_Timer doRandom s.
End TIMER.
End Timer.

Module InterruptSpec.
Import Interrupt MachineSpec.

(** The interrupts of a list that are due at time [T]. *)
Definition due {C} (T : Z) (xs : list (PendingInterrupt C)) : list (PendingInterrupt C) :=
  filter (λ x, when x ≤ T) xs.

(** Simulated time is accounted for: each tick is idle, system or user. *)
Definition clocks_ok (st : Statistics) : Prop :=
  totalTicks st = idleTicks st + systemTicks st + userTicks st.

Definition same_clocks (st st' : Statistics) : Prop :=
  totalTicks st' = totalTicks st ∧ idleTicks st' = idleTicks st
  ∧ systemTicks st' = systemTicks st ∧ userTicks st' = userTicks st.

Definition machine_ok (m : option Machine.Machine) : Prop :=
  match m with Some m => Wfx m | None => True end.

Section SPEC.
Context {C D L : Type} `{EqDecision C}.
Context `{SA : !SortedADT (PendingInterrupt C) PendingCompare L}.
Implicit Types (s : Interrupt D L) (xs : list (PendingInterrupt C)).

(** [xs] are the pending interrupts, in the order of the list. *)
Record IRep s xs : Prop := {
  ir_list : srt_rep (pending s) xs;
  ir_ids : Forall (λ x, (id x < nextObj s)%nat) xs;
  ir_machine : machine_ok (machine s)
}.

Lemma IRep_sorted s xs : IRep s xs → StronglySorted (λ x y, when x ≤ when y) xs.
Proof.
  intros [Hl _ _]. apply srt_ordered in Hl. unfold SortedSpec.Ordered in Hl.
  induction Hl as [|x xs Hs IH Hf]; constructor; [done|].
  eapply Forall_impl; [exact Hf|]. intros y. unfold SortedSpec.cmp_le, PendingCompare.
  destruct (Z.ltb_spec (when x) (when y)), (Z.ltb_spec (when y) (when x)); lia.
Qed.

Lemma due_cons_due T x xs : when x ≤ T → due T (x :: xs) = x :: due T xs.
Proof. intros. unfold due. by rewrite filter_cons_True. Qed.

(** In a sorted list nothing is due when the front is not. *)
Lemma none_due T x xs :
  StronglySorted (λ x y, when x ≤ when y) (x :: xs) → T < when x →
  Forall (λ y, T < when y) (x :: xs).
Proof.
  intros [Hf _]%StronglySorted_cons Hx. constructor; [done|].
  eapply Forall_impl; [exact Hf|]. cbn. lia.
Qed.

Lemma due_nil T xs : Forall (λ y, T < when y) xs → due T xs = [].
Proof.
  induction 1; [done|]. unfold due. rewrite filter_cons_False; [done|lia].
Qed.

Lemma due_insert T x xs :
  T < when x → due T (SortedSpec.insert_by PendingCompare Datatypes.id x xs) = due T xs.
Proof.
  intros Hx. destruct (SortedSpec.insert_by_split PendingCompare x xs) as (b&a&->&->&_).
  unfold due. rewrite !filter_app, filter_cons_False by lia. done.
Qed.

(** ** Scheduling *)

Lemma Schedule_ok s xs c fromNow kind :
  IRep s xs → 0 < fromNow →
  let x := mkPending (nextObj s) c (totalTicks (stats s) + fromNow) kind in
  ∃ p, Schedule c fromNow kind s = Ok (set_pending p (set_nextObj (S (nextObj s)) s))
    ∧ IRep (set_pending p (set_nextObj (S (nextObj s)) s))
        (SortedSpec.insert_by PendingCompare Datatypes.id x xs).
Proof.
  intros [Hl Hids Hm] Hpos x. unfold Schedule, new_PendingInterrupt.
  rewrite (proj2 (Z.ltb_lt 0 fromNow) Hpos). cbn [ASSERT mbind res_bind pending set_nextObj].
  destruct (srt_insert_ok (pending s) xs x Hl) as (p&Hp&Hrep).
  { intros Hin. apply (proj1 (Forall_forall _ _) Hids) in Hin. cbn in Hin. lia. }
  change (mkPending _ _ _ _) with x. rewrite Hp. exists p. split; [done|]. split; [done| |done].
  cbn. rewrite SortedSpec.insert_by_perm. constructor; [cbn; lia|].
  eapply Forall_impl; [exact Hids|]. cbn. lia.
Qed.

Lemma Schedule_past s c fromNow kind :
  fromNow ≤ 0 → Schedule c fromNow kind s = Err AssertFailed.
Proof. intros H0. unfold Schedule. cbn. by rewrite (proj2 (Z.ltb_ge _ _)). Qed.

(** ** The law of interrupt handlers

    A handler runs to its end, with interrupts disabled; it may schedule
    interrupts, all of them later than now, and does not move the clock. *)
Record handled s xs s' : Prop := {
  hd_rep : ∃ new xs', IRep s' xs' ∧ xs' ≡ₚ new ++ xs
      ∧ Forall (λ x, totalTicks (stats s) < when x) new
      ∧ due (totalTicks (stats s)) xs' = due (totalTicks (stats s)) xs;
  hd_clocks : same_clocks (stats s) (stats s');
  hd_level : level s' = level s;
  hd_handler : inHandler s' = inHandler s;
  hd_status : status s' = status s
}.

Class Lawful (CallBack : C → Interrupt D L → res (Interrupt D L)) := lawful :
  ∀ c s xs, IRep s xs → level s = IntOff → inHandler s = true →
    ∃ s', CallBack c s = Ok s' ∧ handled s xs s'.

Section LOOP.
Context (CallBack : C → Interrupt D L → res (Interrupt D L)) `{HL : !Lawful CallBack}.

(** What the interrupt loop does at time [T] to the pending interrupts [xs]. *)
Record fired_due (T : Z) s xs (fired : list (PendingInterrupt C)) s' : Prop := {
  fd_all : fired = due T xs;
  fd_rest : ∃ new xs', IRep s' xs' ∧ fired ++ xs' ≡ₚ new ++ xs ∧ Forall (λ x, T < when x) new
      ∧ Forall (λ x, T < when x) xs';
  fd_clocks : same_clocks (stats s) (stats s');
  fd_level : level s' = IntOff;
  fd_handler : inHandler s' = inHandler s;
  fd_status : status s' = status s
}.

Lemma fire_due_ok fuel s x xs :
  IRep s (x :: xs) → level s = IntOff → inHandler s = true →
  when x ≤ totalTicks (stats s) → (length (due (totalTicks (stats s)) xs) < fuel)%nat →
  ∃ fired s', fire_due CallBack fuel s = Ok (fired, s')
    ∧ fired_due (totalTicks (stats s)) s (x :: xs) fired s'.
Proof.
  revert s x xs. induction fuel as [|fuel IH]; intros s x xs HR Hoff Hin Hx Hf; [lia|].
  cbn [fire_due]. destruct (srt_removeFront_ok _ _ _ (ir_list _ _ HR)) as (p&->&Hp).
  cbn [mbind res_bind]. set (s1 := set_pending p s).
  assert (HR1 : IRep s1 xs).
  { split; [done| |apply HR]. pose proof (ir_ids _ _ HR) as Hids. by inversion Hids. }
  destruct (lawful (CallBack := CallBack) (callOnInterrupt x) s1 xs HR1 Hoff Hin) as (s2&->&Hh).
  cbn [mbind res_bind]. destruct Hh as [(new&xs2&HR2&HP&Hnew&Hdue) Hc Hl Hh Hst].
  change (stats s1) with (stats s) in *. set (T := totalTicks (stats s)) in *.
  destruct Hc as (Ht2&Hc). change (totalTicks (stats s2) = T) in Ht2.
  rewrite (srt_isEmpty_ok _ _ (ir_list _ _ HR2)). destruct xs2 as [|y xs2].
  - rewrite bool_decide_true by done. cbn. eexists _, _. split; [done|].
    split; [|exists new, []|by split|by rewrite Hl|by rewrite Hh|by rewrite Hst].
    + rewrite due_cons_due by done. by rewrite <- Hdue.
    + split; [done|]. split; [cbn|by split]. apply Permutation_nil_l in HP.
      symmetry in HP. apply app_eq_nil in HP as [-> ->]. done.
  - rewrite bool_decide_false by done. rewrite (srt_front_ok _ _ _ (ir_list _ _ HR2)).
    cbn [mbind res_bind]. rewrite Ht2. destruct (Z.leb_spec (when y) T) as [Hy|Hy].
    + destruct (IH s2 y xs2) as (fired&s3&->&Hfd); [done|by rewrite Hl|by rewrite Hh| | |].
      { by rewrite Ht2. }
      { rewrite Ht2. rewrite <- Hdue, due_cons_due in Hf by done. rewrite length_cons in Hf. lia. }
      cbn. eexists _, _. split; [done|]. destruct Hfd as [Hall (new'&xs3&HR3&HP3&Hn3&Hr3) Hc3 Hl3 Hh3 Hs3].
      rewrite Ht2 in *. split.
      * rewrite Hall, Hdue. by rewrite due_cons_due.
      * exists (new' ++ new), xs3. split; [done|]. split; [|split; [by apply Forall_app|done]].
        cbn. rewrite HP3, HP. solve_Permutation.
      * unfold same_clocks in *. cbn in Hc |- *. naive_solver congruence.
      * done.
      * rewrite Hh3. apply Hh.
      * rewrite Hs3. apply Hst.
    + eexists _, _. split; [done|]. pose proof (none_due T y xs2 (IRep_sorted _ _ HR2) Hy) as Hnone.
      split; [|exists new, (y :: xs2)|by split|by rewrite Hl|by rewrite Hh|by rewrite Hst].
      * rewrite due_cons_due by done. by rewrite <- Hdue, due_nil.
      * split; [done|]. split; [|by split]. cbn. rewrite HP. solve_Permutation.
Qed.

Lemma IRep_set s xs (f : Interrupt D L → Interrupt D L) :
  IRep s xs → pending (f s) = pending s → nextObj (f s) = nextObj s → machine (f s) = machine s →
  IRep (f s) xs.
Proof. intros [Hl Hi Hm] E1 E2 E3. split; [by rewrite E1|by rewrite E2|by rewrite E3]. Qed.

Lemma finish_load_ok s xs :
  IRep s xs → ∃ m, finish_load s = Ok (set_machine m s) ∧ IRep (set_machine m s) xs.
Proof.
  intros [Hl Hids Hm]. unfold finish_load. destruct (machine s) as [m|] eqn:E.
  - pose proof (post_DelayedLoad m m 0 0 (λ _ m', Ev m m') (λ _ m', Ev m m') (Ev_refl m Hm)
      ltac:(unfold Machine.NumGPRegs; lia) is_s32_0 ltac:(auto)) as HP.
    unfold post in HP. destruct (Machine.DelayedLoad 0 0 m) as [[] m'|x m'|e]; [| |done];
      destruct HP as [Hm' _]; exists (Some m'); by split.
  - exists None. split; [|by split]. f_equal. destruct s. cbn in E. by subst.
Qed.

(** The time at which CheckIfDue fires handlers. *)
Definition fire_time (advanceClock : bool) s xs : Z :=
  match xs with
  | x :: _ => if advanceClock then Z.max (totalTicks (stats s)) (when x) else totalTicks (stats s)
  | [] => totalTicks (stats s)
  end.

Record checked_due (advanceClock : bool) s xs (fired : list (PendingInterrupt C)) s' : Prop := {
  cd_all : fired = due (fire_time advanceClock s xs) xs;
  cd_rest : ∃ new xs', IRep s' xs' ∧ fired ++ xs' ≡ₚ new ++ xs
      ∧ Forall (λ x, fire_time advanceClock s xs < when x) new
      ∧ Forall (λ x, fire_time advanceClock s xs < when x) xs';
  cd_total : totalTicks (stats s') = fire_time advanceClock s xs;
  cd_idle : idleTicks (stats s') = idleTicks (stats s) + (fire_time advanceClock s xs - totalTicks (stats s));
  cd_system : systemTicks (stats s') = systemTicks (stats s);
  cd_user : userTicks (stats s') = userTicks (stats s);
  cd_level : level s' = IntOff;
  cd_handler : inHandler s = false → inHandler s' = false;
  cd_status : status s' = status s
}.

Lemma checked_nothing adv s xs :
  IRep s xs → level s = IntOff → fire_time adv s xs = totalTicks (stats s) →
  Forall (λ x, totalTicks (stats s) < when x) xs → checked_due adv s xs [] s.
Proof.
  intros HR Hoff Ht Hf. split; rewrite ?Ht; try done; try lia.
  - by rewrite due_nil.
  - exists [], xs. by split.
Qed.

Lemma due_length T xs : (length (due T xs) ≤ length xs)%nat.
Proof. apply length_filter. Qed.

Lemma CheckIfDue_ok fuel adv s xs :
  IRep s xs → level s = IntOff → (length xs ≤ fuel)%nat →
  ∃ fired s', CheckIfDue CallBack fuel adv s = Ok (fired, s') ∧ checked_due adv s xs fired s'.
Proof.
  intros HR Hoff Hfuel. unfold CheckIfDue. rewrite bool_decide_true by done. cbn [ASSERT mbind res_bind].
  rewrite (srt_isEmpty_ok _ _ (ir_list _ _ HR)). destruct xs as [|x xs].
  { rewrite bool_decide_true by done. eexists _, _. split; [done|]. by apply checked_nothing. }
  rewrite bool_decide_false, (srt_front_ok _ _ _ (ir_list _ _ HR)) by done. cbn [mbind res_bind].
  pose proof (IRep_sorted _ _ HR) as Hs. remember (fire_time adv s (x :: xs)) as T eqn:HT.
  destruct ((totalTicks (stats s) <? when x) && negb adv) eqn:E.
  { apply andb_true_iff in E as [E1%Z.ltb_lt E2%negb_true_iff]. subst adv. eexists _, _. split; [done|].
    apply checked_nothing; [done..|]. by apply none_due. }
  set (s1 := if totalTicks (stats s) <? when x then _ else s).
  assert (H1 : IRep s1 (x :: xs) ∧ level s1 = IntOff ∧ totalTicks (stats s1) = T ∧ when x ≤ T
    ∧ idleTicks (stats s1) = idleTicks (stats s) + (T - totalTicks (stats s))
    ∧ systemTicks (stats s1) = systemTicks (stats s) ∧ userTicks (stats s1) = userTicks (stats s)
    ∧ status s1 = status s ∧ inHandler s1 = inHandler s).
  { subst s1 T. cbn. destruct (Z.ltb_spec (totalTicks (stats s)) (when x)), adv; try done; cbn;
      split_and!; try done; try lia; by destruct HR. }
  clearbody s1. destruct H1 as (HR1&Hoff1&HT1&Hx&Hi1&Hsy1&Hu1&Hst1&Hh1).
  destruct (finish_load_ok s1 _ HR1) as (m&->&HR2). cbn [mbind res_bind].
  destruct (fire_due_ok fuel (set_inHandler true (set_machine m s1)) x xs)
    as (fired&s3&->&[Hall (new&xs3&HR3&HP&Hn&Hr) (Ht3&Hi3&Hsy3&Hu3) Hl3 Hh3 Hst3]).
  { by apply (IRep_set (set_machine m s1) _ (set_inHandler true)). }
  { done. } { done. } { cbn. by rewrite HT1. }
  { pose proof (due_length (totalTicks (stats s1)) xs). cbn in Hfuel |- *. lia. }
  cbn in Hall, HP, Hn, Hr, Ht3, Hi3, Hsy3, Hu3, Hst3. rewrite HT1 in *.
  cbn. eexists _, _. split; [done|]. split; rewrite <- ?HT; try done; cbn; try congruence.
  exists new, xs3. split; [|done]. by apply (IRep_set s3 _ (set_inHandler false)).
Qed.

(** ** Clock ticks *)

(** The time OneTick adds. *)
Definition tick_of (st : MachineStatus) : Z :=
  match st with SystemMode => SystemTick | _ => UserTick end.

Definition ticked s : Interrupt D L :=
  let st := stats s in
  set_level IntOff
    (match status s with
     | SystemMode => set_stats (ticks st (totalTicks st + SystemTick) (idleTicks st)
                                  (systemTicks st + SystemTick) (userTicks st)) s
     | _ => set_stats (ticks st (totalTicks st + UserTick) (idleTicks st)
                         (systemTicks st) (userTicks st + UserTick)) s
     end).

Lemma ticked_ok s xs :
  IRep s xs → IRep (ticked s) xs ∧ level (ticked s) = IntOff ∧ status (ticked s) = status s
    ∧ inHandler (ticked s) = inHandler s
    ∧ totalTicks (stats (ticked s)) = totalTicks (stats s) + tick_of (status s)
    ∧ (clocks_ok (stats s) → clocks_ok (stats (ticked s))).
Proof.
  intros HR. unfold ticked, tick_of, clocks_ok. destruct (status s) eqn:E; cbn;
    split_and!; try done; try lia; destruct HR; by split.
Qed.

(** OneTick up to the call of Yield: [yields] says whether it makes it. *)
Record ticked_due s xs (fired : list (PendingInterrupt C)) s' : Prop := {
  td_all : fired = due (totalTicks (stats s) + tick_of (status s)) xs;
  td_rest : ∃ new xs', IRep s' xs' ∧ fired ++ xs' ≡ₚ new ++ xs
      ∧ Forall (λ x, totalTicks (stats s) + tick_of (status s) < when x) new
      ∧ Forall (λ x, totalTicks (stats s) + tick_of (status s) < when x) xs';
  td_total : totalTicks (stats s') = totalTicks (stats s) + tick_of (status s);
  td_clocks : clocks_ok (stats s) → clocks_ok (stats s');
  td_level : level s' = IntOn;
  td_handler : inHandler s' = false
}.

Lemma OneTick_ok (Yield : Interrupt D L → res (Interrupt D L)) fuel s xs :
  IRep s xs → inHandler s = false → (length xs ≤ fuel)%nat →
  ∃ fired s', ticked_due s xs fired s' ∧ status s' = status s ∧
    OneTick CallBack Yield fuel s =
      if yieldOnReturn s'
      then s'' ← Yield (set_status SystemMode (set_yieldOnReturn false s')); Ok (set_status (status s) s'')
      else Ok s'.
Proof.
  intros HR Hin Hf. destruct (ticked_ok s xs HR) as (HR1&Hoff&Hst&Hh&HT&Hck).
  destruct (CheckIfDue_ok fuel false (ticked s) xs HR1 Hoff Hf) as (fired&s1&HC&Hd).
  exists fired, (ChangeLevel IntOff IntOn s1). destruct Hd as [Hall Hrest Htot Hid Hsy Hus Hl Hh1 Hst1].
  assert (Eft : fire_time false (ticked s) xs = totalTicks (stats s) + tick_of (status s))
    by (rewrite <- HT; by destruct xs).
  rewrite Eft in *. split; [split|]; cbn; try done.
  - destruct Hrest as (new&xs'&HR'&?). exists new, xs'. split; [|done].
    by apply (IRep_set s1 _ (set_level IntOn)).
  - intros Hc. specialize (Hck Hc). unfold clocks_ok in *. lia.
  - apply Hh1. by rewrite Hh.
  - split; [by rewrite Hst1|]. unfold OneTick, ChangeLevel.
    change (set_level IntOff _) with (ticked s). rewrite HC. done.
Qed.

Lemma Idle_ok fuel s xs :
  IRep s xs → level s = IntOff → (length xs ≤ fuel)%nat →
  match xs with
  | [] => Idle CallBack fuel s = Ok None
  | x :: _ => ∃ s' new xs', Idle CallBack fuel s = Ok (Some s') ∧ status s' = SystemMode
      ∧ totalTicks (stats s') = Z.max (totalTicks (stats s)) (when x)
      ∧ (clocks_ok (stats s) → clocks_ok (stats s'))
      ∧ IRep s' xs' ∧ due (totalTicks (stats s')) xs ++ xs' ≡ₚ new ++ xs
      ∧ Forall (λ y, totalTicks (stats s') < when y) (new ++ xs')
  end.
Proof.
  intros HR Hoff Hf. unfold Idle.
  destruct (CheckIfDue_ok fuel true (set_status IdleMode s) xs) as (fired&s1&->&Hd); [|done..|].
  { by apply (IRep_set s _ (set_status IdleMode)). }
  cbn [mbind res_bind]. destruct Hd as [Hall (new&xs'&HR'&HP&Hn&Hr) Htot Hid Hsy Hus Hl Hh1 Hst1].
  destruct xs as [|x xs]; [by subst fired|]. cbn [fire_time stats set_status] in *.
  destruct fired as [|f fired].
  { rewrite due_cons_due in Hall by lia. done. }
  eexists _, new, xs'. split; [done|]. cbn. rewrite Htot. split_and!; try done.
  - unfold clocks_ok. lia.
  - by apply (IRep_set s1 _ (set_status SystemMode)).
  - rewrite Hall in HP. exact HP.
  - by apply Forall_app.
Qed.
End LOOP.
End SPEC.
End InterruptSpec.

Module TimerSpec.
Import Interrupt InterruptSpec Timer.
Section SPEC.
Context {C D L : Type} `{EqDecision C}.
Context `{SA : !SortedADT (PendingInterrupt C) PendingCompare L}.
Context (timer_of : D → Timer) (this : C) (RandomNumber : D → Z * D).
Implicit Types (s : Interrupt D L) (xs : list (PendingInterrupt C)).

(** The new interrupt of a timer: after a fixed delay, or a random one. *)
Definition delay_ok (t : Timer) (d : Z) : Prop :=
  if randomize t then 1 ≤ d ≤ TimerTicks * 2 else d = TimerTicks.

Lemma SetInterrupt_ok s xs :
  IRep s xs →
  ∃ s', SetInterrupt timer_of this RandomNumber s = Ok s' ∧ handled s xs s'
    ∧ yieldOnReturn s' = yieldOnReturn s
    ∧ if disable (timer_of (dev s)) then s' = s
      else ∃ x xs', IRep s' xs' ∧ xs' ≡ₚ x :: xs ∧ callOnInterrupt x = this
             ∧ delay_ok (timer_of (dev s)) (when x - totalTicks (stats s)).
Proof.
  intros HR. unfold SetInterrupt. destruct (disable (timer_of (dev s))); cbn [negb].
  { exists s. split; [done|]. split; [|done]. split; try done. exists [], xs. by split. }
  set (r := if randomize _ then _ else _).
  assert (Hr : ∃ delay s1, r = (delay, s1) ∧ delay_ok (timer_of (dev s)) delay ∧ IRep s1 xs
    ∧ stats s1 = stats s ∧ level s1 = level s ∧ inHandler s1 = inHandler s ∧ status s1 = status s
    ∧ yieldOnReturn s1 = yieldOnReturn s).
  { subst r. unfold delay_ok. destruct (randomize (timer_of (dev s))).
    - destruct (RandomNumber (dev s)) as [v d]. eexists _, _. split; [done|].
      split_and!; try done; [| |destruct HR; by split];
        pose proof (Z.mod_pos_bound (u32 v) (TimerTicks * 2) ltac:(unfold TimerTicks; lia)); lia.
    - by eexists _, _. }
  destruct Hr as (delay&s1&->&Hd&HR1&Est&El&Eh&Es&Ey).
  assert (0 < delay) as Hpos by (unfold delay_ok, TimerTicks in Hd; case_match; lia).
  destruct (Schedule_ok s1 xs this delay TimerInt HR1 Hpos) as (p&->&HR2).
  eexists. split; [done|]. split; [split; try done|split; [done|]].
  - eexists [_], _. split; [exact HR2|]. split; [apply SortedSpec.insert_by_perm|].
    split; [repeat constructor; cbn; rewrite Est; lia|]. apply due_insert. cbn. rewrite Est. lia.
  - cbn. by rewrite Est.
  - eexists _, _. split; [exact HR2|]. split; [apply SortedSpec.insert_by_perm|]. split; [done|].
    cbn. rewrite Est. by replace (_ + delay - _) with delay by lia.
Qed.

Lemma Alarm_ok s xs :
  IRep s xs → inHandler s = true →
  ∃ s', Alarm_CallBack s = Ok s' ∧ IRep s' xs ∧ stats s' = stats s ∧ level s' = level s
    ∧ inHandler s' = inHandler s ∧ status s' = status s ∧ dev s' = dev s
    ∧ yieldOnReturn s' = yieldOnReturn s || negb (bool_decide (status s = IdleMode)).
Proof.
  intros HR Hh. unfold Alarm_CallBack, YieldOnReturn. rewrite Hh.
  destruct (status s) eqn:E; cbn [ASSERT mbind res_bind].
  - exists s. rewrite E. split_and!; try done. by rewrite orb_false_r.
  - eexists. split; [done|]. cbn. rewrite E. split_and!; try done; [by destruct HR|by rewrite orb_true_r].
  - eexists. split; [done|]. cbn. rewrite E. split_and!; try done; [by destruct HR|by rewrite orb_true_r].
Qed.

Lemma CallBack_ok s xs :
  IRep s xs → inHandler s = true →
  ∃ s', CallBack timer_of this RandomNumber s = Ok s' ∧ handled s xs s'
    ∧ yieldOnReturn s' = yieldOnReturn s || negb (bool_decide (status s = IdleMode))
    ∧ (disable (timer_of (dev s)) = false →
         ∃ x xs', IRep s' xs' ∧ xs' ≡ₚ x :: xs ∧ callOnInterrupt x = this
           ∧ delay_ok (timer_of (dev s)) (when x - totalTicks (stats s))).
Proof.
  intros HR Hh. unfold CallBack.
  destruct (Alarm_ok s xs HR Hh) as (s1&->&HR1&Est&El&Eh&Es&Ed&Ey). cbn [mbind res_bind].
  destruct (SetInterrupt_ok s1 xs HR1) as (s2&->&Hh2&Ey2&Hx). exists s2. split; [done|].
  rewrite Ed, Est in Hx. split; [|split; [by rewrite Ey2, Ey|intros Hd; by rewrite Hd in Hx]].
  destruct Hh2. rewrite Est in *. split; congruence || done.
Qed.
End SPEC.
End TimerSpec.

(** * Properties *)

Section PROPERTIES.
Import Interrupt InterruptSpec TimerSpec.
Context {C D L : Type} `{EqDecision C}.
Context `{SA : !SortedADT (PendingInterrupt C) PendingCompare L}.
Context (CallBack : C → Interrupt D L → res (Interrupt D L)) `{HL : !Lawful CallBack}.

(** C7 (termination): with interrupt handlers that schedule only future
    interrupts, CheckIfDue called with interrupts off returns after at most as
    many handler calls as there were pending interrupts; it fires exactly the
    interrupts that are due (after moving the clock to the first one, when
    asked to), in the order of their times, leaves only later ones pending and
    loses none, counts the skipped time as idle, and ends outside a handler. *)
Theorem check_if_due_fires_all_due (fuel : nat) (advanceClock : bool) (s : Interrupt D L)
    (xs : list (PendingInterrupt C)) (Hs : IRep s xs) (Hoff : level s = IntOff)
    (Hfuel : (length xs ≤ fuel)%nat) :
  ∃ fired s', Interrupt.CheckIfDue CallBack fuel advanceClock s = Ok (fired, s')
    ∧ checked_due advanceClock s xs fired s'.
Proof. by apply CheckIfDue_ok. Qed.

(** OneTick, called outside a handler, moves the clock by
    exactly one system or user tick, keeps the account total = idle + system +
    user, fires all interrupts due at the new time, re-enables interrupts, and
    then makes the interrupted thread yield, in system mode and with the old
    status restored, exactly when a handler asked for it. *)
Theorem one_tick_advances_time (Yield : Interrupt D L → res (Interrupt D L)) (fuel : nat)
    (s : Interrupt D L) (xs : list (PendingInterrupt C)) (Hs : IRep s xs)
    (Hin : inHandler s = false) (Hfuel : (length xs ≤ fuel)%nat) :
  ∃ fired s', ticked_due s xs fired s' ∧ status s' = status s ∧
    Interrupt.OneTick CallBack Yield fuel s =
      if yieldOnReturn s'
      then s'' ← Yield (set_status SystemMode (set_yieldOnReturn false s')); Ok (set_status (status s) s'')
      else Ok s'.
Proof. by apply OneTick_ok. Qed.

(** An idle machine makes progress: Idle halts only when no
    interrupt is pending; otherwise it advances the clock to the first pending
    interrupt, runs its handler and all others due then, and returns in system
    mode with only later interrupts pending. *)
Theorem idle_makes_progress (fuel : nat) (s : Interrupt D L) (xs : list (PendingInterrupt C))
    (Hs : IRep s xs) (Hoff : level s = IntOff) (Hfuel : (length xs ≤ fuel)%nat) :
  match xs with
  | [] => Interrupt.Idle CallBack fuel s = Ok None
  | x :: _ => ∃ s' new xs', Interrupt.Idle CallBack fuel s = Ok (Some s') ∧ status s' = SystemMode
      ∧ totalTicks (stats s') = Z.max (totalTicks (stats s)) (when x)
      ∧ (clocks_ok (stats s) → clocks_ok (stats s'))
      ∧ IRep s' xs' ∧ due (totalTicks (stats s')) xs ++ xs' ≡ₚ new ++ xs
      ∧ Forall (λ y, totalTicks (stats s') < when y) (new ++ xs')
  end.
Proof. by apply Idle_ok. Qed.
End PROPERTIES.

Section TIMER_PROPERTY.
Import Interrupt InterruptSpec TimerSpec.
Context {C D L : Type} `{EqDecision C}.
Context `{SA : !SortedADT (PendingInterrupt C) PendingCompare L}.
Context (timer_of : D → Timer.Timer) (this : C) (RandomNumber : D → Z * D).

(** The timer's interrupt handler obeys the law of handlers;
    it asks for a context switch exactly when the machine is not idle, and,
    unless the timer is disabled, schedules its next interrupt TimerTicks later
    or, randomised, 1 to 2*TimerTicks later. *)
Theorem timer_callback_lawful (s : Interrupt D L) (xs : list (PendingInterrupt C))
    (Hs : IRep s xs) (Hin : inHandler s = true) :
  ∃ s', Timer.CallBack timer_of this RandomNumber s = Ok s' ∧ handled s xs s'
    ∧ yieldOnReturn s' = yieldOnReturn s || negb (bool_decide (status s = IdleMode))
    ∧ (Timer.disable (timer_of (dev s)) = false →
         ∃ x xs', IRep s' xs' ∧ xs' ≡ₚ x :: xs ∧ callOnInterrupt x = this
           ∧ delay_ok (timer_of (dev s)) (when x - totalTicks (stats s))).
Proof. by apply CallBack_ok. Qed.
End TIMER_PROPERTY.

(** ** A machine with a timer as its only device *)

Definition Sim : Type := Interrupt.Interrupt Timer.Timer (NList.List (Interrupt.PendingInterrupt unit)).

Definition timer_handler (_ : unit) : Sim → res Sim :=
  Timer.CallBack (λ t, t) tt (λ t, (7, t)).

#[global] Instance timer_handler_lawful : InterruptSpec.Lawful timer_handler.
Proof.
  intros c s xs HR _ Hin.
  destruct (TimerSpec.CallBack_ok (λ t, t) tt (λ t, (7, t)) s xs HR Hin) as (s'&E&Hh&_). by exists s'.
Qed.

Definition sample_sim : Sim := Interrupt.new_Interrupt None (Timer.mkTimer false false).

Lemma sample_sim_rep : InterruptSpec.IRep sample_sim [].
Proof. split; [apply srt_new_ok|constructor|done]. Qed.

Definition sample_running : Sim :=
  match Timer.new_Timer (λ t, t) (λ t _, t) tt (λ t, (7, t)) false sample_sim with
  | Ok s => s
  | Err _ => sample_sim
  end.

Definition first_timer : Interrupt.PendingInterrupt unit := Interrupt.mkPending 0 tt 100 Interrupt.TimerInt.

Lemma sample_running_rep : InterruptSpec.IRep sample_running [first_timer].
Proof.
  destruct (InterruptSpec.Schedule_ok sample_sim [] tt 100 Interrupt.TimerInt sample_sim_rep ltac:(lia))
    as (p&E&HR).
  unfold sample_running. change (Timer.new_Timer _ _ _ _ _ _) with
    (Interrupt.Schedule tt 100 Interrupt.TimerInt sample_sim). rewrite E. exact HR.
Qed.

Lemma check_if_due_fires_all_due_witness :
  ∃ fired s', Interrupt.CheckIfDue timer_handler 1 true sample_running = Ok (fired, s')
    ∧ InterruptSpec.checked_due true sample_running [first_timer] fired s'.
Proof.
  apply (check_if_due_fires_all_due timer_handler 1 true sample_running [first_timer] sample_running_rep);
    [reflexivity|cbn; lia].
Defined.

Lemma one_tick_advances_time_witness :
  ∃ fired s', InterruptSpec.ticked_due sample_running [first_timer] fired s'
    ∧ Interrupt.status s' = Interrupt.SystemMode ∧
    Interrupt.OneTick timer_handler (λ s, Ok s) 1 sample_running =
      if Interrupt.yieldOnReturn s'
      then s'' ← Ok (Interrupt.set_status Interrupt.SystemMode (Interrupt.set_yieldOnReturn false s'));
           Ok (Interrupt.set_status Interrupt.SystemMode s'')
      else Ok s'.
Proof.
  apply (one_tick_advances_time timer_handler (λ s, Ok s) 1 sample_running [first_timer] sample_running_rep);
    [reflexivity|cbn; lia].
Defined.

Lemma idle_makes_progress_witness :
  ∃ s', Interrupt.Idle timer_handler 1 sample_running = Ok (Some s')
    ∧ Interrupt.totalTicks (Interrupt.stats s') = 100.
Proof.
  destruct (idle_makes_progress timer_handler 1 sample_running [first_timer] sample_running_rep)
    as (s'&new&xs'&E&_&Ht&_); [reflexivity|cbn; lia|].
  exists s'. split; [exact E|exact Ht].
Defined.

Lemma timer_callback_lawful_witness :
  ∃ s', timer_handler tt (Interrupt.set_inHandler true sample_running) = Ok s'
    ∧ Interrupt.yieldOnReturn s' = true.
Proof.
  destruct (timer_callback_lawful (λ t, t) tt (λ t, (7, t)) (Interrupt.set_inHandler true sample_running)
    [first_timer]) as (s'&E&_&Hy&_).
  - apply (InterruptSpec.IRep_set sample_running [first_timer] (Interrupt.set_inHandler true));
      [exact sample_running_rep|reflexivity..].
  - reflexivity.
  - exists s'. split; [exact E|]. rewrite Hy. reflexivity.
Defined.
