(* ===== verification/Disk.v ===== *)
(** machine/disk.{h,cc} and filesys/synchdisk.{h,cc}: the simulated disk.

    Module Disk holds the physical device: the UNIX file that stores it as a
    list of bytes, the requests, and the timing of seeks and rotations.
    Module DiskSpec proves the timing and the requests.  The class [SectorDisk]
    is what the synchronous disk promises to the file system: an array of
    sectors; the image of the device is its first instance.

    The UNIX calls behind Lseek, Read and WriteFile (lib/sysdep.cc) act on the
    byte list: a read beyond the end fails their assertion, a write beyond the
    end extends the file with zeros. *)

From S2P Require Import Prelude LinkedList ListADT Machine Interrupt.
Import Interrupt.

Module Disk.

Definition SectorSize : Z := 128.
Definition SectorsPerTrack : Z := 32.
Definition NumTracks : Z := 32.
Definition NumSectors : Z := SectorsPerTrack * NumTracks.

Definition MagicNumber : Z := 1164413355.
Definition MagicSize : Z := 4.
Definition DiskSize : Z := MagicSize + NumSectors * SectorSize.

Record Disk := mkDisk {
  file : list Z;          (* contents of the UNIX file *)
  active : bool;
  lastSector : Z;
  bufferInit : Z
}.

(** Lseek to [off], then Read of [n] bytes. *)
Definition file_read (f : list Z) (off n : Z) : res (list Z) :=
  ASSERT (0 <=? off) ;;
  ASSERT (off + n <=? Z.of_nat (length f)) ;;
  Ok (slice f off n).

(** Lseek to [off], then WriteFile. *)
Definition file_write (f : list Z) (off : Z) (data : list Z) : res (list Z) :=
  ASSERT (0 <=? off) ;;
  Ok (splice (f ++ replicate (Z.to_nat off + length data - length f) 0) off data).

(** The constructor: [existing] is the contents of the disk file when there is
    one. *)
Definition new_Disk (existing : option (list Z)) : res Disk :=
  f ← (match existing with
       | Some f =>
         magicNum ← file_read f 0 MagicSize;
         ASSERT (s32 (le_decode magicNum) =? MagicNumber) ;;
         Ok f
       | None =>
         f ← file_write [] 0 (le_encode 4 (u32 MagicNumber));
         file_write f (DiskSize - 4) (le_encode 4 0)
       end);
  Ok (mkDisk f false 0 0).

(** The pair (seek, rotation).  [now] is totalTicks; sums of ticks are [int]s. *)
Definition TimeToSeek (d : Disk) (now newSector : Z) : Z * Z :=
  let newTrack := Z.quot newSector SectorsPerTrack in
  let oldTrack := Z.quot (lastSector d) SectorsPerTrack in
  let seek := s32 (Z.abs (newTrack - oldTrack) * SeekTime) in
  let over := Z.rem (s32 (now + seek)) RotationTime in
  (seek, if 0 <? over then RotationTime - over else 0).

Definition ModuloDiff (to from : Z) : Z :=
  let toOffset := Z.rem to SectorsPerTrack in
  let fromOffset := Z.rem from SectorsPerTrack in
  Z.rem ((toOffset - fromOffset) + SectorsPerTrack) SectorsPerTrack.

(** The read request is served by the track buffer. *)
Definition track_buffer_hit (d : Disk) (now newSector : Z) : bool :=
  let '(seek, rotation) := TimeToSeek d now newSector in
  let timeAfter := s32 (now + seek + rotation) in
  (seek =? 0) && (ModuloDiff newSector (Z.quot (bufferInit d) RotationTime)
                  <? Z.quot (s32 (timeAfter - bufferInit d)) RotationTime).

Definition ComputeLatency (d : Disk) (now newSector : Z) (writing : bool) : Z :=
  let '(seek, rotation) := TimeToSeek d now newSector in
  let timeAfter := s32 (now + seek + rotation) in
  if negb writing && track_buffer_hit d now newSector then RotationTime
  else s32 (seek + (rotation + ModuloDiff newSector (Z.quot timeAfter RotationTime) * RotationTime) + RotationTime).

Definition UpdateLast (now newSector : Z) (d : Disk) : Disk :=
  let '(seek, rotate) := TimeToSeek d now newSector in
  mkDisk (file d) (active d) newSector
    (if negb (seek =? 0) then s32 (now + seek + rotate) else bufferInit d).

Definition set_active (a : bool) (d : Disk) : Disk := mkDisk (file d) a (lastSector d) (bufferInit d).
Definition set_file (f : list Z) (d : Disk) : Disk := mkDisk f (active d) (lastSector d) (bufferInit d).

Definition sector_ok (sectorNumber : Z) : bool := (0 <=? sectorNumber) && (sectorNumber <? NumSectors).

Section REQUESTS.
Context {C D L : Type} `{EqDecision C}.
Context `{SA : !SortedADT (PendingInterrupt C) PendingCompare L}.
(** Where the device state keeps the disk, and the disk's callback object. *)
Context (disk_of : D → Disk) (set_disk : Disk → D → D) (this : C).
Implicit Types s : Interrupt D L.

Definition upd (f : Disk → Disk) s : Interrupt D L := set_dev (set_disk (f (disk_of (dev s))) (dev s)) s.

Definition count_io (writing : bool) (st : Statistics) : Statistics :=
  mkStats (totalTicks st) (idleTicks st) (systemTicks st) (userTicks st)
    (numDiskReads st + if writing then 0 else 1) (numDiskWrites st + if writing then 1 else 0)
    (numConsoleCharsRead st) (numConsoleCharsWritten st) (numPageFaults st) (numPacketsSent st)
    (numPacketsRecvd st).

Definition ReadRequest (sectorNumber : Z) s : res (list Z * Interrupt D L) :=
  let now := totalTicks (stats s) in
  let d := disk_of (dev s) in
  let latency := ComputeLatency d now sectorNumber false in
  ASSERT (negb (active d)) ;;
  ASSERT (sector_ok sectorNumber) ;;
  data ← file_read (file d) (SectorSize * sectorNumber + MagicSize) SectorSize;
  let s := upd (set_active true) s in
  let s := upd (UpdateLast now sectorNumber) s in
  let s := set_stats (count_io false (stats s)) s in
  s ← Schedule this latency DiskInt s;
  Ok (data, s).

(** [data] is the SectorSize bytes at the pointer. *)
Definition WriteRequest (sectorNumber : Z) (data : list Z) s : res (Interrupt D L) :=
  let now := totalTicks (stats s) in
  let d := disk_of (dev s) in
  let latency := ComputeLatency d now sectorNumber true in
  ASSERT (negb (active d)) ;;
  ASSERT (sector_ok sectorNumber) ;;
  f ← file_write (file d) (SectorSize * sectorNumber + MagicSize) data;
  let s := upd (set_file f) s in
  let s := upd (set_active true) s in
  let s := upd (UpdateLast now sectorNumber) s in
  let s := set_stats (count_io true (stats s)) s in
  Schedule this latency DiskInt s.

(** [callWhenDone] is the CallBack of the synchronous disk. *)
Definition CallBack (callWhenDone : Interrupt D L → res (Interrupt D L)) s : res (Interrupt D L) :=
  callWhenDone (upd (set_active false) s).
End REQUESTS.
End Disk.

Module DiskSpec.
Import Disk InterruptSpec.

(** ** Timing *)

Definition seek_time (d : Disk) (newSector : Z) : Z :=
  Z.abs (newSector / SectorsPerTrack - lastSector d / SectorsPerTrack) * SeekTime.

(** Whatever the time is; and before the counter of ticks overflows. *)
Lemma TimeToSeek_ok d now n :
  0 ≤ n < NumSectors → 0 ≤ lastSector d < NumSectors →
  let '(seek, rotation) := TimeToSeek d now n in
  seek = seek_time d n ∧ 0 ≤ seek ≤ (NumTracks - 1) * SeekTime ∧ 0 ≤ rotation < RotationTime
  ∧ (0 ≤ now → is_s32 (now + seek) → (now + seek + rotation) mod RotationTime = 0).
Proof.
  intros Hn Hl. unfold TimeToSeek, seek_time.
  unfold NumSectors, SectorsPerTrack, NumTracks, SeekTime, RotationTime in *.
  rewrite !Z.quot_div_nonneg by lia.
  assert (0 ≤ Z.abs (n / 32 - lastSector d / 32) ≤ 31) as Hs by dlia.
  generalize dependent (Z.abs (n / 32 - lastSector d / 32)). intros k Hk.
  rewrite (s32_id (k * 500)) by (unfold_int; lia). split; [done|]. split; [lia|].
  set (over := Z.rem (s32 (now + k * 500)) 500).
  assert (Ho : over < 500) by (pose proof (Z.rem_bound_abs (s32 (now + k * 500)) 500 ltac:(lia)); lia).
  split; [destruct (Z.ltb_spec 0 over); lia|]. intros Hnow Hr. subst over. rewrite s32_id by done.
  rewrite Z.rem_mod_nonneg by lia. destruct (Z.ltb_spec 0 ((now + k * 500) mod 500)); dlia.
Qed.

Lemma ModuloDiff_range to from : 0 ≤ to → 0 ≤ ModuloDiff to from < SectorsPerTrack.
Proof.
  intros Ht. unfold ModuloDiff, SectorsPerTrack. rewrite (Z.rem_mod_nonneg to) by lia.
  pose proof (Z.rem_bound_abs from 32 ltac:(lia)). rewrite Z.rem_mod_nonneg by dlia. dlia.
Qed.

Lemma ModuloDiff_ok to from :
  0 ≤ to → 0 ≤ from → (from + ModuloDiff to from) mod SectorsPerTrack = to mod SectorsPerTrack.
Proof.
  intros Ht Hf. unfold ModuloDiff, SectorsPerTrack.
  rewrite (Z.rem_mod_nonneg to), (Z.rem_mod_nonneg from) by lia.
  rewrite Z.rem_mod_nonneg by dlia. dlia.
Qed.

Definition max_latency : Z := (NumTracks - 1) * SeekTime + SectorsPerTrack * RotationTime + RotationTime.

Ltac disk_time := unfold max_latency, NumSectors, SectorsPerTrack, NumTracks, SeekTime, RotationTime in *.

Lemma ComputeLatency_ok d now n w :
  0 ≤ n < NumSectors → 0 ≤ lastSector d < NumSectors →
  let l := ComputeLatency d now n w in
  RotationTime ≤ l < max_latency
  ∧ (0 ≤ now → now + max_latency < halfword → w = true ∨ track_buffer_hit d now n = false →
       seek_time d n + RotationTime ≤ l
       ∧ (now + l) mod RotationTime = 0
       ∧ ((now + l) / RotationTime) mod SectorsPerTrack = (n + 1) mod SectorsPerTrack)
  ∧ (w = false → track_buffer_hit d now n = true → l = RotationTime ∧ seek_time d n = 0).
Proof.
  intros Hn Hl l. subst l. pose proof (TimeToSeek_ok d now n Hn Hl) as HT.
  unfold ComputeLatency. assert (Hhit : track_buffer_hit d now n = true → (TimeToSeek d now n).1 = 0).
  { unfold track_buffer_hit. destruct (TimeToSeek d now n) as [seek rotation]. cbn. lia. }
  destruct (TimeToSeek d now n) as [seek rotation]. cbn in Hhit.
  destruct HT as (Hseek&Hsr&Hrr&Hmod). rewrite <- Hseek in *. clear Hseek Hl.
  destruct (negb w && track_buffer_hit d now n) eqn:E.
  - apply andb_true_iff in E as [E1%negb_true_iff E2]. subst w. rewrite E2.
    split; [disk_time; lia|]. split; [by intros _ _ [|]|]. intros _ _. split; [done|]. by apply Hhit.
  - set (q := Z.quot (s32 (now + seek + rotation)) RotationTime).
    pose proof (ModuloDiff_range n q ltac:(lia)) as Hm1. rewrite s32_id by (disk_time; unfold_int; lia).
    split; [disk_time; lia|]. split; [|intros -> Hh; by rewrite Hh in E].
    intros Hnow Hend _. specialize (Hmod Hnow ltac:(disk_time; unfold_int; lia)).
    assert (Hq : q = (now + seek + rotation) / RotationTime).
    { subst q. rewrite s32_id by (disk_time; unfold_int; lia). apply Z.quot_div_nonneg; disk_time; lia. }
    pose proof (ModuloDiff_ok n q ltac:(lia) ltac:(rewrite Hq; apply Z.div_pos; disk_time; lia)) as Hm2.
    rewrite Hq in *. clear Hq q. disk_time. split; [lia|]. split; dlia.
Qed.

(** ** Contents *)

Definition sector_data (b : list Z) : Prop := Z.of_nat (length b) = SectorSize ∧ Forall is_byte b.

Record DiskOk (d : Disk) : Prop := {
  dk_size : Z.of_nat (length (file d)) = DiskSize;
  dk_bytes : Forall is_byte (file d);
  dk_last : 0 ≤ lastSector d < NumSectors
}.

Definition sector (f : list Z) (n : Z) : list Z := slice f (SectorSize * n + MagicSize) SectorSize.

Ltac disk_size := unfold DiskSize, NumSectors, SectorSize, SectorsPerTrack, NumTracks, MagicSize in *; lia.

Lemma sector_ok_true n : 0 ≤ n < NumSectors → sector_ok n = true.
Proof. unfold sector_ok. intros. apply andb_true_iff. lia. Qed.

Lemma sector_ok_false n : ¬ 0 ≤ n < NumSectors → sector_ok n = false.
Proof. unfold sector_ok. intros. apply andb_false_iff. lia. Qed.

Lemma file_read_sector f n :
  Z.of_nat (length f) = DiskSize → 0 ≤ n < NumSectors →
  file_read f (SectorSize * n + MagicSize) SectorSize = Ok (sector f n).
Proof.
  intros Hl Hn. unfold file_read. rewrite (proj2 (Z.leb_le 0 _)), (proj2 (Z.leb_le _ (Z.of_nat (length f))))
    by disk_size. done.
Qed.

Lemma sector_sector_data f n :
  Z.of_nat (length f) = DiskSize → Forall is_byte f → 0 ≤ n < NumSectors → sector_data (sector f n).
Proof.
  intros Hl Hb Hn. split; [|by apply slice_Forall]. unfold sector.
  rewrite length_slice by disk_size. disk_size.
Qed.

Lemma file_write_sector f n data :
  Z.of_nat (length f) = DiskSize → Forall is_byte f → 0 ≤ n < NumSectors → sector_data data →
  ∃ f', file_write f (SectorSize * n + MagicSize) data = Ok f'
    ∧ Z.of_nat (length f') = DiskSize ∧ Forall is_byte f'
    ∧ ∀ k, 0 ≤ k < NumSectors → sector f' k = if decide (k = n) then data else sector f k.
Proof.
  intros Hl Hb Hn [Hd1 Hd2]. unfold file_write. rewrite (proj2 (Z.leb_le 0 _)) by disk_size.
  cbn [ASSERT mbind res_bind].
  replace (_ + length data - length f)%nat with 0%nat by disk_size.
  rewrite app_nil_r. eexists. split; [done|]. split; [|split].
  - rewrite length_splice by disk_size. done.
  - by apply splice_Forall.
  - intros k Hk. unfold sector. case_decide as E.
    + subst k. rewrite <- Hd1. apply slice_splice_same; disk_size.
    + apply slice_splice_disjoint; disk_size.
Qed.

Lemma UpdateLast_fields now n :
  (∀ d, file (UpdateLast now n d) = file d) ∧ (∀ d, active (UpdateLast now n d) = active d)
  ∧ ∀ d, lastSector (UpdateLast now n d) = n.
Proof. unfold UpdateLast. split_and!; intros d; by destruct (TimeToSeek d now n). Qed.

Section REQUESTS.
Context {C D L : Type} `{EqDecision C}.
Context `{SA : !SortedADT (PendingInterrupt C) PendingCompare L}.
Context (disk_of : D → Disk) (set_disk : Disk → D → D) (this : C).
Context (Hlens : ∀ d x, disk_of (set_disk d x) = d).
Implicit Types (s : Interrupt D L) (xs : list (PendingInterrupt C)).

(** The request is accepted: the disk is busy, its contents are [f], and
    exactly one interrupt is scheduled, at the time the request completes. *)
Record accepted s xs (n : Z) (writing : bool) (f : list Z) s' : Prop := {
  ac_file : file (disk_of (dev s')) = f;
  ac_active : active (disk_of (dev s')) = true;
  ac_last : lastSector (disk_of (dev s')) = n;
  ac_time : totalTicks (stats s') = totalTicks (stats s);
  ac_rep : IRep s' (SortedSpec.insert_by PendingCompare Datatypes.id
    (mkPending (nextObj s) this
      (totalTicks (stats s) + ComputeLatency (disk_of (dev s)) (totalTicks (stats s)) n writing) DiskInt) xs)
}.

Lemma accept s s1 xs n w f :
  IRep s xs → 0 ≤ totalTicks (stats s) → 0 ≤ n < NumSectors → 0 ≤ lastSector (disk_of (dev s)) < NumSectors →
  pending s1 = pending s → nextObj s1 = nextObj s → machine s1 = machine s →
  totalTicks (stats s1) = totalTicks (stats s) →
  file (disk_of (dev s1)) = f → active (disk_of (dev s1)) = true → lastSector (disk_of (dev s1)) = n →
  ∃ s', Schedule this (ComputeLatency (disk_of (dev s)) (totalTicks (stats s)) n w) DiskInt s1 = Ok s'
    ∧ accepted s xs n w f s'.
Proof.
  intros HR Hnow Hn Hlast E1 E2 E3 E4 E5 E6 E7.
  destruct (ComputeLatency_ok (disk_of (dev s)) (totalTicks (stats s)) n w Hn Hlast) as [Hlat _].
  destruct (Schedule_ok s1 xs this (ComputeLatency (disk_of (dev s)) (totalTicks (stats s)) n w) DiskInt)
    as (p&->&HR').
  - destruct HR as [Hl Hi Hm]. split; [by rewrite E1|by rewrite E2|by rewrite E3].
  - unfold RotationTime in Hlat. lia.
  - eexists. split; [done|]. split; try done. set (lat := ComputeLatency _ _ _ _) in *.
    assert (mkPending (nextObj s) this (totalTicks (stats s) + lat) DiskInt
      = mkPending (nextObj s1) this (totalTicks (stats s1) + lat) DiskInt) as -> by (by rewrite E2, E4).
    exact HR'.
Qed.

Lemma ReadRequest_ok s xs n :
  IRep s xs → 0 ≤ totalTicks (stats s) → DiskOk (disk_of (dev s)) → active (disk_of (dev s)) = false →
  0 ≤ n < NumSectors →
  ∃ s', ReadRequest disk_of set_disk this n s = Ok (sector (file (disk_of (dev s))) n, s')
    ∧ accepted s xs n false (file (disk_of (dev s))) s'.
Proof.
  intros HR Hnow [Hsz Hb Hl] Hact Hn. unfold ReadRequest. rewrite Hact, sector_ok_true by done.
  cbn [ASSERT negb mbind res_bind]. rewrite file_read_sector by done. cbn [mbind res_bind].
  set (s1 := set_stats _ _).
  destruct (accept s s1 xs n false (file (disk_of (dev s)))) as (s'&->&Ha); try done.
  all: try by exists s'.
  all: subst s1; cbn; rewrite ?Hlens; destruct (UpdateLast_fields (totalTicks (stats s)) n) as (E1&E2&E3);
    by rewrite ?E1, ?E2, ?E3, ?Hlens.
Qed.

Lemma WriteRequest_ok s xs n data :
  IRep s xs → 0 ≤ totalTicks (stats s) → DiskOk (disk_of (dev s)) → active (disk_of (dev s)) = false →
  0 ≤ n < NumSectors → sector_data data →
  ∃ f s', WriteRequest disk_of set_disk this n data s = Ok s' ∧ accepted s xs n true f s'
    ∧ Z.of_nat (length f) = DiskSize ∧ Forall is_byte f
    ∧ ∀ k, 0 ≤ k < NumSectors →
        sector f k = if decide (k = n) then data else sector (file (disk_of (dev s))) k.
Proof.
  intros HR Hnow [Hsz Hb Hl] Hact Hn Hdata. unfold WriteRequest. rewrite Hact, sector_ok_true by done.
  cbn [ASSERT negb mbind res_bind].
  destruct (file_write_sector _ n data Hsz Hb Hn Hdata) as (f&->&Hf1&Hf2&Hf3). cbn [mbind res_bind].
  set (s1 := set_stats _ _).
  destruct (accept s s1 xs n true f) as (s'&->&Ha); try done.
  all: try by exists f, s'.
  all: subst s1; cbn; rewrite ?Hlens; destruct (UpdateLast_fields (totalTicks (stats s)) n) as (E1&E2&E3);
    by rewrite ?E1, ?E2, ?E3, ?Hlens.
Qed.

Lemma request_refused s n data :
  active (disk_of (dev s)) = true ∨ ¬ 0 ≤ n < NumSectors →
  ReadRequest disk_of set_disk this n s = Err AssertFailed
  ∧ WriteRequest disk_of set_disk this n data s = Err AssertFailed.
Proof.
  intros Hbad. unfold ReadRequest, WriteRequest. destruct (active (disk_of (dev s))) eqn:E; [done|].
  destruct Hbad as [|Hn]; [done|]. by rewrite sector_ok_false.
Qed.
End REQUESTS.
End DiskSpec.

(** * What the synchronous disk promises *)

Class SectorDisk (S : Type) := {
  ReadSector : Z → S → res (list Z * S);
  WriteSector : Z → list Z → S → res S;
  sec_rep : S → list (list Z) → Prop;
  sec_shape s ds : sec_rep s ds →
    Z.of_nat (length ds) = Disk.NumSectors ∧ Forall DiskSpec.sector_data ds;
  sec_read s ds n b : sec_rep s ds → 0 ≤ n → ds !! Z.to_nat n = Some b →
    ∃ s', ReadSector n s = Ok (b, s') ∧ sec_rep s' ds;
  sec_write s ds n b : sec_rep s ds → 0 ≤ n < Disk.NumSectors → DiskSpec.sector_data b →
    ∃ s', WriteSector n b s = Ok s' ∧ sec_rep s' (<[Z.to_nat n := b]> ds);
  sec_bad s n b : ¬ 0 ≤ n < Disk.NumSectors →
    ReadSector n s = Err AssertFailed ∧ WriteSector n b s = Err AssertFailed
}.

(** The contents of the device behind an idle synchronous disk: a request is
    made, and the caller goes on when it has completed. *)
Definition sectors_of (f : list Z) : list (list Z) :=
  (λ n, DiskSpec.sector f (Z.of_nat n)) <$> seq 0 (Z.to_nat Disk.NumSectors).

Lemma sectors_lookup f n :
  0 ≤ n < Disk.NumSectors → sectors_of f !! Z.to_nat n = Some (DiskSpec.sector f n).
Proof.
  intros Hn. unfold sectors_of. rewrite list_lookup_fmap, lookup_seq_lt by lia. cbn. by rewrite Z2Nat.id by lia.
Qed.

Lemma length_sectors_of f : Z.of_nat (length (sectors_of f)) = Disk.NumSectors.
Proof. unfold sectors_of. rewrite length_fmap, length_seq. done. Qed.

Lemma sectors_of_write f f' n b :
  0 ≤ n < Disk.NumSectors → (∀ k, 0 ≤ k < Disk.NumSectors → DiskSpec.sector f' k = if decide (k = n) then b else DiskSpec.sector f k) →
  sectors_of f' = <[Z.to_nat n := b]> (sectors_of f).
Proof.
  intros Hn Hs. apply list_eq. intros i.
  destruct (decide (Z.of_nat i < Disk.NumSectors)) as [Hi|Hi].
  - rewrite <- (Nat2Z.id i), (sectors_lookup f' (Z.of_nat i)), Hs by lia. case_decide as E.
    + subst n. rewrite !Nat2Z.id. symmetry. apply list_lookup_insert_eq. pose proof (length_sectors_of f). lia.
    + rewrite list_lookup_insert_ne by lia. by rewrite sectors_lookup by lia.
  - rewrite !lookup_ge_None_2; [done| |]; rewrite ?length_insert; pose proof (length_sectors_of f);
      pose proof (length_sectors_of f'); lia.
Qed.

#[global] Program Instance image_disk : SectorDisk (list Z) := {
  ReadSector n f :=
    ASSERT (Disk.sector_ok n) ;;
    data ← Disk.file_read f (Disk.SectorSize * n + Disk.MagicSize) Disk.SectorSize;
    Ok (data, f);
  WriteSector n b f :=
    ASSERT (Disk.sector_ok n) ;;
    Disk.file_write f (Disk.SectorSize * n + Disk.MagicSize) b;
  sec_rep f ds := Z.of_nat (length f) = Disk.DiskSize ∧ Forall is_byte f ∧ ds = sectors_of f
}.
Next Obligation.
  intros f ds (Hl&Hb&->). split; [apply length_sectors_of|]. apply Forall_fmap, Forall_forall.
  intros n Hn%elem_of_seq. apply DiskSpec.sector_sector_data; [done..|]. lia.
Qed.
Next Obligation.
  intros f ds n b (Hl&Hb&->) Hn Hlk. pose proof (lookup_lt_Some _ _ _ Hlk) as Hlt.
  pose proof (length_sectors_of f). assert (0 ≤ n < Disk.NumSectors) as Hr by lia.
  rewrite (sectors_lookup f n Hr) in Hlk. injection Hlk as <-.
  exists f. rewrite DiskSpec.sector_ok_true by done. cbn [ASSERT mbind res_bind].
  by rewrite DiskSpec.file_read_sector.
Qed.
Next Obligation.
  intros f ds n b (Hl&Hb&->) Hn Hdata. rewrite DiskSpec.sector_ok_true by done. cbn [ASSERT mbind res_bind].
  destruct (DiskSpec.file_write_sector f n b Hl Hb Hn Hdata) as (f'&->&Hl'&Hb'&Hs).
  exists f'. split; [done|]. split; [done|]. split; [done|]. symmetry. by apply sectors_of_write.
Qed.
Next Obligation. intros f n b Hn. cbv beta. by rewrite DiskSpec.sector_ok_false. Qed.

(** C8 (bounds): whatever the time is, the latency of a request is at least one
    sector time and at most a full seek plus a rotation, and a track buffer hit
    needs no seek and takes one sector time.  As long as the time at which the
    request can end at the latest is an [int], a request that is not served by the
    track buffer completes, after the seek, at the moment the end of its sector
    passes the head: the completion time is a sector boundary, and the sector
    boundary just behind the requested sector. *)
Theorem disk_latency_correct (d : Disk.Disk) (now n : Z) (writing : bool)
    (Hn : 0 ≤ n < Disk.NumSectors) (Hlast : 0 ≤ Disk.lastSector d < Disk.NumSectors) :
  let l := Disk.ComputeLatency d now n writing in
  RotationTime ≤ l < DiskSpec.max_latency
  ∧ (0 ≤ now → now + DiskSpec.max_latency < halfword → writing = true ∨ Disk.track_buffer_hit d now n = false →
       DiskSpec.seek_time d n + RotationTime ≤ l
       ∧ (now + l) mod RotationTime = 0
       ∧ ((now + l) / RotationTime) mod Disk.SectorsPerTrack = (n + 1) mod Disk.SectorsPerTrack)
  ∧ (writing = false → Disk.track_buffer_hit d now n = true → l = RotationTime ∧ DiskSpec.seek_time d n = 0).
Proof. by apply DiskSpec.ComputeLatency_ok. Qed.

(** Behind the end of the range of [int] a request ends in the middle of a sector. *)
Example latency_overflow :
  (2147483647 + Disk.ComputeLatency (Disk.mkDisk [] false 0 0) 2147483647 40 true) mod RotationTime = 147.
Proof. vm_compute. reflexivity. Qed.

Section PROPERTIES.
Import InterruptSpec.
Context {C D L : Type} `{EqDecision C}.
Context `{SA : !SortedADT (PendingInterrupt C) PendingCompare L}.
Context (disk_of : D → Disk.Disk) (set_disk : Disk.Disk → D → D) (this : C).
Context (Hlens : ∀ d x, disk_of (set_disk d x) = d).

(** A disk that is not busy accepts a request for a sector of
    the disk: WriteRequest replaces exactly that sector by the data,
    ReadRequest returns that sector and changes no data; both make the disk
    busy and schedule exactly one interrupt, in the future, at the time the
    latency says.  A busy disk, or a sector number off the disk, fails the
    assertions. *)
Theorem disk_requests_correct (s : Interrupt D L) (xs : list (PendingInterrupt C)) (n : Z) (data : list Z)
    (Hs : IRep s xs) (Hnow : 0 ≤ totalTicks (stats s)) (Hd : DiskSpec.DiskOk (disk_of (dev s)))
    (Hdata : DiskSpec.sector_data data) :
  let f := Disk.file (disk_of (dev s)) in
  if negb (Disk.active (disk_of (dev s))) && Disk.sector_ok n then
    (∃ s', Disk.ReadRequest disk_of set_disk this n s = Ok (DiskSpec.sector f n, s')
       ∧ DiskSpec.accepted disk_of this s xs n false f s')
    ∧ (∃ f' s', Disk.WriteRequest disk_of set_disk this n data s = Ok s'
       ∧ DiskSpec.accepted disk_of this s xs n true f' s'
       ∧ ∀ k, 0 ≤ k < Disk.NumSectors →
           DiskSpec.sector f' k = if decide (k = n) then data else DiskSpec.sector f k)
  else Disk.ReadRequest disk_of set_disk this n s = Err AssertFailed
       ∧ Disk.WriteRequest disk_of set_disk this n data s = Err AssertFailed.
Proof.
  intros f. destruct (negb (Disk.active (disk_of (dev s))) && Disk.sector_ok n) eqn:E.
  - apply andb_true_iff in E as [E1%negb_true_iff E2].
    assert (Hn : 0 ≤ n < Disk.NumSectors) by (unfold Disk.sector_ok in E2; lia). split.
    + by apply DiskSpec.ReadRequest_ok.
    + destruct (DiskSpec.WriteRequest_ok disk_of set_disk this Hlens s xs n data) as (f'&s'&?&?&_&_&?);
        [done..|]. by exists f', s'.
  - apply DiskSpec.request_refused. apply andb_false_iff in E as [E%negb_false_iff|E]; [by left|].
    right. unfold Disk.sector_ok in E. lia.
Qed.
End PROPERTIES.

Lemma disk_latency_correct_witness :
  let l := Disk.ComputeLatency (Disk.mkDisk [] false 0 0) 10 40 true in
  (10 + l) mod RotationTime = 0 ∧ ((10 + l) / RotationTime) mod Disk.SectorsPerTrack = 9.
Proof.
  destruct (disk_latency_correct (Disk.mkDisk [] false 0 0) 10 40 true) as (_&H&_).
  - vm_compute; split; [discriminate|reflexivity].
  - vm_compute; split; [discriminate|reflexivity].
  - exact (proj2 (H ltac:(lia) ltac:(vm_compute; reflexivity) (or_introl eq_refl))).
Defined.

Definition blank_disk : Disk.Disk := Disk.mkDisk (replicate (Z.to_nat Disk.DiskSize) 0) false 0 0.

Lemma blank_disk_ok : DiskSpec.DiskOk blank_disk.
Proof.
  split; cbn [Disk.file Disk.lastSector blank_disk].
  - rewrite length_replicate. apply Z2Nat.id. by vm_compute.
  - apply Forall_replicate. unfold_int. lia.
  - by vm_compute.
Qed.

Definition blank_sim : Interrupt Disk.Disk (NList.List (PendingInterrupt unit)) :=
  new_Interrupt None blank_disk.

Lemma disk_requests_correct_witness :
  ∃ s', Disk.ReadRequest (λ d, d) (λ d _, d) tt 5 blank_sim
    = Ok (DiskSpec.sector (Disk.file blank_disk) 5, s').
Proof.
  destruct (disk_requests_correct (λ d, d) (λ d _, d) tt (λ _ _, eq_refl) blank_sim [] 5
    (replicate 128 0)) as [(s'&E&_) _].
  - split; [apply srt_new_ok|constructor|exact I].
  - cbn. lia.
  - exact blank_disk_ok.
  - split; [reflexivity|apply Forall_replicate; unfold_int; lia].
  - exists s'. exact E.
Defined.
