(* ===== verification/FileIO.v ===== *)
(** filesys/filehdr.{h,cc} and filesys/openfile.{h,cc} (the version that is
    compiled without FILESYS_STUB): file headers and byte access to files.

    Module FileHeader holds the header, its image on disk and its operations;
    Module OpenFile reading and writing; Module FileSpec the contents of a file
    as a byte list and the laws of the operations.  The disk is used through
    the interface SectorDisk, the map of free sectors is the bitmap of
    BitmapLib.v.

    A new buffer has indeterminate contents: [fresh n] are the bytes of a
    buffer of [n] bytes. *)

From S2P Require Import Prelude BitmapLib Interrupt Disk.
Import Disk.

Module FileHeader.

Definition NumDirect : Z := Z.quot (SectorSize - 2 * 4) 4.
Definition MaxFileSize : Z := NumDirect * SectorSize.

Record FileHeader := mkHeader { numBytes : Z; numSectors : Z; dataSectors : list Z }.

(** The object as the bytes of a sector. *)
Definition encode (h : FileHeader) : list Z :=
  words_encode (numBytes h :: numSectors h :: dataSectors h).

Definition decode (b : list Z) : FileHeader :=
  match words_decode (Z.to_nat (NumDirect + 2)) b with
  | nb :: ns :: ds => mkHeader nb ns ds
  | _ => mkHeader 0 0 []
  end.

(** The loop of Allocate, from index [i] for [k] iterations. *)
Fixpoint Allocate_loop (k : nat) (i : Z) (ds : list Z) (freeMap : Bitmap.Bitmap)
  : res (list Z * Bitmap.Bitmap) :=
  match k with
  | O => Ok (ds, freeMap)
  | S k =>
    '(sec, freeMap) ← Bitmap.FindAndSet freeMap;
    ds ← aset ds i sec;
    ASSERT (0 <=? sec) ;;
    Allocate_loop k (i + 1) ds freeMap
  end.

Definition Allocate (h : FileHeader) (freeMap : Bitmap.Bitmap) (fileSize : Z)
  : res (bool * FileHeader * Bitmap.Bitmap) :=
  let n := divRoundUp fileSize SectorSize in
  clear ← Bitmap.NumClear freeMap;
  if clear <? n then Ok (false, mkHeader fileSize n (dataSectors h), freeMap)
  else
    '(ds, freeMap) ← Allocate_loop (Z.to_nat n) 0 (dataSectors h) freeMap;
    Ok (true, mkHeader fileSize n ds, freeMap).

Definition Deallocate (h : FileHeader) (freeMap : Bitmap.Bitmap) : res Bitmap.Bitmap :=
  for_up (Z.to_nat (numSectors h)) 0 (λ i freeMap,
    sec ← aget (dataSectors h) i;
    used ← Bitmap.Test freeMap sec;
    ASSERT used ;;
    Bitmap.Clear sec freeMap) freeMap.

Definition ByteToSector (h : FileHeader) (offset : Z) : res Z :=
  aget (dataSectors h) (Z.quot offset SectorSize).

Definition FileLength (h : FileHeader) : Z := numBytes h.

Section DISK.
Context {S : Type} `{SectorDisk S}.

Definition FetchFrom (sector : Z) (s : S) : res (FileHeader * S) :=
  '(b, s) ← ReadSector sector s; Ok (decode b, s).

Definition WriteBack (h : FileHeader) (sector : Z) (s : S) : res S :=
  WriteSector sector (encode h) s.
End DISK.
End FileHeader.

Module OpenFile.
Import FileHeader.

Record OpenFile := mkOpenFile { hdr : FileHeader; seekPosition : Z }.

Definition set_position (p : Z) (f : OpenFile) : OpenFile := mkOpenFile (hdr f) p.

(** [bcopy] out of and into a buffer. *)
Definition copy_out (buf : list Z) (off n : Z) : res (list Z) :=
  if (0 <=? off) && (0 <=? n) && (off + n <=? Z.of_nat (length buf)) then Ok (slice buf off n)
  else Err BadAccess.

Definition copy_in (buf : list Z) (off : Z) (data : list Z) : res (list Z) :=
  if (0 <=? off) && (off + Z.of_nat (length data) <=? Z.of_nat (length buf)) then Ok (splice buf off data)
  else Err BadAccess.

Section DISK.
Context {S : Type} `{SectorDisk S} (fresh : nat → list Z).

Definition new_buffer (size : Z) : res (list Z) :=
  if size <? 0 then Err BadAccess else Ok (fresh (Z.to_nat size)).

Definition new_OpenFile (sector : Z) (s : S) : res (OpenFile * S) :=
  '(h, s) ← FetchFrom sector s; Ok (mkOpenFile h 0, s).

Definition Seek (position : Z) (f : OpenFile) : OpenFile := set_position position f.

Definition Length (f : OpenFile) : Z := FileLength (hdr f).

(** The bytes read; their number is the result. *)
Definition ReadAt (f : OpenFile) (numBytes position : Z) (s : S) : res (list Z * S) :=
  let fileLength := FileLength (hdr f) in
  if (numBytes <=? 0) || (fileLength <=? position) then Ok ([], s)
  else
    let numBytes := if fileLength <? s32 (position + numBytes) then fileLength - position else numBytes in
    let firstSector := divRoundDown position SectorSize in
    let lastSector := divRoundDown (position + numBytes - 1) SectorSize in
    let numSectors := 1 + lastSector - firstSector in
    buf ← new_buffer (numSectors * SectorSize);
    '(buf, s) ← for_up (Z.to_nat numSectors) firstSector (λ i '(buf, s),
      sec ← ByteToSector (hdr f) (i * SectorSize);
      '(data, s) ← ReadSector sec s;
      buf ← copy_in buf ((i - firstSector) * SectorSize) data;
      Ok (buf, s)) (buf, s);
    data ← copy_out buf (position - firstSector * SectorSize) numBytes;
    Ok (data, s).

(** [from] are the bytes behind the pointer; the number of bytes written. *)
Definition WriteAt (f : OpenFile) (from : list Z) (numBytes position : Z) (s : S) : res (Z * S) :=
  let fileLength := FileLength (hdr f) in
  if (numBytes <=? 0) || (fileLength <=? position) then Ok (0, s)
  else
    let numBytes := if fileLength <? s32 (position + numBytes) then fileLength - position else numBytes in
    let firstSector := divRoundDown position SectorSize in
    let lastSector := divRoundDown (position + numBytes - 1) SectorSize in
    let numSectors := 1 + lastSector - firstSector in
    buf ← new_buffer (numSectors * SectorSize);
    let firstAligned := position =? firstSector * SectorSize in
    let lastAligned := position + numBytes =? (lastSector + 1) * SectorSize in
    '(buf, s) ← (if negb firstAligned then
        '(d, s) ← ReadAt f SectorSize (firstSector * SectorSize) s;
        buf ← copy_in buf 0 d; Ok (buf, s)
      else Ok (buf, s));
    '(buf, s) ← (if negb lastAligned && (negb (firstSector =? lastSector) || firstAligned) then
        '(d, s) ← ReadAt f SectorSize (lastSector * SectorSize) s;
        buf ← copy_in buf ((lastSector - firstSector) * SectorSize) d; Ok (buf, s)
      else Ok (buf, s));
    d ← copy_out from 0 numBytes;
    buf ← copy_in buf (position - firstSector * SectorSize) d;
    s ← for_up (Z.to_nat numSectors) firstSector (λ i s,
      sec ← ByteToSector (hdr f) (i * SectorSize);
      b ← copy_out buf ((i - firstSector) * SectorSize) SectorSize;
      WriteSector sec b s) s;
    Ok (numBytes, s).

Definition Read (f : OpenFile) (numBytes : Z) (s : S) : res (list Z * OpenFile * S) :=
  '(d, s) ← ReadAt f numBytes (seekPosition f) s;
  Ok (d, set_position (seekPosition f + Z.of_nat (length d)) f, s).

Definition Write (f : OpenFile) (from : list Z) (numBytes : Z) (s : S) : res (Z * OpenFile * S) :=
  '(n, s) ← WriteAt f from numBytes (seekPosition f) s;
  Ok (n, set_position (seekPosition f + n) f, s).
End DISK.
End OpenFile.

Module FileSpec.
Import FileHeader OpenFile DiskSpec.

(** ** Headers *)

Record HdrOk (h : FileHeader) : Prop := {
  ho_bytes : 0 ≤ numBytes h;
  ho_sectors : numSectors h = divRoundUp (numBytes h) SectorSize;
  ho_max : numSectors h ≤ NumDirect;
  ho_len : Z.of_nat (length (dataSectors h)) = NumDirect;
  ho_s32 : Forall is_s32 (dataSectors h);
  ho_range : Forall (λ n, 0 ≤ n < NumSectors) (take (Z.to_nat (numSectors h)) (dataSectors h));
  ho_nodup : NoDup (take (Z.to_nat (numSectors h)) (dataSectors h))
}.

(** The data sectors in use. *)
Definition blocks (h : FileHeader) : list Z := take (Z.to_nat (numSectors h)) (dataSectors h).

Lemma NumDirect_val : NumDirect = 30.
Proof. reflexivity. Qed.

Lemma length_blocks h : HdrOk h → Z.of_nat (length (blocks h)) = numSectors h.
Proof.
  intros [H1 H2 H3 H4 _ _ _]. unfold blocks. rewrite length_take.
  pose proof (divRoundUp_nonneg (numBytes h) SectorSize H1 ltac:(done)). lia.
Qed.

Lemma HdrOk_size h : HdrOk h → numBytes h ≤ numSectors h * SectorSize.
Proof.
  intros [H1 H2 _ _ _ _ _]. pose proof (divRoundUp_spec (numBytes h) SectorSize H1 ltac:(done)).
  unfold SectorSize in *. lia.
Qed.

Lemma HdrOk_tight h : HdrOk h → numSectors h * SectorSize < numBytes h + SectorSize.
Proof.
  intros [H1 H2 _ _ _ _ _]. pose proof (divRoundUp_spec (numBytes h) SectorSize H1 ltac:(done)).
  unfold SectorSize in *. lia.
Qed.

Lemma HdrOk_fits h : HdrOk h → numBytes h ≤ MaxFileSize.
Proof.
  intros Hh. pose proof (HdrOk_size h Hh). pose proof (ho_max _ Hh). unfold MaxFileSize, SectorSize in *. lia.
Qed.

Lemma encode_sector h : HdrOk h → sector_data (encode h).
Proof.
  intros Hh. pose proof (ho_len _ Hh) as Hl. rewrite NumDirect_val in Hl.
  split; [|apply words_encode_bytes]. unfold encode. rewrite length_words_encode. cbn.
  unfold SectorSize. lia.
Qed.

Lemma decode_encode h : HdrOk h → decode (encode h) = h.
Proof.
  intros Hh. pose proof (ho_len _ Hh) as Hl. rewrite NumDirect_val in Hl.
  pose proof (HdrOk_size h Hh). pose proof (ho_max _ Hh) as Hm. rewrite NumDirect_val in Hm.
  pose proof (ho_bytes _ Hh). pose proof (HdrOk_tight h Hh).
  unfold decode, encode. rewrite NumDirect_val.
  pose proof (words_decode_encode (numBytes h :: numSectors h :: dataSectors h) []) as E.
  rewrite app_nil_r in E. replace (length _) with (Z.to_nat (30 + 2)) in E by (cbn; lia).
  rewrite E; [by destruct h|]. unfold SectorSize in *.
  constructor; [unfold_int; lia|]. constructor; [unfold_int; lia|]. apply Hh.
Qed.

(** ** The contents of a file *)

(** The blocks of the file, in order, on the sector array [ds]. *)
Definition chunks (h : FileHeader) (ds : list (list Z)) : list (list Z) :=
  (λ n, ds !!! Z.to_nat n) <$> blocks h.

Definition content (h : FileHeader) (ds : list (list Z)) : list Z := concat (chunks h ds).
Definition data (h : FileHeader) (ds : list (list Z)) : list Z := take (Z.to_nat (numBytes h)) (content h ds).

Definition disk_shape (ds : list (list Z)) : Prop :=
  Z.of_nat (length ds) = NumSectors ∧ Forall sector_data ds.

Lemma block_range h (i : nat) n : HdrOk h → blocks h !! i = Some n → 0 ≤ n < NumSectors.
Proof. intros Hh Hi. exact (proj1 (Forall_lookup _ _) (ho_range _ Hh) _ _ Hi). Qed.

Lemma disk_lookup ds n :
  disk_shape ds → 0 ≤ n < NumSectors → ds !! Z.to_nat n = Some (ds !!! Z.to_nat n) ∧ sector_data (ds !!! Z.to_nat n).
Proof.
  intros [Hl Hd] Hn. destruct (lookup_lt_is_Some_2 ds (Z.to_nat n)) as [b Hb]; [lia|].
  rewrite (list_lookup_total_correct _ _ _ Hb). split; [done|].
  exact (proj1 (Forall_lookup _ _) Hd _ _ Hb).
Qed.

Lemma chunks_sector_data h ds : HdrOk h → disk_shape ds → Forall sector_data (chunks h ds).
Proof.
  intros Hh Hd. apply Forall_lookup. intros i b. unfold chunks. rewrite list_lookup_fmap.
  destruct (blocks h !! i) as [n|] eqn:E; [|done]. intros [= <-].
  apply disk_lookup; [done|]. by eapply block_range.
Qed.

Lemma concat_lookup (xss : list (list Z)) (p : nat) :
  Forall (λ b, length b = 128%nat) xss →
  concat xss !! p = xss !! (p `div` 128)%nat ≫= λ b, b !! (p `mod` 128)%nat.
Proof.
  intros HF. revert p. induction HF as [|b xss Hb _ IH]; intros p; [done|]. cbn [concat].
  destruct (decide (p < 128)%nat) as [Hlt|Hge].
  - rewrite lookup_app_l by lia. by rewrite Nat.div_small, Nat.mod_small by done.
  - rewrite lookup_app_r by lia. rewrite Hb, IH.
    destruct (Nat.le_exists_sub 128 p) as (q&->&_); [lia|].
    replace (q + 128 - 128)%nat with q by lia. replace (q + 128)%nat with (q + 1 * 128)%nat by lia.
    rewrite Nat.div_add, Nat.Div0.mod_add by lia. by rewrite Nat.add_1_r.
Qed.

Lemma sector_lengths (xss : list (list Z)) : Forall sector_data xss → Forall (λ b, length b = 128%nat) xss.
Proof. intros HF. eapply Forall_impl; [exact HF|]. intros b [Hb _]. unfold SectorSize in Hb. lia. Qed.

Lemma length_content h ds :
  HdrOk h → disk_shape ds → Z.of_nat (length (content h ds)) = numSectors h * SectorSize.
Proof.
  intros Hh Hd. unfold content. pose proof (sector_lengths _ (chunks_sector_data h ds Hh Hd)) as HF.
  assert (length (concat (chunks h ds)) = (length (chunks h ds) * 128)%nat) as ->.
  { induction HF as [|b xss Hb _ IH]; [done|]. cbn. rewrite length_app, IH, Hb. lia. }
  unfold chunks. rewrite length_fmap. pose proof (length_blocks h Hh). unfold SectorSize. lia.
Qed.

Lemma length_data h ds : HdrOk h → disk_shape ds → Z.of_nat (length (data h ds)) = numBytes h.
Proof.
  intros Hh Hd. unfold data. rewrite length_take.
  pose proof (length_content h ds Hh Hd). pose proof (HdrOk_size h Hh). pose proof (ho_bytes _ Hh). lia.
Qed.

(** The byte at offset [k * SectorSize + j]. *)
Lemma content_byte h ds (k : Z) (j : nat) n :
  HdrOk h → disk_shape ds → 0 ≤ k → blocks h !! Z.to_nat k = Some n → (j < 128)%nat →
  content h ds !! (Z.to_nat (k * SectorSize) + j)%nat = (ds !!! Z.to_nat n) !! j.
Proof.
  intros Hh Hd Hk Hn Hj. unfold content.
  rewrite concat_lookup by (by apply sector_lengths, chunks_sector_data).
  replace (Z.to_nat (k * SectorSize) + j)%nat with (j + Z.to_nat k * 128)%nat by (unfold SectorSize; lia).
  rewrite Nat.div_add, Nat.Div0.mod_add, Nat.div_small, Nat.mod_small by lia. cbn.
  unfold chunks. rewrite list_lookup_fmap, Hn. done.
Qed.

Section ACCESS.
Context {S : Type} `{SD : SectorDisk S} (fresh : nat → list Z).
Context (fresh_length : ∀ n, length (fresh n) = n) (fresh_bytes : ∀ n, Forall is_byte (fresh n)).
Implicit Types (h : FileHeader) (ds : list (list Z)) (s : S).

Lemma new_buffer_ok (n : Z) : 0 ≤ n → new_buffer fresh n = Ok (fresh (Z.to_nat n)).
Proof. intros. unfold new_buffer. by destruct (Z.ltb_spec n 0); [lia|]. Qed.

Lemma copy_out_ok (buf : list Z) (off n : Z) :
  0 ≤ off → 0 ≤ n → off + n ≤ Z.of_nat (length buf) → copy_out buf off n = Ok (slice buf off n).
Proof.
  intros. unfold copy_out. by rewrite (proj2 (Z.leb_le 0 off)), (proj2 (Z.leb_le 0 n)), (proj2 (Z.leb_le _ _)).
Qed.

Lemma copy_in_ok (buf : list Z) (off : Z) (d : list Z) :
  0 ≤ off → off + Z.of_nat (length d) ≤ Z.of_nat (length buf) → copy_in buf off d = Ok (splice buf off d).
Proof. intros. unfold copy_in. by rewrite (proj2 (Z.leb_le 0 off)), (proj2 (Z.leb_le _ _)). Qed.

Lemma ByteToSector_ok h (k : Z) :
  HdrOk h → 0 ≤ k < numSectors h →
  ∃ n, ByteToSector h (k * SectorSize) = Ok n ∧ blocks h !! Z.to_nat k = Some n ∧ 0 ≤ n < NumSectors.
Proof.
  intros Hh Hk. pose proof (length_blocks h Hh) as Hl.
  destruct (lookup_lt_is_Some_2 (blocks h) (Z.to_nat k)) as [n Hn]; [lia|].
  exists n. split; [|split; [done|by eapply block_range]].
  unfold ByteToSector. rewrite Z.quot_mul by done. apply aget_Ok. split; [lia|].
  unfold blocks in Hn. by rewrite lookup_take_lt in Hn by lia.
Qed.

(** The loop of ReadAt: sectors [first], ... are in the buffer. *)
Lemma read_loop_ok h ds s buf (first num : Z) :
  HdrOk h → sec_rep s ds → 0 ≤ first → 0 ≤ num → first + num ≤ numSectors h →
  Z.of_nat (length buf) = num * SectorSize →
  ∃ buf' s', for_up (Z.to_nat num) first (λ i '(buf, s),
      sec ← ByteToSector h (i * SectorSize);
      '(data, s) ← ReadSector sec s;
      buf ← copy_in buf ((i - first) * SectorSize) data;
      Ok (buf, s)) (buf, s) = Ok (buf', s')
    ∧ sec_rep s' ds ∧ Z.of_nat (length buf') = num * SectorSize
    ∧ ∀ j : nat, Z.of_nat j < num * SectorSize →
        buf' !! j = content h ds !! (Z.to_nat (first * SectorSize) + j)%nat.
Proof.
  intros Hh Hs Hf Hnum Hlast Hbuf. pose proof (sec_shape _ _ Hs) as Hd.
  destruct (for_up_inv (λ k '(b, s'), sec_rep s' ds ∧ Z.of_nat (length b) = num * SectorSize
      ∧ ∀ j : nat, Z.of_nat j < (k - first) * SectorSize →
          b !! j = content h ds !! (Z.to_nat (first * SectorSize) + j)%nat)
    (λ i '(buf, s),
      sec ← ByteToSector h (i * SectorSize);
      '(data, s) ← ReadSector sec s;
      buf ← copy_in buf ((i - first) * SectorSize) data;
      Ok (buf, s)) (Z.to_nat num) first (buf, s)) as ([buf' s']&E&Hs'&Hl'&Hj).
  - split; [done|]. split; [done|]. intros j Hj. unfold SectorSize in Hj. lia.
  - intros k [b s1] Hk (Hs1&Hl1&Hj1). destruct (ByteToSector_ok h k Hh) as (n&->&Hn&Hr); [lia|].
    cbn [mbind res_bind]. destruct (disk_lookup ds n Hd Hr) as [Hlk [Hsec _]].
    destruct (sec_read s1 ds n _ Hs1 ltac:(lia) Hlk) as (s2&->&Hs2). cbn [mbind res_bind].
    rewrite copy_in_ok by (unfold SectorSize in *; lia). cbn [mbind res_bind].
    eexists. split; [done|]. split; [done|]. split; [rewrite length_splice; unfold SectorSize in *; lia|].
    intros j Hj. rewrite lookup_splice by (unfold SectorSize in *; lia). case_decide as E.
    + assert (Hk0 : 0 ≤ k) by lia. rewrite <- (content_byte h ds k _ n Hh Hd Hk0 Hn).
      * f_equal. unfold SectorSize in *. lia.
      * unfold SectorSize in *. lia.
    + apply Hj1. unfold SectorSize in *. lia.
  - exists buf', s'. split; [done|]. split; [done|]. split; [done|]. intros j Hj'. apply Hj. by replace (first + Z.of_nat (Z.to_nat num) - first) with num by lia.
Qed.

Lemma data_lookup h ds (i : nat) :
  HdrOk h → data h ds !! i = if decide (Z.of_nat i < numBytes h) then content h ds !! i else None.
Proof.
  intros Hh. unfold data. case_decide.
  - apply lookup_take_lt. lia.
  - apply lookup_take_ge. lia.
Qed.

(** The number of bytes an access at [pos] transfers, and its sectors. *)
Definition clip h (n pos : Z) : Z := if numBytes h <? pos + n then numBytes h - pos else n.

Lemma clip_range h (n pos : Z) :
  HdrOk h → 0 < n → 0 ≤ pos < numBytes h →
  let first := divRoundDown pos SectorSize in
  let last := divRoundDown (pos + clip h n pos - 1) SectorSize in
  0 < clip h n pos ≤ n ∧ pos + clip h n pos ≤ numBytes h
  ∧ (clip h n pos = n ∨ pos + clip h n pos = numBytes h)
  ∧ 0 ≤ first ≤ last ∧ last < numSectors h
  ∧ first * SectorSize ≤ pos < (first + 1) * SectorSize
  ∧ last * SectorSize < pos + clip h n pos ≤ (last + 1) * SectorSize.
Proof.
  intros Hh Hn Hpos. pose proof (HdrOk_size h Hh) as Hsz. unfold clip, divRoundDown, SectorSize in *.
  destruct (Z.ltb_spec (numBytes h) (pos + n)); rewrite !Z.quot_div_nonneg by lia; dlia.
Qed.

Lemma ReadAt_ok f ds s (n pos : Z) :
  HdrOk (hdr f) → sec_rep s ds → 0 ≤ pos → pos + n < halfword →
  ∃ s', ReadAt fresh f n pos s = Ok (slice (data (hdr f) ds) pos n, s') ∧ sec_rep s' ds.
Proof.
  intros Hh Hs Hpos Hov. unfold ReadAt, FileLength. set (h := hdr f) in *.
  pose proof (sec_shape _ _ Hs) as Hd.
  destruct (Z.leb_spec n 0) as [Hn|Hn]; cbn [orb].
  { exists s. split; [|done]. unfold slice. by replace (Z.to_nat n) with 0%nat by lia. }
  destruct (Z.leb_spec (numBytes h) pos) as [Hp|Hp].
  { exists s. split; [|done]. unfold slice. pose proof (length_data h ds Hh Hd).
    rewrite drop_ge by lia. by rewrite take_nil. }
  rewrite (s32_id (pos + n)) by (unfold_int; lia). fold (clip h n pos). destruct (clip_range h n pos Hh Hn ltac:(lia)) as (Hc&Hc2&Hc3&Hfl&Hl&Hf1&Hl1).
  set (first := divRoundDown pos SectorSize) in *.
  set (last := divRoundDown (pos + clip h n pos - 1) SectorSize) in *.
  set (num := 1 + last - first). cbv zeta.
  rewrite new_buffer_ok by (unfold num, SectorSize; lia). cbn [mbind res_bind].
  destruct (read_loop_ok h ds s (fresh (Z.to_nat (num * SectorSize))) first num)
    as (buf&s'&->&Hs'&Hlen&Hb); [done|done|lia|lia|lia| |].
  { rewrite fresh_length. unfold num, SectorSize. lia. }
  cbn [mbind res_bind]. rewrite copy_out_ok by (unfold num, SectorSize in *; lia). cbn [mbind res_bind].
  exists s'. split; [|done]. do 2 f_equal. apply list_eq. intros i.
  rewrite !lookup_slice by (unfold SectorSize in *; lia). rewrite data_lookup by done.
  destruct (decide (Z.of_nat i < clip h n pos)) as [Hi|Hi].
  - rewrite !decide_True by lia. rewrite Hb by (unfold num, SectorSize in *; lia).
    f_equal. unfold SectorSize in *. lia.
  - case_decide; [|done]. by rewrite decide_False by lia.
Qed.

(** The loop of WriteAt: the sectors of the file from [first] on are replaced
    by those of the buffer. *)
Lemma write_loop_ok h ds s buf (first num : Z) :
  HdrOk h → sec_rep s ds → 0 ≤ first → 0 ≤ num → first + num ≤ numSectors h →
  Z.of_nat (length buf) = num * SectorSize → Forall is_byte buf →
  ∃ ds' s', for_up (Z.to_nat num) first (λ i s,
      sec ← ByteToSector h (i * SectorSize);
      b ← copy_out buf ((i - first) * SectorSize) SectorSize;
      WriteSector sec b s) s = Ok s'
    ∧ sec_rep s' ds'
    ∧ (∀ n, n ∉ blocks h → 0 ≤ n → ds' !! Z.to_nat n = ds !! Z.to_nat n)
    ∧ ∀ (q : nat) n, blocks h !! q = Some n →
        ds' !!! Z.to_nat n = if decide (first ≤ Z.of_nat q < first + num)
                             then slice buf ((Z.of_nat q - first) * SectorSize) SectorSize
                             else ds !!! Z.to_nat n.
Proof.
  intros Hh Hs Hf Hnum Hlast Hbuf Hby.
  destruct (for_up_inv (λ k s', ∃ ds', sec_rep s' ds'
      ∧ (∀ n, n ∉ blocks h → 0 ≤ n → ds' !! Z.to_nat n = ds !! Z.to_nat n)
      ∧ ∀ (q : nat) n, blocks h !! q = Some n →
          ds' !!! Z.to_nat n = if decide (first ≤ Z.of_nat q < k)
                               then slice buf ((Z.of_nat q - first) * SectorSize) SectorSize
                               else ds !!! Z.to_nat n)
    (λ i s, sec ← ByteToSector h (i * SectorSize);
      b ← copy_out buf ((i - first) * SectorSize) SectorSize;
      WriteSector sec b s) (Z.to_nat num) first s) as (s'&E&ds'&Hs'&Ho&Hq).
  - exists ds. split; [done|]. split; [done|]. intros q n _. by rewrite decide_False by lia.
  - intros k s1 Hk (ds1&Hs1&Ho1&Hq1). destruct (ByteToSector_ok h k Hh) as (n&->&Hn&Hr); [lia|].
    cbn [mbind res_bind]. rewrite copy_out_ok by (unfold SectorSize in *; lia). cbn [mbind res_bind].
    destruct (sec_write s1 ds1 n (slice buf ((k - first) * SectorSize) SectorSize) Hs1 Hr) as (s2&E2&Hs2).
    { split; [|by apply slice_Forall]. rewrite length_slice; unfold SectorSize in *; lia. }
    exists s2. split; [done|]. eexists. split; [exact Hs2|]. split.
    + intros n' Hn' Hn0. rewrite list_lookup_insert_ne; [by apply Ho1|].
      intros E%Z2Nat.inj; [|lia..]. subst n'. apply list_elem_of_lookup_2 in Hn. done.
    + intros q n' Hq'. pose proof (sec_shape _ _ Hs1) as [Hlen1 _].
      pose proof (block_range h q n' Hh Hq') as Hr'.
      destruct (decide (n' = n)) as [->|Hne].
      * assert (q = Z.to_nat k) as -> by (eapply NoDup_lookup; [apply Hh|done..]).
        rewrite decide_True by lia. rewrite list_lookup_total_insert_eq by lia.
        by replace (Z.of_nat (Z.to_nat k) - first) with (k - first) by lia.
      * rewrite list_lookup_total_insert_ne by (intros E%Z2Nat.inj; [congruence|lia..]).
        rewrite (Hq1 q n' Hq'). assert (Z.of_nat q ≠ k) by (intros <-; rewrite Nat2Z.id in Hn; congruence).
        destruct (decide (first ≤ Z.of_nat q < k)), (decide (first ≤ Z.of_nat q < k + 1)); done || lia.
  - exists ds', s'. split; [done|]. split; [done|]. split; [done|]. intros q n Hqn.
    rewrite (Hq q n Hqn). by replace (first + Z.of_nat (Z.to_nat num)) with (first + num) by lia.
Qed.

Lemma data_bytes h ds : HdrOk h → disk_shape ds → Forall is_byte (data h ds).
Proof.
  intros Hh Hd. apply Forall_take. unfold content. pose proof (chunks_sector_data h ds Hh Hd) as HF.
  induction HF as [|b xss [_ Hb] _ IH]; [constructor|]. cbn. by apply Forall_app.
Qed.

(** What ReadAt returns for a whole sector of the file. *)
Lemma sector_slice h ds (k : Z) :
  HdrOk h → disk_shape ds → 0 ≤ k → k * SectorSize < numBytes h →
  let d := slice (data h ds) (k * SectorSize) SectorSize in
  Z.of_nat (length d) = Z.min SectorSize (numBytes h - k * SectorSize)
  ∧ ∀ j : nat, Z.of_nat j < Z.of_nat (length d) → d !! j = content h ds !! (Z.to_nat (k * SectorSize) + j)%nat.
Proof.
  intros Hh Hd Hk Hlt d. pose proof (length_data h ds Hh Hd) as Hl.
  assert (Hlen : Z.of_nat (length d) = Z.min SectorSize (numBytes h - k * SectorSize)).
  { unfold d, slice. rewrite length_take, length_drop. unfold SectorSize in *. lia. }
  split; [done|]. intros j Hj. unfold d. rewrite lookup_slice by (unfold SectorSize; lia).
  rewrite decide_True by lia. rewrite data_lookup by done. rewrite decide_True; [done|].
  unfold SectorSize in *. lia.
Qed.

(** Reading sector [k] of the file into the buffer that starts at sector
    [first]. *)
Lemma read_into f ds s buf (first num k : Z) :
  HdrOk (hdr f) → sec_rep s ds → 0 ≤ first ≤ k → k < first + num → k * SectorSize < numBytes (hdr f) →
  Z.of_nat (length buf) = num * SectorSize → Forall is_byte buf →
  ∃ buf' s', ('(d, s) ← ReadAt fresh f SectorSize (k * SectorSize) s;
      buf ← copy_in buf ((k - first) * SectorSize) d; Ok (buf, s)) = Ok (buf', s')
    ∧ sec_rep s' ds ∧ Z.of_nat (length buf') = num * SectorSize ∧ Forall is_byte buf'
    ∧ ∀ j : nat,
        buf' !! j = if decide ((k - first) * SectorSize ≤ Z.of_nat j < (k - first + 1) * SectorSize
                               ∧ Z.of_nat j + first * SectorSize < numBytes (hdr f))
                    then content (hdr f) ds !! (Z.to_nat (first * SectorSize) + j)%nat
                    else buf !! j.
Proof.
  intros Hh Hs Hf Hk Hlt Hlen Hby. pose proof (sec_shape _ _ Hs) as Hd.
  destruct (ReadAt_ok f ds s SectorSize (k * SectorSize) Hh Hs) as (s'&->&Hs');
    [unfold SectorSize; lia|pose proof (HdrOk_fits _ Hh : _ ≤ 3840); unfold SectorSize in *; unfold_int; lia|].
  destruct (sector_slice (hdr f) ds k Hh Hd ltac:(lia) Hlt) as [Hdl Hdj].
  set (d := slice _ _ _) in *. cbn [mbind res_bind].
  rewrite copy_in_ok by (unfold SectorSize in *; lia). cbn [mbind res_bind].
  eexists _, s'. split; [done|]. split; [done|]. split.
  { rewrite length_splice by (unfold SectorSize in *; lia). done. }
  split. { apply splice_Forall; [done|]. by apply slice_Forall, data_bytes. }
  intros j. rewrite lookup_splice by (unfold SectorSize in *; lia).
  case_decide as E1; case_decide as E2; [|unfold SectorSize in *; lia..|done].
  rewrite Hdj by (unfold SectorSize in *; lia). f_equal. unfold SectorSize in *. lia.
Qed.

(** The file after the write loop. *)
Lemma content_after h ds ds' buf (first num : Z) (p : nat) :
  HdrOk h → disk_shape ds → disk_shape ds' → 0 ≤ first → first + num ≤ numSectors h →
  Z.of_nat (length buf) = num * SectorSize → Z.of_nat p < numSectors h * SectorSize →
  (∀ (q : nat) n, blocks h !! q = Some n →
      ds' !!! Z.to_nat n = if decide (first ≤ Z.of_nat q < first + num)
                           then slice buf ((Z.of_nat q - first) * SectorSize) SectorSize
                           else ds !!! Z.to_nat n) →
  content h ds' !! p =
    if decide (first * SectorSize ≤ Z.of_nat p < (first + num) * SectorSize)
    then buf !! (p - Z.to_nat (first * SectorSize))%nat else content h ds !! p.
Proof.
  intros Hh Hd Hd' Hf Hl Hlen Hp Hq.
  set (k := Z.of_nat p / SectorSize). set (j := Z.to_nat (Z.of_nat p mod SectorSize)).
  assert (Hk : 0 ≤ k < numSectors h) by (unfold k, SectorSize in *; dlia).
  assert (Hj : (j < 128)%nat) by (unfold j, SectorSize; dlia).
  assert (Ep : p = (Z.to_nat (k * SectorSize) + j)%nat) by (unfold k, j, SectorSize; dlia).
  pose proof (length_blocks h Hh) as Hbl.
  destruct (lookup_lt_is_Some_2 (blocks h) (Z.to_nat k)) as [n Hn]; [lia|].
  rewrite Ep, (content_byte h ds' k j n), (content_byte h ds k j n) by (done || lia).
  rewrite (Hq (Z.to_nat k) n Hn). rewrite Z2Nat.id by lia.
  destruct (decide (first ≤ k < first + num)) as [Hin|Hout].
  - rewrite decide_True by (unfold SectorSize in *; lia).
    rewrite lookup_slice by (unfold SectorSize; lia). rewrite decide_True by (unfold SectorSize; lia).
    f_equal. unfold SectorSize. lia.
  - rewrite decide_False by (unfold SectorSize in *; lia). done.
Qed.

(** The number of bytes WriteAt writes. *)
Definition written h (n pos : Z) : Z := Z.max 0 (Z.min n (numBytes h - pos)).

Lemma written_clip h (n pos : Z) :
  HdrOk h → 0 < n → 0 ≤ pos < numBytes h → written h n pos = clip h n pos.
Proof. intros Hh Hn Hp. unfold written, clip. destruct (Z.ltb_spec (numBytes h) (pos + n)); lia. Qed.

(** The two reads of partially written sectors: the buffer then has the old
    bytes of the file around the bytes to be written. *)
Lemma prepare_ok f ds s (pos c first last : Z) :
  HdrOk (hdr f) → sec_rep s ds → 0 ≤ first ≤ last → last < numSectors (hdr f) →
  first * SectorSize ≤ pos < (first + 1) * SectorSize →
  last * SectorSize < pos + c ≤ (last + 1) * SectorSize → pos + c ≤ numBytes (hdr f) → 0 < c →
  let num := 1 + last - first in
  let firstAligned := pos =? first * SectorSize in
  let lastAligned := pos + c =? (last + 1) * SectorSize in
  let buf := fresh (Z.to_nat (num * SectorSize)) in
  ∃ buf' s', ('(buf, s) ← (if negb firstAligned then
        '(d, s) ← ReadAt fresh f SectorSize (first * SectorSize) s;
        buf ← copy_in buf 0 d; Ok (buf, s)
      else Ok (buf, s));
      (if negb lastAligned && (negb (first =? last) || firstAligned) then
        '(d, s) ← ReadAt fresh f SectorSize (last * SectorSize) s;
        buf ← copy_in buf ((last - first) * SectorSize) d; Ok (buf, s)
      else Ok (buf, s))) = Ok (buf', s')
    ∧ sec_rep s' ds ∧ Z.of_nat (length buf') = num * SectorSize ∧ Forall is_byte buf'
    ∧ ∀ j : nat, Z.of_nat j < num * SectorSize → Z.of_nat j + first * SectorSize < numBytes (hdr f) →
        Z.of_nat j + first * SectorSize < pos ∨ pos + c ≤ Z.of_nat j + first * SectorSize →
        buf' !! j = content (hdr f) ds !! (Z.to_nat (first * SectorSize) + j)%nat.
Proof.
  intros Hh Hs Hfl Hl Hf Hlc Hc Hc0 num fA lA buf.
  assert (Hlen : Z.of_nat (length buf) = num * SectorSize)
    by (unfold buf; rewrite fresh_length; unfold num, SectorSize; lia).
  assert (H1 : ∃ buf1 s1, (if negb fA then
        '(d, s) ← ReadAt fresh f SectorSize (first * SectorSize) s;
        buf ← copy_in buf 0 d; Ok (buf, s)
      else Ok (buf, s)) = Ok (buf1, s1)
    ∧ sec_rep s1 ds ∧ Z.of_nat (length buf1) = num * SectorSize ∧ Forall is_byte buf1
    ∧ ∀ j : nat, fA = false → Z.of_nat j < SectorSize → Z.of_nat j + first * SectorSize < numBytes (hdr f) →
        buf1 !! j = content (hdr f) ds !! (Z.to_nat (first * SectorSize) + j)%nat).
  { destruct fA; cbn [negb]; [exists buf, s; split_and!; try done; apply fresh_bytes|].
    destruct (read_into f ds s buf first num first) as (buf1&s1&E&Hs1&Hl1&Hb1&Hj);
      [done|done|lia|unfold num; lia|unfold SectorSize in *; lia|done|apply fresh_bytes|].
    replace ((first - first) * SectorSize) with 0 in * by lia. exists buf1, s1. split_and!; try done.
    intros j _ Hj1 Hj2. rewrite Hj, decide_True; [done|]. unfold SectorSize in *. lia. }
  destruct H1 as (buf1&s1&->&Hs1&Hl1&Hb1&Hj1). cbn [mbind res_bind].
  destruct (negb lA && (negb (first =? last) || fA)) eqn:E2.
  - destruct (read_into f ds s1 buf1 first num last) as (buf2&s2&->&Hs2&Hl2&Hb2&Hj2);
      [done|done|lia|unfold num; lia|unfold SectorSize in *; lia|done|done|].
    exists buf2, s2. split_and!; try done. intros j Hj Hjn Hout. rewrite Hj2. case_decide; [done|].
    apply Hj1; unfold fA, num, SectorSize in *; lia.
  - exists buf1, s1. split_and!; try done. intros j Hj Hjn Hout. unfold fA, lA in *.
    apply Hj1; unfold num, SectorSize in *; lia.
Qed.

Lemma WriteAt_ok f ds s (from : list Z) (n pos : Z) :
  HdrOk (hdr f) → sec_rep s ds → 0 ≤ pos → pos + n < halfword → Forall is_byte from →
  n ≤ Z.of_nat (length from) →
  ∃ ds' s', WriteAt fresh f from n pos s = Ok (written (hdr f) n pos, s') ∧ sec_rep s' ds'
    ∧ (∀ k, k ∉ blocks (hdr f) → 0 ≤ k → ds' !! Z.to_nat k = ds !! Z.to_nat k)
    ∧ data (hdr f) ds' = splice (data (hdr f) ds) pos (take (Z.to_nat (written (hdr f) n pos)) from).
Proof.
  intros Hh Hs Hpos Hov Hby Hfrom. unfold WriteAt, FileLength. set (h := hdr f) in *.
  pose proof (sec_shape _ _ Hs) as Hd.
  destruct ((n <=? 0) || (numBytes h <=? pos)) eqn:E0.
  { assert (written h n pos = 0) as -> by (unfold written; lia). exists ds, s.
    split; [done|]. split; [done|]. split; [done|]. unfold splice.
    change (take (Z.to_nat 0) from) with (@nil Z). cbn [app length]. by rewrite Nat.add_0_r, take_drop. }
  assert (Hn : 0 < n) by lia. assert (Hp : 0 ≤ pos < numBytes h) by lia.
  rewrite (written_clip h n pos Hh Hn Hp), (s32_id (pos + n)) by (unfold_int; lia). fold (clip h n pos).
  destruct (clip_range h n pos Hh Hn Hp) as (Hc&Hc2&Hc3&Hfl&Hl&Hf1&Hl1).
  set (c := clip h n pos) in *. set (first := divRoundDown pos SectorSize) in *.
  set (last := divRoundDown (pos + c - 1) SectorSize) in *. cbv zeta. set (num := 1 + last - first).
  rewrite new_buffer_ok by (unfold num, SectorSize; lia). cbn [mbind res_bind].
  destruct (prepare_ok f ds s pos c first last) as (buf&s1&E1&Hs1&Hlen&Hb1&Hj1); [done..|lia|].
  fold num in E1, Hlen, Hj1. fold h in Hj1. apply bind_Ok in E1 as ([b0 s0]&E1&E2). rewrite E1. cbn [mbind res_bind].
  rewrite E2. cbn [mbind res_bind]. rewrite copy_out_ok by lia. cbn [mbind res_bind].
  assert (Hd0 : slice from 0 c = take (Z.to_nat c) from) by (unfold slice; by rewrite drop_0).
  assert (Hdl : Z.of_nat (length (slice from 0 c)) = c) by (rewrite length_slice; lia).
  rewrite copy_in_ok by (unfold num, SectorSize in *; lia). cbn [mbind res_bind].
  set (buf2 := splice buf (pos - first * SectorSize) (slice from 0 c)).
  assert (Hlen2 : Z.of_nat (length buf2) = num * SectorSize)
    by (unfold buf2; rewrite length_splice by (unfold num, SectorSize in *; lia); done).
  destruct (write_loop_ok h ds s1 buf2 first num) as (ds'&s2&->&Hs2&Ho&Hq);
    [done|done|lia|unfold num; lia|unfold num; lia|done|by apply splice_Forall; [|apply slice_Forall]|].
  cbn [mbind res_bind]. exists ds', s2. split; [done|]. split; [done|]. split; [done|].
  pose proof (sec_shape _ _ Hs2) as Hd'. pose proof (length_data h ds Hh Hd) as Hld.
  rewrite <- Hd0. apply list_eq. intros p.
  rewrite lookup_splice by lia. rewrite !(data_lookup h _ p Hh).
  destruct (decide (Z.of_nat p < numBytes h)) as [Hpl|Hpl]; [|by rewrite decide_False by lia].
  pose proof (HdrOk_size h Hh) as Hsz.
  rewrite (content_after h ds ds' buf2 first num p Hh Hd Hd') by (done || (unfold num; lia)).
  unfold buf2. destruct (decide (pos ≤ Z.of_nat p < pos + Z.of_nat (length (slice from 0 c)))) as [Hin|Hout].
  - rewrite decide_True by (unfold num, SectorSize in *; lia).
    rewrite lookup_splice by (unfold num, SectorSize in *; lia).
    rewrite decide_True by (unfold SectorSize in *; lia). f_equal. unfold SectorSize in *. lia.
  - case_decide as Hw; [|done]. rewrite lookup_splice by (unfold num, SectorSize in *; lia).
    rewrite decide_False by (unfold SectorSize in *; lia).
    rewrite Hj1 by (unfold num, SectorSize in *; lia). f_equal. unfold SectorSize in *. lia.
Qed.
End ACCESS.

Lemma read_back h ds (from : list Z) (n pos : Z) :
  HdrOk h → disk_shape ds → 0 ≤ pos → n ≤ Z.of_nat (length from) →
  slice (splice (data h ds) pos (take (Z.to_nat (written h n pos)) from)) pos n
  = take (Z.to_nat (written h n pos)) from.
Proof.
  intros Hh Hd Hpos Hn. pose proof (length_data h ds Hh Hd) as Hl.
  set (w := written h n pos). set (d := take (Z.to_nat w) from).
  assert (Hdl : Z.of_nat (length d) = w) by (unfold d, w, written; rewrite length_take; lia).
  destruct (decide (n ≤ 0)) as [Hn0|Hn0].
  { unfold slice. replace (Z.to_nat n) with 0%nat by lia. destruct d; [done|cbn in Hdl; unfold w, written in Hdl; lia]. }
  destruct (decide (numBytes h ≤ pos)) as [Hp|Hp].
  { assert (w = 0) by (unfold w, written; lia). destruct d; [|cbn in Hdl; lia]. unfold slice.
    rewrite drop_ge; [by rewrite take_nil|]. unfold splice. cbn. rewrite length_app, length_take, length_drop. lia. }
  apply list_eq. intros i. rewrite lookup_slice by lia.
  assert (Hw : w = Z.min n (numBytes h - pos)) by (unfold w, written; lia).
  rewrite lookup_splice by lia. case_decide.
  - case_decide; [f_equal; lia|]. rewrite !lookup_ge_None_2; [done|lia..].
  - rewrite lookup_ge_None_2; [done|lia].
Qed.

(** ** Allocation *)

Import BitmapSpec.

Lemma splice_snoc (l : list Z) (i x : Z) (d : list Z) :
  0 ≤ i → i + 1 + Z.of_nat (length d) ≤ Z.of_nat (length l) →
  splice (<[Z.to_nat i := x]> l) (i + 1) d = splice l i (x :: d).
Proof.
  intros Hi Hl. apply list_eq. intros j.
  rewrite !lookup_splice by (rewrite ?length_insert; cbn [length]; lia). cbn [length].
  destruct (decide (j = Z.to_nat i)) as [->|Hne].
  - rewrite decide_False, decide_True by lia. rewrite list_lookup_insert_eq by lia.
    by rewrite Nat.sub_diag.
  - destruct (decide (i + 1 ≤ Z.of_nat j < i + 1 + Z.of_nat (length d))).
    + rewrite decide_True by lia. replace (j - Z.to_nat i)%nat with (S (j - Z.to_nat (i + 1))) by lia. done.
    + rewrite decide_False by lia. by rewrite list_lookup_insert_ne.
Qed.

Lemma Allocate_loop_ok k (i : Z) ds b (N : Z) (used : gset Z) :
  Marked b N used → 0 ≤ i → i + Z.of_nat k ≤ Z.of_nat (length ds) → Z.of_nat k ≤ N - Z.of_nat (size used) →
  ∃ new b', Allocate_loop k i ds b = Ok (splice ds i new, b') ∧ length new = k ∧ NoDup new
    ∧ Forall (λ n, 0 ≤ n < N ∧ n ∉ used) new ∧ Marked b' N (list_to_set new ∪ used).
Proof.
  revert i ds b used. induction k as [|k IH]; intros i ds b used HM Hi Hlen Hfree; cbn [Allocate_loop].
  { exists [], b. split; [unfold splice; cbn [app length]; by rewrite Nat.add_0_r, take_drop|].
    split; [done|]. split; [apply NoDup_nil_2|]. split; [constructor|]. by rewrite list_to_set_nil, union_empty_l_L. }
  destruct (FindAndSet_spec b N used HM) as (r&b1&->&[(->&_&Hall)|(Hr&Hni&_&HM1)]).
  { apply full_set_size in Hall. lia. }
  cbn [mbind res_bind]. rewrite aset_in by lia. cbn [mbind res_bind].
  rewrite (proj2 (Z.leb_le 0 r)) by lia. cbn [ASSERT mbind res_bind].
  destruct (IH (i + 1) (<[Z.to_nat i := r]> ds) b1 ({[r]} ∪ used)) as (new&b2&->&Hl&Hnd&Hf&HM2);
    [done|lia|rewrite length_insert; lia| |].
  { rewrite size_union by set_solver. rewrite size_singleton. lia. }
  exists (r :: new), b2. rewrite splice_snoc by lia. split; [done|]. split; [by cbn; rewrite Hl|].
  split; [|split].
  - apply NoDup_cons. split; [|done]. intros Hin. apply (proj1 (Forall_forall _ _) Hf) in Hin. set_solver.
  - constructor; [done|]. eapply Forall_impl; [exact Hf|]. cbn. set_solver.
  - by replace (list_to_set (r :: new) ∪ used) with (list_to_set new ∪ ({[r]} ∪ used)) by set_solver.
Qed.

Lemma Allocate_loop_overflow k (i : Z) ds b (N : Z) (used : gset Z) :
  Marked b N used → 0 ≤ i ≤ Z.of_nat (length ds) → Z.of_nat (length ds) < i + Z.of_nat k →
  Z.of_nat k ≤ N - Z.of_nat (size used) → Allocate_loop k i ds b = Err BadAccess.
Proof.
  revert i ds b used. induction k as [|k IH]; intros i ds b used HM Hi Hlen Hfree; [lia|].
  cbn [Allocate_loop].
  destruct (FindAndSet_spec b N used HM) as (r&b1&->&[(->&_&Hall)|(Hr&Hni&_&HM1)]).
  { apply full_set_size in Hall. lia. }
  cbn [mbind res_bind]. destruct (decide (i = Z.of_nat (length ds))) as [->|Hne].
  { unfold aset. rewrite (proj2 (Z.ltb_ge _ _)) by lia. by rewrite andb_false_r. }
  rewrite aset_in by lia. cbn [mbind res_bind]. rewrite (proj2 (Z.leb_le 0 r)) by lia. cbn [ASSERT mbind res_bind].
  apply (IH _ _ _ _ HM1); rewrite ?length_insert; try lia.
  rewrite size_union by set_solver. rewrite size_singleton. lia.
Qed.

(** A header object: room for NumDirect sector numbers. *)
Definition header_object (h : FileHeader) : Prop :=
  Z.of_nat (length (dataSectors h)) = NumDirect ∧ Forall is_s32 (dataSectors h).

Lemma Allocate_ok h b (used : gset Z) (size : Z) :
  header_object h → Marked b NumSectors used → 0 ≤ size →
  let n := divRoundUp size SectorSize in
  let free := NumSectors - Z.of_nat (base.size used) in
  if free <? n then ∃ h', Allocate h b size = Ok (false, h', b)
  else if NumDirect <? n then Allocate h b size = Err BadAccess
  else ∃ h' b', Allocate h b size = Ok (true, h', b') ∧ HdrOk h' ∧ numBytes h' = size
         ∧ Forall (λ k, k ∉ used) (blocks h') ∧ Marked b' NumSectors (list_to_set (blocks h') ∪ used).
Proof.
  intros [Hobj Hs32] HM Hsz n free. pose proof (divRoundUp_nonneg size SectorSize Hsz ltac:(done)) as Hn0.
  fold n in Hn0. unfold Allocate. rewrite (NumClear_spec _ _ _ HM). cbn [mbind res_bind].
  fold n. fold free. destruct (Z.ltb_spec free n) as [|Hfree]; [by eexists|].
  destruct (Z.ltb_spec NumDirect n) as [Hbig|Hfit].
  { rewrite (Allocate_loop_overflow _ _ _ _ NumSectors used); [done|done|lia..]. }
  destruct (Allocate_loop_ok (Z.to_nat n) 0 (dataSectors h) b NumSectors used)
    as (new&b'&->&Hl&Hnd&Hf&HM'); [done|lia..|].
  cbn. eexists _, b'. split; [done|].
  assert (Hblk : blocks (mkHeader size n (splice (dataSectors h) 0 new)) = new).
  { unfold blocks, splice. cbn [numSectors dataSectors]. change (take (Z.to_nat 0) (dataSectors h)) with (@nil Z). cbn [app]. rewrite <- Hl. apply take_app_length. }
  split; [|split; [done|rewrite Hblk; split; [|done]]].
  - pose proof Hblk as Hblk'. unfold blocks in Hblk'. cbn [numSectors dataSectors] in Hblk'.
    split; cbn [numBytes numSectors dataSectors]; rewrite ?Hblk'; try done.
    + rewrite length_splice by lia. done.
    + apply splice_Forall; [done|]. eapply Forall_impl; [exact Hf|]. cbn. intros x [Hx _].
      unfold NumSectors, SectorsPerTrack, NumTracks in Hx. unfold_int. lia.
    + eapply Forall_impl; [exact Hf|]. by intros ? [? _].
  - eapply Forall_impl; [exact Hf|]. by intros ? [_ ?].
Qed.

Lemma Deallocate_ok h b (used : gset Z) :
  HdrOk h → Forall (λ k, k ∉ used) (blocks h) → Marked b NumSectors (list_to_set (blocks h) ∪ used) →
  ∃ b', Deallocate h b = Ok b' ∧ Marked b' NumSectors used.
Proof.
  intros Hh Hdis HM. pose proof (length_blocks h Hh) as Hlb. unfold Deallocate.
  destruct (for_up_inv (λ k b, Marked b NumSectors (list_to_set (drop (Z.to_nat k) (blocks h)) ∪ used))
    (λ i freeMap, sec ← aget (dataSectors h) i; u ← Bitmap.Test freeMap sec; ASSERT u ;;
      Bitmap.Clear sec freeMap) (Z.to_nat (numSectors h)) 0 b) as (b'&E&HM'); [done| |].
  - intros k b1 Hk HM1. destruct (lookup_lt_is_Some_2 (blocks h) (Z.to_nat k)) as [n Hn]; [lia|].
    pose proof (block_range h _ _ Hh Hn) as Hr.
    rewrite (proj2 (aget_Ok (dataSectors h) k n)).
    2: { split; [lia|]. unfold blocks in Hn. by rewrite lookup_take_lt in Hn by lia. }
    cbn [mbind res_bind]. rewrite (drop_S _ _ _ Hn) in HM1. cbn in HM1.
    rewrite (Test_spec _ _ _ _ HM1 Hr), bool_decide_true by set_solver. cbn [mbind res_bind ASSERT].
    destruct (Clear_spec b1 NumSectors _ n HM1 Hr) as (b2&->&HM2). exists b2. split; [done|].
    replace (Z.to_nat (k + 1)) with (S (Z.to_nat k)) by lia.
    assert (Hnn : n ∉ drop (S (Z.to_nat k)) (blocks h)).
    { pose proof (ho_nodup _ Hh) as Hnd. fold (blocks h) in Hnd.
      rewrite <- (take_drop_middle _ _ _ Hn) in Hnd. apply NoDup_middle in Hnd as [Hnd _]. set_solver. }
    assert (Hnu : n ∉ used) by exact (proj1 (Forall_lookup _ _) Hdis _ _ Hn).
    replace (list_to_set (drop (S (Z.to_nat k)) (blocks h)) ∪ used)
      with (({[n]} ∪ list_to_set (drop (S (Z.to_nat k)) (blocks h)) ∪ used) ∖ {[n]} : gset Z) by set_solver.
    done.
  - exists b'. split; [done|]. rewrite drop_ge in HM' by lia. cbn in HM'. by rewrite union_empty_l_L in HM'.
Qed.

Section STORE.
Context {S : Type} `{SD : SectorDisk S}.

Lemma WriteBack_ok h n (s : S) ds :
  HdrOk h → sec_rep s ds → 0 ≤ n < NumSectors →
  ∃ s', WriteBack h n s = Ok s' ∧ sec_rep s' (<[Z.to_nat n := encode h]> ds).
Proof. intros Hh Hs Hn. apply sec_write; [done..|]. by apply encode_sector. Qed.

Lemma FetchFrom_ok h n (s : S) ds :
  HdrOk h → sec_rep s ds → 0 ≤ n → ds !! Z.to_nat n = Some (encode h) →
  ∃ s', FetchFrom n s = Ok (h, s') ∧ sec_rep s' ds.
Proof.
  intros Hh Hs Hn Hlk. unfold FetchFrom. destruct (sec_read s ds n _ Hs Hn Hlk) as (s'&->&Hs').
  cbn [mbind res_bind]. rewrite decode_encode by done. by exists s'.
Qed.
End STORE.
End FileSpec.

(** ** Properties *)

Section PROPERTIES.
Import FileHeader OpenFile FileSpec.
Context {S : Type} `{SD : SectorDisk S} (fresh : nat → list Z).
Context (fresh_length : ∀ n, length (fresh n) = n) (fresh_bytes : ∀ n, Forall is_byte (fresh n)).

(** C9 (refinement): an open file is a byte sequence of fixed length with a
    position.  Read returns the bytes at the position, as many as the file has,
    advances by their number and changes nothing on the disk.  Write, whatever
    the alignment of its first and last byte, replaces exactly the bytes at the
    position by the first bytes of the buffer, never beyond the end of the file,
    advances by their number and leaves every sector of the disk that is not
    one of the file as it was; reading back at the old position gives the
    written bytes. *)
Theorem file_access_refines_bytes (f : OpenFile) (ds : list (list Z)) (s : S) (from : list Z) (n : Z)
    (Hh : HdrOk (hdr f)) (Hs : sec_rep s ds) (Hpos : 0 ≤ seekPosition f) (Hov : seekPosition f + n < halfword)
    (Hfrom : Forall is_byte from) (Hn : n ≤ Z.of_nat (length from)) :
  let bytes := data (hdr f) ds in
  let pos := seekPosition f in
  let k := written (hdr f) n pos in
  (∃ s', Read fresh f n s = Ok (slice bytes pos n, Seek (pos + k) f, s') ∧ sec_rep s' ds)
  ∧ ∃ ds' s', Write fresh f from n s = Ok (k, Seek (pos + k) f, s') ∧ sec_rep s' ds'
      ∧ data (hdr f) ds' = splice bytes pos (take (Z.to_nat k) from)
      ∧ (∀ j, j ∉ blocks (hdr f) → 0 ≤ j → ds' !! Z.to_nat j = ds !! Z.to_nat j)
      ∧ ∃ s'', ReadAt fresh f n pos s' = Ok (take (Z.to_nat k) from, s'') ∧ sec_rep s'' ds'.
Proof.
  intros bytes pos k. pose proof (length_data (hdr f) ds Hh (sec_shape _ _ Hs)) as Hlen.
  assert (Hk : Z.of_nat (length (slice bytes pos n)) = k).
  { unfold slice. rewrite length_take, length_drop. fold bytes in Hlen. unfold k, written. lia. }
  split.
  - destruct (ReadAt_ok fresh fresh_length f ds s n pos Hh Hs Hpos Hov) as (s'&E&Hs'). exists s'. split; [|done].
    unfold Read. fold pos. rewrite E. cbn [mbind res_bind]. fold bytes. by rewrite Hk.
  - destruct (WriteAt_ok fresh fresh_length fresh_bytes f ds s from n pos Hh Hs Hpos Hov Hfrom Hn)
      as (ds'&s'&E&Hs'&Ho&Hd). exists ds', s'. unfold Write. fold pos. rewrite E. cbn [mbind res_bind].
    do 4 (split; [done|]).
    destruct (ReadAt_ok fresh fresh_length f ds' s' n pos Hh Hs' Hpos Hov) as (s''&->&Hs''). exists s''.
    split; [|done]. rewrite Hd. fold pos k bytes. unfold bytes, k. rewrite read_back; [done..|exact (sec_shape _ _ Hs)|done|done].
Qed.

(** FileHeader::Allocate refuses, leaving the free map
    alone, exactly when fewer sectors are clear than the size needs; otherwise,
    when the size fits a header, it takes that many distinct sectors that were
    clear and marks exactly these, and Deallocate clears exactly these again.
    A header it has filled survives being written to a sector and fetched, so
    that the file can be opened from there.  A size of more than NumDirect
    sectors that the disk could hold is not refused: the loop stores past the
    end of the sector table. *)
Theorem file_allocation_correct (h : FileHeader) (b : Bitmap.Bitmap) (used : gset Z) (size : Z)
    (s : S) (ds : list (list Z)) (sector : Z)
    (Hobj : header_object h) (HM : BitmapSpec.Marked b NumSectors used) (Hsize : 0 ≤ size)
    (Hs : sec_rep s ds) (Hsec : 0 ≤ sector < NumSectors) :
  let n := divRoundUp size SectorSize in
  if NumSectors - Z.of_nat (base.size used) <? n then ∃ h', Allocate h b size = Ok (false, h', b)
  else if NumDirect <? n then Allocate h b size = Err BadAccess
  else ∃ h' b', Allocate h b size = Ok (true, h', b')
    ∧ HdrOk h' ∧ FileLength h' = size ∧ Z.of_nat (length (blocks h')) = n ∧ NoDup (blocks h')
    ∧ Forall (λ k, k ∉ used) (blocks h') ∧ BitmapSpec.Marked b' NumSectors (list_to_set (blocks h') ∪ used)
    ∧ (∃ b'', Deallocate h' b' = Ok b'' ∧ BitmapSpec.Marked b'' NumSectors used)
    ∧ ∃ s' s'', WriteBack h' sector s = Ok s' ∧ sec_rep s' (<[Z.to_nat sector := encode h']> ds)
        ∧ new_OpenFile sector s' = Ok (mkOpenFile h' 0, s'').
Proof.
  intros n. pose proof (Allocate_ok h b used size Hobj HM Hsize) as H. cbv zeta in H. fold n in H.
  destruct (NumSectors - Z.of_nat (base.size used) <? n); [done|].
  destruct (NumDirect <? n); [done|]. destruct H as (h'&b'&E&Hh'&Hb&Hnew&HM'). exists h', b'.
  split; [done|]. split; [done|]. split; [done|].
  split; [rewrite (length_blocks h' Hh'), (ho_sectors _ Hh'); by subst n size|].
  split; [apply Hh'|]. split; [done|]. split; [done|]. split; [by apply Deallocate_ok|].
  destruct (WriteBack_ok h' sector s ds Hh' Hs Hsec) as (s'&->&Hs').
  destruct (FetchFrom_ok h' sector s' _ Hh' Hs' ltac:(lia)) as (s''&E2&_).
  { apply list_lookup_insert_eq. destruct (sec_shape _ _ Hs). lia. }
  exists s', s''. split; [done|]. split; [done|]. unfold new_OpenFile. by rewrite E2.
Qed.
End PROPERTIES.

(** A blank disk and a file of 200 bytes on its sectors 5 and 3. *)
Definition sample_header : FileHeader.FileHeader :=
  FileHeader.mkHeader 200 2 (5 :: 3 :: replicate 28 0).

Lemma blank_image_rep : sec_rep (Disk.file blank_disk) (sectors_of (Disk.file blank_disk)).
Proof. destruct blank_disk_ok as [H1 H2 _]. exact (conj H1 (conj H2 eq_refl)). Qed.

Lemma sample_header_ok : FileSpec.HdrOk sample_header.
Proof.
  split.
  - cbn. lia.
  - reflexivity.
  - by apply Z.leb_le.
  - reflexivity.
  - repeat constructor; unfold_int; lia.
  - repeat constructor; (apply Z.leb_le || apply Z.ltb_lt); reflexivity.
  - apply NoDup_cons. split; [set_solver by lia|]. apply NoDup_singleton.
Qed.

Lemma file_access_refines_bytes_witness :
  ∃ ds' s', OpenFile.Write (λ n, replicate n 0) (OpenFile.mkOpenFile sample_header 100)
    (replicate 150 7) 150 (Disk.file blank_disk) = Ok (100, OpenFile.mkOpenFile sample_header 200, s')
    ∧ sec_rep s' ds'.
Proof.
  destruct (file_access_refines_bytes (λ n, replicate n 0) (λ n, length_replicate n 0)
    (λ n, Forall_replicate is_byte n 0 (conj (Z.le_refl 0) eq_refl)) (OpenFile.mkOpenFile sample_header 100)
    (sectors_of (Disk.file blank_disk)) (Disk.file blank_disk) (replicate 150 7) 150
    sample_header_ok blank_image_rep) as [_ (ds'&s'&E&Hs'&_)].
  - cbn. lia.
  - reflexivity.
  - apply Forall_replicate. unfold_int. lia.
  - by vm_compute.
  - exists ds', s'. split; [exact E|exact Hs'].
Defined.

Lemma file_allocation_correct_witness :
  ∃ b h' b', Bitmap.new_Bitmap Disk.NumSectors = Ok b ∧ FileHeader.Allocate sample_header b 1000 = Ok (true, h', b').
Proof.
  destruct (BitmapSpec.new_Bitmap_spec Disk.NumSectors) as (b&E&HM); [by vm_compute|].
  destruct (file_allocation_correct sample_header b ∅ 1000 (Disk.file blank_disk)
    (sectors_of (Disk.file blank_disk)) 1) as (h'&b'&E'&_).
  - split; [reflexivity|]. repeat constructor; unfold_int; lia.
  - exact HM.
  - lia.
  - exact blank_image_rep.
  - split; [lia|reflexivity].
  - exists b, h', b'. split; [exact E|exact E'].
Defined.
