(* ===== verification/Directory.v ===== *)
(** filesys/pbitmap.{h,cc} and filesys/directory.{h,cc}: the free map and the
    directory, two tables that are kept in memory and stored in files.

    Module PersistentBitmap and Module Directory hold the operations; Module
    DirectorySpec the reading of a directory as a finite map from names to
    sector numbers.

    A C string is a list of bytes that ends at its first zero byte or at the end
    of the list. *)

From S2P Require Import Prelude BitmapLib Interrupt Disk FileIO.
Import Disk OpenFile.

Module PersistentBitmap.
Import Bitmap.

Definition map_bytes (b : Bitmap) : list Z := words_encode (map b).

(** The words of the map overwritten by the bytes [d]. *)
Definition overwrite (d : list Z) (b : Bitmap) : res Bitmap :=
  bytes ← copy_in (map_bytes b) 0 d;
  Ok (mkBitmap (numBits b) (numWords b) (u32 <$> words_decode (length (map b)) bytes)).

Definition new_PersistentBitmap (numItems : Z) : res Bitmap := new_Bitmap numItems.

Section DISK.
Context {S : Type} `{SectorDisk S} (fresh : nat → list Z).

Definition FetchFrom (file : OpenFile) (b : Bitmap) (s : S) : res (Bitmap * S) :=
  '(d, s) ← ReadAt fresh file (numWords b * 4) 0 s;
  b ← overwrite d b;
  Ok (b, s).

Definition new_PersistentBitmap_from (file : OpenFile) (numItems : Z) (s : S) : res (Bitmap * S) :=
  b ← new_Bitmap numItems;
  '(d, s) ← ReadAt fresh file (numWords b * 4) 0 s;
  b ← overwrite d b;
  Ok (b, s).

Definition WriteBack (file : OpenFile) (b : Bitmap) (s : S) : res S :=
  '(_, s) ← WriteAt fresh file (map_bytes b) (numWords b * 4) 0 s;
  Ok s.
End DISK.
End PersistentBitmap.

(** string.h: strncmp and strncpy. *)
Module CString.

Fixpoint strncmp (a b : list Z) (n : nat) : Z :=
  match n with
  | O => 0
  | S n =>
    let x := hd 0 a in
    let y := hd 0 b in
    if x =? y then if x =? 0 then 0 else strncmp (tl a) (tl b) n else x - y
  end.

(** The [n] bytes strncpy stores. *)
Fixpoint strncpy (src : list Z) (n : nat) : list Z :=
  match n with
  | O => []
  | S n => if hd 0 src =? 0 then 0 :: strncpy [] n else hd 0 src :: strncpy (tl src) n
  end.
End CString.

Module Directory.
Import CString.

Definition FileNameMaxLen : nat := 9.

(** An entry with the padding bytes of its layout: [inUse] at offset 0,
    [sector] at 4, [name] at 8, 20 bytes in all. *)
Record DirectoryEntry := mkEntry {
  inUse : bool; pad0 : list Z; sector : Z; name : list Z; pad1 : list Z
}.

Definition EntrySize : Z := 20.

Definition encode_entry (e : DirectoryEntry) : list Z :=
  (if inUse e then 1 else 0) :: pad0 e ++ le_encode 4 (u32 (sector e)) ++ name e ++ pad1 e.

Definition decode_entry (l : list Z) : DirectoryEntry :=
  mkEntry (negb (hd 0 l =? 0)) (slice l 1 3) (s32 (le_decode (slice l 4 4))) (slice l 8 10) (slice l 18 2).

Definition encode_table (t : list DirectoryEntry) : list Z := concat (map encode_entry t).

Fixpoint decode_table (n : nat) (l : list Z) : list DirectoryEntry :=
  match n with
  | O => []
  | S n => decode_entry (take 20 l) :: decode_table n (drop 20 l)
  end.

Definition set_inUse (u : bool) (e : DirectoryEntry) : DirectoryEntry :=
  mkEntry u (pad0 e) (sector e) (name e) (pad1 e).

(** The three assignments of Add. *)
Definition fill_entry (nm : list Z) (newSector : Z) (e : DirectoryEntry) : DirectoryEntry :=
  mkEntry true (pad0 e) newSector (strncpy nm FileNameMaxLen ++ drop FileNameMaxLen (name e)) (pad1 e).

Record Directory := mkDirectory { tableSize : Z; table : list DirectoryEntry }.

(** [new DirectoryEntry[size]] has indeterminate contents. *)
Definition new_Directory (fresh : nat → list Z) (size : Z) : Directory :=
  mkDirectory size (set_inUse false <$>
    decode_table (Z.to_nat size) (fresh (Z.to_nat (size * EntrySize)))).

Section DISK.
Context {S : Type} `{SectorDisk S} (fresh : nat → list Z).

Definition FetchFrom (file : OpenFile) (d : Directory) (s : S) : res (Directory * S) :=
  '(b, s) ← ReadAt fresh file (tableSize d * EntrySize) 0 s;
  bytes ← copy_in (encode_table (table d)) 0 b;
  Ok (mkDirectory (tableSize d) (decode_table (length (table d)) bytes), s).

Definition WriteBack (file : OpenFile) (d : Directory) (s : S) : res S :=
  '(_, s) ← WriteAt fresh file (encode_table (table d)) (tableSize d * EntrySize) 0 s;
  Ok s.
End DISK.

(** The loop of FindIndex, [k] iterations from index [i]. *)
Fixpoint FindIndex_loop (k : nat) (i : Z) (t : list DirectoryEntry) (nm : list Z) : res Z :=
  match k with
  | O => Ok (-1)
  | S k =>
    e ← aget t i;
    if inUse e && (strncmp (name e) nm FileNameMaxLen =? 0) then Ok i
    else FindIndex_loop k (i + 1) t nm
  end.

Definition FindIndex (nm : list Z) (d : Directory) : res Z :=
  FindIndex_loop (Z.to_nat (tableSize d)) 0 (table d) nm.

Definition Find (nm : list Z) (d : Directory) : res Z :=
  i ← FindIndex nm d;
  if negb (i =? -1) then e ← aget (table d) i; Ok (sector e) else Ok (-1).

(** The loop of Add. *)
Fixpoint Add_loop (k : nat) (i : Z) (t : list DirectoryEntry) (nm : list Z) (newSector : Z)
  : res (bool * list DirectoryEntry) :=
  match k with
  | O => Ok (false, t)
  | S k =>
    e ← aget t i;
    if negb (inUse e) then t ← aset t i (fill_entry nm newSector e); Ok (true, t)
    else Add_loop k (i + 1) t nm newSector
  end.

Definition Add (nm : list Z) (newSector : Z) (d : Directory) : res (bool * Directory) :=
  i ← FindIndex nm d;
  if negb (i =? -1) then Ok (false, d)
  else
    '(r, t) ← Add_loop (Z.to_nat (tableSize d)) 0 (table d) nm newSector;
    Ok (r, mkDirectory (tableSize d) t).

Definition Remove (nm : list Z) (d : Directory) : res (bool * Directory) :=
  i ← FindIndex nm d;
  if i =? -1 then Ok (false, d)
  else
    e ← aget (table d) i;
    t ← aset (table d) i (set_inUse false e);
    Ok (true, mkDirectory (tableSize d) t).
End Directory.

Module DirectorySpec.
Import CString Directory.
Implicit Types (e : DirectoryEntry) (t : list DirectoryEntry) (nm : list Z).

(** ** Names *)

(** The string at the start of [l], at most [n] bytes. *)
Fixpoint cstr (n : nat) (l : list Z) : list Z :=
  match n, l with
  | S n, c :: l => if c =? 0 then [] else c :: cstr n l
  | _, _ => []
  end.

Lemma strncmp_eq a b n : strncmp a b n = 0 ↔ cstr n a = cstr n b.
Proof.
  revert a b. induction n as [|n IH]; intros a b; [done|]. cbn [strncmp].
  destruct (Z.eqb_spec (hd 0 a) (hd 0 b)) as [E|E].
  - destruct a as [|x a], b as [|y b]; cbn in *; subst; cbn; try done.
    destruct (y =? 0); [done|]. rewrite IH. split; [by intros ->|by intros [=]].
  - split; [lia|]. destruct a as [|x a], b as [|y b]; cbn in *.
    + done.
    + by destruct (Z.eqb_spec y 0).
    + by destruct (Z.eqb_spec x 0).
    + destruct (Z.eqb_spec x 0), (Z.eqb_spec y 0); naive_solver.
Qed.

Lemma length_strncpy src n : length (strncpy src n) = n.
Proof. revert src. induction n as [|n IH]; intros src; cbn; [done|]. destruct (_ =? 0); cbn; by rewrite IH. Qed.

Lemma cstr_strncpy src n rest : cstr n (strncpy src n ++ rest) = cstr n src.
Proof.
  revert src. induction n as [|n IH]; intros src; [done|]. cbn [strncpy].
  destruct src as [|c src]; cbn; [done|]. destruct (c =? 0) eqn:E; cbn; [done|]. by rewrite E, IH.
Qed.

Lemma strncpy_bytes src n : Forall is_byte src → Forall is_byte (strncpy src n).
Proof.
  revert src. induction n as [|n IH]; intros src Hs; cbn; [constructor|].
  destruct (hd 0 src =? 0); constructor; try by unfold_int.
  - apply IH. constructor.
  - by destruct Hs; [unfold_int|].
  - apply IH. by destruct Hs; [constructor|].
Qed.

(** The name by which a file is known, and the name of an entry. *)
Definition key nm : list Z := cstr FileNameMaxLen nm.
Definition ekey e : list Z := cstr FileNameMaxLen (name e).

(** ** The table as bytes *)

Record entry_ok e : Prop := {
  eo_pad0 : length (pad0 e) = 3%nat;
  eo_name : length (name e) = 10%nat;
  eo_pad1 : length (pad1 e) = 2%nat;
  eo_sector : is_s32 (sector e);
  eo_bytes : Forall is_byte (pad0 e) ∧ Forall is_byte (name e) ∧ Forall is_byte (pad1 e)
}.

Lemma length_encode_entry e : entry_ok e → length (encode_entry e) = 20%nat.
Proof. intros [H1 H2 H3 _ _]. unfold encode_entry. cbn [length]. rewrite !length_app, length_le_encode, H1, H2, H3. done. Qed.

Lemma decode_encode_entry e : entry_ok e → decode_entry (encode_entry e) = e.
Proof.
  destruct e as [u p0 sec nm p1]. intros [H1 H2 H3 Hs _]; cbn in *.
  destruct p0 as [|a0 [|a1 [|a2 [|]]]]; try done.
  do 11 (destruct nm as [|? nm]; try done). destruct p1 as [|b0 [|b1 [|]]]; try done.
  unfold decode_entry, encode_entry. f_equal; cbn -[le_encode s32].
  - by destruct u.
  - cbn -[s32 Z.div Z.modulo]. change (s32 (le_decode (le_encode 4 (u32 sec))) = sec).
    rewrite le_decode_encode. change (256 ^ Z.of_nat 4) with wordsize. fold (u32 (u32 sec)).
    rewrite !s32_u32. by apply s32_id.
Qed.

Lemma encode_entry_bytes e : entry_ok e → Forall is_byte (encode_entry e).
Proof.
  intros [_ _ _ _ (H1&H2&H3)]. unfold encode_entry. constructor; [destruct (inUse e); by unfold_int|].
  rewrite !Forall_app. split_and!; try done. apply le_encode_bytes.
Qed.

Lemma length_encode_table t : Forall entry_ok t → length (encode_table t) = (20 * length t)%nat.
Proof.
  unfold encode_table. induction 1 as [|e t He _ IH]; [done|]. cbn [map concat length].
  rewrite length_app, IH, length_encode_entry by done. lia.
Qed.

Lemma encode_table_bytes t : Forall entry_ok t → Forall is_byte (encode_table t).
Proof.
  unfold encode_table. induction 1 as [|e t He _ IH]; [constructor|]. cbn [map concat].
  apply Forall_app. split; [by apply encode_entry_bytes|done].
Qed.

Lemma decode_encode_table t : Forall entry_ok t → decode_table (length t) (encode_table t) = t.
Proof.
  unfold encode_table. induction 1 as [|e t He _ IH]; [done|]. cbn [length decode_table map concat].
  rewrite take_app_length', drop_app_length' by (by rewrite length_encode_entry).
  by rewrite IH, decode_encode_entry.
Qed.

Lemma decode_entry_ok l : length l = 20%nat → Forall is_byte l → entry_ok (decode_entry l).
Proof.
  intros Hl Hb. split; cbn; try (unfold slice; rewrite length_take, length_drop, Hl; done).
  - apply s32_range.
  - split_and!; by apply slice_Forall.
Qed.

Lemma length_decode_table n l : length (decode_table n l) = n.
Proof. revert l. induction n as [|n IH]; intros l; cbn; [done|]. by rewrite IH. Qed.

Lemma decode_table_ok n l :
  length l = (20 * n)%nat → Forall is_byte l → Forall entry_ok (decode_table n l).
Proof.
  revert l. induction n as [|n IH]; intros l Hl Hb; cbn [decode_table]; constructor.
  - apply decode_entry_ok; [rewrite length_take; lia|by apply Forall_take].
  - apply IH; [rewrite length_drop; lia|by apply Forall_drop].
Qed.

Lemma set_inUse_ok u e : entry_ok e → entry_ok (set_inUse u e).
Proof. by intros []. Qed.

Lemma fill_entry_ok nm sec e :
  entry_ok e → is_s32 sec → Forall is_byte nm → entry_ok (fill_entry nm sec e).
Proof.
  intros [H1 H2 H3 _ (H4&H5&H6)] Hs Hn. split; cbn [fill_entry pad0 pad1 name sector]; try done.
  - rewrite length_app, length_strncpy, length_drop, H2. done.
  - split_and!; try done. apply Forall_app. split; [by apply strncpy_bytes|by apply Forall_drop].
Qed.

Lemma ekey_fill nm sec e : ekey (fill_entry nm sec e) = key nm.
Proof. apply cstr_strncpy. Qed.

(** ** The entries in use *)

Definition active t : list DirectoryEntry := filter (λ e, inUse e = true) t.

Lemma active_fill t (i : nat) e e' :
  t !! i = Some e → inUse e = false → inUse e' = true → active (<[i := e']> t) ≡ₚ e' :: active t.
Proof.
  intros Hi He He'. pose proof (lookup_lt_Some _ _ _ Hi). unfold active.
  rewrite insert_take_drop by done. rewrite <- (take_drop_middle t i e Hi) at 3.
  rewrite !filter_app, filter_cons_True, filter_cons_False by (done || by rewrite He).
  by rewrite Permutation_middle.
Qed.

Lemma active_release t (i : nat) e e' :
  t !! i = Some e → inUse e = true → inUse e' = false → active t ≡ₚ e :: active (<[i := e']> t).
Proof.
  intros Hi He He'. pose proof (lookup_lt_Some _ _ _ Hi). unfold active.
  rewrite insert_take_drop by done. rewrite <- (take_drop_middle t i e Hi) at 1.
  rewrite !filter_app, filter_cons_True, filter_cons_False by (done || by rewrite He').
  by rewrite Permutation_middle.
Qed.

Lemma elem_of_active t e : e ∈ active t ↔ e ∈ t ∧ inUse e = true.
Proof. unfold active. rewrite list_elem_of_filter. naive_solver. Qed.

Record dir_ok (d : Directory) : Prop := {
  do_size : Z.of_nat (length (table d)) = tableSize d;
  do_entries : Forall entry_ok (table d);
  do_names : NoDup (ekey <$> active (table d))
}.

(** Entries indexed by their names, with a value [g] for each. *)
Definition index {A} (g : DirectoryEntry → A) (L : list DirectoryEntry) : gmap (list Z) A :=
  list_to_map ((λ e, (ekey e, g e)) <$> L).

Section INDEX.
Context {A : Type} (g : DirectoryEntry → A).
Implicit Types L : list DirectoryEntry.

Lemma index_keys L : ((λ e, (ekey e, g e)) <$> L).*1 = ekey <$> L.
Proof. by rewrite <- list_fmap_compose. Qed.

Lemma index_lookup L e : NoDup (ekey <$> L) → e ∈ L → index g L !! ekey e = Some (g e).
Proof.
  intros Hn He. apply elem_of_list_to_map_1; [by rewrite index_keys|]. apply list_elem_of_fmap. by exists e.
Qed.

Lemma index_None L k : k ∉ ekey <$> L → index g L !! k = None.
Proof. intros H. apply not_elem_of_list_to_map_1. by rewrite index_keys. Qed.

Lemma index_dom L k : NoDup (ekey <$> L) → k ∈ ekey <$> L ↔ is_Some (index g L !! k).
Proof.
  intros Hn. split.
  - intros (e&->&He)%list_elem_of_fmap. by rewrite (index_lookup L e).
  - intros [x Hx]. destruct (decide (k ∈ ekey <$> L)) as [|Hno]; [done|]. by rewrite (index_None L k Hno) in Hx.
Qed.

Lemma index_perm L L' : NoDup (ekey <$> L) → L ≡ₚ L' → index g L = index g L'.
Proof. intros Hn HP. apply list_to_map_proper; [by rewrite index_keys|by rewrite HP]. Qed.

Lemma index_cons L L' e :
  NoDup (ekey <$> L) → L ≡ₚ e :: L' →
  index g L = <[ekey e := g e]> (index g L') ∧ index g L' !! ekey e = None.
Proof.
  intros Hn HP. split; [by rewrite (index_perm _ _ Hn HP)|]. apply index_None.
  rewrite HP in Hn. cbn [fmap list_fmap] in Hn. by apply NoDup_cons in Hn as [? _].
Qed.

Lemma index_size L : NoDup (ekey <$> L) → size (index g L) = length L.
Proof.
  intros Hn. unfold index. rewrite <- (length_fmap (λ e, (ekey e, g e)) L). rewrite <- length_map_to_list.
  apply Permutation_length, map_to_list_to_map. by rewrite index_keys.
Qed.
End INDEX.

(** The directory as a map from names to sectors. *)
Definition dir_map (d : Directory) : gmap (list Z) Z := index sector (active (table d)).

Lemma FindIndex_loop_ok k (i : Z) t nm :
  0 ≤ i → i + Z.of_nat k = Z.of_nat (length t) →
  (∃ j e, FindIndex_loop k i t nm = Ok (Z.of_nat j) ∧ t !! j = Some e ∧ inUse e = true ∧ ekey e = key nm)
  ∨ (FindIndex_loop k i t nm = Ok (-1)
     ∧ ∀ j e, i ≤ Z.of_nat j → t !! j = Some e → inUse e = true → ekey e ≠ key nm).
Proof.
  revert i. induction k as [|k IH]; intros i Hi Hk; cbn [FindIndex_loop].
  { right. split; [done|]. intros j e Hj Hl%lookup_lt_Some. lia. }
  destruct (lookup_lt_is_Some_2 t (Z.to_nat i)) as [e He]; [lia|].
  rewrite (proj2 (aget_Ok t i e)) by (split; [lia|done]). cbn [mbind res_bind].
  destruct (inUse e && (strncmp (name e) nm FileNameMaxLen =? 0)) eqn:E.
  - apply andb_true_iff in E as [E1 E2%Z.eqb_eq%strncmp_eq]. left. exists (Z.to_nat i), e.
    rewrite Z2Nat.id by done. done.
  - destruct (IH (i + 1)) as [H|[-> H]]; [lia|lia|by left|right]. split; [done|].
    intros j e' Hj Hl Hu Hkey. destruct (decide (Z.of_nat j = i)) as [<-|].
    + rewrite Nat2Z.id in He. simplify_eq. rewrite Hu in E. cbn [andb] in E. apply Z.eqb_neq in E.
      apply E, strncmp_eq. exact Hkey.
    + by eapply (H j); [lia|..].
Qed.

Lemma FindIndex_ok nm d :
  dir_ok d →
  (∃ j e, FindIndex nm d = Ok (Z.of_nat j) ∧ table d !! j = Some e ∧ inUse e = true ∧ ekey e = key nm)
  ∨ (FindIndex nm d = Ok (-1) ∧ key nm ∉ ekey <$> active (table d)).
Proof.
  intros [Hs _ _]. destruct (FindIndex_loop_ok (Z.to_nat (tableSize d)) 0 (table d) nm) as [H|[H1 H2]];
    [lia|lia|by left|right]. split; [done|].
  intros (e&Hk&[Hin Hu]%elem_of_active)%list_elem_of_fmap.
  apply list_elem_of_lookup_1 in Hin as [j Hj]. eapply (H2 j e); [lia|done..].
Qed.

Lemma DFind_ok nm d : dir_ok d → Find nm d = Ok (default (-1) (dir_map d !! key nm)).
Proof.
  intros Hd. unfold Find. destruct (FindIndex_ok nm d Hd) as [(j&e&->&Hj&Hu&Hk)|[-> Hno]]; cbn [mbind res_bind].
  - destruct (Z.eqb_spec (Z.of_nat j) (-1)); [lia|]. cbn [negb].
    rewrite (proj2 (aget_Ok _ _ e)) by (rewrite Nat2Z.id; split; [lia|done]). cbn [mbind res_bind].
    rewrite <- Hk. unfold dir_map. rewrite (index_lookup _ _ e); [done|apply Hd|].
    apply elem_of_active. split; [by eapply list_elem_of_lookup_2|done].
  - unfold dir_map. by rewrite index_None.
Qed.

Lemma Add_loop_ok k (i : Z) t nm sec :
  0 ≤ i → i + Z.of_nat k = Z.of_nat (length t) →
  (∃ j e, Add_loop k i t nm sec = Ok (true, <[j := fill_entry nm sec e]> t) ∧ t !! j = Some e ∧ inUse e = false)
  ∨ (Add_loop k i t nm sec = Ok (false, t) ∧ ∀ j e, i ≤ Z.of_nat j → t !! j = Some e → inUse e = true).
Proof.
  revert i. induction k as [|k IH]; intros i Hi Hk; cbn [Add_loop].
  { right. split; [done|]. intros j e Hj Hl%lookup_lt_Some. lia. }
  destruct (lookup_lt_is_Some_2 t (Z.to_nat i)) as [e He]; [lia|].
  rewrite (proj2 (aget_Ok t i e)) by (split; [lia|done]). cbn [mbind res_bind].
  destruct (inUse e) eqn:E; cbn [negb].
  - destruct (IH (i + 1)) as [H|[-> H]]; [lia|lia|by left|right]. split; [done|].
    intros j e' Hj Hl. destruct (decide (Z.of_nat j = i)) as [<-|].
    + rewrite Nat2Z.id in He. congruence.
    + apply (H j e'); [lia|done].
  - left. exists (Z.to_nat i), e. rewrite aset_in by lia. done.
Qed.

Lemma active_full t : length (active t) = length t ↔ ∀ e, e ∈ t → inUse e = true.
Proof.
  unfold active. split.
  - intros Hl e He. destruct (inUse e) eqn:E; [done|]. exfalso.
    pose proof (length_filter_lt (λ e, inUse e = true) t e He ltac:(cbn; congruence)). lia.
  - intros H. rewrite list_filter_all; [done|]. by apply Forall_forall.
Qed.

(** Add succeeds when the name is new and an entry is free. *)
Lemma DAdd_ok nm sec d :
  dir_ok d → is_s32 sec → Forall is_byte nm →
  if bool_decide (key nm ∈ ekey <$> active (table d)) || bool_decide (length (active (table d)) = length (table d))
  then Add nm sec d = Ok (false, d)
  else ∃ e d', Add nm sec d = Ok (true, d') ∧ dir_ok d' ∧ tableSize d' = tableSize d
         ∧ active (table d') ≡ₚ e :: active (table d) ∧ ekey e = key nm ∧ sector e = sec.
Proof.
  intros Hd Hs Hb. unfold Add. destruct (FindIndex_ok nm d Hd) as [(j&e&->&Hj&Hu&Hk)|[-> Hno]]; cbn [mbind res_bind].
  { rewrite bool_decide_true.
    2: { apply list_elem_of_fmap. exists e. split; [done|]. apply elem_of_active.
         split; [by eapply list_elem_of_lookup_2|done]. }
    cbn [orb]. by destruct (Z.eqb_spec (Z.of_nat j) (-1)); [lia|]. }
  rewrite bool_decide_false by done. cbn [orb negb Z.eqb].
  destruct (Add_loop_ok (Z.to_nat (tableSize d)) 0 (table d) nm sec) as [(j&e&->&Hj&Hu)|[-> Hall]];
    [lia|rewrite (do_size _ Hd); pose proof (do_size _ Hd); lia| |]; cbn [mbind res_bind].
  - rewrite bool_decide_false. 2: { intros Hf. pose proof (proj1 (active_full _) Hf) as Hf'. apply list_elem_of_lookup_2 in Hj as Hin.
      rewrite (Hf' e Hin) in Hu. done. }
    pose proof (active_fill _ _ _ (fill_entry nm sec e) Hj Hu eq_refl) as HP.
    exists (fill_entry nm sec e). eexists. split; [done|]. split; [|by rewrite ekey_fill].
    destruct Hd as [H1 H2 H3]. split; cbn [table tableSize].
    + by rewrite length_insert.
    + apply Forall_insert; [done|]. apply fill_entry_ok; [|done..]. by eapply Forall_lookup_1.
    + rewrite HP. cbn [fmap list_fmap]. rewrite ekey_fill. by apply NoDup_cons.
  - rewrite bool_decide_true. { by destruct d. } apply (proj2 (active_full _)). intros e He.
    apply list_elem_of_lookup_1 in He as [j Hj]. apply (Hall j e); [lia|done].
Qed.

Lemma DRemove_ok nm d :
  dir_ok d →
  if bool_decide (key nm ∈ ekey <$> active (table d))
  then ∃ e d', Remove nm d = Ok (true, d') ∧ dir_ok d' ∧ tableSize d' = tableSize d
         ∧ active (table d) ≡ₚ e :: active (table d') ∧ ekey e = key nm
  else Remove nm d = Ok (false, d).
Proof.
  intros Hd. unfold Remove. destruct (FindIndex_ok nm d Hd) as [(j&e&->&Hj&Hu&Hk)|[-> Hno]]; cbn [mbind res_bind].
  2: by rewrite bool_decide_false.
  rewrite bool_decide_true.
  2: { apply list_elem_of_fmap. exists e. split; [done|]. apply elem_of_active.
       split; [by eapply list_elem_of_lookup_2|done]. }
  destruct (Z.eqb_spec (Z.of_nat j) (-1)); [lia|].
  rewrite (proj2 (aget_Ok _ _ e)) by (rewrite Nat2Z.id; split; [lia|done]). cbn [mbind res_bind].
  pose proof (lookup_lt_Some _ _ _ Hj). rewrite aset_in by lia. cbn [mbind res_bind]. rewrite Nat2Z.id.
  pose proof (active_release _ _ _ (set_inUse false e) Hj Hu eq_refl) as HP.
  exists e. eexists. split; [done|]. split; [|done].
  destruct Hd as [H1 H2 H3]. split; cbn [table tableSize].
  - by rewrite length_insert.
  - apply Forall_insert; [done|]. apply set_inUse_ok. by eapply Forall_lookup_1.
  - rewrite HP in H3. cbn [fmap list_fmap] in H3. by apply NoDup_cons in H3 as [_ H3].
Qed.

(** ** The tables in their files *)

Section STORE.
Import FileSpec BitmapSpec DiskSpec.
Context {S : Type} `{SD : SectorDisk S} (fresh : nat → list Z).
Context (fresh_length : ∀ n, length (fresh n) = n) (fresh_bytes : ∀ n, Forall is_byte (fresh n)).
Implicit Types (f : OpenFile) (ds : list (list Z)) (s : S).

(** Reading and writing a whole file. *)
Lemma read_whole f ds s :
  HdrOk (hdr f) → sec_rep s ds →
  ∃ s', ReadAt fresh f (FileHeader.numBytes (hdr f)) 0 s = Ok (data (hdr f) ds, s') ∧ sec_rep s' ds.
Proof.
  intros Hh Hs. pose proof (HdrOk_fits _ Hh : _ ≤ 3840) as Hfit. pose proof (ho_bytes _ Hh).
  destruct (ReadAt_ok fresh fresh_length f ds s (FileHeader.numBytes (hdr f)) 0 Hh Hs) as (s'&->&Hs');
    [lia|unfold_int; lia|]. exists s'. split; [|done].
  pose proof (length_data (hdr f) ds Hh (sec_shape _ _ Hs)).
  unfold slice. rewrite drop_0, take_ge by lia. done.
Qed.

Lemma write_whole f ds s (bytes : list Z) :
  HdrOk (hdr f) → sec_rep s ds → Z.of_nat (length bytes) = FileHeader.numBytes (hdr f) → Forall is_byte bytes →
  ∃ ds' n s', WriteAt fresh f bytes (FileHeader.numBytes (hdr f)) 0 s = Ok (n, s') ∧ sec_rep s' ds'
    ∧ (∀ k, k ∉ blocks (hdr f) → 0 ≤ k → ds' !! Z.to_nat k = ds !! Z.to_nat k)
    ∧ data (hdr f) ds' = bytes.
Proof.
  intros Hh Hs Hl Hb. pose proof (HdrOk_fits _ Hh : _ ≤ 3840) as Hfit. pose proof (ho_bytes _ Hh).
  destruct (WriteAt_ok fresh fresh_length fresh_bytes f ds s bytes (FileHeader.numBytes (hdr f)) 0 Hh Hs)
    as (ds'&s'&->&Hs'&Ho&Hd); [lia|unfold_int; lia|done|lia|].
  exists ds'. eexists _, s'. split; [done|]. split; [done|]. split; [done|]. rewrite Hd.
  pose proof (length_data (hdr f) ds Hh (sec_shape _ _ Hs)).
  unfold written. rewrite take_ge by lia. unfold splice. cbn [app take Z.to_nat].
  rewrite drop_ge by lia. by rewrite app_nil_r.
Qed.

Lemma copy_over (old d : list Z) : length d = length old → copy_in old 0 d = Ok d.
Proof.
  intros Hl. rewrite copy_in_ok by lia. unfold splice. cbn [app take Z.to_nat]. rewrite drop_ge by lia.
  by rewrite app_nil_r.
Qed.

Lemma u32_words ws : Forall is_u32 ws → u32 <$> words_decode (length ws) (words_encode ws) = ws.
Proof.
  induction 1 as [|w ws Hw _ IH]; [done|]. unfold words_encode in *. cbn [length words_decode map concat fmap list_fmap].
  rewrite take_app_length', drop_app_length' by (by rewrite length_le_encode).
  f_equal; [|exact IH]. rewrite le_decode_encode. change (256 ^ Z.of_nat 4) with wordsize.
  assert (Hu : u32 w = w) by (apply Z.mod_small; exact Hw).
  fold (u32 (u32 w)). by rewrite u32_s32, !Hu.
Qed.

Definition FreeMapBytes : Z := Z.quot NumSectors Bitmap.BitsInByte.

Lemma map_bytes_length b (used : gset Z) :
  Marked b NumSectors used → Z.of_nat (length (PersistentBitmap.map_bytes b)) = FreeMapBytes
  ∧ Bitmap.numWords b * 4 = FreeMapBytes.
Proof.
  intros [(H1&H2&H3&H4&_) _]. unfold PersistentBitmap.map_bytes. rewrite length_words_encode.
  assert (H32 : Bitmap.numWords b = 32) by (rewrite H3; reflexivity). rewrite H4, H32.
  change FreeMapBytes with 128. lia.
Qed.

Lemma bitmap_fetched f ds s b (used : gset Z) :
  HdrOk (hdr f) → FileHeader.numBytes (hdr f) = FreeMapBytes → sec_rep s ds → Marked b NumSectors used →
  data (hdr f) ds = PersistentBitmap.map_bytes b →
  ∃ s', PersistentBitmap.new_PersistentBitmap_from fresh f NumSectors s = Ok (b, s') ∧ sec_rep s' ds.
Proof.
  intros Hh Hn Hs HM Hd. unfold PersistentBitmap.new_PersistentBitmap_from.
  destruct (new_Bitmap_spec NumSectors) as (b0&->&HM0); [done|]. cbn [mbind res_bind].
  destruct (map_bytes_length b0 _ HM0) as [Hl0 ->]. destruct (map_bytes_length b _ HM) as [Hl _]. rewrite <- Hn.
  destruct (read_whole f ds s Hh Hs) as (s'&->&Hs'). cbn [mbind res_bind]. exists s'. split; [|done].
  unfold PersistentBitmap.overwrite. rewrite Hd, copy_over by lia. cbn [mbind res_bind].
  destruct HM0 as [(_&E1&E2&E3&_) _]. destruct HM as [(_&F1&F2&F3&F4) _].
  replace (length (Bitmap.map b0)) with (length (Bitmap.map b)) by congruence.
  unfold PersistentBitmap.map_bytes. rewrite u32_words by done. destruct b; cbn in *. congruence.
Qed.

Lemma bitmap_written f ds s b (used : gset Z) :
  HdrOk (hdr f) → FileHeader.numBytes (hdr f) = FreeMapBytes → sec_rep s ds → Marked b NumSectors used →
  ∃ ds' s', PersistentBitmap.WriteBack fresh f b s = Ok s' ∧ sec_rep s' ds'
    ∧ (∀ k, k ∉ blocks (hdr f) → 0 ≤ k → ds' !! Z.to_nat k = ds !! Z.to_nat k)
    ∧ data (hdr f) ds' = PersistentBitmap.map_bytes b.
Proof.
  intros Hh Hn Hs HM. destruct (map_bytes_length b _ HM) as [Hl Hw]. unfold PersistentBitmap.WriteBack.
  rewrite Hw, <- Hn. destruct (write_whole f ds s (PersistentBitmap.map_bytes b) Hh Hs) as (ds'&n&s'&->&H);
    [lia|apply words_encode_bytes|]. by exists ds', s'.
Qed.

Lemma new_Directory_ok (n : Z) :
  0 ≤ n → dir_ok (new_Directory fresh n) ∧ active (table (new_Directory fresh n)) = []
          ∧ tableSize (new_Directory fresh n) = n.
Proof.
  intros Hn. set (t := table (new_Directory fresh n)).
  assert (Ht : Forall (λ e, inUse e = false) t).
  { apply Forall_fmap, Forall_forall. done. }
  assert (Ha : active t = []).
  { unfold active. induction Ht as [|e t' He _ IH]; [done|]. rewrite filter_cons_False by (by rewrite He). done. }
  split; [|done]. split; fold t.
  - unfold t. cbn. rewrite length_fmap, length_decode_table. lia.
  - unfold t. cbn. apply Forall_fmap. eapply Forall_impl; [|by intros e; apply set_inUse_ok].
    apply decode_table_ok; [rewrite fresh_length; unfold EntrySize; lia|apply fresh_bytes].
  - rewrite Ha. apply NoDup_nil_2.
Qed.

Lemma directory_fetched f ds s d d0 :
  HdrOk (hdr f) → FileHeader.numBytes (hdr f) = tableSize d * EntrySize → sec_rep s ds →
  dir_ok d → dir_ok d0 → tableSize d0 = tableSize d → data (hdr f) ds = encode_table (table d) →
  ∃ s', FetchFrom fresh f d0 s = Ok (d, s') ∧ sec_rep s' ds.
Proof.
  intros Hh Hn Hs Hd Hd0 Hsz Hdata. unfold FetchFrom. rewrite Hsz, <- Hn.
  destruct (read_whole f ds s Hh Hs) as (s'&->&Hs'). cbn [mbind res_bind]. exists s'. split; [|done].
  pose proof (do_size _ Hd). pose proof (do_size _ Hd0).
  pose proof (length_encode_table _ (do_entries _ Hd)). pose proof (length_encode_table _ (do_entries _ Hd0)).
  assert (El : length (table d0) = length (table d)) by lia.
  rewrite Hdata, copy_over by lia. cbn [mbind res_bind]. rewrite El, decode_encode_table by apply Hd.
  by destruct d.
Qed.

Lemma directory_written f ds s d :
  HdrOk (hdr f) → FileHeader.numBytes (hdr f) = tableSize d * EntrySize → sec_rep s ds → dir_ok d →
  ∃ ds' s', WriteBack fresh f d s = Ok s' ∧ sec_rep s' ds'
    ∧ (∀ k, k ∉ blocks (hdr f) → 0 ≤ k → ds' !! Z.to_nat k = ds !! Z.to_nat k)
    ∧ data (hdr f) ds' = encode_table (table d).
Proof.
  intros Hh Hn Hs Hd. pose proof (do_size _ Hd). pose proof (length_encode_table _ (do_entries _ Hd)).
  unfold WriteBack. rewrite <- Hn.
  destruct (write_whole f ds s (encode_table (table d)) Hh Hs) as (ds'&n&s'&->&H');
    [rewrite Hn; unfold EntrySize; lia|apply encode_table_bytes, Hd|]. by exists ds', s'.
Qed.
End STORE.
End DirectorySpec.

Section PROPERTIES.
Import CString Directory DirectorySpec.

(** A directory is a finite map from names to sectors, where
    a name counts up to its first nine characters.  Find looks the name up, -1
    when it is absent; Add enters it when it is absent and the table has a free
    entry and otherwise changes nothing; Remove deletes it, and changes nothing
    when it is absent. *)
Theorem directory_refines_map (d : Directory) (nm : list Z) (sec : Z)
    (Hd : dir_ok d) (Hsec : is_s32 sec) (Hnm : Forall is_byte nm) :
  Find nm d = Ok (default (-1) (dir_map d !! key nm))
  ∧ (if bool_decide (is_Some (dir_map d !! key nm)) || bool_decide (length (active (table d)) = length (table d))
     then Add nm sec d = Ok (false, d)
     else ∃ d', Add nm sec d = Ok (true, d') ∧ dir_ok d' ∧ dir_map d' = <[key nm := sec]> (dir_map d))
  ∧ (if bool_decide (is_Some (dir_map d !! key nm))
     then ∃ d', Remove nm d = Ok (true, d') ∧ dir_ok d' ∧ dir_map d' = delete (key nm) (dir_map d)
     else Remove nm d = Ok (false, d)).
Proof.
  split; [by apply DFind_ok|].
  rewrite (bool_decide_ext _ _ (iff_sym (index_dom sector _ (key nm) (do_names _ Hd)))). split.
  - pose proof (DAdd_ok nm sec d Hd Hsec Hnm) as H. case_match; [done|].
    destruct H as (e&d'&E&Hd'&_&HP&<-&<-). exists d'. split; [done|]. split; [done|].
    by apply index_cons; [apply Hd'|].
  - pose proof (DRemove_ok nm d Hd) as H. case_match; [|done].
    destruct H as (e&d'&E&Hd'&_&HP&<-). exists d'. split; [done|]. split; [done|].
    unfold dir_map. destruct (index_cons sector _ _ e (do_names _ Hd) HP) as [-> Hno]. by rewrite delete_insert_id.
Qed.
End PROPERTIES.

(** A directory of four entries that holds the name "ab". *)
Definition sample_directory : Directory.Directory :=
  Directory.mkDirectory 4 (Directory.fill_entry [97; 98] 7 (Directory.decode_entry (replicate 20 0))
    :: replicate 3 (Directory.decode_entry (replicate 20 0))).

Lemma sample_directory_ok : DirectorySpec.dir_ok sample_directory.
Proof.
  assert (H0 : DirectorySpec.entry_ok (Directory.decode_entry (replicate 20 0))).
  { apply DirectorySpec.decode_entry_ok; [done|]. apply Forall_replicate. by unfold_int. }
  split.
  - done.
  - constructor; [|by repeat constructor].
    apply DirectorySpec.fill_entry_ok; [done|by unfold_int|repeat constructor; by unfold_int].
  - apply NoDup_singleton.
Qed.

Lemma directory_refines_map_witness :
  ∃ d', Directory.Add [99; 100] 9 sample_directory = Ok (true, d')
    ∧ DirectorySpec.dir_map d' = <[[99; 100] := 9]> (DirectorySpec.dir_map sample_directory).
Proof.
  destruct (directory_refines_map sample_directory [99; 100] 9 sample_directory_ok) as (_&H&_).
  - by unfold_int.
  - repeat constructor; by unfold_int.
  - destruct H as (d'&E&_&M). exists d'. split; [exact E|exact M].
Defined.
