(* ===== verification/FileSys.v ===== *)
(** filesys/filesys.{h,cc} (the version that is compiled without FILESYS_STUB):
    formatting, creating, opening and removing files by name.

    Module FileSystem holds the operations; Module FileSysSpec the invariant of
    the data structures on disk and their reading as a finite map from names to
    file contents.  The debugging output (List, Print) is left out. *)

From S2P Require Import Prelude BitmapLib Interrupt Disk FileIO Directory.
Import Disk OpenFile Directory.

Module FileSystem.

Definition FreeMapSector : Z := 0.
Definition DirectorySector : Z := 1.
Definition FreeMapFileSize : Z := Z.quot NumSectors Bitmap.BitsInByte.
Definition NumDirEntries : Z := 10.
Definition DirectoryFileSize : Z := EntrySize * NumDirEntries.

Record FileSystem := mkFileSystem { freeMapFile : OpenFile; directoryFile : OpenFile }.

Section DISK.
Context {S : Type} `{SectorDisk S} (fresh : nat → list Z).

(** [new FileHeader]: the contents are indeterminate. *)
Definition new_FileHeader : FileHeader.FileHeader := FileHeader.decode (fresh (Z.to_nat SectorSize)).

Definition open_files (s : S) : res (FileSystem * S) :=
  '(freeMapFile, s) ← new_OpenFile FreeMapSector s;
  '(directoryFile, s) ← new_OpenFile DirectorySector s;
  Ok (mkFileSystem freeMapFile directoryFile, s).

Definition new_FileSystem (format : bool) (s : S) : res (FileSystem * S) :=
  if format then
    freeMap ← PersistentBitmap.new_PersistentBitmap NumSectors;
    let directory := new_Directory fresh NumDirEntries in
    freeMap ← Bitmap.Mark FreeMapSector freeMap;
    freeMap ← Bitmap.Mark DirectorySector freeMap;
    '(ok, mapHdr, freeMap) ← FileHeader.Allocate new_FileHeader freeMap FreeMapFileSize;
    ASSERT ok ;;
    '(ok, dirHdr, freeMap) ← FileHeader.Allocate new_FileHeader freeMap DirectoryFileSize;
    ASSERT ok ;;
    s ← FileHeader.WriteBack mapHdr FreeMapSector s;
    s ← FileHeader.WriteBack dirHdr DirectorySector s;
    '(fs, s) ← open_files s;
    s ← PersistentBitmap.WriteBack fresh (freeMapFile fs) freeMap s;
    s ← Directory.WriteBack fresh (directoryFile fs) directory s;
    Ok (fs, s)
  else open_files s.

Definition Create (fs : FileSystem) (nm : list Z) (initialSize : Z) (s : S) : res (bool * S) :=
  let directory := new_Directory fresh NumDirEntries in
  '(directory, s) ← Directory.FetchFrom fresh (directoryFile fs) directory s;
  found ← Find nm directory;
  if negb (found =? -1) then Ok (false, s)
  else
    '(freeMap, s) ← PersistentBitmap.new_PersistentBitmap_from fresh (freeMapFile fs) NumSectors s;
    '(sector, freeMap) ← Bitmap.FindAndSet freeMap;
    if sector =? -1 then Ok (false, s)
    else
      '(added, directory) ← Add nm sector directory;
      if negb added then Ok (false, s)
      else
        '(ok, hdr, freeMap) ← FileHeader.Allocate new_FileHeader freeMap initialSize;
        if negb ok then Ok (false, s)
        else
          s ← FileHeader.WriteBack hdr sector s;
          s ← Directory.WriteBack fresh (directoryFile fs) directory s;
          s ← PersistentBitmap.WriteBack fresh (freeMapFile fs) freeMap s;
          Ok (true, s).

(** NULL is [None]. *)
Definition Open (fs : FileSystem) (nm : list Z) (s : S) : res (option OpenFile * S) :=
  let directory := new_Directory fresh NumDirEntries in
  '(directory, s) ← Directory.FetchFrom fresh (directoryFile fs) directory s;
  sector ← Find nm directory;
  if 0 <=? sector then '(f, s) ← new_OpenFile sector s; Ok (Some f, s)
  else Ok (None, s).

Definition Remove (fs : FileSystem) (nm : list Z) (s : S) : res (bool * S) :=
  let directory := new_Directory fresh NumDirEntries in
  '(directory, s) ← Directory.FetchFrom fresh (directoryFile fs) directory s;
  sector ← Find nm directory;
  if sector =? -1 then Ok (false, s)
  else
    '(fileHdr, s) ← FileHeader.FetchFrom sector s;
    '(freeMap, s) ← PersistentBitmap.new_PersistentBitmap_from fresh (freeMapFile fs) NumSectors s;
    freeMap ← FileHeader.Deallocate fileHdr freeMap;
    freeMap ← Bitmap.Clear sector freeMap;
    '(_, directory) ← Directory.Remove nm directory;
    s ← PersistentBitmap.WriteBack fresh (freeMapFile fs) freeMap s;
    s ← Directory.WriteBack fresh (directoryFile fs) directory s;
    Ok (true, s).
End DISK.
End FileSystem.

Module FileSysSpec.
Import FileSystem FileSpec BitmapSpec DirectorySpec.
Implicit Types (fs : FileSystem) (ds : list (list Z)) (d : Directory) (e : DirectoryEntry).

(** ** Files on a sector array *)

(** The header behind an entry, the sectors of its file, its contents. *)
Definition file_hdr ds e : FileHeader.FileHeader := FileHeader.decode (ds !!! Z.to_nat (sector e)).
Definition own ds e : list Z := sector e :: blocks (file_hdr ds e).
Definition contents ds e : list Z := data (file_hdr ds e) ds.

(** [ds'] agrees with [ds] on the sectors [ks]. *)
Definition agree (ks : list Z) ds ds' : Prop :=
  Forall (λ k, 0 ≤ k ∧ ds' !! Z.to_nat k = ds !! Z.to_nat k) ks.

Lemma agree_total ks ds ds' k : agree ks ds ds' → k ∈ ks → ds' !!! Z.to_nat k = ds !!! Z.to_nat k.
Proof.
  intros Ha Hk. apply (proj1 (Forall_forall _ _) Ha) in Hk as [_ E].
  by rewrite !list_lookup_total_alt, E.
Qed.

Lemma agree_sub ks ks' ds ds' : ks' ⊆ ks → agree ks ds ds' → agree ks' ds ds'.
Proof. unfold agree. rewrite !Forall_forall. intros Hs Ha k Hk. by apply Ha, Hs. Qed.

Lemma data_frame h ds ds' : agree (blocks h) ds ds' → data h ds' = data h ds.
Proof.
  intros Ha. unfold data, content, chunks. do 2 f_equal. apply list_fmap_ext.
  intros i k Hk. apply list_elem_of_lookup_2 in Hk. by eapply agree_total.
Qed.

Lemma file_frame ds ds' e :
  agree (own ds e) ds ds' →
  file_hdr ds' e = file_hdr ds e ∧ own ds' e = own ds e ∧ contents ds' e = contents ds e.
Proof.
  intros Ha. assert (Eh : file_hdr ds' e = file_hdr ds e).
  { unfold file_hdr. f_equal. eapply agree_total; [exact Ha|]. constructor. }
  split; [done|]. unfold own, contents. rewrite Eh. split; [done|].
  apply data_frame. eapply agree_sub; [|exact Ha]. unfold own. clear. set_solver.
Qed.

Record file_ok ds e : Prop := {
  fo_hdr : HdrOk (file_hdr ds e);
  fo_disk : ds !! Z.to_nat (sector e) = Some (FileHeader.encode (file_hdr ds e))
}.

Lemma files_frame ds ds' (L : list DirectoryEntry) :
  agree (concat (own ds <$> L)) ds ds' → Forall (file_ok ds) L →
  Forall (file_ok ds') L ∧ own ds' <$> L = own ds <$> L
  ∧ index (contents ds') L = index (contents ds) L.
Proof.
  intros Ha HL. induction HL as [|e L He _ IH]; [done|]. cbn [fmap list_fmap concat] in *.
  destruct IH as (H1&H2&H3); [eapply agree_sub; [|exact Ha]; set_solver|].
  destruct (file_frame ds ds' e) as (E1&E2&E3); [eapply agree_sub; [|exact Ha]; set_solver|].
  split; [|split; [by rewrite E2, H2|]].
  2: { unfold index in *. cbn [fmap list_fmap list_to_map foldr] in *. by rewrite E3, H3. }
  constructor; [|done].
  destruct He as [He1 He2]. split; rewrite ?E1; [done|]. rewrite <- He2.
  assert (Hin : sector e ∈ own ds e ++ concat (own ds <$> L)) by (unfold own; clear; set_solver).
  by apply (proj1 (Forall_forall _ _) Ha) in Hin as [_ ?].
Qed.

(** ** The invariant *)

Definition owned fs ds d : list Z :=
  FreeMapSector :: DirectorySector :: blocks (hdr (freeMapFile fs)) ++ blocks (hdr (directoryFile fs))
    ++ concat (own ds <$> active (table d)).

(** The two files of the file system itself. *)
Record Tables fs ds : Prop := {
  tb_map : HdrOk (hdr (freeMapFile fs));
  tb_mapSize : FileHeader.numBytes (hdr (freeMapFile fs)) = FreeMapFileSize;
  tb_mapHdr : ds !! Z.to_nat FreeMapSector = Some (FileHeader.encode (hdr (freeMapFile fs)));
  tb_dir : HdrOk (hdr (directoryFile fs));
  tb_dirSize : FileHeader.numBytes (hdr (directoryFile fs)) = DirectoryFileSize;
  tb_dirHdr : ds !! Z.to_nat DirectorySector = Some (FileHeader.encode (hdr (directoryFile fs)))
}.

Record FSInv fs ds d (b : Bitmap.Bitmap) : Prop := {
  fi_tables : Tables fs ds;
  fi_dir : dir_ok d;
  fi_size : tableSize d = NumDirEntries;
  fi_dirData : data (hdr (directoryFile fs)) ds = encode_table (table d);
  fi_bits : Marked b NumSectors (list_to_set (owned fs ds d));
  fi_mapData : data (hdr (freeMapFile fs)) ds = PersistentBitmap.map_bytes b;
  fi_files : Forall (file_ok ds) (active (table d));
  fi_owned : NoDup (owned fs ds d)
}.

(** The file system as a map from names to contents. *)
Definition files ds d : gmap (list Z) (list Z) :=
  index (contents ds) (active (table d)).


Lemma owned_range fs ds d b k : FSInv fs ds d b → k ∈ owned fs ds d → 0 ≤ k < NumSectors.
Proof. intros HI Hk. eapply Marked_range; [apply HI|]. set_solver. Qed.

Lemma owned_size fs ds d : NoDup (owned fs ds d) →
  size (list_to_set (owned fs ds d) : gset Z) = length (owned fs ds d).
Proof. intros Hn. by rewrite size_list_to_set. Qed.

Lemma block_nonneg h k : HdrOk h → k ∈ blocks h → 0 ≤ k.
Proof. intros Hh [i Hi]%list_elem_of_lookup_1. destruct (block_range h i k Hh Hi). done. Qed.

(** Agreement outside some sectors gives agreement on what is disjoint from
    them. *)
Lemma agree_outside (P : Z → Prop) (ks : list Z) ds ds' :
  (∀ k, ¬ P k → 0 ≤ k → ds' !! Z.to_nat k = ds !! Z.to_nat k) →
  (∀ k, k ∈ ks → 0 ≤ k ∧ ¬ P k) → agree ks ds ds'.
Proof. intros Ho Hk. apply Forall_forall. intros k Hin. destruct (Hk k Hin). split; [done|by apply Ho]. Qed.

Lemma elem_of_concat (k : Z) (ls : list (list Z)) : k ∈ concat ls ↔ ∃ l, l ∈ ls ∧ k ∈ l.
Proof. induction ls as [|l ls IH]; cbn [concat]; [set_solver|]. rewrite elem_of_app, IH. set_solver. Qed.

Section PROOFS.
Context {S : Type} `{SD : SectorDisk S} (fresh : nat → list Z).
Context (fresh_length : ∀ n, length (fresh n) = n) (fresh_bytes : ∀ n, Forall is_byte (fresh n)).
Implicit Types s : S.

Lemma fetch_directory fs ds d b s :
  FSInv fs ds d b → sec_rep s ds →
  ∃ s', Directory.FetchFrom fresh (directoryFile fs) (new_Directory fresh NumDirEntries) s = Ok (d, s')
    ∧ sec_rep s' ds.
Proof.
  intros HI Hs. destruct (new_Directory_ok fresh fresh_length fresh_bytes NumDirEntries) as (H1&_&H2); [done|].
  apply (directory_fetched fresh fresh_length); try apply HI; try done.
  - by rewrite (tb_dirSize _ _ (fi_tables _ _ _ _ HI)), (fi_size _ _ _ _ HI).
  - by rewrite H2, (fi_size _ _ _ _ HI).
Qed.

Lemma fetch_map fs ds d b s :
  FSInv fs ds d b → sec_rep s ds →
  ∃ s', PersistentBitmap.new_PersistentBitmap_from fresh (freeMapFile fs) NumSectors s = Ok (b, s')
    ∧ sec_rep s' ds.
Proof.
  intros HI Hs. eapply (bitmap_fetched fresh fresh_length); try apply HI; try done.
Qed.

Lemma new_FileHeader_object : header_object (new_FileHeader fresh).
Proof.
  unfold new_FileHeader, FileHeader.decode, header_object. cbn [words_decode Z.to_nat].
  cbn. split; [done|]. repeat constructor; apply s32_range.
Qed.

(** Writing the two tables, in either order. *)
Lemma flush_dir_map fs ds d b (used : gset Z) s :
  Tables fs ds → sec_rep s ds → dir_ok d → tableSize d = NumDirEntries → Marked b NumSectors used →
  blocks (hdr (freeMapFile fs)) ## blocks (hdr (directoryFile fs)) →
  ∃ ds' s1 s2, Directory.WriteBack fresh (directoryFile fs) d s = Ok s1
    ∧ PersistentBitmap.WriteBack fresh (freeMapFile fs) b s1 = Ok s2 ∧ sec_rep s2 ds'
    ∧ (∀ k, ¬ (k ∈ blocks (hdr (freeMapFile fs)) ++ blocks (hdr (directoryFile fs))) → 0 ≤ k →
         ds' !! Z.to_nat k = ds !! Z.to_nat k)
    ∧ data (hdr (directoryFile fs)) ds' = encode_table (table d)
    ∧ data (hdr (freeMapFile fs)) ds' = PersistentBitmap.map_bytes b.
Proof.
  intros HT Hs Hd Hn HM Hdis. destruct HT as [H1 H2 H3 H4 H5 H6].
  destruct (directory_written fresh fresh_length fresh_bytes (directoryFile fs) ds s d)
    as (ds1&s1&E1&Hs1&Ho1&Hd1); [done|by rewrite H5, Hn|done|done|].
  destruct (bitmap_written fresh fresh_length fresh_bytes (freeMapFile fs) ds1 s1 b used)
    as (ds2&s2&E2&Hs2&Ho2&Hd2); [done|by rewrite H2|done|done|].
  exists ds2, s1, s2. do 3 (split; [done|]). split; [|split; [|done]].
  - intros k Hk Hk0. rewrite Ho2, Ho1 by set_solver. done.
  - rewrite <- Hd1. apply data_frame. apply (agree_outside (λ k, k ∈ blocks (hdr (freeMapFile fs)))); [done|].
    intros k Hk. split; [by apply (block_nonneg _ k H4)|set_solver].
Qed.

Lemma flush_map_dir fs ds d b (used : gset Z) s :
  Tables fs ds → sec_rep s ds → dir_ok d → tableSize d = NumDirEntries → Marked b NumSectors used →
  blocks (hdr (freeMapFile fs)) ## blocks (hdr (directoryFile fs)) →
  ∃ ds' s1 s2, PersistentBitmap.WriteBack fresh (freeMapFile fs) b s = Ok s1
    ∧ Directory.WriteBack fresh (directoryFile fs) d s1 = Ok s2 ∧ sec_rep s2 ds'
    ∧ (∀ k, ¬ (k ∈ blocks (hdr (freeMapFile fs)) ++ blocks (hdr (directoryFile fs))) → 0 ≤ k →
         ds' !! Z.to_nat k = ds !! Z.to_nat k)
    ∧ data (hdr (directoryFile fs)) ds' = encode_table (table d)
    ∧ data (hdr (freeMapFile fs)) ds' = PersistentBitmap.map_bytes b.
Proof.
  intros HT Hs Hd Hn HM Hdis. destruct HT as [H1 H2 H3 H4 H5 H6].
  destruct (bitmap_written fresh fresh_length fresh_bytes (freeMapFile fs) ds s b used)
    as (ds1&s1&E1&Hs1&Ho1&Hd1); [done|by rewrite H2|done|done|].
  destruct (directory_written fresh fresh_length fresh_bytes (directoryFile fs) ds1 s1 d)
    as (ds2&s2&E2&Hs2&Ho2&Hd2); [done|by rewrite H5, Hn|done|done|].
  exists ds2, s1, s2. do 3 (split; [done|]). split; [|split; [done|]].
  - intros k Hk Hk0. rewrite Ho2, Ho1 by set_solver. done.
  - rewrite <- Hd1. apply data_frame. apply (agree_outside (λ k, k ∈ blocks (hdr (directoryFile fs)))); [done|].
    intros k Hk. split; [by apply (block_nonneg _ k H1)|set_solver].
Qed.

(** The state of the disk [s] holds the files [m]. *)
Definition FS fs s (m : gmap (list Z) (list Z)) : Prop :=
  ∃ ds d b, sec_rep s ds ∧ FSInv fs ds d b ∧ m = files ds d.

Lemma owned_parts fs ds d :
  NoDup (owned fs ds d) →
  blocks (hdr (freeMapFile fs)) ## blocks (hdr (directoryFile fs))
  ∧ (∀ k, k ∈ [FreeMapSector; DirectorySector] ++ concat (own ds <$> active (table d)) →
       ¬ (k ∈ blocks (hdr (freeMapFile fs)) ++ blocks (hdr (directoryFile fs)))).
Proof.
  unfold owned. intros Hn. rewrite !NoDup_cons, !NoDup_app in Hn.
  destruct Hn as (H1&H2&H3&H4&H5&H6&H7). split.
  - intros k Hk1 Hk2. eapply H4; [done|]. set_solver.
  - intros k Hk1 Hk2. set_solver.
Qed.

Lemma concat_perm (l1 l2 : list (list Z)) : l1 ≡ₚ l2 → concat l1 ≡ₚ concat l2.
Proof.
  induction 1 as [|x l1 l2 _ IH|x y l|l1 l2 l3 _ IH1 _ IH2]; cbn.
  - done.
  - by rewrite IH.
  - by rewrite !app_assoc, (Permutation_app_comm y x).
  - by etrans.
Qed.

(** The sectors in use after an entry [e] has come to the entries of [d]. *)
Lemma owned_cons fs ds ds' d d' e :
  active (table d') ≡ₚ e :: active (table d) → own ds' <$> active (table d) = own ds <$> active (table d) →
  owned fs ds' d' ≡ₚ own ds' e ++ owned fs ds d.
Proof.
  intros HP Ho. unfold owned.
  rewrite (concat_perm _ (own ds' e :: (own ds <$> active (table d)))) by (by rewrite HP; cbn [fmap list_fmap]; rewrite Ho).
  cbn [concat]. set (A := blocks _). set (B := blocks _). set (C := concat _). set (X := own ds' e).
  transitivity ((FreeMapSector :: DirectorySector :: A ++ B) ++ X ++ C); [by rewrite !app_comm_cons, !app_assoc|].
  rewrite Permutation_app_swap_app. apply Permutation_app_head. by rewrite <- !app_comm_cons, <- !app_assoc.
Qed.

Lemma Tables_frame fs ds ds' :
  Tables fs ds → agree [FreeMapSector; DirectorySector] ds ds' → Tables fs ds'.
Proof.
  intros [H1 H2 H3 H4 H5 H6] Ha. unfold agree in Ha. rewrite !Forall_cons in Ha.
  destruct Ha as ([_ E1]&[_ E2]&_). split; try done; congruence.
Qed.

Lemma fi_dis fs ds d b : FSInv fs ds d b → blocks (hdr (freeMapFile fs)) ## blocks (hdr (directoryFile fs)).
Proof. intros HI. by destruct (owned_parts fs ds d (fi_owned _ _ _ _ HI)). Qed.

(** The disk after the tables have been flushed agrees with the one before on
    everything but the tables. *)
Lemma flush_agree fs ds d b ds1 ds' (ks : list Z) :
  FSInv fs ds d b → ks ⊆ [FreeMapSector; DirectorySector] ++ concat (own ds <$> active (table d)) →
  agree ks ds ds1 →
  (∀ k, ¬ (k ∈ blocks (hdr (freeMapFile fs)) ++ blocks (hdr (directoryFile fs))) → 0 ≤ k →
     ds' !! Z.to_nat k = ds1 !! Z.to_nat k) →
  agree ks ds ds'.
Proof.
  intros HI Hks Ha Ho. destruct (owned_parts fs ds d (fi_owned _ _ _ _ HI)) as [_ Hdis].
  unfold agree in *. rewrite Forall_forall in *. intros k Hk. destruct (Ha k Hk) as [H0 <-].
  split; [done|]. apply Ho; [|done]. by apply Hdis, Hks.
Qed.

(** ** Create *)

Lemma FSInv_add fs ds d b ds' d' b' h e :
  FSInv fs ds d b → sector e ∉ owned fs ds d → 0 ≤ sector e < NumSectors →
  HdrOk h → Forall (λ k, k ∉ ({[sector e]} ∪ list_to_set (owned fs ds d) : gset Z)) (blocks h) →
  Marked b' NumSectors (list_to_set (blocks h) ∪ ({[sector e]} ∪ list_to_set (owned fs ds d))) →
  dir_ok d' → tableSize d' = NumDirEntries → active (table d') ≡ₚ e :: active (table d) →
  ds' !! Z.to_nat (sector e) = Some (FileHeader.encode h) →
  agree ([FreeMapSector; DirectorySector] ++ concat (own ds <$> active (table d))) ds ds' →
  data (hdr (directoryFile fs)) ds' = encode_table (table d') →
  data (hdr (freeMapFile fs)) ds' = PersistentBitmap.map_bytes b' →
  FSInv fs ds' d' b' ∧ files ds' d' = <[ekey e := data h ds']> (files ds d).
Proof.
  intros HI Hsec Hr Hh Hbl HM Hd' Hsz HP Hlk Ha Hdd Hmd.
  destruct (files_frame ds ds' (active (table d))) as (F1&F2&F3);
    [eapply agree_sub; [|exact Ha]; set_solver|apply HI|].
  assert (Eh : file_hdr ds' e = h).
  { unfold file_hdr. rewrite (list_lookup_total_correct _ _ _ Hlk). by apply decode_encode. }
  assert (Eo : own ds' e = sector e :: blocks h) by (unfold own; by rewrite Eh).
  pose proof (owned_cons fs ds ds' d d' e HP F2) as HO. rewrite Eo in HO.
  split.
  - split; try done.
    + eapply Tables_frame; [apply HI|]. eapply agree_sub; [|exact Ha]. set_solver.
    + replace (list_to_set (owned fs ds' d') : gset Z)
        with (list_to_set (blocks h) ∪ ({[sector e]} ∪ list_to_set (owned fs ds d)) : gset Z); [done|].
      rewrite HO. cbn [app list_to_set]. rewrite list_to_set_app_L. clear. set_solver.
    + rewrite HP. constructor; [|done]. split; by rewrite Eh.
    + rewrite HO. cbn [app]. rewrite Forall_forall in Hbl. apply NoDup_cons. split.
      * intros Hin. apply elem_of_app in Hin as [Hin|Hin]; [|done]. specialize (Hbl _ Hin). set_solver.
      * apply NoDup_app. split; [apply Hh|]. split; [|apply HI]. intros k Hk. specialize (Hbl _ Hk). set_solver.
  - unfold files. destruct (index_cons (contents ds') _ _ e (do_names _ Hd') HP) as [-> _].
    rewrite F3. unfold contents at 1. by rewrite Eh.
Qed.

(** ** Space *)

(** The sectors a file of contents [c] takes, and those a file system that
    holds the files [m] has left. *)
Definition file_sectors (c : list Z) : nat := Z.to_nat (1 + divRoundUp (Z.of_nat (length c)) SectorSize).
Definition free (m : gmap (list Z) (list Z)) : Z :=
  NumSectors - 5 - Z.of_nat (sum_list_with (λ p, file_sectors p.2) (map_to_list m)).

Lemma length_own ds e :
  file_ok ds e → disk_shape ds → length (own ds e) = file_sectors (contents ds e).
Proof.
  intros [Hh _] Hd. unfold own, file_sectors, contents. cbn [length].
  pose proof (length_blocks _ Hh). pose proof (ho_sectors _ Hh). pose proof (length_data _ _ Hh Hd) as ->.
  pose proof (divRoundUp_nonneg _ SectorSize (ho_bytes _ Hh) ltac:(done)). lia.
Qed.

Lemma length_owns ds (L : list DirectoryEntry) :
  Forall (file_ok ds) L → disk_shape ds →
  length (concat (own ds <$> L)) = sum_list_with (λ e, file_sectors (contents ds e)) L.
Proof.
  intros HL Hd. induction HL as [|e L He _ IH]; [done|]. cbn [fmap list_fmap concat sum_list_with].
  by rewrite length_app, (length_own ds e He Hd), IH.
Qed.

Lemma sum_index (g : DirectoryEntry → list Z) (L : list DirectoryEntry) :
  NoDup (ekey <$> L) →
  sum_list_with (λ p : list Z * list Z, file_sectors p.2) (map_to_list (index g L))
  = sum_list_with (λ e, file_sectors (g e)) L.
Proof.
  intros Hn. unfold index.
  rewrite map_to_list_to_map by (by rewrite index_keys).
  clear Hn. induction L as [|e L IH]; [done|]. cbn [fmap list_fmap sum_list_with]. f_equal. exact IH.
Qed.

Lemma free_spec fs ds d b :
  FSInv fs ds d b → disk_shape ds →
  NumSectors - Z.of_nat (size (list_to_set (owned fs ds d) : gset Z)) = free (files ds d).
Proof.
  intros HI Hd. rewrite owned_size by apply HI. unfold free, files. rewrite sum_index by apply (fi_dir _ _ _ _ HI).
  unfold owned. cbn [length]. rewrite !length_app, (length_owns ds _ (fi_files _ _ _ _ HI) Hd).
  destruct (fi_tables _ _ _ _ HI) as [H1 H2 _ H4 H5 _].
  pose proof (length_blocks _ H1) as B1. rewrite (ho_sectors _ H1), H2 in B1.
  pose proof (length_blocks _ H4) as B2. rewrite (ho_sectors _ H4), H5 in B2.
  change (divRoundUp FreeMapFileSize SectorSize) with 1 in B1.
  change (divRoundUp DirectoryFileSize SectorSize) with 2 in B2. lia.
Qed.

Lemma files_dom fs ds d b k :
  FSInv fs ds d b → k ∈ ekey <$> active (table d) ↔ is_Some (files ds d !! k).
Proof. intros HI. apply index_dom, (fi_dir _ _ _ _ HI). Qed.

Lemma files_size fs ds d b :
  FSInv fs ds d b → length (active (table d)) = length (table d) ↔ Z.of_nat (size (files ds d)) = NumDirEntries.
Proof.
  intros HI. unfold files. rewrite index_size by apply (fi_dir _ _ _ _ HI).
  rewrite <- (fi_size _ _ _ _ HI), <- (do_size _ (fi_dir _ _ _ _ HI)). lia.
Qed.

Lemma Find_none fs ds d b nm :
  FSInv fs ds d b → files ds d !! key nm = None → Find nm d = Ok (-1).
Proof.
  intros HI Hno. rewrite DFind_ok by apply HI. unfold dir_map. rewrite index_None; [done|].
  intros Hin. apply (files_dom fs ds d b _ HI) in Hin. rewrite Hno in Hin. by destruct Hin.
Qed.

Lemma Find_some fs ds d b nm c :
  FSInv fs ds d b → files ds d !! key nm = Some c →
  ∃ e, Find nm d = Ok (sector e) ∧ e ∈ active (table d) ∧ ekey e = key nm ∧ c = contents ds e
    ∧ file_ok ds e ∧ 0 ≤ sector e < NumSectors.
Proof.
  intros HI Hc. assert (Hin : is_Some (files ds d !! key nm)) by done.
  apply (files_dom fs ds d b _ HI) in Hin. apply list_elem_of_fmap in Hin as (e&Ek&He). exists e.
  pose proof (do_names _ (fi_dir _ _ _ _ HI)) as Hn.
  rewrite DFind_ok by apply HI. unfold dir_map. rewrite Ek, (index_lookup sector _ e Hn He).
  unfold files in Hc. rewrite Ek, (index_lookup _ _ e Hn He) in Hc. injection Hc as <-.
  split; [done|]. split; [done|]. split; [done|]. split; [done|].
  split; [exact (proj1 (Forall_forall _ _) (fi_files _ _ _ _ HI) e He)|].
  eapply owned_range; [exact HI|]. unfold owned. rewrite !elem_of_cons, !elem_of_app. do 4 right.
  apply elem_of_concat. exists (own ds e). split; [|constructor]. apply list_elem_of_fmap. by exists e.
Qed.

(** The free map after the header sector of a new file has been taken. *)
Lemma take_header fs ds d b :
  FSInv fs ds d b → disk_shape ds →
  (∃ b', Bitmap.FindAndSet b = Ok (-1, b') ∧ free (files ds d) ≤ 0)
  ∨ (∃ r b', Bitmap.FindAndSet b = Ok (r, b') ∧ 0 ≤ r < NumSectors ∧ r ∉ owned fs ds d
       ∧ Marked b' NumSectors ({[r]} ∪ list_to_set (owned fs ds d))
       ∧ NumSectors - Z.of_nat (size ({[r]} ∪ list_to_set (owned fs ds d) : gset Z)) = free (files ds d) - 1).
Proof.
  intros HI Hd. pose proof (free_spec fs ds d b HI Hd) as Hf.
  destruct (FindAndSet_spec _ _ _ (fi_bits _ _ _ _ HI)) as (r&b1&->&[(->&_&Hall)|(Hr&Hni&_&HM)]).
  - left. exists b1. split; [done|]. apply full_set_size in Hall. lia.
  - right. exists r, b1. split; [done|]. split; [done|]. split; [set_solver|]. split; [done|].
    rewrite size_union by set_solver. rewrite size_singleton. lia.
Qed.

(** Storing a new file. *)
Lemma Create_commit fs ds d b s (b' : Bitmap.Bitmap) d' e h :
  FSInv fs ds d b → sec_rep s ds → sector e ∉ owned fs ds d → 0 ≤ sector e < NumSectors →
  HdrOk h → Forall (λ k, k ∉ ({[sector e]} ∪ list_to_set (owned fs ds d) : gset Z)) (blocks h) →
  Marked b' NumSectors (list_to_set (blocks h) ∪ ({[sector e]} ∪ list_to_set (owned fs ds d))) →
  dir_ok d' → tableSize d' = NumDirEntries → active (table d') ≡ₚ e :: active (table d) →
  ∃ s1 s2 s3 ds', FileHeader.WriteBack h (sector e) s = Ok s1
    ∧ Directory.WriteBack fresh (directoryFile fs) d' s1 = Ok s2
    ∧ PersistentBitmap.WriteBack fresh (freeMapFile fs) b' s2 = Ok s3
    ∧ sec_rep s3 ds' ∧ FSInv fs ds' d' b' ∧ files ds' d' = <[ekey e := data h ds']> (files ds d).
Proof.
  intros HI Hs Hni Hr Hh Hbl HM Hd' Hsz HP.
  destruct (WriteBack_ok h (sector e) s ds Hh Hs Hr) as (s1&E1&Hs1). set (ds1 := <[_ := _]> ds) in *.
  assert (Ha1 : agree ([FreeMapSector; DirectorySector] ++ concat (own ds <$> active (table d))) ds ds1).
  { apply Forall_forall. intros k Hk.
    assert (Hin : k ∈ owned fs ds d) by (unfold owned; set_solver).
    pose proof (owned_range _ _ _ _ _ HI Hin). split; [lia|]. unfold ds1. apply list_lookup_insert_ne.
    intros E%Z2Nat.inj; [|lia..]. congruence. }
  assert (HT : Tables fs ds1).
  { eapply Tables_frame; [apply HI|]. eapply agree_sub; [|exact Ha1]. set_solver. }
  destruct (flush_dir_map fs ds1 d' b' _ s1 HT Hs1 Hd' Hsz HM (fi_dis _ _ _ _ HI))
    as (ds'&s2&s3&E2&E3&Hs3&Ho&Hdd&Hmd).
  exists s1, s2, s3, ds'. do 4 (split; [done|]). apply (FSInv_add fs ds d b ds' d' b' h e); try done.
  - rewrite Ho; [|unfold owned in Hni; set_solver|lia]. unfold ds1. apply list_lookup_insert_eq.
    destruct (sec_shape _ _ Hs). lia.
  - eapply flush_agree; [exact HI|done|exact Ha1|done].
Qed.

(** The rest of Create when the header sector and the directory entry are
    there. *)
Lemma Create_store fs ds d b s b1 d' e (n : Z) :
  FSInv fs ds d b → sec_rep s ds → 0 ≤ n → sector e ∉ owned fs ds d → 0 ≤ sector e < NumSectors →
  Marked b1 NumSectors ({[sector e]} ∪ list_to_set (owned fs ds d)) →
  NumSectors - Z.of_nat (size ({[sector e]} ∪ list_to_set (owned fs ds d) : gset Z)) = free (files ds d) - 1 →
  dir_ok d' → tableSize d' = NumDirEntries → active (table d') ≡ₚ e :: active (table d) →
  let k := divRoundUp n SectorSize in
  let r := '(ok, h, freeMap) ← FileHeader.Allocate (new_FileHeader fresh) b1 n;
           if negb ok then Ok (false, s)
           else
             s ← FileHeader.WriteBack h (sector e) s;
             s ← Directory.WriteBack fresh (directoryFile fs) d' s;
             s ← PersistentBitmap.WriteBack fresh (freeMapFile fs) freeMap s;
             Ok (true, s) in
  if free (files ds d) <? 1 + k then r = Ok (false, s)
  else if FileHeader.NumDirect <? k then r = Err BadAccess
  else ∃ s' c, r = Ok (true, s') ∧ Z.of_nat (length c) = n ∧ FS fs s' (<[ekey e := c]> (files ds d)).
Proof.
  intros HI Hs Hn Hni Hr HM1 Hf1 Hd' Hsz HP k r.
  pose proof (Allocate_ok (new_FileHeader fresh) b1 _ n new_FileHeader_object HM1 Hn) as HAl.
  cbv zeta in HAl. fold k in HAl. rewrite Hf1 in HAl.
  replace (free (files ds d) - 1 <? k) with (free (files ds d) <? 1 + k) in HAl
    by (destruct (Z.ltb_spec (free (files ds d)) (1 + k)); symmetry; [apply Z.ltb_lt|apply Z.ltb_ge]; lia).
  unfold r. destruct (free (files ds d) <? 1 + k); [by destruct HAl as (h'&->)|].
  destruct (FileHeader.NumDirect <? k); [by rewrite HAl|].
  destruct HAl as (h&b2&->&Hh&Hsize&Hbl&HM2). cbn [mbind res_bind negb].
  destruct (Create_commit fs ds d b s b2 d' e h HI Hs Hni Hr Hh Hbl HM2 Hd' Hsz HP)
    as (s3&s4&s5&ds'&->&E4&E5&Hs5&HI'&Hfiles). cbn [mbind res_bind]. rewrite E4. cbn [mbind res_bind].
  rewrite E5. cbn [mbind res_bind]. exists s5, (data h ds'). split; [done|].
  split; [rewrite (length_data h ds' Hh (sec_shape _ _ Hs5)); done|].
  exists ds', d', b2. by rewrite <- Hfiles.
Qed.

Lemma Create_ok fs s m nm (n : Z) :
  FS fs s m → Forall is_byte nm → 0 ≤ n →
  let k := divRoundUp n SectorSize in
  if bool_decide (is_Some (m !! key nm)) || (Z.of_nat (size m) =? NumDirEntries) || (free m <? 1 + k)
  then ∃ s', Create fresh fs nm n s = Ok (false, s') ∧ FS fs s' m
  else if FileHeader.NumDirect <? k then Create fresh fs nm n s = Err BadAccess
  else ∃ s' c, Create fresh fs nm n s = Ok (true, s') ∧ Z.of_nat (length c) = n ∧ FS fs s' (<[key nm := c]> m).
Proof.
  intros (ds&d&b&Hs&HI&->) Hnm Hn k. pose proof (divRoundUp_nonneg n SectorSize Hn ltac:(done)) as Hk. fold k in Hk.
  unfold Create. destruct (fetch_directory fs ds d b s HI Hs) as (s1&->&Hs1). cbn [mbind res_bind].
  destruct (files ds d !! key nm) as [c|] eqn:Ec.
  { destruct (Find_some _ _ _ _ _ _ HI Ec) as (e&->&_&_&_&_&Hr). cbn [mbind res_bind].
    rewrite bool_decide_true by done. cbn [orb]. destruct (Z.eqb_spec (sector e) (-1)); [lia|]. cbn [negb].
    exists s1. split; [done|]. by exists ds, d, b. }
  rewrite (Find_none _ _ _ _ _ HI Ec). rewrite bool_decide_false by (by intros [? [=]]).
  cbn [mbind res_bind orb negb Z.eqb Pos.eqb].
  destruct (fetch_map fs ds d b s1 HI Hs1) as (s2&->&Hs2). cbn [mbind res_bind].
  assert (HFS : FS fs s2 (files ds d)) by (by exists ds, d, b). pose proof (sec_shape _ _ Hs2) as Hd.
  destruct (take_header fs ds d b HI Hd) as [(b1&->&Hf)|(r&b1&->&Hr&Hni&HM1&Hf1)]; cbn [mbind res_bind].
  { rewrite (proj2 (Z.ltb_lt (free (files ds d)) (1 + k))) by lia. rewrite orb_true_r. by exists s2. }
  destruct (Z.eqb_spec r (-1)); [lia|].
  assert (Hr32 : is_s32 r) by (change NumSectors with 1024 in Hr; unfold_int; lia).
  pose proof (DAdd_ok nm r d (fi_dir _ _ _ _ HI) Hr32 Hnm) as HA.
  rewrite (bool_decide_ext _ _ (files_dom fs ds d b _ HI)), Ec in HA.
  rewrite (bool_decide_false (is_Some None)) in HA by (by intros [? [=]]). cbn [orb] in HA.
  rewrite (bool_decide_ext _ _ (files_size fs ds d b HI)) in HA.
  destruct (Z.eqb_spec (Z.of_nat (size (files ds d))) NumDirEntries) as [Hfull|Hfull];
    [rewrite bool_decide_true in HA by done|rewrite bool_decide_false in HA by done].
  { rewrite HA. cbn [mbind res_bind orb negb]. by exists s2. }
  destruct HA as (e&d'&->&Hd'&Hsz&HP&Ek&<-). cbn [mbind res_bind orb negb].
  rewrite (fi_size _ _ _ _ HI) in Hsz.
  pose proof (Create_store fs ds d b s2 b1 d' e n HI Hs2 Hn Hni Hr HM1 Hf1 Hd' Hsz HP) as HC.
  cbv zeta in HC. fold k in HC. rewrite Ek in HC. destruct (free (files ds d) <? 1 + k); [|exact HC].
  rewrite HC. by exists s2.
Qed.

(** ** Remove *)

(** The sectors in use without those of the file of [e]. *)
Lemma Remove_space fs ds d b d' e :
  FSInv fs ds d b → active (table d) ≡ₚ e :: active (table d') → file_ok ds e →
  ∃ b1 b2, FileHeader.Deallocate (file_hdr ds e) b = Ok b1 ∧ Bitmap.Clear (sector e) b1 = Ok b2
    ∧ Marked b2 NumSectors (list_to_set (owned fs ds d')) ∧ NoDup (owned fs ds d').
Proof.
  intros HI HP [Hh _]. pose proof (owned_cons fs ds ds d' d e HP eq_refl) as HO.
  pose proof (fi_owned _ _ _ _ HI) as Hn. rewrite HO in Hn. unfold own in Hn. cbn [app] in Hn.
  apply NoDup_cons in Hn as [Hs Hn]. apply NoDup_app in Hn as (_&Hdis&Hn).
  pose proof (fi_bits _ _ _ _ HI) as HM.
  assert (EU : list_to_set (owned fs ds d)
    = list_to_set (blocks (file_hdr ds e)) ∪ ({[sector e]} ∪ list_to_set (owned fs ds d')) :> gset Z).
  { rewrite HO. unfold own. rewrite !list_to_set_app_L, list_to_set_cons. clear. set_solver. }
  rewrite EU in HM. destruct (Deallocate_ok _ b ({[sector e]} ∪ list_to_set (owned fs ds d')) Hh) as (b1&E1&HM1);
    [apply Forall_forall; clear -Hs Hdis; set_solver|exact HM|].
  destruct (Clear_spec b1 NumSectors _ (sector e) HM1) as (b2&E2&HM2).
  { eapply Marked_range; [exact HM1|set_solver]. }
  exists b1, b2. split; [done|]. split; [done|]. split; [|done].
  replace (list_to_set (owned fs ds d') : gset Z)
    with (({[sector e]} ∪ list_to_set (owned fs ds d')) ∖ {[sector e]} : gset Z) by (clear -Hs; set_solver). done.
Qed.

Lemma FSInv_remove fs ds d b ds' d' b' e :
  FSInv fs ds d b → dir_ok d' → tableSize d' = NumDirEntries → active (table d) ≡ₚ e :: active (table d') →
  Marked b' NumSectors (list_to_set (owned fs ds d')) → NoDup (owned fs ds d') →
  agree ([FreeMapSector; DirectorySector] ++ concat (own ds <$> active (table d))) ds ds' →
  data (hdr (directoryFile fs)) ds' = encode_table (table d') →
  data (hdr (freeMapFile fs)) ds' = PersistentBitmap.map_bytes b' →
  FSInv fs ds' d' b' ∧ files ds' d' = delete (ekey e) (files ds d).
Proof.
  intros HI Hd' Hsz HP HM Hn Ha Hdd Hmd.
  pose proof (fi_files _ _ _ _ HI) as HF. rewrite HP in HF. apply Forall_cons in HF as [_ HF].
  destruct (files_frame ds ds' (active (table d'))) as (F1&F2&F3); [|done|].
  { eapply agree_sub; [|exact Ha]. intros k Hk. apply elem_of_app. right. apply elem_of_concat in Hk as (l&Hl&Hk).
    apply elem_of_concat. exists l. split; [|done]. rewrite HP. cbn [fmap list_fmap]. by constructor. }
  assert (HO : owned fs ds' d' = owned fs ds d') by (unfold owned; by rewrite F2).
  split.
  - split; try done; rewrite ?HO; try done.
    eapply Tables_frame; [apply HI|]. eapply agree_sub; [|exact Ha]. set_solver.
  - unfold files. rewrite F3.
    destruct (index_cons (contents ds) _ _ e (do_names _ (fi_dir _ _ _ _ HI)) HP) as [-> Hno].
    by rewrite delete_insert_id.
Qed.

Lemma FRemove_ok fs s m nm :
  FS fs s m →
  ∃ s', Remove fresh fs nm s = Ok (bool_decide (is_Some (m !! key nm)), s') ∧ FS fs s' (delete (key nm) m).
Proof.
  intros (ds&d&b&Hs&HI&->). unfold Remove.
  destruct (fetch_directory fs ds d b s HI Hs) as (s1&->&Hs1). cbn [mbind res_bind].
  destruct (files ds d !! key nm) as [c|] eqn:Ec.
  2: { rewrite (Find_none _ _ _ _ _ HI Ec). cbn [mbind res_bind Z.eqb Pos.eqb]. exists s1.
       rewrite bool_decide_false by (by intros [? [=]]). split; [done|]. exists ds, d, b.
       by rewrite delete_id. }
  destruct (Find_some _ _ _ _ _ _ HI Ec) as (e0&->&He0&Ek0&_&Hok&Hr). cbn [mbind res_bind].
  destruct (Z.eqb_spec (sector e0) (-1)); [lia|].
  destruct (FetchFrom_ok (file_hdr ds e0) (sector e0) s1 ds) as (s2&->&Hs2); [apply Hok|done|lia|apply Hok|].
  cbn [mbind res_bind]. destruct (fetch_map fs ds d b s2 HI Hs2) as (s3&->&Hs3). cbn [mbind res_bind].
  pose proof (DRemove_ok nm d (fi_dir _ _ _ _ HI)) as HR.
  rewrite (bool_decide_ext _ _ (files_dom fs ds d b _ HI)), Ec in HR.
  rewrite bool_decide_true in HR by done. destruct HR as (e&d'&ER&Hd'&Hsz&HP&Ek).
  assert (e0 = e) as ->.
  { pose proof (do_names _ (fi_dir _ _ _ _ HI)) as Hn. rewrite HP in He0, Hn. cbn [fmap list_fmap] in Hn.
    apply NoDup_cons in Hn as [Hn _]. apply elem_of_cons in He0 as [->|He0]; [done|]. destruct Hn.
    apply list_elem_of_fmap. exists e0. split; [congruence|done]. }
  destruct (Remove_space fs ds d b d' e HI HP Hok) as (b1&b2&->&E2&HM&Hn). cbn [mbind res_bind].
  rewrite E2. cbn [mbind res_bind]. rewrite ER. cbn [mbind res_bind]. rewrite (fi_size _ _ _ _ HI) in Hsz.
  destruct (flush_map_dir fs ds d' b2 _ s3 (fi_tables _ _ _ _ HI) Hs3 Hd' Hsz HM (fi_dis _ _ _ _ HI))
    as (ds'&s4&s5&->&E5&Hs5&Ho&Hdd&Hmd). cbn [mbind res_bind]. rewrite E5. cbn [mbind res_bind].
  exists s5. rewrite bool_decide_true by done. split; [done|]. exists ds', d', b2. split; [done|].
  rewrite <- Ek. destruct (FSInv_remove fs ds d b ds' d' b2 e) as [HI' Hf]; try done.
  eapply flush_agree; [exact HI|done| |done]. apply Forall_forall. intros k Hk. split; [|done].
  eapply owned_range; [exact HI|]. unfold owned. set_solver.
Qed.

(** ** Open, and access to an open file *)

(** [f] is open on the file [k]. *)
Definition Opened fs s (m : gmap (list Z) (list Z)) (f : OpenFile) (k : list Z) : Prop :=
  ∃ ds d b e, sec_rep s ds ∧ FSInv fs ds d b ∧ m = files ds d
    ∧ e ∈ active (table d) ∧ ekey e = k ∧ hdr f = file_hdr ds e ∧ 0 ≤ seekPosition f.

Lemma Open_ok fs s m nm :
  FS fs s m →
  match m !! key nm with
  | None => ∃ s', Open fresh fs nm s = Ok (None, s') ∧ FS fs s' m
  | Some _ => ∃ f s', Open fresh fs nm s = Ok (Some f, s') ∧ Opened fs s' m f (key nm) ∧ seekPosition f = 0
  end.
Proof.
  intros (ds&d&b&Hs&HI&->). unfold Open.
  destruct (fetch_directory fs ds d b s HI Hs) as (s1&->&Hs1). cbn [mbind res_bind].
  destruct (files ds d !! key nm) as [c|] eqn:Ec.
  - destruct (Find_some _ _ _ _ _ _ HI Ec) as (e&->&He&Ek&_&Hok&Hr). cbn [mbind res_bind].
    destruct (Z.leb_spec 0 (sector e)); [|lia]. unfold new_OpenFile.
    destruct (FetchFrom_ok (file_hdr ds e) (sector e) s1 ds) as (s2&->&Hs2); [apply Hok|done|lia|apply Hok|].
    cbn [mbind res_bind]. eexists _, s2. split; [done|]. split; [|done]. by exists ds, d, b, e.
  - rewrite (Find_none _ _ _ _ _ HI Ec). cbn [mbind res_bind Z.leb Z.compare]. exists s1. split; [done|].
    by exists ds, d, b.
Qed.

(** The sectors of the file of [e], apart from everything else in use. *)
Lemma owned_split fs ds d e :
  e ∈ active (table d) → NoDup (owned fs ds d) →
  ∃ L, active (table d) ≡ₚ e :: L
    ∧ NoDup (blocks (file_hdr ds e) ++ sector e :: FreeMapSector :: DirectorySector
               :: blocks (hdr (freeMapFile fs)) ++ blocks (hdr (directoryFile fs)) ++ concat (own ds <$> L)).
Proof.
  intros He Hn. apply elem_of_Permutation in He as [L HP]. exists L. split; [done|].
  assert (HO : owned fs ds d ≡ₚ own ds e ++ FreeMapSector :: DirectorySector
    :: blocks (hdr (freeMapFile fs)) ++ blocks (hdr (directoryFile fs)) ++ concat (own ds <$> L)).
  { unfold owned. rewrite (concat_perm _ (own ds e :: (own ds <$> L))) by (by rewrite HP).
    cbn [concat]. set (A := blocks _). set (B := blocks _). set (C := concat _). set (X := own ds e).
    transitivity ((FreeMapSector :: DirectorySector :: A ++ B) ++ X ++ C); [by rewrite !app_comm_cons, !app_assoc|].
    rewrite Permutation_app_swap_app. apply Permutation_app_head. by rewrite <- !app_comm_cons, <- !app_assoc. }
  rewrite HO in Hn. unfold own at 1 in Hn. cbn [app] in Hn.
  by rewrite (Permutation_middle (blocks (file_hdr ds e)) _ (sector e)) in Hn.
Qed.

(** A change of the data sectors of one file. *)
Lemma FSInv_update fs ds d b ds' e :
  FSInv fs ds d b → e ∈ active (table d) →
  (∀ k, k ∉ blocks (file_hdr ds e) → 0 ≤ k → ds' !! Z.to_nat k = ds !! Z.to_nat k) →
  FSInv fs ds' d b ∧ file_hdr ds' e = file_hdr ds e
  ∧ files ds' d = <[ekey e := contents ds' e]> (files ds d).
Proof.
  intros HI He Ho. destruct (owned_split fs ds d e He (fi_owned _ _ _ _ HI)) as (L&HP&Hn).
  apply NoDup_app in Hn as (_&Hdis&_).
  set (rest := sector e :: _) in Hdis.
  assert (Ha : agree rest ds ds').
  { apply (agree_outside (λ k, k ∈ blocks (file_hdr ds e))); [done|]. intros k Hk. split; [|by intros ?%Hdis].
    eapply owned_range; [exact HI|]. unfold owned. rewrite !elem_of_cons, !elem_of_app, elem_of_concat.
    unfold rest in Hk. rewrite !elem_of_cons, !elem_of_app, elem_of_concat in Hk.
    destruct Hk as [->|[?|[?|[?|[?|(l&Hl&Hk)]]]]]; try tauto; do 4 right.
    - exists (own ds e). split; [apply list_elem_of_fmap; by exists e|constructor].
    - exists l. split; [|done]. rewrite HP. cbn [fmap list_fmap]. by constructor. }
  assert (Hsub : ∀ ks, ks ⊆ rest → agree ks ds ds') by (intros; by eapply agree_sub).
  pose proof (fi_files _ _ _ _ HI) as HF. rewrite HP in HF. apply Forall_cons in HF as [Hfe HF].
  destruct (files_frame ds ds' L) as (F1&F2&F3); [apply Hsub; unfold rest; clear; set_solver|done|].
  assert (Eh : file_hdr ds' e = file_hdr ds e).
  { unfold file_hdr. f_equal. eapply agree_total; [exact Ha|]. constructor. }
  assert (EO : own ds' <$> active (table d) = own ds <$> active (table d)).
  { apply list_fmap_ext. intros i x Hx%list_elem_of_lookup_2. rewrite HP in Hx.
    apply elem_of_cons in Hx as [->|Hx]; [unfold own; by rewrite Eh|].
    apply list_elem_of_lookup_1 in Hx as [j Hj]. pose proof (f_equal (.!! j) F2) as E.
    rewrite !list_lookup_fmap, Hj in E. by apply (inj Some) in E. }
  assert (HO : owned fs ds' d = owned fs ds d) by (unfold owned; by rewrite EO).
  destruct HI as [HT H2 H3 H4 H5 H6 H7 H8]. split; [split; rewrite ?HO; try done|split; [done|]].
  - eapply Tables_frame; [exact HT|]. apply Hsub. unfold rest. clear. set_solver.
  - rewrite <- H4. apply data_frame, Hsub. unfold rest. clear. set_solver.
  - rewrite <- H6. apply data_frame, Hsub. unfold rest. clear. set_solver.
  - rewrite HP. constructor; [|done]. destruct Hfe as [Hf1 Hf2]. split; rewrite Eh; [done|]. rewrite <- Hf2.
    assert (Hin : sector e ∈ rest) by constructor. by apply (proj1 (Forall_forall _ _) Ha) in Hin as [_ ?].
  - unfold files. pose proof (do_names _ H2) as Hn.
    destruct (index_cons (contents ds') _ _ e Hn HP) as [-> _].
    destruct (index_cons (contents ds) _ _ e Hn HP) as [-> _]. by rewrite F3, insert_insert_eq.
Qed.

Lemma Opened_lookup fs s m f k : Opened fs s m f k →
  ∃ ds, sec_rep s ds ∧ HdrOk (hdr f) ∧ m !! k = Some (data (hdr f) ds) ∧ FS fs s m.
Proof.
  intros (ds&d&b&e&Hs&HI&->&He&<-&Hf&_). exists ds. split; [done|]. rewrite Hf.
  split; [apply (proj1 (Forall_forall _ _) (fi_files _ _ _ _ HI) e He)|].
  split; [|by exists ds, d, b]. apply (index_lookup (contents ds) _ e); [apply (fi_dir _ _ _ _ HI)|done].
Qed.

Lemma Write_open_ok fs s m f k from (n : Z) :
  Opened fs s m f k → seekPosition f + n < halfword → Forall is_byte from → n ≤ Z.of_nat (length from) →
  let w := written (hdr f) n (seekPosition f) in
  ∃ c s', m !! k = Some c ∧ Write fresh f from n s = Ok (w, Seek (seekPosition f + w) f, s')
    ∧ Opened fs s' (<[k := splice c (seekPosition f) (take (Z.to_nat w) from)]> m) (Seek (seekPosition f + w) f) k.
Proof.
  intros HOp Hov Hby Hn w. destruct (Opened_lookup _ _ _ _ _ HOp) as (ds0&_&Hh&_&_).
  destruct HOp as (ds&d&b&e&Hs&HI&->&He&<-&Hf&Hpos).
  destruct (WriteAt_ok fresh fresh_length fresh_bytes f ds s from n (seekPosition f) Hh Hs Hpos Hov Hby Hn)
    as (ds'&s'&E&Hs'&Ho&Hd). rewrite Hf in Ho.
  destruct (FSInv_update fs ds d b ds' e HI He Ho) as (HI'&Eh&Ef).
  exists (contents ds e), s'. split; [apply index_lookup; [apply (fi_dir _ _ _ _ HI)|done]|].
  split; [unfold Write; rewrite E; done|]. exists ds', d, b, e. split; [done|]. split; [done|].
  split; [|split; [done|]; split; [done|]; split; [cbn; congruence|cbn; unfold w, written; lia]].
  rewrite Ef. f_equal. unfold contents. rewrite Eh, <- Hf. by rewrite Hd.
Qed.

Lemma Read_open_ok fs s m f k (n : Z) :
  Opened fs s m f k → seekPosition f + n < halfword →
  ∃ c s', m !! k = Some c
    ∧ Read fresh f n s = Ok (slice c (seekPosition f) n,
        Seek (seekPosition f + Z.of_nat (length (slice c (seekPosition f) n))) f, s')
    ∧ Opened fs s' m (Seek (seekPosition f + Z.of_nat (length (slice c (seekPosition f) n))) f) k.
Proof.
  intros HOp Hov. destruct (Opened_lookup _ _ _ _ _ HOp) as (ds0&_&Hh&_&_).
  destruct HOp as (ds&d&b&e&Hs&HI&->&He&<-&Hf&Hpos).
  destruct (ReadAt_ok fresh fresh_length f ds s n (seekPosition f) Hh Hs Hpos Hov) as (s'&E&Hs').
  exists (contents ds e), s'. split; [apply index_lookup; [apply (fi_dir _ _ _ _ HI)|done]|].
  assert (Ec : contents ds e = data (hdr f) ds) by (unfold contents; by rewrite Hf).
  rewrite Ec. split; [unfold Read; by rewrite E|].
  exists ds, d, b, e. do 5 (split; [done|]). split; [done|]. cbn. lia.
Qed.

(** ** Starting the file system *)

Definition rewound fs : FileSystem :=
  mkFileSystem (mkOpenFile (hdr (freeMapFile fs)) 0) (mkOpenFile (hdr (directoryFile fs)) 0).

Lemma open_files_ok fs ds s :
  Tables fs ds → sec_rep s ds → ∃ s', open_files s = Ok (rewound fs, s') ∧ sec_rep s' ds.
Proof.
  intros [H1 _ H3 H4 _ H6] Hs. unfold open_files, new_OpenFile.
  destruct (FetchFrom_ok _ FreeMapSector s ds H1 Hs ltac:(done) H3) as (s1&->&Hs1). cbn [mbind res_bind].
  destruct (FetchFrom_ok _ DirectorySector s1 ds H4 Hs1 ltac:(done) H6) as (s2&->&Hs2). cbn [mbind res_bind].
  by exists s2.
Qed.

Lemma reopen_ok fs s m :
  FS fs s m → ∃ s', new_FileSystem fresh false s = Ok (rewound fs, s') ∧ FS (rewound fs) s' m.
Proof.
  intros (ds&d&b&Hs&HI&->). destruct (open_files_ok fs ds s (fi_tables _ _ _ _ HI) Hs) as (s'&E&Hs').
  exists s'. split; [exact E|]. exists ds, d, b. split; [done|]. split; [|done].
  destruct HI as [[] H2 H3 H4 H5 H6 H7 H8]. by split; [split|..].
Qed.

Lemma table_sector_0 : 0 ≤ FreeMapSector < NumSectors.
Proof. done. Qed.

Lemma table_sector_1 : 0 ≤ DirectorySector < NumSectors.
Proof. done. Qed.

(** The free map and the headers of the two tables of an empty disk. *)
Lemma format_space :
  ∃ b0 b1 b2 b3 b4 h1 h2, PersistentBitmap.new_PersistentBitmap NumSectors = Ok b0
    ∧ Bitmap.Mark FreeMapSector b0 = Ok b1 ∧ Bitmap.Mark DirectorySector b1 = Ok b2
    ∧ FileHeader.Allocate (new_FileHeader fresh) b2 FreeMapFileSize = Ok (true, h1, b3)
    ∧ FileHeader.Allocate (new_FileHeader fresh) b3 DirectoryFileSize = Ok (true, h2, b4)
    ∧ HdrOk h1 ∧ FileHeader.numBytes h1 = FreeMapFileSize ∧ HdrOk h2 ∧ FileHeader.numBytes h2 = DirectoryFileSize
    ∧ NoDup (FreeMapSector :: DirectorySector :: blocks h1 ++ blocks h2)
    ∧ Marked b4 NumSectors (list_to_set (FreeMapSector :: DirectorySector :: blocks h1 ++ blocks h2)).
Proof.
  destruct (new_Bitmap_spec NumSectors) as (b0&E0&HM0); [done|].
  destruct (Mark_spec b0 _ _ FreeMapSector HM0 table_sector_0) as (b1&E1&HM1).
  destruct (Mark_spec b1 _ _ DirectorySector HM1 table_sector_1) as (b2&E2&HM2).
  set (u2 := {[DirectorySector]} ∪ ({[FreeMapSector]} ∪ ∅) : gset Z) in *.
  assert (Hu2 : size u2 = 2%nat) by reflexivity.
  assert (Hu : ∀ x, x ∈ u2 ↔ x = FreeMapSector ∨ x = DirectorySector) by (clear; unfold u2; set_solver).
  clearbody u2.
  pose proof (Allocate_ok (new_FileHeader fresh) b2 u2 FreeMapFileSize new_FileHeader_object HM2 ltac:(done)) as HA.
  cbv zeta in HA. rewrite Hu2 in HA. change (divRoundUp FreeMapFileSize SectorSize) with 1 in HA.
  change (NumSectors - Z.of_nat 2 <? 1) with false in HA. change (FileHeader.NumDirect <? 1) with false in HA.
  destruct HA as (h1&b3&E3&Hh1&Hn1&Hf1&HM3). rewrite Forall_forall in Hf1.
  assert (Hl1 : length (blocks h1) = 1%nat).
  { pose proof (length_blocks h1 Hh1) as Hl. rewrite (ho_sectors _ Hh1), Hn1 in Hl. change (divRoundUp _ _) with 1 in Hl. lia. }
  assert (Hu3 : size (list_to_set (blocks h1) ∪ u2 : gset Z) = 3%nat).
  { rewrite size_union by (clear -Hf1; set_solver). rewrite size_list_to_set by apply Hh1. lia. }
  pose proof (Allocate_ok (new_FileHeader fresh) b3 _ DirectoryFileSize new_FileHeader_object HM3 ltac:(done)) as HA.
  cbv zeta in HA. rewrite Hu3 in HA. change (divRoundUp DirectoryFileSize SectorSize) with 2 in HA.
  change (NumSectors - Z.of_nat 3 <? 2) with false in HA. change (FileHeader.NumDirect <? 2) with false in HA.
  destruct HA as (h2&b4&E4&Hh2&Hn2&Hf2&HM4). rewrite Forall_forall in Hf2.
  exists b0, b1, b2, b3, b4, h1, h2. do 9 (split; [done|]). split.
  - pose proof (ho_nodup _ Hh1) as N1. pose proof (ho_nodup _ Hh2) as N2. fold (blocks h1) in N1. fold (blocks h2) in N2.
    clear -Hf1 Hf2 Hu N1 N2. rewrite !NoDup_cons, NoDup_app. split_and!; [set_solver..|done|set_solver|done].
  - replace (list_to_set (FreeMapSector :: DirectorySector :: blocks h1 ++ blocks h2) : gset Z)
      with (list_to_set (blocks h2) ∪ (list_to_set (blocks h1) ∪ u2)); [done|]. clear -Hu. set_solver.
Qed.

Lemma format_ok s ds :
  sec_rep s ds → ∃ fs s', new_FileSystem fresh true s = Ok (fs, s') ∧ FS fs s' ∅.
Proof.
  intros Hs. destruct format_space as (b0&b1&b2&b3&b4&h1&h2&E0&E1&E2&E3&E4&Hh1&Hn1&Hh2&Hn2&Hnd&HM).
  destruct (new_Directory_ok fresh fresh_length fresh_bytes NumDirEntries) as (Hd&Hact&Hsz); [done|].
  set (d := new_Directory fresh NumDirEntries) in *.
  destruct (WriteBack_ok h1 FreeMapSector s ds Hh1 Hs table_sector_0) as (s1&W1&Hs1).
  destruct (WriteBack_ok h2 DirectorySector s1 _ Hh2 Hs1 table_sector_1) as (s2&W2&Hs2).
  set (ds2 := <[Z.to_nat DirectorySector := _]> _) in *.
  set (fs := mkFileSystem (mkOpenFile h1 0) (mkOpenFile h2 0)).
  assert (HT : Tables fs ds2).
  { destruct (sec_shape _ _ Hs) as [Hlen _]. change (Z.of_nat (length ds) = 1024) in Hlen.
    assert (Hne : Z.to_nat DirectorySector ≠ Z.to_nat FreeMapSector) by (clear; done).
    assert (H0 : (Z.to_nat FreeMapSector < length ds)%nat) by (unfold FreeMapSector; lia).
    assert (H1 : (Z.to_nat DirectorySector < length ds)%nat) by (unfold DirectorySector; lia).
    constructor; [exact Hh1|exact Hn1| |exact Hh2|exact Hn2|]; unfold ds2.
    - rewrite list_lookup_insert_ne by exact Hne. by apply list_lookup_insert_eq.
    - apply list_lookup_insert_eq. by rewrite length_insert. }
  destruct (open_files_ok fs ds2 s2 HT Hs2) as (s3&E5&Hs3). change (rewound fs) with fs in E5.
  assert (Hdis : blocks h1 ## blocks h2).
  { rewrite !NoDup_cons, NoDup_app in Hnd. destruct Hnd as (_&_&_&H&_). set_solver. }
  destruct (flush_map_dir fs ds2 d b4 _ s3 HT Hs3 Hd Hsz HM Hdis) as (ds'&s4&s5&E6&E7&Hs5&Ho&Hdd&Hmd).
  exists fs, s5. split.
  { unfold new_FileSystem. rewrite E0. cbn [mbind res_bind]. rewrite E1. cbn [mbind res_bind]. rewrite E2.
    cbn [mbind res_bind]. rewrite E3. cbn [mbind res_bind ASSERT]. rewrite E4. cbn [mbind res_bind ASSERT].
    rewrite W1. cbn [mbind res_bind]. rewrite W2. cbn [mbind res_bind]. rewrite E5. cbn [mbind res_bind].
    rewrite E6. cbn [mbind res_bind]. fold d. by rewrite E7. }
  assert (EO : owned fs ds' d = FreeMapSector :: DirectorySector :: blocks h1 ++ blocks h2).
  { unfold owned. rewrite Hact. cbn. by rewrite app_nil_r. }
  exists ds', d, b4. split; [done|]. split; [|unfold files; by rewrite Hact].
  constructor; rewrite ?EO; [|exact Hd|exact Hsz|exact Hdd|exact HM|exact Hmd|by rewrite Hact|exact Hnd].
  eapply Tables_frame; [exact HT|]. eapply agree_outside; [exact Ho|]. intros k Hk. cbn [hdr fs freeMapFile directoryFile].
  rewrite !NoDup_cons in Hnd. split; [|clear -Hnd Hk; set_solver]. apply elem_of_cons in Hk as [->|Hk]; [done|].
  apply list_elem_of_singleton in Hk as ->. done.
Qed.

(** ** Bounds *)

Lemma sum_bound {A} (f : A → nat) (bound : nat) (l : list A) :
  Forall (λ x, (f x ≤ bound)%nat) l → (sum_list_with f l ≤ length l * bound)%nat.
Proof. induction 1 as [|x l Hx _ IH]; cbn; lia. Qed.

Lemma space_bounds fs s m :
  FS fs s m →
  Z.of_nat (size m) ≤ NumDirEntries
  ∧ (∀ k c, m !! k = Some c → Z.of_nat (length c) ≤ FileHeader.MaxFileSize)
  ∧ 709 ≤ free m.
Proof.
  intros (ds&d&b&Hs&HI&->). pose proof (sec_shape _ _ Hs) as Hd. pose proof (do_names _ (fi_dir _ _ _ _ HI)) as Hn.
  assert (Hlen : Z.of_nat (length (active (table d))) ≤ NumDirEntries).
  { rewrite <- (fi_size _ _ _ _ HI), <- (do_size _ (fi_dir _ _ _ _ HI)).
    pose proof (length_filter (λ e, inUse e = true) (table d)). unfold active. lia. }
  split; [unfold files; by rewrite index_size|]. split.
  - intros k c Hc. unfold files in Hc. apply elem_of_list_to_map_2, list_elem_of_fmap in Hc as (e&[= -> ->]&He).
    apply (proj1 (Forall_forall _ _) (fi_files _ _ _ _ HI)) in He as [Hh _].
    unfold contents. rewrite (length_data _ _ Hh Hd). by apply HdrOk_fits.
  - unfold free, files. rewrite sum_index by done.
    assert (HB : (sum_list_with (λ e, file_sectors (contents ds e)) (active (table d))
                  ≤ length (active (table d)) * 31)%nat).
    { apply sum_bound. eapply Forall_impl; [exact (fi_files _ _ _ _ HI)|]. intros e He. cbn.
      rewrite <- (length_own ds e He Hd). destruct He as [Hh _]. unfold own. cbn [length].
      pose proof (length_blocks _ Hh). pose proof (ho_max _ Hh) as Hm. rewrite NumDirect_val in Hm. lia. }
    unfold NumDirEntries in Hlen. change NumSectors with 1024. lia.
Qed.
End PROOFS.
End FileSysSpec.

(** ** Properties *)

Section PROPERTIES.
Import FileSystem FileSpec DirectorySpec FileSysSpec.
Context {S : Type} `{SD : SectorDisk S} (fresh : nat → list Z).
Context (fresh_length : ∀ n, length (fresh n) = n) (fresh_bytes : ∀ n, Forall is_byte (fresh n)).

(** C10 (refinement): a file system is a finite map from names to contents.
    Create enters a file of the given length when the name is new, the directory
    has a free entry and the disk the sectors, and returns FALSE and changes no
    file otherwise; it leaves every other file as it was.  A size of more than
    NumDirect sectors that the disk could hold overruns the header instead.
    Open finds exactly the files there are; Remove deletes the file and its
    space and nothing else. *)
Theorem file_system_refines_map (fs : FileSystem) (s : S) (m : gmap (list Z) (list Z)) (nm : list Z) (n : Z)
    (Hfs : FS fs s m) (Hnm : Forall is_byte nm) (Hn : 0 ≤ n) :
  let k := divRoundUp n SectorSize in
  (if bool_decide (is_Some (m !! key nm)) || (Z.of_nat (size m) =? NumDirEntries) || (free m <? 1 + k)
   then ∃ s', Create fresh fs nm n s = Ok (false, s') ∧ FS fs s' m
   else if FileHeader.NumDirect <? k then Create fresh fs nm n s = Err BadAccess
   else ∃ s' c, Create fresh fs nm n s = Ok (true, s') ∧ Z.of_nat (length c) = n
          ∧ FS fs s' (<[key nm := c]> m))
  ∧ match m !! key nm with
    | None => ∃ s', Open fresh fs nm s = Ok (None, s') ∧ FS fs s' m
    | Some _ => ∃ f s', Open fresh fs nm s = Ok (Some f, s') ∧ Opened fs s' m f (key nm) ∧ seekPosition f = 0
    end
  ∧ ∃ s', Remove fresh fs nm s = Ok (bool_decide (is_Some (m !! key nm)), s') ∧ FS fs s' (delete (key nm) m).
Proof.
  intros k. split; [by apply (Create_ok fresh fresh_length fresh_bytes)|].
  split; [by apply (Open_ok fresh fresh_length fresh_bytes)|by apply (FRemove_ok fresh fresh_length fresh_bytes)].
Qed.

(** Formatting any disk gives a file system without files,
    and starting the file system again on a disk in use finds the files that
    are there. *)
Theorem file_system_start (s : S) (ds : list (list Z)) (Hs : sec_rep s ds) :
  (∃ fs s', new_FileSystem fresh true s = Ok (fs, s') ∧ FS fs s' ∅)
  ∧ ∀ fs m, FS fs s m → ∃ fs' s', new_FileSystem fresh false s = Ok (fs', s') ∧ FS fs' s' m.
Proof.
  split; [by eapply (format_ok fresh fresh_length fresh_bytes)|].
  intros fs m HF. destruct (reopen_ok fresh fs s m HF) as (s'&E&HF'). by exists (rewound fs), s'.
Qed.

(** Reading an open file returns the bytes of its file at
    the position; writing replaces these bytes in its file, changes no other
    file, and keeps the file system consistent and the file open on the same
    name. *)
Theorem open_file_access (fs : FileSystem) (s : S) (m : gmap (list Z) (list Z)) (f : OpenFile) (k from : list Z) (n : Z)
    (Hopen : Opened fs s m f k) (Hov : seekPosition f + n < halfword)
    (Hby : Forall is_byte from) (Hn : n ≤ Z.of_nat (length from)) :
  let pos := seekPosition f in
  let w := written (hdr f) n pos in
  ∃ c, m !! k = Some c
    ∧ (∃ s', Read fresh f n s
         = Ok (slice c pos n, Seek (pos + Z.of_nat (length (slice c pos n))) f, s') ∧ FS fs s' m)
    ∧ ∃ s', Write fresh f from n s = Ok (w, Seek (pos + w) f, s')
        ∧ Opened fs s' (<[k := splice c pos (take (Z.to_nat w) from)]> m) (Seek (pos + w) f) k.
Proof.
  intros pos w.
  destruct (Read_open_ok fresh fresh_length fs s m f k n Hopen Hov) as (c&s1&Ec&E1&H1).
  destruct (Write_open_ok fresh fresh_length fresh_bytes fs s m f k from n Hopen Hov Hby Hn) as (c'&s2&Ec'&E2&H2).
  rewrite Ec in Ec'. injection Ec' as <-. exists c. split; [done|]. split; [|by exists s2].
  exists s1. split; [done|]. by destruct (Opened_lookup _ _ _ _ _ H1) as (_&_&_&_&HF).
Qed.

(** a file system holds at most NumDirEntries files, each of at
    most MaxFileSize bytes, so that at least 709 sectors are free whatever
    files have been created: Create never fails for want of a header sector. *)
Theorem disk_never_full (fs : FileSystem) (s : S) (m : gmap (list Z) (list Z)) (Hfs : FS fs s m) :
  Z.of_nat (size m) ≤ NumDirEntries
  ∧ (∀ k c, m !! k = Some c → Z.of_nat (length c) ≤ FileHeader.MaxFileSize)
  ∧ 709 ≤ free m.
Proof. by apply (space_bounds fs s). Qed.
End PROPERTIES.

Definition zeros (n : nat) : list Z := replicate n 0.

Lemma zeros_length n : length (zeros n) = n.
Proof. apply length_replicate. Qed.

Lemma zeros_bytes n : Forall is_byte (zeros n).
Proof. apply Forall_replicate. by unfold_int. Qed.

(** A formatted disk, and one with a file "ab" of 300 bytes. *)
Lemma formatted : ∃ fs s, FileSystem.new_FileSystem zeros true (Disk.file blank_disk) = Ok (fs, s)
  ∧ FileSysSpec.FS fs s ∅.
Proof. exact (FileSysSpec.format_ok zeros zeros_length zeros_bytes _ _ blank_image_rep). Qed.

Lemma with_file : ∃ fs s m f, FileSysSpec.Opened fs s m f [97; 98] ∧ seekPosition f = 0
  ∧ FileSysSpec.FS fs s m.
Proof.
  destruct formatted as (fs&s&_&HF).
  destruct (FileSysSpec.Create_ok zeros zeros_length zeros_bytes fs s ∅ [97; 98] 300 HF) as (s1&c&E1&Hc&HF1).
  - repeat constructor; by unfold_int.
  - lia.
  - pose proof (FileSysSpec.Open_ok zeros zeros_length zeros_bytes fs s1 _ [97; 98] HF1) as HO.
    rewrite lookup_insert_eq in HO. destruct HO as (f&s2&_&HO&Hp). eexists fs, s2, _, f.
    split; [exact HO|]. split; [exact Hp|].
    by destruct (FileSysSpec.Opened_lookup _ _ _ _ _ HO) as (_&_&_&_&HF2).
Qed.

Lemma file_system_refines_map_witness :
  ∃ fs s s', FileSystem.Create zeros fs [97; 98] 300 s = Ok (true, s').
Proof.
  destruct formatted as (fs&s&_&HF).
  destruct (file_system_refines_map zeros zeros_length zeros_bytes fs s ∅ [97; 98] 300 HF) as [(s'&c&E&_) _].
  - repeat constructor; by unfold_int.
  - lia.
  - exists fs, s, s'. exact E.
Defined.

Lemma file_system_start_witness :
  ∃ fs s', FileSystem.new_FileSystem zeros true (Disk.file blank_disk) = Ok (fs, s').
Proof.
  destruct (file_system_start zeros zeros_length zeros_bytes _ _ blank_image_rep) as [(fs&s'&E&_) _].
  exists fs, s'. exact E.
Defined.

Lemma open_file_access_witness :
  ∃ fs s m f c s', FileSysSpec.Opened fs s m f [97; 98]
    ∧ OpenFile.Read zeros f 3 s = Ok (slice c 0 3, OpenFile.Seek (0 + Z.of_nat (length (slice c 0 3))) f, s').
Proof.
  destruct with_file as (fs&s&m&f&HO&Hp&_).
  destruct (open_file_access zeros zeros_length zeros_bytes fs s m f [97; 98] [1; 2; 3] 3 HO) as (c&_&(s'&E&_)&_).
  - rewrite Hp. reflexivity.
  - repeat constructor; by unfold_int.
  - reflexivity.
  - rewrite Hp in E. exists fs, s, m, f, c, s'. split; [exact HO|exact E].
Defined.

Lemma disk_never_full_witness :
  ∃ (fs : FileSystem.FileSystem) (s : list Z) m, FileSysSpec.FS fs s m ∧ 709 ≤ FileSysSpec.free m.
Proof.
  destruct with_file as (fs&s&m&f&_&_&HF). exists fs, s, m. split; [exact HF|].
  apply (disk_never_full fs s m HF).
Defined.
