(* ===== verification/Threads.v ===== *)
(** threads/thread.{h,cc}, threads/scheduler.{h,cc} and threads/synch.{h,cc}:
    threads, the scheduler, semaphores, locks and condition variables, as the
    steps of a uniprocessor kernel.

    Kernel code runs without interruption while interrupts are off, and with
    interrupts on it can be interrupted only where time passes: when SetLevel
    turns interrupts on, and in the code of the client.  A thread is therefore a
    stack of the points where its kernel calls have to go on ([instr]), and one
    step runs the current thread from such a point to the next.  What the code
    does not determine is the choice of the step: the next call the client
    makes, the semaphores that due interrupt handlers signal, and whether the
    timer asked for a context switch.  The code of a client can also write over
    the end of its stack, which CheckOverflow finds at the next switch.

    The saving and restoring of user registers and address spaces in
    Scheduler::Run is in Multiprog.v; the contents of the stacks in memory and the
    assembly of the context switch are in Switch.v.  Semaphore values do not wrap
    around. *)

From S2P Require Import Prelude Interrupt.

Module Threads.
Export Interrupt.

Inductive ThreadStatus := JUST_CREATED | RUNNING | READY | BLOCKED.

#[global] Instance ThreadStatus_eq_dec : EqDecision ThreadStatus.
Proof. solve_decision. Defined.

(** Pointers to semaphores: those of clients and devices, the private one of a
    lock, and the one a waiter of a condition variable allocates. *)
Inductive sid := SClient (n : nat) | SLock (l : nat) | SWaiter (w : nat).

#[global] Instance sid_eq_dec : EqDecision sid.
Proof. solve_decision. Defined.
#[global] Instance sid_countable : Countable sid.
Proof.
  refine (inj_countable' (λ s, match s with SClient n => inl n | SLock l => inr (inl l) | SWaiter w => inr (inr w) end)
    (λ x, match x with inl n => SClient n | inr (inl l) => SLock l | inr (inr w) => SWaiter w end) _).
  by intros [].
Defined.

(** Where a thread goes on. *)
Inductive instr :=
| AtClient                            (* the code of the client *)
| AtFinish                            (* ThreadFinish, after the forked function *)
| AtBegin                             (* ThreadBegin, before it *)
| AfterSwitch                         (* Run, behind SWITCH *)
| AtSetLevel (now : IntStatus)        (* SetLevel(now) at the end of a call *)
| AtSleepLoop (finishing : bool)      (* the loop of Sleep *)
| AtPLoop (s : sid) (old : IntStatus) (* the loop of P, with oldLevel *)
| AtP (s : sid)                       (* a call of P *)
| AtSetHolder (l : nat)               (* Acquire, behind P *)
| AtAcquire (l : nat)                 (* a call of Acquire *)
| AtDelete (s : sid)                  (* the end of Wait *)
| AtBroadcast (c l : nat).            (* the loop of Broadcast *)

#[global] Instance instr_eq_dec : EqDecision instr.
Proof. solve_decision. Defined.

Record Thread := mkThread { tstatus : ThreadStatus; stack : list instr }.
Record Semaphore := mkSemaphore { value : Z; queue : list nat }.
Record Lock := mkLock { lockHolder : option nat; semaphore : sid }.
Record Condition := mkCondition { waitQueue : list sid }.

Record Kernel := mkKernel {
  currentThread : nat;
  threads : gmap nat Thread;
  readyList : list nat;
  toBeDestroyed : option nat;
  klevel : IntStatus;
  sems : gmap sid Semaphore;
  locks : gmap nat Lock;
  conds : gmap nat Condition;
  nextWaiter : nat;                   (* the next waiter semaphore to allocate *)
  fence : gmap nat bool               (* the last word of a stack is STACK_FENCEPOST *)
}.

Definition set_current (t : nat) (k : Kernel) : Kernel :=
  mkKernel t (threads k) (readyList k) (toBeDestroyed k) (klevel k) (sems k) (locks k) (conds k) (nextWaiter k) (fence k).
Definition set_threads (x : gmap nat Thread) (k : Kernel) : Kernel :=
  mkKernel (currentThread k) x (readyList k) (toBeDestroyed k) (klevel k) (sems k) (locks k) (conds k) (nextWaiter k) (fence k).
Definition set_ready (x : list nat) (k : Kernel) : Kernel :=
  mkKernel (currentThread k) (threads k) x (toBeDestroyed k) (klevel k) (sems k) (locks k) (conds k) (nextWaiter k) (fence k).
Definition set_destroyed (x : option nat) (k : Kernel) : Kernel :=
  mkKernel (currentThread k) (threads k) (readyList k) x (klevel k) (sems k) (locks k) (conds k) (nextWaiter k) (fence k).
Definition set_level (x : IntStatus) (k : Kernel) : Kernel :=
  mkKernel (currentThread k) (threads k) (readyList k) (toBeDestroyed k) x (sems k) (locks k) (conds k) (nextWaiter k) (fence k).
Definition set_sems (x : gmap sid Semaphore) (k : Kernel) : Kernel :=
  mkKernel (currentThread k) (threads k) (readyList k) (toBeDestroyed k) (klevel k) x (locks k) (conds k) (nextWaiter k) (fence k).
Definition set_locks (x : gmap nat Lock) (k : Kernel) : Kernel :=
  mkKernel (currentThread k) (threads k) (readyList k) (toBeDestroyed k) (klevel k) (sems k) x (conds k) (nextWaiter k) (fence k).
Definition set_conds (x : gmap nat Condition) (k : Kernel) : Kernel :=
  mkKernel (currentThread k) (threads k) (readyList k) (toBeDestroyed k) (klevel k) (sems k) (locks k) x (nextWaiter k) (fence k).
Definition set_nextWaiter (x : nat) (k : Kernel) : Kernel :=
  mkKernel (currentThread k) (threads k) (readyList k) (toBeDestroyed k) (klevel k) (sems k) (locks k) (conds k) x (fence k).
Definition set_fence (x : gmap nat bool) (k : Kernel) : Kernel :=
  mkKernel (currentThread k) (threads k) (readyList k) (toBeDestroyed k) (klevel k) (sems k) (locks k) (conds k) (nextWaiter k) x.

Definition off (k : Kernel) : bool := bool_decide (klevel k = IntOff).

Definition upd_thread (t : nat) (f : Thread → Thread) (k : Kernel) : res Kernel :=
  th ← deref (threads k !! t);
  Ok (set_threads (<[t := f th]> (threads k)) k).

Definition setStatus (t : nat) (st : ThreadStatus) (k : Kernel) : res Kernel :=
  upd_thread t (λ th, mkThread st (stack th)) k.

(** The current thread will go on with [frames]. *)
Definition push (frames : list instr) (k : Kernel) : res Kernel :=
  upd_thread (currentThread k) (λ th, mkThread (tstatus th) (frames ++ stack th)) k.

(** ** scheduler.cc *)

(** List::Append requires that the item is not in the list. *)
Definition ReadyToRun (thread : nat) (k : Kernel) : res Kernel :=
  ASSERT (off k) ;;
  k ← setStatus thread READY k;
  ASSERT (bool_decide (thread ∉ readyList k)) ;;
  Ok (set_ready (readyList k ++ [thread]) k).

Definition FindNextToRun (k : Kernel) : res (option nat * Kernel) :=
  ASSERT (off k) ;;
  match readyList k with
  | [] => Ok (None, k)
  | t :: r => Ok (Some t, set_ready r k)
  end.

(** The destructor of Thread refuses the current thread. *)
Definition CheckToBeDestroyed (k : Kernel) : res Kernel :=
  match toBeDestroyed k with
  | None => Ok k
  | Some t =>
    ASSERT (negb (bool_decide (t = currentThread k))) ;;
    _ ← deref (threads k !! t);
    Ok (set_destroyed None (set_fence (delete t (fence k)) (set_threads (delete t (threads k)) k)))
  end.

(** Thread::CheckOverflow.  The main thread has no stack of its own, and no entry
    in [fence]. *)
Definition CheckOverflow (t : nat) (k : Kernel) : res unit :=
  match fence k !! t with
  | Some intact => ASSERT intact
  | None => Ok tt
  end.

Definition Run (nextThread : nat) (finishing : bool) (k : Kernel) : res Kernel :=
  ASSERT (off k) ;;
  k ← (if finishing then
         ASSERT (bool_decide (toBeDestroyed k = None)) ;;
         Ok (set_destroyed (Some (currentThread k)) k)
       else Ok k);
  CheckOverflow (currentThread k) k ;;
  k ← push [AfterSwitch] k;
  setStatus nextThread RUNNING (set_current nextThread k).

(** ** Handlers of due interrupts *)

(** The body of Semaphore::V, between the two calls of SetLevel. *)
Definition V_body (s : sid) (k : Kernel) : res Kernel :=
  sem ← deref (sems k !! s);
  k ← (match queue sem with
       | [] => Ok k
       | t :: q => ReadyToRun t (set_sems (<[s := mkSemaphore (value sem) q]> (sems k)) k)
       end);
  sem ← deref (sems k !! s);
  Ok (set_sems (<[s := mkSemaphore (value sem + 1) (queue sem)]> (sems k)) k).

(** Handlers run with interrupts off, where V leaves the level alone. *)
Definition run_handlers (signals : list nat) (k : Kernel) : res Kernel :=
  foldM (λ n, V_body (SClient n)) signals k.

(** ** thread.cc *)

Definition Yield (k : Kernel) : res Kernel :=
  let oldLevel := klevel k in
  let k := set_level IntOff k in
  '(nextThread, k) ← FindNextToRun k;
  match nextThread with
  | Some t =>
    k ← ReadyToRun (currentThread k) k;
    k ← push [AtSetLevel oldLevel] k;
    Run t false k
  | None => push [AtSetLevel oldLevel] k
  end.

Definition Sleep (finishing : bool) (k : Kernel) : res Kernel :=
  ASSERT (off k) ;;
  k ← setStatus (currentThread k) BLOCKED k;
  push [AtSleepLoop finishing] k.

(** The loop of Sleep: without a ready thread, Idle runs the handlers of the
    next interrupt and the loop is tried again. *)
Definition sleep_loop (finishing : bool) (signals : list nat) (k : Kernel) : res Kernel :=
  '(nextThread, k) ← FindNextToRun k;
  match nextThread with
  | None => k ← push [AtSleepLoop finishing] k; run_handlers signals k
  | Some t => Run t finishing k
  end.

(** The constructor: the name, with its NUL, has at most 32 characters. *)
Definition new_Thread (t : nat) (threadName : list Z) (k : Kernel) : res Kernel :=
  let nameLength := Z.of_nat (length threadName) + 1 in
  ASSERT ((nameLength <=? 32) && (0 <? nameLength)) ;;
  Ok (set_threads (<[t := mkThread JUST_CREATED [AtBegin; AtClient; AtFinish]]> (threads k)) k).

(** Fork; StackAllocate writes the fence. *)
Definition Fork (t : nat) (k : Kernel) : res Kernel :=
  let k := set_fence (<[t := true]> (fence k)) k in
  let oldLevel := klevel k in
  k ← ReadyToRun t (set_level IntOff k);
  push [AtSetLevel oldLevel] k.

Definition Begin (k : Kernel) : res Kernel :=
  k ← CheckToBeDestroyed k; push [AtSetLevel IntOn] k.

Definition Finish (k : Kernel) : res Kernel := Sleep true (set_level IntOff k).

(** ** interrupt.cc, as far as threads see it *)

Definition OneTick (signals : list nat) (yield : bool) (k : Kernel) : res Kernel :=
  k ← run_handlers signals (set_level IntOff k);
  let k := set_level IntOn k in
  if yield then Yield k else Ok k.

Definition SetLevel (now : IntStatus) (signals : list nat) (yield : bool) (k : Kernel) : res Kernel :=
  let old := klevel k in
  let k := set_level now k in
  if bool_decide (now = IntOn) && bool_decide (old = IntOff) then OneTick signals yield k else Ok k.

(** ** synch.cc *)

Definition P (s : sid) (k : Kernel) : res Kernel :=
  push [AtPLoop s (klevel k)] (set_level IntOff k).

Definition P_loop (s : sid) (oldLevel : IntStatus) (k : Kernel) : res Kernel :=
  sem ← deref (sems k !! s);
  if value sem =? 0 then
    ASSERT (bool_decide (currentThread k ∉ queue sem)) ;;
    let k := set_sems (<[s := mkSemaphore (value sem) (queue sem ++ [currentThread k])]> (sems k)) k in
    k ← push [AtPLoop s oldLevel] k;
    Sleep false k
  else
    push [AtSetLevel oldLevel] (set_sems (<[s := mkSemaphore (value sem - 1) (queue sem)]> (sems k)) k).

Definition V (s : sid) (k : Kernel) : res Kernel :=
  let oldLevel := klevel k in
  k ← V_body s (set_level IntOff k);
  push [AtSetLevel oldLevel] k.

Definition IsHeldByCurrentThread (lk : Lock) (k : Kernel) : bool :=
  bool_decide (lockHolder lk = Some (currentThread k)).

Definition set_holder (l : nat) (h : option nat) (k : Kernel) : res Kernel :=
  lk ← deref (locks k !! l);
  Ok (set_locks (<[l := mkLock h (semaphore lk)]> (locks k)) k).

Definition Acquire (l : nat) (k : Kernel) : res Kernel :=
  lk ← deref (locks k !! l);
  k ← push [AtSetHolder l] k;
  P (semaphore lk) k.

Definition Release (l : nat) (k : Kernel) : res Kernel :=
  lk ← deref (locks k !! l);
  ASSERT (IsHeldByCurrentThread lk k) ;;
  k ← set_holder l None k;
  V (semaphore lk) k.

Definition Wait (c l : nat) (k : Kernel) : res Kernel :=
  lk ← deref (locks k !! l);
  ASSERT (IsHeldByCurrentThread lk k) ;;
  let waiter := SWaiter (nextWaiter k) in
  let k := set_nextWaiter (S (nextWaiter k)) (set_sems (<[waiter := mkSemaphore 0 []]> (sems k)) k) in
  cond ← deref (conds k !! c);
  ASSERT (bool_decide (waiter ∉ waitQueue cond)) ;;
  let k := set_conds (<[c := mkCondition (waitQueue cond ++ [waiter])]> (conds k)) k in
  k ← push [AtP waiter; AtAcquire l; AtDelete waiter] k;
  Release l k.

Definition Signal (c l : nat) (k : Kernel) : res Kernel :=
  lk ← deref (locks k !! l);
  ASSERT (IsHeldByCurrentThread lk k) ;;
  cond ← deref (conds k !! c);
  match waitQueue cond with
  | [] => Ok k
  | waiter :: q => V waiter (set_conds (<[c := mkCondition q]> (conds k)) k)
  end.

(** The loop of Broadcast. *)
Definition broadcast_loop (c l : nat) (k : Kernel) : res Kernel :=
  cond ← deref (conds k !! c);
  match waitQueue cond with
  | [] => Ok k
  | _ => k ← push [AtBroadcast c l] k; Signal c l k
  end.

(** ** Steps *)

(** What the code of a client does next. *)
Inductive action :=
| DoP (n : nat) | DoV (n : nat)
| DoAcquire (l : nat) | DoRelease (l : nat)
| DoWait (c l : nat) | DoSignal (c l : nat) | DoBroadcast (c l : nat)
| DoFork (t : nat) (name : list Z) | DoYield | DoTick | DoReturn
| DoOverflow.                         (* write over the end of the stack *)

Record choice := mkChoice { next_action : action; signals : list nat; timer : bool }.

Definition client (ch : choice) (k : Kernel) : res Kernel :=
  match next_action ch with
  | DoReturn => Ok k
  | a =>
    k ← push [AtClient] k;
    match a with
    | DoP n => P (SClient n) k
    | DoV n => V (SClient n) k
    | DoAcquire l => Acquire l k
    | DoRelease l => Release l k
    | DoWait c l => Wait c l k
    | DoSignal c l => Signal c l k
    | DoBroadcast c l => push [AtBroadcast c l] k
    | DoFork t name => k ← new_Thread t name k; Fork t k
    | DoYield => Yield k
    | DoTick => OneTick (signals ch) (timer ch) k
    | DoReturn => Ok k
    | DoOverflow => Ok (set_fence (alter (λ _, false) (currentThread k) (fence k)) k)
    end
  end.

Definition exec (i : instr) (ch : choice) (k : Kernel) : res Kernel :=
  match i with
  | AtClient => client ch k
  | AtFinish => Finish k
  | AtBegin => Begin k
  | AfterSwitch => ASSERT (off k) ;; CheckToBeDestroyed k
  | AtSetLevel now => SetLevel now (signals ch) (timer ch) k
  | AtSleepLoop finishing => sleep_loop finishing (signals ch) k
  | AtPLoop s old => P_loop s old k
  | AtP s => P s k
  | AtSetHolder l => set_holder l (Some (currentThread k)) k
  | AtAcquire l => Acquire l k
  | AtDelete s => _ ← deref (sems k !! s); Ok (set_sems (delete s (sems k)) k)
  | AtBroadcast c l => broadcast_loop c l k
  end.

(** One step of the current thread. *)
Definition step (ch : choice) (k : Kernel) : res Kernel :=
  th ← deref (threads k !! currentThread k);
  match stack th with
  | [] => Err BadAccess
  | i :: rest =>
    k ← upd_thread (currentThread k) (λ th, mkThread (tstatus th) rest) k;
    exec i ch k
  end.

(** The kernel when the main thread starts: semaphores with their initial
    values, free locks, conditions nobody waits on. *)
Definition boot (values : gmap nat Z) (ls cs : gset nat) : Kernel :=
  mkKernel 0 {[0%nat := mkThread RUNNING [AtClient; AtFinish]]} [] None IntOn
    (kmap SClient ((λ v, mkSemaphore v []) <$> values) ∪ set_to_map (λ l, (SLock l, mkSemaphore 1 [])) ls)
    (set_to_map (λ l, (l, mkLock None (SLock l))) ls)
    (set_to_map (λ c, (c, mkCondition [])) cs) 0 ∅.
End Threads.
