(* ===== verification/SynchInv.v ===== *)
(** The invariant of the kernel of Threads.v and its preservation by every
    step: where each thread is, who holds which lock, which waiters of which
    condition are still to be signalled. *)

From S2P Require Import Prelude Interrupt Threads.

Module SynchInv.
Import Threads.
Implicit Types (k : Kernel) (t : nat) (s : sid) (st r : list instr).

(** ** Stacks *)

Definition stk k : gmap nat (list instr) := stack <$> threads k.

Definition base : list instr := [AtClient; AtFinish].

(** The stack of the current thread while interrupts are on. *)
Inductive on_frames : list instr → Prop :=
| on_client : on_frames base
| on_finish : on_frames [AtFinish]
| on_holder l : on_frames (AtSetHolder l :: base)
| on_broadcast c l : on_frames (AtBroadcast c l :: base)
| on_waitP w l : on_frames (AtP (SWaiter w) :: AtAcquire l :: AtDelete (SWaiter w) :: base)
| on_acquire w l : on_frames (AtAcquire l :: AtDelete (SWaiter w) :: base)
| on_reholder w l : on_frames (AtSetHolder l :: AtDelete (SWaiter w) :: base)
| on_delete w : on_frames (AtDelete (SWaiter w) :: base).

(** What a thread that waits in P for [s] goes on with. *)
Inductive ploop : sid → list instr → Prop :=
| pl_client n : ploop (SClient n) base
| pl_lock l : ploop (SLock l) (AtSetHolder l :: base)
| pl_relock l w : ploop (SLock l) (AtSetHolder l :: AtDelete (SWaiter w) :: base)
| pl_waiter w l : ploop (SWaiter w) (AtAcquire l :: AtDelete (SWaiter w) :: base).

(** Behind SWITCH: the end of a call, or the loop of P. *)
Inductive resumable : list instr → Prop :=
| rs_level r : on_frames r → resumable (AtSetLevel IntOn :: r)
| rs_ploop s r : ploop s r → resumable (AtPLoop s IntOn :: r).

(** A thread that is ready but not running. *)
Inductive parked : list instr → Prop :=
| pk_begin : parked (AtBegin :: base)
| pk_switch r : resumable r → parked (AfterSwitch :: r).

(** The current thread, by interrupt level; [true] where a finished thread may
    still have to be destroyed. *)
Inductive cur_shape : IntStatus → bool → list instr → Prop :=
| cs_on r : on_frames r → cur_shape IntOn false r
| cs_off r : resumable r → cur_shape IntOff false r
| cs_sleep s r : ploop s r → cur_shape IntOff false (AtSleepLoop false :: AtPLoop s IntOn :: r)
| cs_exit : cur_shape IntOff false [AtSleepLoop true]
| cs_parked st : parked st → cur_shape IntOff true st.

(** A thread in the queue of [s]: the current one, in the loop of Sleep, and
    any other. *)
Definition asleep s st : Prop := ∃ r, ploop s r ∧ st = AtSleepLoop false :: AtPLoop s IntOn :: r.
Definition blocked s st : Prop := ∃ r, ploop s r ∧ st = AfterSwitch :: AtPLoop s IntOn :: r.

Definition sleeping st : Prop := ∃ s, asleep s st.

Lemma on_not_sleeping st : on_frames st → ¬ sleeping st.
Proof. intros H (s&r&_&->). inversion H. Qed.
Lemma resumable_not_sleeping st : resumable st → ¬ sleeping st.
Proof. intros H (s&r&_&->). inversion H. Qed.
Lemma parked_not_sleeping st : parked st → ¬ sleeping st.
Proof. intros H (s&r&_&->). inversion H. Qed.
Lemma cons_not_sleeping i st : i ≠ AtSleepLoop false → ¬ sleeping (i :: st).
Proof. intros Hi (s&r&_&[= -> _]). done. Qed.

(** ** Where the threads are *)

Record Sched k : Prop := {
  sc_nodup : NoDup (readyList k);
  sc_ready t : t ∈ readyList k →
    ∃ st, stk k !! t = Some st ∧ if decide (t = currentThread k) then sleeping st else parked st;
  sc_qnodup s sem : sems k !! s = Some sem → NoDup (queue sem) ∧ 0 ≤ value sem;
  sc_queue s sem t : sems k !! s = Some sem → t ∈ queue sem →
    t ∉ readyList k
    ∧ ∃ st, stk k !! t = Some st ∧ if decide (t = currentThread k) then asleep s st else blocked s st;
  sc_all t st : stk k !! t = Some st → t ≠ currentThread k ∨ sleeping st →
    toBeDestroyed k = Some t ∨ t ∈ readyList k ∨ ∃ s sem, sems k !! s = Some sem ∧ t ∈ queue sem;
  sc_dead t : toBeDestroyed k = Some t → t ≠ currentThread k ∧ stk k !! t = Some [AfterSwitch]
}.

(** ** Locks *)

(** Behind P in Acquire, with lockHolder still to be set. *)
Definition taking (l : nat) st : Prop := AtSetHolder l ∈ st ∧ AtPLoop (SLock l) IntOn ∉ st.

Record LockOk k (l : nat) (lk : Lock) (o : option nat) : Prop := {
  lo_sem : semaphore lk = SLock l;
  lo_value : ∃ sem, sems k !! SLock l = Some sem ∧ value sem = match o with Some _ => 0 | None => 1 end;
  lo_taking t st : stk k !! t = Some st → taking l st → o = Some t ∧ lockHolder lk = None;
  lo_holder t : lockHolder lk = Some t → o = Some t;
  lo_owner t : o = Some t → lockHolder lk = None → ∃ st, stk k !! t = Some st ∧ taking l st
}.

(** ** Conditions *)

Definition waiting (w : nat) st : Prop := AtP (SWaiter w) ∈ st ∨ AtPLoop (SWaiter w) IntOn ∈ st.
Definition deleting (w : nat) st : Prop := AtDelete (SWaiter w) ∈ st.

Record CondOk k : Prop := {
  co_fresh w : is_Some (sems k !! SWaiter w) → (w < nextWaiter k)%nat;
  co_queue c cd s : conds k !! c = Some cd → s ∈ waitQueue cd →
    ∃ w sem, s = SWaiter w ∧ sems k !! s = Some sem ∧ value sem = 0
      ∧ ∃ t st, stk k !! t = Some st ∧ waiting w st;
  co_nodup c cd : conds k !! c = Some cd → NoDup (waitQueue cd);
  co_disjoint c c' cd cd' s : conds k !! c = Some cd → conds k !! c' = Some cd' →
    s ∈ waitQueue cd → s ∈ waitQueue cd' → c = c';
  co_owner t t' st st' w : stk k !! t = Some st → stk k !! t' = Some st' →
    deleting w st → deleting w st' → t = t'
}.

(** The objects a stack mentions exist. *)
Definition instr_ok k (i : instr) : Prop :=
  match i with
  | AtPLoop s _ | AtP s | AtDelete s => is_Some (sems k !! s)
  | AtSetHolder l | AtAcquire l => is_Some (locks k !! l)
  | AtBroadcast c l => is_Some (conds k !! c) ∧ is_Some (locks k !! l)
  | _ => True
  end.

Record Sync k : Prop := {
  sy_objs t st : stk k !! t = Some st → Forall (instr_ok k) st;
  sy_locks : ∃ o : gmap nat nat, ∀ l lk, locks k !! l = Some lk → LockOk k l lk (o !! l);
  sy_conds : CondOk k
}.

Record Inv k : Prop := {
  iv_cur : ∃ st b, stk k !! currentThread k = Some st ∧ cur_shape (klevel k) b st
             ∧ (toBeDestroyed k = None ∨ b = true);
  iv_sched : Sched k;
  iv_sync : Sync k
}.

(** ** Updates of a stack *)

Definition put st k : Kernel :=
  set_threads (alter (λ th, mkThread (tstatus th) st) (currentThread k) (threads k)) k.

Lemma stk_alter t (f : Thread → Thread) k (g : list instr → list instr) :
  (∀ th, stack (f th) = g (stack th)) → stack <$> alter f t (threads k) = alter g t (stk k).
Proof.
  intros Hf. apply map_eq. intros i. unfold stk. rewrite lookup_fmap.
  destruct (decide (i = t)) as [->|Hne].
  - rewrite !lookup_alter_eq, lookup_fmap. destruct (threads k !! t); cbn; [by rewrite Hf|done].
  - by rewrite !lookup_alter_ne, lookup_fmap by done.
Qed.

Lemma stk_put st k t : stk (put st k) !! t = if decide (t = currentThread k) then (λ _, st) <$> stk k !! t else stk k !! t.
Proof.
  unfold put, stk at 1. cbn [threads set_threads]. rewrite (stk_alter _ _ _ (λ _, st)) by done.
  case_decide as E; [subst; by rewrite lookup_alter_eq|by rewrite lookup_alter_ne].
Qed.

Lemma stk_put_cur st st' k : stk k !! currentThread k = Some st → stk (put st' k) !! currentThread k = Some st'.
Proof. intros H. rewrite stk_put, decide_True by done. by rewrite H. Qed.

Lemma stk_put_Some st k t x :
  stk (put st k) !! t = Some x → (t = currentThread k ∧ x = st) ∨ (t ≠ currentThread k ∧ stk k !! t = Some x).
Proof.
  rewrite stk_put. case_decide; [|by right]. destruct (stk k !! t); [|done]. cbn. intros [= <-]. by left.
Qed.

Lemma upd_thread_ok t f k : is_Some (stk k !! t) → upd_thread t f k = Ok (set_threads (alter f t (threads k)) k).
Proof.
  unfold stk. rewrite lookup_fmap. intros H. unfold upd_thread. destruct (threads k !! t) as [th|] eqn:E; cbn.
  - f_equal. f_equal. apply map_eq. intros i. destruct (decide (i = t)) as [->|Hne].
    + by rewrite lookup_insert_eq, lookup_alter_eq, E.
    + by rewrite lookup_insert_ne, lookup_alter_ne.
  - by destruct H.
Qed.

Lemma push_ok frames st k : stk k !! currentThread k = Some st → push frames k = Ok (put (frames ++ st) k).
Proof.
  intros H. unfold push. rewrite upd_thread_ok by done. f_equal. unfold put. f_equal.
  apply map_eq. intros i. destruct (decide (i = currentThread k)) as [->|Hne].
  - rewrite !lookup_alter_eq. unfold stk in H. rewrite lookup_fmap in H.
    destruct (threads k !! currentThread k); [|done]. cbn in *. by simplify_eq.
  - by rewrite !lookup_alter_ne.
Qed.

Lemma setStatus_ok t x k : is_Some (stk k !! t) →
  ∃ th, setStatus t x k = Ok (set_threads th k) ∧ stack <$> th = stk k.
Proof.
  intros H. unfold setStatus. rewrite upd_thread_ok by done. eexists. split; [done|].
  rewrite (stk_alter _ _ _ (λ x, x)) by done. apply map_eq. intros i.
  destruct (decide (i = t)) as [->|Hne]; [|by rewrite lookup_alter_ne].
  rewrite lookup_alter_eq. by destruct (stk k !! t).
Qed.

(** ** Moves of the scheduler *)

(** Changes that concern only the running thread's own stack, the values of
    semaphores and the queues that are empty. *)
Lemma Sched_frame k k' :
  currentThread k' = currentThread k → readyList k' = readyList k → toBeDestroyed k' = toBeDestroyed k →
  (∀ t, t ≠ currentThread k → stk k' !! t = stk k !! t) →
  (stk k' !! currentThread k = stk k !! currentThread k
   ∨ (∀ st, stk k !! currentThread k = Some st → ¬ sleeping st)
     ∧ (∀ st, stk k' !! currentThread k = Some st → ¬ sleeping st)) →
  (∀ s sem', sems k' !! s = Some sem' → 0 ≤ value sem'
     ∧ (queue sem' = [] ∨ ∃ sem, sems k !! s = Some sem ∧ queue sem = queue sem')) →
  (∀ s sem, sems k !! s = Some sem → queue sem ≠ [] → ∃ sem', sems k' !! s = Some sem' ∧ queue sem' = queue sem) →
  Sched k → Sched k'.
Proof.
  intros Ec Er Ed Ho Hcur Hs1 Hs2 [H1 H2 H3 H4 H5 H6]. split; rewrite ?Ec, ?Er, ?Ed.
  - done.
  - intros t Ht. destruct (H2 t Ht) as (st&Est&Hst). case_decide as E.
    + subst t. destruct Hcur as [Heq|[Hn _]]; [exists st; by rewrite Heq|by destruct (Hn st Est)].
    + exists st. by rewrite Ho.
  - intros s sem' Hs. destruct (Hs1 s sem' Hs) as [Hv [->|(sem&Es&<-)]]; [split; [apply NoDup_nil_2|done]|].
    split; [by apply (H3 s sem)|done].
  - intros s sem' t Hs Ht. destruct (Hs1 s sem' Hs) as [_ [E|(sem&Es&E)]]; [rewrite E in Ht; by apply not_elem_of_nil in Ht|].
    rewrite <- E in Ht. destruct (H4 s sem t Es Ht) as (Hn&st&Est&Hst). split; [done|]. case_decide as E'.
    + subst t. destruct Hcur as [Heq|[Hns _]]; [exists st; by rewrite Heq|].
      destruct (Hns st Est). by exists s.
    + exists st. by rewrite Ho.
  - intros t st Est Hst.
    assert (Hold : stk k !! t = Some st ∧ (t ≠ currentThread k ∨ sleeping st)).
    { destruct (decide (t = currentThread k)) as [->|Hne]; [|rewrite <- Ho by done; by split; [|left]].
      destruct Hcur as [Heq|[_ Hns]]; [by rewrite <- Heq|]. destruct Hst as [?|Hsl]; [done|by destruct (Hns st Est)]. }
    destruct Hold as [Est' Hst']. destruct (H5 t st Est' Hst') as [?|[?|(s&sem&Es&Ht)]]; [by left|by right; left|].
    right; right. destruct (Hs2 s sem Es) as (sem'&Es'&E); [by intros E; rewrite E in Ht; apply not_elem_of_nil in Ht|].
    exists s, sem'. by rewrite E.
  - intros t Ht. destruct (H6 t Ht) as [Hne Est]. split; [done|]. by rewrite Ho.
Qed.

(** A thread moves from the front of a queue to the ready list. *)
Lemma Sched_wake k s sem t q (ths : gmap nat Thread) :
  Sched k → sems k !! s = Some sem → queue sem = t :: q → stack <$> ths = stk k →
  Sched (set_ready (readyList k ++ [t]) (set_threads ths (set_sems (<[s := mkSemaphore (value sem + 1) q]> (sems k)) k))).
Proof.
  intros [H1 H2 H3 H4 H5 H6] Es Eq Eths. destruct (H3 s sem Es) as [Hnd Hv]. rewrite Eq in Hnd.
  apply NoDup_cons in Hnd as [Htq Hnd]. destruct (H4 s sem t Es) as (Htr&st&Est&Hst); [rewrite Eq; by constructor|].
  split; cbn -[stk]; unfold stk in *; cbn [threads set_ready set_threads set_sems]; rewrite ?Eths; fold (stk k) in *.
  - apply NoDup_snoc. by split.
  - intros u [Hu|Hu]%elem_of_app; [by apply H2|]. apply list_elem_of_singleton in Hu as ->. exists st.
    split; [done|]. case_decide; [by exists s|]. destruct Hst as (r&Hr&->). by constructor; constructor.
  - intros s' sem' [[<- <-]|[Hne Hs']]%lookup_insert_Some; [cbn; split; [done|lia]|by apply (H3 s' sem')].
  - intros s' sem' u Hs' Hu.
    assert (Hold : ∃ sem0, sems k !! s' = Some sem0 ∧ u ∈ queue sem0 ∧ u ≠ t).
    { apply lookup_insert_Some in Hs' as [[<- <-]|[Hne Hs']].
      - exists sem. cbn in Hu. rewrite Eq. split; [done|]. split; [by constructor|]. by intros ->.
      - exists sem'. split; [done|]. split; [done|]. intros ->.
        destruct (H4 s' sem' t Hs' Hu) as (_&st'&Est'&Hst'). simplify_eq.
        destruct (decide (t = currentThread k)); destruct Hst as (r&_&->), Hst' as (r'&_&[= -> _]); done. }
    destruct Hold as (sem0&Hs0&Hu0&Hne). destruct (H4 s' sem0 u Hs0 Hu0) as (Hnr&st'&Est'&Hst').
    split; [|by exists st']. rewrite elem_of_app, list_elem_of_singleton. tauto.
  - intros u st' Eu Hu. destruct (H5 u st' Eu Hu) as [?|[?|(s'&sem'&Hs'&Hin)]]; [by left|right; left; set_solver|].
    right. destruct (decide (s' = s)) as [->|Hne].
    + simplify_eq. rewrite Eq in Hin. apply elem_of_cons in Hin as [->|Hin]; [left; set_solver|].
      right. exists s. rewrite lookup_insert_eq. by eexists.
    + right. exists s', sem'. by rewrite lookup_insert_ne.
  - done.
Qed.

(** What V leaves alone. *)
Record same k k' : Prop := {
  sm_cur : currentThread k' = currentThread k;
  sm_stk : stk k' = stk k;
  sm_dead : toBeDestroyed k' = toBeDestroyed k;
  sm_level : klevel k' = klevel k;
  sm_locks : locks k' = locks k;
  sm_conds : conds k' = conds k;
  sm_next : nextWaiter k' = nextWaiter k;
  sm_fence : fence k' = fence k
}.

Lemma V_body_ok k s sem :
  Sched k → klevel k = IntOff → sems k !! s = Some sem →
  ∃ k', V_body s k = Ok k' ∧ Sched k' ∧ same k k'
    ∧ sems k' = <[s := mkSemaphore (value sem + 1) (tail (queue sem))]> (sems k)
    ∧ readyList k' = readyList k ++ take 1 (queue sem).
Proof.
  intros HS Hl Es. unfold V_body. rewrite Es. cbn [deref mbind res_bind].
  destruct (queue sem) as [|t q] eqn:Eq.
  - cbn [mbind res_bind]. rewrite Es. cbn [deref mbind res_bind]. eexists. split; [done|].
    rewrite Eq. cbn [tail take]. rewrite app_nil_r. split; [|by split; [split|]].
    eapply Sched_frame; [..|exact HS]; try done; [by left| |]; cbn.
    + intros s' sem' [[<- <-]|[Hne Hs']]%lookup_insert_Some; cbn.
      * split; [destruct (sc_qnodup _ HS s sem Es); lia|by left].
      * split; [by apply (sc_qnodup _ HS s')|]. right. by exists sem'.
    + intros s' sem' Hs' Hq. destruct (decide (s' = s)) as [->|Hne]; [congruence|].
      exists sem'. by rewrite lookup_insert_ne.
  - unfold ReadyToRun. destruct (sc_queue _ HS s sem t Es) as (Hnr&st&Est&_); [rewrite Eq; by constructor|].
    unfold off. cbn [klevel set_sems]. rewrite Hl, bool_decide_true by done. cbn [ASSERT mbind res_bind].
    destruct (setStatus_ok t READY (set_sems (<[s := mkSemaphore (value sem) q]> (sems k)) k)) as (ths&->&Eths);
      [by unfold stk in *; cbn|]. cbn [mbind res_bind readyList set_threads set_sems].
    rewrite bool_decide_true by done. cbn [ASSERT mbind res_bind sems set_ready set_threads set_sems].
    rewrite lookup_insert_eq. cbn [deref mbind res_bind value queue]. eexists. split; [done|].
    unfold stk in Eths. cbn [threads set_sems] in Eths. fold (stk k) in Eths.
    pose proof (Sched_wake k s sem t q ths HS Es Eq Eths) as HW. cbn [tail take].
    split; [|split; [by split|]].
    + eapply Sched_frame; [..|exact HW]; try done; [by left| |]; cbn; rewrite insert_insert_eq.
      * intros s' sem' Hs'. split; [by apply (sc_qnodup _ HW s')|]. right. by exists sem'.
      * intros s' sem' Hs' _. by exists sem'.
    + cbn. by rewrite insert_insert_eq.
Qed.

(** The current thread is neither ready nor queued unless it sleeps. *)
Lemma cur_not_ready k st :
  Sched k → stk k !! currentThread k = Some st → ¬ sleeping st → currentThread k ∉ readyList k.
Proof.
  intros HS Est Hns Hin. destruct (sc_ready _ HS _ Hin) as (st'&E&H). rewrite decide_True in H by done. naive_solver.
Qed.

Lemma cur_not_queued k st s sem :
  Sched k → stk k !! currentThread k = Some st → ¬ sleeping st → sems k !! s = Some sem →
  currentThread k ∉ queue sem.
Proof.
  intros HS Est Hns Es Hin. destruct (sc_queue _ HS s sem _ Es Hin) as (_&st'&E&H).
  rewrite decide_True in H by done. simplify_eq. destruct Hns. by exists s.
Qed.

Lemma dead_not_ready k t : Sched k → toBeDestroyed k = Some t → t ∉ readyList k.
Proof.
  intros HS Hd Hin. destruct (sc_dead _ HS t Hd) as [Hne Et]. destruct (sc_ready _ HS t Hin) as (x&Ex&Hx).
  rewrite decide_False in Hx by done. rewrite Et in Ex. injection Ex as <-. inversion Hx as [|? Hres]. inversion Hres.
Qed.

(** P puts the current thread into the queue. *)
Lemma Sched_enqueue k k' s sem st r :
  Sched k → stk k !! currentThread k = Some st → ¬ sleeping st → sems k !! s = Some sem → ploop s r →
  currentThread k' = currentThread k → readyList k' = readyList k → toBeDestroyed k' = toBeDestroyed k →
  stk k' = <[currentThread k := AtSleepLoop false :: AtPLoop s IntOn :: r]> (stk k) →
  sems k' = <[s := mkSemaphore (value sem) (queue sem ++ [currentThread k])]> (sems k) →
  Sched k'.
Proof.
  intros HS Est Hns Es Hr Ec Er Ed Estk Esem.
  pose proof (cur_not_ready k st HS Est Hns) as Hcr. pose proof (cur_not_queued k st) as Hcq.
  pose proof HS as [H1 H2 H3 H4 H5 H6]. split; rewrite ?Ec, ?Er, ?Ed, ?Estk, ?Esem.
  - done.
  - intros t Ht. destruct (H2 t Ht) as (st'&E&Hst). assert (t ≠ currentThread k) by congruence.
    rewrite lookup_insert_ne by done. by exists st'.
  - intros s' sem' [[<- <-]|[Hne Hs']]%lookup_insert_Some; [|by apply (H3 s')]. cbn.
    destruct (H3 s sem Es). split; [|done]. apply NoDup_snoc. split; [done|by eapply Hcq].
  - intros s' sem' t Hs' Ht.
    destruct (decide (t = currentThread k)) as [->|Hne].
    + assert (s' = s) as ->.
      { apply lookup_insert_Some in Hs' as [[-> _]|[_ Hs']]; [done|]. by destruct (Hcq s' sem' HS Est Hns Hs'). }
      split; [done|]. rewrite lookup_insert_eq. eexists. split; [done|]. by exists r.
    + rewrite lookup_insert_ne by done.
      apply lookup_insert_Some in Hs' as [[<- <-]|[_ Hs']].
      * cbn in Ht. apply elem_of_app in Ht as [Ht|Ht%list_elem_of_singleton]; [|done].
        destruct (H4 s sem t Es Ht) as (?&st'&?&Hst'). rewrite decide_False in Hst' by done. split; [done|]. by exists st'.
      * destruct (H4 s' sem' t Hs' Ht) as (?&st'&?&Hst'). rewrite decide_False in Hst' by done. split; [done|]. by exists st'.
  - intros t st' Et Ht. destruct (decide (t = currentThread k)) as [->|Hne].
    + right; right. exists s. rewrite lookup_insert_eq. eexists. split; [done|]. cbn. set_solver.
    + rewrite lookup_insert_ne in Et by done. destruct (H5 t st' Et) as [?|[?|(s'&sem'&Hs'&Hin)]]; [by left|by left|by right; left|].
      right; right. destruct (decide (s' = s)) as [->|Hns'].
      * exists s. rewrite lookup_insert_eq. eexists. split; [done|]. cbn. simplify_eq. set_solver.
      * exists s', sem'. by rewrite lookup_insert_ne.
  - intros t Ht. destruct (H6 t Ht). rewrite lookup_insert_ne by done. done.
Qed.

(** A context switch to the first ready thread [n].  The old thread [c] goes on
    with [st']; [dead'] and [ready'] say what became of it. *)
Lemma Sched_switch k k' st st' n rdy :
  Sched k → stk k !! currentThread k = Some st → readyList k = n :: rdy →
  currentThread k' = n → sems k' = sems k → stk k' = <[currentThread k := st']> (stk k) →
  (sleeping st ∧ (∃ s, asleep s st ∧ blocked s st') ∧ readyList k' = rdy ∧ toBeDestroyed k' = toBeDestroyed k
   ∨ ¬ sleeping st ∧ parked st' ∧ readyList k' = rdy ++ [currentThread k] ∧ toBeDestroyed k' = toBeDestroyed k
   ∨ ¬ sleeping st ∧ st' = [AfterSwitch] ∧ readyList k' = rdy ∧ toBeDestroyed k' = Some (currentThread k)
     ∧ toBeDestroyed k = None) →
  Sched k'.
Proof.
  intros HS Est Er En Esem Estk Hcase. pose proof HS as [H1 H2 H3 H4 H5 H6]. rewrite Er in H1.
  apply NoDup_cons in H1 as [Hn H1]. set (c := currentThread k) in *.
  assert (Hold : ∀ t, t ≠ c → stk k' !! t = stk k !! t) by (intros; rewrite Estk; by apply lookup_insert_ne).
  assert (Hcst : stk k' !! c = Some st') by (rewrite Estk; apply lookup_insert_eq).
  assert (Hr' : ∀ t, t ∈ readyList k' → (t ∈ rdy ∨ t = c ∧ parked st' ∧ ¬ sleeping st)).
  { intros t Ht. destruct Hcase as [(_&_&E&_)|[(?&?&E&_)|(_&_&E&_)]]; rewrite E in Ht; [by left| |by left].
    apply elem_of_app in Ht as [?|Ht]; [by left|]. apply list_elem_of_singleton in Ht. by right. }
  assert (Hr2 : ∀ t, t ∈ rdy → t ∈ readyList k').
  { intros t Ht. destruct Hcase as [(_&_&E&_)|[(?&?&E&_)|(_&_&E&_)]]; rewrite E; set_solver. }
  assert (Hrd : ∀ t, t ∈ rdy → stk k' !! t = Some (default [] (stk k' !! t)) ∧ parked (default [] (stk k' !! t))).
  { intros t Ht. destruct (H2 t) as (x&Ex&Hx); [rewrite Er; by constructor|]. case_decide as E.
    - subst t. destruct Hcase as [(_&(s&_&(r&Hr&->))&_)|[(Hns&_)|(Hns&_)]]; [|naive_solver..].
      fold c. rewrite Hcst. cbn. split; [done|]. by constructor; constructor.
    - rewrite (Hold t E), Ex. done. }
  split.
  - destruct Hcase as [(_&_&->&_)|[(Hns&_&->&_)|(_&_&->&_)]]; [done| |done]. apply NoDup_snoc. split; [done|].
    intros Hin. eapply (cur_not_ready k st); [done..|]. rewrite Er. by constructor.
  - intros t Ht. rewrite En. destruct (Hr' t Ht) as [Hin|(->&Hp&Hns)].
    + destruct (Hrd t Hin) as [E1 E2]. eexists. split; [exact E1|]. by rewrite decide_False by congruence.
    + exists st'. split; [done|]. rewrite decide_False; [done|]. intros <-.
      eapply (cur_not_ready k st); [done..|]. rewrite Er. fold c. by constructor.
  - rewrite Esem. done.
  - rewrite Esem, En. intros s sem t Hs Ht. destruct (H4 s sem t Hs Ht) as (Hnr&x&Ex&Hx). rewrite Er in Hnr.
    apply not_elem_of_cons in Hnr as [Htn Hnr]. destruct (decide (t = c)) as [->|Hne].
    + assert (Hsl : sleeping x) by (by exists s). rewrite Est in Ex. injection Ex as <-.
      destruct Hcase as [(_&(s'&Ha&Hb)&->&_)|[(Hns&_)|(Hns&_)]]; [|by destruct Hns..].
      split; [done|]. exists st'. split; [done|]. rewrite decide_False by done.
      destruct Hx as (r1&_&->), Ha as (r2&_&[= -> _]). done.
    + split; [|exists x; rewrite Hold, decide_False by done; done]. intros [?|(?&_)]%Hr'; done.
  - rewrite Esem, En. intros t x Ex Ht. destruct (decide (t = c)) as [->|Hne].
    + pose proof Hcase as HC. destruct HC as [(Hsl&_&_&Ed)|[(_&_&E&_)|(_&_&_&->&_)]]; [|right; left; rewrite E; set_solver|by left].
      destruct (H5 c st Est) as [Hd|[Hin|Hin]]; [by right| | |by right; right].
      * destruct (H6 c Hd). done.
      * rewrite Er in Hin. apply elem_of_cons in Hin as [Hcn|Hin]; [|right; left; by apply Hr2].
        destruct Ht as [Ht|Ht]; [done|]. rewrite Hcst in Ex. injection Ex as <-.
        destruct Hcase as [(_&(s&_&(r&_&->))&_)|[(?&_)|(?&_)]]; [|done..]. by apply cons_not_sleeping in Ht.
    + rewrite Hold in Ex by done. destruct (H5 t x Ex) as [Hd|[Hin|?]]; [by left| | |by right; right].
      * left. destruct Hcase as [(_&_&_&->)|[(_&_&_&->)|(_&_&_&_&E)]]; [done..|congruence].
      * rewrite Er in Hin. apply elem_of_cons in Hin as [->|Hin]; [|right; left; by apply Hr2].
        destruct Ht as [Ht|Ht]; [done|]. destruct (H2 n) as (y&Ey&Hy); [rewrite Er; by constructor|].
        rewrite Ex in Ey. injection Ey as <-. rewrite decide_False in Hy by done. by apply parked_not_sleeping in Hy.
  - intros t Ht. rewrite En.
    assert (Hkeep : toBeDestroyed k = Some t → t ≠ n ∧ stk k' !! t = Some [AfterSwitch]).
    { intros Hd. destruct (H6 t Hd) as [Hne Ex]. split; [|by rewrite Hold]. intros ->.
      apply (dead_not_ready k n HS Hd). rewrite Er. by constructor. }
    destruct Hcase as [(_&_&_&Ed)|[(_&_&_&Ed)|(Hns&->&_&Ed&_)]]; rewrite Ed in Ht; [by apply Hkeep..|].
    injection Ht as <-. split; [|done]. intros Hcn. apply (cur_not_ready k st HS Est Hns). rewrite Er. fold c.
    rewrite Hcn. by constructor.
Qed.

(** A new thread. *)
Lemma Sched_fork k k' t :
  Sched k → stk k !! t = None → stk k !! currentThread k ≠ None →
  currentThread k' = currentThread k → sems k' = sems k → toBeDestroyed k' = toBeDestroyed k →
  readyList k' = readyList k ++ [t] → stk k' = <[t := AtBegin :: base]> (stk k) →
  Sched k' ∧ t ∉ readyList k.
Proof.
  intros [H1 H2 H3 H4 H5 H6] Ht Hc Ec Es Ed Er Estk.
  assert (Htr : t ∉ readyList k) by (intros Hin; destruct (H2 t Hin) as (?&?&_); congruence).
  split; [|done]. assert (Htc : t ≠ currentThread k) by congruence.
  split; rewrite ?Ec, ?Es, ?Ed, ?Er, ?Estk.
  - apply NoDup_snoc. by split.
  - intros u [Hu|Hu]%elem_of_app.
    + destruct (H2 u Hu) as (x&Ex&Hx). rewrite lookup_insert_ne by congruence. by exists x.
    + apply list_elem_of_singleton in Hu as ->. rewrite lookup_insert_eq. eexists. split; [done|]. rewrite decide_False by done. constructor.
  - done.
  - intros s sem u Hs Hu. destruct (H4 s sem u Hs Hu) as (?&x&Ex&Hx). assert (u ≠ t) by congruence.
    rewrite lookup_insert_ne by done. split; [set_solver|by exists x].
  - intros u x Hu Hor. destruct (decide (u = t)) as [->|Hne]; [right; left; set_solver|].
    rewrite lookup_insert_ne in Hu by done. destruct (H5 u x Hu Hor) as [?|[?|?]]; [by left|right; left; set_solver|by right; right].
  - intros u Hu. destruct (H6 u Hu) as [? Ex]. rewrite lookup_insert_ne by congruence. done.
Qed.

(** A finished thread is destroyed. *)
Lemma Sched_destroy k k' t st :
  Sched k → toBeDestroyed k = Some t → stk k !! currentThread k = Some st →
  currentThread k' = currentThread k → sems k' = sems k → toBeDestroyed k' = None →
  readyList k' = readyList k → stk k' = delete t (stk k) → Sched k'.
Proof.
  intros HS Hd Hst Ec Es Ed Er Estk. pose proof HS as [H1 H2 H3 H4 H5 H6]. destruct (H6 t Hd) as [Hne Et].
  split; rewrite ?Ec, ?Es, ?Ed, ?Er, ?Estk; try done.
  - intros u Hu. destruct (H2 u Hu) as (x&Ex&Hx). exists x. split; [|done]. rewrite lookup_delete_ne; [done|].
    intros <-. by apply (dead_not_ready k t HS Hd).
  - intros s sem u Hs Hu. destruct (H4 s sem u Hs Hu) as (?&x&Ex&Hx). split; [done|]. exists x. split; [|done].
    rewrite lookup_delete_ne; [done|]. intros <-. rewrite Et in Ex. injection Ex as <-.
    rewrite decide_False in Hx by done. by destruct Hx as (?&_&?).
  - intros u x Hu Hor. apply lookup_delete_Some in Hu as [Hne' Hu].
    destruct (H5 u x Hu Hor) as [?|?]; [congruence|by right].
Qed.

(** ** Changes that locks and conditions do not see *)

Definition eqv st st' : Prop :=
  (∀ l, taking l st ↔ taking l st') ∧ (∀ w, waiting w st ↔ waiting w st') ∧ (∀ w, deleting w st ↔ deleting w st').

(** Stacks without a part in locks and conditions. *)
Definition inert st : Prop := (∀ l, ¬ taking l st) ∧ (∀ w, ¬ waiting w st) ∧ (∀ w, ¬ deleting w st).

Lemma eqv_refl st : eqv st st.
Proof. by split_and!. Qed.

(** The semaphores are the same, values of clients' semaphores apart. *)
Definition sems_same k k' : Prop :=
  ∀ s, match sems k !! s, sems k' !! s with
       | None, None => True
       | Some sem, Some sem' => match s with SClient _ => True | _ => value sem' = value sem end
       | _, _ => False
       end.

Lemma sems_same_refl k : sems_same k k.
Proof. intros s. destruct (sems k !! s); [|done]. by destruct s. Qed.

Lemma sems_same_dom k k' s : sems_same k k' → is_Some (sems k !! s) ↔ is_Some (sems k' !! s).
Proof. intros H. specialize (H s). destruct (sems k !! s), (sems k' !! s); try done. Qed.

Lemma sems_same_lock k k' l sem :
  sems_same k k' → sems k !! SLock l = Some sem → ∃ sem', sems k' !! SLock l = Some sem' ∧ value sem' = value sem.
Proof. intros H E. specialize (H (SLock l)). rewrite E in H. destruct (sems k' !! SLock l); [by eexists|done]. Qed.

Lemma sems_same_waiter k k' w sem :
  sems_same k k' → sems k !! SWaiter w = Some sem → ∃ sem', sems k' !! SWaiter w = Some sem' ∧ value sem' = value sem.
Proof. intros H E. specialize (H (SWaiter w)). rewrite E in H. destruct (sems k' !! SWaiter w); [by eexists|done]. Qed.

Lemma instr_ok_same k k' i :
  sems_same k k' → locks k' = locks k → conds k' = conds k → instr_ok k i → instr_ok k' i.
Proof.
  intros Hs El Ec. destruct i; cbn; rewrite ?El, ?Ec; try done; by rewrite (sems_same_dom k k').
Qed.

(** Frames that mention no object. *)
Definition plain (i : instr) : bool :=
  match i with
  | AtClient | AtFinish | AtBegin | AfterSwitch | AtSetLevel _ | AtSleepLoop _ => true
  | _ => false
  end.

Lemma plain_ok k i : plain i = true → instr_ok k i.
Proof. by destruct i. Qed.

Lemma Sync_frame k k' :
  locks k' = locks k → conds k' = conds k → nextWaiter k' = nextWaiter k → sems_same k k' →
  (∀ t st', stk k' !! t = Some st' → Forall (instr_ok k) st'
     ∧ ((∃ st, stk k !! t = Some st ∧ eqv st st') ∨ inert st')) →
  (∀ t st, stk k !! t = Some st → (∃ st', stk k' !! t = Some st' ∧ eqv st st') ∨ inert st) →
  Sync k → Sync k'.
Proof.
  intros El Ec En Hs Hnew Hold [Ho [o Hl] [C1 C2 C3 C4 C5]]. split.
  - intros t st' Est. destruct (Hnew t st' Est) as [HF _]. eapply Forall_impl; [exact HF|]. intros i Hi. cbn.
    by apply (instr_ok_same k).
  - exists o. rewrite El. intros l lk Elk. destruct (Hl l lk Elk) as [L1 (sem&Es&Hv) L3 L4 L5]. split.
    + done.
    + destruct (sems_same_lock k k' l sem Hs Es) as (sem'&Es'&Ev). exists sem'. by rewrite Ev.
    + intros t st' Est Ht. destruct (Hnew t st' Est) as [_ [(st&E&Hq)|Hi]]; [|by destruct (proj1 Hi l)].
      apply (L3 t st E). by apply (proj1 Hq l).
    + done.
    + intros t Et Eh. destruct (L5 t Et Eh) as (st&Est&Ht).
      destruct (Hold t st Est) as [(st'&E&Hq)|Hi]; [|by destruct (proj1 Hi l)]. exists st'. split; [done|]. by apply (proj1 Hq l).
  - split; rewrite ?Ec, ?En.
    + intros w Hw. by apply C1, (sems_same_dom k k').
    + intros c cd s Ecd Hin. destruct (C2 c cd s Ecd Hin) as (w&sem&->&Es&Hv&t&st&Est&Hwt). exists w.
      destruct (sems_same_waiter k k' w sem Hs Es) as (sem'&Es'&Ev).
      exists sem'. split; [done|]. split; [done|]. split; [congruence|].
      destruct (Hold t st Est) as [(st'&E&Hq)|Hi]; [|by destruct (proj1 (proj2 Hi) w)].
      exists t, st'. split; [done|]. by apply (proj1 (proj2 Hq) w).
    + done.
    + done.
    + assert (Hd : ∀ t st' w, stk k' !! t = Some st' → deleting w st' → ∃ st, stk k !! t = Some st ∧ deleting w st).
      { intros t st' w Est Hw. destruct (Hnew t st' Est) as [_ [(st&E&Hq)|Hi]]; [|by destruct (proj2 (proj2 Hi) w)].
        exists st. split; [done|]. by apply (proj2 (proj2 Hq) w). }
      intros t t' st st' w E1 E2 D1 D2. destruct (Hd t st w E1 D1) as (x&?&?), (Hd t' st' w E2 D2) as (y&?&?).
      by eapply C5.
Qed.

(** The same, when only the stack of the current thread changes. *)
Lemma Sync_cur k k' st st' :
  locks k' = locks k → conds k' = conds k → nextWaiter k' = nextWaiter k → sems_same k k' →
  stk k !! currentThread k = Some st → stk k' = <[currentThread k := st']> (stk k) →
  Forall (instr_ok k) st' → eqv st st' → Sync k → Sync k'.
Proof.
  intros El Ec En Hs Est Estk HF Hq HS. eapply (Sync_frame k k'); try done.
  - intros t x. rewrite Estk. intros [[<- <-]|[Hne Hx]]%lookup_insert_Some.
    + split; [done|]. left. by exists st.
    + split; [by apply (sy_objs _ HS t)|]. left. exists x. by split; [|apply eqv_refl].
  - intros t x Hx. left. rewrite Estk. destruct (decide (t = currentThread k)) as [->|Hne].
    + exists st'. rewrite lookup_insert_eq. split; [done|]. congruence.
    + exists x. rewrite lookup_insert_ne by done. by split; [|apply eqv_refl].
Qed.

Lemma eqv_trans st1 st2 st3 : eqv st1 st2 → eqv st2 st3 → eqv st1 st3.
Proof. intros (A1&A2&A3) (B1&B2&B3). split_and!; intros x; [rewrite A1|rewrite A2|rewrite A3]; auto. Qed.

Lemma eqv_sym st1 st2 : eqv st1 st2 → eqv st2 st1.
Proof. intros (A1&A2&A3). by split_and!. Qed.

Lemma eqv_plain i st : plain i = true → eqv st (i :: st).
Proof.
  intros Hi. unfold eqv, taking, waiting, deleting.
  split_and!; intros x; rewrite !elem_of_cons; destruct i; try done; split; intros; intuition congruence.
Qed.

Lemma stk_put_insert st st' k : stk k !! currentThread k = Some st → stk (put st' k) = <[currentThread k := st']> (stk k).
Proof.
  intros H. apply map_eq. intros t. rewrite stk_put. case_decide as E.
  - subst. by rewrite lookup_insert_eq, H.
  - by rewrite lookup_insert_ne.
Qed.

Lemma put_put st st' k : put st (put st' k) = put st k.
Proof.
  unfold put, set_threads. cbn. f_equal. apply map_eq. intros t.
  destruct (decide (t = currentThread k)) as [->|Hne]; [|by rewrite !lookup_alter_ne].
  rewrite !lookup_alter_eq. by destruct (threads k !! currentThread k).
Qed.

Lemma put_id st k : stk k !! currentThread k = Some st → put st k = k.
Proof.
  intros H. unfold put. destruct k as [c ths]; cbn in *. unfold stk in H. cbn in H. rewrite lookup_fmap in H.
  unfold set_threads; cbn. f_equal. apply map_eq. intros t.
  destruct (decide (t = c)) as [->|Hne]; [|by rewrite lookup_alter_ne].
  rewrite lookup_alter_eq. destruct (ths !! c) as [[x y]|]; [|done]. cbn in *. by simplify_eq.
Qed.

Lemma step_eq ch k i rest : stk k !! currentThread k = Some (i :: rest) → step ch k = exec i ch (put rest k).
Proof.
  intros H. unfold step. assert (Hs : is_Some (stk k !! currentThread k)) by done.
  unfold stk in H. rewrite lookup_fmap in H. destruct (threads k !! currentThread k) as [th|] eqn:E; [|done].
  cbn in H. cbn [deref mbind res_bind]. injection H as H. rewrite H.
  rewrite upd_thread_ok by done. done.
Qed.

(** Replacing the stack of the running thread. *)
Lemma Sched_put k st st' :
  Sched k → stk k !! currentThread k = Some st → ¬ sleeping st → ¬ sleeping st' → Sched (put st' k).
Proof.
  intros HS Est H1 H2. eapply (Sched_frame k (put st' k)); try done.
  - intros t Hne. by rewrite stk_put, decide_False.
  - right. split; [naive_solver|]. intros x Hx. rewrite (stk_put_cur st st' k Est) in Hx. naive_solver.
  - intros s sem' Hs. split; [by apply (sc_qnodup _ HS s)|]. right. by exists sem'.
  - intros s sem Hs _. by exists sem.
Qed.

Lemma Sched_level x k : Sched k → Sched (set_level x k).
Proof. by intros [H1 H2 H3 H4 H5 H6]. Qed.

Lemma Sync_level x k : Sync k → Sync (set_level x k).
Proof. by intros [H1 [o H2] [H3 H4 H5 H6 H7]]; split; [|exists o; intros l lk Hl; destruct (H2 l lk Hl)|]. Qed.

Lemma handlers_ok sigs k :
  Sched k → klevel k = IntOff → Forall (λ n, is_Some (sems k !! SClient n)) sigs →
  ∃ k' added, run_handlers sigs k = Ok k' ∧ Sched k' ∧ same k k' ∧ sems_same k k' ∧ readyList k' = readyList k ++ added.
Proof.
  unfold run_handlers. revert k. induction sigs as [|n sigs IH]; intros k HS Hl HF; cbn [foldM].
  - exists k, []. rewrite app_nil_r. split; [done|]. split; [done|]. split; [by split|]. split; [apply sems_same_refl|done].
  - apply Forall_cons in HF as [[sem Es] HF].
    destruct (V_body_ok k (SClient n) sem HS Hl Es) as (k1&->&HS1&Hsm1&Esem&Er). cbn [mbind res_bind].
    assert (Hs1 : sems_same k k1).
    { intros s. rewrite Esem. destruct (decide (s = SClient n)) as [->|Hne].
      - by rewrite lookup_insert_eq, Es.
      - rewrite lookup_insert_ne by done. destruct (sems k !! s); [by destruct s|done]. }
    destruct (IH k1) as (k2&added&->&HS2&Hsm2&Hs2&Er2); [done|by rewrite (sm_level _ _ Hsm1)| |].
    { eapply Forall_impl; [exact HF|]. cbn. intros m Hm. by apply (sems_same_dom k k1). }
    exists k2. eexists. split; [done|]. split; [done|]. split; [|split].
    + destruct Hsm1, Hsm2. split; congruence.
    + intros s. specialize (Hs1 s). specialize (Hs2 s).
      destruct (sems k !! s), (sems k1 !! s), (sems k2 !! s); try done. destruct s; congruence.
    + by rewrite Er2, Er, <- app_assoc.
Qed.

Lemma Sync_same k k' : same k k' → sems_same k k' → Sync k → Sync k'.
Proof.
  intros [E1 E2 E3 E4 E5 E6 E7 _] Hs HS. eapply (Sync_frame k k'); try done; rewrite E2.
  - intros t st Est. split; [by apply (sy_objs _ HS t)|]. left. exists st. by split; [|apply eqv_refl].
  - intros t st Est. left. exists st. by split; [|apply eqv_refl].
Qed.

(** ** Context switches *)

Lemma ReadyToRun_ok t k :
  klevel k = IntOff → is_Some (stk k !! t) → t ∉ readyList k →
  ∃ ths, ReadyToRun t k = Ok (set_ready (readyList k ++ [t]) (set_threads ths k)) ∧ stack <$> ths = stk k.
Proof.
  intros Hl Ht Hn. unfold ReadyToRun, off. rewrite Hl, bool_decide_true by done. cbn [ASSERT mbind res_bind].
  destruct (setStatus_ok t READY k Ht) as (ths&->&E). cbn [mbind res_bind readyList set_threads].
  rewrite bool_decide_true by done. cbn [ASSERT mbind res_bind]. by exists ths.
Qed.

(** The current thread has written over the end of its stack. *)
Definition overflowed k : Prop := fence k !! currentThread k = Some false.

#[export] Instance overflowed_dec k : Decision (overflowed k).
Proof. unfold overflowed. apply _. Defined.

Lemma CheckOverflow_fence_ok k : ¬ overflowed k → CheckOverflow (currentThread k) k = Ok tt.
Proof. unfold overflowed, CheckOverflow. intros H. by destruct (fence k !! currentThread k) as [[|]|]. Qed.

Lemma Run_overflowed n (finishing : bool) k : overflowed k → Run n finishing k = Err AssertFailed.
Proof.
  unfold overflowed, Run, CheckOverflow. intros H. destruct (off k); [|done]. cbn [ASSERT mbind res_bind].
  destruct finishing; [destruct (bool_decide _); [|done]|]; cbn [ASSERT mbind res_bind currentThread fence set_destroyed]; by rewrite H.
Qed.

(** A step of [k] that keeps the invariant, or in which CheckOverflow aborts. *)
Definition runs k (o : res Kernel) : Prop :=
  (∃ k', o = Ok k' ∧ Inv k') ∨ (overflowed k ∧ o = Err AssertFailed).

Lemma runs_ok k o : (∃ k', o = Ok k' ∧ Inv k') → runs k o.
Proof. by left. Qed.

Lemma runs_same k k1 o : fence k1 = fence k → currentThread k1 = currentThread k → runs k1 o → runs k o.
Proof. intros E1 E2 [H|[H ->]]; [by left|]. right. split; [|done]. unfold overflowed in *. congruence. Qed.

Lemma Run_ok n (finishing : bool) k st :
  ¬ overflowed k → klevel k = IntOff → stk k !! currentThread k = Some st → is_Some (stk k !! n) →
  (finishing = true → toBeDestroyed k = None) →
  ∃ ths, Run n finishing k = Ok (set_threads ths (set_current n
      (if finishing then set_destroyed (Some (currentThread k)) k else k)))
    ∧ stack <$> ths = <[currentThread k := AfterSwitch :: st]> (stk k).
Proof.
  intros Hov Hl Est Hn Hf. unfold Run, off. rewrite (bool_decide_true (klevel k = IntOff)) by done. cbn [ASSERT mbind res_bind].
  assert (E : (if finishing then
         ASSERT (bool_decide (toBeDestroyed k = None)) ;; Ok (set_destroyed (Some (currentThread k)) k)
       else Ok k) = Ok (if finishing then set_destroyed (Some (currentThread k)) k else k)).
  { destruct finishing; [|done]. by rewrite Hf, bool_decide_true. }
  rewrite E. cbn [mbind res_bind].
  set (k1 := if finishing then set_destroyed (Some (currentThread k)) k else k).
  assert (E1 : stk k1 = stk k ∧ currentThread k1 = currentThread k ∧ threads k1 = threads k ∧ fence k1 = fence k)
    by (unfold k1; by destruct finishing).
  destruct E1 as (Es1&Ec1&Et1&Ef1). rewrite CheckOverflow_fence_ok by (unfold overflowed; by rewrite Ef1, Ec1). cbn [mbind res_bind]. rewrite (push_ok _ st) by (by rewrite Es1, Ec1). cbn [app mbind res_bind].
  pose proof (stk_put_insert st (AfterSwitch :: st) k1) as Ep. rewrite Ec1, Es1 in Ep. specialize (Ep Est).
  destruct (setStatus_ok n RUNNING (set_current n (put (AfterSwitch :: st) k1))) as (ths&->&E2).
  { change (stk (set_current n (put (AfterSwitch :: st) k1))) with (stk (put (AfterSwitch :: st) k1)).
    rewrite Ep. destruct (decide (n = currentThread k)) as [->|Hne]; [by rewrite lookup_insert_eq|].
    by rewrite lookup_insert_ne. }
  exists ths. split; [|by rewrite E2, <- Ep]. done.
Qed.

Lemma Sync_switch k k' st st' :
  locks k' = locks k → conds k' = conds k → nextWaiter k' = nextWaiter k → sems k' = sems k →
  stk k !! currentThread k = Some st → stk k' = <[currentThread k := st']> (stk k) →
  eqv st st' → (∀ i, i ∈ st' → i ∈ st ∨ plain i = true) → Sync k → Sync k'.
Proof.
  intros El Ec En Es Est Estk Hq Hp HS. eapply (Sync_cur k k' st st'); try done.
  - intros s. rewrite Es. apply sems_same_refl.
  - apply Forall_forall. intros i Hi. destruct (Hp i Hi) as [Hin|Hpl]; [|by apply plain_ok].
    exact (proj1 (Forall_forall _ _) (sy_objs _ HS _ _ Est) i Hin).
Qed.

(** [Running k st]: the current thread runs client or kernel code with
    interrupts on and goes on with [st]. *)
Record Running k st : Prop := {
  rn_level : klevel k = IntOn;
  rn_cur : stk k !! currentThread k = Some st;
  rn_frames : on_frames st;
  rn_dead : toBeDestroyed k = None;
  rn_sched : Sched k;
  rn_sync : Sync k
}.

Lemma Inv_intro k st b :
  stk k !! currentThread k = Some st → cur_shape (klevel k) b st → toBeDestroyed k = None ∨ b = true →
  Sched k → Sync k → Inv k.
Proof. intros H1 H2 H3 H4 H5. split; [by exists st, b|done..]. Qed.

Lemma Running_Inv k st : Running k st → Inv k.
Proof. intros [H1 H2 H3 H4 H5 H6]. eapply (Inv_intro k st false); try done; [rewrite H1; by constructor|by left]. Qed.

Lemma Yield_ok k st : Running k st → runs k (Yield k).
Proof.
  intros [Hl Est Hon Hd HS HY]. pose proof (on_not_sleeping _ Hon) as Hns. unfold Yield. rewrite Hl.
  unfold FindNextToRun, off. cbn [klevel set_level]. rewrite bool_decide_true by done. cbn [ASSERT mbind res_bind].
  change (readyList (set_level IntOff k)) with (readyList k). destruct (readyList k) as [|n rdy] eqn:Er.
  - apply runs_ok. cbn [mbind res_bind]. rewrite (push_ok _ st) by done. cbn [app]. eexists. split; [done|].
    eapply (Inv_intro _ (AtSetLevel IntOn :: st) false).
    + exact (stk_put_cur st _ (set_level IntOff k) Est).
    + apply cs_off. by constructor.
    + by left.
    + eapply Sched_put; [by apply Sched_level|done|done|]. by apply cons_not_sleeping.
    + eapply (Sync_switch (set_level IntOff k)); [done..|by apply (stk_put_insert st)|by apply eqv_plain| |by apply Sync_level].
      intros i [->|Hi]%elem_of_cons; [by right|by left].
  - cbn [mbind res_bind]. pose proof (cur_not_ready k st HS Est Hns) as Hcr. rewrite Er in Hcr.
    destruct (sc_ready _ HS n) as (stn&En&_); [rewrite Er; by constructor|].
    destruct (ReadyToRun_ok (currentThread k) (set_ready rdy (set_level IntOff k))) as (ths&ER&Eths); [done|done|set_solver|].
    cbn [currentThread set_ready set_level] in ER |- *. rewrite ER. cbn [mbind res_bind].
    set (k1 := set_ready _ (set_threads ths _)).
    assert (E1 : stk k1 = stk k) by exact Eths. rewrite (push_ok _ st) by (by rewrite E1). cbn [app mbind res_bind].
    pose proof (stk_put_insert st (AtSetLevel IntOn :: st) k1 ltac:(by rewrite E1)) as Ep. rewrite E1 in Ep.
    destruct (decide (overflowed k)) as [Hov|Hov]; [right; split; [done|]; by apply Run_overflowed|apply runs_ok].
    destruct (Run_ok n false (put (AtSetLevel IntOn :: st) k1) (AtSetLevel IntOn :: st)) as (ths2&->&E2);
      [done|done|apply (stk_put_cur st _ k1); by rewrite E1| |done|].
    { rewrite Ep. apply lookup_insert_is_Some. destruct (decide (currentThread k1 = n)); [by left|by right; rewrite En]. }
    rewrite Ep, insert_insert_eq in E2. eexists. split; [done|].
    set (k' := set_threads ths2 _). assert (Ek' : stk k' = <[currentThread k := AfterSwitch :: AtSetLevel IntOn :: st]> (stk k)) by exact E2.
    assert (Hpk : parked (AfterSwitch :: AtSetLevel IntOn :: st)) by (by constructor; constructor).
    assert (HS' : Sched k').
    { eapply (Sched_switch k k' st); try done. right; left. split; [done|]. by split. }
    eapply (Inv_intro k' (default [] (stk k' !! n)) true); [| |by right|done|].
    + change (currentThread k') with n. rewrite Ek'. destruct (decide (n = currentThread k)) as [->|Hne];
        [by rewrite lookup_insert_eq|by rewrite lookup_insert_ne, En].
    + apply cs_parked. rewrite Ek'. assert (n ≠ currentThread k) by set_solver.
      rewrite lookup_insert_ne by done. rewrite En. cbn.
      destruct (sc_ready _ HS n) as (x&Ex&Hx); [rewrite Er; by constructor|]. rewrite decide_False in Hx by done. congruence.
    + eapply (Sync_switch k k' st); try done.
      * eapply eqv_trans; [by apply (eqv_plain (AtSetLevel IntOn))|by apply eqv_plain].
      * intros i Hi. rewrite !elem_of_cons in Hi. destruct Hi as [->|[->|Hi]]; [by right|by right|by left].
Qed.

(** A tick of the clock with interrupts on: due handlers, then perhaps a
    context switch. *)
Lemma tick_ok k st sigs (yield : bool) :
  Running k st → Forall (λ n, is_Some (sems k !! SClient n)) sigs →
  runs k (OneTick sigs yield k).
Proof.
  intros [Hl Est Hon Hd HS HY] HF. unfold OneTick.
  destruct (handlers_ok sigs (set_level IntOff k)) as (k1&added&->&HS1&Hsm&Hss&_); [by apply Sched_level|done|done|].
  cbn [mbind res_bind]. pose proof (Sync_same _ _ Hsm Hss (Sync_level IntOff k HY)) as HY1.
  destruct Hsm as [E1 E2 E3 E4 E5 E6 E7 E8]. cbn in E1, E3, E8.
  assert (HR : Running (set_level IntOn k1) st).
  { split; [done| |done| |by apply Sched_level|by apply Sync_level]; [|by cbn; rewrite E3].
    change (stk (set_level IntOn k1)) with (stk k1). cbn [currentThread set_level]. rewrite E2, E1. exact Est. }
  destruct yield; [by apply (runs_same k (set_level IntOn k1)), (Yield_ok _ st)|]. apply runs_ok. eexists. split; [done|]. by eapply Running_Inv.
Qed.
End SynchInv.
