(* ===== verification/Synch.v ===== *)
(** Every step of the kernel of Threads.v preserves the invariant of
    SynchInv.v, and what follows from it: mutual exclusion, no lost wakeups,
    first-in first-out scheduling. *)

From S2P Require Import Prelude Interrupt Threads SynchInv.

Module SynchStep.
Import Threads SynchInv.
Implicit Types (k : Kernel) (t : nat) (s : sid) (st r : list instr).

Lemma is_Some_insert {K A} `{Countable K} (m : gmap K A) (i j : K) (x : A) :
  is_Some (m !! i) → is_Some (<[j := x]> m !! i).
Proof. intros Hi. apply lookup_insert_is_Some. destruct (decide (j = i)); auto. Qed.

(** Objects that existed still exist after an insertion. *)
Ltac solve_objs := intros i; destruct i; cbn; try done; intuition auto using is_Some_insert.

(** [solve_eqv] compares two stacks frame by frame. *)
Ltac solve_eqv :=
  unfold eqv, taking, waiting, deleting, base;
  split_and!; intros ?; rewrite ?elem_of_cons, ?elem_of_nil; intuition congruence.

(** ** Locks and conditions under a change of the running thread's stack *)

Section CUR.
Context (k k' : Kernel) (st st' : list instr).
Context (Est : stk k !! currentThread k = Some st) (Estk : stk k' = <[currentThread k := st']> (stk k)).

Lemma stk_new t x : stk k' !! t = Some x → (t = currentThread k ∧ x = st') ∨ (t ≠ currentThread k ∧ stk k !! t = Some x).
Proof. rewrite Estk. intros [[<- <-]|[Hne Hx]]%lookup_insert_Some; [by left|by right]. Qed.

Lemma stk_old t x : stk k !! t = Some x →
  stk k' !! t = Some (if decide (t = currentThread k) then st' else x).
Proof.
  intros Hx. rewrite Estk. case_decide as E; [subst; by rewrite lookup_insert_eq|by rewrite lookup_insert_ne].
Qed.

Lemma LockOk_cur l lk o :
  (taking l st ↔ taking l st') →
  (∀ sem, sems k !! SLock l = Some sem → ∃ sem', sems k' !! SLock l = Some sem' ∧ value sem' = value sem) →
  LockOk k l lk o → LockOk k' l lk o.
Proof.
  intros Ht Hs [L1 (sem&Es&Hv) L3 L4 L5]. split; [done| | |done|].
  - destruct (Hs sem Es) as (sem'&Es'&Ev). exists sem'. by rewrite Ev.
  - intros t x Hx Htk. destruct (stk_new t x Hx) as [[-> ->]|[_ Hx']]; [|by apply (L3 t x)].
    apply (L3 _ st Est). by apply Ht.
  - intros t Eo Eh. destruct (L5 t Eo Eh) as (x&Hx&Htk). eexists. split; [by apply stk_old|].
    case_decide as E; [subst|done]. rewrite Est in Hx. injection Hx as <-. by apply Ht.
Qed.

Lemma CondOk_cur :
  conds k' = conds k → nextWaiter k' = nextWaiter k → (∀ w, sems k' !! SWaiter w = sems k !! SWaiter w) →
  (∀ w, waiting w st ↔ waiting w st') → (∀ w, deleting w st' → deleting w st) → CondOk k → CondOk k'.
Proof.
  intros Ec En Es Hw Hd [C1 C2 C3 C4 C5]. split; rewrite ?Ec, ?En; [|clear C3 C4 C5|done|done|].
  - intros w. rewrite Es. apply C1.
  - intros c cd s Hc Hin. destruct (C2 c cd s Hc Hin) as (w&sem&->&Hs&Hv&t&x&Hx&Hwx). exists w, sem.
    rewrite Es. do 3 (split; [done|]). exists t. eexists. split; [by apply stk_old|].
    case_decide as E; [subst|done]. rewrite Est in Hx. injection Hx as <-. by apply Hw.
  - assert (H : ∀ t x w, stk k' !! t = Some x → deleting w x → ∃ y, stk k !! t = Some y ∧ deleting w y).
    { intros t x w Hx Hdx. destruct (stk_new t x Hx) as [[-> ->]|[_ Hx']]; [|by exists x]. exists st. auto. }
    intros t t' x x' w H1 H2 D1 D2. destruct (H t x w H1 D1) as (?&?&?), (H t' x' w H2 D2) as (?&?&?). by eapply C5.
Qed.

Lemma objs_cur :
  (∀ i, instr_ok k i → instr_ok k' i) → Forall (instr_ok k') st' →
  (∀ t x, stk k !! t = Some x → Forall (instr_ok k) x) → ∀ t x, stk k' !! t = Some x → Forall (instr_ok k') x.
Proof.
  intros Hm Hst' Ho t x Hx. destruct (stk_new t x Hx) as [[-> ->]|[_ Hx']]; [done|].
  eapply Forall_impl; [exact (Ho t x Hx')|]. exact Hm.
Qed.

(** P on the semaphore of a free lock: the current thread takes it. *)
Lemma Sync_take l lk sem :
  Sync k → locks k !! l = Some lk → locks k' = locks k → conds k' = conds k → nextWaiter k' = nextWaiter k →
  sems k !! SLock l = Some sem → value sem ≠ 0 →
  sems k' = <[SLock l := mkSemaphore (value sem - 1) (queue sem)]> (sems k) →
  Forall (instr_ok k) st' → taking l st' → (∀ l', l' ≠ l → taking l' st ↔ taking l' st') →
  (∀ w, waiting w st ↔ waiting w st') → (∀ w, deleting w st' → deleting w st) → Sync k'.
Proof.
  intros [Ho [o Hl] HC] Elk El Ec En Es Hv Esem HF Htk Htk' Hw Hd.
  assert (Hdom : ∀ i, instr_ok k i → instr_ok k' i).
  { unfold instr_ok. rewrite El, Ec, Esem. solve_objs. }
  split.
  - apply objs_cur; [done| |done]. eapply Forall_impl; [exact HF|done].
  - destruct (Hl l lk Elk) as [L1 (sem0&Es0&Hv0) L3 L4 L5]. simplify_eq.
    destruct (o !! l) as [t0|] eqn:Eo; [done|].
    assert (Hh : lockHolder lk = None) by (destruct (lockHolder lk) as [t|]; [by specialize (L4 t eq_refl)|done]).
    exists (<[l := currentThread k]> o). rewrite El. intros l' lk' Elk'. destruct (decide (l' = l)) as [->|Hne].
    + simplify_eq. rewrite lookup_insert_eq. split; [done| | | |].
      * eexists. rewrite Esem, lookup_insert_eq. split; [done|]. cbn. lia.
      * intros t x Hx Hxt. destruct (stk_new t x Hx) as [[-> ->]|[_ Hx']]; [done|]. by destruct (L3 t x Hx' Hxt).
      * congruence.
      * intros t [= <-] _. exists st'. split; [|done]. rewrite Estk. apply lookup_insert_eq.
    + rewrite lookup_insert_ne by done. apply LockOk_cur; [auto| |by apply Hl].
      intros sem' E. exists sem'. rewrite Esem, lookup_insert_ne by congruence. done.
  - apply CondOk_cur; try done. intros w. by rewrite Esem, lookup_insert_ne.
Qed.

(** The new holder of a lock. *)
Lemma Sync_holder l lk :
  Sync k → locks k !! l = Some lk → sems k' = sems k → conds k' = conds k → nextWaiter k' = nextWaiter k →
  locks k' = <[l := mkLock (Some (currentThread k)) (semaphore lk)]> (locks k) →
  Forall (instr_ok k) st' → taking l st → ¬ taking l st' → (∀ l', l' ≠ l → taking l' st ↔ taking l' st') →
  (∀ w, waiting w st ↔ waiting w st') → (∀ w, deleting w st' → deleting w st) → Sync k'.
Proof.
  intros [Ho [o Hl] HC] Elk Es Ec En El HF Htk Hnt Htk' Hw Hd.
  assert (Hdom : ∀ i, instr_ok k i → instr_ok k' i).
  { unfold instr_ok. rewrite El, Ec, Es. solve_objs. }
  split.
  - apply objs_cur; [done| |done]. eapply Forall_impl; [exact HF|done].
  - exists o. rewrite El. intros l' lk' Elk'. apply lookup_insert_Some in Elk' as [[<- <-]|[Hne Elk']].
    + destruct (Hl l lk Elk) as [L1 L2 L3 L4 L5]. destruct (L3 _ st Est Htk) as [Eo _].
      split; [done|by rewrite Es| | |done].
      * intros t x Hx Hxt. destruct (stk_new t x Hx) as [[-> ->]|[Hnt' Hx']]; [done|].
        destruct (L3 t x Hx' Hxt) as [Eo' _]. congruence.
      * cbn. intros t [= <-]. done.
    + apply LockOk_cur; [auto| |by apply Hl]. intros sem E. exists sem. by rewrite Es.
  - apply CondOk_cur; try done. intros w. by rewrite Es.
Qed.

(** The end of Wait: the waiter's semaphore is deleted. *)
Lemma Sync_delete w :
  Sync k → locks k' = locks k → conds k' = conds k → nextWaiter k' = nextWaiter k →
  sems k' = delete (SWaiter w) (sems k) → deleting w st → st' = base →
  (∀ t x, t ≠ currentThread k → stk k !! t = Some x → ∀ i, i ∈ x → instr_ok k i → instr_ok k' i) →
  (∀ c cd, conds k !! c = Some cd → SWaiter w ∉ waitQueue cd) →
  (∀ l, ¬ taking l st) → (∀ w', ¬ waiting w' st) → Sync k'.
Proof.
  intros [Ho [o Hl] [C1 C2 C3 C4 C5]] El Ec En Esem Hdel Hb Hoth Hq Htk Hw. split.
  - intros t x Hx. destruct (stk_new t x Hx) as [[-> ->]|[Hne Hx']]; [rewrite Hb; repeat constructor|].
    apply Forall_forall. intros i Hi. apply (Hoth t x Hne Hx' i Hi). exact (proj1 (Forall_forall _ _) (Ho t x Hx') i Hi).
  - exists o. rewrite El. intros l lk Elk. apply LockOk_cur; [|intros sem E; exists sem; by rewrite Esem, lookup_delete_ne|by apply Hl].
    split; [intros H; by destruct (Htk l)|]. rewrite Hb. unfold taking, base. set_solver.
  - split; rewrite ?Ec, ?En; [| |done|done|].
    + intros w' Hw'. rewrite Esem in Hw'. destruct (decide (w' = w)) as [->|Hne]; [rewrite lookup_delete_eq in Hw'; by destruct Hw'|].
      rewrite lookup_delete_ne in Hw' by congruence. by apply C1.
    + intros c cd s Hc Hin. destruct (C2 c cd s Hc Hin) as (w'&sem&->&Hs&Hv&t&x&Hx&Hwx). exists w', sem.
      assert (w' ≠ w) by (intros ->; by apply (Hq c cd)). rewrite Esem, lookup_delete_ne by congruence.
      do 3 (split; [done|]). exists t. eexists. split; [by apply stk_old|].
      case_decide as E; [subst|done]. rewrite Est in Hx. injection Hx as <-. by destruct (Hw w').
    + intros t t' x x' w' H1 H2 D1 D2.
      destruct (stk_new t x H1) as [[-> ->]|[_ H1']]; [rewrite Hb in D1; unfold deleting, base in D1; set_solver|].
      destruct (stk_new t' x' H2) as [[-> ->]|[_ H2']]; [rewrite Hb in D2; unfold deleting, base in D2; set_solver|]. by eapply C5.
Qed.

(** P on the semaphore of a waiter that has been signalled. *)
Lemma Sync_waited w sem :
  Sync k → locks k' = locks k → conds k' = conds k → nextWaiter k' = nextWaiter k →
  sems k !! SWaiter w = Some sem → value sem ≠ 0 →
  sems k' = <[SWaiter w := mkSemaphore (value sem - 1) (queue sem)]> (sems k) →
  Forall (instr_ok k) st' → (∀ l, taking l st ↔ taking l st') →
  (∀ w', w' ≠ w → waiting w' st → waiting w' st') → (∀ w', deleting w' st' → deleting w' st) → Sync k'.
Proof.
  intros [Ho [o Hl] [C1 C2 C3 C4 C5]] El Ec En Es Hv Esem HF Htk Hw Hd.
  assert (Hdom : ∀ s, is_Some (sems k !! s) ↔ is_Some (sems k' !! s)).
  { intros s. rewrite Esem. split; [apply is_Some_insert|]. intros [<-|[_ ?]]%lookup_insert_is_Some; [by rewrite Es|done]. }
  assert (Hok : ∀ i, instr_ok k i → instr_ok k' i).
  { unfold instr_ok. rewrite El, Ec, Esem. solve_objs. }
  split.
  - apply objs_cur; [done| |done]. eapply Forall_impl; [exact HF|done].
  - exists o. rewrite El. intros l lk Elk. apply LockOk_cur; [auto| |by apply Hl].
    intros sem' E. exists sem'. by rewrite Esem, lookup_insert_ne.
  - split; rewrite ?Ec, ?En; [| |done|done|].
    + intros w' Hw'. by apply C1, Hdom.
    + intros c cd s Hc Hin. destruct (C2 c cd s Hc Hin) as (w'&sem'&->&Hs&Hv'&t&x&Hx&Hwx).
      assert (Hne : w' ≠ w) by (intros ->; congruence). exists w', sem'. rewrite Esem, lookup_insert_ne by congruence.
      do 3 (split; [done|]). exists t. eexists. split; [by apply stk_old|].
      case_decide as E; [subst|done]. rewrite Est in Hx. injection Hx as <-. by apply Hw.
    + assert (H : ∀ t x w', stk k' !! t = Some x → deleting w' x → ∃ y, stk k !! t = Some y ∧ deleting w' y).
      { intros t x w' Hx Hdx. destruct (stk_new t x Hx) as [[-> ->]|[_ Hx']]; [|by exists x]. exists st. auto. }
      intros t t' x x' w' H1 H2 D1 D2. destruct (H t x w' H1 D1) as (?&?&?), (H t' x' w' H2 D2) as (?&?&?). by eapply C5.
Qed.

(** Wait allocates a semaphore and queues it. *)
Lemma Sync_wait c cd :
  let n := nextWaiter k in
  Sync k → conds k !! c = Some cd → locks k' = locks k → nextWaiter k' = S n →
  sems k' = <[SWaiter n := mkSemaphore 0 []]> (sems k) →
  conds k' = <[c := mkCondition (waitQueue cd ++ [SWaiter n])]> (conds k) →
  Forall (instr_ok k') st' → (∀ l, taking l st ↔ taking l st') →
  (∀ w, waiting w st → waiting w st') → waiting n st' → (∀ w, deleting w st' → deleting w st ∨ w = n) →
  SWaiter n ∉ waitQueue cd ∧ Sync k'.
Proof.
  intros n [Ho [o Hl] [C1 C2 C3 C4 C5]] Ecd El En Esem Ec HF Htk Hw Hwn Hd.
  assert (Hfresh : sems k !! SWaiter n = None).
  { destruct (sems k !! SWaiter n) as [x|] eqn:E; [|done]. assert (n < n)%nat by (by apply C1). lia. }
  assert (Hnin : ∀ c' cd', conds k !! c' = Some cd' → SWaiter n ∉ waitQueue cd').
  { intros c' cd' E Hin. destruct (C2 c' cd' _ E Hin) as (w&sem&[= <-]&Hs&_). congruence. }
  assert (Hok : ∀ i, instr_ok k i → instr_ok k' i).
  { unfold instr_ok. rewrite El, Ec, Esem. solve_objs. }
  split; [by eapply Hnin|]. split.
  - by apply objs_cur.
  - exists o. rewrite El. intros l lk Elk. apply LockOk_cur; [auto| |by apply Hl].
    intros sem' E. exists sem'. by rewrite Esem, lookup_insert_ne.
  - assert (Hcur : stk k' !! currentThread k = Some st') by (rewrite Estk; apply lookup_insert_eq).
    assert (Hq : ∀ c' cd' s, conds k' !! c' = Some cd' → s ∈ waitQueue cd' →
      (c' = c ∧ s = SWaiter n) ∨ (∃ cd0, conds k !! c' = Some cd0 ∧ s ∈ waitQueue cd0)).
    { intros c' cd' s. rewrite Ec. intros [[<- <-]|[Hne E]]%lookup_insert_Some Hin; [|right; by exists cd'].
      cbn in Hin. apply elem_of_app in Hin as [Hin|Hin%list_elem_of_singleton]; [right; by exists cd|by left]. }
    split; rewrite ?En.
    + intros w Hw'. rewrite Esem in Hw'. apply lookup_insert_is_Some in Hw' as [[= <-]|[_ Hw']]; [lia|]. apply C1 in Hw'. fold n in Hw'. lia.
    + intros c' cd' s E Hin. destruct (Hq c' cd' s E Hin) as [[-> ->]|(cd0&E0&Hin0)].
      * exists n. eexists. rewrite Esem, lookup_insert_eq. do 3 (split; [done|]). by exists (currentThread k), st'.
      * destruct (C2 c' cd0 s E0 Hin0) as (w&sem&->&Hs&Hv&t&x&Hx&Hwx). exists w, sem.
        rewrite Esem, lookup_insert_ne by congruence. do 3 (split; [done|]). exists t. eexists. split; [by apply stk_old|].
        case_decide as E'; [subst|done]. rewrite Est in Hx. injection Hx as <-. by apply Hw.
    + intros c' cd'. rewrite Ec. intros [[<- <-]|[Hne E]]%lookup_insert_Some; [|by eapply C3]. cbn.
      apply NoDup_snoc. split; [by eapply C3|by eapply Hnin].
    + intros c1 c2 cd1 cd2 s E1 E2 I1 I2.
      destruct (Hq c1 cd1 s E1 I1) as [[-> Hs1]|(x1&X1&J1)], (Hq c2 cd2 s E2 I2) as [[-> Hs2]|(x2&X2&J2)]; try done.
      * rewrite Hs1 in J2. by destruct (Hnin c2 x2 X2).
      * rewrite Hs2 in J1. by destruct (Hnin c1 x1 X1).
      * by eapply C4.
    + intros t t' x x' w H1 H2 D1 D2.
      assert (Hdn : ∀ u y, stk k !! u = Some y → ¬ deleting n y).
      { intros u y Hy Hdy. pose proof (proj1 (Forall_forall _ _) (Ho u y Hy) _ Hdy) as Hin. cbn in Hin.
        rewrite Hfresh in Hin. by destruct Hin. }
      destruct (stk_new t x H1) as [[-> ->]|[N1 H1']], (stk_new t' x' H2) as [[-> ->]|[N2 H2']]; [done| | |by eapply C5].
      * destruct (Hd w D1) as [Hd1| ->]; [by eapply C5|by destruct (Hdn t' x')].
      * destruct (Hd w D2) as [Hd1| ->]; [by eapply C5|by destruct (Hdn t x)].
Qed.
End CUR.

(** Release, apart from the stacks. *)
Lemma Sync_release k l lk t sem (q : list nat) :
  Sync k → locks k !! l = Some lk → lockHolder lk = Some t → sems k !! SLock l = Some sem →
  Sync (set_locks (<[l := mkLock None (semaphore lk)]> (locks k))
         (set_sems (<[SLock l := mkSemaphore (value sem + 1) q]> (sems k)) k)).
Proof.
  intros [Ho [o Hl] [C1 C2 C3 C4 C5]] Elk Eh Es.
  destruct (Hl l lk Elk) as [L1 (sem0&Es0&Hv0) L3 L4 L5]. simplify_eq. pose proof (L4 t Eh) as Eo. rewrite Eo in Hv0.
  split.
  - intros u x Hx. eapply Forall_impl; [exact (Ho u x Hx)|]. solve_objs.
  - exists (delete l o). cbn. intros l' lk' Elk'. apply lookup_insert_Some in Elk' as [[<- <-]|[Hne Elk']].
    + rewrite lookup_delete_eq. split; cbn; [done| | |done|done].
      * eexists. rewrite lookup_insert_eq. split; [done|]. cbn. lia.
      * intros u x Hx Ht. destruct (L3 u x Hx Ht). congruence.
    + rewrite lookup_delete_ne by done. destruct (Hl l' lk' Elk') as [M1 (sem1&Es1&Hv1) M3 M4 M5]. split; cbn; try done.
      exists sem1. by rewrite lookup_insert_ne by congruence.
  - split; cbn; try done.
    + intros w Hw. apply lookup_insert_is_Some in Hw as [?|[_ Hw]]; [done|by apply C1].
    + intros c cd s Hc Hin. destruct (C2 c cd s Hc Hin) as (w&semw&->&Hs&H). exists w, semw. by rewrite lookup_insert_ne.
Qed.

(** Signal, apart from the stacks. *)
Lemma Sync_signal k c cd s q sem (q' : list nat) :
  Sync k → conds k !! c = Some cd → waitQueue cd = s :: q → sems k !! s = Some sem →
  Sync (set_conds (<[c := mkCondition q]> (conds k))
         (set_sems (<[s := mkSemaphore (value sem + 1) q']> (sems k)) k)).
Proof.
  intros [Ho [o Hl] [C1 C2 C3 C4 C5]] Ecd Eq Es.
  destruct (C2 c cd s Ecd) as (w&_&->&_); [rewrite Eq; by constructor|].
  pose proof (C3 c cd Ecd) as Hnd. rewrite Eq in Hnd. apply NoDup_cons in Hnd as [Hwq Hnd]. split.
  - intros u x Hx. eapply Forall_impl; [exact (Ho u x Hx)|]. solve_objs.
  - exists o. cbn. intros l lk Elk. destruct (Hl l lk Elk) as [M1 (sem1&Es1&Hv1) M3 M4 M5]. split; cbn; try done.
    exists sem1. by rewrite lookup_insert_ne.
  - assert (Hq : ∀ c' cd' x, <[c := mkCondition q]> (conds k) !! c' = Some cd' → x ∈ waitQueue cd' →
      x ≠ SWaiter w ∧ ∃ cd0, conds k !! c' = Some cd0 ∧ x ∈ waitQueue cd0).
    { intros c' cd' x [[<- <-]|[Hne E]]%lookup_insert_Some Hin; cbn in *.
      - split; [by intros ->|]. exists cd. split; [done|]. rewrite Eq. by constructor.
      - split; [|by exists cd']. intros ->. destruct Hne. apply (C4 c c' cd cd' (SWaiter w)); try done. rewrite Eq. by constructor. }
    split; cbn; try done.
    + intros w' Hw. apply lookup_insert_is_Some in Hw as [[= <-]|[_ Hw]]; [by apply C1; rewrite Es|by apply C1].
    + intros c' cd' x E Hin. destruct (Hq c' cd' x E Hin) as (Hne&cd0&E0&Hin0).
      destruct (C2 c' cd0 x E0 Hin0) as (w'&sem'&->&Hs&H). exists w', sem'. by rewrite lookup_insert_ne by congruence.
    + intros c' cd'. intros [[<- <-]|[Hne E]]%lookup_insert_Some; [done|by eapply C3].
    + intros c1 c2 cd1 cd2 x E1 E2 I1 I2. destruct (Hq c1 cd1 x E1 I1) as (_&x1&X1&J1), (Hq c2 cd2 x E2 I2) as (_&x2&X2&J2).
      by eapply C4.
Qed.

(** ** Steps *)

(** A step that changes only the running thread's own stack and the level. *)
Lemma Inv_local k k' st st' b :
  Sched k → Sync k → stk k !! currentThread k = Some st → ¬ sleeping st → ¬ sleeping st' →
  currentThread k' = currentThread k → readyList k' = readyList k → toBeDestroyed k' = toBeDestroyed k →
  sems k' = sems k → locks k' = locks k → conds k' = conds k → nextWaiter k' = nextWaiter k →
  stk k' = <[currentThread k := st']> (stk k) →
  eqv st st' → Forall (instr_ok k) st' → cur_shape (klevel k') b st' → toBeDestroyed k = None ∨ b = true → Inv k'.
Proof.
  intros HS HY Est N1 N2 Ec Er Ed Es El Eco En Estk Hq HF Hcs Hd.
  assert (Est' : stk k' !! currentThread k = Some st') by (rewrite Estk; apply lookup_insert_eq).
  apply (Inv_intro k' st' b); [by rewrite Ec|done|by rewrite Ed| |].
  - apply (Sched_frame k k'); try done.
    + intros t Hne. rewrite Estk. by apply lookup_insert_ne.
    + right. split; [naive_solver|]. intros x Hx. naive_solver.
    + rewrite Es. intros s sem Hs. split; [by apply (sc_qnodup _ HS s)|]. right. by exists sem.
    + rewrite Es. intros s sem Hs _. by exists sem.
  - apply (Sync_cur k k' st st'); try done. intros s. rewrite Es. apply sems_same_refl.
Qed.

(** P is entered from a running thread. *)
Lemma P_ok k st s r :
  Running k st → ploop s r → eqv st (AtPLoop s IntOn :: r) → Forall (instr_ok k) (AtPLoop s IntOn :: r) →
  ∃ k', P s (put r k) = Ok k' ∧ Inv k'.
Proof.
  intros [Hl Est Hon Hd HS HY] Hp Hq HF. unfold P. cbn [klevel put set_threads]. fold (put r k). rewrite Hl.
  pose proof (stk_put_cur st r k Est) as Er. rewrite (push_ok _ r) by exact Er.
  eexists. split; [done|]. cbn [app].
  apply (Inv_local k _ st (AtPLoop s IntOn :: r) false); try done.
  - by apply on_not_sleeping.
  - by apply cons_not_sleeping.
  - rewrite (stk_put_insert r _ (set_level IntOff (put r k)) Er).
    change (stk (set_level IntOff (put r k))) with (stk (put r k)). rewrite (stk_put_insert st r k Est). apply insert_insert_eq.
  - apply cs_off. by constructor.
  - by left.
Qed.

Lemma Acquire_ok k st l r :
  Running k st → is_Some (locks k !! l) → ploop (SLock l) (AtSetHolder l :: r) →
  eqv st (AtPLoop (SLock l) IntOn :: AtSetHolder l :: r) → Forall (instr_ok k) r →
  ∃ k', Acquire l (put r k) = Ok k' ∧ Inv k'.
Proof.
  intros HR [lk Elk] Hp Hq HF. unfold Acquire. cbn [locks put set_threads]. fold (put r k). rewrite Elk. cbn [deref mbind res_bind].
  rewrite (push_ok _ r) by exact (stk_put_cur st r k (rn_cur _ _ HR)). cbn [app mbind res_bind]. rewrite put_put.
  destruct (sy_locks _ (rn_sync _ _ HR)) as [o Ho]. destruct (Ho l lk Elk) as [-> (sem&Es&_) _ _ _].
  apply (P_ok k st); try done. repeat constructor; cbn; [by rewrite Es|by rewrite Elk|done].
Qed.

(** A running thread, locks and conditions apart. *)
Record Going k st : Prop := {
  go_level : klevel k = IntOn;
  go_cur : stk k !! currentThread k = Some st;
  go_frames : on_frames st;
  go_dead : toBeDestroyed k = None;
  go_sched : Sched k
}.

Lemma Running_Going k st : Running k st → Going k st.
Proof. by intros [H1 H2 H3 H4 H5 _]. Qed.

Lemma Going_Running k st : Going k st → Sync k → Running k st.
Proof. by intros [H1 H2 H3 H4 H5]. Qed.

(** Going is kept when locks, conditions and idle semaphores change. *)
Lemma Going_frame k k' st st' :
  Going k st → on_frames st' → klevel k' = klevel k → currentThread k' = currentThread k → readyList k' = readyList k →
  toBeDestroyed k' = toBeDestroyed k → stk k' = <[currentThread k := st']> (stk k) →
  (∀ s sem', sems k' !! s = Some sem' → 0 ≤ value sem'
     ∧ (queue sem' = [] ∨ ∃ sem, sems k !! s = Some sem ∧ queue sem = queue sem')) →
  (∀ s sem, sems k !! s = Some sem → queue sem ≠ [] → ∃ sem', sems k' !! s = Some sem' ∧ queue sem' = queue sem) →
  Going k' st'.
Proof.
  intros [H1 H2 H3 H4 H5] Hon El Ec Er Ed Estk S1 S2.
  assert (Est' : stk k' !! currentThread k = Some st') by (rewrite Estk; apply lookup_insert_eq).
  split; [congruence|by rewrite Ec|done|congruence|].
  apply (Sched_frame k k'); try done.
  - intros t Hne. rewrite Estk. by apply lookup_insert_ne.
  - right. pose proof (on_not_sleeping _ H3). pose proof (on_not_sleeping _ Hon). split; intros; naive_solver.
Qed.

Lemma sems_keep1 k : Sched k → ∀ s sem', sems k !! s = Some sem' → 0 ≤ value sem'
     ∧ (queue sem' = [] ∨ ∃ sem, sems k !! s = Some sem ∧ queue sem = queue sem').
Proof. intros HS s sem Hs. split; [by apply (sc_qnodup _ HS s)|]. right. by exists sem. Qed.

Lemma sems_keep2 k : ∀ s sem, sems k !! s = Some sem → queue sem ≠ [] →
  ∃ sem', sems k !! s = Some sem' ∧ queue sem' = queue sem.
Proof. intros s sem Hs _. by exists sem. Qed.

(** What V does for a running thread. *)
Lemma V_ok k st s sem :
  Going k st → sems k !! s = Some sem →
  ∃ k', V s k = Ok k'
    ∧ (Sync k' → Inv k')
    ∧ locks k' = locks k ∧ conds k' = conds k ∧ nextWaiter k' = nextWaiter k
    ∧ stk k' = <[currentThread k := AtSetLevel IntOn :: st]> (stk k)
    ∧ sems k' = <[s := mkSemaphore (value sem + 1) (tail (queue sem))]> (sems k).
Proof.
  intros [Hl Est Hon Hd HS] Es. unfold V. rewrite Hl.
  destruct (V_body_ok (set_level IntOff k) s sem) as (k1&->&HS1&[E1 E2 E3 E4 E5 E6 E7]&Esem&_);
    [by apply Sched_level|done|done|]. cbn [mbind res_bind]. cbn in E1, E3, E4.
  assert (Est1 : stk k1 !! currentThread k1 = Some st) by (rewrite E2, E1; exact Est).
  rewrite (push_ok _ st) by done. cbn [app]. eexists. split; [done|]. split.
  - intros HY. apply (Inv_intro _ (AtSetLevel IntOn :: st) false); [| |by left; cbn; rewrite E3| |done].
    + exact (stk_put_cur st _ k1 Est1).
    + cbn [klevel put set_threads]. rewrite E4. apply cs_off. by constructor.
    + eapply Sched_put; [done|done|by apply on_not_sleeping|by apply cons_not_sleeping].
  - rewrite (stk_put_insert st _ k1 Est1), E1, E2. done.
Qed.

(** [k1] is [k] with other locks, conditions and semaphores, [k'] the state
    after V. *)
Lemma Sync_after_V k1 k' st :
  Sync k1 → stk k1 !! currentThread k1 = Some st → locks k' = locks k1 → conds k' = conds k1 →
  nextWaiter k' = nextWaiter k1 → sems_same k1 k' →
  stk k' = <[currentThread k1 := AtSetLevel IntOn :: st]> (stk k1) → Sync k'.
Proof.
  intros HY Est El Ec En Hs Estk. apply (Sync_cur k1 k' st (AtSetLevel IntOn :: st)); try done.
  - constructor; [done|]. by apply (sy_objs _ HY _ _ Est).
  - by apply eqv_plain.
Qed.

Lemma sems_same_eq k k' : sems k' = sems k → sems_same k k'.
Proof. intros E s. rewrite E. apply sems_same_refl. Qed.

Lemma V_client_ok k st n :
  Running k st → is_Some (sems k !! SClient n) → ∃ k', V (SClient n) k = Ok k' ∧ Inv k'.
Proof.
  intros HR [sem Es]. destruct (V_ok k st _ sem (Running_Going _ _ HR) Es) as (k'&->&HI&El&Eco&En&Estk&Esem).
  exists k'. split; [done|]. apply HI.
  apply (Sync_after_V k k' st); try done; [apply HR|apply HR|].
  intros s. rewrite Esem. destruct (decide (s = SClient n)) as [->|Hne]; [by rewrite lookup_insert_eq, Es|].
  rewrite lookup_insert_ne by done. apply sems_same_refl.
Qed.

Lemma holder_sem k l lk :
  Sync k → locks k !! l = Some lk → semaphore lk = SLock l ∧ ∃ sem, sems k !! SLock l = Some sem.
Proof. intros HY E. destruct (sy_locks _ HY) as [o Ho]. destruct (Ho l lk E) as [H1 (sem&H2&_) _ _ _]. split; [done|]. by exists sem. Qed.

Lemma Release_ok k st l lk :
  Running k st → locks k !! l = Some lk → lockHolder lk = Some (currentThread k) →
  ∃ k', Release l k = Ok k' ∧ Inv k'.
Proof.
  intros HR Elk Eh. pose proof (rn_sync _ _ HR) as HY. destruct (holder_sem k l lk HY Elk) as [Esl [sem Es]].
  unfold Release, IsHeldByCurrentThread, set_holder. rewrite Elk. cbn [deref mbind res_bind].
  rewrite bool_decide_true by done. cbn [ASSERT mbind res_bind]. rewrite ?Elk. cbn [deref mbind res_bind].
  pose proof (Sync_release k l lk _ sem (tail (queue sem)) HY Elk Eh Es) as HY1. rewrite Esl in HY1 |- *.
  set (k0 := set_locks (<[l := mkLock None (SLock l)]> (locks k)) k).
  pose proof (Running_Going _ _ HR) as [H1 H2 H3 H4 H5].
  assert (HG : Going k0 st).
  { apply (Going_frame k k0 st st); try done; [|exact (sems_keep1 k H5)|exact (sems_keep2 k)].
    symmetry. by apply insert_id. }
  destruct (V_ok k0 st (SLock l) sem HG Es) as (k'&->&HI&El&Eco&En&Estk&Esem).
  exists k'. split; [done|]. apply HI. eapply Sync_after_V; [exact HY1|done..| |done].
  by apply sems_same_eq.
Qed.

Lemma Running_put k st st' :
  Running k st → on_frames st' → eqv st st' → Forall (instr_ok k) st' → Running (put st' k) st'.
Proof.
  intros HR Hon Hq HF. pose proof HR as [H1 H2 H3 H4 H5 H6]. apply Going_Running.
  - apply (Going_frame k _ st st'); try done; [by apply (stk_put_insert st)|exact (sems_keep1 k H5)|exact (sems_keep2 k)].
  - apply (Sync_cur k _ st st'); try done; [by apply sems_same_eq|by apply (stk_put_insert st)].
Qed.

Lemma fresh_waiter k : Sync k → sems k !! SWaiter (nextWaiter k) = None.
Proof.
  intros HY. destruct (sems k !! SWaiter (nextWaiter k)) as [x|] eqn:E; [|done].
  assert (nextWaiter k < nextWaiter k)%nat by (apply (co_fresh _ (sy_conds _ HY)); by rewrite E). lia.
Qed.

Lemma Wait_ok k c l lk :
  Running k base → locks k !! l = Some lk → lockHolder lk = Some (currentThread k) → is_Some (conds k !! c) →
  ∃ k', Wait c l k = Ok k' ∧ Inv k'.
Proof.
  intros HR Elk Eh [cd Ecd]. pose proof (rn_sync _ _ HR) as HY. pose proof (Running_Going _ _ HR) as HG.
  pose proof HR as [H1 H2 H3 H4 H5 _].
  unfold Wait, IsHeldByCurrentThread. rewrite Elk. cbn [deref mbind res_bind].
  rewrite bool_decide_true by done. cbn [ASSERT mbind res_bind conds set_nextWaiter set_sems]. rewrite Ecd. cbn [deref mbind res_bind].
  set (n := nextWaiter k). set (w := SWaiter n).
  set (k1 := set_conds _ _). set (st' := AtP w :: AtAcquire l :: AtDelete w :: base).
  assert (Estk : stk (put st' k1) = <[currentThread k := st']> (stk k)) by exact (stk_put_insert base st' k1 H2).
  pose proof (fresh_waiter k HY) as Hfr. fold n in Hfr. fold w in Hfr.
  assert (HF : Forall (instr_ok (put st' k1)) st').
  { repeat constructor; cbn; [by rewrite lookup_insert_eq|by rewrite Elk|by rewrite lookup_insert_eq]. }
  destruct (Sync_wait k (put st' k1) base st' H2 Estk c cd) as [Hnin HY']; try done.
  { intros l'. split; unfold taking, st', base; rewrite !elem_of_cons, !elem_of_nil; intuition congruence. }
  { unfold waiting, base. intros w'. rewrite !elem_of_cons, !elem_of_nil. intuition congruence. }
  { left. by constructor. }
  { unfold deleting, st', base, w, n. intros w'. rewrite !elem_of_cons, !elem_of_nil. intuition congruence. }
  rewrite bool_decide_true by done. cbn [ASSERT mbind res_bind].
  rewrite (push_ok _ base) by done. cbn [app mbind res_bind]. fold st'.
  apply (Release_ok _ st' l lk); [|done|done]. apply Going_Running; [|done].
  apply (Going_frame k _ base st'); try done; [constructor| |]; cbn.
  - intros s sem' [[<- <-]|[Hne Hs]]%lookup_insert_Some; [cbn; auto with lia|]. by apply sems_keep1.
  - intros s sem Hs _. exists sem. by rewrite lookup_insert_ne by congruence.
Qed.

Lemma Signal_ok k st c l lk :
  Running k st → locks k !! l = Some lk → lockHolder lk = Some (currentThread k) → is_Some (conds k !! c) →
  ∃ k', Signal c l k = Ok k' ∧ Inv k'.
Proof.
  intros HR Elk Eh [cd Ecd]. pose proof (rn_sync _ _ HR) as HY. pose proof HR as [H1 H2 H3 H4 H5 _].
  unfold Signal, IsHeldByCurrentThread. rewrite Elk. cbn [deref mbind res_bind].
  rewrite bool_decide_true by done. cbn [ASSERT mbind res_bind]. rewrite Ecd. cbn [deref mbind res_bind].
  destruct (waitQueue cd) as [|s q] eqn:Eq; [eexists; split; [done|]; by eapply Running_Inv|].
  destruct (co_queue _ (sy_conds _ HY) c cd s Ecd) as (w&sem&->&Es&_); [rewrite Eq; by constructor|].
  pose proof (Sync_signal k c cd _ q sem (tail (queue sem)) HY Ecd Eq Es) as HY1.
  set (k0 := set_conds (<[c := mkCondition q]> (conds k)) k).
  assert (HG : Going k0 st).
  { apply (Going_frame k k0 st st); try done; [|exact (sems_keep1 k H5)|exact (sems_keep2 k)].
    symmetry. by apply insert_id. }
  destruct (V_ok k0 st (SWaiter w) sem HG Es) as (k'&->&HI&El&Eco&En&Estk&Esem).
  exists k'. split; [done|]. apply HI. eapply Sync_after_V; [exact HY1|done..| |done].
  by apply sems_same_eq.
Qed.

Lemma Fork_ok k t name :
  Running k base → stk k !! t = None → (length name ≤ 31)%nat →
  ∃ k', (k ← new_Thread t name k; Fork t k) = Ok k' ∧ Inv k'.
Proof.
  intros [Hl Est Hon Hd HS HY] Ht Hname. unfold new_Thread. rewrite (proj2 (Z.leb_le _ _)), (proj2 (Z.ltb_lt _ _)) by lia.
  cbn [andb ASSERT mbind res_bind]. unfold Fork. cbn [klevel set_threads set_fence]. rewrite Hl.
  set (k0 := set_level IntOff _).
  assert (Htc : t ≠ currentThread k) by congruence.
  assert (E0 : stk k0 = <[t := AtBegin :: base]> (stk k)) by (unfold k0, stk; cbn; by rewrite fmap_insert).
  assert (Htr : t ∉ readyList k) by (intros Hin; destruct (sc_ready _ HS t Hin) as (?&?&_); congruence).
  destruct (ReadyToRun_ok t k0) as (ths&->&Eths); [done|rewrite E0; by rewrite lookup_insert_eq|done|].
  cbn [mbind res_bind]. rewrite E0 in Eths. set (k1 := set_ready _ _).
  assert (E1 : stk k1 = <[t := AtBegin :: base]> (stk k)) by exact Eths.
  assert (Est1 : stk k1 !! currentThread k1 = Some base) by (rewrite E1; rewrite lookup_insert_ne by done; exact Est).
  destruct (Sched_fork k k1 t) as [HS1 _]; try done; [congruence|].
  assert (HY1 : Sync k1).
  { eapply (Sync_frame k k1); try done; [by apply sems_same_eq|rewrite E1..].
    - intros u x [[<- <-]|[Hne Hx]]%lookup_insert_Some.
      + split; [repeat constructor|]. right. unfold inert, taking, waiting, deleting, base. set_solver.
      + split; [by apply (sy_objs _ HY u)|]. left. exists x. by split; [|apply eqv_refl].
    - intros u x Hx. left. exists x. rewrite lookup_insert_ne by congruence. by split; [|apply eqv_refl]. }
  rewrite (push_ok _ base) by done. cbn [app]. eexists. split; [done|].
  apply (Inv_local k1 _ base (AtSetLevel IntOn :: base) false); try done.
  - by apply on_not_sleeping.
  - by apply cons_not_sleeping.
  - by apply (stk_put_insert base).
  - by apply eqv_plain.
  - repeat constructor.
  - apply cs_off. constructor. constructor.
  - by left.
Qed.

(** The marks at the ends of the stacks are no part of the invariant. *)
Lemma Inv_fence k x : Inv k → Inv (set_fence x k).
Proof.
  intros [H1 [S1 S2 S3 S4 S5 S6] [Y1 [o Y2] [C1 C2 C3 C4 C5]]].
  split; [done|by split|split; [done| |by split]]. exists o. intros l lk Hl. by destruct (Y2 l lk Hl).
Qed.

(** ** The steps of the client *)

Definition holds (l : nat) (k : Kernel) : bool :=
  match locks k !! l with Some lk => IsHeldByCurrentThread lk k | None => false end.

(** The objects of a call exist, and the thread to fork is new. *)
Definition known (a : action) (k : Kernel) : Prop :=
  match a with
  | DoP n | DoV n => is_Some (sems k !! SClient n)
  | DoAcquire l | DoRelease l => is_Some (locks k !! l)
  | DoWait c l | DoSignal c l | DoBroadcast c l => is_Some (conds k !! c) ∧ is_Some (locks k !! l)
  | DoFork t _ => threads k !! t = None
  | _ => True
  end.

(** Calls that require the lock, and a name that is too long. *)
Definition misused (a : action) (k : Kernel) : bool :=
  match a with
  | DoRelease l | DoWait _ l | DoSignal _ l => negb (holds l k)
  | DoFork _ name => bool_decide (31 < length name)%nat
  | _ => false
  end.

Lemma holds_Some l k :
  is_Some (locks k !! l) →
  if holds l k then ∃ lk, locks k !! l = Some lk ∧ lockHolder lk = Some (currentThread k)
  else ∃ lk, locks k !! l = Some lk ∧ IsHeldByCurrentThread lk k = false.
Proof.
  intros [lk E]. unfold holds. rewrite E. destruct (IsHeldByCurrentThread lk k) eqn:H; [|by exists lk].
  exists lk. split; [done|]. by apply bool_decide_eq_true in H.
Qed.

(** [refused]: a call that asserts the lock is held by a thread without it. *)
Ltac refused := let E := fresh in let H := fresh in
  intros (?&E&H); unfold Release, Wait, Signal; rewrite E; cbn [deref mbind res_bind]; by rewrite H.

Lemma client_ok ch k :
  Running k base → known (next_action ch) k → Forall (λ n, is_Some (sems k !! SClient n)) (signals ch) →
  if misused (next_action ch) k then client ch (put [AtFinish] k) = Err AssertFailed
  else runs k (client ch (put [AtFinish] k)).
Proof.
  intros HR Hkn HF. pose proof (rn_cur _ _ HR) as Est. unfold client.
  assert (Epush : push [AtClient] (put [AtFinish] k) = Ok k).
  { rewrite (push_ok _ [AtFinish]) by exact (stk_put_cur _ _ k Est). cbn [app]. rewrite put_put. by rewrite (put_id base). }
  assert (Hput : put base k = k) by (by apply put_id).
  destruct (next_action ch) as [n|n|l|l|c l|c l|c l|t name| | | |]; cbn [known misused] in *; rewrite ?Epush; cbn [mbind res_bind].
  - apply runs_ok. rewrite <- Hput. apply (P_ok k base); [done|constructor|solve_eqv|by repeat constructor].
  - apply runs_ok. by apply (V_client_ok k base).
  - apply runs_ok. rewrite <- Hput. apply (Acquire_ok k base); [done|done|constructor|solve_eqv|repeat constructor].
  - pose proof (holds_Some l k Hkn) as H. destruct (holds l k); cbn [negb]; [|revert H; refused].
    destruct H as (lk&E&H). apply runs_ok. by apply (Release_ok k base l lk).
  - destruct Hkn as [Hc Hlk]. pose proof (holds_Some l k Hlk) as H. destruct (holds l k); cbn [negb]; [|revert H; refused].
    destruct H as (lk&E&H). apply runs_ok. by apply (Wait_ok k c l lk).
  - destruct Hkn as [Hc Hlk]. pose proof (holds_Some l k Hlk) as H. destruct (holds l k); cbn [negb]; [|revert H; refused].
    destruct H as (lk&E&H). apply runs_ok. by apply (Signal_ok k base c l lk).
  - apply runs_ok. rewrite (push_ok _ base) by done. cbn [app]. eexists. split; [done|]. eapply Running_Inv, Running_put; [done|constructor|solve_eqv|].
    constructor; [done|repeat constructor].
  - case_bool_decide as Hname.
    + unfold new_Thread. by rewrite (proj2 (Z.leb_gt _ _)) by lia.
    + apply runs_ok, Fork_ok; [done| |lia]. unfold stk. by rewrite lookup_fmap, Hkn.
  - by apply (Yield_ok k base).
  - by apply (tick_ok k base).
  - apply runs_ok. eexists. split; [done|]. eapply Running_Inv, Running_put; [done|constructor|solve_eqv|repeat constructor].
  - apply runs_ok. eexists. split; [done|]. by apply (Inv_fence k), (Running_Inv k base).
Qed.

(** ** The other steps *)

Lemma Sleep_ok (finishing : bool) k st :
  klevel k = IntOff → stk k !! currentThread k = Some st →
  ∃ ths, Sleep finishing k = Ok (set_threads ths k)
    ∧ stack <$> ths = <[currentThread k := AtSleepLoop finishing :: st]> (stk k).
Proof.
  intros Hl Est. unfold Sleep, off. rewrite Hl, bool_decide_true by done. cbn [ASSERT mbind res_bind].
  destruct (setStatus_ok (currentThread k) BLOCKED k) as (ths&->&Eths); [by rewrite Est|]. cbn [mbind res_bind].
  set (k1 := set_threads ths k). assert (E1 : stk k1 = stk k) by exact Eths.
  rewrite (push_ok _ st) by (by rewrite E1). cbn [app]. eexists. split; [done|].
  pose proof (stk_put_insert st (AtSleepLoop finishing :: st) k1) as Ep. rewrite E1 in Ep. by apply Ep.
Qed.

Lemma Finish_ok k : Running k [AtFinish] → ∃ k', Finish (put [] k) = Ok k' ∧ Inv k'.
Proof.
  intros [Hl Est Hon Hd HS HY]. unfold Finish. pose proof (stk_put_cur _ [] k Est) as E0.
  destruct (Sleep_ok true (set_level IntOff (put [] k)) []) as (ths&->&Eths); [done|exact E0|].
  eexists. split; [done|]. change (stk (set_level IntOff (put [] k))) with (stk (put [] k)) in Eths.
  rewrite (stk_put_insert [AtFinish] [] k Est) in Eths. cbn [currentThread set_level put set_threads] in Eths.
  rewrite insert_insert_eq in Eths.
  apply (Inv_local k _ [AtFinish] [AtSleepLoop true] false); try done.
  - by apply on_not_sleeping.
  - by apply cons_not_sleeping.
  - solve_eqv.
  - repeat constructor.
  - apply cs_exit.
  - by left.
Qed.

Lemma set_holder_ok k l r :
  Running k (AtSetHolder l :: r) → on_frames r → is_Some (locks k !! l) →
  (∀ l', AtSetHolder l' ∉ r) → ploop (SLock l) (AtSetHolder l :: r) →
  ∃ k', set_holder l (Some (currentThread k)) (put r k) = Ok k' ∧ Inv k'.
Proof.
  intros HR Hon [lk Elk] Hnr Hp. pose proof HR as [Hl Est Hon' Hd HS HY].
  unfold set_holder. cbn [locks put set_threads]. fold (put r k). rewrite Elk. cbn [deref mbind res_bind]. eexists. split; [done|].
  set (k' := set_locks _ _).
  assert (Estk : stk k' = <[currentThread k := r]> (stk k)) by exact (stk_put_insert _ r k Est).
  pose proof (sy_objs _ HY _ _ Est) as HF. apply Forall_cons in HF as [_ HF].
  eapply (Running_Inv _ r), Going_Running.
  - apply (Going_frame k k' _ r (Running_Going _ _ HR)); try done; [exact (sems_keep1 k HS)|exact (sems_keep2 k)].
  - assert (Hpl : ∀ l', AtPLoop (SLock l') IntOn ∉ AtSetHolder l :: r) by (inversion Hp; subst; unfold base; set_solver).
    eapply (Sync_holder k k' _ r Est Estk l lk HY Elk); try done.
    + split; [by constructor|done].
    + intros [Hin _]. by apply (Hnr l).
    + intros l' Hne. unfold taking. split.
      * intros [[?|Hin]%elem_of_cons _]; [congruence|]. by destruct (Hnr l').
      * intros [Hin _]. by destruct (Hnr l').
    + intros w. unfold waiting. rewrite !elem_of_cons. intuition congruence.
    + intros w Hw. by constructor.
Qed.

(** A frame that names a waiter's semaphore is above its deletion. *)
Definition guarded st : Prop :=
  ∀ w old, AtP (SWaiter w) ∈ st ∨ AtPLoop (SWaiter w) old ∈ st ∨ waiting w st → deleting w st.

Lemma ploop_guarded s r : ploop s r → guarded (AtPLoop s IntOn :: r).
Proof. intros H w old. unfold waiting, deleting. inversion H; subst; unfold base; rewrite ?elem_of_cons, ?elem_of_nil; intuition congruence. Qed.

Lemma on_guarded r : on_frames r → guarded r.
Proof. intros H w old. unfold waiting, deleting. inversion H; subst; unfold base; rewrite ?elem_of_cons, ?elem_of_nil; intuition congruence. Qed.

Lemma guarded_plain i r : plain i = true → guarded r → guarded (i :: r).
Proof.
  intros Hi H w old. specialize (H w old). unfold waiting, deleting in *. rewrite !elem_of_cons. intros H'. right. apply H.
  destruct i; try done; intuition congruence.
Qed.

Lemma resumable_guarded r : resumable r → guarded r.
Proof. intros []; [apply guarded_plain, on_guarded; done|by apply ploop_guarded]. Qed.

Lemma parked_guarded st : parked st → guarded st.
Proof.
  intros []; [apply guarded_plain; [done|apply on_guarded; constructor]|]. apply guarded_plain; [done|by apply resumable_guarded].
Qed.

Lemma blocked_guarded s st : blocked s st → guarded st.
Proof. intros (r&Hr&->). apply guarded_plain; [done|by apply ploop_guarded]. Qed.

(** The threads that do not run. *)
Lemma other_guarded k t x : Sched k → stk k !! t = Some x → t ≠ currentThread k → guarded x.
Proof.
  intros HS Hx Hne. destruct (sc_all _ HS t x Hx) as [Hd|[Hr|(s&sem&Hs&Hq)]]; [by left|..].
  - destruct (sc_dead _ HS t Hd) as [_ E]. simplify_eq. apply guarded_plain; [done|]. intros w old. unfold waiting. set_solver.
  - destruct (sc_ready _ HS t Hr) as (y&E&Hy). rewrite decide_False in Hy by done. simplify_eq. by apply parked_guarded.
  - destruct (sc_queue _ HS s sem t Hs Hq) as (_&y&E&Hy). rewrite decide_False in Hy by done. simplify_eq. by eapply blocked_guarded.
Qed.

Lemma delete_ok k w :
  Running k (AtDelete (SWaiter w) :: base) →
  Inv (set_sems (delete (SWaiter w) (sems k)) (put base k)).
Proof.
  intros HR. pose proof HR as [Hl Est Hon Hd HS HY]. set (k' := set_sems _ _).
  assert (Estk : stk k' = <[currentThread k := base]> (stk k)) by exact (stk_put_insert _ base k Est).
  assert (Hdel : deleting w (AtDelete (SWaiter w) :: base)) by by constructor.
  assert (Hown : ∀ t x, stk k !! t = Some x → guarded x → ∀ old, waiting w x ∨ AtPLoop (SWaiter w) old ∈ x ∨ deleting w x →
    t = currentThread k).
  { intros t x Hx Hg old Hw. apply (co_owner _ (sy_conds _ HY) t _ x _ w Hx Est); [|done].
    specialize (Hg w old). unfold waiting in *. tauto. }
  assert (Hoth : ∀ t x, stk k !! t = Some x → t ≠ currentThread k → ∀ old, ¬ (waiting w x ∨ AtPLoop (SWaiter w) old ∈ x ∨ deleting w x)).
  { intros t x Hx Hne old Hw. apply Hne. by apply (Hown t x Hx (other_guarded k t x HS Hx Hne) old). }
  eapply (Running_Inv _ base), Going_Running.
  - apply (Going_frame k k' _ base (Running_Going _ _ HR)); try done; [constructor| |]; cbn.
    + intros s sem [_ Hs]%lookup_delete_Some. by apply sems_keep1.
    + intros s sem Hs Hq. exists sem. split; [|done]. rewrite lookup_delete_ne; [done|]. intros <-.
      destruct (queue sem) as [|t q] eqn:Eq; [done|].
      destruct (sc_queue _ HS _ sem t Hs) as (_&x&Hx&Hb); [rewrite Eq; by constructor|].
      case_decide as E; [subst t; rewrite Est in Hx; injection Hx as <-; by destruct Hb as (?&_&?)|].
      destruct Hb as (r&_&->). apply (Hoth t _ Hx E IntOn). right; left. set_solver.
  - apply (Sync_delete k k' _ base Est Estk w HY); try done.
    + intros t x Hne Hx i Hi Hok. pose proof (Hoth t x Hx Hne) as Hn.
      assert (Hs : ∀ s, s ≠ SWaiter w → is_Some (sems k !! s) → is_Some (sems k' !! s)).
      { intros s Hs ?. cbn. by rewrite lookup_delete_ne by congruence. }
      destruct i; try done; cbn [instr_ok] in *; apply Hs; try done; intros ->.
      * apply (Hn old). auto.
      * apply (Hn IntOn). left. by left.
      * apply (Hn IntOn). auto.
    + intros c cd Hc Hin. destruct (co_queue _ (sy_conds _ HY) c cd _ Hc Hin) as (w'&sem&[= <-]&_&_&t&x&Hx&Hw).
      destruct (decide (t = currentThread k)) as [->|Hne]; [|by apply (Hoth t x Hx Hne IntOn); left].
      rewrite Est in Hx. injection Hx as <-. revert Hw. unfold waiting, base. rewrite !elem_of_cons, !elem_of_nil. intuition congruence.
    + intros l. unfold taking, base. rewrite !elem_of_cons, !elem_of_nil. intuition congruence.
    + intros w'. unfold waiting, base. rewrite !elem_of_cons, !elem_of_nil. intuition congruence.
Qed.

Lemma SetLevel_ok k r sigs (yield : bool) :
  Inv k → klevel k = IntOff → toBeDestroyed k = None → stk k !! currentThread k = Some (AtSetLevel IntOn :: r) →
  on_frames r → Forall (λ n, is_Some (sems k !! SClient n)) sigs →
  runs k (SetLevel IntOn sigs yield (put r k)).
Proof.
  intros [_ HS HY] Hl Hd Est Hon HF. unfold SetLevel. cbn [klevel put set_threads]. fold (put r k). rewrite Hl.
  rewrite !bool_decide_true by done. cbn [andb]. apply (runs_same k (set_level IntOn (put r k))); [done|done|]. apply (tick_ok _ r); [|done].
  pose proof (sy_objs _ HY _ _ Est) as HFr. apply Forall_cons in HFr as [_ HFr]. split; try done.
  - exact (stk_put_cur _ r k Est).
  - apply Sched_level. eapply Sched_put; [done|done|by apply cons_not_sleeping|by apply on_not_sleeping].
  - apply Sync_level. eapply (Sync_cur k); try done; [by apply sems_same_eq|by eapply stk_put_insert|]. by apply eqv_sym, eqv_plain.
Qed.

(** P finds the value 0. *)
Lemma P_block k s r sem :
  Inv k → klevel k = IntOff → toBeDestroyed k = None → stk k !! currentThread k = Some (AtPLoop s IntOn :: r) →
  ploop s r → sems k !! s = Some sem → value sem = 0 → ∃ k', P_loop s IntOn (put r k) = Ok k' ∧ Inv k'.
Proof.
  intros [_ HS HY] Hl Hd Est Hp Es Hv. assert (Hns : ¬ sleeping (AtPLoop s IntOn :: r)) by by apply cons_not_sleeping.
  unfold P_loop. cbn [sems put set_threads]. fold (put r k). rewrite Es. cbn [deref mbind res_bind].
  rewrite Hv, Z.eqb_refl.
  rewrite bool_decide_true by exact (cur_not_queued k _ s sem HS Est Hns Es). cbn [ASSERT mbind res_bind].
  rewrite (push_ok _ r) by exact (stk_put_cur _ r k Est). cbn [app mbind res_bind].
  set (k1 := put _ (set_sems _ _)).
  assert (E1 : stk k1 = stk k).
  { unfold k1. erewrite stk_put_insert by exact (stk_put_cur _ r k Est).
    change (stk (set_sems _ (put r k))) with (stk (put r k)). erewrite stk_put_insert by done. cbn [currentThread set_sems put set_threads].
    rewrite insert_insert_eq. by apply insert_id. }
  destruct (Sleep_ok false k1 (AtPLoop s IntOn :: r)) as (ths&->&Eths); [done|rewrite E1; exact Est|].
  rewrite E1 in Eths. eexists. split; [done|].
  assert (El : klevel (set_threads ths k1) = IntOff) by exact Hl.
  eapply (Inv_intro _ _ false); [|rewrite El; apply cs_sleep, Hp|by left| |].
  - unfold stk. cbn [threads set_threads]. rewrite Eths. apply lookup_insert_eq.
  - eapply (Sched_enqueue k _ s sem _ r HS Est Hns Es Hp); try done. by rewrite Hv.
  - apply (Sync_cur k _ (AtPLoop s IntOn :: r) (AtSleepLoop false :: AtPLoop s IntOn :: r)); try done; [| |by apply eqv_plain].
    + intros s'. cbn. destruct (decide (s' = s)) as [->|Hne].
      * rewrite lookup_insert_eq, Es. by destruct s.
      * rewrite lookup_insert_ne by done. apply sems_same_refl.
    + constructor; [done|]. exact (sy_objs _ HY _ _ Est).
Qed.

Lemma ploop_on s r : ploop s r → on_frames r.
Proof. intros []; constructor. Qed.

(** P finds a positive value. *)
Lemma Sync_P k k' s r sem :
  Sync k → stk k !! currentThread k = Some (AtPLoop s IntOn :: r) → ploop s r → sems k !! s = Some sem → value sem ≠ 0 →
  stk k' = <[currentThread k := AtSetLevel IntOn :: r]> (stk k) →
  sems k' = <[s := mkSemaphore (value sem - 1) (queue sem)]> (sems k) →
  locks k' = locks k → conds k' = conds k → nextWaiter k' = nextWaiter k → Sync k'.
Proof.
  intros HY Est Hp Es Hv Estk Esem El Ec En. pose proof (sy_objs _ HY _ _ Est) as HF. apply Forall_cons in HF as [_ HF].
  assert (HF' : Forall (instr_ok k) (AtSetLevel IntOn :: r)) by (by constructor).
  assert (Hlock : ∀ l, AtSetHolder l ∈ r → ∃ lk, locks k !! l = Some lk).
  { intros l Hin. exact (proj1 (Forall_forall _ _) HF _ Hin). }
  inversion Hp; subst s r.
  - refine (Sync_cur k k' _ _ El Ec En _ Est Estk HF' _ HY); [|solve_eqv].
    intros s. rewrite Esem. destruct (decide (s = SClient n)) as [->|Hne]; [by rewrite lookup_insert_eq, Es|].
    rewrite lookup_insert_ne by done. apply sems_same_refl.
  - destruct (Hlock l) as [lk Elk]; [by constructor|].
    eapply (Sync_take k k' _ _ Est Estk l lk sem); try done; unfold taking, waiting, deleting, base;
      [split; set_solver|intros; rewrite ?elem_of_cons, ?elem_of_nil in *; intuition congruence..].
  - destruct (Hlock l) as [lk Elk]; [by constructor|].
    eapply (Sync_take k k' _ _ Est Estk l lk sem); try done; unfold taking, waiting, deleting, base;
      [split; set_solver|intros; rewrite ?elem_of_cons, ?elem_of_nil in *; intuition congruence..].
  - eapply (Sync_waited k k' _ _ Est Estk w sem); try done; unfold taking, waiting, deleting, base; intros;
      rewrite ?elem_of_cons, ?elem_of_nil in *; intuition congruence.
Qed.

Lemma P_pass k s r sem :
  Inv k → klevel k = IntOff → toBeDestroyed k = None → stk k !! currentThread k = Some (AtPLoop s IntOn :: r) →
  ploop s r → sems k !! s = Some sem → value sem ≠ 0 → ∃ k', P_loop s IntOn (put r k) = Ok k' ∧ Inv k'.
Proof.
  intros [_ HS HY] Hl Hd Est Hp Es Hv.
  unfold P_loop. cbn [sems put set_threads]. fold (put r k). rewrite Es. cbn [deref mbind res_bind].
  rewrite (proj2 (Z.eqb_neq _ _) Hv). rewrite (push_ok _ r) by exact (stk_put_cur _ r k Est). eexists. split; [done|]. cbn [app].
  set (k' := put _ _).
  assert (E1 : stk k' = <[currentThread k := AtSetLevel IntOn :: r]> (stk k)).
  { unfold k'. erewrite stk_put_insert by exact (stk_put_cur _ r k Est).
    change (stk (set_sems _ (put r k))) with (stk (put r k)). erewrite stk_put_insert by done. cbn [currentThread set_sems put set_threads].
    apply insert_insert_eq. }
  assert (El : klevel k' = IntOff) by exact Hl.
  eapply (Inv_intro _ _ false); [|rewrite El; apply cs_off, rs_level; by eapply ploop_on|by left| |].
  - rewrite E1. apply lookup_insert_eq.
  - apply (Sched_frame k k'); try done.
    + intros t Hne. rewrite E1. by apply lookup_insert_ne.
    + right. rewrite E1, lookup_insert_eq. split; intros x; [rewrite Est|]; intros [= <-]; by apply cons_not_sleeping.
    + cbn. intros s' sem' [[<- <-]|[Hne Hs]]%lookup_insert_Some; [|by apply sems_keep1]. cbn.
      split; [destruct (sc_qnodup _ HS s sem Es); lia|]. right. by exists sem.
    + cbn. intros s' sem' Hs Hq. destruct (decide (s' = s)) as [->|Hne]; [rewrite lookup_insert_eq; simplify_eq; by eexists|].
      rewrite lookup_insert_ne by done. by exists sem'.
  - by apply (Sync_P k k' s r sem).
Qed.

(** Where the next thread goes on. *)
Lemma next_parked k k' n : Sched k → n ∈ readyList k → n ≠ currentThread k →
  stk k' !! n = stk k !! n → ∃ x, stk k' !! n = Some x ∧ parked x.
Proof.
  intros HS Hn Hne E. destruct (sc_ready _ HS n Hn) as (x&Ex&Hx). rewrite decide_False in Hx by done.
  exists x. by rewrite E.
Qed.

(** The frames of a thread in the loop of Sleep. *)
Inductive sleeper : bool → list instr → Prop :=
| sl_exit : sleeper true []
| sl_wait s r : ploop s r → sleeper false (AtPLoop s IntOn :: r).

Lemma sleep_switch k f r sigs n rdy :
  Inv k → klevel k = IntOff → toBeDestroyed k = None → stk k !! currentThread k = Some (AtSleepLoop f :: r) →
  sleeper f r → readyList k = n :: rdy → runs k (sleep_loop f sigs (put r k)).
Proof.
  intros [_ HS HY] Hl Hd Est Hsl Er. unfold sleep_loop, FindNextToRun, off. cbn [klevel put set_threads readyList]. fold (put r k).
  rewrite Hl, bool_decide_true by done. cbn [ASSERT mbind res_bind]. rewrite Er. cbn [mbind res_bind].
  assert (Hn : n ∈ readyList k) by (rewrite Er; by constructor).
  destruct (sc_ready _ HS n Hn) as (stn&En&_).
  destruct (decide (overflowed k)) as [Hov|Hov]; [right; split; [done|]; by apply Run_overflowed|apply runs_ok].
  destruct (Run_ok n f (set_ready rdy (put r k)) r) as (ths&->&Eths);
    [done|done|exact (stk_put_cur _ r k Est)| |done|].
  { change (stk (set_ready rdy (put r k))) with (stk (put r k)). erewrite stk_put_insert by done. by apply is_Some_insert. }
  change (stk (set_ready rdy (put r k))) with (stk (put r k)) in Eths. erewrite stk_put_insert in Eths by done.
  cbn [currentThread set_ready put set_threads] in Eths. rewrite insert_insert_eq in Eths.
  eexists. split; [done|]. set (k' := set_threads ths _).
  assert (E1 : stk k' = <[currentThread k := AfterSwitch :: r]> (stk k)) by exact Eths.
  assert (E2 : currentThread k' = n ∧ sems k' = sems k ∧ readyList k' = rdy ∧ klevel k' = IntOff ∧ locks k' = locks k
    ∧ conds k' = conds k ∧ nextWaiter k' = nextWaiter k
    ∧ toBeDestroyed k' = if f then Some (currentThread k) else toBeDestroyed k) by (unfold k'; by destruct f).
  destruct E2 as (Ec&Es&Er'&El&Elk&Eco&Enw&Ed). clearbody k'. clear Eths.
  assert (Hnx : ∃ x, stk k' !! n = Some x ∧ parked x).
  { destruct (decide (n = currentThread k)) as [->|Hne].
    - rewrite E1, lookup_insert_eq. eexists. split; [done|].
      destruct Hsl; [|by constructor; constructor]. exfalso. apply (cur_not_ready k _ HS Est); [by apply cons_not_sleeping|done].
    - apply (next_parked k); try done. rewrite E1. by apply lookup_insert_ne. }
  destruct Hnx as (x&Ex&Hx). apply (Inv_intro k' x true); [by rewrite Ec|rewrite El; by constructor|by right| |].
  - eapply (Sched_switch k k' _ (AfterSwitch :: r) n rdy HS Est Er Ec Es E1). destruct Hsl as [|s r Hp].
    + right; right. split; [by apply cons_not_sleeping|done].
    + left. split; [by exists s, r|]. split; [|done]. exists s. split; by exists r.
  - eapply (Sync_switch k k' _ _ Elk Eco Enw Es Est E1); [|intros i [->|Hi]%elem_of_cons; [by right|left; by constructor]|done].
    eapply eqv_trans; [by apply eqv_sym, eqv_plain|by apply eqv_plain].
Qed.

Lemma sleep_ok k f r sigs :
  Inv k → klevel k = IntOff → toBeDestroyed k = None → stk k !! currentThread k = Some (AtSleepLoop f :: r) →
  sleeper f r → Forall (λ n, is_Some (sems k !! SClient n)) sigs → runs k (sleep_loop f sigs (put r k)).
Proof.
  intros HI Hl Hd Est Hsl HF. destruct (readyList k) as [|n rdy] eqn:Er; [|by eapply sleep_switch].
  apply runs_ok. destruct HI as [_ HS HY]. unfold sleep_loop, FindNextToRun, off. cbn [klevel put set_threads readyList]. fold (put r k).
  rewrite Hl, bool_decide_true by done. cbn [ASSERT mbind res_bind]. rewrite Er. cbn [mbind res_bind].
  rewrite (push_ok _ r) by exact (stk_put_cur _ r k Est). cbn [app mbind res_bind]. rewrite put_put, put_id by done.
  destruct (handlers_ok sigs k HS Hl HF) as (k'&added&->&HS'&Hsm&Hss&_). exists k'. split; [done|].
  pose proof (Sync_same _ _ Hsm Hss HY) as HY'. destruct Hsm as [E1 E2 E3 E4 E5 E6 E7 _].
  apply (Inv_intro k' (AtSleepLoop f :: r) false); try done; [by rewrite E1, E2| |left; congruence].
  rewrite E4, Hl. destruct Hsl; by constructor.
Qed.

Lemma Check_ok k st :
  Sched k → Sync k → stk k !! currentThread k = Some st →
  ∃ k', CheckToBeDestroyed k = Ok k' ∧ Sched k' ∧ Sync k' ∧ toBeDestroyed k' = None ∧ klevel k' = klevel k
    ∧ currentThread k' = currentThread k ∧ stk k' !! currentThread k = Some st.
Proof.
  intros HS HY Est. unfold CheckToBeDestroyed. destruct (toBeDestroyed k) as [t|] eqn:Ed; [|by exists k].
  destruct (sc_dead _ HS t Ed) as [Hne Et]. rewrite bool_decide_false by done. cbn [negb ASSERT mbind res_bind].
  pose proof Et as Et'. unfold stk in Et'. rewrite lookup_fmap in Et'. destruct (threads k !! t) as [th|]; [|done].
  cbn [deref mbind res_bind]. set (k' := set_destroyed None _).
  assert (E1 : stk k' = delete t (stk k)) by (unfold stk, k'; cbn; by rewrite fmap_delete).
  exists k'. split; [done|]. split; [by eapply (Sched_destroy k k' t)|]. split.
  - apply (Sync_frame k k'); try done; [by apply sems_same_eq|rewrite E1..].
    + intros u x [Hu Hx]%lookup_delete_Some. split; [by apply (sy_objs _ HY u)|]. left. exists x. by split; [|apply eqv_refl].
    + intros u x Hx. destruct (decide (t = u)) as [->|Hn].
      * right. rewrite Et in Hx. injection Hx as <-. unfold inert, taking, waiting, deleting. set_solver.
      * left. exists x. rewrite lookup_delete_ne by done. by split; [|apply eqv_refl].
  - do 3 (split; [done|]). rewrite E1. by rewrite lookup_delete_ne.
Qed.
End SynchStep.
