(* ===== verification/SynchThms.v ===== *)
(** The kernel of Threads.v in the states it can reach: no assertion of the
    thread system fails and no pointer to a thread, semaphore, lock or condition
    dangles, unless a client uses a lock it does not hold, gives a thread too long
    a name or writes over the end of its stack; locks exclude; no wakeup is lost. *)

From S2P Require Import Prelude Interrupt Threads SynchInv Synch.

Module SynchThms.
Import Threads SynchInv SynchStep.
Implicit Types (k : Kernel) (t : nat) (s : sid) (st r : list instr).

(** ** One step *)

(** The objects that the client and the devices name exist. *)
Definition lawful (ch : choice) (k : Kernel) : Prop :=
  known (next_action ch) k ∧ Forall (λ n, is_Some (sems k !! SClient n)) (signals ch).

(** The current thread is about to use a lock it does not hold, or to create a
    thread with a name that is too long. *)
Definition misuse (ch : choice) (k : Kernel) : bool :=
  match stack <$> threads k !! currentThread k with
  | Some (AtClient :: _) => misused (next_action ch) k
  | Some (AtBroadcast c l :: _) =>
    match conds k !! c with
    | Some (mkCondition (_ :: _)) => negb (holds l k)
    | _ => false
    end
  | _ => false
  end.

Lemma misuse_eq ch k i r : stk k !! currentThread k = Some (i :: r) →
  misuse ch k = match i with
                | AtClient => misused (next_action ch) k
                | AtBroadcast c l =>
                  match conds k !! c with Some (mkCondition (_ :: _)) => negb (holds l k) | _ => false end
                | _ => false
                end.
Proof. unfold stk, misuse. rewrite lookup_fmap. by intros ->. Qed.

Lemma broadcast_ok k c l :
  Running k (AtBroadcast c l :: base) →
  if match conds k !! c with Some (mkCondition (_ :: _)) => negb (holds l k) | _ => false end
  then broadcast_loop c l (put base k) = Err AssertFailed
  else ∃ k', broadcast_loop c l (put base k) = Ok k' ∧ Inv k'.
Proof.
  intros HR. pose proof HR as [Hl Est _ Hd HS HY]. pose proof (sy_objs _ HY _ _ Est) as HF.
  apply Forall_cons in HF as [[[[q] Ec] Hlk] _]. unfold broadcast_loop. cbn [conds put set_threads]. fold (put base k).
  rewrite Ec. cbn [deref mbind res_bind waitQueue]. destruct q as [|s q].
  - eexists. split; [done|]. eapply Running_Inv, Running_put; [done|constructor|solve_eqv|repeat constructor].
  - rewrite (push_ok _ base) by exact (stk_put_cur _ base k Est). cbn [app mbind res_bind]. rewrite put_put, put_id by done.
    pose proof (holds_Some l k Hlk) as H. destruct (holds l k); cbn [negb]; [|revert H; refused].
    destruct H as (lk&E&H). by eapply (Signal_ok k _ c l lk).
Qed.

(** The steps of a thread that runs with interrupts on. *)
Lemma step_on ch k st :
  Running k st → lawful ch k →
  if misuse ch k then step ch k = Err AssertFailed else runs k (step ch k).
Proof.
  intros HR [Hkn HF]. pose proof HR as [Hl Est Hon Hd HS HY]. pose proof (sy_objs _ HY _ _ Est) as HO.
  destruct Hon as [| |l|c l|w l|w l|w l|w]; erewrite step_eq, misuse_eq by exact Est; cbn [exec].
  - by apply client_ok.
  - by apply runs_ok, Finish_ok.
  - apply runs_ok, (set_holder_ok k l base); [done|constructor| |unfold base; set_solver|constructor]. by inversion HO.
  - pose proof (broadcast_ok k c l HR) as Hb. case_match; [done|by apply runs_ok].
  - apply runs_ok, (P_ok k _ _ _ HR); [constructor|solve_eqv|]. inversion HO; subst. by constructor.
  - inversion HO as [|? ? Hok HO']; subst. apply runs_ok, (Acquire_ok k _ _ _ HR); [done|constructor|solve_eqv|done].
  - apply runs_ok, (set_holder_ok k l _ HR); [constructor| |unfold base; set_solver|constructor]. by inversion HO.
  - apply Forall_cons in HO as [Hok _]. cbn in Hok. destruct Hok as [sem Hok]. cbn [sems put set_threads]. fold (put base k). rewrite Hok. cbn [deref mbind res_bind].
    apply runs_ok. eexists. split; [done|]. by apply delete_ok.
Qed.

(** The steps with interrupts off. *)
Lemma step_off ch k st :
  Inv k → klevel k = IntOff → toBeDestroyed k = None → stk k !! currentThread k = Some st → resumable st →
  lawful ch k → misuse ch k = false ∧ runs k (step ch k).
Proof.
  intros HI Hl Hd Est Hr [Hkn HF]. destruct Hr as [r Hon|s r Hp]; erewrite step_eq, misuse_eq by exact Est; cbn [exec]; (split; [done|]).
  - by apply SetLevel_ok.
  - pose proof (sy_objs _ (iv_sync _ HI) _ _ Est) as HO. apply Forall_cons in HO as [Hok _]. cbn in Hok. destruct Hok as [sem Hok].
    apply runs_ok. destruct (decide (value sem = 0)); [by eapply P_block|by eapply P_pass].
Qed.

(** The first step behind a context switch. *)
Lemma step_parked ch k st :
  Sched k → Sync k → klevel k = IntOff → stk k !! currentThread k = Some st → parked st →
  misuse ch k = false ∧ ∃ k', step ch k = Ok k' ∧ Inv k'.
Proof.
  intros HS HY Hl Est Hp.
  assert (Hput : ∀ i r, st = i :: r → plain i = true → ¬ sleeping (i :: r) → ¬ sleeping r →
    ∃ k', CheckToBeDestroyed (put r k) = Ok k' ∧ Sched k' ∧ Sync k' ∧ toBeDestroyed k' = None ∧ klevel k' = IntOff
      ∧ stk k' !! currentThread k' = Some r).
  { intros i r -> Hi N1 N2. destruct (Check_ok (put r k) r) as (k'&->&HS'&HY'&Hd'&El'&Ec'&Est').
    - by eapply Sched_put.
    - pose proof (sy_objs _ HY _ _ Est) as HO. apply Forall_cons in HO as [_ HO].
      eapply (Sync_cur k _ _ r); try done; [by apply sems_same_eq|by eapply stk_put_insert|by apply eqv_sym, eqv_plain].
    - exact (stk_put_cur _ r k Est).
    - exists k'. rewrite Ec'. by rewrite El'. }
  destruct Hp as [|r Hr]; erewrite step_eq, misuse_eq by exact Est; cbn [exec]; (split; [done|]).
  - destruct (Hput AtBegin base) as (k'&E&HS'&HY'&Hd'&El'&Est'); [done..|by apply cons_not_sleeping|by apply cons_not_sleeping|].
    unfold Begin. rewrite E. cbn [mbind res_bind]. rewrite (push_ok _ base) by done. eexists. split; [done|]. cbn [app].
    apply (Inv_local k' _ base (AtSetLevel IntOn :: base) false); try done.
    + by apply cons_not_sleeping.
    + by apply cons_not_sleeping.
    + by apply (stk_put_insert base).
    + by apply eqv_plain.
    + repeat constructor.
    + cbn [klevel put set_threads]. rewrite El'. apply cs_off. by constructor; constructor.
    + by left.
  - unfold off. cbn [klevel put set_threads]. fold (put r k). rewrite Hl, bool_decide_true by done. cbn [ASSERT mbind res_bind].
    destruct (Hput AfterSwitch r) as (k'&E&HS'&HY'&Hd'&El'&Est'); [done..|by apply cons_not_sleeping|by apply resumable_not_sleeping|].
    exists k'. split; [done|]. eapply (Inv_intro k' r false); try done; [rewrite El'; by constructor|by left].
Qed.

Lemma step_ok ch k :
  Inv k → lawful ch k →
  if misuse ch k then step ch k = Err AssertFailed else runs k (step ch k).
Proof.
  intros HI Hlaw. pose proof HI as [(st&b&Est&Hcs&Hd) HS HY]. remember (klevel k) as lv eqn:Hl. symmetry in Hl.
  assert (Hd' : b = false → toBeDestroyed k = None) by (destruct Hd; [done|congruence]). clear Hd.
  destruct Hcs as [r Hon|r Hr|s r Hp| |st Hp].
  - apply (step_on ch k r); [by split; auto|done].
  - destruct (step_off ch k r) as [-> H]; auto.
  - erewrite step_eq, misuse_eq by exact Est. cbn [exec]. apply sleep_ok; auto; [by constructor|apply Hlaw].
  - erewrite step_eq, misuse_eq by exact Est. cbn [exec]. apply sleep_ok; auto; [by constructor|apply Hlaw].
  - destruct (step_parked ch k st) as [-> H]; auto using runs_ok.
Qed.

(** ** Reachable states *)

Inductive reach (k0 : Kernel) : Kernel → Prop :=
| reach_boot : reach k0 k0
| reach_step k ch k' : reach k0 k → lawful ch k → step ch k = Ok k' → reach k0 k'.

#[local] Instance SClient_inj : Inj (=) (=) SClient.
Proof. by intros ?? [= ->]. Qed.

Lemma boot_sems values ls cs s sem :
  sems (boot values ls cs) !! s = Some sem →
  queue sem = [] ∧ ((∃ n, s = SClient n ∧ values !! n = Some (value sem)) ∨ (∃ l, s = SLock l ∧ value sem = 1)).
Proof.
  unfold boot. cbn [sems]. intros [H|[_ H]]%lookup_union_Some_raw.
  - apply (lookup_kmap_Some SClient) in H as (n&->&H). apply lookup_fmap_Some in H as (v&<-&H). split; [done|]. left. by exists n.
  - apply lookup_set_to_map in H as (l&_&[= <- <-]); [|by intros ???? [= ->]]. split; [done|]. right. by exists l.
Qed.

Lemma boot_locks values ls cs l lk :
  locks (boot values ls cs) !! l = Some lk →
  lk = mkLock None (SLock l) ∧ sems (boot values ls cs) !! SLock l = Some (mkSemaphore 1 []).
Proof.
  cbn. intros H. apply lookup_set_to_map in H as (l'&Hl&[= -> <-]); [|by intros ???? [= ->]]. split; [done|].
  apply lookup_union_Some_raw. right. split; [|apply lookup_set_to_map; [by intros ???? [= ->]|by exists l]].
  apply (lookup_kmap_None (M1:=gmap nat) (M2:=gmap sid) SClient). done.
Qed.

Lemma boot_conds values ls cs c cd : conds (boot values ls cs) !! c = Some cd → cd = mkCondition [].
Proof. cbn. intros H. apply lookup_set_to_map in H as (c'&_&[= -> <-]); [done|]. by intros ???? [= ->]. Qed.

Lemma boot_stk values ls cs t st : stk (boot values ls cs) !! t = Some st → t = 0%nat ∧ st = base.
Proof. unfold stk. cbn. rewrite map_fmap_singleton. by intros [<- <-]%lookup_singleton_Some. Qed.

Lemma boot_Inv values ls cs : map_Forall (λ _ v, 0 ≤ v) values → Inv (boot values ls cs).
Proof.
  intros Hv. set (k := boot values ls cs).
  assert (Hq : ∀ s sem, sems k !! s = Some sem → queue sem = []) by (intros s sem H; by apply boot_sems in H as [? _]).
  assert (Hst : ∀ t st, stk k !! t = Some st → t = currentThread k ∧ st = base) by (intros t st; apply boot_stk).
  apply (Inv_intro k base false).
  - unfold stk. cbn. by rewrite map_fmap_singleton, lookup_singleton_eq.
  - repeat constructor.
  - by left.
  - split; try done.
    + apply NoDup_nil_2.
    + intros t Ht. by apply not_elem_of_nil in Ht.
    + intros s sem H. rewrite (Hq s sem H). split; [apply NoDup_nil_2|].
      apply boot_sems in H as [_ [(n&_&H)|(l&_&->)]]; [exact (Hv n _ H)|lia].
    + intros s sem t H Ht. rewrite (Hq s sem H) in Ht. by apply not_elem_of_nil in Ht.
    + intros t st H Ht. destruct (Hst t st H) as [-> ->]. destruct Ht as [?|Ht]; [done|]. by apply cons_not_sleeping in Ht.
  - split.
    + intros t st H. destruct (Hst t st H) as [-> ->]. repeat constructor.
    + exists ∅. intros l lk H. apply boot_locks in H as [-> H]. rewrite lookup_empty. split; try done; [by eexists|].
      intros t st Ht Htk. destruct (Hst t st Ht) as [-> ->]. destruct Htk as [Htk _]. unfold base in Htk. set_solver.
    + split.
      * intros w [sem H]. by apply boot_sems in H as [_ [(n&?&_)|(l&?&_)]].
      * intros c cd s H Hin. apply boot_conds in H as ->. by apply not_elem_of_nil in Hin.
      * intros c cd H. apply boot_conds in H as ->. apply NoDup_nil_2.
      * intros c c' cd cd' s H _ Hin. apply boot_conds in H as ->. by apply not_elem_of_nil in Hin.
      * intros t t' st st' w H H' _ _. destruct (Hst t st H), (Hst t' st' H'). congruence.
Qed.

Lemma reach_Inv k0 k : Inv k0 → reach k0 k → Inv k.
Proof.
  intros H0 Hr. induction Hr as [|k ch k' Hr IH Hlaw Hs]; [done|].
  pose proof (step_ok ch k IH Hlaw) as H. destruct (misuse ch k); [congruence|]. destruct H as [(k1&E&H)|[_ E]]; congruence.
Qed.

(** ** Wakeups *)

Definition pending s st : Prop := AtPLoop s IntOn ∈ st.

Definition in_P s k t : bool :=
  match stk k !! t with Some st => bool_decide (AtPLoop s IntOn ∈ st) | None => false end.

(** The threads that are in P of [s] but not in its queue. *)
Definition woken s (sem : Semaphore) k : gset nat :=
  filter (λ t, in_P s k t = true ∧ t ∉ queue sem) (dom (stk k)).

Record Wake k : Prop := {
  wk_queue s sem : sems k !! s = Some sem → NoDup (queue sem) ∧ ∀ t, t ∈ queue sem → in_P s k t = true;
  wk_value s sem : sems k !! s = Some sem → queue sem ≠ [] → value sem ≤ Z.of_nat (size (woken s sem k))
}.

Lemma in_P_true s k t : in_P s k t = true ↔ ∃ st, stk k !! t = Some st ∧ pending s st.
Proof.
  unfold in_P. destruct (stk k !! t) as [st|]; [|naive_solver]. rewrite bool_decide_eq_true. unfold pending. naive_solver.
Qed.

Lemma elem_of_woken s sem k t : t ∈ woken s sem k ↔ ∃ st, stk k !! t = Some st ∧ pending s st ∧ t ∉ queue sem.
Proof.
  unfold woken. rewrite elem_of_filter, elem_of_dom, in_P_true. split.
  - intros [[(st&E&Hp) Hn] _]. by exists st.
  - intros (st&E&Hp&Hn). split; [|by rewrite E]. split; [by exists st|done].
Qed.

(** Changes that can only help: queues are emptied, stacks stay in P. *)
Record mono k k' : Prop := {
  mo_sems s sem' : sems k' !! s = Some sem' → queue sem' = [] ∨ sems k !! s = Some sem';
  mo_stk t st s : stk k !! t = Some st → pending s st → ∃ st', stk k' !! t = Some st' ∧ pending s st'
}.

Lemma mono_Wake k k' : mono k k' → Wake k → Wake k'.
Proof.
  intros [Hs Ht] [HQ HW].
  assert (HP : ∀ s t, in_P s k t = true → in_P s k' t = true).
  { intros s t. rewrite !in_P_true. intros (st&E&Hp). eauto. }
  split.
  - intros s sem Es. destruct (Hs s sem Es) as [->|Es']; [|destruct (HQ s sem Es'); eauto].
    split; [apply NoDup_nil_2|]. intros t Hin. by apply not_elem_of_nil in Hin.
  - intros s sem Es Hq. destruct (Hs s sem Es) as [?|Es']; [done|].
    specialize (HW s sem Es' Hq). enough (size (woken s sem k) ≤ size (woken s sem k'))%nat by lia.
    apply subseteq_size. intros t. rewrite !elem_of_woken. intros (st&Est&Hp&Hn).
    destruct (Ht t st s Est Hp) as (st'&?&?). by exists st'.
Qed.

#[local] Instance mono_refl : Reflexive mono.
Proof. intros k. split; [by right|]. intros t st s H Hp. by exists st. Qed.

#[local] Instance mono_trans : Transitive mono.
Proof.
  intros k1 k2 k3 [A1 A2] [B1 B2]. split.
  - intros s sem H. destruct (B1 s sem H) as [?|H']; [by left|by apply A1].
  - intros t st s H Hp. destruct (A2 t st s H Hp) as (x&Hx&Hpx). by apply (B2 t x).
Qed.

Lemma mono_eq k k' : sems k' = sems k → threads k' = threads k → mono k k'.
Proof. intros E1 E2. split; unfold stk; rewrite ?E1, ?E2; [by right|]. intros t st s H Hp. by exists st. Qed.

Lemma upd_thread_mono t f k k' :
  (∀ th s, pending s (stack th) → pending s (stack (f th))) → upd_thread t f k = Ok k' → mono k k'.
Proof.
  intros Hf. unfold upd_thread. intros H. res_inv. split; [by right|]. unfold stk. cbn.
  intros u st s Hu Hp. rewrite fmap_insert. destruct (decide (u = t)) as [->|Hne].
  - rewrite lookup_insert_eq. eexists. split; [done|]. apply Hf. rewrite lookup_fmap in Hu. by simplify_option_eq.
  - rewrite lookup_insert_ne by done. by exists st.
Qed.

Lemma setStatus_mono t x k k' : setStatus t x k = Ok k' → mono k k'.
Proof. by apply upd_thread_mono. Qed.

Lemma push_mono frames k k' : push frames k = Ok k' → mono k k'.
Proof. apply upd_thread_mono. intros th s Hp. apply elem_of_app. by right. Qed.

Lemma ReadyToRun_mono t k k' : ReadyToRun t k = Ok k' → mono k k'.
Proof. unfold ReadyToRun. intros H. res_inv. etrans; [by eapply setStatus_mono|by apply mono_eq]. Qed.

(** [mono_chain] goes back from the last state of a call to the first. *)
Create HintDb mono.
#[local] Hint Resolve push_mono setStatus_mono ReadyToRun_mono : mono.
Ltac mono_chain :=
  repeat match goal with
  | |- mono ?k ?k => reflexivity
  | |- mono ?k (?f _ ?k') => transitivity k'; [|apply mono_eq; reflexivity]
  | H : _ = Ok ?k' |- mono ?k ?k' =>
    match type of H with
    | _ _ ?k1 = _ => transitivity k1; [|solve [eauto with mono]]
    | _ _ _ ?k1 = _ => transitivity k1; [|solve [eauto with mono]]
    | _ ?k1 = _ => transitivity k1; [|solve [eauto with mono]]
    end
  end.

Lemma Run_mono n f k k' : Run n f k = Ok k' → mono k k'.
Proof. unfold Run. destruct f; intros H; res_inv; mono_chain. Qed.
#[local] Hint Resolve Run_mono : mono.

Lemma Yield_mono k k' : Yield k = Ok k' → mono k k'.
Proof. unfold Yield, FindNextToRun. intros H. res_inv. destruct (readyList _); res_inv; mono_chain. Qed.

Lemma Sleep_mono f k k' : Sleep f k = Ok k' → mono k k'.
Proof. unfold Sleep. intros H. res_inv. mono_chain. Qed.
#[local] Hint Resolve Yield_mono Sleep_mono : mono.

Lemma P_mono s k k' : P s k = Ok k' → mono k k'.
Proof. unfold P. intros H. mono_chain. Qed.
#[local] Hint Resolve P_mono : mono.

Lemma Acquire_mono l k k' : Acquire l k = Ok k' → mono k k'.
Proof. unfold Acquire. intros H. res_inv. mono_chain. Qed.

Lemma set_holder_mono l h k k' : set_holder l h k = Ok k' → mono k k'.
Proof. unfold set_holder. intros H. res_inv. mono_chain. Qed.

Lemma Finish_mono k k' : Finish k = Ok k' → mono k k'.
Proof. unfold Finish. intros H. mono_chain. Qed.
#[local] Hint Resolve Acquire_mono set_holder_mono Finish_mono : mono.

Lemma Fork_mono t name k k' : threads k !! t = None → (k ← new_Thread t name k; Fork t k) = Ok k' → mono k k'.
Proof.
  unfold new_Thread, Fork. intros Ht H. res_inv. mono_chain. split; [by right|]. unfold stk. cbn. intros u st s Hu Hp.
  exists st. split; [|done]. rewrite fmap_insert, lookup_insert_ne; [done|]. intros <-. by rewrite lookup_fmap, Ht in Hu.
Qed.

Lemma Check_mono k k' :
  (∀ t, toBeDestroyed k = Some t → stk k !! t = Some [AfterSwitch]) → CheckToBeDestroyed k = Ok k' → mono k k'.
Proof.
  unfold CheckToBeDestroyed. intros Hd H. destruct (toBeDestroyed k) as [t|]; res_inv; [|done].
  specialize (Hd t eq_refl). split; [by right|]. unfold stk. cbn. intros u st s Hu Hp. rewrite fmap_delete.
  exists st. split; [|done]. rewrite lookup_delete_ne; [done|]. intros <-. unfold stk in Hd. rewrite Hd in Hu. injection Hu as <-.
  unfold pending in Hp. set_solver.
Qed.

Lemma ReadyToRun_same t k k' : ReadyToRun t k = Ok k' → sems k' = sems k ∧ stk k' = stk k.
Proof.
  unfold ReadyToRun, setStatus, upd_thread. intros H. res_inv. split; [done|]. unfold stk. cbn. rewrite fmap_insert. cbn.
  apply insert_id. rewrite lookup_fmap. by simplify_option_eq.
Qed.

Lemma V_body_effect s k k' :
  V_body s k = Ok k' → ∃ sem, sems k !! s = Some sem ∧ stk k' = stk k
    ∧ sems k' = <[s := mkSemaphore (value sem + 1) (tail (queue sem))]> (sems k).
Proof.
  unfold V_body. intros H. apply bind_Ok in H as (sem&Es&H). apply deref_Ok in Es. exists sem. split; [done|].
  destruct (queue sem) as [|t q] eqn:Eq.
  - cbn in H. rewrite Es in H. cbn in H. injection H as <-. by rewrite Eq.
  - apply bind_Ok in H as (k1&H1&H). apply ReadyToRun_same in H1 as [E1 E2]. cbn in E1. rewrite E1, lookup_insert_eq in H.
    cbn in H. injection H as <-. split; [exact E2|]. cbn. by rewrite insert_insert_eq.
Qed.

(** V hands its unit to the thread it wakes. *)
Lemma V_body_Wake s k k' : Wake k → V_body s k = Ok k' → Wake k'.
Proof.
  intros [HQ HW] H. apply V_body_effect in H as (sem&Es&Estk&Esem). destruct (HQ s sem Es) as [Hnd Hin].
  assert (HP : ∀ s' t, in_P s' k' t = in_P s' k t) by (intros; unfold in_P; by rewrite Estk).
  split; rewrite Esem.
  - intros s' sem' Hs'. apply lookup_insert_Some in Hs' as [[<- <-]|[Hne Hs']]; cbn.
    + destruct (queue sem) as [|t q]; [split; [apply NoDup_nil_2|intros u Hu; by apply not_elem_of_nil in Hu]|]. apply NoDup_cons in Hnd as [_ Hnd]. split; [done|]. intros u Hu. rewrite HP.
      apply Hin. by constructor.
    + destruct (HQ s' sem' Hs'). split; [done|]. intros u Hu. rewrite HP. auto.
  - intros s' sem' Hs' Hq. apply lookup_insert_Some in Hs' as [[<- <-]|[Hne Hs']]; cbn in *.
    + destruct (queue sem) as [|t q] eqn:Eq; [done|]. cbn in *. apply NoDup_cons in Hnd as [Htq _].
      specialize (HW s sem Es). rewrite Eq in HW. specialize (HW ltac:(done)).
      assert (Ht : t ∉ woken s sem k) by (rewrite elem_of_woken, Eq; set_solver).
      enough (size ({[t]} ∪ woken s sem k) ≤ size (woken s (mkSemaphore (value sem + 1) q) k'))%nat as Hsz
        by (rewrite size_union, size_singleton in Hsz by set_solver; lia).
      apply subseteq_size. intros u Hu. rewrite elem_of_woken, Estk. cbn. apply elem_of_union in Hu as [->%elem_of_singleton|Hu].
      * assert (Ht' : in_P s k t = true) by (apply Hin; by constructor). apply in_P_true in Ht' as (st&?&?). by exists st.
      * apply elem_of_woken in Hu as (st&?&?&Hn). rewrite Eq in Hn. exists st. set_solver.
    + specialize (HW s' sem' Hs' Hq). enough (woken s' sem' k = woken s' sem' k') as <- by done.
      apply set_eq. intros u. by rewrite !elem_of_woken, Estk.
Qed.

Lemma handlers_Wake sigs k k' : Wake k → run_handlers sigs k = Ok k' → Wake k'.
Proof.
  unfold run_handlers. revert k. induction sigs as [|n sigs IH]; intros k HW H; cbn [foldM] in H; [by res_inv|].
  apply bind_Ok in H as (k1&H1&H). eapply IH; [|exact H]. by eapply V_body_Wake.
Qed.

Lemma V_Wake s k k' : Wake k → V s k = Ok k' → Wake k'.
Proof.
  unfold V. intros HW H. res_inv. eapply mono_Wake; [by eapply push_mono|]. eapply V_body_Wake; [|done].
  apply (mono_Wake k); [by apply mono_eq|done].
Qed.

Lemma OneTick_Wake sigs y k k' : Wake k → OneTick sigs y k = Ok k' → Wake k'.
Proof.
  unfold OneTick. intros HW H. apply bind_Ok in H as (k1&H1&H).
  assert (HW1 : Wake k1) by (eapply handlers_Wake; [|exact H1]; apply (mono_Wake k); [by apply mono_eq|exact HW]).
  eapply mono_Wake; [|exact HW1]. destruct y; res_inv; mono_chain.
Qed.

Lemma Release_Wake l k k' : Wake k → Release l k = Ok k' → Wake k'.
Proof.
  unfold Release. intros HW H. res_inv. eapply V_Wake; [|done]. eapply mono_Wake; [by eapply set_holder_mono|done].
Qed.

Lemma Signal_Wake c l k k' : Wake k → Signal c l k = Ok k' → Wake k'.
Proof.
  unfold Signal. intros HW H. res_inv. destruct (waitQueue _); res_inv; [done|]. eapply V_Wake; [|done].
  apply (mono_Wake k); [by apply mono_eq|done].
Qed.

Lemma Wait_Wake c l k k' : Wake k → Wait c l k = Ok k' → Wake k'.
Proof.
  unfold Wait. intros HW H. res_inv. eapply Release_Wake; [|done]. eapply mono_Wake; [|exact HW]. mono_chain.
  split; [|intros t st s Hs Hp; by exists st]. cbn. intros s sem [[<- <-]|[Hne Hs]]%lookup_insert_Some; [by left|by right].
Qed.

Lemma client_Wake ch k k' : Wake k → known (next_action ch) k → client ch k = Ok k' → Wake k'.
Proof.
  intros HW Hkn H. unfold client in H. destruct (next_action ch) as [n|n|l|l|c l|c l|c l|t name| | | |] eqn:Ea; cbn in Hkn;
    try (apply bind_Ok in H as (k1&Hp&H); pose proof (mono_Wake _ _ (push_mono _ _ _ Hp) HW) as HW');
    try (by eauto using V_Wake, Release_Wake, Wait_Wake, Signal_Wake, OneTick_Wake, mono_Wake with mono).
  - eapply mono_Wake; [|exact HW']. eapply Fork_mono; [|done]. unfold push, upd_thread in Hp. res_inv. cbn.
    rewrite lookup_insert_ne; [done|]. congruence.
  - by injection H as <-.
  - injection H as <-. by apply (mono_Wake k1); [apply mono_eq|].
Qed.

Lemma put_mono k i r :
  stk k !! currentThread k = Some (i :: r) → (∀ s, i ≠ AtPLoop s IntOn) → mono k (put r k).
Proof.
  intros Est Hi. split; [by right|]. intros t st s Ht Hp. erewrite stk_put_insert by done.
  destruct (decide (t = currentThread k)) as [->|Hne]; [|rewrite lookup_insert_ne by done; by exists st].
  rewrite lookup_insert_eq. exists r. split; [done|]. rewrite Est in Ht. injection Ht as <-.
  apply elem_of_cons in Hp as [Hp|Hp]; [by destruct (Hi s)|done].
Qed.

Lemma dead_put k i r t :
  Sched k → stk k !! currentThread k = Some (i :: r) → toBeDestroyed (put r k) = Some t →
  stk (put r k) !! t = Some [AfterSwitch].
Proof.
  intros HS Est Hd. destruct (sc_dead _ HS t Hd) as [Hne Et]. erewrite stk_put_insert by done. by rewrite lookup_insert_ne.
Qed.

Lemma known_put a k st r : stk k !! currentThread k = Some st → known a k → known a (put r k).
Proof.
  intros Est. destruct a; try done. cbn. intros Ht. destruct (decide (currentThread k = t)) as [<-|Hne].
  - unfold stk in Est. by rewrite lookup_fmap, Ht in Est.
  - by rewrite lookup_alter_ne.
Qed.

(** A step from a frame other than the loop of P. *)
Lemma exec_Wake i ch k k' r :
  Inv k → lawful ch k → Wake k → stk k !! currentThread k = Some (i :: r) → (∀ s old, i ≠ AtPLoop s old) →
  exec i ch (put r k) = Ok k' → Wake k'.
Proof.
  intros HI [Hkn _] HW Est Hi H.
  assert (HW1 : Wake (put r k)) by (eapply mono_Wake; [eapply put_mono; [exact Est|congruence]|done]).
  pose proof (dead_put k i r) as Hdead. specialize (λ t, Hdead t (iv_sched _ HI) Est).
  pose proof (known_put _ k _ r Est Hkn) as Hkn1. set (k1 := put r k) in *. clearbody k1. clear HW Hkn.
  destruct i; cbn [exec] in H; try done.
  - by eapply client_Wake.
  - by eapply mono_Wake; [eapply Finish_mono|].
  - unfold Begin in H. res_inv. eapply mono_Wake; [|exact HW1]. etrans; [by eapply Check_mono|]. by eapply push_mono.
  - res_inv. eapply mono_Wake; [|exact HW1]. by eapply Check_mono.
  - unfold SetLevel in H. case_match.
    + eapply OneTick_Wake; [|exact H]. by apply (mono_Wake k1); [apply mono_eq|].
    + res_inv. by apply (mono_Wake k1); [apply mono_eq|].
  - unfold sleep_loop, FindNextToRun in H. res_inv. destruct (readyList k1); res_inv.
    + eapply handlers_Wake; [|exact H]. by eapply mono_Wake; [eapply push_mono|].
    + eapply mono_Wake; [|exact HW1]. mono_chain.
  - by destruct (Hi s old).
  - by eapply mono_Wake; [eapply P_mono|].
  - by eapply mono_Wake; [eapply set_holder_mono|].
  - by eapply mono_Wake; [eapply Acquire_mono|].
  - res_inv. apply (mono_Wake k1); [|done]. split; [|intros u st s' Hu Hp; by exists st]. cbn. intros s' sem' [_ Hs]%lookup_delete_Some. by right.
  - unfold broadcast_loop in H. res_inv. destruct (waitQueue _); res_inv; [done|]. eapply Signal_Wake; [|exact H].
    by eapply mono_Wake; [eapply push_mono|].
Qed.

Lemma pending_cons s i st : i ≠ AtPLoop s IntOn → pending s (i :: st) ↔ pending s st.
Proof. intros Hi. unfold pending. rewrite elem_of_cons. naive_solver. Qed.

Section PLOOP.
Context (k k' : Kernel) (s : sid) (r : list instr) (sem : Semaphore).
Context (HW : Wake k) (Est : stk k !! currentThread k = Some (AtPLoop s IntOn :: r)) (Hr : ∀ s', ¬ pending s' r).
Context (Es : sems k !! s = Some sem) (Hcq : currentThread k ∉ queue sem).

Lemma cur_in_P : in_P s k (currentThread k) = true.
Proof. apply in_P_true. eexists. split; [exact Est|]. by constructor. Qed.

Lemma cur_only s' : in_P s' k (currentThread k) = true → s' = s.
Proof.
  rewrite in_P_true. intros (st&E&Hp). rewrite Est in E. injection E as <-.
  apply elem_of_cons in Hp as [[= ->]|Hp]; [done|by destruct (Hr s')].
Qed.

(** A thread that finds the value 0 joins the queue. *)
Lemma block_Wake :
  value sem = 0 → stk k' = <[currentThread k := AtSleepLoop false :: AtPLoop s IntOn :: r]> (stk k) →
  sems k' = <[s := mkSemaphore (value sem) (queue sem ++ [currentThread k])]> (sems k) → Wake k'.
Proof.
  intros Hv Estk Esem. destruct HW as [HQ HV].
  assert (HP : ∀ s' t, in_P s' k' t = true ↔ in_P s' k t = true).
  { intros s' t. rewrite !in_P_true, Estk. destruct (decide (t = currentThread k)) as [->|Hne]; [|by rewrite lookup_insert_ne].
    rewrite lookup_insert_eq, Est. split; intros (st&[= <-]&Hp); eexists; (split; [done|]); first [by rewrite (pending_cons _ (AtSleepLoop false)) in Hp|by rewrite (pending_cons _ (AtSleepLoop false))]. }
  split; rewrite Esem.
  - intros s' sem' [[<- <-]|[Hne Hs]]%lookup_insert_Some; cbn.
    + destruct (HQ s sem Es) as [Hnd Hin]. split; [apply NoDup_snoc; done|]. intros t Ht. apply HP.
      apply elem_of_app in Ht as [Ht| ->%list_elem_of_singleton]; [auto|apply cur_in_P].
    + destruct (HQ s' sem' Hs) as [Hnd Hin]. split; [done|]. intros t Ht. apply HP. auto.
  - intros s' sem' [[<- <-]|[Hne Hs]]%lookup_insert_Some Hq; cbn; [rewrite Hv; lia|]. specialize (HV s' sem' Hs Hq).
    enough (woken s' sem' k ⊆ woken s' sem' k') as Hsub by (apply subseteq_size in Hsub; lia).
    intros t. rewrite !elem_of_woken. intros (st&E&Hp&Hn). assert (H : in_P s' k t = true) by (apply in_P_true; by exists st).
    apply HP, in_P_true in H as (st'&?&?). by exists st'.
Qed.

(** Another one takes a unit. *)
Lemma pass_Wake :
  stk k' = <[currentThread k := AtSetLevel IntOn :: r]> (stk k) →
  sems k' = <[s := mkSemaphore (value sem - 1) (queue sem)]> (sems k) → Wake k'.
Proof.
  intros Estk Esem. destruct HW as [HQ HV].
  assert (HP : ∀ t, t ≠ currentThread k → stk k' !! t = stk k !! t).
  { intros t Hne. rewrite Estk. by apply lookup_insert_ne. }
  assert (HP' : ∀ s' t, t ≠ currentThread k → in_P s' k t = true → in_P s' k' t = true).
  { intros s' t Hne. unfold in_P. by rewrite HP. }
  split; rewrite Esem.
  - intros s' sem' [[<- <-]|[Hne Hs]]%lookup_insert_Some; cbn.
    + destruct (HQ s sem Es) as [Hnd Hin]. split; [done|]. intros t Ht. apply HP'; [congruence|auto].
    + destruct (HQ s' sem' Hs) as [Hnd Hin]. split; [done|]. intros t Ht. apply HP'; [|auto].
      intros ->. apply Hne. symmetry. apply cur_only. auto.
  - intros s' sem' [[<- <-]|[Hne Hs]]%lookup_insert_Some Hq; cbn in *.
    + specialize (HV s sem Es Hq).
      enough (woken s sem k ⊆ {[currentThread k]} ∪ woken s (mkSemaphore (value sem - 1) (queue sem)) k') as Hsub.
      { apply subseteq_size in Hsub. pose proof (size_union_alt {[currentThread k]} (woken s (mkSemaphore (value sem - 1) (queue sem)) k')) as Hsz.
        rewrite size_singleton in Hsz. pose proof (subseteq_size (woken s (mkSemaphore (value sem - 1) (queue sem)) k' ∖ {[currentThread k]})
          (woken s (mkSemaphore (value sem - 1) (queue sem)) k') ltac:(set_solver)). lia. }
      intros t Ht. apply elem_of_union. destruct (decide (t = currentThread k)) as [->|Hne]; [left; by apply elem_of_singleton|right].
      revert Ht. rewrite !elem_of_woken, HP by done. done.
    + specialize (HV s' sem' Hs Hq). enough (woken s' sem' k ⊆ woken s' sem' k') as Hsub by (apply subseteq_size in Hsub; lia).
      intros t. rewrite !elem_of_woken. intros (st&E&Hp&Hn). exists st. split; [|done]. rewrite HP; [done|]. intros ->.
      apply Hne. symmetry. apply cur_only, in_P_true. by exists st.
Qed.

Lemma P_loop_Wake : klevel k = IntOff → P_loop s IntOn (put r k) = Ok k' → Wake k'.
Proof.
  intros Hl H. unfold P_loop in H. cbn [sems put set_threads] in H. fold (put r k) in H.
  pose proof (stk_put_cur _ r k Est) as Er. pose proof (stk_put_insert _ r k Est) as Ep.
  rewrite Es in H. cbn [deref mbind res_bind] in H. destruct (Z.eqb_spec (value sem) 0) as [Hv|Hv].
  - apply bind_Ok in H as (?&_&H). rewrite (push_ok _ r) in H by exact Er. cbn [app mbind res_bind] in H. revert H. set (k1 := put _ _). intros H.
    assert (E1 : stk k1 = <[currentThread k := AtPLoop s IntOn :: r]> (stk k)).
    { unfold k1. erewrite stk_put_insert by exact Er. change (stk (set_sems _ (put r k))) with (stk (put r k)). rewrite Ep. apply insert_insert_eq. }
    destruct (Sleep_ok false k1 (AtPLoop s IntOn :: r)) as (ths&E&Eths); [done|rewrite E1; apply lookup_insert_eq|].
    rewrite E in H. injection H as Hk'. apply block_Wake; [done| |rewrite <- Hk'; cbn; by rewrite Hv]. rewrite E1 in Eths. rewrite <- Hk'.
    transitivity (stack <$> ths); [done|]. rewrite Eths. apply insert_insert_eq.
  - rewrite (push_ok _ r) in H by exact Er. injection H as Hk'. apply pass_Wake; rewrite <- Hk'; [|done].
    erewrite stk_put_insert by exact Er. change (stk (set_sems _ (put r k))) with (stk (put r k)). rewrite Ep. apply insert_insert_eq.
Qed.
End PLOOP.

Lemma ploop_quiet s r : ploop s r → ∀ s', ¬ pending s' r.
Proof. intros [] s'; unfold pending, base; set_solver. Qed.

Lemma step_Wake ch k k' : Inv k → lawful ch k → Wake k → step ch k = Ok k' → Wake k'.
Proof.
  intros HI Hlaw HW H. pose proof HI as [(st&b&Est&Hcs&Hd) HS HY].
  destruct st as [|i r]; [by inversion Hcs as [? X|? X| | |? X]; inversion X|]. rewrite (step_eq ch k i r Est) in H.
  assert (Hi : (∀ s old, i ≠ AtPLoop s old) ∨ ∃ s, i = AtPLoop s IntOn ∧ ploop s r ∧ klevel k = IntOff).
  { remember (klevel k) as lv. inversion Hcs as [? X|? X| | |? X]; subst; try (by left); inversion X; subst; try (by left); right; by eexists. }
  destruct Hi as [Hi|(s&->&Hp&Hl)]; [by eapply exec_Wake|].
  pose proof (sy_objs _ HY _ _ Est) as HO. apply Forall_cons in HO as [Hok _]. cbn in Hok. destruct Hok as [sem Es].
  apply (P_loop_Wake k k' s r sem); try done; [by eapply ploop_quiet|].
  eapply cur_not_queued; [done..|by apply cons_not_sleeping|done].
Qed.

Lemma reach_Wake k0 k : Inv k0 → Wake k0 → reach k0 k → Wake k.
Proof.
  intros HI HW Hr. induction Hr as [|k ch k' Hr IH Hlaw Hs]; [done|]. eapply step_Wake; [by eapply reach_Inv|done..].
Qed.

Lemma boot_Wake values ls cs : Wake (boot values ls cs).
Proof.
  split; intros s sem H; apply boot_sems in H as [-> _]; [|done]. split; [apply NoDup_nil_2|]. intros t Ht. by apply not_elem_of_nil in Ht.
Qed.

(** A woken thread is ready or running. *)
Lemma woken_runnable s sem k t :
  Inv k → sems k !! s = Some sem → t ∈ woken s sem k →
  t ∉ queue sem ∧ (t = currentThread k ∨ t ∈ readyList k)
  ∧ ∃ st, stack <$> threads k !! t = Some st ∧ AtPLoop s IntOn ∈ st.
Proof.
  intros HI Es Ht. pose proof (iv_sched _ HI) as HS. apply elem_of_woken in Ht as (st&E&Hp&Hn). split; [done|].
  split; [|exists st; unfold stk in E; by rewrite lookup_fmap in E].
  destruct (decide (t = currentThread k)) as [?|Hne]; [by left|right].
  destruct (sc_all _ HS t st E) as [Hd|[?|(s'&sem'&Es'&Hq)]]; [by left| |done|].
  - destruct (sc_dead _ HS t Hd) as [_ E']. rewrite E in E'. injection E' as ->. unfold pending in Hp. set_solver.
  - destruct (sc_queue _ HS s' sem' t Es' Hq) as (_&st'&E'&Hb). rewrite decide_False in Hb by done. simplify_eq.
    destruct Hb as (r&Hr&->). apply pending_cons in Hp; [|done]. destruct (decide (s' = s)) as [->|Hs]; [by simplify_eq|].
    apply pending_cons in Hp; [by destruct (ploop_quiet _ _ Hr s)|congruence].
Qed.

Lemma idle_no_woken s sem k th f r :
  Inv k → sems k !! s = Some sem → threads k !! currentThread k = Some th → stack th = AtSleepLoop f :: r →
  readyList k = [] → woken s sem k = ∅.
Proof.
  intros HI Es Eth Er Hrd. apply set_eq. intros t. split; [|set_solver]. intros Ht. exfalso.
  destruct (woken_runnable s sem k t HI Es Ht) as (Hn&Hor&st&E&Hp). rewrite Hrd in Hor.
  assert (t = currentThread k) as -> by set_solver. rewrite Eth in E. cbn in E. rewrite Er in E. injection E as <-.
  pose proof HI as [(st&b&Est&Hcs&_) HS _]. assert (Est' : st = AtSleepLoop f :: r).
  { unfold stk in Est. rewrite lookup_fmap, Eth in Est. cbn in Est. congruence. }
  subst st. inversion Hcs as [? X|? X|s' r' Hp'| |? X]; subst; try (by inversion X); [|set_solver].
  assert (Hsl : sleeping (AtSleepLoop false :: AtPLoop s' IntOn :: r')) by (by exists s', r').
  destruct (sc_all _ HS _ _ Est) as [Hd|[Hin|(s2&sem2&Es2&Hq)]]; [by right| | |].
  - by destruct (sc_dead _ HS _ Hd).
  - rewrite Hrd in Hin. by apply not_elem_of_nil in Hin.
  - destruct (sc_queue _ HS s2 sem2 _ Es2 Hq) as (_&st'&E'&Hb). rewrite decide_True in Hb by done. simplify_eq.
    destruct Hb as (r2&_&[= <- <-]). apply (pending_cons s) in Hp; [|done].
    destruct (decide (s' = s)) as [->|Hs]; [by simplify_eq|]. apply pending_cons in Hp; [by destruct (ploop_quiet _ _ Hp' s)|congruence].
Qed.

(** ** Properties *)

#[export] Instance known_dec a k : Decision (known a k).
Proof. destruct a; cbn; apply _. Defined.
#[export] Instance lawful_dec ch k : Decision (lawful ch k).
Proof. unfold lawful. apply _. Defined.

(** Runs with given choices, to name states in examples. *)
Fixpoint run (chs : list choice) (k : Kernel) : option Kernel :=
  match chs with
  | [] => Some k
  | ch :: chs =>
    if decide (lawful ch k) then match step ch k with Ok k' => run chs k' | Err _ => None end else None
  end.

Lemma reach_run chs k0 k k' : reach k0 k → run chs k = Some k' → reach k0 k'.
Proof.
  revert k. induction chs as [|ch chs IH]; cbn; intros k Hr H; [by simplify_eq|]. case_decide; [|done].
  destruct (step ch k) as [k1|] eqn:E; [|done]. eapply IH; [|done]. by eapply reach_step.
Qed.

(** C11 (invariant): from the start of the kernel on, whatever the clients call, whichever
    devices interrupt and whenever the timer asks for a context switch, as long
    as the named objects exist the state satisfies [Inv] (each thread is the
    current one, once in the ready list, in one semaphore's queue or to be
    destroyed; stacks are well formed; locks and conditions agree with the
    threads' positions) and the next step is defined: every ASSERT of
    thread.cc, scheduler.cc, synch.cc and list.cc holds and no pointer to a
    thread, semaphore, lock or condition dangles.  The exceptions are clients
    that release, wait, signal or broadcast with a lock they do not hold, or create
    a thread with a name of more than 31 characters: there the step fails with
    the assertion; and a thread that has written over the end of its stack,
    which fails the assertion of CheckOverflow in its next call of
    Scheduler::Run, and nowhere else. *)
Theorem kernel_invariant values ls cs k ch :
  map_Forall (λ _ v, 0 ≤ v) values → reach (boot values ls cs) k → lawful ch k →
  Inv k
  ∧ (if misuse ch k then step ch k = Err AssertFailed
     else (∃ k', step ch k = Ok k' ∧ Inv k')
          ∨ (fence k !! currentThread k = Some false ∧ step ch k = Err AssertFailed))
  ∧ (fence k !! currentThread k = Some false → ∀ nextThread finishing, Run nextThread finishing k = Err AssertFailed).
Proof.
  intros Hv Hr Hlaw. pose proof (reach_Inv _ _ (boot_Inv values ls cs Hv) Hr) as HI. split; [done|].
  split; [by apply step_ok|]. intros Ho n f. by apply Run_overflowed.
Qed.

(** A thread is in the critical section of a lock when its P on the lock's
    semaphore went through and it has not called Release since. *)
Definition in_section (l t : nat) (k : Kernel) : Prop :=
  (∃ lk, locks k !! l = Some lk ∧ lockHolder lk = Some t)
  ∨ (∃ st, stack <$> threads k !! t = Some st ∧ taking l st).

(** C12 (safety): at most one thread is in the critical section of a lock, in every
    reachable state, also between P and the assignment of lockHolder and while
    the lock's semaphore changes hands; the semaphore is 0 exactly when there is
    one and 1 otherwise. *)
Theorem lock_mutual_exclusion values ls cs k l lk :
  map_Forall (λ _ v, 0 ≤ v) values → reach (boot values ls cs) k → locks k !! l = Some lk →
  (∀ t t', in_section l t k → in_section l t' k → t = t')
  ∧ ∃ sem, sems k !! semaphore lk = Some sem
      ∧ ((value sem = 0 ∧ ∃ t, in_section l t k) ∨ (value sem = 1 ∧ ∀ t, ¬ in_section l t k)).
Proof.
  intros Hv Hr Elk. pose proof (reach_Inv _ _ (boot_Inv values ls cs Hv) Hr) as [_ _ HY].
  destruct (sy_locks _ HY) as [o Ho]. destruct (Ho l lk Elk) as [L1 (sem&Es&Hval) L3 L4 L5].
  assert (Hin : ∀ t, in_section l t k → o !! l = Some t).
  { intros t [(lk'&E&Hh)|(st&E&Ht)]; [simplify_eq; by apply L4|]. apply (L3 t st); [|done]. unfold stk. by rewrite lookup_fmap. }
  split; [intros t t' H1%Hin H2%Hin; congruence|]. exists sem. rewrite L1. split; [done|].
  destruct (o !! l) as [t|] eqn:Eo; [left|right; split; [done|]; by intros t H%Hin]. split; [done|]. exists t.
  destruct (lockHolder lk) as [t'|] eqn:Eh; [left; exists lk; specialize (L4 t' eq_refl); by simplify_eq|].
  destruct (L5 t eq_refl eq_refl) as (st&E&Ht). right. exists st. unfold stk in E. by rewrite lookup_fmap in E.
Qed.

(** C13 (liveness): no wakeup is lost.  While threads wait in the queue of a semaphore with
    value v, at least v other threads have been woken and will try P again: they
    are ready or running, behind the queue.  So when the machine idles (no
    thread is ready and the current one is in the loop of Sleep), threads wait
    only for semaphores with value 0. *)
Theorem no_lost_wakeup values ls cs k s sem :
  map_Forall (λ _ v, 0 ≤ v) values → reach (boot values ls cs) k → sems k !! s = Some sem → queue sem ≠ [] →
  (∃ ts, NoDup ts ∧ value sem ≤ Z.of_nat (length ts)
     ∧ ∀ t, t ∈ ts → t ∉ queue sem ∧ (t = currentThread k ∨ t ∈ readyList k)
         ∧ ∃ st, stack <$> threads k !! t = Some st ∧ AtPLoop s IntOn ∈ st)
  ∧ (∀ th f r, threads k !! currentThread k = Some th → stack th = AtSleepLoop f :: r → readyList k = [] → value sem = 0).
Proof.
  intros Hv Hr Es Hq. pose proof (boot_Inv values ls cs Hv) as HI0. pose proof (reach_Inv _ _ HI0 Hr) as HI.
  pose proof (wk_value _ (reach_Wake _ _ HI0 (boot_Wake _ _ _) Hr) s sem Es Hq) as HW.
  assert (Hts : ∀ t, t ∈ woken s sem k → t ∉ queue sem ∧ (t = currentThread k ∨ t ∈ readyList k)
         ∧ ∃ st, stack <$> threads k !! t = Some st ∧ AtPLoop s IntOn ∈ st) by (intros t; by apply woken_runnable).
  split.
  - exists (elements (woken s sem k)). split; [apply NoDup_elements|]. split; [done|]. intros t Ht%elem_of_elements. auto.
  - intros th f r Eth Er Hrd. enough (woken s sem k = ∅) as Hempty.
    { rewrite Hempty, size_empty in HW. destruct (sc_qnodup _ (iv_sched _ HI) s sem Es). lia. }
    by eapply idle_no_woken.
Qed.

(** ** Witnesses: the main thread forks thread 1, takes lock 0 and waits for
    semaphore 0. *)

Definition start : Kernel := boot {[0%nat := 0]} {[0%nat]} {[0%nat]}.
Definition does (a : action) : choice := mkChoice a [] false.
Definition plan : list choice :=
  [does (DoFork 1%nat [112]); does DoTick; does (DoAcquire 0%nat); does DoTick; does DoTick; does DoTick;
   does (DoP 0%nat); does DoTick].

Lemma start_values : map_Forall (λ _ v, 0 ≤ v) ({[0%nat := 0]} : gmap nat Z).
Proof. apply map_Forall_singleton. reflexivity. Qed.

Lemma kernel_invariant_witness :
  ∃ k, run (take 3 plan) start = Some k ∧ lawful (does (DoRelease 0%nat)) k ∧ Inv k
    ∧ misuse (does (DoRelease 0%nat)) k = false.
Proof.
  eexists. split; [vm_compute; reflexivity|].
  split; [by apply (bool_decide_unpack _)|]. split; [|reflexivity].
  refine (proj1 (kernel_invariant {[0%nat := 0]} {[0%nat]} {[0%nat]} _ (does (DoRelease 0%nat)) start_values _ _));
    [|by apply (bool_decide_unpack _)].
  apply (reach_run (take 3 plan) start start); [constructor|vm_compute; reflexivity].
Defined.

Lemma lock_mutual_exclusion_witness :
  ∃ k, run (take 6 plan) start = Some k ∧ in_section 0 0 k ∧ ¬ in_section 0 1 k.
Proof.
  eexists. split; [vm_compute; reflexivity|].
  assert (H : in_section 0 0 (default start (run (take 6 plan) start))).
  { left. eexists. split; vm_compute; reflexivity. }
  split; [exact H|]. intros H1.
  assert (H01 : 0%nat = 1%nat); [|done].
  eapply (lock_mutual_exclusion {[0%nat := 0]} {[0%nat]} {[0%nat]} _ 0 (mkLock (Some 0%nat) (SLock 0)) start_values); [| |exact H|exact H1].
  - apply (reach_run (take 6 plan) start start); [constructor|vm_compute; reflexivity].
  - vm_compute; reflexivity.
Defined.

Lemma no_lost_wakeup_witness :
  ∃ k sem, run plan start = Some k ∧ sems k !! SClient 0 = Some sem ∧ queue sem = [0%nat] ∧ value sem ≤ 0.
Proof.
  eexists _, (mkSemaphore 0 [0%nat]). split; [vm_compute; reflexivity|]. split; [vm_compute; reflexivity|]. split; [reflexivity|].
  assert (H : value (mkSemaphore 0 [0%nat]) ≤ 0); [|exact H].
  destruct (no_lost_wakeup {[0%nat := 0]} {[0%nat]} {[0%nat]} (default start (run plan start)) (SClient 0) (mkSemaphore 0 [0%nat]) start_values)
    as [(ts&Hnd&Hle&Hts) _].
  - apply (reach_run plan start start); [constructor|vm_compute; reflexivity].
  - vm_compute; reflexivity.
  - done.
  - destruct ts as [|t ts]; [exact Hle|reflexivity].
Defined.
End SynchThms.
