(* ===== verification/AddrSpace.v ===== *)
(** userprog/addrspace.{h,cc} and userprog/noff.h: the address spaces of user
    programs, from the NOFF header of an executable to its pages in memory.

    The executable is a file of the host (FILESYS_STUB, filesys/openfile.h): a
    list of bytes.  Bytes and words of the stack that the code reads without
    having written them are arguments ([garbage]).  The semaphore addrLock around
    the loops is in the thread system: it makes each loop one step of the kernel.
    The page table of the running program is the one the machine holds
    (RestoreState shares the pointer), so the machine's use and dirty bits are
    those of the address space; the theorems are up to these bits.

    The constructor without arguments and Load of a file name, which assume a single
    program in memory, are in Uniprog.v. *)

From S2P Require Import Prelude BitmapLib Machine Mips.

Module AddrSpace.
Export Machine.
Import Bitmap.

(** ** noff.h *)

Definition NOFFMAGIC : Z := 12245933.     (* 0xbadfad *)

Record Segment := mkSegment { virtualAddr : Z; inFileAddr : Z; size : Z }.

#[global] Instance Segment_eq_dec : EqDecision Segment.
Proof. solve_decision. Defined.

Record NoffHeader := mkNoffHeader {
  noffMagic : Z; code : Segment; initData : Segment; readonlyData : Segment; uninitData : Segment
}.

(** sizeof(NoffHeader): 13 [int]s. *)
Definition sizeof_NoffHeader : Z := 52.

Definition decode_header (bytes : list Z) : res NoffHeader :=
  match words_decode 13 bytes with
  | [magic; c1; c2; c3; i1; i2; i3; r1; r2; r3; u1; u2; u3] =>
    Ok (mkNoffHeader magic (mkSegment c1 c2 c3) (mkSegment i1 i2 i3) (mkSegment r1 r2 r3) (mkSegment u1 u2 u3))
  | _ => Err BadAccess
  end.

(** ** The open executable *)

(** OpenFile::ReadAt of the stub file system: the bytes that are there. *)
Definition ReadAt (file : list Z) (numBytes position : Z) : res (list Z) :=
  ASSERT (0 <=? position) ;;
  Ok (slice file position numBytes).

(** Bytes stored into main memory by the host. *)
Definition store_bytes (mem : list Z) (a : Z) (data : list Z) : res (list Z) :=
  if (0 <=? a) && (a + Z.of_nat (length data) <=? Z.of_nat (length mem)) then Ok (splice mem a data)
  else Err BadAccess.

(** ** addrspace.cc *)

Definition UserStackSize : Z := 1024.

Record AddrSpace := mkAddrSpace { pageTable : list TranslationEntry; numPages : Z }.

(** The part of the kernel that address spaces share. *)
Record Frames := mkFrames { mainMemory : list Z; gPhysPageBitMap : Bitmap }.

Definition set_memory (mem : list Z) (w : Frames) : Frames := mkFrames mem (gPhysPageBitMap w).

Definition swap_segment (s : Segment) : Segment :=
  mkSegment (WordToHost (virtualAddr s)) (WordToHost (inFileAddr s)) (WordToHost (size s)).

Definition SwapHeader (h : NoffHeader) : NoffHeader :=
  mkNoffHeader (WordToHost (noffMagic h)) (swap_segment (code h)) (swap_segment (initData h))
    (swap_segment (readonlyData h)) (swap_segment (uninitData h)).

(** The header of the executable, as the constructor and Load read it. *)
Definition read_header (executable : option (list Z)) (garbage : list Z) : res NoffHeader :=
  file ← deref executable;
  data ← ReadAt file sizeof_NoffHeader 0;
  noffH ← decode_header (data ++ drop (length data) garbage);
  let noffH := if negb (noffMagic noffH =? NOFFMAGIC) && (WordToHost (noffMagic noffH) =? NOFFMAGIC)
               then SwapHeader noffH else noffH in
  ASSERT (noffMagic noffH =? NOFFMAGIC) ;;
  Ok noffH.

(** One page of the constructor's first loop. *)
Definition map_page (i : Z) (s : list TranslationEntry * Bitmap) : res (list TranslationEntry * Bitmap) :=
  let '(pt, bm) := s in
  '(temp, bm) ← FindAndSet bm;
  ASSERT (negb (temp =? -1)) ;;
  Ok (pt ++ [mkEntry i temp true false false false], bm).

(** One page of its second loop. *)
Definition zero_page (pt : list TranslationEntry) (i : Z) (mem : list Z) : res (list Z) :=
  e ← aget pt i;
  store_bytes mem (physicalPage e * PageSize) (replicate (Z.to_nat PageSize) 0).

Definition space_size (noffH : NoffHeader) : Z :=
  u32 (size (code noffH) + size (readonlyData noffH) + size (initData noffH) + size (uninitData noffH)
       + UserStackSize).

Definition new_AddrSpace (executable : option (list Z)) (garbage : list Z) (w : Frames) : res (AddrSpace * Frames) :=
  ASSERT (negb (bool_decide (executable = None))) ;;
  noffH ← read_header executable garbage;
  let numPages := divRoundUp (space_size noffH) PageSize in
  '(pt, bm) ← for_up (Z.to_nat numPages) 0 map_page ([], gPhysPageBitMap w);
  mem ← for_up (Z.to_nat numPages) 0 (zero_page pt) (mainMemory w);
  Ok (mkAddrSpace pt numPages, mkFrames mem bm).

(** The destructor. *)
Definition delete_AddrSpace (sp : AddrSpace) (w : Frames) : res Frames :=
  bm ← for_up (Z.to_nat (numPages sp)) 0
         (λ i bm, e ← aget (pageTable sp) i; Clear (physicalPage e) bm) (gPhysPageBitMap w);
  Ok (mkFrames (mainMemory w) bm).

Definition ATranslate (vaddr : Z) (isReadWrite : bool) (sp : AddrSpace) : res ((ExceptionType + Z) * AddrSpace) :=
  let vpn := u32 vaddr / PageSize in
  let offset := u32 vaddr mod PageSize in
  if numPages sp <=? vpn then Ok (inl AddressErrorException, sp)
  else
    pte ← aget (pageTable sp) vpn;
    if isReadWrite && readOnly pte then Ok (inl ReadOnlyException, sp)
    else
      let pfn := physicalPage pte in
      if NumPhysPages <=? pfn then Ok (inl BusErrorException, sp)
      else
        let pte := mkEntry (virtualPage pte) (physicalPage pte) (valid pte) (readOnly pte) true
                           (if isReadWrite then true else dirty pte) in
        pt ← aset (pageTable sp) vpn pte;
        let paddr := u32 (pfn * PageSize + offset) in
        ASSERT (paddr <? MemorySize) ;;
        Ok (inr paddr, mkAddrSpace pt (numPages sp)).

(** One round of LoadIntoMemory: the result of Translate is not looked at, and
    [translatedAddr] keeps its value when there is none. *)
Definition load_page (executable : list Z) (startAddr vaddr : Z) (i : Z) (s : Z * AddrSpace * list Z)
  : res (Z * AddrSpace * list Z) :=
  let '(translatedAddr, sp, mem) := s in
  '(r, sp) ← ATranslate (s32 (vaddr + i * PageSize)) true sp;
  let translatedAddr := match r with inr paddr => paddr | inl _ => translatedAddr end in
  data ← ReadAt executable PageSize (s32 (startAddr + i * PageSize));
  mem ← store_bytes mem translatedAddr data;
  Ok (translatedAddr, sp, mem).

Definition LoadIntoMemory (executable : list Z) (startAddr size vaddr garbage : Z) (sp : AddrSpace) (mem : list Z)
  : res (AddrSpace * list Z) :=
  let pageCount := divRoundUp size PageSize in
  '(_, sp, mem) ← for_up (Z.to_nat pageCount) 0 (load_page executable startAddr vaddr) (garbage, sp, mem);
  Ok (sp, mem).

Definition load_segment (executable : list Z) (garbage : Z) (seg : Segment) (sp : AddrSpace) (mem : list Z)
  : res (AddrSpace * list Z) :=
  if 0 <? size seg then LoadIntoMemory executable (inFileAddr seg) (size seg) (virtualAddr seg) garbage sp mem
  else Ok (sp, mem).

Definition Load (executable : option (list Z)) (hgarbage : list Z) (garbage : Z) (sp : AddrSpace) (w : Frames)
  : res (bool * AddrSpace * Frames) :=
  ASSERT (numPages sp <=? NumPhysPages) ;;
  ASSERT (negb (bool_decide (executable = None))) ;;
  noffH ← read_header executable hgarbage;
  file ← deref executable;
  '(sp, mem) ← load_segment file garbage (code noffH) sp (mainMemory w);
  '(sp, mem) ← load_segment file garbage (initData noffH) sp mem;
  '(sp, mem) ← load_segment file garbage (readonlyData noffH) sp mem;
  Ok (true, sp, set_memory mem w).

(** The registers of a program that starts. *)
Fixpoint clear_registers (k : nat) (i : Z) : M unit :=
  match k with
  | O => mret tt
  | S k => WriteRegister i 0 ;; clear_registers k (i + 1)
  end.

Definition InitRegisters (sp : AddrSpace) : M unit :=
  clear_registers (Z.to_nat NumTotalRegs) 0 ;;
  WriteRegister PCReg 0 ;;
  WriteRegister NextPCReg 4 ;;
  WriteRegister StackReg (s32 (numPages sp * PageSize - 16)).

Definition SaveState : M unit := mret tt.

Definition RestoreState (sp : AddrSpace) : M unit :=
  modify (λ m, mkMachine (registers m) (Machine.mainMemory m) (tlb m) (Some (pageTable sp)) (numPages sp)).

(** Execute, up to the call of Machine::Run. *)
Definition Execute (sp : AddrSpace) : M unit :=
  InitRegisters sp ;; RestoreState sp.
End AddrSpace.

Module AddrSpaceSpec.
Import AddrSpace MachineSpec Bitmap BitmapSpec.
Implicit Types (sp : AddrSpace) (w : Frames) (mem : list Z) (pt : list TranslationEntry) (bm : Bitmap).

(** ** Who owns which frame *)

Definition frames sp : list Z := physicalPage <$> pageTable sp.

Record SpaceOk sp : Prop := {
  so_pages : numPages sp = Z.of_nat (length (pageTable sp));
  so_entry (i : nat) e : pageTable sp !! i = Some e →
    virtualPage e = Z.of_nat i ∧ valid e = true ∧ readOnly e = false ∧ 0 ≤ physicalPage e < NumPhysPages;
  so_nodup : NoDup (frames sp)
}.

(** The frames of all address spaces are distinct, and the marked ones. *)
Record Owned w (sps : list AddrSpace) : Prop := {
  ow_len : Z.of_nat (length (mainMemory w)) = MemorySize;
  ow_bytes : bytes (mainMemory w);
  ow_spaces : Forall SpaceOk sps;
  ow_nodup : NoDup (concat (frames <$> sps));
  ow_marked : Marked (gPhysPageBitMap w) NumPhysPages (list_to_set (concat (frames <$> sps)))
}.

(** The byte at a virtual address. *)
Definition view sp mem (va : Z) : option Z :=
  e ← pageTable sp !! Z.to_nat (va / PageSize);
  mem !! Z.to_nat (physicalPage e * PageSize + va mod PageSize).

(** Main memory outside some frames is the same. *)
Definition same_outside (fs : list Z) mem mem' : Prop :=
  ∀ a, 0 ≤ a → a / PageSize ∉ fs → mem' !! Z.to_nat a = mem !! Z.to_nat a.

#[global] Instance same_outside_refl fs : Reflexive (same_outside fs).
Proof. by intros mem a. Qed.
#[global] Instance same_outside_trans fs : Transitive (same_outside fs).
Proof. intros m1 m2 m3 H1 H2 a Ha Hn. by rewrite H2, H1. Qed.

Lemma zero_bytes n : bytes (replicate n 0).
Proof. apply Forall_replicate. split; [lia|reflexivity]. Qed.

Lemma start_Owned bm : Marked bm NumPhysPages ∅ → Owned (mkFrames (replicate (Z.to_nat MemorySize) 0) bm) [].
Proof.
  intros HM. split; [|apply zero_bytes|constructor|apply NoDup_nil_2|exact HM].
  cbn [mainMemory]. rewrite length_replicate. by apply Z2Nat.id.
Qed.

(** ** The constructor *)

Lemma map_pages_ok n i pt bm (s : gset Z) :
  Marked bm NumPhysPages s →
  if decide (Z.of_nat n ≤ NumPhysPages - Z.of_nat (base.size s)) then
    ∃ pt' bm', for_up n i map_page (pt, bm) = Ok (pt ++ pt', bm') ∧ length pt' = n
      ∧ NoDup (physicalPage <$> pt') ∧ (∀ p, p ∈ physicalPage <$> pt' → p ∉ s ∧ 0 ≤ p < NumPhysPages)
      ∧ (∀ (j : nat) e, pt' !! j = Some e → e = mkEntry (i + Z.of_nat j) (physicalPage e) true false false false)
      ∧ Marked bm' NumPhysPages (list_to_set (physicalPage <$> pt') ∪ s)
  else for_up n i map_page (pt, bm) = Err AssertFailed.
Proof.
  revert i pt bm s. induction n as [|n IH]; intros i pt bm s HM.
  { rewrite decide_True by (pose proof (Marked_size _ _ _ HM); lia). exists [], bm. cbn [for_up]. rewrite app_nil_r.
    split_and!; try done; [apply NoDup_nil_2|set_solver|]. replace (_ ∪ s) with s by set_solver. done. }
  cbn [for_up]. unfold map_page at 2 4. destruct (FindAndSet_spec bm NumPhysPages s HM) as (r&bm1&->&H). cbn [mbind res_bind].
  destruct H as [(->&->&Hall)|(Hr&Hni&_&HM1)].
  { apply full_set_size in Hall. rewrite decide_False by lia. done. }
  rewrite (proj2 (Z.eqb_neq r (-1))) by lia. cbn [negb ASSERT mbind res_bind].
  specialize (IH (i + 1) (pt ++ [mkEntry i r true false false false]) bm1 ({[r]} ∪ s) HM1).
  rewrite size_union, size_singleton in IH by set_solver.
  destruct (decide (Z.of_nat (S n) ≤ _)) as [Hle|Hgt].
  - rewrite decide_True in IH by lia. destruct IH as (pt'&bm'&->&Hlen&Hnd&Hin&He&HM').
    exists (mkEntry i r true false false false :: pt'), bm'. rewrite <- app_assoc. split; [done|]. cbn [length]. split; [lia|].
    rewrite fmap_cons. cbn [physicalPage]. split; [|split; [|split]].
    + constructor; [|done]. intros Hc. destruct (Hin r Hc). set_solver.
    + intros p [->|Hp]%elem_of_cons; [done|]. destruct (Hin p Hp). set_solver.
    + intros [|j] e Hj; [injection Hj as <-; cbn; by rewrite Z.add_0_r|]. rewrite (He j e Hj) at 1. f_equal. lia.
    + replace (list_to_set (r :: (physicalPage <$> pt')) ∪ s) with (list_to_set (physicalPage <$> pt') ∪ ({[r]} ∪ s)) by set_solver. done.
  - rewrite decide_False in IH by lia. done.
Qed.

Lemma frame_range e : 0 ≤ physicalPage e < NumPhysPages →
  0 ≤ physicalPage e * PageSize ∧ physicalPage e * PageSize + PageSize ≤ MemorySize.
Proof. unfold MemorySize, NumPhysPages, PageSize. lia. Qed.

(** Bytes stored inside one frame. *)
Lemma store_bytes_ok mem (a : Z) data :
  0 ≤ a → a + Z.of_nat (length data) ≤ Z.of_nat (length mem) →
  store_bytes mem a data = Ok (splice mem a data).
Proof.
  intros Ha Hl. unfold store_bytes. by rewrite (proj2 (Z.leb_le 0 a)), (proj2 (Z.leb_le _ _)) by lia.
Qed.

Lemma zero_pages_ok pt mem :
  (∀ (i : nat) e, pt !! i = Some e → 0 ≤ physicalPage e < NumPhysPages) → Z.of_nat (length mem) = MemorySize → bytes mem →
  ∃ mem', for_up (length pt) 0 (zero_page pt) mem = Ok mem' ∧ length mem' = length mem ∧ bytes mem'
    ∧ same_outside (physicalPage <$> pt) mem mem'
    ∧ ∀ (i : nat) e (o : Z), pt !! i = Some e → 0 ≤ o < PageSize → mem' !! Z.to_nat (physicalPage e * PageSize + o) = Some 0.
Proof.
  intros Hpt Hlen Hb.
  destruct (for_up_inv (λ k mem', length mem' = length mem ∧ bytes mem' ∧ same_outside (physicalPage <$> pt) mem mem'
    ∧ ∀ (i : nat) e (o : Z), Z.of_nat i < k → pt !! i = Some e → 0 ≤ o < PageSize → mem' !! Z.to_nat (physicalPage e * PageSize + o) = Some 0)
    (zero_page pt) (length pt) 0 mem) as (mem'&->&Hl&Hb'&Hs&Hz).
  - split_and!; try done. intros; lia.
  - intros k mem1 Hk (Hl&Hb1&Hs&Hz). unfold zero_page. destruct (aget_ex pt k) as [e He]; [lia|]. rewrite He. cbn [mbind res_bind].
    apply aget_Ok in He as [_ He]. pose proof (frame_range e (Hpt _ _ He)) as [Hf0 Hf1].
    assert (Hrl : Z.of_nat (length (replicate (Z.to_nat PageSize) 0)) = PageSize) by (by rewrite length_replicate).
    rewrite store_bytes_ok by lia. eexists. split; [done|]. split_and!.
    + rewrite length_splice; lia.
    + apply splice_Forall; [done|]. apply Forall_replicate. unfold is_byte. lia.
    + etrans; [exact Hs|]. intros a Ha Hn. rewrite lookup_splice by lia. rewrite decide_False; [done|]. rewrite Hrl. intros Hin.
      apply Hn. apply list_elem_of_fmap. exists e. split; [|by eapply list_elem_of_lookup_2].
      unfold PageSize in *. dlia.
    + intros i e' o Hi He' Ho. rewrite lookup_splice by lia. rewrite Hrl.
      pose proof (frame_range e' (Hpt _ _ He')) as [Hg0 Hg1].
      case_decide as Hin.
      * rewrite lookup_replicate_2; [done|]. unfold PageSize in *. lia.
      * apply (Hz i e' o); [|done..]. destruct (decide (Z.of_nat i = k)) as [E|]; [|lia]. exfalso. apply Hin.
        replace (Z.to_nat k) with i in He by lia. rewrite He in He'. injection He' as <-. unfold PageSize in *. lia.
  - exists mem'. split_and!; try done. intros i e o Hi Ho. apply (Hz i e o); [|done..]. apply lookup_lt_Some in Hi. lia.
Qed.

Lemma Owned_frames w sps sp : Owned w sps → sp ∈ sps → SpaceOk sp.
Proof. intros HO Hin. exact (proj1 (Forall_forall _ _) (ow_spaces _ _ HO) sp Hin). Qed.

Lemma frames_range sp f : SpaceOk sp → f ∈ frames sp → 0 ≤ f < NumPhysPages.
Proof.
  intros HS (e&->&He)%list_elem_of_fmap. apply list_elem_of_lookup in He as [i Hi]. by apply (so_entry _ HS i e).
Qed.

Lemma new_AddrSpace_ok file g w sps h :
  Owned w sps → read_header (Some file) g = Ok h →
  let n := divRoundUp (space_size h) PageSize in
  if decide (n ≤ NumPhysPages - Z.of_nat (length (concat (frames <$> sps)))) then
    ∃ sp w', new_AddrSpace (Some file) g w = Ok (sp, w') ∧ Owned w' (sp :: sps) ∧ numPages sp = n
      ∧ same_outside (frames sp) (mainMemory w) (mainMemory w')
      ∧ ∀ va, 0 ≤ va < n * PageSize → view sp (mainMemory w') va = Some 0
  else new_AddrSpace (Some file) g w = Err AssertFailed.
Proof.
  intros [Hlen Hb Hsp Hnd HM] Hh n. unfold new_AddrSpace. rewrite bool_decide_false by done. cbn [negb ASSERT mbind res_bind].
  rewrite Hh. cbn [mbind res_bind]. fold n.
  assert (Hn : 0 ≤ n) by (apply divRoundUp_nonneg; [apply u32_range|done]).
  pose proof (map_pages_ok (Z.to_nat n) 0 [] (gPhysPageBitMap w) _ HM) as Hmap.
  rewrite size_list_to_set, Z2Nat.id in Hmap by done.
  case_decide as Hle; [|by rewrite Hmap]. destruct Hmap as (pt&bm&->&Hl&Hnd'&Hin&He&HM'). cbn [app mbind res_bind].
  assert (Hpt : ∀ (i : nat) e, pt !! i = Some e → 0 ≤ physicalPage e < NumPhysPages).
  { intros i e Hi. apply Hin. apply list_elem_of_fmap. exists e. split; [done|]. by eapply list_elem_of_lookup_2. }
  destruct (zero_pages_ok pt (mainMemory w) Hpt Hlen Hb) as (mem&E&Hl'&Hb'&Hs&Hz). rewrite <- Hl, E. cbn [mbind res_bind].
  eexists (mkAddrSpace pt n), _. split; [done|]. split; [|split; [done|split; [exact Hs|]]].
  - assert (HS : SpaceOk (mkAddrSpace pt n)).
    { split; cbn; [lia| |done]. intros i e Hi. rewrite (He i e Hi). cbn. split_and!; try done; by apply (Hpt i e). }
    split; cbn -[frames]; [lia|done|by constructor| |].
    + apply NoDup_app. split; [exact Hnd'|]. split; [|done]. intros f Hf Hc. destruct (Hin f Hf) as [Hn' _]. apply Hn'. by apply elem_of_list_to_set.
    + by rewrite list_to_set_app_L.
  - cbn. intros va Hva. unfold view. cbn [pageTable mainMemory].
    destruct (lookup_lt_is_Some_2 pt (Z.to_nat (va / PageSize))) as [e Ee]; [unfold PageSize in *; dlia|]. rewrite Ee. cbn.
    eapply Hz; [exact Ee|]. by apply Z.mod_pos_bound.
Qed.

Lemma Clear_pages_ok pt bm (s : gset Z) :
  Marked bm NumPhysPages s → (∀ (i : nat) e, pt !! i = Some e → 0 ≤ physicalPage e < NumPhysPages) →
  ∃ bm', for_up (length pt) 0 (λ i bm, e ← aget pt i; Clear (physicalPage e) bm) bm = Ok bm'
    ∧ Marked bm' NumPhysPages (s ∖ list_to_set (physicalPage <$> pt)).
Proof.
  intros HM Hpt.
  destruct (for_up_inv (λ k bm', Marked bm' NumPhysPages (s ∖ list_to_set (physicalPage <$> take (Z.to_nat k) pt)))
    (λ i bm, e ← aget pt i; Clear (physicalPage e) bm) (length pt) 0 bm) as (bm'&->&H).
  - change (take (Z.to_nat 0) pt) with (@nil TranslationEntry). replace (s ∖ _) with s by set_solver. done.
  - intros k bm1 Hk HM1. destruct (aget_ex pt k) as [e He]; [lia|]. rewrite He. cbn [mbind res_bind]. apply aget_Ok in He as [_ He].
    destruct (Clear_spec bm1 _ _ (physicalPage e) HM1 (Hpt _ _ He)) as (bm2&->&HM2). exists bm2. split; [done|].
    replace (Z.to_nat (k + 1)) with (S (Z.to_nat k)) by lia. rewrite (take_S_r pt _ e He), fmap_app. cbn [fmap list_fmap].
    replace (s ∖ list_to_set ((physicalPage <$> take (Z.to_nat k) pt) ++ [physicalPage e]))
      with (s ∖ list_to_set (physicalPage <$> take (Z.to_nat k) pt) ∖ {[physicalPage e]}) by set_solver. done.
  - exists bm'. split; [done|]. rewrite take_ge in H by lia. done.
Qed.

Lemma delete_AddrSpace_ok w sps1 sp sps2 :
  Owned w (sps1 ++ sp :: sps2) →
  ∃ w', delete_AddrSpace sp w = Ok w' ∧ Owned w' (sps1 ++ sps2) ∧ mainMemory w' = mainMemory w.
Proof.
  intros [Hlen Hb Hsp Hnd HM]. apply Forall_app in Hsp as [Hs1 Hs2]. apply Forall_cons in Hs2 as [HS Hs2].
  unfold delete_AddrSpace. rewrite (so_pages _ HS), Nat2Z.id.
  destruct (Clear_pages_ok (pageTable sp) (gPhysPageBitMap w) _ HM) as (bm&->&HM').
  { intros i e Hi. by apply (so_entry _ HS i e). }
  cbn [mbind res_bind]. eexists. split; [done|]. split; [|done].
  rewrite fmap_app, fmap_cons, concat_app in Hnd, HM'. cbn [concat] in Hnd, HM'.
  pose proof Hnd as Hperm. rewrite (Permutation_app_comm (frames sp)), app_assoc in Hperm.
  apply NoDup_app in Hperm as (Hnd'&Hdis&_).
  split; cbn -[frames]; [done|done|by apply Forall_app| |]; rewrite fmap_app, concat_app; [done|].
  replace (list_to_set (concat (frames <$> sps1) ++ concat (frames <$> sps2)) : gset Z)
    with (list_to_set (concat (frames <$> sps1) ++ frames sp ++ concat (frames <$> sps2)) ∖ list_to_set (physicalPage <$> pageTable sp) : gset Z);
    [done|].
  apply set_eq. intros f. fold (frames sp). rewrite elem_of_difference, !elem_of_list_to_set, !elem_of_app. split; [naive_solver|].
  intros Hf. split; [naive_solver|]. apply Hdis. by apply elem_of_app.
Qed.

(** ** What other address spaces see *)

Lemma view_outside sp fs mem mem' va :
  SpaceOk sp → (∀ f, f ∈ frames sp → f ∉ fs) → same_outside fs mem mem' → view sp mem' va = view sp mem va.
Proof.
  intros HS Hd Hs. unfold view. destruct (pageTable sp !! _) as [e|] eqn:Ee; [|done]. cbn.
  destruct (so_entry _ HS _ _ Ee) as (_&_&_&Hr).
  assert (Hmod : 0 ≤ va mod PageSize < PageSize) by (apply Z.mod_pos_bound; done).
  apply Hs; [unfold PageSize in *; lia|]. destruct (phys_addr_split _ (physicalPage e) (va mod PageSize) (proj1 Hr) Hmod eq_refl) as [-> _].
  apply Hd. apply list_elem_of_fmap. exists e. split; [done|]. by eapply list_elem_of_lookup_2.
Qed.

Lemma Owned_disjoint w sps1 sp sps2 sp' f :
  Owned w (sps1 ++ sp :: sps2) → sp' ∈ sps1 ++ sps2 → f ∈ frames sp' → f ∉ frames sp.
Proof.
  intros HO Hin Hf. pose proof (ow_nodup _ _ HO) as Hnd. rewrite fmap_app, fmap_cons, concat_app in Hnd. cbn [concat] in Hnd.
  rewrite (Permutation_app_comm (frames sp)), app_assoc in Hnd. apply NoDup_app in Hnd as (_&Hdis&_).
  apply Hdis. rewrite <- concat_app, <- fmap_app. apply list_elem_of_In, in_concat. exists (frames sp').
  split; [|by apply list_elem_of_In]. apply list_elem_of_In, list_elem_of_fmap. by exists sp'.
Qed.

(** ** Loading *)

(** Page tables that differ in use and dirty bits. *)
Definition alike sp sp' : Prop :=
  Forall2 same_entry (pageTable sp) (pageTable sp') ∧ numPages sp' = numPages sp.

#[global] Instance alike_refl : Reflexive alike.
Proof. intros sp. split; reflexivity. Qed.
#[global] Instance alike_trans : Transitive alike.
Proof. intros s1 s2 s3 [A1 A2] [B1 B2]. split; [by etrans|congruence]. Qed.

Lemma alike_frames sp sp' : alike sp sp' → frames sp' = frames sp.
Proof.
  intros [H _]. unfold frames. induction H as [|e e' l l' (_&E&_) H IH]; [done|]. rewrite !fmap_cons. congruence.
Qed.

Lemma alike_view sp sp' mem va : alike sp sp' → view sp' mem va = view sp mem va.
Proof.
  intros [H _]. unfold view. destruct (pageTable sp !! _) as [e|] eqn:E.
  - destruct (Forall2_lookup_l _ _ _ _ _ H E) as (e'&->&(_&Ep&_)). cbn. by rewrite Ep.
  - rewrite lookup_ge_None_2; [done|]. apply lookup_ge_None in E. apply Forall2_length in H. lia.
Qed.

Lemma alike_SpaceOk sp sp' : alike sp sp' → SpaceOk sp → SpaceOk sp'.
Proof.
  intros Ha [H1 H2 H3]. split.
  - destruct Ha as [HF ->]. apply Forall2_length in HF. lia.
  - intros i e' Hi. destruct Ha as [HF _]. destruct (Forall2_lookup_r _ _ _ _ _ HF Hi) as (e&Hi'&(E1&E2&E3&E4)).
    destruct (H2 i e Hi') as (?&?&?&?). split_and!; try congruence; rewrite <- E2; lia.
  - by rewrite (alike_frames sp sp').
Qed.

Lemma ATranslate_ok sp va (w : bool) e :
  SpaceOk sp → 0 ≤ va → is_u32 va → pageTable sp !! Z.to_nat (va / PageSize) = Some e →
  ∃ sp', ATranslate va w sp = Ok (inr (physicalPage e * PageSize + va mod PageSize), sp') ∧ alike sp sp'.
Proof.
  intros HS Hva Hu He. unfold ATranslate. rewrite u32_id by done.
  pose proof (lookup_lt_Some _ _ _ He) as Hlt. pose proof (so_pages _ HS) as Hn.
  assert (Hdiv : 0 ≤ va / PageSize) by (apply Z.div_pos; [done|unfold PageSize; lia]).
  rewrite (proj2 (Z.leb_gt _ _)) by lia.
  assert (Eg : aget (pageTable sp) (va / PageSize) = Ok e) by (by apply aget_Ok). rewrite Eg. cbn [mbind res_bind].
  destruct (so_entry _ HS _ _ He) as (_&Hv&Hro&Hf). rewrite Hro, andb_false_r. rewrite (proj2 (Z.leb_gt _ _)) by lia.
  rewrite aset_in by lia. cbn [mbind res_bind].
  assert (Hmod : 0 ≤ va mod PageSize < PageSize) by (apply Z.mod_pos_bound; done).
  pose proof (frame_range e Hf) as [F1 F2]. rewrite u32_id by (unfold_int; unfold MemorySize, NumPhysPages, PageSize in *; lia).
  rewrite (proj2 (Z.ltb_lt _ _)) by lia. cbn [ASSERT mbind res_bind]. eexists. split; [done|]. split; [|done]. cbn [pageTable].
  by apply (same_entry_insert _ _ e).
Qed.

(** [pages] whole pages of [file] from [start] on, put at [vaddr]. *)
Definition patched (file : list Z) (start vaddr pages : Z) (v : Z → option Z) (va : Z) : option Z :=
  if decide (vaddr ≤ va < vaddr + pages * PageSize ∧ start + (va - vaddr) < Z.of_nat (length file))
  then file !! Z.to_nat (start + (va - vaddr)) else v va.

(** One page. *)
Lemma store_page sp mem file (pos : Z) (q : nat) e va :
  SpaceOk sp → Z.of_nat (length mem) = MemorySize → pageTable sp !! q = Some e → 0 ≤ pos → 0 ≤ va →
  let mem' := splice mem (physicalPage e * PageSize) (slice file pos PageSize) in
  physicalPage e * PageSize + Z.of_nat (length (slice file pos PageSize)) ≤ MemorySize
  ∧ same_outside [physicalPage e] mem mem'
  ∧ view sp mem' va = patched file pos (Z.of_nat q * PageSize) 1 (view sp mem) va.
Proof.
  intros HS Hlen Hq Hpos Hva mem'. destruct (so_entry _ HS _ _ Hq) as (_&_&_&Hf). pose proof (frame_range e Hf) as [F1 F2].
  assert (Hsl : Z.of_nat (length (slice file pos PageSize)) = PageSize `min` (Z.of_nat (length file) - pos) `max` 0).
  { unfold slice. rewrite length_take, length_drop. unfold PageSize. lia. }
  assert (Hin : physicalPage e * PageSize + Z.of_nat (length (slice file pos PageSize)) ≤ MemorySize) by (unfold PageSize in *; lia).
  split; [done|]. split.
  - intros a Ha Hn. unfold mem'. rewrite lookup_splice by lia. rewrite decide_False; [done|]. intros Hc. apply Hn, list_elem_of_singleton.
    unfold PageSize in *. dlia.
  - unfold view, patched. assert (Hmod : 0 ≤ va mod PageSize < PageSize) by (apply Z.mod_pos_bound; done).
    destruct (decide (Z.to_nat (va / PageSize) = q)) as [<-|Hne].
    + rewrite Hq. cbn. unfold mem'. rewrite lookup_splice by lia.
      assert (Eva : va - Z.of_nat (Z.to_nat (va / PageSize)) * PageSize = va mod PageSize) by (unfold PageSize in *; dlia).
      rewrite Eva. case_decide as H1; case_decide as H2.
      * rewrite lookup_slice by done. rewrite decide_True by (unfold PageSize in *; lia). f_equal. unfold PageSize in *. lia.
      * exfalso. apply H2. unfold PageSize in *. split; [dlia|]. lia.
      * exfalso. apply H1. unfold PageSize in *. lia.
      * done.
    + rewrite decide_False by (unfold PageSize in *; dlia).
      destruct (pageTable sp !! Z.to_nat (va / PageSize)) as [e'|] eqn:Eq; [|done]. cbn. unfold mem'. rewrite lookup_splice by lia.
      destruct (so_entry _ HS _ _ Eq) as (_&_&_&Hf'). rewrite decide_False; [done|]. intros Hc. apply Hne.
      assert (Epp : physicalPage e' = physicalPage e) by (unfold PageSize in *; dlia).
      eapply (NoDup_lookup (frames sp) _ _ (physicalPage e)); [apply HS|..]; unfold frames; rewrite list_lookup_fmap; [rewrite Eq; cbn; congruence|by rewrite Hq].
Qed.

Lemma patched_succ file (start vaddr k : Z) v va :
  0 ≤ k → patched file (start + k * PageSize) (vaddr + k * PageSize) 1 (patched file start vaddr k v) va
          = patched file start vaddr (k + 1) v va.
Proof.
  intros Hk. unfold patched, PageSize. repeat case_decide; try lia; try done. f_equal. lia.
Qed.

(** What loading keeps of memory and page table. *)
Record kept sp mem sp' mem' : Prop := {
  kp_alike : alike sp sp';
  kp_len : length mem' = length mem;
  kp_bytes : bytes mem';
  kp_same : same_outside (frames sp) mem mem'
}.

Lemma kept_trans s1 m1 s2 m2 s3 m3 : kept s1 m1 s2 m2 → kept s2 m2 s3 m3 → kept s1 m1 s3 m3.
Proof.
  intros [A1 A2 A3 A4] [B1 B2 B3 B4]. split; [by etrans|congruence|done|].
  rewrite (alike_frames s1 s2) in B4 by done. by etrans.
Qed.

(** A segment whose whole pages lie in the address space. *)
Record seg_fits (pages : Z) (seg : Segment) : Prop := {
  sg_aligned : virtualAddr seg mod PageSize = 0;
  sg_va : 0 ≤ virtualAddr seg;
  sg_in : virtualAddr seg + divRoundUp (size seg) PageSize * PageSize ≤ pages * PageSize;
  sg_file : 0 ≤ inFileAddr seg ∧ inFileAddr seg + divRoundUp (size seg) PageSize * PageSize < halfword
}.

(** Nothing is asked of an empty segment, whose addresses may be anything. *)
Definition seg_ok (pages : Z) (seg : Segment) : Prop := 0 < size seg → seg_fits pages seg.

Definition load_view (file : list Z) (seg : Segment) (v : Z → option Z) : Z → option Z :=
  if 0 <? size seg then patched file (inFileAddr seg) (virtualAddr seg) (divRoundUp (size seg) PageSize) v else v.

Lemma load_segment_ok file g seg sp mem :
  SpaceOk sp → numPages sp ≤ NumPhysPages → Z.of_nat (length mem) = MemorySize → bytes mem → bytes file → seg_ok (numPages sp) seg →
  ∃ sp' mem', load_segment file g seg sp mem = Ok (sp', mem') ∧ kept sp mem sp' mem'
    ∧ ∀ va, 0 ≤ va → view sp mem' va = load_view file seg (view sp mem) va.
Proof.
  intros HS Hnp Hlen Hb Hbf Hok. unfold load_segment, load_view.
  destruct (Z.ltb_spec 0 (size seg)) as [Hsz|]; [|exists sp, mem; split; [done|]; split; [by split|done]].
  destruct (Hok Hsz) as [Hal Hva Hin [Hf0 Hf1]].
  unfold LoadIntoMemory. set (n := divRoundUp (size seg) PageSize) in *.
  assert (Hn : 0 ≤ n) by (apply divRoundUp_nonneg; [lia|done]).
  destruct (for_up_inv (λ k s, let '(_, sp1, mem1) := s in kept sp mem sp1 mem1
      ∧ ∀ va, 0 ≤ va → view sp mem1 va = patched file (inFileAddr seg) (virtualAddr seg) k (view sp mem) va)
    (load_page file (inFileAddr seg) (virtualAddr seg)) (Z.to_nat n) 0 (g, sp, mem)) as ([[ta sp']mem']&->&HK&HV).
  - split; [by split|]. intros va _. unfold patched. rewrite decide_False; [done|]. unfold PageSize. lia.
  - intros k [[ta sp1] mem1] Hk [HK HV]. unfold load_page. pose proof (kp_alike _ _ _ _ HK) as Ha.
    pose proof (alike_SpaceOk _ _ Ha HS) as HS1. pose proof (so_pages _ HS1) as Hp1. pose proof (proj2 Ha) as En.
    assert (Hr : 0 ≤ virtualAddr seg + k * PageSize < numPages sp * PageSize) by (unfold PageSize in *; lia).
    assert (Hr' : is_s32 (virtualAddr seg + k * PageSize)) by (unfold_int; unfold NumPhysPages, PageSize in *; lia).
    rewrite (s32_id (virtualAddr seg + k * PageSize)) by exact Hr'.
    set (q := Z.to_nat ((virtualAddr seg + k * PageSize) / PageSize)).
    destruct (lookup_lt_is_Some_2 (pageTable sp1) q) as [e He]; [unfold q; unfold PageSize in *; dlia|].
    destruct (ATranslate_ok sp1 (virtualAddr seg + k * PageSize) true e HS1) as (sp2&->&Ha2); [lia|unfold_int; lia|done|].
    cbn [mbind res_bind]. rewrite s32_id by (unfold_int; unfold PageSize in *; lia).
    unfold ReadAt. rewrite (proj2 (Z.leb_le _ _)) by (unfold PageSize in *; lia). cbn [ASSERT mbind res_bind].
    replace ((virtualAddr seg + k * PageSize) mod PageSize) with 0 by (unfold PageSize in *; dlia). rewrite Z.add_0_r.
    assert (Hl1 : Z.of_nat (length mem1) = MemorySize) by (rewrite (kp_len _ _ _ _ HK); done).
    pose proof (store_page sp1 mem1 file (inFileAddr seg + k * PageSize) q e) as Hst.
    destruct (so_entry _ HS1 _ _ He) as (_&_&_&Hfr). pose proof (frame_range e Hfr) as [F1 F2].
    destruct (Hst 0 HS1 Hl1 He) as (Hin1&Hsame&_); [unfold PageSize in *; lia|done|].
    rewrite store_bytes_ok by lia. cbn [mbind res_bind]. eexists. split; [done|]. split.
    + apply (kept_trans sp mem sp1 mem1 sp2 _ HK). split; [done|rewrite length_splice; lia| |].
      * apply splice_Forall; [apply HK|]. by apply slice_Forall.
      * intros a Ha' Hn'. apply Hsame; [done|]. rewrite list_elem_of_singleton. intros E. apply Hn'. rewrite E.
        unfold frames. apply list_elem_of_fmap. exists e. split; [done|]. by eapply list_elem_of_lookup_2.
    + intros va Hva'. rewrite <- (alike_view sp sp1) by done.
      destruct (Hst va HS1 Hl1 He) as (_&_&->); [unfold PageSize in *; lia|done|].
      replace (Z.of_nat q * PageSize) with (virtualAddr seg + k * PageSize) by (unfold q; unfold PageSize in *; dlia).
      rewrite <- (patched_succ _ _ _ k) by lia. unfold patched at 1 2. case_decide; [done|]. rewrite (alike_view sp sp1) by done. by apply HV.
  - rewrite Z.add_0_l, Z2Nat.id in HV by done. cbn [mbind res_bind]. by exists sp', mem'.
Qed.

Lemma Load_ok file g h (ta : Z) sp w :
  SpaceOk sp → numPages sp ≤ NumPhysPages → Z.of_nat (length (mainMemory w)) = MemorySize → bytes (mainMemory w) → bytes file →
  read_header (Some file) g = Ok h → Forall (seg_ok (numPages sp)) [code h; initData h; readonlyData h] →
  ∃ sp' mem', Load (Some file) g ta sp w = Ok (true, sp', set_memory mem' w) ∧ kept sp (mainMemory w) sp' mem'
    ∧ ∀ va, 0 ≤ va → view sp mem' va
        = load_view file (readonlyData h) (load_view file (initData h) (load_view file (code h) (view sp (mainMemory w)))) va.
Proof.
  intros HS Hnp Hlen Hb Hbf Hh Hsegs. apply Forall_cons in Hsegs as [H1 Hsegs]. apply Forall_cons in Hsegs as [H2 Hsegs].
  apply Forall_cons in Hsegs as [H3 _]. unfold Load. rewrite (proj2 (Z.leb_le _ _)) by done. cbn [ASSERT mbind res_bind].
  rewrite bool_decide_false by done. cbn [negb ASSERT mbind res_bind]. rewrite Hh. cbn [mbind res_bind deref].
  destruct (load_segment_ok file ta (code h) sp (mainMemory w) HS Hnp Hlen Hb Hbf H1) as (sp1&mem1&->&K1&V1). cbn [mbind res_bind].
  assert (Hnext : ∀ sp1 mem1 seg, kept sp (mainMemory w) sp1 mem1 → seg_ok (numPages sp) seg →
    ∃ sp2 mem2, load_segment file ta seg sp1 mem1 = Ok (sp2, mem2) ∧ kept sp (mainMemory w) sp2 mem2
      ∧ ∀ va, 0 ≤ va → view sp mem2 va = load_view file seg (view sp mem1) va).
  { intros sp2 mem2 seg K Hseg. pose proof K as [Ka Kl Kb Ks]. rewrite <- (proj2 Ka) in Hseg, Hnp.
    destruct (load_segment_ok file ta seg sp2 mem2) as (sp3&mem3&->&K3&V3); [by eapply alike_SpaceOk|done|lia|done..|].
    exists sp3, mem3. split; [done|]. split; [by eapply kept_trans|]. intros va Hva. rewrite <- (alike_view sp sp2) by done.
    rewrite V3 by done. unfold load_view, patched. destruct (0 <? size seg); [case_decide; [done|]|]; by apply alike_view. }
  destruct (Hnext sp1 mem1 (initData h) K1 H2) as (sp2&mem2&->&K2&V2). cbn [mbind res_bind].
  destruct (Hnext sp2 mem2 (readonlyData h) K2 H3) as (sp3&mem3&->&K3&V3). cbn [mbind res_bind].
  exists sp3, mem3. split; [done|]. split; [done|]. intros va Hva. rewrite V3 by done. unfold load_view at 1 2.
  assert (E : view sp mem2 va = load_view file (initData h) (load_view file (code h) (view sp (mainMemory w))) va).
  { rewrite V2 by done. unfold load_view at 1 2. destruct (0 <? size (initData h)); [unfold patched at 1 2; case_decide; [done|]|]; by apply V1. }
  destruct (0 <? size (readonlyData h)); [unfold patched at 1 2; case_decide; [done|]|]; exact E.
Qed.

(** A byte of a segment whose page no other segment touches. *)
Lemma segment_bytes pages file s1 s2 s3 seg va (v : Z → option Z) :
  seg_fits pages seg → seg ∈ [s1; s2; s3] → virtualAddr seg ≤ va < virtualAddr seg + size seg →
  inFileAddr seg + size seg ≤ Z.of_nat (length file) →
  (∀ seg', seg' ∈ [s1; s2; s3] → seg' ≠ seg →
     ¬ virtualAddr seg' ≤ va < virtualAddr seg' + divRoundUp (size seg') PageSize * PageSize) →
  load_view file s3 (load_view file s2 (load_view file s1 v)) va = file !! Z.to_nat (inFileAddr seg + (va - virtualAddr seg)).
Proof.
  intros [_ _ _ [Hf0 _]] Hin Hva Hfile Hoth.
  pose proof (divRoundUp_spec (size seg) PageSize ltac:(lia) ltac:(done)) as Hdiv.
  assert (Hview : ∀ seg' v, seg' ∈ [s1; s2; s3] →
    load_view file seg' v va = if decide (seg' = seg) then file !! Z.to_nat (inFileAddr seg + (va - virtualAddr seg)) else v va).
  { intros seg' v' Hin'. unfold load_view, patched. case_decide as Es.
    - subst seg'. rewrite (proj2 (Z.ltb_lt _ _)) by lia. by rewrite decide_True by (unfold PageSize in *; lia).
    - specialize (Hoth seg' Hin' Es). destruct (0 <? size seg'); [|done]. rewrite decide_False; [done|]. tauto. }
  rewrite !Hview by (repeat constructor). rewrite !elem_of_cons, elem_of_nil in Hin.
  repeat case_decide; try done. naive_solver.
Qed.

Lemma Owned_kept w sps1 sp sps2 sp' mem' :
  Owned w (sps1 ++ sp :: sps2) → kept sp (mainMemory w) sp' mem' → Owned (set_memory mem' w) (sps1 ++ sp' :: sps2).
Proof.
  intros [Hlen Hb Hsp Hnd HM] [Ka Kl Kb Ks].
  assert (E : frames <$> sps1 ++ sp' :: sps2 = frames <$> sps1 ++ sp :: sps2) by (by rewrite !fmap_app, !fmap_cons, (alike_frames sp sp')).
  split; cbn -[frames]; [lia|done| |by rewrite E|by rewrite E].
  apply Forall_app in Hsp as [H1 H2]. apply Forall_cons in H2 as [HS H2]. apply Forall_app. split; [done|]. constructor; [|done].
  by eapply alike_SpaceOk.
Qed.

(** ** Running *)

(** Instructions of a user program, up to a trap. *)
Inductive user_run : Machine → Machine → Prop :=
| ur_refl m : user_run m m
| ur_trap m x m' : ¬ MipsSpec.div_faults m → Mips.OneInstruction m = Trap x m' → user_run m m'
| ur_step m m1 m' : ¬ MipsSpec.div_faults m → Mips.OneInstruction m = Ret tt m1 → user_run m1 m' → user_run m m'.

Lemma user_run_Evolves m m' : Wf m → user_run m m' → Wf m' ∧ Evolves m m'.
Proof.
  intros Hwf Hr. induction Hr as [m|m x m' Hd E|m m1 m' Hd E _ IH]; [done|..];
    pose proof (MipsSpec.OneInstruction_ok m Hwf Hd) as HP; unfold post in HP; rewrite E in HP.
  - destruct HP as ([H1 H2]&H3&_). by split.
  - destruct HP as ([H1 H2]&H3). destruct (IH (conj H1 H3)) as [W V]. split; [done|]. by etrans.
Qed.

Lemma WriteRegister_run (i v : Z) m :
  length (registers m) = 40%nat → 0 ≤ i < 40 →
  WriteRegister i v m = Ret tt (set_registers (<[Z.to_nat i := v]> (registers m)) m).
Proof.
  intros Hl Hi. unfold WriteRegister, wreg, lift, gets, modify, mbind, M_bind. unfold NumTotalRegs.
  rewrite (proj2 (Z.leb_le 0 i)), (proj2 (Z.ltb_lt i 40)) by lia. cbn. rewrite aset_in by lia. done.
Qed.

Lemma clear_registers_run k (i : nat) m :
  length (registers m) = 40%nat → (i + k = 40)%nat → take i (registers m) = replicate i 0 →
  clear_registers k (Z.of_nat i) m = Ret tt (set_registers (replicate 40 0) m).
Proof.
  revert i m. induction k as [|k IH]; intros i m Hl Hi Ht; cbn [clear_registers].
  - replace i with 40%nat in Ht by lia. rewrite take_ge in Ht by lia. unfold mret, M_ret. f_equal. destruct m. cbn in *. by rewrite Ht.
  - unfold mbind at 1, M_bind at 1. rewrite WriteRegister_run by lia.
    replace (Z.of_nat i + 1) with (Z.of_nat (S i)) by lia. rewrite IH; [done|cbn; by rewrite length_insert|lia|].
    cbn. rewrite Nat2Z.id. erewrite take_S_r by (apply list_lookup_insert_eq; lia). rewrite take_insert_ge by lia. rewrite Ht.
    rewrite <- (replicate_S_end i 0). done.
Qed.

Lemma Execute_run sp m :
  length (registers m) = 40%nat → 0 ≤ numPages sp ≤ NumPhysPages →
  ∃ m1, Execute sp m = Ret tt m1
    ∧ registers m1 = <[29%nat := numPages sp * PageSize - 16]> (<[35%nat := 4]> (replicate 40 0))
    ∧ Machine.mainMemory m1 = Machine.mainMemory m ∧ tlb m1 = tlb m
    ∧ Machine.pageTable m1 = Some (pageTable sp) ∧ pageTableSize m1 = numPages sp.
Proof.
  intros Hl Hn. unfold Execute, InitRegisters, RestoreState, modify. unfold mbind, M_bind.
  pose proof (clear_registers_run 40 0 m Hl eq_refl eq_refl) as Ec.
  change (clear_registers 40 (Z.of_nat 0)) with (clear_registers (Z.to_nat NumTotalRegs) 0) in Ec. rewrite Ec.
  rewrite !WriteRegister_run by (unfold PCReg, NextPCReg, StackReg; cbn; lia || done).
  rewrite s32_id by (unfold_int; unfold NumPhysPages, PageSize in *; lia). eexists. split; [done|]. by split_and!.
Qed.

Lemma Owned_numPages w sps sp : Owned w sps → sp ∈ sps → 0 ≤ numPages sp ≤ NumPhysPages.
Proof.
  intros HO Hin. pose proof (Owned_frames _ _ _ HO Hin) as HS. rewrite (so_pages _ HS). split; [lia|].
  replace (length (pageTable sp)) with (base.size (list_to_set (frames sp) : gset Z)); cycle 1.
  { rewrite size_list_to_set by apply HS. unfold frames. apply length_fmap. }
  etrans; [|apply (Marked_size _ _ _ (ow_marked _ _ HO))]. apply Nat2Z.inj_le, subseteq_size. intros f Hf.
  apply elem_of_list_to_set in Hf. apply elem_of_list_to_set, list_elem_of_In, in_concat. exists (frames sp).
  split; [|by apply list_elem_of_In]. apply list_elem_of_In, list_elem_of_fmap. by exists sp.
Qed.

Lemma Execute_Wf w sps1 sps2 sp m1 :
  Owned w (sps1 ++ sp :: sps2) →
  registers m1 = <[29%nat := numPages sp * PageSize - 16]> (<[35%nat := 4]> (replicate 40 0)) →
  Machine.mainMemory m1 = mainMemory w → tlb m1 = None → Machine.pageTable m1 = Some (pageTable sp) →
  pageTableSize m1 = numPages sp → Wf m1.
Proof.
  intros HO Er Em Et Ep Es. pose proof (Owned_numPages _ _ sp HO ltac:(set_solver)) as Hn.
  pose proof (Owned_frames _ _ sp HO ltac:(set_solver)) as HS. split; [|unfold R0_zero; by rewrite Er].
  split; rewrite ?Er, ?Em, ?Et, ?Ep, ?Es; [done| | |apply HO|apply HO|symmetry; apply HS].
  - apply Forall_insert; [apply Forall_insert|]; [apply Forall_replicate| |]; unfold_int; unfold NumPhysPages, PageSize in *; lia.
  - exists 0. split; [done|]. unfold NumGPRegs. lia.
Qed.

Lemma aget_lookup (l l' : list Z) a : 0 ≤ a → aget l' a = aget l a → l' !! Z.to_nat a = l !! Z.to_nat a.
Proof.
  intros Ha. unfold aget. rewrite (proj2 (Z.leb_le 0 a)) by done. destruct (l' !! _), (l !! _); cbn; congruence.
Qed.

Lemma writable_frames m sp f :
  SpaceOk sp → tlb m = None → Machine.pageTable m = Some (pageTable sp) → writable m f → f ∈ frames sp.
Proof.
  intros HS Et Ep (e&He&_&_&<-). unfold table in He. rewrite Et, Ep in He. cbn in He.
  apply list_elem_of_lookup in He as [i Hi]. destruct (so_entry _ HS i e Hi) as (_&_&_&Hr).
  rewrite u32_id by (unfold_int; unfold NumPhysPages in *; lia). apply list_elem_of_fmap. exists e. split; [done|]. by eapply list_elem_of_lookup_2.
Qed.
End AddrSpaceSpec.

Import AddrSpace MachineSpec AddrSpaceSpec.

(** C17 (invariant): address spaces own their frames.  When the kernel starts no
    frame is in use; while every frame is marked in gPhysPageBitMap exactly when
    it belongs to one of the address spaces, and to one only, the constructor
    either finds enough clear frames for code, data and stack, and then the new
    page table maps its virtual pages in order to distinct frames that nobody
    had, which are zeroed, and no other byte of memory and no other address
    space changes; or it aborts, exactly when there are fewer clear frames than
    pages.  The destructor gives back exactly the frames of its address space. *)
Theorem address_spaces_own_frames (w : Frames) (sps : list AddrSpace) (file g : list Z) (h : NoffHeader)
    (HO : Owned w sps) (Hh : read_header (Some file) g = Ok h) :
  let n := divRoundUp (space_size h) PageSize in
  let free := NumPhysPages - Z.of_nat (length (concat (frames <$> sps))) in
  (∀ bm, Bitmap.new_Bitmap NumPhysPages = Ok bm → Owned (mkFrames (replicate (Z.to_nat MemorySize) 0) bm) [])
  ∧ (if decide (n ≤ free) then
       ∃ sp w', new_AddrSpace (Some file) g w = Ok (sp, w') ∧ Owned w' (sp :: sps) ∧ numPages sp = n
         ∧ (∀ va, 0 ≤ va < n * PageSize → view sp (mainMemory w') va = Some 0)
         ∧ (∀ sp' va, sp' ∈ sps → view sp' (mainMemory w') va = view sp' (mainMemory w) va)
     else new_AddrSpace (Some file) g w = Err AssertFailed)
  ∧ (∀ sps1 sp sps2, sps = sps1 ++ sp :: sps2 →
       ∃ w', delete_AddrSpace sp w = Ok w' ∧ Owned w' (sps1 ++ sps2) ∧ mainMemory w' = mainMemory w).
Proof.
  intros n free. split; [|split].
  - intros bm Hbm. destruct (BitmapSpec.new_Bitmap_spec NumPhysPages) as (b&E&HM); [done|]. rewrite E in Hbm. injection Hbm as <-.
    by apply start_Owned.
  - pose proof (new_AddrSpace_ok file g w sps h HO Hh) as H. cbn zeta in H.
    destruct (decide (n ≤ free)) as [Hd|Hd]; [rewrite decide_True in H by exact Hd|rewrite decide_False in H by exact Hd; done].
    destruct H as (sp&w'&E&HO'&Hn&Hs&Hz). exists sp, w'. split_and!; try done. intros sp' va Hin.
    apply (view_outside sp' (frames sp)); [exact (Owned_frames w sps sp' HO Hin)| |done]. intros f Hf.
    by apply (Owned_disjoint w' [] sp sps sp' f).
  - intros sps1 sp sps2 ->. by apply delete_AddrSpace_ok.
Qed.

(** An address space that is created and loaded: what its program sees. *)
Lemma loaded_view (w : Frames) (sps : list AddrSpace) (file g : list Z) (h : NoffHeader) (ta : Z)
    (HO : Owned w sps) (Hh : read_header (Some file) g = Ok h) (Hb : bytes file)
    (Hfree : divRoundUp (space_size h) PageSize ≤ NumPhysPages - Z.of_nat (length (concat (frames <$> sps))))
    (Hsegs : Forall (seg_ok (divRoundUp (space_size h) PageSize)) [code h; initData h; readonlyData h]) :
  ∃ sp w1 sp' w2, new_AddrSpace (Some file) g w = Ok (sp, w1) ∧ Load (Some file) g ta sp w1 = Ok (true, sp', w2)
    ∧ Owned w2 (sp' :: sps) ∧ numPages sp' = divRoundUp (space_size h) PageSize
    ∧ (∀ va, 0 ≤ va < numPages sp' * PageSize → view sp' (mainMemory w2) va
         = load_view file (readonlyData h) (load_view file (initData h) (load_view file (code h) (λ _, Some 0))) va)
    ∧ (∀ sp0 va, sp0 ∈ sps → view sp0 (mainMemory w2) va = view sp0 (mainMemory w) va).
Proof.
  pose proof (new_AddrSpace_ok file g w sps h HO Hh) as Hnew. cbn zeta in Hnew. rewrite decide_True in Hnew by done.
  destruct Hnew as (sp&w1&E1&HO1&Hn&Hs&Hz). pose proof (Owned_frames _ _ sp HO1 ltac:(by constructor)) as HS.
  assert (Hnp : numPages sp ≤ NumPhysPages) by lia. rewrite <- Hn in Hsegs.
  destruct (Load_ok file g h ta sp w1 HS Hnp (ow_len _ _ HO1) (ow_bytes _ _ HO1) Hb Hh Hsegs) as (sp'&mem'&E2&HK&HV).
  exists sp, w1, sp'. eexists. split; [done|]. split; [exact E2|]. pose proof (kp_alike _ _ _ _ HK) as Ha.
  split; [by apply (Owned_kept w1 [] sp sps)|]. split; [by rewrite (proj2 Ha)|]. split.
  - intros va Hva. cbn [mainMemory set_memory]. rewrite (alike_view sp sp') by done. rewrite HV by lia. rewrite (proj2 Ha), Hn in Hva. unfold load_view, patched.
    repeat (destruct (0 <? _)); repeat case_decide; try done; by apply Hz.
  - intros sp0 va Hin. cbn [mainMemory set_memory]. assert (Hd : ∀ f, f ∈ frames sp0 → f ∉ frames sp) by (intros f Hf; by apply (Owned_disjoint w1 [] sp sps sp0 f)).
    pose proof (Owned_frames _ _ _ HO Hin) as HS0.
    rewrite (view_outside sp0 (frames sp) (mainMemory w1) mem' va); [|done|done|apply HK]. by apply (view_outside sp0 (frames sp)).
Qed.

(** Creating an address space for an executable and loading it, when
    the segments that are not empty start on page boundaries and fit: both calls succeed, and the
    memory the program sees is exactly that: zero, overwritten first by the
    whole pages of the code segment, then of the initialised data, then of the
    read-only data (whole pages: up to the end of the last page of a segment the
    bytes that follow it in the file are loaded too).  So every byte of a
    segment whose pages no other segment touches is the byte of the file.  Other
    address spaces do not change. *)
Theorem program_loaded (w : Frames) (sps : list AddrSpace) (file g : list Z) (h : NoffHeader) (ta : Z)
    (HO : Owned w sps) (Hh : read_header (Some file) g = Ok h) (Hb : bytes file)
    (Hfree : divRoundUp (space_size h) PageSize ≤ NumPhysPages - Z.of_nat (length (concat (frames <$> sps))))
    (Hsegs : Forall (seg_ok (divRoundUp (space_size h) PageSize)) [code h; initData h; readonlyData h]) :
  ∃ sp w1 sp' w2, new_AddrSpace (Some file) g w = Ok (sp, w1) ∧ Load (Some file) g ta sp w1 = Ok (true, sp', w2)
    ∧ Owned w2 (sp' :: sps)
    ∧ (∀ va, 0 ≤ va < numPages sp' * PageSize → view sp' (mainMemory w2) va
         = load_view file (readonlyData h) (load_view file (initData h) (load_view file (code h) (λ _, Some 0))) va)
    ∧ (∀ seg va, seg ∈ [code h; initData h; readonlyData h] → virtualAddr seg ≤ va < virtualAddr seg + size seg →
         inFileAddr seg + size seg ≤ Z.of_nat (length file) →
         (∀ seg', seg' ∈ [code h; initData h; readonlyData h] → seg' ≠ seg →
            ¬ virtualAddr seg' ≤ va < virtualAddr seg' + divRoundUp (size seg') PageSize * PageSize) →
         view sp' (mainMemory w2) va = file !! Z.to_nat (inFileAddr seg + (va - virtualAddr seg)))
    ∧ (∀ sp0 va, sp0 ∈ sps → view sp0 (mainMemory w2) va = view sp0 (mainMemory w) va).
Proof.
  destruct (loaded_view w sps file g h ta HO Hh Hb Hfree Hsegs) as (sp&w1&sp'&w2&E1&E2&HO2&Hn&HV&Hoth). exists sp, w1, sp', w2. split_and!; try done.
  intros seg va Hin Hva Hfile Hcov. pose proof (proj1 (Forall_forall _ _) Hsegs seg Hin ltac:(lia)) as Hseg. pose proof Hseg as [_ Hva0 Hfit _].
  pose proof (divRoundUp_spec (size seg) PageSize ltac:(lia) ltac:(done)) as Hdiv.
  rewrite HV by (rewrite Hn; unfold PageSize in *; lia). by apply (segment_bytes (divRoundUp (space_size h) PageSize)).
Qed.

(** Execute gives the program its registers (0 at the program counter, 4
    behind it, the stack pointer 16 bytes below the end of its address space,
    everything else zero) and its page table; from then on, whatever
    instructions the program executes, up to its next trap, the machine stays
    well formed and no byte of any other address space changes. *)
Theorem address_space_isolation (w : Frames) (sps1 sps2 : list AddrSpace) (sp : AddrSpace) (m : Machine)
    (HO : Owned w (sps1 ++ sp :: sps2)) (Hregs : length (registers m) = 40%nat)
    (Htlb : tlb m = None) (Hmem : Machine.mainMemory m = mainMemory w) :
  ∃ m1, Execute sp m = Ret tt m1
    ∧ registers m1 = <[29%nat := numPages sp * PageSize - 16]> (<[35%nat := 4]> (replicate 40 0))
    ∧ Machine.pageTable m1 = Some (pageTable sp)
    ∧ ∀ m', user_run m1 m' → Wf m'
        ∧ ∀ sp' va, sp' ∈ sps1 ++ sps2 → view sp' (Machine.mainMemory m') va = view sp' (mainMemory w) va.
Proof.
  pose proof (Owned_frames _ _ sp HO ltac:(set_solver)) as HS.
  assert (Hnp : 0 ≤ numPages sp ≤ NumPhysPages) by exact (Owned_numPages _ _ sp HO ltac:(set_solver)).
  destruct (Execute_run sp m Hregs Hnp) as (m1&E&Er&Em&Et&Ep&Es). exists m1. split; [done|]. split; [done|]. split; [done|].
  assert (Hwf : Wf m1) by (apply (Execute_Wf w sps1 sps2 sp m1); congruence || done).
  intros m' Hrun. destruct (user_run_Evolves m1 m' Hwf Hrun) as [Hwf' [_ Hev]]. split; [done|]. intros sp' va Hin.
  assert (Hin' : sp' ∈ sps1 ++ sp :: sps2) by set_solver.
  apply (view_outside sp' (frames sp)); [exact (Owned_frames _ _ _ HO Hin')|intros f Hf; by apply (Owned_disjoint w sps1 sp sps2 sp' f)|].
  intros a Ha Hn. rewrite <- Hmem, <- Em. apply aget_lookup; [done|]. apply Hev; [done|].
  intros Hw. apply Hn. apply (writable_frames m1 sp); [done|congruence|done|done].
Qed.

(** ** Examples *)

Definition noff (c i : Segment) (data : list Z) : list Z :=
  words_encode [NOFFMAGIC; virtualAddr c; inFileAddr c; size c; virtualAddr i; inFileAddr i; size i; 0; 0; 0; 0; 0; 0] ++ data.

(** Four bytes of code, and four of data on the next page. *)
Definition small : list Z := noff (mkSegment 0 52 4) (mkSegment 128 56 4) [1; 2; 3; 4; 5; 6; 7; 8].
Definition small_header : NoffHeader :=
  mkNoffHeader NOFFMAGIC (mkSegment 0 52 4) (mkSegment 128 56 4) (mkSegment 0 0 0) (mkSegment 0 0 0).

Definition empty_memory : Frames :=
  mkFrames (replicate (Z.to_nat MemorySize) 0) (Bitmap.mkBitmap 128 4 [0; 0; 0; 0]).

Lemma empty_memory_Owned : Owned empty_memory [].
Proof.
  apply start_Owned. destruct (BitmapSpec.new_Bitmap_spec NumPhysPages) as (b&E&HM); [done|].
  assert (Eb : Bitmap.new_Bitmap NumPhysPages = Ok (Bitmap.mkBitmap 128 4 [0; 0; 0; 0])) by (vm_compute; reflexivity). congruence.
Qed.

Lemma small_bytes : bytes small.
Proof. apply Forall_app. split; [apply words_encode_bytes|]. repeat (apply Forall_cons; split; [unfold is_byte; lia|]). apply Forall_nil_2. Qed.

Lemma small_segments : Forall (seg_ok 9) [code small_header; initData small_header; readonlyData small_header].
Proof. repeat (apply Forall_cons; split; [intros _; split; vm_compute; intuition congruence|]). apply Forall_nil_2. Qed.

Lemma address_spaces_own_frames_witness :
  ∃ sp w', new_AddrSpace (Some small) [] empty_memory = Ok (sp, w') ∧ Owned w' [sp] ∧ numPages sp = 9.
Proof.
  assert (Hh : read_header (Some small) [] = Ok small_header) by (vm_compute; reflexivity).
  destruct (address_spaces_own_frames empty_memory [] small [] small_header empty_memory_Owned Hh) as (_&H&_).
  rewrite decide_True in H by (vm_compute; congruence). destruct H as (sp&w'&E&HO&Hn&_).
  exists sp, w'. split; [exact E|]. split; [exact HO|]. rewrite Hn. vm_compute; reflexivity.
Defined.

Lemma program_loaded_witness :
  ∃ sp w1 sp' w2, new_AddrSpace (Some small) [] empty_memory = Ok (sp, w1)
    ∧ Load (Some small) [] 0 sp w1 = Ok (true, sp', w2) ∧ view sp' (mainMemory w2) 129 = Some 6.
Proof.
  assert (Hh : read_header (Some small) [] = Ok small_header) by (vm_compute; reflexivity).
  destruct (program_loaded empty_memory [] small [] small_header 0 empty_memory_Owned Hh small_bytes) as (sp&w1&sp'&w2&E1&E2&_&_&H&_).
  - vm_compute; congruence.
  - exact small_segments.
  - exists sp, w1, sp', w2. split; [exact E1|]. split; [exact E2|].
    rewrite (H (initData small_header) 129); [vm_compute; reflexivity|right; left|cbn; lia|vm_compute; congruence|].
    intros seg' Hin Hne. rewrite !elem_of_cons, elem_of_nil in Hin. destruct Hin as [->|[->|[->|[]]]]; vm_compute; intuition congruence.
Defined.

Lemma address_space_isolation_witness :
  ∃ sp w1 m1, new_AddrSpace (Some small) [] empty_memory = Ok (sp, w1)
    ∧ Execute sp (mkMachine (replicate 40 0) (mainMemory w1) None None 0) = Ret tt m1.
Proof.
  destruct (new_AddrSpace (Some small) [] empty_memory) as [[sp w1]|] eqn:E; [|exfalso; revert E; vm_compute; discriminate].
  assert (HO : Owned w1 [sp]).
  { assert (Hh : read_header (Some small) [] = Ok small_header) by (vm_compute; reflexivity).
    pose proof (new_AddrSpace_ok small [] empty_memory [] small_header empty_memory_Owned Hh) as H. cbn zeta in H.
    rewrite decide_True in H by (vm_compute; congruence). destruct H as (sp2&w2&E2&HO&_). rewrite E in E2. injection E2 as <- <-. exact HO. }
  destruct (address_space_isolation w1 [] [] sp (mkMachine (replicate 40 0) (mainMemory w1) None None 0) HO eq_refl eq_refl eq_refl)
    as (m1&E1&_). exists sp, w1, m1. split; [reflexivity|exact E1].
Defined.

(** A data segment that does not start on a page boundary is loaded across the
    end of a frame.  Here a program of nine pages (frames 0 to 8) ends, another
    one (frames 9 to 17) stays, and a third one, with 1100 bytes of code and its
    data behind them, gets frames 0 to 8 and then 18 on: loading its data
    overwrites the first page of the second program, in frame 9. *)
Definition large : list Z := noff (mkSegment 0 52 1100) (mkSegment 1100 1152 4) (replicate 1300 7).

Theorem unaligned_data_overwrites_neighbour :
  ('(a, w) ← new_AddrSpace (Some small) [] empty_memory;
   '(b, w) ← new_AddrSpace (Some small) [] w;
   w ← delete_AddrSpace a w;
   '(c, w) ← new_AddrSpace (Some large) [] w;
   '(_, _, w') ← Load (Some large) [] 0 c w;
   Ok (view b (mainMemory w) 0, view b (mainMemory w') 0)) = Ok (Some 0, Some 7).
Proof. vm_compute. reflexivity. Qed.
