(* ===== verification/Files.v ===== *)
(** filesys/openstream.h, dyopenfile.h, fdt.{h,cc} and the file and console
    calls of userprog/ksyscall.h: the file descriptors of user programs.

    The build uses FILESYS_STUB: files are files of the host.  The host is a
    parameter of the model, the class [Host], whose laws are what POSIX documents
    of open, read, write, lseek and unlink on regular files.  The table of
    descriptors is polymorphic in its streams: here they are files, in Sockets.v
    the other kind of OpenStream, sockets.

    A buffer of [char]s is a list of numbers from -128 to 127; reading behind its
    end is [BadAccess].  The kernel calls that end the simulation (Halt) end the
    run of the model with [Halted]; reading the console when no further character
    arrives, not even the end of file, blocks for ever ([Blocked]). *)

From Stdlib Require Import String Ascii.
From S2P Require Import Prelude.
#[local] Open Scope list_scope.

(** ** Strings of C *)

Module CString.
(** A string literal. *)
Definition chars (s : string) : list Z := map (λ c, Z.of_N (N_of_ascii c)) (list_ascii_of_string s).
Definition literal (s : string) : list Z := chars s ++ [0].

(** The characters before the terminating NUL. *)
Fixpoint cstr (buf : list Z) : res (list Z) :=
  match buf with
  | [] => Err BadAccess
  | c :: r => if c =? 0 then Ok [] else s ← cstr r; Ok (c :: s)
  end.

Fixpoint strncpy (n : nat) (src : list Z) : res (list Z) :=
  match n, src with
  | O, _ => Ok []
  | _, [] => Err BadAccess
  | S n', c :: r => if c =? 0 then Ok (replicate n 0) else d ← strncpy n' r; Ok (c :: d)
  end.

(** strcmp(a, b) == 0. *)
Fixpoint streq (a b : list Z) : res bool :=
  match a, b with
  | x :: a, y :: b => if x =? y then if x =? 0 then Ok true else streq a b else Ok false
  | _, _ => Err BadAccess
  end.

Fixpoint strnlen (n : nat) (s : list Z) : res Z :=
  match n, s with
  | O, _ => Ok 0
  | _, [] => Err BadAccess
  | S n, c :: r => if c =? 0 then Ok 0 else k ← strnlen n r; Ok (k + 1)
  end.
End CString.

(** ** The host *)

(** Regular files of the host, as file system calls see them.  [ino] is what an
    open descriptor refers to. *)
Class Host (H ino : Type) := {
  h_open : list Z → H → option ino;                (* open(name, O_RDWR) *)
  h_create : list Z → H → option H;                (* open(name, O_RDWR|O_CREAT|O_TRUNC), close *)
  h_unlink : list Z → H → option H;
  h_read : ino → Z → Z → H → option (list Z);      (* lseek, read: file, position, count *)
  h_write : ino → Z → list Z → H → option H;       (* lseek, write *)
  h_length : ino → H → Z                           (* lseek to the end *)
}.

(** Bytes written at a position; a gap behind the end is filled with zeros. *)
Definition host_write (l : list Z) (pos : Z) (data : list Z) : list Z :=
  let l := l ++ replicate (Z.to_nat pos - length l) 0 in splice l pos data.

(** What POSIX says of them.  [h_bytes] are the contents of a file.  Several names
    can lead to one file (a and ./a, links), so that creating or removing one name
    can make others appear or disappear; it never makes a name lead to another
    file, and a name that disappears with [n] led to the file of [n]. *)
Class HostLaws (H ino : Type) `{Host H ino} := {
  h_bytes : H → ino → list Z;
  h_read_ok i (pos n : Z) h : 0 ≤ pos → 0 ≤ n → h_read i pos n h = Some (slice (h_bytes h i) pos n);
  h_length_ok i h : h_length i h = Z.of_nat (length (h_bytes h i));
  h_write_ok i (pos : Z) data h h' : 0 ≤ pos → h_write i pos data h = Some h' →
    h_bytes h' i = host_write (h_bytes h i) pos data
    ∧ (∀ j, j ≠ i → h_bytes h' j = h_bytes h j) ∧ (∀ n, h_open n h' = h_open n h);
  h_create_ok n h h' : h_create n h = Some h' →
    (∃ i, h_open n h' = Some i ∧ h_bytes h' i = [] ∧ (∀ j, h_open n h = Some j → i = j)
       ∧ (∀ j, j ≠ i → h_bytes h' j = h_bytes h j)
       ∧ ∀ n', h_open n' h' = h_open n' h ∨ h_open n' h = None ∧ h_open n' h' = Some i);
  h_unlink_ok n h h' : h_unlink n h = Some h' →
    h_open n h' = None ∧ (∀ i, h_bytes h' i = h_bytes h i)
    ∧ ∀ n', h_open n' h' = h_open n' h
            ∨ h_open n' h' = None ∧ ∀ i, h_open n h = Some i → h_open n' h = Some i ∨ h_open n' h = None
}.

Module Files.
Import CString.

Definition MAX_FILE_NAME_LENGTH : nat := 32.
Definition MAX_ALLOWED_BUFFER_SIZE : Z := 64.
Definition MAX_FILE_DESCRIPTOR : Z := 20.
Definition STDIN : Z := 0.
Definition STDOUT : Z := 1.
Definition NO_MODE : Z := -1.
Definition RO : Z := 0.
Definition RW : Z := 1.
Definition EOF : Z := -1.

(** ** fdt.cc: the table, for any kind of stream *)

Definition new_FileDescriptorTable {A} : list (option A) := replicate (Z.to_nat MAX_FILE_DESCRIPTOR) None.

Fixpoint free_loop {A} (k : nat) (i : Z) (t : list (option A)) : res Z :=
  match k with
  | O => Ok (-1)
  | S k => e ← aget t i; match e with None => Ok i | Some _ => free_loop k (i + 1) t end
  end.

Definition getFreeFileDescriptor {A} (t : list (option A)) : res Z :=
  free_loop (Z.to_nat (MAX_FILE_DESCRIPTOR - 2)) 2 t.

Definition hasFreeFileDescriptor {A} (t : list (option A)) : res bool :=
  fd ← getFreeFileDescriptor t; Ok (negb (fd =? -1)).

Definition Add {A} (d : A) (t : list (option A)) : res (Z * list (option A)) :=
  fd ← getFreeFileDescriptor t;
  if fd =? -1 then Ok (-1, t)
  else t ← aset t fd (Some d); Ok (fd, t).

Definition bad_fd (fd : Z) : bool := (fd <? 0) || (MAX_FILE_DESCRIPTOR <=? fd) || (fd =? 0) || (fd =? 1).

Definition getStream {A} (fd : Z) (t : list (option A)) : res (option A) :=
  if bad_fd fd then Ok None else aget t fd.

Section FILES.
Context {H ino : Type} `{Host H ino}.

(** OpenFile of the stub file system. *)
Record OpenFile := mkOpenFile { file : ino; currentOffset : Z }.

Record DyOpenFile := mkDyOpenFile {
  file_name : list Z; openfile : option OpenFile; read_pos : Z; write_pos : Z; open_mode : Z
}.

Record State := mkState {
  host : H;
  fdt : list (option DyOpenFile);
  console_in : list Z;        (* the characters that will arrive, EOF once at the end *)
  console_out : list Z        (* what has been printed *)
}.

Definition set_host (h : H) (s : State) : State := mkState h (fdt s) (console_in s) (console_out s).
Definition set_fdt (f : list (option DyOpenFile)) (s : State) : State := mkState (host s) f (console_in s) (console_out s).
Definition set_in (l : list Z) (s : State) : State := mkState (host s) (fdt s) l (console_out s).
Definition set_out (l : list Z) (s : State) : State := mkState (host s) (fdt s) (console_in s) l.

(** ** The monad of kernel calls *)

Inductive outcome (A : Type) :=
| Done (a : A) (s : State)
| Halted (s : State)
| Blocked
| Failed (e : fault).

Definition K (A : Type) : Type := State → outcome A.
#[global] Instance K_ret : MRet K := λ A a s, Done A a s.
#[global] Instance K_bind : MBind K := λ A B f c s,
  match c s with
  | Done _ a s' => f a s'
  | Halted _ s' => Halted B s'
  | Blocked _ => Blocked B
  | Failed _ e => Failed B e
  end.

Definition klift {A} (r : res A) : K A := λ s, match r with Ok a => Done A a s | Err e => Failed A e end.
Definition kget {A} (f : State → A) : K A := λ s, Done A (f s) s.
Definition kmodify (f : State → State) : K unit := λ s, Done unit tt (f s).
Definition Halt {A} : K A := λ s, Halted A s.

(** ** filesys/openfile.h with FILESYS_STUB *)

(** -1 when the host's read fails, else the bytes as [char]s. *)
Definition ReadAt (f : OpenFile) (numBytes position : Z) : K (Z * list Z) :=
  klift (ASSERT (0 <=? position)) ;;
  h ← kget host;
  match h_read (file f) position numBytes h with
  | Some data => mret (Z.of_nat (length data), map s8 data)
  | None => mret (-1, [])
  end.

Definition WriteAt (f : OpenFile) (from : list Z) (numBytes position : Z) : K Z :=
  klift (ASSERT (0 <=? position)) ;;
  h ← kget host;
  klift (ASSERT (0 <=? numBytes)) ;;
  klift (if numBytes <=? Z.of_nat (length from) then Ok tt else Err BadAccess) ;;
  match h_write (file f) position (map u8 (take (Z.to_nat numBytes) from)) h with
  | Some h' => kmodify (set_host h') ;; mret numBytes
  | None => klift (Err AssertFailed)
  end.

Definition Length (f : OpenFile) : K Z := h ← kget host; mret (h_length (file f) h).

Definition Seek (f : OpenFile) (position : Z) : K (Z * OpenFile) :=
  if position <? 0 then mret (-1, f)
  else
    l ← Length f;
    if l <? position then mret (-1, f)
    else mret (position, mkOpenFile (file f) position).

(** filesys/filesys.h with FILESYS_STUB: OpenForWrite aborts when it fails. *)
Definition FSCreate (name : list Z) : K bool :=
  n ← klift (cstr name);
  h ← kget host;
  match h_create n h with
  | Some h' => kmodify (set_host h') ;; mret true
  | None => klift (Err AssertFailed)
  end.

Definition FSOpen (name : list Z) : K (option OpenFile) :=
  n ← klift (cstr name);
  h ← kget host;
  mret ((λ i, mkOpenFile i 0) <$> h_open n h).

Definition FSRemove (name : list Z) : K bool :=
  n ← klift (cstr name);
  h ← kget host;
  match h_unlink n h with
  | Some h' => kmodify (set_host h') ;; mret true
  | None => mret false
  end.

(** ** dyopenfile.h *)

Definition new_DyOpenFile (name : list Z) (mode : Z) : res DyOpenFile :=
  n ← strncpy MAX_FILE_NAME_LENGTH name;
  Ok (mkDyOpenFile n None 0 0 mode).

Definition dopen (d : DyOpenFile) : K (Z * DyOpenFile) :=
  o ← FSOpen (file_name d);
  let d := mkDyOpenFile (file_name d) o (read_pos d) (write_pos d) (open_mode d) in
  mret (match o with None => -1 | Some _ => 0 end, d).

Definition dread (d : DyOpenFile) (size : Z) : K (Z * list Z * DyOpenFile) :=
  f ← klift (deref (openfile d));
  '(read_size, data) ← ReadAt f size (read_pos d);
  if read_size =? -1 then mret (-1, data, d)
  else mret (read_size, data, mkDyOpenFile (file_name d) (openfile d) (s32 (read_pos d + read_size)) (write_pos d) (open_mode d)).

Definition dwrite (d : DyOpenFile) (buffer : list Z) (size : Z) : K (Z * DyOpenFile) :=
  if open_mode d =? RO then mret (-1, d)
  else
    f ← klift (deref (openfile d));
    write_size ← WriteAt f buffer size (write_pos d);
    if write_size =? -1 then mret (-1, d)
    else mret (write_size, mkDyOpenFile (file_name d) (openfile d) (read_pos d) (s32 (write_pos d + write_size)) (open_mode d)).

Definition dseek (d : DyOpenFile) (pos : Z) : K (Z * DyOpenFile) :=
  f ← klift (deref (openfile d));
  '(r, f) ← Seek f pos;
  let d := mkDyOpenFile (file_name d) (Some f) (read_pos d) (write_pos d) (open_mode d) in
  if r =? -1 then mret (-1, d)
  else mret (pos, mkDyOpenFile (file_name d) (openfile d) pos (write_pos d) (open_mode d)).

Definition canRead (d : DyOpenFile) : bool := negb (open_mode d =? NO_MODE).
Definition canWrite (d : DyOpenFile) : bool := open_mode d =? RW.

Definition dlength (d : DyOpenFile) : K Z := f ← klift (deref (openfile d)); Length f.

Definition getName (d : DyOpenFile) (size : nat) : res (list Z) := strncpy size (file_name d).

(** ** fdt.cc: files by name, and close *)

Fixpoint isOpen_loop (k : nat) (i : Z) (name : list Z) (t : list (option DyOpenFile)) : res bool :=
  match k with
  | O => Ok false
  | S k =>
    e ← aget t i;
    match e with
    | None => isOpen_loop k (i + 1) name t
    | Some d =>
      current_name ← getName d MAX_FILE_NAME_LENGTH;
      same ← streq current_name name;
      if (same : bool) then Ok true else isOpen_loop k (i + 1) name t
    end
  end.

Definition isOpen (name : list Z) (t : list (option DyOpenFile)) : res bool :=
  isOpen_loop (Z.to_nat (MAX_FILE_DESCRIPTOR - 2)) 2 name t.

Definition close (fd : Z) (t : list (option DyOpenFile)) : res (Z * list (option DyOpenFile)) :=
  if bad_fd fd then Ok (-1, t)
  else
    e ← aget t fd;
    match e with
    | None => Ok (-1, t)
    | Some _ => t ← aset t fd None; Ok (0, t)
    end.

(** ** ksyscall.h *)

Definition put_chars (s : list Z) : K unit := kmodify (λ st, set_out (console_out st ++ s) st).

Definition SysPrintString (string : list Z) : K Z :=
  size ← klift (strnlen (Z.to_nat MAX_ALLOWED_BUFFER_SIZE) string);
  put_chars (take (Z.to_nat size) string) ;;
  mret size.

Definition exitWithError {A} (msg : list Z) : K A := SysPrintString msg ;; Halt.

Definition SysCreate (filename : list Z) : K Z :=
  ok ← FSCreate filename;
  mret (if (ok : bool) then 0 else -1).

Definition SysAdd (op1 op2 : Z) : Z := s32 (op1 + op2).

Definition SysPrintChar (c : Z) : K unit := put_chars [c].

Definition SysOpen (filename : list Z) (mode : Z) : K Z :=
  t ← kget fdt;
  opened ← klift (isOpen filename t);
  if (opened : bool) then mret (-1)
  else
    free ← klift (hasFreeFileDescriptor t);
    if negb free then mret (-1)
    else
      d ← klift (new_DyOpenFile filename mode);
      '(r, d) ← dopen d;
      if r =? -1 then mret (-1)
      else
        '(fd, t) ← klift (Add d t);
        kmodify (set_fdt t) ;;
        mret fd.

Definition SysClose (id : Z) : K Z :=
  t ← kget fdt;
  '(r, t) ← klift (close id t);
  kmodify (set_fdt t) ;;
  mret r.

Definition GetChar : K Z := λ s,
  match console_in s with
  | [] => Blocked Z
  | c :: r => Done Z c (set_in r s)
  end.

(** The rounds of consoleRead that are left; [buffer] has a place for each. *)
Fixpoint consoleRead_loop (k : nat) (i : Z) (buffer : list Z) : K (Z * list Z) :=
  match k with
  | O => mret (i, buffer)
  | S k =>
    c ← GetChar;
    if (c =? EOF) || (c =? 0) || (c =? 10) then
      buffer ← klift (aset buffer i 0);
      mret (i, buffer)
    else
      buffer ← klift (aset buffer i c);
      consoleRead_loop k (i + 1) buffer
  end.

Definition consoleRead (buffer : list Z) (size : Z) : K (Z * list Z) :=
  '(i, buffer) ← consoleRead_loop (Z.to_nat size) 0 buffer;
  if MAX_ALLOWED_BUFFER_SIZE <? i then exitWithError (literal "String is too large") else mret (i, buffer).

Definition SysRead (buffer : list Z) (size fd : Z) : K (Z * list Z) :=
  if MAX_ALLOWED_BUFFER_SIZE <? size then exitWithError (literal "Buffer size is too large")
  else if fd =? STDIN then consoleRead buffer size
  else
    t ← kget fdt;
    o ← klift (getStream fd t);
    '(r, buffer) ← (match o with
                    | None => mret (-1, buffer)
                    | Some d =>
                      '(r, data, d) ← dread d size;
                      t ← klift (aset t fd (Some d));
                      kmodify (set_fdt t) ;;
                      klift (if Z.of_nat (length data) <=? Z.of_nat (length buffer) then Ok tt else Err BadAccess) ;;
                      mret (r, splice buffer 0 data)
                    end : K (Z * list Z));
    if MAX_ALLOWED_BUFFER_SIZE <? r then exitWithError (literal "String is too large") else mret (r, buffer).

Fixpoint consoleWrite_loop (k : nat) (i : Z) (buffer : list Z) : K Z :=
  match k with
  | O => mret i
  | S k =>
    c ← klift (aget buffer i);
    if c =? 0 then mret i
    else put_chars [c] ;; consoleWrite_loop k (i + 1) buffer
  end.

Definition consoleWrite (buffer : list Z) (size : Z) : K Z := consoleWrite_loop (Z.to_nat size) 0 buffer.

Definition SysWrite (buffer : list Z) (size fd : Z) : K Z :=
  if MAX_ALLOWED_BUFFER_SIZE <? size then exitWithError (literal "Buffer size is too large")
  else if fd =? STDOUT then consoleWrite buffer size
  else
    t ← kget fdt;
    o ← klift (getStream fd t);
    match o with
    | None => mret (-1)
    | Some d =>
      if negb (canWrite d) then mret (-1)
      else
        buffer ← klift (aset buffer size 0);
        '(r, d) ← dwrite d buffer size;
        t ← klift (aset t fd (Some d));
        kmodify (set_fdt t) ;;
        mret r
    end.

Definition SysSeek (pos fd : Z) : K Z :=
  t ← kget fdt;
  o ← klift (getStream fd t);
  if (fd =? STDIN) || (fd =? STDOUT) then exitWithError (literal "Cannot seek on STDIN or STDOUT")
  else
    match o with
    | None => mret (-1)
    | Some d =>
      pos ← (if pos =? -1 then dlength d else mret pos : K Z);
      '(_, d) ← dseek d pos;
      t ← klift (aset t fd (Some d));
      kmodify (set_fdt t) ;;
      mret pos
    end.

Definition SysRemove (filename : list Z) : K Z :=
  t ← kget fdt;
  opened ← klift (isOpen filename t);
  if (opened : bool) then mret (-1)
  else
    ok ← FSRemove filename;
    mret (if (ok : bool) then 0 else -1).
End FILES.
End Files.

Module FilesSpec.
Import CString Files.

(** ** Strings *)

(** A file name in an array of 32 characters. *)
Definition valid_name (n : list Z) : Prop := (length n ≤ 31)%nat ∧ 0 ∉ n.
Definition padded (n : list Z) : list Z := n ++ replicate (32 - length n) 0.

Lemma cstr_inv buf n : cstr buf = Ok n → 0 ∉ n ∧ ∃ rest, buf = n ++ 0 :: rest.
Proof.
  revert n. induction buf as [|c buf IH]; intros n; cbn; [done|]. destruct (Z.eqb_spec c 0) as [->|Hc].
  - intros [= <-]. split; [apply not_elem_of_nil|]. by exists buf.
  - intros E. apply bind_Ok in E as (x&E&[= <-]). destruct (IH _ E) as (Hn&rest&->). split; [rewrite not_elem_of_cons; done|]. by exists rest.
Qed.

Lemma cstr_ok n rest : 0 ∉ n → cstr (n ++ 0 :: rest) = Ok n.
Proof.
  induction n as [|c n IH]; [done|]. intros [Hc Hn]%not_elem_of_cons. cbn.
  destruct (Z.eqb_spec c 0); [congruence|]. by rewrite IH.
Qed.

Lemma strncpy_ok k n rest : 0 ∉ n → (length n < k)%nat → strncpy k (n ++ 0 :: rest) = Ok (n ++ replicate (k - length n) 0).
Proof.
  revert k. induction n as [|c n IH]; intros k Hn Hk; (destruct k as [|k]; [cbn in Hk; lia|]).
  - done.
  - apply not_elem_of_cons in Hn as [Hc Hn]. cbn. destruct (Z.eqb_spec c 0); [congruence|]. rewrite IH; [done|done|cbn in Hk; lia].
Qed.

Lemma streq_ok n1 r1 n2 r2 : 0 ∉ n1 → 0 ∉ n2 → streq (n1 ++ 0 :: r1) (n2 ++ 0 :: r2) = Ok (bool_decide (n1 = n2)).
Proof.
  revert n2. induction n1 as [|x n1 IH]; intros [|y n2] H1 H2; cbn [streq app].
  - done.
  - apply not_elem_of_cons in H2 as [Hy _]. destruct (Z.eqb_spec 0 y); [congruence|]. by rewrite bool_decide_false.
  - apply not_elem_of_cons in H1 as [Hx _]. destruct (Z.eqb_spec x 0); [congruence|]. by rewrite bool_decide_false.
  - apply not_elem_of_cons in H1 as [Hx H1]. apply not_elem_of_cons in H2 as [Hy H2].
    destruct (Z.eqb_spec x y) as [->|Hne]; [|by rewrite bool_decide_false by congruence].
    destruct (Z.eqb_spec y 0); [congruence|]. rewrite IH by done. f_equal. apply bool_decide_ext. naive_solver.
Qed.

Lemma padded_split n : valid_name n → ∃ rest, padded n = n ++ 0 :: rest.
Proof.
  intros [Hl _]. unfold padded. destruct (32 - length n)%nat as [|k] eqn:E; [lia|]. by exists (replicate k 0).
Qed.

Section SPEC.
Context {H ino : Type} `{Host H ino}.
Implicit Types (s : @State H ino) (t : list (option (@DyOpenFile ino))).

(** ** The table of open files *)

Record Desc := mkDesc { d_name : list Z; d_file : ino; d_offset : Z; d_rpos : Z; d_wpos : Z; d_mode : Z }.

Definition conc (D : Desc) : DyOpenFile :=
  mkDyOpenFile (padded (d_name D)) (Some (mkOpenFile (d_file D) (d_offset D))) (d_rpos D) (d_wpos D) (d_mode D).

Record TableOk t (T : gmap Z Desc) : Prop := {
  tb_len : length t = 20%nat;
  tb_dom fd : is_Some (T !! fd) → 2 ≤ fd < 20;
  tb_std : t !! 0%nat = Some None ∧ t !! 1%nat = Some None;
  tb_slot fd : 2 ≤ fd < 20 → t !! Z.to_nat fd = Some (conc <$> T !! fd);
  tb_valid fd D : T !! fd = Some D → valid_name (d_name D) ∧ 0 ≤ d_rpos D ∧ 0 ≤ d_wpos D;
  tb_names fd fd' D D' : T !! fd = Some D → T !! fd' = Some D' → d_name D = d_name D' → fd = fd'
}.

(** The lowest descriptor that is free. *)
Definition lowest_free (T : gmap Z Desc) : option Z :=
  head (filter (λ fd, T !! fd = None) (seqZ 2 18)).

Definition name_open (name : list Z) (T : gmap Z Desc) : Prop := map_Exists (λ _ D, d_name D = name) T.

#[global] Instance name_open_dec name T : Decision (name_open name T).
Proof. unfold name_open. apply _. Defined.

Lemma tb_get t T fd : TableOk t T → 2 ≤ fd < 20 → aget t fd = Ok (conc <$> T !! fd).
Proof. intros HT Hfd. apply aget_Ok. split; [lia|]. by apply tb_slot. Qed.

Lemma free_loop_ok t T k i :
  TableOk t T → 2 ≤ i → i + Z.of_nat k ≤ 20 →
  free_loop k i t = Ok (default (-1) (head (filter (λ fd, T !! fd = None) (seqZ i (Z.of_nat k))))).
Proof.
  intros HT. revert i. induction k as [|k IH]; intros i H2 Hk; [done|]. cbn [free_loop].
  rewrite (tb_get t T) by (done || lia). cbn [mbind res_bind]. rewrite Nat2Z.inj_succ, seqZ_cons by lia.
  destruct (T !! i) eqn:E; cbn [fmap option_fmap option_map].
  - rewrite filter_cons_False by congruence. rewrite IH by lia. by replace (Z.pred (Z.succ (Z.of_nat k))) with (Z.of_nat k) by lia.
  - rewrite filter_cons_True by done. done.
Qed.

Lemma getFree_ok t T : TableOk t T → getFreeFileDescriptor t = Ok (default (-1) (lowest_free T)).
Proof. intros HT. unfold getFreeFileDescriptor. by apply (free_loop_ok t T 18 2 HT). Qed.

Lemma lowest_free_Some T fd : lowest_free T = Some fd → 2 ≤ fd < 20 ∧ T !! fd = None.
Proof.
  unfold lowest_free. intros Hh. assert (Hin : fd ∈ filter (λ fd, T !! fd = None) (seqZ 2 18)).
  { destruct (filter _ _); [done|]. injection Hh as ->. by constructor. }
  apply list_elem_of_filter in Hin as [E Hin]. apply elem_of_seqZ in Hin. split; [lia|done].
Qed.

Lemma isOpen_loop_ok t T buf name k i :
  TableOk t T → cstr buf = Ok name → 2 ≤ i → i + Z.of_nat k ≤ 20 →
  ∃ b, isOpen_loop k i buf t = Ok b
    ∧ (b = true ↔ ∃ fd D, i ≤ fd < i + Z.of_nat k ∧ T !! fd = Some D ∧ d_name D = name).
Proof.
  intros HT Hn. apply cstr_inv in Hn as (Hnz&rest&->). revert i. induction k as [|k IH]; intros i H2 Hk; cbn [isOpen_loop].
  { exists false. split; [done|]. split; [done|]. intros (fd&D&?&_). lia. }
  rewrite (tb_get t T) by (done || lia). cbn [mbind res_bind]. destruct (IH (i + 1)) as (b&Eb&Hb); [lia..|].
  assert (Hstep : (∃ fd D, i ≤ fd < i + Z.of_nat (S k) ∧ T !! fd = Some D ∧ d_name D = name)
    ↔ (∃ D, T !! i = Some D ∧ d_name D = name) ∨ b = true).
  { rewrite Hb. split.
    - intros (fd&D&Hfd&E&En). destruct (decide (fd = i)) as [->|]; [left; by exists D|right]. exists fd, D. split; [lia|done].
    - intros [(D&E&En)|(fd&D&Hfd&E&En)]; [exists i, D|exists fd, D]; (split; [lia|done]). }
  destruct (T !! i) as [D|] eqn:E; cbn [fmap option_fmap option_map].
  - destruct (tb_valid _ _ HT i D E) as [Hv _]. destruct (padded_split _ Hv) as [r Er]. unfold getName, conc. cbn [file_name].
    assert (Ec : strncpy MAX_FILE_NAME_LENGTH (padded (d_name D)) = Ok (padded (d_name D))).
    { rewrite Er at 1. destruct Hv as [Hl Hz]. by rewrite strncpy_ok by (done || unfold MAX_FILE_NAME_LENGTH; lia). }
    rewrite Ec. cbn [mbind res_bind]. rewrite Er, streq_ok by (done || apply Hv). cbn [mbind res_bind].
    destruct (decide (d_name D = name)) as [En|En]; [rewrite bool_decide_true by done|rewrite bool_decide_false by done].
    + exists true. split; [done|]. rewrite Hstep. split; [|done]. intros _. left. by exists D.
    + exists b. split; [done|]. rewrite Hstep. split; [by right|]. intros [(D'&[= <-]&?)|?]; done.
  - exists b. split; [done|]. rewrite Hstep. split; [by right|]. intros [(D'&?&_)|?]; done.
Qed.

Lemma isOpen_ok t T buf name :
  TableOk t T → cstr buf = Ok name → isOpen buf t = Ok (bool_decide (name_open name T)).
Proof.
  intros HT Hn. unfold isOpen. change (Z.to_nat (MAX_FILE_DESCRIPTOR - 2)) with 18%nat. destruct (isOpen_loop_ok t T buf name 18 2 HT Hn) as (b&->&Hb); [lia..|]. f_equal.
  apply Bool.eq_iff_eq_true. rewrite Hb, bool_decide_eq_true. split.
  - intros (fd&D&_&E&En). by exists fd, D.
  - intros (fd&D&E&En). exists fd, D. split; [|done]. pose proof (tb_dom _ _ HT fd ltac:(by rewrite E)). lia.
Qed.

(** Changes of one slot. *)
Lemma TableOk_insert t T fd D :
  TableOk t T → 2 ≤ fd < 20 → valid_name (d_name D) → 0 ≤ d_rpos D → 0 ≤ d_wpos D →
  (∀ fd' D', T !! fd' = Some D' → d_name D' = d_name D → fd' = fd) →
  TableOk (<[Z.to_nat fd := Some (conc D)]> t) (<[fd := D]> T).
Proof.
  intros [L1 L2 [L3 L3'] L4 L5 L6] Hfd Hv Hr Hw Hnm. split.
  - by rewrite length_insert.
  - intros fd' [<-|[_ Hs]]%lookup_insert_is_Some; [done|by apply L2].
  - rewrite !list_lookup_insert_ne by lia. done.
  - intros fd' Hfd'. destruct (decide (fd' = fd)) as [->|Hne].
    + rewrite list_lookup_insert_eq by lia. by rewrite lookup_insert_eq.
    + rewrite list_lookup_insert_ne by lia. rewrite lookup_insert_ne by done. by apply L4.
  - intros fd' D' [[<- <-]|[_ E]]%lookup_insert_Some; [done|by apply (L5 fd')].
  - intros f1 f2 D1 D2 [[<- <-]|[N1 E1]]%lookup_insert_Some [[<- <-]|[N2 E2]]%lookup_insert_Some En; [done| | |by eapply L6].
    + symmetry. by apply (Hnm f2 D2).
    + by apply (Hnm f1 D1).
Qed.

Lemma TableOk_delete t T fd :
  TableOk t T → 2 ≤ fd < 20 → TableOk (<[Z.to_nat fd := None]> t) (delete fd T).
Proof.
  intros [L1 L2 [L3 L3'] L4 L5 L6] Hfd. split.
  - by rewrite length_insert.
  - intros fd' [x Hs]. apply lookup_delete_Some in Hs as [_ Hs]. apply L2. by rewrite Hs.
  - rewrite !list_lookup_insert_ne by lia. done.
  - intros fd' Hfd'. destruct (decide (fd' = fd)) as [->|Hne].
    + rewrite list_lookup_insert_eq by lia. by rewrite lookup_delete_eq.
    + rewrite list_lookup_insert_ne by lia. rewrite lookup_delete_ne by done. by apply L4.
  - intros fd' D' [_ E]%lookup_delete_Some. by apply (L5 fd').
  - intros f1 f2 D1 D2 [_ E1]%lookup_delete_Some [_ E2]%lookup_delete_Some En. by eapply L6.
Qed.

Lemma new_table_ok : TableOk new_FileDescriptorTable ∅.
Proof.
  split; try done.
  - intros fd [x Hx]. by rewrite lookup_empty in Hx.
  - intros fd Hfd. rewrite lookup_empty. apply lookup_replicate_2. unfold MAX_FILE_DESCRIPTOR. lia.
Qed.

Lemma bad_fd_true fd : bad_fd fd = true → ¬ 2 ≤ fd < 20.
Proof. unfold bad_fd, MAX_FILE_DESCRIPTOR. rewrite !orb_true_iff, Z.ltb_lt, Z.leb_le, !Z.eqb_eq. lia. Qed.
Lemma bad_fd_false fd : bad_fd fd = false → 2 ≤ fd < 20.
Proof. unfold bad_fd, MAX_FILE_DESCRIPTOR. rewrite !orb_false_iff, Z.ltb_ge, Z.leb_gt, !Z.eqb_neq. lia. Qed.

Lemma getStream_ok t T fd : TableOk t T → getStream fd t = Ok (conc <$> T !! fd).
Proof.
  intros HT. unfold getStream. destruct (bad_fd fd) eqn:E.
  - apply bad_fd_true in E. destruct (T !! fd) as [D|] eqn:ET; [|done]. destruct E. apply (tb_dom _ _ HT). by rewrite ET.
  - apply bad_fd_false in E. by apply tb_get.
Qed.

(** ** The calls *)

Lemma set_fdt_id s : set_fdt (fdt s) s = s.
Proof. by destruct s. Qed.

Lemma bind_run {A B} (c : K A) (f : A → K B) s : (c ≫= f) s = K_bind A B f c s.
Proof. done. Qed.

(** [krun] executes the next steps of a call. *)
Ltac krun := unfold mret, K_ret, mbind, K_bind, kget, klift, kmodify in *; cbn [fdt host set_fdt set_host console_in console_out] in *.

Lemma SysOpen_ok s T buf name mode :
  TableOk (fdt s) T → cstr buf = Ok name → (length name ≤ 31)%nat →
  SysOpen buf mode s =
    if decide (name_open name T) then Done _ (-1) s
    else match lowest_free T, h_open name (host s) with
         | Some fd, Some i => Done _ fd (set_fdt (<[Z.to_nat fd := Some (conc (mkDesc name i 0 0 0 mode))]> (fdt s)) s)
         | _, _ => Done _ (-1) s
         end.
Proof.
  intros HT Hn Hl. unfold SysOpen. krun. rewrite (isOpen_ok _ T buf name HT Hn).
  case_decide as Hopen; [by rewrite bool_decide_true|rewrite bool_decide_false by done].
  unfold hasFreeFileDescriptor. rewrite (getFree_ok _ T HT). cbn [mbind res_bind].
  destruct (lowest_free T) as [fd|] eqn:Ef; cbn [from_option id]; [|done].
  destruct (lowest_free_Some T fd Ef) as [Hfd _]. rewrite (proj2 (Z.eqb_neq fd (-1))) by lia. cbn [negb].
  pose proof (cstr_inv buf name Hn) as (Hz&rest&->). unfold new_DyOpenFile, MAX_FILE_NAME_LENGTH.
  rewrite strncpy_ok by (done || lia). cbn [mbind res_bind]. fold (padded name). unfold dopen, FSOpen. krun. cbn [file_name].
  destruct (padded_split name) as [r Er]; [done|]. rewrite Er at 1. rewrite cstr_ok by done.
  destruct (h_open name (host s)) as [i|]; cbn [fmap option_fmap option_map]; [|done].
  unfold Add. rewrite (getFree_ok _ T HT), Ef. cbn [mbind res_bind from_option id].
  rewrite (proj2 (Z.eqb_neq fd (-1))) by lia. rewrite aset_in by (rewrite (tb_len _ _ HT); lia). done.
Qed.

Lemma SysOpen_table s T buf name mode :
  TableOk (fdt s) T → cstr buf = Ok name → (length name ≤ 31)%nat →
  if decide (name_open name T) then SysOpen buf mode s = Done _ (-1) s
  else match lowest_free T, h_open name (host s) with
       | Some fd, Some i =>
         ∃ s', SysOpen buf mode s = Done _ fd s' ∧ TableOk (fdt s') (<[fd := mkDesc name i 0 0 0 mode]> T) ∧ host s' = host s
       | _, _ => SysOpen buf mode s = Done _ (-1) s
       end.
Proof.
  intros HT Hn Hl. pose proof (cstr_inv buf name Hn) as [Hz _].
  pose proof (SysOpen_ok s T buf name mode HT Hn Hl) as E. case_decide as Ho; [done|].
  destruct (lowest_free T) as [f|] eqn:Ef; [|done]. destruct (h_open name (host s)) as [i|]; [|done].
  eexists. split; [exact E|]. split; [|done]. destruct (lowest_free_Some T f Ef) as [Hf _].
  apply TableOk_insert; try done. intros f' D' ED En. destruct Ho. by exists f', D'.
Qed.

Lemma SysClose_ok s T fd :
  TableOk (fdt s) T →
  SysClose fd s = match T !! fd with
                  | Some _ => Done _ 0 (set_fdt (<[Z.to_nat fd := None]> (fdt s)) s)
                  | None => Done _ (-1) s
                  end.
Proof.
  intros HT. unfold SysClose, close. krun. destruct (bad_fd fd) eqn:Eb.
  - apply bad_fd_true in Eb. destruct (T !! fd) as [D|] eqn:E; [|by rewrite set_fdt_id].
    destruct Eb. apply (tb_dom _ _ HT). by rewrite E.
  - apply bad_fd_false in Eb. rewrite (tb_get _ T) by done. cbn [mbind res_bind].
    destruct (T !! fd) as [D|]; cbn [fmap option_fmap option_map]; [|by rewrite set_fdt_id].
    rewrite aset_in by (rewrite (tb_len _ _ HT); lia). done.
Qed.

Lemma SysRemove_ok s T buf name :
  TableOk (fdt s) T → cstr buf = Ok name →
  SysRemove buf s = if decide (name_open name T) then Done _ (-1) s
                    else match h_unlink name (host s) with
                         | Some h => Done _ 0 (set_host h s)
                         | None => Done _ (-1) s
                         end.
Proof.
  intros HT Hn. unfold SysRemove, FSRemove. krun. rewrite (isOpen_ok _ T buf name HT Hn).
  case_decide; [by rewrite bool_decide_true|rewrite bool_decide_false by done]. rewrite Hn. by destruct (h_unlink name (host s)).
Qed.

Lemma SysCreate_ok s buf name :
  cstr buf = Ok name →
  SysCreate buf s = match h_create name (host s) with Some h => Done _ 0 (set_host h s) | None => Failed _ AssertFailed end.
Proof. intros Hn. unfold SysCreate, FSCreate. krun. rewrite Hn. by destruct (h_create name (host s)). Qed.

(** A descriptor after a transfer or a seek. *)
Definition at_rpos (p : Z) (D : Desc) : Desc := mkDesc (d_name D) (d_file D) (d_offset D) p (d_wpos D) (d_mode D).
Definition at_wpos (p : Z) (D : Desc) : Desc := mkDesc (d_name D) (d_file D) (d_offset D) (d_rpos D) p (d_mode D).
Definition sought (p : Z) (D : Desc) : Desc := mkDesc (d_name D) (d_file D) p p (d_wpos D) (d_mode D).

Definition put_desc (fd : Z) (D : Desc) s : State := set_fdt (<[Z.to_nat fd := Some (conc D)]> (fdt s)) s.

Lemma TableOk_put s T fd D D' :
  TableOk (fdt s) T → T !! fd = Some D → d_name D' = d_name D → 0 ≤ d_rpos D' → 0 ≤ d_wpos D' →
  TableOk (fdt (put_desc fd D' s)) (<[fd := D']> T).
Proof.
  intros HT ED En Hr Hw. destruct (tb_valid _ _ HT fd D ED) as (Hv&_). apply TableOk_insert; try done.
  - apply (tb_dom _ _ HT). by rewrite ED.
  - by rewrite En.
  - intros f' D2 E2 En2. apply (tb_names _ _ HT f' fd D2 D); congruence.
Qed.

Lemma slice_host_write old (p : Z) l : 0 ≤ p → slice (host_write old p l) p (Z.of_nat (length l)) = l.
Proof.
  intros Hp. unfold host_write, slice, splice. rewrite drop_app_length'; [|rewrite length_take, length_app, length_replicate; lia].
  by rewrite Nat2Z.id, take_app_length.
Qed.

Context `{!HostLaws H ino}.

Lemma SysRead_ok s T buffer (size fd : Z) :
  TableOk (fdt s) T → 0 ≤ size ≤ MAX_ALLOWED_BUFFER_SIZE → fd ≠ STDIN → size ≤ Z.of_nat (length buffer) →
  (∀ D, T !! fd = Some D → d_rpos D + size < halfword) →
  SysRead buffer size fd s =
    match T !! fd with
    | None => Done _ (-1, buffer) s
    | Some D =>
      let data := slice (h_bytes (host s) (d_file D)) (d_rpos D) size in
      Done _ (Z.of_nat (length data), splice buffer 0 (map s8 data)) (put_desc fd (at_rpos (d_rpos D + Z.of_nat (length data)) D) s)
    end.
Proof.
  intros HT Hsz Hfd Hbuf Hs32. unfold SysRead. rewrite (proj2 (Z.ltb_ge _ _)) by lia. rewrite (proj2 (Z.eqb_neq _ _)) by done.
  krun. rewrite (getStream_ok _ T fd HT). destruct (T !! fd) as [D|] eqn:ED; cbn [fmap option_fmap option_map]; [|done].
  destruct (tb_valid _ _ HT fd D ED) as (_&Hr&_). pose proof (tb_dom _ _ HT fd ltac:(by rewrite ED)) as Hd.
  unfold dread, ReadAt. krun. cbn [openfile conc deref read_pos file]. rewrite (proj2 (Z.leb_le _ _)) by done. cbn [ASSERT].
  rewrite h_read_ok by lia. set (data := slice _ _ size).
  assert (Hlen : Z.of_nat (length data) ≤ size) by (unfold data, slice; rewrite length_take; lia).
  rewrite (proj2 (Z.eqb_neq _ (-1))) by lia. rewrite aset_in by (rewrite (tb_len _ _ HT); lia).
  rewrite length_map. rewrite (proj2 (Z.leb_le _ _)) by lia. rewrite (proj2 (Z.ltb_ge _ _)) by lia.
  specialize (Hs32 D eq_refl). rewrite s32_id by (unfold_int; lia). done.
Qed.

Lemma SysWrite_ok s T buffer (size fd : Z) :
  TableOk (fdt s) T → 0 ≤ size ≤ MAX_ALLOWED_BUFFER_SIZE → fd ≠ STDOUT → Z.of_nat (length buffer) = size + 1 →
  (∀ D, T !! fd = Some D → d_wpos D + size < halfword) →
  SysWrite buffer size fd s =
    match T !! fd with
    | None => Done _ (-1) s
    | Some D =>
      if d_mode D =? RW then
        match h_write (d_file D) (d_wpos D) (map u8 (take (Z.to_nat size) buffer)) (host s) with
        | Some h => Done _ size (put_desc fd (at_wpos (d_wpos D + size) D) (set_host h s))
        | None => Failed _ AssertFailed
        end
      else Done _ (-1) s
    end.
Proof.
  intros HT Hsz Hfd Hbuf Hs32. unfold SysWrite. rewrite (proj2 (Z.ltb_ge _ _)) by lia. rewrite (proj2 (Z.eqb_neq _ _)) by done.
  krun. rewrite (getStream_ok _ T fd HT). destruct (T !! fd) as [D|] eqn:ED; cbn [fmap option_fmap option_map]; [|done].
  destruct (tb_valid _ _ HT fd D ED) as (_&_&Hw). pose proof (tb_dom _ _ HT fd ltac:(by rewrite ED)) as Hd.
  unfold canWrite. cbn [open_mode conc]. destruct (Z.eqb_spec (d_mode D) RW) as [Em|Em]; cbn [negb]; [|done].
  rewrite aset_in by lia. unfold dwrite, WriteAt. cbn [open_mode conc]. rewrite Em. cbn [Z.eqb RW RO Pos.eqb]. krun.
  cbn [openfile conc deref write_pos file]. rewrite (proj2 (Z.leb_le 0 (d_wpos D))), (proj2 (Z.leb_le 0 size)) by lia. cbn [ASSERT].
  rewrite length_insert, (proj2 (Z.leb_le size _)) by lia. rewrite take_insert_ge by lia.
  destruct (h_write _ _ _ _) as [h|]; [|done]. rewrite (proj2 (Z.eqb_neq size (-1))) by lia. cbn [set_host fdt].
  rewrite aset_in by (rewrite (tb_len _ _ HT); lia). specialize (Hs32 D eq_refl). rewrite s32_id by (unfold_int; lia).
  unfold put_desc, conc, at_wpos. cbn. by rewrite Em.
Qed.

(** Where SysSeek goes: the end of the file for -1; a position outside the file
    changes nothing. *)
Definition seek_pos (pos : Z) (D : Desc) (h : H) : Z := if pos =? -1 then h_length (d_file D) h else pos.
Definition seek_desc (p : Z) (D : Desc) (h : H) : Desc :=
  if decide (0 ≤ p ≤ h_length (d_file D) h) then sought p D else D.

Lemma SysSeek_ok s T (pos fd : Z) :
  TableOk (fdt s) T → fd ≠ STDIN → fd ≠ STDOUT →
  SysSeek pos fd s =
    match T !! fd with
    | None => Done _ (-1) s
    | Some D => Done _ (seek_pos pos D (host s)) (put_desc fd (seek_desc (seek_pos pos D (host s)) D (host s)) s)
    end.
Proof.
  intros HT Hf0 Hf1. unfold SysSeek. krun. rewrite (getStream_ok _ T fd HT).
  rewrite (proj2 (Z.eqb_neq fd STDIN)), (proj2 (Z.eqb_neq fd STDOUT)) by done. cbn [orb].
  destruct (T !! fd) as [D|] eqn:ED; cbn [fmap option_fmap option_map]; [|done].
  pose proof (tb_dom _ _ HT fd ltac:(by rewrite ED)) as Hd.
  assert (Epos : (if pos =? -1 then dlength (conc D) else λ s, Done Z pos s) s = Done Z (seek_pos pos D (host s)) s).
  { unfold seek_pos, dlength, Length. krun. by destruct (pos =? -1). }
  rewrite Epos. set (p := seek_pos pos D (host s)). unfold dseek, Seek, Length. krun. cbn [openfile conc deref file].
  unfold seek_desc, put_desc.
  destruct (Z.ltb_spec p 0); [|destruct (Z.ltb_spec (h_length (d_file D) (host s)) p)]; cbn [Z.eqb Pos.eqb].
  - rewrite decide_False by lia. rewrite aset_in by (rewrite (tb_len _ _ HT); lia). done.
  - rewrite decide_False by lia. rewrite aset_in by (rewrite (tb_len _ _ HT); lia). done.
  - rewrite decide_True by lia. rewrite (proj2 (Z.eqb_neq p (-1))) by lia. rewrite aset_in by (rewrite (tb_len _ _ HT); lia). done.
Qed.

Lemma SysSeek_console s T (pos fd : Z) :
  TableOk (fdt s) T → fd = STDIN ∨ fd = STDOUT →
  SysSeek pos fd s = Halted _ (set_out (console_out s ++ chars "Cannot seek on STDIN or STDOUT") s).
Proof.
  intros HT Hfd. unfold SysSeek. krun. rewrite (getStream_ok _ T fd HT).
  by replace ((fd =? STDIN) || (fd =? STDOUT)) with true by (by destruct Hfd as [->| ->]).
Qed.

(** A line typed at the console. *)
Definition line_end (c : Z) : bool := (c =? EOF) || (c =? 0) || (c =? 10).

Lemma consoleRead_loop_ok line c rest k (i : nat) buffer s :
  Forall (λ x, line_end x = false) line → line_end c = true → console_in s = line ++ c :: rest →
  (length line < k)%nat → (i + k ≤ length buffer)%nat →
  consoleRead_loop k (Z.of_nat i) buffer s
    = Done _ (Z.of_nat (i + length line), take i buffer ++ line ++ 0 :: drop (i + S (length line)) buffer) (set_in rest s).
Proof.
  intros Hl Hc. revert k i buffer s. induction Hl as [|x line Hx Hl IH]; intros k i buffer s Hin Hk Hb; (destruct k as [|k]; [cbn in Hk; lia|]).
  - cbn [consoleRead_loop]. unfold GetChar. krun. rewrite Hin. cbn [app]. unfold line_end in Hc. rewrite Hc.
    rewrite aset_in by lia. rewrite Nat2Z.id. f_equal. f_equal; [cbn; lia|]. rewrite insert_take_drop by lia. cbn. by replace (i + 1)%nat with (S i) by lia.
  - cbn [consoleRead_loop]. unfold GetChar at 1. krun. rewrite Hin. cbn [app]. unfold line_end in Hx. rewrite Hx.
    rewrite aset_in by lia. replace (Z.of_nat i + 1) with (Z.of_nat (S i)) by lia. rewrite Nat2Z.id.
    rewrite (IH k (S i) (<[i:=x]> buffer) (set_in (line ++ c :: rest) s)); [|done|cbn in Hk; lia|rewrite length_insert; lia].
    f_equal. f_equal; [cbn [length]; lia|]. rewrite (take_S_r _ _ x) by (apply list_lookup_insert_eq; lia).
    rewrite take_insert_ge by lia. rewrite drop_insert_lt by lia. rewrite <- app_assoc. cbn [app length].
    by replace (S i + S (length line))%nat with (i + S (S (length line)))%nat by lia.
Qed.

(** A line that is longer than the place for it. *)
Lemma consoleRead_loop_full line rest k (i : nat) buffer s :
  Forall (λ x, line_end x = false) line → console_in s = line ++ rest → length line = k → (i + k ≤ length buffer)%nat →
  consoleRead_loop k (Z.of_nat i) buffer s
    = Done _ (Z.of_nat (i + length line), take i buffer ++ line ++ drop (i + length line) buffer) (set_in rest s).
Proof.
  intros Hl. revert k i buffer s. induction Hl as [|x line Hx Hl IH]; intros k i buffer s Hin <- Hb; cbn [length consoleRead_loop].
  - rewrite Nat.add_0_r. cbn [app] in *. rewrite take_drop, <- Hin. krun. by destruct s.
  - unfold GetChar at 1. krun. rewrite Hin. cbn [app]. unfold line_end in Hx. rewrite Hx. cbn [length] in Hb.
    rewrite aset_in by lia. replace (Z.of_nat i + 1) with (Z.of_nat (S i)) by lia. rewrite Nat2Z.id.
    rewrite (IH (length line) (S i) (<[i:=x]> buffer) (set_in (line ++ rest) s)); [|done|done|rewrite length_insert; lia].
    f_equal. f_equal; [lia|]. rewrite (take_S_r _ _ x) by (apply list_lookup_insert_eq; lia).
    rewrite take_insert_ge by lia. rewrite drop_insert_lt by lia. rewrite <- app_assoc. cbn [app].
    by replace (S i + length line)%nat with (i + S (length line))%nat by lia.
Qed.

(** The input ends before the line does. *)
Lemma consoleRead_loop_blocked line k (i : nat) buffer s :
  Forall (λ x, line_end x = false) line → console_in s = line → (length line < k)%nat → (i + k ≤ length buffer)%nat →
  consoleRead_loop k (Z.of_nat i) buffer s = Blocked _.
Proof.
  intros Hl. revert k i buffer s. induction Hl as [|x line Hx Hl IH]; intros k i buffer s Hin Hk Hb; (destruct k as [|k]; [cbn in Hk; lia|]);
    cbn [consoleRead_loop]; unfold GetChar at 1; krun; rewrite Hin; [done|].
  unfold line_end in Hx. rewrite Hx. rewrite aset_in by lia. replace (Z.of_nat i + 1) with (Z.of_nat (S i)) by lia.
  apply IH; [done|cbn in Hk; lia|rewrite length_insert; lia].
Qed.

Lemma SysRead_console buffer (size n : Z) buffer' s s' :
  n ≤ size ≤ MAX_ALLOWED_BUFFER_SIZE → consoleRead_loop (Z.to_nat size) 0 buffer s = Done _ (n, buffer') s' →
  SysRead buffer size STDIN s = Done _ (n, buffer') s'.
Proof.
  intros Hsz E. unfold SysRead. rewrite (proj2 (Z.ltb_ge _ _)) by lia. cbn [STDIN Z.eqb]. unfold consoleRead, mbind, K_bind.
  rewrite E. by rewrite (proj2 (Z.ltb_ge _ _)) by lia.
Qed.

Lemma SysWrite_console buffer (size : Z) s :
  size ≤ MAX_ALLOWED_BUFFER_SIZE → SysWrite buffer size STDOUT s = consoleWrite_loop (Z.to_nat size) 0 buffer s.
Proof. intros Hsz. unfold SysWrite. by rewrite (proj2 (Z.ltb_ge _ _)) by lia. Qed.

(** As many characters as are asked for, without a NUL. *)
Lemma consoleWrite_loop_full str rest (i : nat) buffer s :
  drop i buffer = str ++ rest → 0 ∉ str →
  consoleWrite_loop (length str) (Z.of_nat i) buffer s = Done _ (Z.of_nat (i + length str)) (set_out (console_out s ++ str) s).
Proof.
  revert i s. induction str as [|x str IH]; intros i s Hd Hz; cbn [length consoleWrite_loop].
  - krun. rewrite Nat.add_0_r, app_nil_r. by destruct s.
  - apply not_elem_of_cons in Hz as [Hx Hz].
    assert (E : aget buffer (Z.of_nat i) = Ok x).
    { apply aget_Ok. split; [lia|]. rewrite Nat2Z.id. rewrite <- (Nat.add_0_r i), <- lookup_drop, Hd. done. }
    krun. rewrite E. destruct (Z.eqb_spec x 0); [congruence|]. unfold put_chars. krun.
    replace (Z.of_nat i + 1) with (Z.of_nat (S i)) by lia. rewrite IH; [|by rewrite <- Nat.add_1_r, <- drop_drop, Hd|done].
    cbn [console_out set_out]. rewrite <- app_assoc. cbn [app]. f_equal. lia.
Qed.

Lemma consoleWrite_loop_ok str rest k (i : nat) buffer s :
  drop i buffer = str ++ 0 :: rest → 0 ∉ str → (length str < k)%nat →
  consoleWrite_loop k (Z.of_nat i) buffer s = Done _ (Z.of_nat (i + length str)) (set_out (console_out s ++ str) s).
Proof.
  revert k i s. induction str as [|x str IH]; intros k i s Hd Hz Hk; (destruct k as [|k]; [cbn in Hk; lia|]); cbn [consoleWrite_loop].
  - assert (E : aget buffer (Z.of_nat i) = Ok 0).
    { apply aget_Ok. split; [lia|]. rewrite Nat2Z.id. rewrite <- (Nat.add_0_r i), <- lookup_drop, Hd. done. }
    krun. rewrite E. cbn. rewrite Nat.add_0_r, app_nil_r. by destruct s.
  - apply not_elem_of_cons in Hz as [Hx Hz].
    assert (E : aget buffer (Z.of_nat i) = Ok x).
    { apply aget_Ok. split; [lia|]. rewrite Nat2Z.id. rewrite <- (Nat.add_0_r i), <- lookup_drop, Hd. done. }
    krun. rewrite E. destruct (Z.eqb_spec x 0); [congruence|]. unfold put_chars. krun.
    replace (Z.of_nat i + 1) with (Z.of_nat (S i)) by lia. rewrite IH; [|by rewrite <- Nat.add_1_r, <- drop_drop, Hd|done|cbn in Hk; lia].
    cbn [length console_out set_out]. rewrite <- app_assoc. cbn [app]. f_equal. lia.
Qed.
End SPEC.
End FilesSpec.

Import CString Files FilesSpec.



(** ** A small host, to show the laws can hold *)

Record MiniHost := mkMini { dir : gmap (list Z) nat; store : gmap nat (list Z); next_ino : nat }.

(** The host knows that ./a is a. *)
Fixpoint canon (n : list Z) : list Z :=
  match n with
  | a :: (b :: r) as rest => if (a =? 46) && (b =? 47) then canon r else n
  | _ => n
  end.

Definition mini_create (n : list Z) (h : MiniHost) : option MiniHost :=
  match dir h !! canon n with
  | Some i => Some (mkMini (dir h) (<[i := []]> (store h)) (next_ino h))
  | None => Some (mkMini (<[canon n := next_ino h]> (dir h)) (<[next_ino h := []]> (store h)) (S (next_ino h)))
  end.

#[global] Instance mini_host : Host MiniHost nat := {
  h_open n h := dir h !! canon n;
  h_create := mini_create;
  h_unlink n h := match dir h !! canon n with Some _ => Some (mkMini (delete (canon n) (dir h)) (store h) (next_ino h)) | None => None end;
  h_read i pos n h := Some (slice (default [] (store h !! i)) pos n);
  h_write i pos data h := Some (mkMini (dir h) (<[i := host_write (default [] (store h !! i)) pos data]> (store h)) (next_ino h));
  h_length i h := Z.of_nat (length (default [] (store h !! i)))
}.

#[global] Instance mini_laws : HostLaws MiniHost nat.
Proof.
  refine {| h_bytes h i := default [] (store h !! i) |}; cbn.
  - done.
  - done.
  - intros i pos data h h' _ [= <-]. cbn. rewrite lookup_insert_eq. split; [done|]. split; [|done].
    intros j Hj. by rewrite lookup_insert_ne.
  - intros n h h' E. unfold mini_create in E. destruct (dir h !! canon n) as [i|] eqn:Ed; injection E as <-; cbn.
    + exists i. rewrite lookup_insert_eq. split_and!; try done; [congruence| |by left]. intros j Hj. by rewrite lookup_insert_ne.
    + exists (next_ino h). rewrite !lookup_insert_eq. split_and!; try done.
      * intros j Hj. by rewrite lookup_insert_ne.
      * intros n'. destruct (decide (canon n' = canon n)) as [->|Hne]; [right; by rewrite lookup_insert_eq|left; by rewrite lookup_insert_ne].
  - intros n h h' E. destruct (dir h !! canon n) as [i|] eqn:Ed; [|done]. injection E as <-. cbn. rewrite lookup_delete_eq.
    split; [done|]. split; [done|]. intros n'. destruct (decide (canon n' = canon n)) as [->|Hne].
    + right. rewrite lookup_delete_eq. split; [done|]. intros j [= <-]. by left.
    + left. by rewrite lookup_delete_ne.
Defined.

(** One file with the name "a" and three bytes, nothing open. *)
Definition mini_state : @State MiniHost nat :=
  mkState (mkMini {[ [97] := 0%nat ]} {[ 0%nat := [10; 20; 30] ]} 1) new_FileDescriptorTable [104; 105; 10] [].



(** Remove looks for the name among the names that are open, not for the file: the
    open file a is removed under the name ./a, and cannot be opened again. *)
Example open_file_removed :
  match SysOpen [97; 0] RO mini_state with
  | Done _ fd s =>
    fd = 2 ∧ SysRemove [97; 0] s = Done _ (-1) s
    ∧ match SysRemove [46; 47; 97; 0] s with Done _ r s => r = 0 ∧ h_open [97] (host s) = None | _ => False end
  | _ => False
  end.
Proof. vm_compute. split_and!; reflexivity. Qed.
