(* ===== verification/Syscall.v ===== *)
(** userprog/exception.cc: the entry of the kernel from user programs, for the
    calls on files and the console, Add and Halt.

    A handler works on the registers and memory of the machine (Machine.v) and on
    the state of the file calls (Files.v).  ReadMem and WriteMem raise an
    exception when the address is not mapped, which calls ExceptionHandler again:
    all its cases but the system calls abort.  The calls on processes and
    semaphores are in ProcCalls.v, those on sockets in SocketCalls.v. *)

From Stdlib Require Import String Ascii.
From S2P Require Import Prelude Machine AddrSpace Files.
#[local] Open Scope list_scope.

Module Syscall.
Import Machine CString Files.

Definition MAX_STRING_LEN : Z := 64.
Definition FILE_NAME_MAX_LEN : Z := 32.

Definition SC_Halt : Z := 0.
Definition SC_Create : Z := 4.
Definition SC_Remove : Z := 5.
Definition SC_Open : Z := 6.
Definition SC_Read : Z := 7.
Definition SC_Write : Z := 8.
Definition SC_Seek : Z := 9.
Definition SC_Close : Z := 10.
Definition SC_Add : Z := 42.
Definition SC_PrintStrn : Z := 50.

(** The numbers of the other calls: Exit, Exec, Join, ExecV, GetArgvs and the
    named semaphores (ProcCalls.v), and the sockets. *)
Definition other_calls : list Z := [1; 2; 3; 13; 20; 60; 61; 62; 63; 64; 65; 66; 69; 70; 71].

Section SYSCALL.
Context {H ino : Type} `{Host H ino}.

Record Kern := mkKern { machine : Machine; files : @State H ino }.

Inductive sout (A : Type) :=
| SDone (a : A) (k : Kern)
| SHalted (k : Kern)
| SBlocked
| SFailed (e : fault).

Definition S (A : Type) : Type := Kern → sout A.
#[global] Instance S_ret : MRet S := λ A a k, SDone A a k.
#[global] Instance S_bind : MBind S := λ A B f c k,
  match c k with
  | SDone _ a k' => f a k'
  | SHalted _ k' => SHalted B k'
  | SBlocked _ => SBlocked B
  | SFailed _ e => SFailed B e
  end.

Definition slift {A} (r : res A) : S A := λ k, match r with Ok a => SDone A a k | Err e => SFailed A e end.

(** An access to the machine.  An exception enters ExceptionHandler, which ends
    in ASSERTNOTREACHED for every exception a memory access can raise. *)
Definition mach {A} (c : M A) : S A := λ k,
  match c (machine k) with
  | Ret a m => SDone A a (mkKern m (files k))
  | Trap _ _ => SFailed A AssertFailed
  | Fault e => SFailed A e
  end.

Definition kern {A} (c : @K H ino A) : S A := λ k,
  match c (files k) with
  | Done _ a s => SDone A a (mkKern (machine k) s)
  | Halted _ s => SHalted A (mkKern (machine k) s)
  | Blocked _ => SBlocked A
  | Failed _ e => SFailed A e
  end.

(** [new char[n]]: a negative size throws and nobody catches. *)
Definition new_chars (n : Z) : S (list Z) :=
  slift (if n <? 0 then Err AssertFailed else Ok (replicate (Z.to_nat n) 0)).

(** The loop of User2System over [n] more characters. *)
Fixpoint user2system_loop (n : nat) (i virtAddr : Z) (kernelBuf : list Z) : S (list Z) :=
  match n with
  | O => mret kernelBuf
  | Datatypes.S n =>
    oneChar ← mach (ReadMem (s32 (virtAddr + i)) 1);
    kernelBuf ← slift (aset kernelBuf i (s8 oneChar));
    if oneChar =? 0 then mret kernelBuf
    else user2system_loop n (i + 1) virtAddr kernelBuf
  end.

Definition User2System (virtAddr limit : Z) : S (list Z) :=
  kernelBuf ← new_chars (s32 (limit + 1));
  kernelBuf ← slift (aset kernelBuf limit 0);
  user2system_loop (Z.to_nat limit) 0 virtAddr kernelBuf.

Fixpoint system2user_loop (n : nat) (i virtAddr : Z) (buffer : list Z) : S Z :=
  match n with
  | O => mret i
  | Datatypes.S n =>
    oneChar ← slift (aget buffer i);
    mach (WriteMem (s32 (virtAddr + i)) 1 oneChar) ;;
    if negb (oneChar =? 0) then system2user_loop n (i + 1) virtAddr buffer else mret (i + 1)
  end.

Definition System2User (virtAddr len : Z) (buffer : list Z) : S Z :=
  if len <? 0 then mret (-1)
  else if len =? 0 then mret len
  else system2user_loop (Z.to_nat len) 0 virtAddr buffer.

Definition increasePC : S unit :=
  pc ← mach (ReadRegister PCReg);
  mach (WriteRegister PrevPCReg pc) ;;
  pc ← mach (ReadRegister PCReg);
  mach (WriteRegister PCReg (s32 (pc + 4))) ;;
  pc ← mach (ReadRegister PCReg);
  mach (WriteRegister NextPCReg (s32 (pc + 4))).

(** ** The cases of ExceptionHandler *)

Definition finish (result : Z) : S unit := mach (WriteRegister 2 result) ;; increasePC.

Definition do_Halt : S unit := kern Halt.

Definition do_Create : S unit :=
  virtAddr ← mach (ReadRegister 4);
  filename ← User2System virtAddr FILE_NAME_MAX_LEN;
  r ← kern (SysCreate filename);
  finish r.

Definition do_Open : S unit :=
  virtAddr ← mach (ReadRegister 4);
  mode ← mach (ReadRegister 5);
  filename ← User2System virtAddr FILE_NAME_MAX_LEN;
  if negb (mode =? RO) && negb (mode =? RW) then mach (WriteRegister 2 (-1))
  else
    fileID ← kern (SysOpen filename mode);
    finish fileID.

Definition do_Close : S unit :=
  fd ← mach (ReadRegister 4);
  r ← kern (SysClose fd);
  finish r.

Definition do_Read : S unit :=
  virtAddr ← mach (ReadRegister 4);
  size ← mach (ReadRegister 5);
  fd ← mach (ReadRegister 6);
  sys_buffer ← new_chars (s32 (size + 1));
  '(read_count, sys_buffer) ← kern (SysRead sys_buffer size fd);
  _ ← System2User virtAddr size sys_buffer;
  finish read_count.

Definition do_Write : S unit :=
  virtAddr ← mach (ReadRegister 4);
  size ← mach (ReadRegister 5);
  fd ← mach (ReadRegister 6);
  sys_buffer ← User2System virtAddr size;
  write_count ← kern (SysWrite sys_buffer size fd);
  finish write_count.

Definition do_Seek : S unit :=
  pos ← mach (ReadRegister 4);
  fd ← mach (ReadRegister 5);
  res ← kern (SysSeek pos fd);
  finish res.

Definition do_Remove : S unit :=
  virtAddr ← mach (ReadRegister 4);
  filename ← User2System virtAddr FILE_NAME_MAX_LEN;
  res ← kern (SysRemove filename);
  finish res.

Definition do_Add : S unit :=
  op1 ← mach (ReadRegister 4);
  op2 ← mach (ReadRegister 5);
  finish (SysAdd op1 op2).

Definition do_PrintStrn : S unit :=
  virtAddr ← mach (ReadRegister 4);
  strn ← User2System virtAddr MAX_STRING_LEN;
  count ← kern (SysPrintString strn);
  finish count.

(** The switch on the number of the call: [None] for the other calls. *)
Definition system_call (type : Z) : option (S unit) :=
  if bool_decide (type ∈ other_calls) then None
  else Some
    (if type =? SC_Halt then do_Halt
     else if type =? SC_Create then do_Create
     else if type =? SC_Open then do_Open
     else if type =? SC_Close then do_Close
     else if type =? SC_Read then do_Read
     else if type =? SC_Write then do_Write
     else if type =? SC_Seek then do_Seek
     else if type =? SC_Remove then do_Remove
     else if type =? SC_Add then do_Add
     else if type =? SC_PrintStrn then do_PrintStrn
     else slift (Err AssertFailed)).

Definition ExceptionHandler (which : ExceptionType) (k : Kern) : option (sout unit) :=
  match ReadRegister 2 (machine k) with
  | Ret type _ =>
    match which with
    | SyscallException => (λ c, c k) <$> system_call type
    | _ => Some (SFailed unit AssertFailed)
    end
  | Trap _ _ => None
  | Fault e => Some (SFailed unit e)
  end.
End SYSCALL.
End Syscall.

Module SyscallSpec.
Import Machine MachineSpec AddrSpaceSpec CString Files Syscall.
Implicit Types (sp : AddrSpace.AddrSpace) (m : Machine).

(** ** The memory of the running program *)

(** The machine runs the program in [sp]. *)
Record Runs sp m : Prop := {
  ru_space : SpaceOk sp;
  ru_pages : AddrSpace.numPages sp ≤ NumPhysPages;
  ru_wf : Wfx m;
  ru_tlb : tlb m = None;
  ru_table : ∃ pt, pageTable m = Some pt ∧ Forall2 same_entry (AddrSpace.pageTable sp) pt
}.

(** Its address space, and the byte at an address. *)
Definition mapped sp (va : Z) : Prop := 0 ≤ va < AddrSpace.numPages sp * PageSize.
Definition umem sp m (va : Z) : option Z := view sp (mainMemory m) va.

Lemma mapped_s32 sp m va : Runs sp m → mapped sp va → is_s32 va ∧ is_u32 va.
Proof. intros HR [Hv1 Hv2]. pose proof (ru_pages _ _ HR). unfold_int. unfold NumPhysPages, PageSize in *. lia. Qed.

Lemma mapped_entry sp m va : Runs sp m → mapped sp va →
  ∃ e, AddrSpace.pageTable sp !! Z.to_nat (va / PageSize) = Some e ∧ 0 ≤ physicalPage e < NumPhysPages ∧ readOnly e = false ∧ valid e = true.
Proof.
  intros HR [Hv1 Hv2]. pose proof (so_pages _ (ru_space _ _ HR)) as Hn.
  destruct (lookup_lt_is_Some_2 (AddrSpace.pageTable sp) (Z.to_nat (va / PageSize))) as [e He]; [unfold PageSize in *; dlia|].
  exists e. split; [done|]. destruct (so_entry _ (ru_space _ _ HR) _ _ He) as (_&?&?&?). done.
Qed.

Lemma umem_Some sp m va : Runs sp m → mapped sp va → ∃ b, umem sp m va = Some b ∧ is_byte b.
Proof.
  intros HR Hva. destruct (mapped_entry sp m va HR Hva) as (e&He&Hf&_). unfold umem, view. rewrite He. cbn.
  pose proof (frame_range e Hf) as [F1 F2]. assert (Hmod : 0 ≤ va mod PageSize < PageSize) by (apply Z.mod_pos_bound; done).
  pose proof (wf_memlen _ (ru_wf _ _ HR)) as Hl.
  destruct (lookup_lt_is_Some_2 (mainMemory m) (Z.to_nat (physicalPage e * PageSize + va mod PageSize))) as [b Hb]; [lia|].
  exists b. split; [done|]. exact (proj1 (Forall_lookup _ _) (wf_mem _ (ru_wf _ _ HR)) _ _ Hb).
Qed.

(** Accesses to a byte, and to an aligned word. *)
Definition aligned (size va : Z) : Prop := size = 1 ∨ size = 4 ∧ Z.land va 3 = 0.

Lemma aligned_check size va :
  aligned size va → ((size =? 4) && negb (Z.land va 3 =? 0)) || ((size =? 2) && negb (Z.land va 1 =? 0)) = false.
Proof. intros [->|[-> ->]]; reflexivity. Qed.

Lemma aligned_room size va : aligned size va → 1 ≤ size ∧ va mod PageSize + size ≤ PageSize.
Proof.
  assert (Hmod : 0 ≤ va mod PageSize < PageSize) by (apply Z.mod_pos_bound; done). intros [->|[-> Ha]]; [lia|].
  change 3 with (Z.ones 2) in Ha. rewrite Z.land_ones in Ha by lia. unfold PageSize in *. change (2 ^ 2) with 4 in Ha. dlia.
Qed.

Lemma Translate_user sp m va size (w : bool) e :
  Runs sp m → mapped sp va → aligned size va → AddrSpace.pageTable sp !! Z.to_nat (va / PageSize) = Some e →
  ∃ m1, Translate va size w m = Ok (inr (physicalPage e * PageSize + va mod PageSize), m1) ∧ Runs sp m1
    ∧ registers m1 = registers m ∧ mainMemory m1 = mainMemory m.
Proof.
  intros HR Hva Hal He. destruct (mapped_s32 sp m va HR Hva) as [_ Hu]. pose proof HR as [HS Hp Hwf Ht (pt&Hpt&HF)].
  destruct (Translate_ok m va size w Hwf) as (r&m1&E&Htr); [destruct Hal as [->|[-> _]]; [by left|by right; right]|]. exists m1.
  destruct (so_entry _ HS _ _ He) as (_&Hv&Hro&Hf). destruct (Forall2_lookup_l _ _ _ _ _ HF He) as (e'&He'&(_&Ep&Ev&Ero)).
  pose proof (so_pages _ HS) as Hnp. pose proof (Forall2_length _ _ _ HF) as Hlen. pose proof (wf_table _ Hwf) as Htab. rewrite Ht, Hpt in Htab.
  pose proof (frame_range e Hf) as [F1 F2]. assert (Hmod : 0 ≤ va mod PageSize < PageSize) by (apply Z.mod_pos_bound; done).
  destruct (aligned_room size va Hal) as [Hsz Hroom].
  assert (Hdiv : 0 ≤ va / PageSize) by (apply Z.div_pos; [apply Hva|done]). pose proof (lookup_lt_Some _ _ _ He') as Hlt.
  assert (Er : r = inr (physicalPage e * PageSize + va mod PageSize)).
  { revert E. unfold Translate. rewrite aligned_check by done. rewrite Ht, Hpt, u32_id by done. cbn [bool_decide decide decide_rel option_eq_None_dec orb negb ASSERT mbind res_bind deref].
    rewrite (proj2 (Z.leb_gt (pageTableSize m) _)) by lia.
    assert (Eg : aget pt (va / PageSize) = Ok e') by (by apply aget_Ok). rewrite Eg. cbn [mbind res_bind].
    rewrite <- Ev, Hv. cbn [negb]. unfold entry_check. rewrite <- Ero, Hro. cbn [andb].
    rewrite <- Ep, (u32_id (physicalPage e)) by (unfold_int; unfold NumPhysPages in *; lia).
    rewrite (proj2 (Z.leb_gt NumPhysPages _)) by lia.
    rewrite s32_id by (unfold_int; unfold MemorySize, NumPhysPages, PageSize in *; lia).
    rewrite (proj2 (Z.leb_le 0 _)), (proj2 (Z.leb_le _ MemorySize)) by lia. cbn [andb ASSERT mbind res_bind].
    rewrite aset_in by lia. cbn [mbind res_bind]. by intros [= <- _]. }
  subst r. split; [done|]. pose proof Htr as [T1 T2 (S1&S2&S3) T4 _]. split; [|done].
  split; [done|done|done| |].
  - rewrite Ht in S1. by inversion S1.
  - rewrite Hpt in S2. inversion S2 as [? pt' HF' E1 E2|]. exists pt'. split; [done|]. by etrans.
Qed.

(** Only use and dirty bits have changed. *)
Definition quiet sp m m' : Prop := Runs sp m' ∧ registers m' = registers m ∧ mainMemory m' = mainMemory m.

Lemma quiet_umem sp m m' va : quiet sp m m' → umem sp m' va = umem sp m va.
Proof. intros (_&_&E). unfold umem. by rewrite E. Qed.

Lemma read_user sp m va b :
  Runs sp m → mapped sp va → umem sp m va = Some b → ∃ m', ReadMem va 1 m = Ret (s8 b) m' ∧ quiet sp m m'.
Proof.
  intros HR Hva Hb. destruct (mapped_entry sp m va HR Hva) as (e&He&Hf&_).
  destruct (Translate_user sp m va 1 false e HR Hva ltac:(by left) He) as (m1&ET&HR1&Er&Em). exists m1. split; [|done].
  unfold umem, view in Hb. rewrite He in Hb. cbn in Hb. pose proof (frame_range e Hf) as [F1 F2].
  assert (Hmod : 0 ≤ va mod PageSize < PageSize) by (apply Z.mod_pos_bound; done).
  unfold ReadMem, translate, mbind, M_bind, gets, lift, mret, M_ret. rewrite ET. cbn [load_le]. rewrite Em.
  assert (E : aget (mainMemory m) (physicalPage e * PageSize + va mod PageSize) = Ok b) by (apply aget_Ok; split; [lia|done]).
  rewrite E. cbn [mbind res_bind]. by rewrite Z.mul_0_r, Z.add_0_r.
Qed.

(** Distinct addresses are in distinct places of the main memory. *)
Lemma place_inj sp va va' e e' :
  SpaceOk sp → 0 ≤ va → 0 ≤ va' →
  AddrSpace.pageTable sp !! Z.to_nat (va / PageSize) = Some e → AddrSpace.pageTable sp !! Z.to_nat (va' / PageSize) = Some e' →
  physicalPage e * PageSize + va mod PageSize = physicalPage e' * PageSize + va' mod PageSize → va = va'.
Proof.
  intros HS H1 H2 He He' E.
  assert (Ep : physicalPage e = physicalPage e') by (unfold PageSize in *; dlia).
  assert (Ei : Z.to_nat (va / PageSize) = Z.to_nat (va' / PageSize)).
  { apply (NoDup_lookup _ _ _ (physicalPage e) (so_nodup _ HS)); unfold frames; rewrite list_lookup_fmap; [by rewrite He|by rewrite He', Ep]. }
  unfold PageSize in *. dlia.
Qed.

(** A change of the memory of the running program only, at some addresses. *)
Record updated sp m (f : Z → option Z) m' : Prop := {
  up_runs : Runs sp m';
  up_regs : registers m' = registers m;
  up_umem va : mapped sp va → umem sp m' va = match f va with Some b => Some b | None => umem sp m va end;
  up_rest : same_outside (frames sp) (mainMemory m) (mainMemory m')
}.

Lemma write_user sp m va v :
  Runs sp m → mapped sp va →
  ∃ m', WriteMem va 1 v m = Ret tt m' ∧ updated sp m (λ x, if decide (x = va) then Some (u8 v) else None) m'.
Proof.
  intros HR Hva. destruct (mapped_entry sp m va HR Hva) as (e&He&Hf&_).
  destruct (Translate_user sp m va 1 true e HR Hva ltac:(by left) He) as (m1&ET&HR1&Er&Em).
  pose proof (frame_range e Hf) as [F1 F2]. assert (Hmod : 0 ≤ va mod PageSize < PageSize) by (apply Z.mod_pos_bound; done).
  set (p := physicalPage e * PageSize + va mod PageSize) in *. pose proof (wf_memlen _ (ru_wf _ _ HR)) as Hlen.
  assert (Ev : Z.land v 255 mod 256 = u8 v).
  { change 255 with (Z.ones 8). rewrite Z.land_ones by lia. change (2 ^ 8) with 256. unfold u8. by rewrite Z.mod_mod by lia. }
  assert (EW : WriteMem va 1 v m = Ret tt (set_mainMemory (<[Z.to_nat p := u8 v]> (mainMemory m)) m1)).
  { unfold WriteMem, translate, mbind, M_bind, gets, lift, modify. rewrite ET, Em. cbn [store_le]. rewrite aset_in by lia. cbn [mbind res_bind]. by rewrite Ev. }
  eexists. split; [exact EW|].
  destruct (WriteMem_inv m va 1 v _ (ru_wf _ _ HR) ltac:(by left) EW) as (p2&m2&mem2&_&E2&_&_&Hwf&_). rewrite <- E2 in Hwf.
  split.
  - destruct HR1 as [R1 R2 R3 R4 R5]. by split.
  - done.
  - intros x Hx. unfold umem, view. cbn [mainMemory set_mainMemory]. destruct (mapped_entry sp m x HR Hx) as (ex&Hex&Hfx&_). rewrite Hex. cbn.
    pose proof (frame_range ex Hfx) as [G1 G2]. assert (Hmodx : 0 ≤ x mod PageSize < PageSize) by (apply Z.mod_pos_bound; done).
    case_decide as Hd.
    + subst x. rewrite He in Hex. injection Hex as <-. apply list_lookup_insert_eq. unfold p in *. lia.
    + apply list_lookup_insert_ne. intros E. apply Hd. symmetry. unfold p in E.
      apply (place_inj sp va x e ex (ru_space _ _ HR)); [apply Hva|apply Hx|done|done|lia].
  - intros a Ha Hn. cbn [mainMemory set_mainMemory]. apply list_lookup_insert_ne. intros E. apply Hn.
    replace a with p by lia. destruct (phys_addr_split p (physicalPage e) (va mod PageSize)) as [-> _]; [lia|done|done|].
    apply list_elem_of_fmap. exists e. split; [done|]. by eapply list_elem_of_lookup_2.
Qed.

Lemma Raise_traps {A} x (va : Z) m : Wfx m → is_s32 va → ∃ m', RaiseException (A := A) x va m = Trap x m'.
Proof.
  intros Hwf Hva. pose proof (post_Raise (A := A) m m x va (λ _ _, False) (λ y _, y = x) (Ev_refl m Hwf) Hva ltac:(done)) as HP.
  unfold post in HP. destruct (RaiseException x va m) as [| |]; [done| |done]. subst. by eexists.
Qed.

(** An address outside the address space traps. *)
Lemma unmapped_traps sp m va size (w : bool) :
  Runs sp m → is_s32 va → ¬ mapped sp va → Translate va size w m = Ok (inl AddressErrorException, m).
Proof.
  intros HR Hva Hn. destruct HR as [HS Hp Hwf Ht (pt&Hpt&HF)]. unfold Translate. destruct (_ || _); [done|]. rewrite Ht, Hpt.
  cbn [bool_decide decide decide_rel option_eq_None_dec orb negb ASSERT mbind res_bind deref].
  pose proof (wf_table _ Hwf) as Htab. rewrite Ht, Hpt in Htab. pose proof (Forall2_length _ _ _ HF) as Hlen.
  pose proof (so_pages _ HS) as Hnp. rewrite (proj2 (Z.leb_le (pageTableSize m) _)); [done|].
  unfold mapped in Hn. unfold_int. unfold NumPhysPages, PageSize in *. dlia.
Qed.

Lemma unmapped_access sp m va v :
  Runs sp m → is_s32 va → ¬ mapped sp va →
  (∃ m', ReadMem va 1 m = Trap AddressErrorException m') ∧ (∃ m', WriteMem va 1 v m = Trap AddressErrorException m').
Proof.
  intros HR Hva Hn. unfold ReadMem, WriteMem, translate, mbind, M_bind. rewrite !(unmapped_traps sp m va 1) by done.
  destruct (Raise_traps (A := Z) AddressErrorException va m (ru_wf _ _ HR) Hva) as [m' ->]. split; by eexists.
Qed.

(** ** Strings between user and kernel *)

(** Bytes of the program at an address. *)
Definition holds sp m (va : Z) (l : list Z) : Prop :=
  ∀ (i : nat) b, l !! i = Some b → mapped sp (va + Z.of_nat i) ∧ umem sp m (va + Z.of_nat i) = Some b.

(** The characters User2System takes: up to a NUL, or up to the limit. *)
Record Str sp m (va : Z) (limit : nat) (l : list Z) : Prop := {
  st_holds : holds sp m va l;
  st_nul : 0 ∉ l;
  st_end : length l = limit ∨ (length l < limit)%nat ∧ holds sp m va (l ++ [0])
}.

(** What System2User sends: up to a NUL, and the NUL. *)
Fixpoint cut (l : list Z) : list Z :=
  match l with [] => [] | c :: r => if c =? 0 then [c] else c :: cut r end.

(** Bytes of a list, at an address. *)
Definition at_addr (va : Z) (l : list Z) (x : Z) : option Z :=
  if decide (va ≤ x) then l !! Z.to_nat (x - va) else None.

Lemma holds_cons sp m va c l :
  holds sp m va (c :: l) ↔ (mapped sp va ∧ umem sp m va = Some c) ∧ holds sp m (va + 1) l.
Proof.
  split.
  - intros Hh. split; [specialize (Hh 0%nat c eq_refl); by rewrite Z.add_0_r in Hh|].
    intros i b Hi. specialize (Hh (Datatypes.S i) b Hi). by replace (va + 1 + Z.of_nat i) with (va + Z.of_nat (Datatypes.S i)) by lia.
  - intros [H1 H2] [|i] b Hi; [injection Hi as <-; by rewrite Z.add_0_r|].
    specialize (H2 i b Hi). by replace (va + Z.of_nat (Datatypes.S i)) with (va + 1 + Z.of_nat i) by lia.
Qed.

Lemma holds_quiet sp m m' va l : quiet sp m m' → holds sp m va l → holds sp m' va l.
Proof. intros Hq Hh i b Hi. rewrite (quiet_umem sp m m') by done. by apply Hh. Qed.

Lemma quiet_refl sp m : Runs sp m → quiet sp m m.
Proof. done. Qed.
Lemma quiet_trans sp m1 m2 m3 : quiet sp m1 m2 → quiet sp m2 m3 → quiet sp m1 m3.
Proof. intros (_&E1&E2) (HR&E3&E4). split; [done|]. split; congruence. Qed.

Lemma s8_nonzero b : is_byte b → b ≠ 0 → s8 b ≠ 0.
Proof. intros Hb Hn E. apply Hn. rewrite <- (u8_id b Hb), <- u8_s8, E. done. Qed.

Section TRANSFER.
Context {H ino : Type} `{Host H ino}.
Implicit Types (f : @State H ino).

Ltac srun := unfold mret, S_ret, mbind, S_bind, slift, mach, kern; cbn [machine files].

Lemma user2system_loop_ok sp va l : ∀ (n k : nat) pre m f,
  Runs sp m → holds sp m (va + Z.of_nat (length pre)) l → 0 ∉ l →
  length l = n ∨ (length l < n)%nat ∧ holds sp m (va + Z.of_nat (length pre)) (l ++ [0]) → (n ≤ k)%nat →
  ∃ m', user2system_loop n (Z.of_nat (length pre)) va (pre ++ replicate k 0) (mkKern m f)
      = SDone _ (pre ++ map s8 l ++ replicate (k - length l) 0) (mkKern m' f) ∧ quiet sp m m'.
Proof.
  induction l as [|c l IH]; intros n k pre m f HR Hh Hz He Hk.
  - destruct n as [|n]; [exists m; split; [cbn; by rewrite Nat.sub_0_r|done]|]. destruct He as [He|[_ He]]; [done|].
    cbn [app] in He. apply holds_cons in He as [[Hm Hu] _]. destruct (mapped_s32 sp m _ HR Hm) as [Hs _].
    destruct (read_user sp m _ 0 HR Hm Hu) as (m'&E&Hq). exists m'. split; [|done]. cbn [user2system_loop]. srun. rewrite s32_id by done. rewrite E.
    change (s8 0) with 0. change (s8 0 =? 0) with true. rewrite aset_in by (rewrite length_app, length_replicate; lia).
    cbn [Z.eqb]. f_equal. rewrite Nat2Z.id. cbn [map app length]. rewrite Nat.sub_0_r. destruct k as [|k]; [lia|]. cbn [replicate].
    by rewrite <- (Nat.add_0_r (length pre)), insert_app_r.
  - destruct n as [|n]; [destruct He as [He|[He _]]; cbn in He; lia|]. apply holds_cons in Hh as [[Hm Hu] Hh].
    apply not_elem_of_cons in Hz as [Hc Hz]. destruct (mapped_s32 sp m _ HR Hm) as [Hs _].
    destruct (umem_Some sp m _ HR Hm) as (b&Eb&Hb). rewrite Hu in Eb. injection Eb as <-.
    destruct (read_user sp m _ c HR Hm Hu) as (m1&E&Hq). cbn [user2system_loop]. srun. rewrite s32_id by done. rewrite E.
    rewrite aset_in by (rewrite length_app, length_replicate; lia). rewrite (proj2 (Z.eqb_neq _ _)) by (apply s8_nonzero; [exact Hb|congruence]).
    destruct k as [|k]; [lia|]. rewrite Nat2Z.id. cbn [replicate].
    assert (Ei : <[length pre := s8 (s8 c)]> (pre ++ 0 :: replicate k 0) = (pre ++ [s8 c]) ++ replicate k 0).
    { rewrite <- (Nat.add_0_r (length pre)), insert_app_r, <- app_assoc. cbn. by rewrite s8_idem. }
    assert (El : Z.of_nat (length pre) + 1 = Z.of_nat (length (pre ++ [s8 c]))) by (rewrite length_app; cbn; lia).
    rewrite Ei, El. assert (Ea : va + Z.of_nat (length (pre ++ [s8 c])) = va + Z.of_nat (length pre) + 1) by lia.
    destruct (IH n k (pre ++ [s8 c]) m1 f) as (m'&E'&Hq'); [apply Hq|rewrite Ea; by eapply holds_quiet|done| |lia|].
    + rewrite Ea. cbn in He. destruct He as [He|[He1 He2]]; [left; lia|right; split; [lia|]].
      apply holds_cons in He2 as [_ He2]. by eapply holds_quiet.
    + exists m'. rewrite E'. split; [|by eapply quiet_trans]. f_equal. rewrite <- app_assoc. done.
Qed.

Lemma User2System_ok sp m f va (limit : nat) l :
  Runs sp m → is_s32 (Z.of_nat limit + 1) → Str sp m va limit l →
  ∃ m', User2System va (Z.of_nat limit) (mkKern m f)
      = SDone _ (map s8 l ++ replicate (Datatypes.S limit - length l) 0) (mkKern m' f) ∧ quiet sp m m'.
Proof.
  intros HR Hl [S1 S2 S3]. unfold User2System, new_chars. srun. rewrite s32_id by done. rewrite (proj2 (Z.ltb_ge _ _)) by lia.
  rewrite aset_in by (rewrite length_replicate; lia). rewrite Nat2Z.id.
  replace (Z.to_nat (Z.of_nat limit + 1)) with (Datatypes.S limit) by lia.
  assert (Ez : <[limit:=0]> (replicate (Datatypes.S limit) 0) = replicate (Datatypes.S limit) 0) by apply insert_replicate. rewrite Ez.
  pose proof (user2system_loop_ok sp va l limit (Datatypes.S limit) [] m f HR) as Hu. cbn [length app] in Hu. change (Z.of_nat 0) with 0 in Hu.
  rewrite Z.add_0_r in Hu. apply Hu; [done|done|done|lia].
Qed.

(** A character outside the address space, before a NUL and the limit. *)
Lemma user2system_loop_bad sp va l : ∀ (n : nat) i buf m f,
  Runs sp m → holds sp m (va + i) l → 0 ∉ l → (length l < n)%nat → ¬ mapped sp (s32 (va + i + Z.of_nat (length l))) →
  0 ≤ i → i + Z.of_nat n ≤ Z.of_nat (length buf) →
  user2system_loop n i va buf (mkKern m f) = SFailed _ AssertFailed.
Proof.
  induction l as [|c l IH]; intros n i buf m f HR Hh Hz Hn Hbad Hi Hb; (destruct n as [|n]; [cbn in Hn; lia|]); cbn [user2system_loop]; srun.
  - cbn in Hbad. rewrite Z.add_0_r in Hbad. destruct (unmapped_access sp m _ 0 HR (s32_range _) Hbad) as [[m' ->] _]. done.
  - apply holds_cons in Hh as [[Hm Hu] Hh]. apply not_elem_of_cons in Hz as [Hc Hz]. destruct (mapped_s32 sp m _ HR Hm) as [Hs _].
    destruct (umem_Some sp m _ HR Hm) as (b&Eb&Hbyte). rewrite Hu in Eb. injection Eb as <-.
    destruct (read_user sp m _ c HR Hm Hu) as (m1&E&Hq). rewrite s32_id by done. rewrite E.
    rewrite aset_in by lia. rewrite (proj2 (Z.eqb_neq _ _)) by (apply s8_nonzero; [exact Hbyte|congruence]).
    apply IH; [apply Hq| |done|cbn in Hn; lia| |lia|rewrite length_insert; lia].
    + rewrite Z.add_assoc. by eapply holds_quiet.
    + cbn in Hbad. by replace (va + (i + 1) + Z.of_nat (length l)) with (va + i + Z.of_nat (Datatypes.S (length l))) by lia.
Qed.

Lemma User2System_bad sp m f va (limit : nat) l :
  Runs sp m → is_s32 (Z.of_nat limit + 1) → holds sp m va l → 0 ∉ l → (length l < limit)%nat →
  ¬ mapped sp (s32 (va + Z.of_nat (length l))) → User2System va (Z.of_nat limit) (mkKern m f) = SFailed _ AssertFailed.
Proof.
  intros HR Hl Hh Hz Hlt Hbad. unfold User2System, new_chars. srun. rewrite s32_id by done. rewrite (proj2 (Z.ltb_ge _ _)) by lia.
  rewrite aset_in by (rewrite length_replicate; lia). rewrite Nat2Z.id.
  apply (user2system_loop_bad sp va l); try done; rewrite ?Z.add_0_r; try done. rewrite length_insert, length_replicate. lia.
Qed.

(** *** The other way *)

Lemma updated_id sp m : Runs sp m → updated sp m (λ _, None) m.
Proof. by split. Qed.

Lemma updated_trans sp m g m1 h m2 (u : Z → option Z) :
  updated sp m g m1 → updated sp m1 h m2 → (∀ x, u x = match h x with Some b => Some b | None => g x end) → updated sp m u m2.
Proof.
  intros [A1 A2 A3 A4] [B1 B2 B3 B4] Hu. split; [done|congruence| |by etrans].
  intros va Hva. rewrite B3, A3, Hu by done. by destruct (h va).
Qed.

Lemma at_addr_cons va c l x :
  at_addr va (c :: l) x = match at_addr (va + 1) l x with Some b => Some b | None => if decide (x = va) then Some c else None end.
Proof.
  unfold at_addr. destruct (decide (x = va)) as [->|Hne].
  - rewrite decide_True by lia. rewrite decide_False by lia. by rewrite Z.sub_diag.
  - destruct (decide (va ≤ x)).
    + rewrite decide_True by lia. replace (Z.to_nat (x - va)) with (Datatypes.S (Z.to_nat (x - (va + 1)))) by lia. cbn. by destruct (l !! _).
    + by rewrite decide_False by lia.
Qed.

Lemma system2user_loop_ok sp va rest : ∀ (n : nat) pre m f,
  Runs sp m → (n ≤ length rest)%nat →
  (∀ j, (j < length (cut (take n rest)))%nat → mapped sp (va + Z.of_nat (length pre) + Z.of_nat j)) →
  ∃ r m', system2user_loop n (Z.of_nat (length pre)) va (pre ++ rest) (mkKern m f) = SDone _ r (mkKern m' f)
    ∧ updated sp m (at_addr (va + Z.of_nat (length pre)) (map u8 (cut (take n rest)))) m'.
Proof.
  induction rest as [|c rest IH]; intros n pre m f HR Hn Hm.
  - destruct n as [|n]; [|cbn in Hn; lia]. eexists _, m. split; [done|]. eapply updated_trans; [by apply updated_id..|].
    intros x. unfold at_addr. by case_decide.
  - destruct n as [|n].
    { eexists _, m. split; [done|]. eapply updated_trans; [by apply updated_id..|]. intros x. unfold at_addr. by case_decide. }
    cbn [system2user_loop]. srun. assert (E : aget (pre ++ c :: rest) (Z.of_nat (length pre)) = Ok c).
    { apply aget_Ok. split; [lia|]. rewrite Nat2Z.id. by apply list_lookup_middle. }
    rewrite E. cbn [take cut] in Hm |- *. assert (Hm0 : mapped sp (va + Z.of_nat (length pre))).
    { specialize (Hm 0%nat). rewrite Z.add_0_r in Hm. apply Hm. destruct (c =? 0); cbn; lia. }
    destruct (mapped_s32 sp m _ HR Hm0) as [Hs _]. rewrite s32_id by done.
    destruct (write_user sp m _ c HR Hm0) as (m1&Ew&Hup). cbn [machine files]. rewrite Ew. destruct (c =? 0) eqn:Ec; cbn [negb].
    + eexists _, m1. split; [done|]. eapply updated_trans; [by apply updated_id|exact Hup|]. intros x. cbn [map]. rewrite at_addr_cons.
      replace (at_addr _ [] x) with (@None Z) by (unfold at_addr; by case_decide). by case_decide.
    + assert (El : Z.of_nat (length pre) + 1 = Z.of_nat (length (pre ++ [c]))) by (rewrite length_app; cbn; lia).
      assert (Ea : pre ++ c :: rest = (pre ++ [c]) ++ rest) by (by rewrite <- app_assoc).
      rewrite Ea, El. destruct (IH n (pre ++ [c]) m1 f (up_runs _ _ _ _ Hup)) as (r&m'&Er&Hup'); [cbn in Hn; lia| |].
      * intros j Hj. rewrite <- El. specialize (Hm (Datatypes.S j)). cbn in Hm.
        replace (va + (Z.of_nat (length pre) + 1) + Z.of_nat j) with (va + Z.of_nat (length pre) + Z.of_nat (Datatypes.S j)) by lia. apply Hm. lia.
      * eexists r, m'. split; [done|]. eapply updated_trans; [exact Hup|exact Hup'|]. intros x. cbn [map]. rewrite at_addr_cons, <- El.
        by rewrite Z.add_assoc.
Qed.

Lemma System2User_ok sp m f va (len : nat) buf :
  Runs sp m → (len ≤ length buf)%nat →
  (∀ j, (j < length (cut (take len buf)))%nat → mapped sp (va + Z.of_nat j)) →
  ∃ r m', System2User va (Z.of_nat len) buf (mkKern m f) = SDone _ r (mkKern m' f) ∧ updated sp m (at_addr va (map u8 (cut (take len buf)))) m'.
Proof.
  intros HR Hl Hm. unfold System2User. rewrite (proj2 (Z.ltb_ge _ _)) by lia. destruct (Z.eqb_spec (Z.of_nat len) 0) as [E|E].
  - replace len with 0%nat by lia. eexists _, m. split; [done|]. eapply updated_trans; [by apply updated_id..|].
    intros x. unfold at_addr. by case_decide.
  - rewrite Nat2Z.id. pose proof (system2user_loop_ok sp va buf len [] m f HR Hl) as Hu. cbn [length app] in Hu. change (Z.of_nat 0) with 0 in Hu.
    rewrite Z.add_0_r in Hu. by apply Hu.
Qed.

Lemma system2user_loop_bad sp va (j : nat) : ∀ (n : nat) pre rest m f,
  Runs sp m → (n ≤ length rest)%nat → (j < length (cut (take n rest)))%nat →
  (∀ i, (i < j)%nat → mapped sp (va + Z.of_nat (length pre) + Z.of_nat i)) →
  ¬ mapped sp (s32 (va + Z.of_nat (length pre) + Z.of_nat j)) →
  system2user_loop n (Z.of_nat (length pre)) va (pre ++ rest) (mkKern m f) = SFailed _ AssertFailed.
Proof.
  induction j as [|j IH]; intros n pre rest m f HR Hn Hj Hm Hbad; (destruct rest as [|c rest], n as [|n]; cbn in Hn, Hj; try lia);
    cbn [system2user_loop]; srun;
    (assert (E : aget (pre ++ c :: rest) (Z.of_nat (length pre)) = Ok c) by (apply aget_Ok; split; [lia|]; rewrite Nat2Z.id; by apply list_lookup_middle));
    rewrite E; cbn [machine files].
  - rewrite Z.add_0_r in Hbad. destruct (unmapped_access sp m _ c HR (s32_range _) Hbad) as [_ [m' ->]]. done.
  - destruct (c =? 0) eqn:Ec; [cbn in Hj; lia|]. cbn in Hj. assert (Hm0 : mapped sp (va + Z.of_nat (length pre))) by (specialize (Hm 0%nat); rewrite Z.add_0_r in Hm; apply Hm; lia).
    destruct (mapped_s32 sp m _ HR Hm0) as [Hs _]. rewrite s32_id by done.
    destruct (write_user sp m _ c HR Hm0) as (m1&Ew&Hup). rewrite Ew. cbn [negb].
    assert (El : Z.of_nat (length pre) + 1 = Z.of_nat (length (pre ++ [c]))) by (rewrite length_app; cbn; lia).
    change (pre ++ c :: rest) with (pre ++ [c] ++ rest). rewrite El, (app_assoc pre [c] rest). apply IH; [apply Hup|lia|lia| |].
    + intros i Hi. rewrite <- El. specialize (Hm (Datatypes.S i)).
      replace (va + (Z.of_nat (length pre) + 1) + Z.of_nat i) with (va + Z.of_nat (length pre) + Z.of_nat (Datatypes.S i)) by lia. apply Hm. lia.
    + rewrite <- El. by replace (va + (Z.of_nat (length pre) + 1) + Z.of_nat j) with (va + Z.of_nat (length pre) + Z.of_nat (Datatypes.S j)) by lia.
Qed.

Lemma System2User_bad sp m f va (len : nat) buf (j : nat) :
  Runs sp m → (len ≤ length buf)%nat → (j < length (cut (take len buf)))%nat →
  (∀ i, (i < j)%nat → mapped sp (va + Z.of_nat i)) → ¬ mapped sp (s32 (va + Z.of_nat j)) →
  System2User va (Z.of_nat len) buf (mkKern m f) = SFailed _ AssertFailed.
Proof.
  intros HR Hl Hj Hm Hbad. unfold System2User. rewrite (proj2 (Z.ltb_ge _ _)) by lia.
  destruct (Z.eqb_spec (Z.of_nat len) 0) as [E|E]; [destruct len; [rewrite take_0 in Hj; cbn in Hj|]; lia|]. rewrite Nat2Z.id.
  pose proof (system2user_loop_bad sp va j len [] buf m f HR Hl Hj) as Hu. cbn [length app] in Hu. change (Z.of_nat 0) with 0 in Hu.
  rewrite Z.add_0_r in Hu. by apply Hu.
Qed.

(** ** Registers *)

Lemma ReadRegister_run (i : Z) v m : registers m !! Z.to_nat i = Some v → 0 ≤ i < 40 → ReadRegister i m = Ret v m.
Proof.
  intros Hv Hi. unfold ReadRegister, reg, lift, gets, mbind, M_bind, NumTotalRegs.
  rewrite (proj2 (Z.leb_le 0 i)), (proj2 (Z.ltb_lt i 40)) by lia. cbn.
  assert (E : aget (registers m) i = Ok v) by (apply aget_Ok; split; [lia|done]). by rewrite E.
Qed.

(** The registers after a call that returns [r]: the result, and the next instruction. *)
Definition ret_regs (rs : list Z) (r pc : Z) : list Z :=
  <[35%nat := s32 (pc + 8)]> (<[34%nat := s32 (pc + 4)]> (<[36%nat := pc]> (<[2%nat := r]> rs))).

Lemma s32_plus4 pc : s32 (s32 (pc + 4) + 4) = s32 (pc + 8).
Proof.
  rewrite <- (s32_u32 (s32 (pc + 4) + 4)), <- (s32_u32 (pc + 8)). f_equal. unfold u32. rewrite Z.add_mod by (unfold wordsize; lia).
  change (s32 (pc + 4) mod wordsize) with (u32 (s32 (pc + 4))). rewrite u32_s32. unfold u32. rewrite <- Z.add_mod by (unfold wordsize; lia). f_equal. lia.
Qed.

Lemma set_registers_Runs sp m rs :
  Runs sp m → length rs = 40%nat → Forall is_s32 rs → rs !! 37%nat = registers m !! 37%nat → Runs sp (set_registers rs m).
Proof. intros [R1 R2 [W1 W2 W3 W4 W5 W6] R4 R5] Hl Hs H37. split; try done. split; try done. cbn. by rewrite H37. Qed.

Lemma ret_regs_Runs sp m r pc : Runs sp m → is_s32 r → is_s32 pc → Runs sp (set_registers (ret_regs (registers m) r pc) m).
Proof.
  intros HR Hr Hpc. apply set_registers_Runs; [done| | |].
  - unfold ret_regs. rewrite !length_insert. apply HR.
  - unfold ret_regs. repeat apply Forall_insert; try done; try apply s32_range. apply HR.
  - unfold ret_regs. by rewrite !list_lookup_insert_ne by lia.
Qed.

Lemma finish_run sp m f r pc :
  Runs sp m → registers m !! 34%nat = Some pc →
  finish r (mkKern m f) = SDone _ tt (mkKern (set_registers (ret_regs (registers m) r pc) m) f).
Proof.
  intros HR Hpc. pose proof (wf_nregs _ (ru_wf _ _ HR)) as Hl. unfold finish, increasePC, PCReg, PrevPCReg, NextPCReg. srun.
  rewrite WriteRegister_run by lia. cbn [machine files].
  rewrite (ReadRegister_run 34 pc) by (lia || (cbn; by rewrite list_lookup_insert_ne)). cbn [machine files].
  rewrite WriteRegister_run by (lia || (cbn; by rewrite length_insert)). cbn [machine files].
  rewrite (ReadRegister_run 34 pc) by (lia || (cbn; by rewrite !list_lookup_insert_ne)). cbn [machine files].
  rewrite WriteRegister_run by (lia || (cbn; by rewrite !length_insert)). cbn [machine files].
  rewrite (ReadRegister_run 34 (s32 (pc + 4))) by (lia || (cbn; rewrite list_lookup_insert_eq; [done|by rewrite !length_insert, Hl; lia])).
  cbn [machine files]. rewrite WriteRegister_run by (lia || (cbn; by rewrite !length_insert)). by rewrite s32_plus4.
Qed.

(** ** From a call to its return *)

(** A call has returned [r] in register 2 to the next instruction; it has changed
    the memory of the program as [u] says, and nobody else's. *)
Record Returned sp m (r : Z) (u : Z → option Z) m' : Prop := {
  rt_runs : Runs sp m';
  rt_regs : ∃ pc, registers m !! 34%nat = Some pc ∧ registers m' = ret_regs (registers m) r pc;
  rt_umem va : mapped sp va → umem sp m' va = match u va with Some b => Some b | None => umem sp m va end;
  rt_rest : same_outside (frames sp) (mainMemory m) (mainMemory m')
}.

Lemma quiet_updated sp m m' : quiet sp m m' → updated sp m (λ _, None) m'.
Proof. intros (HR&E1&E2). split; [done|done|intros va _; unfold umem; by rewrite E2|by rewrite E2]. Qed.

Lemma finish_returns sp m u m1 r f :
  updated sp m u m1 → is_s32 r → ∃ m', finish r (mkKern m1 f) = SDone _ tt (mkKern m' f) ∧ Returned sp m r u m'.
Proof.
  intros [U1 U2 U3 U4] Hr. destruct (lookup_lt_is_Some_2 (registers m1) 34) as [pc Hpc]; [rewrite (wf_nregs _ (ru_wf _ _ U1)); lia|].
  rewrite (finish_run sp m1 f r pc U1 Hpc). eexists. split; [done|].
  assert (Hs : is_s32 pc) by exact (proj1 (Forall_lookup _ _) (wf_s32 _ (ru_wf _ _ U1)) _ _ Hpc).
  split; [by apply ret_regs_Runs| |exact U3|exact U4]. exists pc. cbn. by rewrite U2 in *.
Qed.

(** The handler does what the kernel call [o] does, and returns its result. *)
Definition answers sp m (o : @outcome H ino Z) (res : option (sout unit)) : Prop :=
  match o with
  | Done _ r f' => is_s32 r → ∃ m', res = Some (SDone unit tt (mkKern m' f')) ∧ Returned sp m r (λ _, None) m'
  | Halted _ f' => ∃ m', res = Some (SHalted unit (mkKern m' f')) ∧ quiet sp m m'
  | Blocked _ => res = Some (SBlocked unit)
  | Failed _ e => res = Some (SFailed unit e)
  end.

Lemma kern_answers sp m m1 f (c : @K H ino Z) :
  quiet sp m m1 → answers sp m (c f) (Some ((r ← kern c; finish r) (mkKern m1 f))).
Proof.
  intros Hq. unfold answers. srun. destruct (c f) as [r f'|f'| |e]; [|by exists m1|done|done].
  intros Hr. destruct (finish_returns sp m (λ _, None) m1 r f' (quiet_updated _ _ _ Hq) Hr) as (m'&E&HRet). exists m'. by rewrite E.
Qed.

(** The buffer User2System returns. *)
Definition kbuf (l : list Z) (limit : nat) : list Z := map s8 l ++ replicate (Datatypes.S limit - length l) 0.

Lemma map_s8_nul l : Forall is_byte l → 0 ∉ l → 0 ∉ map s8 l.
Proof.
  intros Hb Hz Hin. apply list_elem_of_fmap in Hin as (b&E&Hin). apply (s8_nonzero b); [by eapply Forall_forall|by intros ->|done].
Qed.

Lemma holds_bytes sp m va l : Runs sp m → holds sp m va l → Forall is_byte l.
Proof.
  intros HR Hh. apply Forall_lookup. intros i b Hi. destruct (Hh i b Hi) as [Hm Hu].
  destruct (umem_Some sp m _ HR Hm) as (b'&E&Hb). congruence.
Qed.

Lemma kbuf_cstr sp m va limit l : Runs sp m → Str sp m va limit l → cstr (kbuf l limit) = Ok (map s8 l).
Proof.
  intros HR [S1 S2 S3]. unfold kbuf. destruct (Datatypes.S limit - length l)%nat as [|k] eqn:E; [lia|].
  apply FilesSpec.cstr_ok. apply map_s8_nul; [by eapply holds_bytes|done].
Qed.

Lemma string_call sp m f (limit : nat) l va (c : list Z → @K H ino Z) :
  Runs sp m → is_s32 (Z.of_nat limit + 1) → Str sp m va limit l →
  answers sp m (c (kbuf l limit) f) (Some ((b ← User2System va (Z.of_nat limit); r ← kern (c b); finish r) (mkKern m f))).
Proof.
  intros HR Hl Hs. destruct (User2System_ok sp m f va limit l HR Hl Hs) as (m1&E&Hq). unfold mbind at 1, S_bind at 1. rewrite E.
  by apply kern_answers.
Qed.

Lemma call_case sp m f t c :
  Runs sp m → registers m !! 2%nat = Some t → system_call t = Some c →
  ExceptionHandler SyscallException (mkKern m f) = Some (c (mkKern m f)).
Proof. intros HR Ht Hc. unfold ExceptionHandler. cbn [machine]. rewrite (ReadRegister_run 2 t) by (done || lia). by rewrite Hc. Qed.

Lemma arg_run {A} m f (i : Z) v (c : Z → S A) :
  registers m !! Z.to_nat i = Some v → 0 ≤ i < 40 → (x ← mach (ReadRegister i); c x) (mkKern m f) = c v (mkKern m f).
Proof. intros Hv Hi. srun. by rewrite (ReadRegister_run i v). Qed.

(** ** Reading *)

Lemma consoleRead_length k : ∀ i buf (f : @State H ino) r buf' f',
  consoleRead_loop k i buf f = Done _ (r, buf') f' → length buf' = length buf.
Proof.
  induction k as [|k IH]; intros i buf f r buf' f'; cbn [consoleRead_loop]; unfold mret, K_ret, mbind, K_bind, klift; [by intros [= _ <- _]|].
  destruct (GetChar f) as [c f1|f1| |e]; [|done..]. destruct (_ || _).
  - destruct (aset buf i 0) as [b|] eqn:E; [|done]. intros [= _ <- _]. apply aset_Ok in E as [_ ->]. apply length_insert.
  - destruct (aset buf i c) as [b|] eqn:E; [|done]. intros Hr. rewrite (IH _ _ _ _ _ _ Hr). apply aset_Ok in E as [_ ->]. apply length_insert.
Qed.

Lemma exit_not_done {A} (msg : list Z) (f : @State H ino) (a : A) f' : exitWithError msg f ≠ Done _ a f'.
Proof. unfold exitWithError, mbind, K_bind, Halt. by destruct (SysPrintString msg f). Qed.

Lemma SysRead_length buf size fd (f : @State H ino) r buf' f' :
  SysRead buf size fd f = Done _ (r, buf') f' → length buf' = length buf.
Proof.
  unfold SysRead. destruct (_ <? size); [intros E; by apply exit_not_done in E|]. destruct (fd =? STDIN).
  { unfold consoleRead, mbind, K_bind. destruct (consoleRead_loop _ _ _ _) as [[i b] f1|f1| |e] eqn:E; [|done..].
    destruct (_ <? i); [intros Ed; by apply exit_not_done in Ed|]. intros [= _ <- _]. by eapply consoleRead_length. }
  unfold mret, K_ret, mbind, K_bind, kget, klift, kmodify. destruct (getStream fd _) as [[d|]|]; [| |done].
  - destruct (dread d size f) as [[[r1 data] d1] f1|f1| |e]; [|done..]. destruct (aset _ fd _) as [t|]; [|done].
    destruct (_ <=? _) eqn:El; [|done]. destruct (_ <? r1); [intros Ed; by apply exit_not_done in Ed|]. intros [= _ <- _].
    apply Z.leb_le in El. apply length_splice; lia.
  - destruct (_ <? -1); [intros Ed; by apply exit_not_done in Ed|]. by intros [= _ <- _].
Qed.

Lemma do_Read_run m f va (size fd : Z) :
  registers m !! 4%nat = Some va → registers m !! 5%nat = Some size → registers m !! 6%nat = Some fd →
  is_s32 (size + 1) → 0 ≤ size →
  do_Read (mkKern m f) = ('(read_count, sys_buffer) ← kern (SysRead (replicate (Z.to_nat (size + 1)) 0) size fd);
                          _ ← System2User va size sys_buffer; finish read_count) (mkKern m f).
Proof.
  intros H4 H5 H6 Hs Hpos. unfold do_Read. rewrite !(arg_run m f _ va), !(arg_run m f _ size), !(arg_run m f _ fd) by (done || lia).
  unfold new_chars. rewrite s32_id by done. rewrite (proj2 (Z.ltb_ge _ _)) by lia. done.
Qed.

Lemma read_call sp m f va (size fd : Z) r buf f' :
  Runs sp m → registers m !! 2%nat = Some SC_Read →
  registers m !! 4%nat = Some va → registers m !! 5%nat = Some size → registers m !! 6%nat = Some fd →
  is_s32 (size + 1) → 0 ≤ size → is_s32 r →
  SysRead (replicate (Z.to_nat (size + 1)) 0) size fd f = Done _ (r, buf) f' →
  let sent := cut (take (Z.to_nat size) buf) in
  (∀ j, (j < length sent)%nat → mapped sp (va + Z.of_nat j)) →
  ∃ m', ExceptionHandler SyscallException (mkKern m f) = Some (SDone unit tt (mkKern m' f')) ∧ Returned sp m r (at_addr va (map u8 sent)) m'.
Proof.
  intros HR H2 H4 H5 H6 Hs Hpos Hr ER sent Hm. rewrite (call_case sp m f SC_Read do_Read HR H2 eq_refl).
  rewrite (do_Read_run m f va size fd) by done. srun. rewrite ER. pose proof (SysRead_length _ _ _ _ _ _ _ ER) as Hl. rewrite length_replicate in Hl.
  destruct (System2User_ok sp m f' va (Z.to_nat size) buf HR ltac:(lia) Hm) as (r'&m1&E&Hup). rewrite Z2Nat.id in E by lia. rewrite E.
  destruct (finish_returns sp m _ m1 r f' Hup Hr) as (m'&->&HRet). by exists m'.
Qed.

Lemma write_args m f va size fd :
  registers m !! 4%nat = Some va → registers m !! 5%nat = Some size → registers m !! 6%nat = Some fd →
  do_Write (mkKern m f) = (b ← User2System va size; r ← kern (SysWrite b size fd); finish r) (mkKern m f).
Proof. intros H4 H5 H6. unfold do_Write. by rewrite (arg_run m f _ va), (arg_run m f _ size), (arg_run m f _ fd) by (done || lia). Qed.

Lemma write_call sp m f va (size fd : Z) l :
  Runs sp m → registers m !! 2%nat = Some SC_Write →
  registers m !! 4%nat = Some va → registers m !! 5%nat = Some size → registers m !! 6%nat = Some fd →
  is_s32 (size + 1) → 0 ≤ size → Str sp m va (Z.to_nat size) l →
  answers sp m (SysWrite (kbuf l (Z.to_nat size)) size fd f) (ExceptionHandler SyscallException (mkKern m f)).
Proof.
  intros HR H2 H4 H5 H6 Hs Hpos Hstr. rewrite (call_case sp m f SC_Write do_Write HR H2 eq_refl), (write_args m f va size fd) by done.
  pose proof (string_call sp m f (Z.to_nat size) l va (λ x, SysWrite x size fd) HR) as Hw. rewrite Z2Nat.id in Hw by done. by apply Hw.
Qed.

Lemma kbuf_bytes l : Forall is_byte l → map u8 (take (length l) (kbuf l (length l))) = l.
Proof.
  intros Hb. unfold kbuf. rewrite take_app_length' by (by rewrite length_map). rewrite map_map.
  induction Hb as [|x l Hx Hb IH]; [done|]. cbn. by rewrite IH, u8_s8, u8_id.
Qed.

Lemma cut_nul l : 0 ∉ l → cut l = l.
Proof. induction l as [|c l IH]; [done|]. intros [Hc Hz]%not_elem_of_cons. cbn. destruct (Z.eqb_spec c 0); [congruence|]. by rewrite IH. Qed.

Lemma sent_bytes l (n : nat) : Forall is_byte l → 0 ∉ l → n = length l →
  map u8 (cut (take n (splice (replicate (Datatypes.S n) 0) 0 (map s8 l)))) = l.
Proof.
  intros Hb Hz ->. unfold splice. rewrite take_0. cbn [app]. rewrite take_app_length' by (by rewrite length_map).
  rewrite cut_nul by (by apply map_s8_nul). rewrite map_map. clear Hz. induction Hb as [|x l Hx Hb IH]; [done|]. cbn. by rewrite IH, u8_s8, u8_id.
Qed.

Lemma Returned_result sp m r u m' : Runs sp m → Returned sp m r u m' → registers m' !! 2%nat = Some r.
Proof.
  intros HR [_ (pc&_&E) _ _]. rewrite E. unfold ret_regs. rewrite !list_lookup_insert_ne by lia.
  apply list_lookup_insert_eq. rewrite (wf_nregs _ (ru_wf _ _ HR)). lia.
Qed.

Lemma Returned_holds sp m r va l m' : (∀ i, (i < length l)%nat → mapped sp (va + Z.of_nat i)) → Returned sp m r (at_addr va l) m' → holds sp m' va l.
Proof.
  intros Hm [_ _ HU _] i b Hi. pose proof (lookup_lt_Some _ _ _ Hi) as Hlt. split; [by apply Hm|]. rewrite HU by (by apply Hm).
  unfold at_addr. rewrite decide_True by lia. replace (Z.to_nat (va + Z.of_nat i - va)) with i by lia. by rewrite Hi.
Qed.

(** ** Calls that fail *)

Definition modelled_calls : list Z :=
  [SC_Halt; SC_Create; SC_Open; SC_Close; SC_Read; SC_Write; SC_Seek; SC_Remove; SC_Add; SC_PrintStrn].

Lemma unknown_call t : t ∉ other_calls → t ∉ modelled_calls → system_call (H := H) (ino := ino) t = Some (slift (Err AssertFailed)).
Proof.
  intros H1 H2. unfold system_call. rewrite bool_decide_false by exact H1. unfold modelled_calls in H2.
  repeat (apply not_elem_of_cons in H2 as [?%Z.eqb_neq H2]). by repeat (case_match; [congruence|]).
Qed.

Lemma bad_string_call sp m f (limit : nat) l va (c : list Z → S unit) :
  Runs sp m → is_s32 (Z.of_nat limit + 1) → holds sp m va l → 0 ∉ l → (length l < limit)%nat →
  ¬ mapped sp (s32 (va + Z.of_nat (length l))) →
  (b ← User2System va (Z.of_nat limit); c b) (mkKern m f) = SFailed _ AssertFailed.
Proof. intros HR Hl Hh Hz Hlt Hbad. unfold mbind, S_bind. by rewrite (User2System_bad sp m f va limit l). Qed.

Lemma exit_halts {A} (msg : string) (f : @State H ino) : ∃ f', exitWithError (A := A) (literal msg) f = Halted _ f'.
Proof.
  unfold exitWithError, SysPrintString, put_chars, mbind, K_bind, klift, mret, K_ret, kmodify, Halt.
  assert (Hn : ∀ k l, ∃ n, strnlen k (l ++ [0]) = Ok n).
  { intros k. induction k as [|k IH]; intros l; [by eexists|]. destruct l as [|c l]; cbn; [by eexists|].
    destruct (c =? 0); [by eexists|]. destruct (IH l) as [n ->]. by eexists. }
  destruct (Hn (Z.to_nat MAX_ALLOWED_BUFFER_SIZE) (chars msg)) as [n E].
  unfold literal. rewrite E. by eexists.
Qed.

Lemma bad_name_call sp m f va l :
  Runs sp m → registers m !! 4%nat = Some va →
  registers m !! 2%nat = Some SC_Create ∨ registers m !! 2%nat = Some SC_Remove ∨ registers m !! 2%nat = Some SC_Open →
  holds sp m va l → 0 ∉ l → (length l < 32)%nat → ¬ mapped sp (s32 (va + Z.of_nat (length l))) →
  ExceptionHandler SyscallException (mkKern m f) = Some (SFailed unit AssertFailed).
Proof.
  intros HR H4 Ht Hh Hz Hlt Hbad. assert (H33 : is_s32 (Z.of_nat 32 + 1)) by (unfold_int; lia). destruct Ht as [Ht|[Ht|Ht]].
  - rewrite (call_case sp m f SC_Create do_Create HR Ht eq_refl). unfold do_Create. rewrite (arg_run m f _ va) by (done || lia).
    f_equal. by apply (bad_string_call sp m f 32 l).
  - rewrite (call_case sp m f SC_Remove do_Remove HR Ht eq_refl). unfold do_Remove. rewrite (arg_run m f _ va) by (done || lia).
    f_equal. by apply (bad_string_call sp m f 32 l).
  - destruct (lookup_lt_is_Some_2 (registers m) 5) as [mode H5]; [rewrite (wf_nregs _ (ru_wf _ _ HR)); lia|].
    rewrite (call_case sp m f SC_Open do_Open HR Ht eq_refl). unfold do_Open. rewrite (arg_run m f _ va), (arg_run m f _ mode) by (done || lia).
    f_equal. by apply (bad_string_call sp m f 32 l).
Qed.

Lemma bad_write_call sp m f va size fd (limit : nat) l :
  Runs sp m → registers m !! 2%nat = Some SC_Write →
  registers m !! 4%nat = Some va → registers m !! 5%nat = Some size → registers m !! 6%nat = Some fd →
  Z.of_nat limit = size → is_s32 (size + 1) → holds sp m va l → 0 ∉ l → (length l < limit)%nat →
  ¬ mapped sp (s32 (va + Z.of_nat (length l))) → ExceptionHandler SyscallException (mkKern m f) = Some (SFailed unit AssertFailed).
Proof.
  intros HR Ht H4 H5 H6 <- Hs Hh Hz Hlt Hbad. rewrite (call_case sp m f SC_Write do_Write HR Ht eq_refl), (write_args m f va _ fd) by done.
  f_equal. by apply (bad_string_call sp m f limit l).
Qed.

Lemma negative_write sp m f va size fd :
  Runs sp m → registers m !! 2%nat = Some SC_Write →
  registers m !! 4%nat = Some va → registers m !! 5%nat = Some size → registers m !! 6%nat = Some fd → size < 0 →
  ∃ e, ExceptionHandler SyscallException (mkKern m f) = Some (SFailed unit e).
Proof.
  intros HR Ht H4 H5 H6 Hs. assert (Hbs : is_s32 size) by exact (proj1 (Forall_lookup _ _) (wf_s32 _ (ru_wf _ _ HR)) _ _ H5).
  rewrite (call_case sp m f SC_Write do_Write HR Ht eq_refl), (write_args m f va _ fd) by done.
  unfold User2System, new_chars. srun. rewrite s32_id by (unfold_int; lia). destruct (size + 1 <? 0); [by eexists|].
  unfold aset. rewrite (proj2 (Z.leb_gt 0 size)) by lia. by eexists.
Qed.

Lemma bad_read_call sp m f va size fd r buf f' (j : nat) :
  Runs sp m → registers m !! 2%nat = Some SC_Read →
  registers m !! 4%nat = Some va → registers m !! 5%nat = Some size → registers m !! 6%nat = Some fd →
  0 ≤ size → is_s32 (size + 1) → SysRead (replicate (Z.to_nat (size + 1)) 0) size fd f = Done _ (r, buf) f' →
  (j < length (cut (take (Z.to_nat size) buf)))%nat → (∀ i, (i < j)%nat → mapped sp (va + Z.of_nat i)) →
  ¬ mapped sp (s32 (va + Z.of_nat j)) → ExceptionHandler SyscallException (mkKern m f) = Some (SFailed unit AssertFailed).
Proof.
  intros HR Ht H4 H5 H6 Hb Hs ER Hj Hm Hbad. rewrite (call_case sp m f SC_Read do_Read HR Ht eq_refl), (do_Read_run m f va size fd) by done.
  srun. rewrite ER. pose proof (SysRead_length _ _ _ _ _ _ _ ER) as Hl. rewrite length_replicate in Hl.
  rewrite <- (Z2Nat.id size) by done. by rewrite (System2User_bad sp m f' va (Z.to_nat size) buf j) by (done || lia).
Qed.

Lemma open_bad_mode sp m f va mode l :
  Runs sp m → registers m !! 2%nat = Some SC_Open → registers m !! 4%nat = Some va → registers m !! 5%nat = Some mode →
  Str sp m va 32 l → mode ≠ RO → mode ≠ RW →
  ∃ m', ExceptionHandler SyscallException (mkKern m f) = Some (SDone unit tt (mkKern m' f))
    ∧ registers m' = <[2%nat := -1]> (registers m) ∧ mainMemory m' = mainMemory m
    ∧ ExceptionHandler SyscallException (mkKern m' f) = Some (SFailed unit AssertFailed).
Proof.
  intros HR Ht H4 H5 Hstr Hro Hrw. rewrite (call_case sp m f SC_Open do_Open HR Ht eq_refl). unfold do_Open.
  rewrite (arg_run m f _ va), (arg_run m f _ mode) by (done || lia).
  destruct (User2System_ok sp m f va 32 l HR ltac:(unfold_int; lia) Hstr) as (m1&E&(HR1&Er&Em)).
  change FILE_NAME_MAX_LEN with (Z.of_nat 32). unfold mbind, S_bind. rewrite E.
  rewrite (proj2 (Z.eqb_neq mode RO)), (proj2 (Z.eqb_neq mode RW)) by done. cbn [negb andb]. unfold mach. cbn [machine files].
  rewrite WriteRegister_run by (lia || apply HR1). eexists. split; [done|]. cbn [registers mainMemory set_registers]. rewrite Er.
  split; [done|]. split; [done|]. assert (HR2 : Runs sp (set_registers (<[2%nat := -1]> (registers m1)) m1)).
  { apply set_registers_Runs; [done|rewrite length_insert; apply HR1|apply Forall_insert; [apply HR1|unfold_int; lia]|by rewrite list_lookup_insert_ne]. }
  rewrite Er in HR2. change (Z.to_nat 2) with 2%nat.
  rewrite (call_case sp _ f (-1) (slift (Err AssertFailed)) HR2); [done| |by apply unknown_call; apply (bool_decide_eq_false_1 _)].
  cbn. apply list_lookup_insert_eq. rewrite (wf_nregs _ (ru_wf _ _ HR)). lia.
Qed.
End TRANSFER.
End SyscallSpec.

Import Machine MachineSpec AddrSpaceSpec CString Files FilesSpec Syscall SyscallSpec.

(** C20 (functional): a system call of a running program does what the function of
    ksyscall.h does, called with the registers 4 to 6 and, for a pointer, with
    the characters of the program's memory up to a NUL or up to the limit (32 for
    file names, 64 for PrintStrn, the size for Write), ending in NULs; Open only
    with the modes RO and RW.  It ends the way that function ends, and on its
    return register 2 holds the result, the program counter is at the next
    instruction, no other register and no memory has changed.  Read further
    stores what it has read in the memory of the program, up to and including
    the first NUL, and nowhere else. *)
Theorem syscalls_run_kernel_calls {H ino : Type} `{Host H ino} (sp : AddrSpace.AddrSpace) (m : Machine) (f : @State H ino)
    (a b c : Z) (l : list Z) (res : option (sout unit))
    (HR : Runs sp m) (H4 : registers m !! 4%nat = Some a) (H5 : registers m !! 5%nat = Some b) (H6 : registers m !! 6%nat = Some c)
    (Hres : res = ExceptionHandler SyscallException (mkKern m f)) :
  let nr t := registers m !! 2%nat = Some t in
  (nr SC_Halt → res = Some (SHalted unit (mkKern m f)))
  ∧ (nr SC_Create → Str sp m a 32 l → answers sp m (SysCreate (kbuf l 32) f) res)
  ∧ (nr SC_Remove → Str sp m a 32 l → answers sp m (SysRemove (kbuf l 32) f) res)
  ∧ (nr SC_Open → Str sp m a 32 l → b = RO ∨ b = RW → answers sp m (SysOpen (kbuf l 32) b f) res)
  ∧ (nr SC_Close → answers sp m (SysClose a f) res)
  ∧ (nr SC_Seek → answers sp m (SysSeek a b f) res)
  ∧ (nr SC_Add → answers sp m (Done Z (SysAdd a b) f) res)
  ∧ (nr SC_PrintStrn → Str sp m a 64 l → answers sp m (SysPrintString (kbuf l 64) f) res)
  ∧ (nr SC_Write → 0 ≤ b → is_s32 (b + 1) → Str sp m a (Z.to_nat b) l → answers sp m (SysWrite (kbuf l (Z.to_nat b)) b c f) res)
  ∧ (nr SC_Read → 0 ≤ b → is_s32 (b + 1) → ∀ r buf f',
       SysRead (replicate (Z.to_nat (b + 1)) 0) b c f = Done _ (r, buf) f' → is_s32 r →
       let sent := cut (take (Z.to_nat b) buf) in
       (∀ j, (j < length sent)%nat → mapped sp (a + Z.of_nat j)) →
       ∃ m', res = Some (SDone unit tt (mkKern m' f')) ∧ Returned sp m r (at_addr a (map u8 sent)) m').
Proof.
  intros nr. subst res. assert (H33 : is_s32 (Z.of_nat 32 + 1)) by (unfold_int; lia). assert (H65 : is_s32 (Z.of_nat 64 + 1)) by (unfold_int; lia).
  split_and!; intros Ht.
  - by rewrite (call_case sp m f SC_Halt do_Halt HR Ht eq_refl).
  - intros Hs. rewrite (call_case sp m f SC_Create do_Create HR Ht eq_refl). unfold do_Create. rewrite (arg_run m f _ a) by (done || lia). by apply string_call.
  - intros Hs. rewrite (call_case sp m f SC_Remove do_Remove HR Ht eq_refl). unfold do_Remove. rewrite (arg_run m f _ a) by (done || lia). by apply string_call.
  - intros Hs Hb. rewrite (call_case sp m f SC_Open do_Open HR Ht eq_refl). unfold do_Open. rewrite (arg_run m f _ a), (arg_run m f _ b) by (done || lia).
    assert (E : negb (b =? RO) && negb (b =? RW) = false) by (destruct Hb as [->| ->]; done). rewrite E. by apply (string_call sp m f 32 l a (λ x, SysOpen x b)).
  - rewrite (call_case sp m f SC_Close do_Close HR Ht eq_refl). unfold do_Close. rewrite (arg_run m f _ a) by (done || lia). by apply kern_answers.
  - rewrite (call_case sp m f SC_Seek do_Seek HR Ht eq_refl). unfold do_Seek. rewrite (arg_run m f _ a), (arg_run m f _ b) by (done || lia). by apply kern_answers.
  - rewrite (call_case sp m f SC_Add do_Add HR Ht eq_refl). unfold do_Add. rewrite (arg_run m f _ a), (arg_run m f _ b) by (done || lia).
    exact (kern_answers sp m m f (λ s, Done Z (SysAdd a b) s) (quiet_refl sp m HR)).
  - intros Hs. rewrite (call_case sp m f SC_PrintStrn do_PrintStrn HR Ht eq_refl). unfold do_PrintStrn. rewrite (arg_run m f _ a) by (done || lia). by apply string_call.
  - intros Hb Hb1 Hs. by apply (write_call sp m f a b c l).
  - intros Hb Hb1 r buf f' ER Hr sent Hm. by apply (read_call sp m f a b c r buf f').
Qed.

(** C21 (roundtrip): what a program writes to a file it reads back.  The program writes
    up to 64 characters other than NUL from its memory to a file that is open for
    writing and whose read and write positions agree; later it reads as many to
    some other place of its memory.  Both calls return the number of characters,
    and the memory there holds the characters that were written; the positions
    agree again, behind them. *)
Theorem write_then_read {H ino : Type} `{HostLaws H ino} (sp : AddrSpace.AddrSpace) (m m2 : Machine) (f : @State H ino)
    (T : gmap Z Desc) (D : Desc) (h : H) (a b fd : Z) (l : list Z) (n : Z)
    (HT : TableOk (fdt f) T) (HD : T !! fd = Some D) (Hmode : d_mode D = RW) (Hpos : d_rpos D = d_wpos D)
    (Hn : n = Z.of_nat (length l)) (Hn64 : n ≤ 64) (Hbound : d_wpos D + n < halfword)
    (HR : Runs sp m) (Hl : holds sp m a l) (Hz : 0 ∉ l)
    (Hargs : registers m !! 2%nat = Some SC_Write ∧ registers m !! 4%nat = Some a ∧ registers m !! 5%nat = Some n ∧ registers m !! 6%nat = Some fd)
    (Hw : h_write (d_file D) (d_wpos D) l (host f) = Some h)
    (HR2 : Runs sp m2) (Hb : ∀ i, 0 ≤ i < n → mapped sp (b + i))
    (Hargs2 : registers m2 !! 2%nat = Some SC_Read ∧ registers m2 !! 4%nat = Some b ∧ registers m2 !! 5%nat = Some n ∧ registers m2 !! 6%nat = Some fd) :
  ∃ m1 f1 m3 f2,
    ExceptionHandler SyscallException (mkKern m f) = Some (SDone unit tt (mkKern m1 f1))
    ∧ registers m1 !! 2%nat = Some n
    ∧ ExceptionHandler SyscallException (mkKern m2 f1) = Some (SDone unit tt (mkKern m3 f2))
    ∧ registers m3 !! 2%nat = Some n ∧ holds sp m3 b l
    ∧ TableOk (fdt f2) (<[fd := at_rpos (d_rpos D + n) (at_wpos (d_wpos D + n) D)]> T).
Proof.
  destruct Hargs as (A2&A4&A5&A6), Hargs2 as (B2&B4&B5&B6). pose proof (holds_bytes sp m a l HR Hl) as Hbytes.
  destruct (tb_valid _ _ HT fd D HD) as (_&Hr0&Hw0). pose proof (tb_dom _ _ HT fd ltac:(by rewrite HD)) as Hfd.
  assert (Hs1 : is_s32 (n + 1)) by (unfold_int; lia). assert (HfI : fd ≠ STDIN) by (unfold STDIN; lia). assert (HfO : fd ≠ STDOUT) by (unfold STDOUT; lia).
  assert (Hsz : 0 ≤ n ≤ MAX_ALLOWED_BUFFER_SIZE) by (unfold MAX_ALLOWED_BUFFER_SIZE; lia).
  set (D1 := at_wpos (d_wpos D + n) D). set (f1 := put_desc fd D1 (set_host h f)).
  assert (EW : SysWrite (kbuf l (length l)) n fd f = Done _ n f1).
  { rewrite (SysWrite_ok f T); [|done|done|done|unfold kbuf; rewrite length_app, length_map, length_replicate; lia|intros D' E'; congruence].
    rewrite HD, Hmode. cbn [RW Z.eqb Pos.eqb]. replace (Z.to_nat n) with (length l) by lia. by rewrite kbuf_bytes, Hw. }
  assert (Es : Z.to_nat n = length l) by lia.
  assert (HS : Str sp m a (Z.to_nat n) l) by (split; [done|done|left; lia]).
  pose proof (write_call sp m f a n fd l HR A2 A4 A5 A6 Hs1 (proj1 Hsz) HS) as HA. rewrite Es, EW in HA.
  destruct HA as (m1&E1&HRet1); [unfold_int; lia|].
  assert (HT1 : TableOk (fdt f1) (<[fd := D1]> T)) by (apply (TableOk_put (set_host h f) T fd D D1); try done; cbn; lia).
  set (D2 := at_rpos (d_rpos D + n) D1).
  assert (ER : SysRead (replicate (Z.to_nat (n + 1)) 0) n fd f1
    = Done _ (n, splice (replicate (Datatypes.S (length l)) 0) 0 (map s8 l)) (put_desc fd D2 f1)).
  { rewrite (SysRead_ok f1 (<[fd := D1]> T)); [|done|done|done|rewrite length_replicate; lia|].
    2: { rewrite lookup_insert_eq. intros D' [= <-]. cbn. lia. }
    rewrite lookup_insert_eq. cbn zeta. change (host f1) with h. cbn [d_file d_rpos D1 at_wpos].
    destruct (h_write_ok _ _ _ _ _ Hw0 Hw) as (Eb&_). rewrite Eb, Hpos, Hn, slice_host_write by done.
    replace (Z.to_nat (Z.of_nat (length l) + 1)) with (Datatypes.S (length l)) by lia. unfold D2. rewrite Hpos, Hn. done. }
  pose proof (read_call sp m2 f1 b n fd n _ _ HR2 B2 B4 B5 B6 Hs1 (proj1 Hsz) ltac:(unfold_int; lia) ER) as HB. cbn zeta in HB.
  rewrite Es, (sent_bytes l) in HB by done. destruct HB as (m3&E3&HRet3).
  { intros j Hj. apply Hb. rewrite <- (length_map u8), (sent_bytes l) in Hj by done. lia. }
  exists m1, f1, m3, (put_desc fd D2 f1). split; [exact E1|]. split; [exact (Returned_result _ _ _ _ _ HR HRet1)|]. split; [exact E3|].
  split; [exact (Returned_result _ _ _ _ _ HR2 HRet3)|]. split; [apply (Returned_holds sp m2 n); [|exact HRet3]; intros i Hi; apply Hb; lia|].
  pose proof (TableOk_put f1 (<[fd := D1]> T) fd D1 D2 HT1 (lookup_insert_eq _ _ _) eq_refl) as HT2. rewrite insert_insert_eq in HT2.
  apply HT2; cbn; lia.
Qed.


(** ** A program of two pages *)

(** Pages 0 and 1 in the frames 3 and 1, with "hi" at address 4. *)
Definition user_table : list TranslationEntry := [mkEntry 0 3 true false false false; mkEntry 1 1 true false false false].
Definition user_space : AddrSpace.AddrSpace := AddrSpace.mkAddrSpace user_table 2.
Definition user_memory : list Z := <[388%nat := 104]> (<[389%nat := 105]> (replicate (Z.to_nat MemorySize) 0)).
Definition user_machine (nr a b c : Z) : Machine :=
  mkMachine ([0; 0; nr; 0; a; b; c] ++ replicate 33 0) user_memory None (Some user_table) 2.

Lemma user_space_ok : SpaceOk user_space.
Proof.
  split; [reflexivity| |].
  - intros [|[|i]] e E; cbn in E; [injection E as <-..|done]; (split; [reflexivity|]; split; [reflexivity|]; split; [reflexivity|]; cbn; unfold NumPhysPages; lia).
  - apply NoDup_cons. split; [|apply NoDup_singleton]. intros E. apply list_elem_of_singleton in E. discriminate E.
Qed.

Lemma user_machine_Runs (nr a b c : Z) : is_s32 nr → is_s32 a → is_s32 b → is_s32 c → Runs user_space (user_machine nr a b c).
Proof.
  intros Hnr Ha Hb Hc. assert (H0 : is_s32 0) by (unfold_int; lia). split; [exact user_space_ok|vm_compute; discriminate| |reflexivity|].
  - split.
    + reflexivity.
    + apply Forall_app. split; [|by apply Forall_replicate]. repeat (apply Forall_cons; split; [assumption|]). apply Forall_nil_2.
    + exists 0. split; [reflexivity|]. unfold NumGPRegs. lia.
    + cbn [user_machine mainMemory]. unfold user_memory. rewrite !length_insert, length_replicate. apply Z2Nat.id. unfold MemorySize, NumPhysPages, PageSize. lia.
    + apply Forall_insert; [apply Forall_insert; [apply zero_bytes|]|]; unfold is_byte; lia.
    + reflexivity.
  - exists user_table. split; [reflexivity|]. repeat constructor.
Qed.

Lemma user_holds (nr a b c : Z) : holds user_space (user_machine nr a b c) 4 [104; 105; 0].
Proof.
  intros i x Hi. destruct i as [|[|[|i]]]; cbn in Hi; [injection Hi as <-..|done];
    (split; [split; [lia|vm_compute; reflexivity]|vm_compute; reflexivity]).
Qed.

Lemma user_str (nr a b c : Z) (limit : nat) : (2 < limit)%nat → Str user_space (user_machine nr a b c) 4 limit [104; 105].
Proof.
  intros Hl. pose proof (user_holds nr a b c) as Hh. split; [|by apply (bool_decide_eq_false_1 (0 ∈ [104; 105]))|right; split; [cbn; lia|exact Hh]].
  intros i x Hi. apply Hh. destruct i as [|[|i]]; done.
Qed.

(** The file "a" of [mini_state] is open as descriptor 2, at its end. *)
Definition desc_a : Desc := mkDesc [97] 0%nat 0 3 3 RW.
Definition open_state : @State MiniHost nat := put_desc 2 desc_a mini_state.

Lemma open_state_ok : TableOk (fdt open_state) {[2 := desc_a]}.
Proof.
  apply (TableOk_insert new_FileDescriptorTable ∅ 2 desc_a new_table_ok); [lia| |cbn; lia|cbn; lia|intros f D E; by rewrite lookup_empty in E].
  split; [cbn; lia|by apply (bool_decide_eq_false_1 (0 ∈ [97]))].
Qed.

Lemma syscalls_run_kernel_calls_witness :
  ∃ m', ExceptionHandler SyscallException (mkKern (user_machine SC_PrintStrn 4 0 0) mini_state)
          = Some (SDone unit tt (mkKern m' (set_out [104; 105] mini_state)))
        ∧ registers m' !! 2%nat = Some 2.
Proof.
  assert (HR : Runs user_space (user_machine SC_PrintStrn 4 0 0)) by (apply user_machine_Runs; vm_compute; split; discriminate || reflexivity).
  destruct (syscalls_run_kernel_calls user_space (user_machine SC_PrintStrn 4 0 0) mini_state 4 0 0 [104; 105] _ HR eq_refl eq_refl eq_refl eq_refl)
    as (_&_&_&_&_&_&_&Hp&_).
  specialize (Hp eq_refl (user_str SC_PrintStrn 4 0 0 64 ltac:(lia))).
  destruct Hp as (m'&E&HRet); [vm_compute; split; discriminate || reflexivity|]. exists m'. split; [exact E|]. exact (Returned_result _ _ _ _ _ HR HRet).
Defined.

Lemma write_then_read_witness :
  ∃ m1 f1 m3 f2, ExceptionHandler SyscallException (mkKern (user_machine SC_Write 4 2 2) open_state) = Some (SDone unit tt (mkKern m1 f1))
    ∧ ExceptionHandler SyscallException (mkKern (user_machine SC_Read 200 2 2) f1) = Some (SDone unit tt (mkKern m3 f2))
    ∧ umem user_space m3 201 = Some 105.
Proof.
  assert (HR : ∀ nr a, is_s32 nr → is_s32 a → Runs user_space (user_machine nr a 2 2)) by (intros nr a Hn Ha; apply user_machine_Runs; try assumption; vm_compute; split; discriminate || reflexivity).
  assert (HRw : Runs user_space (user_machine SC_Write 4 2 2)) by (apply HR; vm_compute; split; discriminate || reflexivity).
  assert (HRr : Runs user_space (user_machine SC_Read 200 2 2)) by (apply HR; vm_compute; split; discriminate || reflexivity).
  destruct (user_str SC_Write 4 2 2 3 ltac:(lia)) as [Hh Hz _].
  destruct (write_then_read user_space _ (user_machine SC_Read 200 2 2) open_state {[2 := desc_a]} desc_a
      (mkMini {[ [97] := 0%nat ]} (<[0%nat := host_write [10; 20; 30] 3 [104; 105]]> {[ 0%nat := [10; 20; 30] ]}) 1) 4 200 2 [104; 105] 2
      open_state_ok (lookup_singleton_eq _ _) eq_refl eq_refl eq_refl ltac:(lia) ltac:(vm_compute; reflexivity) HRw Hh Hz) as (m1&f1&m3&f2&E1&_&E2&_&Hm3&_).
  - repeat split; reflexivity.
  - reflexivity.
  - exact HRr.
  - intros i Hi. unfold mapped. cbn [user_space AddrSpace.numPages]. unfold PageSize. lia.
  - repeat split; reflexivity.
  - exists m1, f1, m3, f2. split; [exact E1|]. split; [exact E2|]. exact (proj2 (Hm3 1%nat 105 eq_refl)).
Defined.

