(* ===== verification/Process.v ===== *)
(** threads/pcb.{h,cc} and threads/ptable.{h,cc}: processes, and the system calls
    Exec, ExecV, Join and Exit on them.

    The code runs in threads that lose the processor only in operations on
    semaphores and in Fork: while P waits, and when interrupts are turned on
    again behind the operation (Threads.v).  A kernel call is therefore a
    resumption: [proc A] runs to the next such operation, a [node], which says
    what to go on with.  [step] lets one thread do its operation, or run on
    behind it; in between, and before an operation, other threads can run.  The
    semaphores have the behaviour Synch.v proves of them: P waits until the value
    is positive and decrements it, V increments it.

    PCBs are heap objects: the table holds pointers, and an access to a deleted
    PCB is [BadAccess].  Addresses are not used twice.  The fields exitcode and
    numwait are not initialised by the constructor: [uninit] are their contents.
    The executables are files of the host that nobody changes ([executable]).
    A file name is the list of its characters.  The constructor of AddrSpace
    releases addrLock before it zeroes its pages; here it does so afterwards. *)

From S2P Require Import Prelude BitmapLib Machine AddrSpace.

Module Process.
Import AddrSpace.

Definition MAX_PROCESS : Z := 10.
Definition MAX_ARG_NUM : Z := 10.

Abbreviation ptr := nat.

Record PCB := mkPCB {
  parentID : Z; pID : Z;
  joinsem : Z; exitsem : Z; multex : Z; shouldExit : Z;
  exitcode : Z; numwait : Z;
  filename : option (list Z);
  userArgs : list (list Z); userArgc : Z
}.

Definition set_sems (j e m s : Z) (o : PCB) : PCB :=
  mkPCB (parentID o) (pID o) j e m s (exitcode o) (numwait o) (filename o) (userArgs o) (userArgc o).
Definition set_exitcode (c : Z) (o : PCB) : PCB :=
  mkPCB (parentID o) (pID o) (joinsem o) (exitsem o) (multex o) (shouldExit o) c (numwait o) (filename o) (userArgs o) (userArgc o).
Definition set_numwait (n : Z) (o : PCB) : PCB :=
  mkPCB (parentID o) (pID o) (joinsem o) (exitsem o) (multex o) (shouldExit o) (exitcode o) n (filename o) (userArgs o) (userArgc o).
Definition set_filename (f : list Z) (o : PCB) : PCB :=
  mkPCB (parentID o) (pID o) (joinsem o) (exitsem o) (multex o) (shouldExit o) (exitcode o) (numwait o) (Some f) (userArgs o) (userArgc o).
Definition set_args (l : list (list Z)) (n : Z) (o : PCB) : PCB :=
  mkPCB (parentID o) (pID o) (joinsem o) (exitsem o) (multex o) (shouldExit o) (exitcode o) (numwait o) (filename o) l n.

(** The state that processes share: the PCBs, the fields of PTable, addrLock and
    the frames. *)
Record KS := mkKS {
  heap : gmap ptr PCB; next_ptr : ptr;
  psize : Z; bm : Bitmap.Bitmap; pcb : list (option ptr); bmsem : Z;
  addrLock : Z; frames : Frames
}.

Definition set_heap (h : gmap ptr PCB) (k : KS) : KS := mkKS h (next_ptr k) (psize k) (bm k) (pcb k) (bmsem k) (addrLock k) (frames k).
Definition set_bm (b : Bitmap.Bitmap) (k : KS) : KS := mkKS (heap k) (next_ptr k) (psize k) b (pcb k) (bmsem k) (addrLock k) (frames k).
Definition set_pcb (l : list (option ptr)) (k : KS) : KS := mkKS (heap k) (next_ptr k) (psize k) (bm k) l (bmsem k) (addrLock k) (frames k).
Definition set_bmsem (v : Z) (k : KS) : KS := mkKS (heap k) (next_ptr k) (psize k) (bm k) (pcb k) v (addrLock k) (frames k).
Definition set_addrLock (v : Z) (k : KS) : KS := mkKS (heap k) (next_ptr k) (psize k) (bm k) (pcb k) (bmsem k) v (frames k).
Definition set_frames (w : Frames) (k : KS) : KS := mkKS (heap k) (next_ptr k) (psize k) (bm k) (pcb k) (bmsem k) (addrLock k) w.

(** ** Resumptions *)

Inductive sem := BmSem | AddrLock | JoinSem (p : ptr) | ExitSem (p : ptr) | Multex (p : ptr) | ShouldExit (p : ptr).

(** The operations at which a thread can lose the processor; [Resume] is where
    it goes on behind one, and where a new thread starts. *)
Inductive op := P (s : sem) | V (s : sem) | Fork (id : Z) (sp : AddrSpace) (file : list Z) | Resume.

#[local] Unset Elimination Schemes.
Inductive node (A : Type) :=
| Return (a : A)
| Do (o : op) (next : KS → res (KS * node A))
| Finish
| Halt.
#[local] Set Elimination Schemes.
#[global] Arguments Return {A}.
#[global] Arguments Do {A}.
#[global] Arguments Finish {A}.
#[global] Arguments Halt {A}.

Definition proc (A : Type) : Type := KS → res (KS * node A).

Fixpoint node_bind {A B} (f : A → proc B) (n : node A) : proc B := λ k,
  match n with
  | Return a => f a k
  | Do o next => Ok (k, Do o (λ k, match next k with Ok (k, n) => node_bind f n k | Err e => Err e end))
  | Finish => Ok (k, Finish)
  | Halt => Ok (k, Halt)
  end.

#[global] Instance proc_ret : MRet proc := λ A a k, Ok (k, Return a).
#[global] Instance proc_bind : MBind proc := λ A B f c k,
  match c k with Ok (k, n) => node_bind f n k | Err e => Err e end.

Definition atomic {A} (f : KS → res (A * KS)) : proc A := λ k,
  match f k with Ok (a, k) => Ok (k, Return a) | Err e => Err e end.
Definition lift {A} (r : res A) : proc A := atomic (λ k, a ← r; Ok (a, k)).
Definition operation (o : op) : proc unit := λ k, Ok (k, Do o (λ k, Ok (k, Return tt))).

Definition finish {A} : proc A := λ k, Ok (k, Finish).
Definition halt {A} : proc A := λ k, Ok (k, Halt).

Definition semP (s : sem) : proc unit := operation (P s).
Definition semV (s : sem) : proc unit := operation (V s).

(** A field of the PCB behind a pointer. *)
Definition field {A} (p : ptr) (f : PCB → A) : proc A := atomic (λ k, o ← deref (heap k !! p); Ok (f o, k)).
Definition update (p : ptr) (f : PCB → PCB) : proc unit :=
  atomic (λ k, o ← deref (heap k !! p); Ok (tt, set_heap (<[p := f o]> (heap k)) k)).

(** [pcb[i]], read and written. *)
Definition slot (i : Z) : proc (option ptr) := atomic (λ k, p ← aget (pcb k) i; Ok (p, k)).
Definition set_slot (i : Z) (p : option ptr) : proc unit :=
  atomic (λ k, l ← aset (pcb k) i p; Ok (tt, set_pcb l k)).

Section PROCESS.
(** The uninitialised fields exitcode and numwait of a new object; the
    executables; the stack garbage of AddrSpace. *)
Variable uninit : ptr → Z * Z.
Variable executable : list Z → option (list Z).
Variable garbage : list Z.
Variable garbage_addr : Z.

(** ** pcb.cc *)

(** [cur] is the id of the current thread. *)
Definition new_PCB (id cur : Z) : proc ptr := atomic (λ k,
  let p := next_ptr k in
  let o := mkPCB (if id =? 0 then -1 else cur) id 0 0 1 1 (uninit p).1 (uninit p).2 None [] 0 in
  Ok (p, mkKS (<[p := o]> (heap k)) (S p) (psize k) (bm k) (pcb k) (bmsem k) (addrLock k) (frames k))).

Definition delete_PCB (p : ptr) : proc unit := atomic (λ k,
  _ ← deref (heap k !! p); Ok (tt, set_heap (delete p (heap k)) k)).

(** The constructor of AddrSpace. *)
Definition new_Space (file : option (list Z)) : proc AddrSpace :=
  semP AddrLock ;;
  sp ← atomic (λ k, '(sp, w) ← new_AddrSpace file garbage (frames k); Ok (sp, set_frames w k));
  semV AddrLock ;;
  mret sp.

Definition Exec (this : ptr) (tname : list Z) (pid : Z) : proc Z :=
  update this (set_filename tname) ;;
  semP (Multex this) ;;
  let file := executable tname in
  lift (ASSERT (negb (bool_decide (file = None)))) ;;
  file ← lift (deref file);
  sp ← new_Space (Some file);
  lift (ASSERT (Z.of_nat (length tname) + 1 <=? 32)) ;;
  operation (Fork pid sp file) ;;
  semV (Multex this) ;;
  mret pid.

Definition SetArgvs (this : ptr) (argc : Z) (argv : list (list Z)) : proc unit :=
  lift (if (argc <=? MAX_ARG_NUM) && (argc <=? Z.of_nat (length argv)) then Ok tt else Err BadAccess) ;;
  update this (set_args (take (Z.to_nat argc) argv) argc).

Definition GetExitCode (this : ptr) : proc Z := field this exitcode.
Definition GetParentID (this : ptr) : proc Z := field this parentID.
Definition SetExitCode (this : ptr) (c : Z) : proc unit := update this (set_exitcode c).

Definition JoinWait (this : ptr) : proc unit := semP (JoinSem this).
Definition ExitWait (this : ptr) : proc unit := semP (ExitSem this) ;; semV (ExitSem this).
Definition JoinRelease (this : ptr) : proc unit := semV (JoinSem this).
Definition ExitRelease (this : ptr) : proc unit := semV (ExitSem this).

Definition IncNumWait (this : ptr) : proc unit :=
  semP (Multex this) ;;
  n ← field this numwait;
  (if n =? 0 then semP (ShouldExit this) else mret tt) ;;
  update this (λ o, set_numwait (numwait o + 1) o) ;;
  semV (Multex this).

Definition DecNumWait (this : ptr) : proc unit :=
  semP (Multex this) ;;
  update this (λ o, set_numwait (numwait o - 1) o) ;;
  n ← field this numwait;
  (if n =? 0 then semV (ShouldExit this) else mret tt) ;;
  semV (Multex this).

Definition PCBExit (this : ptr) : proc unit := semP (ShouldExit this).

(** ** ptable.cc *)

Definition GetFreeSlot : proc Z :=
  semP BmSem ;;
  result ← atomic (λ k, '(i, b) ← Bitmap.FindAndSet (bm k); Ok (i, set_bm b k));
  semV BmSem ;;
  mret result.

(** ExecUpdate and ExecVUpdate differ in the call of SetArgvs, [args], only. *)
Definition exec_update (cur : Z) (tname : list Z) (args : ptr → proc unit) : proc Z :=
  freeSlot ← GetFreeSlot;
  semP BmSem ;;
  if freeSlot =? -1 then
    semV BmSem ;;
    mret (-1)
  else
    aNewPcb ← new_PCB freeSlot cur;
    args aNewPcb ;;
    set_slot freeSlot (Some aNewPcb) ;;
    semV BmSem ;;
    (if negb (cur =? -1) then
       parent ← slot cur;
       parent ← lift (deref parent);
       IncNumWait parent
     else mret tt) ;;
    Exec aNewPcb tname freeSlot ;;
    mret freeSlot.

Definition ExecUpdate (cur : Z) (tname : list Z) : proc Z := exec_update cur tname (λ _, mret tt).

Definition ExecVUpdate (cur argc : Z) (argv : list (list Z)) : proc Z :=
  tname ← lift (aget argv 0);
  exec_update cur tname (λ p, SetArgvs p argc argv).

Definition GetPcb (id : Z) : proc (option ptr) :=
  n ← atomic (λ k, Ok (psize k, k));
  if (id =? -1) || (n - 1 <? id) then mret None else slot id.

Definition IsExist (pid : Z) : proc bool :=
  semP BmSem ;;
  n ← atomic (λ k, Ok (psize k, k));
  if (pid <? 0) || (n <=? pid) then semV BmSem ;; mret false
  else
    curPcb ← slot pid;
    match curPcb with
    | None => semV BmSem ;; mret false
    | Some _ => semV BmSem ;; mret true
    end.

Definition Remove (pid : Z) : proc unit :=
  semP BmSem ;;
  atomic (λ k, b ← Bitmap.Clear pid (bm k); Ok (tt, set_bm b k)) ;;
  curPcb ← slot pid;
  curPcb ← lift (match curPcb with Some p => Ok p | None => Err AssertFailed end);
  delete_PCB curPcb ;;
  set_slot pid None ;;
  semV BmSem.

Definition ExitUpdate (cur exitCode : Z) : proc Z :=
  let pid := cur in
  exists_ ← IsExist pid;
  lift (ASSERT exists_) ;;
  curPcb ← slot pid;
  curPcb ← lift (match curPcb with Some p => Ok p | None => Err AssertFailed end);
  parentID ← GetParentID curPcb;
  SetExitCode curPcb exitCode ;;
  JoinRelease curPcb ;;
  ExitRelease curPcb ;;
  (if negb (parentID =? -1) then
     parent ← slot parentID;
     parent ← lift (deref parent);
     DecNumWait parent ;;
     ExitWait parent
   else mret tt) ;;
  if pid =? 0 then halt
  else
    PCBExit curPcb ;;
    Remove pid ;;
    finish.

Definition JoinUpdate (pID : Z) : proc Z :=
  exists_ ← IsExist pID;
  if negb exists_ then lift (Err AssertFailed)
  else
    childPcb ← slot pID;
    childPcb ← lift (match childPcb with Some p => Ok p | None => Err AssertFailed end);
    JoinWait childPcb ;;
    GetExitCode childPcb.

(** ** Threads *)

(** processCreator, up to the first instruction of the program. *)
Definition processCreator (sp : AddrSpace) (file : list Z) : proc Z :=
  ok ← atomic (λ k, '(ok, _, w) ← Load (Some file) garbage garbage_addr sp (frames k); Ok (ok, set_frames w k));
  lift (ASSERT ok) ;;
  mret 0.

(** A thread of a process: [Return] is user code, after a call that has returned
    [a]. *)
Record Thread := mkThread { pid : Z; space : AddrSpace; run : node Z }.

Record Sys := mkSys { ks : KS; threads : gmap nat Thread; halted : bool }.

Inductive call := CExec (f : list Z) | CExecV (argc : Z) (argv : list (list Z)) | CJoin (id : Z) | CExit (code : Z).

(** The functions of ksyscall.h. *)
Definition syscall (cur : Z) (c : call) : proc Z :=
  match c with
  | CExec f => ExecUpdate cur f
  | CExecV argc argv => lift (ASSERT (0 <? argc)) ;; ExecVUpdate cur argc argv
  | CJoin id => JoinUpdate id
  | CExit code => ExitUpdate cur code
  end.

(** ** Steps *)

Definition get_sem (s : sem) (k : KS) : res Z :=
  match s with
  | BmSem => Ok (bmsem k)
  | AddrLock => Ok (addrLock k)
  | JoinSem p => joinsem <$> deref (heap k !! p)
  | ExitSem p => exitsem <$> deref (heap k !! p)
  | Multex p => multex <$> deref (heap k !! p)
  | ShouldExit p => shouldExit <$> deref (heap k !! p)
  end.

Definition alter_pcb (f : PCB → PCB) (p : ptr) (k : KS) : KS := set_heap (alter f p (heap k)) k.

Definition put_sem (s : sem) (v : Z) (k : KS) : KS :=
  match s with
  | BmSem => set_bmsem v k
  | AddrLock => set_addrLock v k
  | JoinSem p => alter_pcb (λ o, set_sems v (exitsem o) (multex o) (shouldExit o) o) p k
  | ExitSem p => alter_pcb (λ o, set_sems (joinsem o) v (multex o) (shouldExit o) o) p k
  | Multex p => alter_pcb (λ o, set_sems (joinsem o) (exitsem o) v (shouldExit o) o) p k
  | ShouldExit p => alter_pcb (λ o, set_sems (joinsem o) (exitsem o) (multex o) v o) p k
  end.

(** The effect of an operation on the shared state: [None] while it has to wait. *)
Definition do_op (o : op) (k : KS) : res (option KS) :=
  match o with
  | P s => v ← get_sem s k; Ok (if v =? 0 then None else Some (put_sem s (v - 1) k))
  | V s => v ← get_sem s k; Ok (Some (put_sem s (v + 1) k))
  | Fork _ _ _ | Resume => Ok (Some k)
  end.

(** The thread a Fork creates. *)
Definition forked (o : op) (ths : gmap nat Thread) : gmap nat Thread :=
  match o with
  | Fork id sp file => <[fresh (dom ths) := mkThread id sp (Do Resume (processCreator sp file))]> ths
  | _ => ths
  end.

(** A thread goes on with what [r] has computed. *)
Definition resume (t : nat) (th : Thread) (ths : gmap nat Thread) (r : res (KS * node Z)) : res Sys :=
  '(k, n) ← r;
  Ok (mkSys k (<[t := mkThread (pid th) (space th) n]> ths) (match n with Halt => true | _ => false end)).

Inductive action := Go | Call (c : call).

(** One step of thread [t]: [None] if it cannot do that now.  The thread that
    has finished is deleted, with its address space, by the one that runs next. *)
Definition step (t : nat) (a : action) (s : Sys) : option (res Sys) :=
  if halted s then None
  else
    th ← threads s !! t;
    match run th, a with
    | Return _, Call c => Some (resume t th (threads s) (syscall (pid th) c (ks s)))
    | Do Resume next, Go => Some (resume t th (threads s) (next (ks s)))
    | Do o next, Go =>
      match do_op o (ks s) with
      | Err e => Some (Err e)
      | Ok None => None
      | Ok (Some k) => Some (Ok (mkSys k (<[t := mkThread (pid th) (space th) (Do Resume next)]> (forked o (threads s))) false))
      end
    | Finish, Go =>
      Some (w ← delete_AddrSpace (space th) (frames (ks s));
            Ok (mkSys (set_frames w (ks s)) (delete t (threads s)) false))
    | _, _ => None
    end.

(** ** The start *)

(** PTable::PTable; [slots] is the uninitialised array. *)
Definition new_PTable (slots : list (option ptr)) (w : Frames) : res KS :=
  b ← Bitmap.new_Bitmap MAX_PROCESS;
  Ok (mkKS ∅ 0 MAX_PROCESS b slots 1 1 w).

(** PTable::StartMainThread: there is no other thread yet that it could meet at
    a semaphore, so it is one step; [args] are kernel->userArgs. *)
Definition StartMainThread (tname : list Z) (args : list (list Z)) (k : KS) : res Sys :=
  let file := executable tname in
  '(sp, w) ← new_AddrSpace file garbage (frames k);
  let p := next_ptr k in
  let o := mkPCB (-1) 0 0 0 1 1 (uninit p).1 (uninit p).2 None (tname :: args) (Z.of_nat (length args) + 1) in
  pcb ← aset (pcb k) 0 (Some p);
  bm ← Bitmap.Mark 0 (bm k);
  (if Z.of_nat (length args) + 1 <=? MAX_ARG_NUM then Ok tt else Err BadAccess) ;;
  '(ok, sp, w) ← Load file garbage garbage_addr sp w;
  (* when Load fails, StartMainThread returns without a program *)
  Ok (mkSys (mkKS (<[p := o]> (heap k)) (S p) (psize k) bm pcb (bmsem k) (addrLock k) w)
            (if (ok : bool) then {[ 0%nat := mkThread 0 sp (Return 0) ]} else ∅) false).
End PROCESS.
End Process.
