(* ===== verification/ProcessInv.v ===== *)
(** The points where the kernel calls of Process.v can lose the processor, and
    the invariant that holds between them.

    A thread is at a position [pos], in front of an operation or behind it
    ([After]); [code] is the rest of the call from there, [nxt] what happens
    between the operation and the next position.  Lemma [code_next] says that
    [code] and [nxt] agree with the code of Process.v. *)

From S2P Require Import Prelude BitmapLib Machine AddrSpace Process.

Module ProcessInv.
Import AddrSpace Process.

(** ** Positions *)

(** The arguments of SetArgvs, if it is called. *)
Abbreviation argv_of := (option (Z * list (list Z))).

Inductive pos :=
| User (r : Z)
| Starting (sp : AddrSpace) (file : list Z)
| Finished
| Halted
(* ExecUpdate: file name, arguments, slot, new PCB, ... *)
| X1 (f : list Z) (a : argv_of)
| X2 (f : list Z) (a : argv_of) (i : Z)
| X3 (f : list Z) (a : argv_of) (i : Z)
| XFull
| X4 (f : list Z) (i : Z) (q : ptr)
| X5 (f : list Z) (i : Z) (q parent : ptr)
| X6 (f : list Z) (i : Z) (q parent : ptr)
| X7 (f : list Z) (i : Z) (q parent : ptr)
| X8 (f : list Z) (i : Z) (q : ptr)
| X9 (f : list Z) (i : Z) (q : ptr) (file : list Z)
| X10 (f : list Z) (i : Z) (q : ptr) (file : list Z) (sp : AddrSpace)
| X11 (i : Z) (q : ptr) (file : list Z) (sp : AddrSpace)
| X12 (i : Z) (q : ptr)
(* JoinUpdate *)
| J1 (c : Z)
| JNone (c : Z)
| J2 (c : Z)
| J3 (c : Z) (q : ptr)
(* ExitUpdate: exit code, own PCB, ... *)
| Q1 (e : Z)
| QNone (e : Z)
| Q2 (e : Z)
| Q3 (e : Z) (q : ptr) (parentID : Z)
| Q4 (e : Z) (q : ptr) (parentID : Z)
| Q5 (e : Z) (q parent : ptr)
| Q6 (e : Z) (q parent : ptr)
| Q7 (e : Z) (q parent : ptr)
| Q8 (e : Z) (q parent : ptr)
| Q9 (e : Z) (q parent : ptr)
| Q10 (e : Z) (q : ptr)
| Q11 (e : Z) (q : ptr)
| Q12 (e : Z)
(* behind the operation of a position *)
| After (p : pos).

(** The operation a thread is about to do. *)
Definition op_of (p : pos) : option op :=
  match p with
  | User _ | Finished | Halted => None
  | Starting _ _ | After _ => Some Resume
  | X1 _ _ | X3 _ _ _ | J1 _ | Q1 _ | Q11 _ _ => Some (P BmSem)
  | X2 _ _ _ | XFull | X4 _ _ _ | JNone _ | J2 _ | QNone _ | Q2 _ | Q12 _ => Some (V BmSem)
  | X5 _ _ _ r | Q5 _ _ r => Some (P (Multex r))
  | X7 _ _ _ r | Q7 _ _ r => Some (V (Multex r))
  | X6 _ _ _ r => Some (P (ShouldExit r))
  | X8 _ _ q => Some (P (Multex q))
  | X9 _ _ _ _ => Some (P AddrLock)
  | X10 _ _ _ _ _ => Some (V AddrLock)
  | X11 i _ file sp => Some (Fork i sp file)
  | X12 _ q => Some (V (Multex q))
  | J3 _ q => Some (P (JoinSem q))
  | Q3 _ q _ => Some (V (JoinSem q))
  | Q4 _ q _ => Some (V (ExitSem q))
  | Q6 _ _ r => Some (V (ShouldExit r))
  | Q8 _ _ r => Some (P (ExitSem r))
  | Q9 _ _ r => Some (V (ExitSem r))
  | Q10 _ q => Some (P (ShouldExit q))
  end.

Section CODE.
Variable uninit : ptr → Z * Z.
Variable executable : list Z → option (list Z).
Variable garbage : list Z.
Variable garbage_addr : Z.

Definition args_of (a : argv_of) (p : ptr) : proc unit :=
  match a with None => mret tt | Some (argc, argv) => SetArgvs p argc argv end.

(** The rest of a call behind its next operation. *)
Definition exec_2 (cur : Z) (f : list Z) (a : argv_of) (i : Z) : proc Z :=
  if i =? -1 then semV BmSem ;; mret (-1)
  else
    aNewPcb ← new_PCB uninit i cur;
    args_of a aNewPcb ;;
    set_slot i (Some aNewPcb) ;;
    semV BmSem ;;
    (if negb (cur =? -1) then
       parent ← slot cur;
       parent ← lift (deref parent);
       IncNumWait parent
     else mret tt) ;;
    Exec executable garbage aNewPcb f i ;;
    mret i.

Definition exec_3 (f : list Z) (i : Z) (q : ptr) : proc Z := Exec executable garbage q f i ;; mret i.

Definition exec_4 (f : list Z) (i : Z) (q : ptr) : proc Z :=
  (let file := executable f in
   lift (ASSERT (negb (bool_decide (file = None)))) ;;
   file ← lift (deref file);
   sp ← new_Space garbage (Some file);
   lift (ASSERT (Z.of_nat (length f) + 1 <=? 32)) ;;
   operation (Fork i sp file) ;;
   semV (Multex q) ;;
   mret i) ;;
  mret i.

Definition join_2 (c : Z) : proc Z :=
  childPcb ← slot c;
  childPcb ← lift (match childPcb with Some p => Ok p | None => Err AssertFailed end);
  JoinWait childPcb ;;
  GetExitCode childPcb.

Definition exit_end (cur : Z) (q : ptr) : proc Z :=
  if cur =? 0 then halt else PCBExit q ;; Remove cur ;; finish.

Definition exit_3 (cur : Z) (q : ptr) (parentID : Z) : proc Z :=
  (if negb (parentID =? -1) then
     parent ← slot parentID;
     parent ← lift (deref parent);
     DecNumWait parent ;;
     ExitWait parent
   else mret tt) ;;
  exit_end cur q.

Definition exit_2 (cur e : Z) : proc Z :=
  curPcb ← slot cur;
  curPcb ← lift (match curPcb with Some p => Ok p | None => Err AssertFailed end);
  parentID ← GetParentID curPcb;
  SetExitCode curPcb e ;;
  JoinRelease curPcb ;;
  ExitRelease curPcb ;;
  exit_3 cur curPcb parentID.

Definition ret (i : Z) : proc Z := mret i.

Fixpoint code (cur : Z) (p : pos) : node Z :=
  match p with
  | User r => Return r
  | Finished => Finish
  | Halted => Halt
  | Starting sp file => Do Resume (processCreator garbage garbage_addr sp file)
  | X1 f a => Do (P BmSem) (λ k, ((result ← atomic (λ k, '(i, b) ← Bitmap.FindAndSet (bm k); Ok (i, set_bm b k));
                                   semV BmSem ;; mret result) ≫= λ i, semP BmSem ;; exec_2 cur f a i) k)
  | X2 f a i => Do (V BmSem) (λ k, (semP BmSem ;; exec_2 cur f a i) k)
  | X3 f a i => Do (P BmSem) (λ k, exec_2 cur f a i k)
  | XFull => Do (V BmSem) (λ k, ret (-1) k)
  | X4 f i q => Do (V BmSem) (λ k, ((if negb (cur =? -1) then
                                       parent ← slot cur;
                                       parent ← lift (deref parent);
                                       IncNumWait parent
                                     else mret tt) ;; exec_3 f i q) k)
  | X5 f i q r => Do (P (Multex r)) (λ k, ((n ← field r numwait;
                                            (if n =? 0 then semP (ShouldExit r) else mret tt) ;;
                                            update r (λ o, set_numwait (numwait o + 1) o) ;;
                                            semV (Multex r)) ;; exec_3 f i q) k)
  | X6 f i q r => Do (P (ShouldExit r)) (λ k, ((update r (λ o, set_numwait (numwait o + 1) o) ;;
                                                semV (Multex r)) ;; exec_3 f i q) k)
  | X7 f i q r => Do (V (Multex r)) (λ k, exec_3 f i q k)
  | X8 f i q => Do (P (Multex q)) (λ k, exec_4 f i q k)
  | X9 f i q file => Do (P AddrLock) (λ k,
      (((sp ← atomic (λ k, '(sp, w) ← new_AddrSpace (Some file) garbage (frames k); Ok (sp, set_frames w k));
         semV AddrLock ;; mret sp) ≫= λ sp,
        lift (ASSERT (Z.of_nat (length f) + 1 <=? 32)) ;;
        operation (Fork i sp file) ;; semV (Multex q) ;; ret i) ;; ret i) k)
  | X10 f i q file sp => Do (V AddrLock) (λ k, ((lift (ASSERT (Z.of_nat (length f) + 1 <=? 32)) ;;
                                                 operation (Fork i sp file) ;; semV (Multex q) ;; ret i) ;; ret i) k)
  | X11 i q file sp => Do (Fork i sp file) (λ k, (semV (Multex q) ;; ret i) k)
  | X12 i q => Do (V (Multex q)) (λ k, ret i k)
  | J1 c => Do (P BmSem) (λ k, ((n ← atomic (λ k, Ok (psize k, k));
                                 if (c <? 0) || (n <=? c) then semV BmSem ;; mret false
                                 else
                                   curPcb ← slot c;
                                   match curPcb with
                                   | None => semV BmSem ;; mret false
                                   | Some _ => semV BmSem ;; mret true
                                   end) ≫= λ b : bool, if negb b then lift (Err AssertFailed) else join_2 c) k)
  | JNone c => Do (V BmSem) (λ k, lift (Err AssertFailed) k)
  | J2 c => Do (V BmSem) (λ k, join_2 c k)
  | J3 c q => Do (P (JoinSem q)) (λ k, GetExitCode q k)
  | Q1 e => Do (P BmSem) (λ k, ((n ← atomic (λ k, Ok (psize k, k));
                                 if (cur <? 0) || (n <=? cur) then semV BmSem ;; mret false
                                 else
                                   curPcb ← slot cur;
                                   match curPcb with
                                   | None => semV BmSem ;; mret false
                                   | Some _ => semV BmSem ;; mret true
                                   end) ≫= λ b : bool, lift (ASSERT b) ;; exit_2 cur e) k)
  | QNone e => Do (V BmSem) (λ k, (lift (ASSERT false) ;; exit_2 cur e) k)
  | Q2 e => Do (V BmSem) (λ k, (lift (ASSERT true) ;; exit_2 cur e) k)
  | Q3 e q pp => Do (V (JoinSem q)) (λ k, (ExitRelease q ;; exit_3 cur q pp) k)
  | Q4 e q pp => Do (V (ExitSem q)) (λ k, exit_3 cur q pp k)
  | Q5 e q r => Do (P (Multex r)) (λ k, (((update r (λ o, set_numwait (numwait o - 1) o) ;;
                                           n ← field r numwait;
                                           (if n =? 0 then semV (ShouldExit r) else mret tt) ;;
                                           semV (Multex r)) ;; ExitWait r) ;; exit_end cur q) k)
  | Q6 e q r => Do (V (ShouldExit r)) (λ k, (semV (Multex r) ;; ExitWait r ;; exit_end cur q) k)
  | Q7 e q r => Do (V (Multex r)) (λ k, (ExitWait r ;; exit_end cur q) k)
  | Q8 e q r => Do (P (ExitSem r)) (λ k, (semV (ExitSem r) ;; exit_end cur q) k)
  | Q9 e q r => Do (V (ExitSem r)) (λ k, exit_end cur q k)
  | Q10 e q => Do (P (ShouldExit q)) (λ k, (Remove cur ;; finish) k)
  | Q11 e q => Do (P BmSem) (λ k, ((atomic (λ k, b ← Bitmap.Clear cur (bm k); Ok (tt, set_bm b k)) ;;
                                    curPcb ← slot cur;
                                    curPcb ← lift (match curPcb with Some p => Ok p | None => Err AssertFailed end);
                                    delete_PCB curPcb ;;
                                    set_slot cur None ;;
                                    semV BmSem) ;; finish) k)
  | Q12 e => Do (V BmSem) (λ k, finish k)
  | After p => match code cur p with Do _ next => Do Resume next | n => n end
  end.

(** The first position of a call. *)
Definition first_pos (c : call) : pos :=
  match c with
  | CExec f => X1 f None
  | CExecV argc argv => X1 (default [] (head argv)) (Some (argc, argv))
  | CJoin id => J1 id
  | CExit e => Q1 e
  end.

(** From an operation to the next position. *)
Definition num_wait (d : Z) (r : ptr) (k : KS) : res (KS * Z) :=
  o ← deref (heap k !! r);
  Ok (set_heap (<[r := set_numwait (numwait o + d) o]> (heap k)) k, numwait o + d).

Definition exec_file (f : list Z) (i : Z) (q : ptr) (k : KS) : res (KS * pos) :=
  o ← deref (heap k !! q);
  Ok (set_heap (<[q := set_filename f o]> (heap k)) k, X8 f i q).

Definition pcb_check (a : argv_of) : res unit :=
  match a with
  | None => Ok tt
  | Some (argc, argv) => if (argc <=? MAX_ARG_NUM) && (argc <=? Z.of_nat (length argv)) then Ok tt else Err BadAccess
  end.

Definition created (cur : Z) (a : argv_of) (i : Z) (p : ptr) : PCB :=
  mkPCB (if i =? 0 then -1 else cur) i 0 0 1 1 (uninit p).1 (uninit p).2 None
    (match a with None => [] | Some (argc, argv) => take (Z.to_nat argc) argv end)
    (match a with None => 0 | Some (argc, _) => argc end).

Definition is_exist (i : Z) (k : KS) : res bool :=
  if (i <? 0) || (psize k <=? i) then Ok false else p ← aget (pcb k) i; Ok (match p with Some _ => true | None => false end).

Definition the_pcb (i : Z) (k : KS) : res ptr :=
  p ← aget (pcb k) i; match p with Some p => Ok p | None => Err AssertFailed end.

Definition exit_next (cur e : Z) (q : ptr) (k : KS) : res (KS * pos) := Ok (k, if cur =? 0 then Halted else Q10 e q).

Fixpoint nxt (cur : Z) (p : pos) (k : KS) : res (KS * pos) :=
  match p with
  | User _ | Finished | Halted => Ok (k, p)
  | Starting sp file =>
    '(ok, _, w) ← Load (Some file) garbage garbage_addr sp (frames k);
    ASSERT ok ;; Ok (set_frames w k, User 0)
  | X1 f a => '(i, b) ← Bitmap.FindAndSet (bm k); Ok (set_bm b k, X2 f a i)
  | X2 f a i => Ok (k, X3 f a i)
  | X3 f a i =>
    if i =? -1 then Ok (k, XFull)
    else
      let p := next_ptr k in
      pcb_check a ;;
      l ← aset (pcb k) i (Some p);
      Ok (mkKS (<[p := created cur a i p]> (heap k)) (S p) (psize k) (bm k) l (bmsem k) (addrLock k) (frames k), X4 f i p)
  | XFull => Ok (k, User (-1))
  | X4 f i q => if negb (cur =? -1) then r ← aget (pcb k) cur; r ← deref r; Ok (k, X5 f i q r) else exec_file f i q k
  | X5 f i q r =>
    o ← deref (heap k !! r);
    if numwait o =? 0 then Ok (k, X6 f i q r) else '(k, _) ← num_wait 1 r k; Ok (k, X7 f i q r)
  | X6 f i q r => '(k, _) ← num_wait 1 r k; Ok (k, X7 f i q r)
  | X7 f i q r => exec_file f i q k
  | X8 f i q => match executable f with Some file => Ok (k, X9 f i q file) | None => Err AssertFailed end
  | X9 f i q file =>
    '(sp, w) ← new_AddrSpace (Some file) garbage (frames k); Ok (set_frames w k, X10 f i q file sp)
  | X10 f i q file sp => ASSERT (Z.of_nat (length f) + 1 <=? 32) ;; Ok (k, X11 i q file sp)
  | X11 i q file sp => Ok (k, X12 i q)
  | X12 i q => Ok (k, User i)
  | J1 c => b ← is_exist c k; Ok (k, if (b : bool) then J2 c else JNone c)
  | JNone _ => Err AssertFailed
  | J2 c => p ← the_pcb c k; Ok (k, J3 c p)
  | J3 c q => o ← deref (heap k !! q); Ok (k, User (exitcode o))
  | Q1 e => b ← is_exist cur k; Ok (k, if (b : bool) then Q2 e else QNone e)
  | QNone _ => Err AssertFailed
  | Q2 e =>
    q ← the_pcb cur k;
    o ← deref (heap k !! q);
    Ok (set_heap (<[q := set_exitcode e o]> (heap k)) k, Q3 e q (parentID o))
  | Q3 e q pp => Ok (k, Q4 e q pp)
  | Q4 e q pp => if negb (pp =? -1) then r ← aget (pcb k) pp; r ← deref r; Ok (k, Q5 e q r) else exit_next cur e q k
  | Q5 e q r => '(k, n) ← num_wait (-1) r k; Ok (k, if n =? 0 then Q6 e q r else Q7 e q r)
  | Q6 e q r => Ok (k, Q7 e q r)
  | Q7 e q r => Ok (k, Q8 e q r)
  | Q8 e q r => Ok (k, Q9 e q r)
  | Q9 e q r => exit_next cur e q k
  | Q10 e q => Ok (k, Q11 e q)
  | Q11 e q =>
    b ← Bitmap.Clear cur (bm k);
    p ← the_pcb cur k;
    _ ← deref (heap k !! p);
    l ← aset (pcb k) cur None;
    Ok (mkKS (delete p (heap k)) (next_ptr k) (psize k) b l (bmsem k) (addrLock k) (frames k), Q12 e)
  | Q12 e => Ok (k, Finished)
  | After p => nxt cur p k
  end.

(** What the code does behind an operation. *)
Definition continue (n : node Z) (k : KS) : res (KS * node Z) := match n with Do _ next => next k | _ => Ok (k, n) end.

Definition rest (cur : Z) (r : res (KS * pos)) : res (KS * node Z) := '(k, p) ← r; Ok (k, code cur p).


(** [prun] runs code up to the next thing it depends on. *)
Ltac prun := unfold lift, slot, set_slot, field, update, atomic, mbind, proc_bind, res_bind; cbv beta iota.

Lemma code_next cur p k : continue (code cur p) k = rest cur (nxt cur p k).
Proof.
  induction p; cbn [code continue nxt]; try reflexivity.
  - unfold processCreator. prun. destruct (Load _ _ _ _ _) as [[[[] ?] ?]|]; reflexivity.
  - prun. destruct (Bitmap.FindAndSet _) as [[? ?]|]; reflexivity.
  - unfold exec_2. destruct (i =? -1); [reflexivity|]. destruct a as [[argc argv]|]; unfold new_PCB, pcb_check, args_of, SetArgvs; prun; cbn [pcb].
    + destruct (_ && _); [|reflexivity]. cbn. cbn. rewrite lookup_insert_eq. cbn. cbn.
      destruct (aset _ _ _); [|reflexivity]. rewrite insert_insert_eq. reflexivity.
    + cbn. cbn. destruct (aset _ _ _); reflexivity.
  - unfold exec_3, exec_file, Exec. destruct (cur =? -1); prun; cbn [negb].
    + cbn. cbn. destruct (heap k !! q); reflexivity.
    + cbn. cbn. destruct (aget _ _) as [[?|]|]; reflexivity.
  - unfold num_wait. prun. destruct (heap k !! parent) as [o|] eqn:E; [|reflexivity]. cbn. destruct (numwait o =? 0); [reflexivity|]. cbn. by rewrite E.
  - unfold num_wait. prun. destruct (heap k !! parent); reflexivity.
  - unfold exec_3, exec_file, Exec. prun. destruct (heap k !! q); reflexivity.
  - unfold exec_4, new_Space. prun. destruct (executable f); reflexivity.
  - prun. destruct (new_AddrSpace _ _ _) as [[? ?]|]; reflexivity.
  - prun. destruct (_ <=? _); reflexivity.
  - unfold is_exist. prun. cbn [node_bind]. destruct (_ || _); [reflexivity|]. cbn. destruct (aget _ _) as [[?|]|]; reflexivity.
  - unfold join_2, the_pcb. prun. destruct (aget _ _) as [[?|]|]; reflexivity.
  - unfold GetExitCode. prun. destruct (heap k !! q); reflexivity.
  - unfold is_exist. prun. cbn [node_bind]. destruct (_ || _); [reflexivity|]. cbn. destruct (aget _ _) as [[?|]|]; reflexivity.
  - unfold exit_2, the_pcb, GetParentID, SetExitCode. prun. cbn. destruct (aget _ _) as [[p|]|]; [|reflexivity..]. cbn. destruct (heap k !! p) eqn:E; [|reflexivity]. cbn. rewrite E. reflexivity.
  - unfold exit_3. destruct (parentID0 =? -1); prun; cbn [negb]; [|cbn; destruct (aget _ _) as [[?|]|]; reflexivity]. unfold exit_next, exit_end. cbn. destruct (cur =? 0); reflexivity.
  - unfold num_wait. prun. destruct (heap k !! parent) as [o|] eqn:E; [|reflexivity]. cbn. rewrite lookup_insert_eq. cbn.
    change (numwait o + -1) with (numwait o - 1). destruct (numwait o - 1 =? 0); reflexivity.
  - unfold exit_next, exit_end. destruct (cur =? 0); reflexivity.
  - unfold the_pcb, delete_PCB. prun. destruct (Bitmap.Clear _ _); [|reflexivity]. cbn. destruct (aget _ _) as [[p|]|]; [|reflexivity..].
    cbn. destruct (heap k !! p); [|reflexivity]. cbn. destruct (aset _ _ _); reflexivity.
  - rewrite <- IHp. by destruct (code cur p).
Qed.

Lemma syscall_first cur c k :
  syscall uninit executable garbage cur c k = Ok (k, code cur (first_pos c))
  ∨ ∃ e, syscall uninit executable garbage cur c k = Err e ∧ ∃ argc argv, c = CExecV argc argv ∧ (argc ≤ 0 ∨ argv = []).
Proof.
  destruct c as [f|argc argv|id|e]; cbn [syscall first_pos].
  - left. reflexivity.
  - unfold ExecVUpdate. prun. destruct (Z.ltb_spec 0 argc); [|right; eexists; split; [reflexivity|]; eexists _, _; split; [done|]; by left].
    destruct argv as [|f argv]; [right; eexists; split; [reflexivity|]; eexists _, _; split; [done|]; by right|]. left. reflexivity.
  - left. reflexivity.
  - left. reflexivity.
Qed.
End CODE.

(** ** Threads *)

(** What is known of a thread: its process, its position, its PCB, and the id and
    the PCB of the parent. *)
Record Info := mkInfo { gcur : Z; gpos : pos; gme : ptr; gpp : Z; gpar : option ptr }.
Implicit Types (g : Info) (G : gmap nat Info) (k : KS) (o : PCB) (q r : ptr).

Definition at_pos (p : pos) g : Info := mkInfo (gcur g) p (gme g) (gpp g) (gpar g).

(** ** What positions mean *)

Fixpoint has_pcb (p : pos) : bool := match p with Q12 _ | Finished => false | After p => has_pcb p | _ => true end.

(** The slot a thread has reserved for a process that has no thread yet. *)
Fixpoint slot_of (p : pos) : option Z :=
  match p with
  | X2 _ _ i | X3 _ _ i => if i =? -1 then None else Some i
  | X4 _ i _ | X5 _ i _ _ | X6 _ i _ _ | X7 _ i _ _ | X8 _ i _ | X9 _ i _ _ | X10 _ i _ _ _ | X11 i _ _ _ => Some i
  | After (X11 _ _ _ _) => None
  | After p => slot_of p
  | _ => None
  end.

(** It has no PCB yet. *)
Fixpoint reserved (p : pos) : option Z :=
  match p with X2 _ _ i | X3 _ _ i => if i =? -1 then None else Some i | After p => reserved p | _ => None end.

(** It has one. *)
Fixpoint embryo (p : pos) : option (Z * ptr) :=
  match p with
  | X4 _ i q | X5 _ i q _ | X6 _ i q _ | X7 _ i q _ | X8 _ i q | X9 _ i q _ | X10 _ i q _ _ | X11 i q _ _ => Some (i, q)
  | After (X11 _ _ _ _) => None
  | After p => embryo p
  | _ => None
  end.

(** The process has its thread, and the call is about to return it. *)
Definition born (p : pos) : option (Z * ptr) :=
  match p with After (X11 i q _ _) | X12 i q | After (X12 i q) => Some (i, q) | _ => None end.

Definition holds_bm (p : pos) : bool :=
  match p with
  | X2 _ _ _ | XFull | X4 _ _ _ | JNone _ | J2 _ | QNone _ | Q2 _ | Q12 _ => true
  | After (X1 _ _ | X3 _ _ _ | J1 _ | Q1 _ | Q11 _ _) => true
  | _ => false
  end.

Definition holds_mx (p : pos) : option ptr :=
  match p with
  | X6 _ _ _ r | X7 _ _ _ r | Q6 _ _ r | Q7 _ _ r => Some r
  | X9 _ _ q _ | X10 _ _ q _ _ | X11 _ q _ _ | X12 _ q => Some q
  | After (X5 _ _ _ r | X6 _ _ _ r | Q5 _ _ r | Q6 _ _ r) => Some r
  | After (X8 _ _ q | X9 _ _ q _ | X10 _ _ q _ _ | X11 _ q _ _) => Some q
  | _ => None
  end.

(** The process still counts as one its parent has to wait for. *)
Fixpoint awaited (p : pos) : bool :=
  match p with
  | Q6 _ _ _ | Q7 _ _ _ | Q8 _ _ _ | Q9 _ _ _ | Q10 _ _ | Q11 _ _ | Q12 _ | Finished => false
  | After p => awaited p
  | _ => true
  end.

(** The thread has counted the process it is creating. *)
Fixpoint creating (p : pos) : bool :=
  match p with
  | X7 _ _ _ _ | X8 _ _ _ | X9 _ _ _ _ | X10 _ _ _ _ _ | X11 _ _ _ _ => true
  | After (X11 _ _ _ _) => false
  | After p => creating p
  | _ => false
  end.

(** The exit code is set. *)
Fixpoint exiting (p : pos) : option Z :=
  match p with
  | Q3 e _ _ | Q4 e _ _ | Q5 e _ _ | Q6 e _ _ | Q7 e _ _ | Q8 e _ _ | Q9 e _ _ | Q10 e _ | Q11 e _ => Some e
  | After p => exiting p
  | _ => None
  end.

(** Behind the V of joinsem; behind the V of exitsem. *)
Fixpoint joinable (p : pos) : bool :=
  match p with
  | Q4 _ _ _ | Q5 _ _ _ | Q6 _ _ _ | Q7 _ _ _ | Q8 _ _ _ | Q9 _ _ _ | Q10 _ _ | Q11 _ _ | Halted | After (Q3 _ _ _) => true
  | After p => joinable p
  | _ => false
  end.
Fixpoint released (p : pos) : bool :=
  match p with
  | Q5 _ _ _ | Q6 _ _ _ | Q7 _ _ _ | Q8 _ _ _ | Q9 _ _ _ | Q10 _ _ | Q11 _ _ | Halted | After (Q4 _ _ _) => true
  | After p => released p
  | _ => false
  end.

(** The PCB whose shouldExit, whose exitsem, whose joinsem the thread has taken. *)
Definition exit_ptr (p : pos) : option ptr :=
  match p with
  | After (X6 _ _ _ r) | Q6 _ _ r => Some r
  | After (Q10 _ q) | Q11 _ q | After (Q11 _ q) => Some q
  | _ => None
  end.
Definition pass_ptr (p : pos) : option ptr := match p with After (Q8 _ _ r) | Q9 _ _ r => Some r | _ => None end.
Definition got_ptr (p : pos) : option ptr := match p with After (J3 _ q) => Some q | _ => None end.

(** The process that is joined. *)
Fixpoint joining (p : pos) : option (Z * ptr) := match p with J3 c q => Some (c, q) | After p => joining p | _ => None end.

(** Join has not found the process, or it waits on this PCB. *)
Fixpoint lost (p : pos) : option (Z * option ptr) :=
  match p with JNone c => Some (c, None) | J3 c q => Some (c, Some q) | After p => lost p | _ => None end.

(** The thread is about to release the shouldExit of its parent. *)
Definition waking (p : pos) : option ptr := match p with Q6 _ _ r => Some r | _ => None end.

(** The parent has let the process go. *)
Fixpoint let_go (p : pos) : bool :=
  match p with Q9 _ _ _ | Q10 _ _ | Q11 _ _ | After (Q8 _ _ _) => true | After p => let_go p | _ => false end.

Definition occ (i : Z) g : Z :=
  Z.b2z (has_pcb (gpos g) && (gcur g =? i)) + Z.b2z (bool_decide (slot_of (gpos g) = Some i)).
Definition n_bm g : Z := Z.b2z (holds_bm (gpos g)).
Definition n_mx q g : Z := Z.b2z (bool_decide (holds_mx (gpos g) = Some q)).
Definition n_wait q g : Z :=
  Z.b2z (awaited (gpos g) && bool_decide (gpar g = Some q)) + Z.b2z (creating (gpos g) && bool_decide (gme g = q)).
Definition n_exit q g : Z := Z.b2z (bool_decide (exit_ptr (gpos g) = Some q)).
Definition n_pass q g : Z := Z.b2z (bool_decide (pass_ptr (gpos g) = Some q)).
Definition n_rel q g : Z := Z.b2z (released (gpos g) && bool_decide (gme g = q)).
Definition n_got q g : Z := Z.b2z (bool_decide (got_ptr (gpos g) = Some q)).
Definition n_join q g : Z := Z.b2z (joinable (gpos g) && bool_decide (gme g = q)).

(** ** The invariant *)

(** A PCB: its semaphores and its counter. *)
Record PcbOk G q o : Prop := {
  po_mx : 0 ≤ multex o ∧ multex o + cnt (n_mx q) G = 1;
  po_wait : numwait o = cnt (n_wait q) G;
  po_exit : 0 ≤ shouldExit o ∧ shouldExit o + Z.b2z (negb (numwait o =? 0)) + cnt (n_exit q) G = 1;
  po_pass : 0 ≤ exitsem o ∧ exitsem o + cnt (n_pass q) G = cnt (n_rel q) G;
  po_join : 0 ≤ joinsem o ∧ joinsem o + cnt (n_got q) G ≤ cnt (n_join q) G
}.

(** The pointers and ids in a position. *)
Fixpoint pos_fact g (p : pos) : Prop :=
  match p with
  | X5 _ _ _ r | X6 _ _ _ r | X7 _ _ _ r => r = gme g
  | Q3 _ q pp | Q4 _ q pp => q = gme g ∧ pp = gpp g
  | Q5 _ q r | Q6 _ q r | Q7 _ q r | Q8 _ q r | Q9 _ q r => q = gme g ∧ gcur g ≠ 0 ∧ gpar g = Some r
  | Q10 _ q | Q11 _ q => q = gme g ∧ gcur g ≠ 0 ∧ is_Some (gpar g)
  | Halted => gcur g = 0
  | Q12 _ | Finished => gcur g ≠ 0
  | QNone _ => False
  | After (User _ | Finished | Halted | Starting _ _ | After _) => False
  | After p => pos_fact g p
  | _ => True
  end.

(** A thread: its own PCB, the one it is creating, its parent's. *)
Record ThrOk k g : Prop := {
  th_own : has_pcb (gpos g) = true → 0 ≤ gcur g < 10 ∧ pcb k !! Z.to_nat (gcur g) = Some (Some (gme g))
           ∧ ∃ o, heap k !! gme g = Some o ∧ parentID o = gpp g ∧ ∀ e, exiting (gpos g) = Some e → exitcode o = e;
  th_slot i : slot_of (gpos g) = Some i → 0 < i < 10;
  th_res i : reserved (gpos g) = Some i → pcb k !! Z.to_nat i = Some None;
  th_embryo i q : embryo (gpos g) = Some (i, q) →
    pcb k !! Z.to_nat i = Some (Some q) ∧ ∃ o, heap k !! q = Some o ∧ parentID o = gcur g;
  th_parent : awaited (gpos g) = true →
    gcur g = 0 ∧ gpp g = -1 ∧ gpar g = None
    ∨ gcur g ≠ 0 ∧ 0 ≤ gpp g < 10 ∧ ∃ r, gpar g = Some r ∧ pcb k !! Z.to_nat (gpp g) = Some (Some r);
  th_pos : pos_fact g (gpos g);
  th_ptr : (gme g < next_ptr k)%nat ∧ (∀ r, gpar g = Some r → (r < next_ptr k)%nat)
           ∧ ∀ q, holds_mx (gpos g) = Some q → (q < next_ptr k)%nat;
  th_join c q : joining (gpos g) = Some (c, q) → (q < next_ptr k)%nat ∧ ∀ o, heap k !! q = Some o → pID o = c;
  th_lost c x : lost (gpos g) = Some (c, x) → (∀ q, x = Some q → heap k !! q = None) →
    ∀ q o, 0 ≤ c → pcb k !! Z.to_nat c = Some (Some q) → heap k !! q = Some o → parentID o ≠ gcur g;
  th_main r : gpp g = 0 → pcb k !! 0%nat = Some (Some r) → gpar g = Some r;
  th_dec r : waking (gpos g) = Some r → is_Some (heap k !! r)
}.

(** The table and the PCBs. *)
Record TabOk k : Prop := {
  ta_size : psize k = 10;
  ta_len : length (pcb k) = 10%nat;
  ta_heap q o : heap k !! q = Some o → (q < next_ptr k)%nat ∧ 0 ≤ pID o < 10 ∧ pcb k !! Z.to_nat (pID o) = Some (Some q);
  ta_slot (i : nat) q : pcb k !! i = Some (Some q) → ∃ o, heap k !! q = Some o ∧ pID o = Z.of_nat i
}.

Definition SlotsOk k G : Prop :=
  ∃ M : gset Z, BitmapSpec.Marked (bm k) 10 M ∧ ∀ i, 0 ≤ i < 10 → cnt (occ i) G = Z.b2z (bool_decide (i ∈ M)).

Record Inv k G : Prop := {
  in_tab : TabOk k;
  in_slots : SlotsOk k G;
  in_bm : 0 ≤ bmsem k ∧ bmsem k + cnt n_bm G = 1;
  in_pcb q o : heap k !! q = Some o → PcbOk G q o;
  in_thr t g : G !! t = Some g → ThrOk k g;
  in_owner q o : heap k !! q = Some o →
    ∃ t g, G !! t = Some g ∧ (has_pcb (gpos g) = true ∧ gme g = q ∨ embryo (gpos g) = Some (pID o, q));
  in_main : ∃ t g, G !! t = Some g ∧ gcur g = 0;
  in_go t g r o : G !! t = Some g → let_go (gpos g) = true → gpar g = Some r → heap k !! r = Some o → 1 ≤ cnt (n_rel r) G;
  in_child t g i q : G !! t = Some g → born (gpos g) = Some (i, q) →
    ∃ t' g', G !! t' = Some g' ∧ has_pcb (gpos g') = true ∧ gme g' = q ∧ gcur g' = i ∧ gpp g' = gcur g ∧ gpar g' = Some (gme g)
}.

(** ** Consequences *)

Lemma b2z_nonneg b : 0 ≤ Z.b2z b.
Proof. by destruct b. Qed.

Lemma occ_nonneg i g : 0 ≤ occ i g.
Proof. unfold occ. pose proof (b2z_nonneg (has_pcb (gpos g) && (gcur g =? i))). pose proof (b2z_nonneg (bool_decide (slot_of (gpos g) = Some i))). lia. Qed.
Lemma n_bm_nonneg g : 0 ≤ n_bm g.
Proof. apply b2z_nonneg. Qed.
Lemma n_mx_nonneg q g : 0 ≤ n_mx q g.
Proof. apply b2z_nonneg. Qed.
Lemma n_wait_nonneg q g : 0 ≤ n_wait q g.
Proof. unfold n_wait. pose proof (b2z_nonneg (awaited (gpos g) && bool_decide (gpar g = Some q))). pose proof (b2z_nonneg (creating (gpos g) && bool_decide (gme g = q))). lia. Qed.
Lemma n_exit_nonneg q g : 0 ≤ n_exit q g.
Proof. apply b2z_nonneg. Qed.
Lemma n_pass_nonneg q g : 0 ≤ n_pass q g.
Proof. apply b2z_nonneg. Qed.
Lemma n_rel_nonneg q g : 0 ≤ n_rel q g.
Proof. apply b2z_nonneg. Qed.
Lemma n_got_nonneg q g : 0 ≤ n_got q g.
Proof. apply b2z_nonneg. Qed.
Lemma n_join_nonneg q g : 0 ≤ n_join q g.
Proof. apply b2z_nonneg. Qed.

#[local] Hint Resolve occ_nonneg n_bm_nonneg n_mx_nonneg n_wait_nonneg n_exit_nonneg n_pass_nonneg n_rel_nonneg n_got_nonneg n_join_nonneg : core.

Lemma slot_unique k G t g t' g' i :
  Inv k G → G !! t = Some g → G !! t' = Some g' → 0 ≤ i < 10 → 1 ≤ occ i g → 1 ≤ occ i g' → t = t'.
Proof.
  intros HI Ht Ht' Hi H1 H2. destruct (decide (t = t')) as [|Hne]; [done|]. exfalso.
  destruct (in_slots _ _ HI) as (M&_&HM). specialize (HM i Hi).
  pose proof (cnt_ge2 (occ i) G t g t' g' ltac:(auto) Ht Ht' Hne). destruct (bool_decide _); cbn in HM; lia.
Qed.

Lemma own_occ g : has_pcb (gpos g) = true → 1 ≤ occ (gcur g) g.
Proof.
  intros Hp. unfold occ. rewrite Hp, Z.eqb_refl. cbn [andb Z.b2z]. pose proof (b2z_nonneg (bool_decide (slot_of (gpos g) = Some (gcur g)))). lia.
Qed.

Lemma slot_occ i g : slot_of (gpos g) = Some i → 1 ≤ occ i g.
Proof.
  intros Hs. unfold occ. rewrite (bool_decide_true (slot_of _ = _)) by done. cbn [Z.b2z]. pose proof (b2z_nonneg (has_pcb (gpos g) && (gcur g =? i))). lia.
Qed.

(** Threads with the same process or the same PCB are the same. *)
Lemma cur_unique k G t g t' g' :
  Inv k G → G !! t = Some g → G !! t' = Some g' → has_pcb (gpos g) = true → has_pcb (gpos g') = true → gcur g = gcur g' → t = t'.
Proof.
  intros HI Ht Ht' Hp Hp' Hc. destruct (th_own _ _ (in_thr _ _ HI t g Ht) Hp) as (Hr&_).
  apply (slot_unique k G t g t' g' (gcur g)); try done; [by apply own_occ|]. rewrite Hc. by apply own_occ.
Qed.

Lemma slot_inj k (i j : Z) q : TabOk k → 0 ≤ i → 0 ≤ j → pcb k !! Z.to_nat i = Some (Some q) → pcb k !! Z.to_nat j = Some (Some q) → i = j.
Proof.
  intros HT Hi Hj E1 E2. destruct (ta_slot _ HT _ _ E1) as (o1&F1&G1), (ta_slot _ HT _ _ E2) as (o2&F2&G2).
  rewrite F1 in F2. injection F2 as <-. lia.
Qed.

Lemma me_unique k G t g t' g' :
  Inv k G → G !! t = Some g → G !! t' = Some g' → has_pcb (gpos g) = true → has_pcb (gpos g') = true → gme g = gme g' → t = t'.
Proof.
  intros HI Ht Ht' Hp Hp' Hc. apply (cur_unique k G t g t' g' HI Ht Ht' Hp Hp').
  destruct (th_own _ _ (in_thr _ _ HI t g Ht) Hp) as (Hr&E&_), (th_own _ _ (in_thr _ _ HI t' g' Ht') Hp') as (Hr'&E'&_).
  rewrite <- Hc in E'. apply (slot_inj k _ _ (gme g) (in_tab _ _ HI)); try done; lia.
Qed.

(** ** Steps that keep the table *)

Definition key o : Z * Z * Z := (parentID o, pID o, exitcode o).

Record sameK k k' : Prop := {
  sk_size : psize k' = psize k;
  sk_pcb : pcb k' = pcb k;
  sk_next : next_ptr k' = next_ptr k;
  sk_heap q : key <$> heap k' !! q = key <$> heap k !! q
}.

Lemma same_heap k k' q o : sameK k k' → heap k !! q = Some o → ∃ o', heap k' !! q = Some o' ∧ key o' = key o.
Proof. intros HS E. pose proof (sk_heap _ _ HS q) as Hk. rewrite E in Hk. destruct (heap k' !! q) as [o'|]; [|done]. injection Hk as Hk1 Hk2 Hk3. exists o'. split; [done|]. unfold key. congruence. Qed.

Lemma same_heap' k k' q o' : sameK k k' → heap k' !! q = Some o' → ∃ o, heap k !! q = Some o ∧ key o' = key o.
Proof. intros HS E. pose proof (sk_heap _ _ HS q) as Hk. rewrite E in Hk. destruct (heap k !! q) as [o|]; [|done]. injection Hk as Hk1 Hk2 Hk3. exists o. split; [done|]. unfold key. congruence. Qed.

Lemma ThrOk_same k k' g : sameK k k' → ThrOk k g → ThrOk k' g.
Proof.
  intros HS [T1 T2 TR T3 T4 T5 T6 T7 T8 T9 T10]. pose proof HS as [S1 S2 S3 _]. split.
  - intros Hp. destruct (T1 Hp) as (?&?&o&Ho&Hpp&He). split; [done|]. rewrite S2. split; [done|].
    destruct (same_heap _ _ _ _ HS Ho) as (o'&Ho'&[= K1 K2 K3]). exists o'. split; [done|]. split; [congruence|]. intros e E. rewrite K3. by apply He.
  - done.
  - by rewrite S2.
  - intros i q E. destruct (T3 i q E) as (?&o&Ho&Hpp). rewrite S2. split; [done|].
    destruct (same_heap _ _ _ _ HS Ho) as (o'&Ho'&[= K1 K2 K3]). exists o'. split; [done|]. congruence.
  - by rewrite S2.
  - done.
  - by rewrite S3.
  - intros c q E. rewrite S3. destruct (T7 c q E) as [? Hc]. split; [done|]. intros o' Ho'. destruct (same_heap' _ _ _ _ HS Ho') as (o&Ho&[= K1 K2 K3]). rewrite K2. by apply Hc.
  - intros c x E Hx q o' Hc Hq Ho'. rewrite S2 in Hq. destruct (same_heap' _ _ _ _ HS Ho') as (o&Ho&[= K1 K2 K3]). rewrite K1. apply (T8 c x E) with q; try done.
    intros y Hy. specialize (Hx y Hy). destruct (heap k !! y) as [oy|] eqn:Ey; [|done]. by destruct (same_heap _ _ _ _ HS Ey) as (oy'&?&_); simplify_eq.
  - by rewrite S2.
  - intros r E. destruct (T10 r E) as [o Ho]. destruct (same_heap _ _ _ _ HS Ho) as (o'&?&_). by exists o'.
Qed.

Lemma TabOk_same k k' : sameK k k' → TabOk k → TabOk k'.
Proof.
  intros HS [T1 T2 T3 T4]. pose proof HS as [S1 S2 S3 _]. split; rewrite ?S1, ?S2, ?S3; try done.
  - intros q o' E. destruct (same_heap' _ _ _ _ HS E) as (o&Ho&[= K1 K2 K3]). rewrite K2. by apply T3.
  - intros i q E. destruct (T4 i q E) as (o&Ho&Hi). destruct (same_heap _ _ _ _ HS Ho) as (o'&Ho'&[= K1 K2 K3]). exists o'. split; [done|]. congruence.
Qed.

(** What a move may do to the semaphores and the counter of a PCB. *)
Record PcbMove g (p' : pos) q o o' : Prop := {
  pm_mx : 0 ≤ multex o' ∧ multex o' + n_mx q (at_pos p' g) = multex o + n_mx q g;
  pm_wait : numwait o' - n_wait q (at_pos p' g) = numwait o - n_wait q g;
  pm_exit : 0 ≤ shouldExit o' ∧ shouldExit o' + Z.b2z (negb (numwait o' =? 0)) + n_exit q (at_pos p' g)
              = shouldExit o + Z.b2z (negb (numwait o =? 0)) + n_exit q g;
  pm_pass : 0 ≤ exitsem o' ∧ exitsem o' + n_pass q (at_pos p' g) - n_rel q (at_pos p' g) = exitsem o + n_pass q g - n_rel q g;
  pm_join : 0 ≤ joinsem o' ∧ joinsem o' + n_got q (at_pos p' g) - n_join q (at_pos p' g) ≤ joinsem o + n_got q g - n_join q g
}.

Lemma PcbOk_move G t g p' q o o' :
  G !! t = Some g → PcbOk G q o → PcbMove g p' q o o' → PcbOk (<[t := at_pos p' g]> G) q o'.
Proof.
  intros Ht [P1 P2 P3 P4 P5] [M1 M2 M3 M4 M5]. split; rewrite ?(cnt_update _ _ _ g) by done; lia.
Qed.

Lemma SlotsOk_move k k' G t g p' :
  SlotsOk k G → G !! t = Some g → bm k' = bm k → (∀ i, occ i (at_pos p' g) = occ i g) → SlotsOk k' (<[t := at_pos p' g]> G).
Proof.
  intros (M&HM&Hc) Ht Hb Ho. exists M. rewrite Hb. split; [done|]. intros i Hi. rewrite (cnt_update _ _ _ g), Ho, Hc by done. lia.
Qed.

Lemma n_rel_mono G t g p' r :
  G !! t = Some g → (released (gpos g) = true → released p' = true) → cnt (n_rel r) G ≤ cnt (n_rel r) (<[t := at_pos p' g]> G).
Proof.
  intros Ht Hr. rewrite (cnt_update _ _ _ g) by done. unfold n_rel. cbn [gpos gme at_pos]. destruct (released (gpos g)); [rewrite Hr by done; lia|].
  cbn [andb]. pose proof (b2z_nonneg (released p' && bool_decide (gme g = r))). cbn. lia.
Qed.

(** Parts of the invariant that a move keeps. *)
Lemma main_move k G t g p' : Inv k G → G !! t = Some g → ∃ t' g', <[t := at_pos p' g]> G !! t' = Some g' ∧ gcur g' = 0.
Proof.
  intros HI Ht. destruct (in_main _ _ HI) as (tm&gm&Hm&Hm0). destruct (decide (tm = t)) as [->|].
  - exists t, (at_pos p' g). rewrite lookup_insert_eq. split; [done|]. cbn. congruence.
  - exists tm, gm. by rewrite lookup_insert_ne.
Qed.

Lemma child_move k G t g p' t' g' i q :
  Inv k G → G !! t = Some g → has_pcb p' = has_pcb (gpos g) → G !! t' = Some g' → born (gpos g') = Some (i, q) →
  ∃ t2 g2, <[t := at_pos p' g]> G !! t2 = Some g2 ∧ has_pcb (gpos g2) = true ∧ gme g2 = q ∧ gcur g2 = i ∧ gpp g2 = gcur g' ∧ gpar g2 = Some (gme g').
Proof.
  intros HI Ht Hhas Ht' Hg'. destruct (in_child _ _ HI t' g' i q Ht' Hg') as (t2&g2&Ht2&Hp2&Hm2&Hc2&Hpp2&Hpar2). destruct (decide (t2 = t)) as [->|].
  - exists t, (at_pos p' g). rewrite lookup_insert_eq. rewrite Ht in Ht2. injection Ht2 as <-. cbn. by rewrite Hhas.
  - exists t2, g2. by rewrite lookup_insert_ne.
Qed.

Lemma owner_move k G t g p' q o :
  Inv k G → G !! t = Some g → (has_pcb (gpos g) = true → has_pcb p' = true) → (∀ x, embryo (gpos g) = Some x → embryo p' = Some x) →
  heap k !! q = Some o →
  ∃ t' g', <[t := at_pos p' g]> G !! t' = Some g' ∧ (has_pcb (gpos g') = true ∧ gme g' = q ∨ embryo (gpos g') = Some (pID o, q)).
Proof.
  intros HI Ht Hhas Hemb Ho. destruct (in_owner _ _ HI q o Ho) as (t'&g'&Ht'&Hown). destruct (decide (t' = t)) as [->|].
  - rewrite Ht in Ht'. injection Ht' as <-. exists t, (at_pos p' g). rewrite lookup_insert_eq. split; [done|]. cbn. destruct Hown as [[? ?]|?]; [left|right]; auto.
  - exists t', g'. by rewrite lookup_insert_ne.
Qed.

(** A move in general. *)
Lemma Inv_move k k' G t g p' :
  Inv k G → G !! t = Some g → TabOk k' →
  (∀ q o', heap k' !! q = Some o' → ∃ o, heap k !! q = Some o ∧ pID o' = pID o) →
  SlotsOk k' (<[t := at_pos p' g]> G) →
  0 ≤ bmsem k' → bmsem k' + Z.b2z (holds_bm p') = bmsem k + Z.b2z (holds_bm (gpos g)) →
  (∀ q o o', heap k !! q = Some o → heap k' !! q = Some o' → PcbOk G q o → PcbMove g p' q o o') →
  (∀ t' g', t' ≠ t → G !! t' = Some g' → ThrOk k' g') →
  ThrOk k' (at_pos p' g) →
  has_pcb p' = has_pcb (gpos g) → embryo p' = embryo (gpos g) →
  (∀ x, born p' = Some x → born (gpos g) = Some x) →
  (released (gpos g) = true → released p' = true) →
  (let_go p' = true → let_go (gpos g) = true ∨ ∀ r o, gpar g = Some r → heap k !! r = Some o → 1 ≤ cnt (n_rel r) G) →
  Inv k' (<[t := at_pos p' g]> G).
Proof.
  intros HI Ht HTab Hdom Hsl Hb0 Hb Hpcb Hoth Hthr Hhas Hemb Hx Hrel Hgo. pose proof HI as [I1 I2 [I3 I3'] I4 I5 I9 _ I7 I8]. split.
  - done.
  - done.
  - split; [done|]. rewrite (cnt_update _ _ _ g) by done. unfold n_bm at 2 3. cbn [gpos at_pos]. lia.
  - intros q o' Ho'. destruct (Hdom q o' Ho') as (o&Ho&_). eapply PcbOk_move; [done|by apply I4|]. by apply Hpcb, I4.
  - intros t' g' [[<- <-]|[Hne Ht']]%lookup_insert_Some; [done|]. by apply (Hoth t').
  - intros q o' Ho'. destruct (Hdom q o' Ho') as (o&Ho&Hid). rewrite Hid. apply (owner_move k); try done; congruence.
  - by apply (main_move k).
  - intros t' g' r o' Ht' Hg' Hr Ho'. destruct (Hdom r o' Ho') as (o&Ho&_). pose proof (n_rel_mono G t g p' r Ht Hrel) as Hmono.
    apply lookup_insert_Some in Ht' as [[<- <-]|[Hne Ht']]; cbn in Hg', Hr.
    + destruct (Hgo Hg') as [Hl|Hl]; [specialize (I7 t g r o Ht Hl Hr Ho); lia|specialize (Hl r o Hr Ho); lia].
    + specialize (I7 t' g' r o Ht' Hg' Hr Ho). lia.
  - intros t' g' i q [[<- <-]|[Hne Ht']]%lookup_insert_Some Hg'; [apply Hx in Hg'; by apply (child_move k G t g p' t g i q)|]. by apply (child_move k G t g p' t' g' i q).
Qed.

(** Premises of it that follow when the table stays. *)
Lemma same_others k k' G t : Inv k G → sameK k k' → ∀ t' g', t' ≠ t → G !! t' = Some g' → ThrOk k' g'.
Proof. intros HI HS t' g' _ Ht'. apply (ThrOk_same k); [done|]. by apply (in_thr _ _ HI t'). Qed.

Lemma same_dom k k' q o' : sameK k k' → heap k' !! q = Some o' → ∃ o, heap k !! q = Some o ∧ pID o' = pID o.
Proof. intros HS E. destruct (same_heap' _ _ _ _ HS E) as (o&Ho&[= K1 K2 K3]). by exists o. Qed.

(** A move that changes no PCB. *)
Lemma Inv_still k k' G t g p' :
  Inv k G → G !! t = Some g → heap k' = heap k → bm k' = bm k → psize k' = psize k → pcb k' = pcb k → next_ptr k' = next_ptr k →
  0 ≤ bmsem k' → bmsem k' + Z.b2z (holds_bm p') = bmsem k + Z.b2z (holds_bm (gpos g)) →
  (∀ q o, heap k !! q = Some o → PcbOk G q o → PcbMove g p' q o o) → (∀ i, occ i (at_pos p' g) = occ i g) →
  ThrOk k (at_pos p' g) → has_pcb p' = has_pcb (gpos g) → embryo p' = embryo (gpos g) →
  (∀ x, born p' = Some x → born (gpos g) = Some x) → (released (gpos g) = true → released p' = true) →
  (let_go p' = true → let_go (gpos g) = true) →
  Inv k' (<[t := at_pos p' g]> G).
Proof.
  intros HI Ht Hh Hbm E1 E2 E3 Hb0 Hb Hmv Hocc Hth Hhas Hemb Hx Hrel Hgo. assert (HS : sameK k k') by (split; [done..|]; by rewrite Hh).
  apply (Inv_move k); try done.
  - apply (TabOk_same k); [done|apply HI].
  - intros q o' Ho'. by apply (same_dom k k').
  - apply (SlotsOk_move k); [apply HI|done|done|done].
  - intros q o o' Ho Ho' HP. rewrite Hh, Ho in Ho'. injection Ho' as <-. by apply Hmv.
  - by apply (same_others k).
  - by apply (ThrOk_same k).
  - intros Hl. left. by apply Hgo.
Qed.

(** What the counters see of a position. *)
Definition shape (p : pos) := (has_pcb p, embryo p, slot_of p, holds_mx p, awaited p, creating p, exit_ptr p, pass_ptr p, released p, (got_ptr p, joinable p)).

Definition sems o : Z * Z * Z * Z * Z := (joinsem o, exitsem o, multex o, shouldExit o, numwait o).

Lemma PcbMove_quiet g p' q o o' G : shape p' = shape (gpos g) → sems o' = sems o → PcbOk G q o → PcbMove g p' q o o'.
Proof.
  intros [= S1 SE S2 S3 S4 S5 S6 S7 S8 S9 S10] [= E1 E2 E3 E4 E5] [P1 P2 P3 P4 P5].
  split; unfold n_mx, n_wait, n_exit, n_pass, n_rel, n_got, n_join; cbn [gpos at_pos gme gpar];
    rewrite ?S3, ?S4, ?S5, ?S6, ?S7, ?S8, ?S9, ?S10, ?E1, ?E2, ?E3, ?E4, ?E5; lia.
Qed.

Lemma occ_shape g p' i : shape p' = shape (gpos g) → occ i (at_pos p' g) = occ i g.
Proof. intros [= S1 SE S2 S3 S4 S5 S6 S7 S8 S9 S10]. unfold occ. cbn. by rewrite S1, S2. Qed.

(** A move that no semaphore of a PCB takes part in. *)
Lemma Inv_quiet k k' G t g p' :
  Inv k G → G !! t = Some g → shape p' = shape (gpos g) → heap k' = heap k → bm k' = bm k →
  psize k' = psize k → pcb k' = pcb k → next_ptr k' = next_ptr k →
  0 ≤ bmsem k' → bmsem k' + Z.b2z (holds_bm p') = bmsem k + Z.b2z (holds_bm (gpos g)) →
  ThrOk k (at_pos p' g) → (∀ x, born p' = Some x → born (gpos g) = Some x) → (let_go p' = true → let_go (gpos g) = true) →
  Inv k' (<[t := at_pos p' g]> G).
Proof.
  intros HI Ht Hsh Hh Hbm E1 E2 E3 Hb0 Hb Hth Hx Hgo. pose proof Hsh as [= S1 SE S2 S3 S4 S5 S6 S7 S8 S9 S10].
  apply (Inv_still k); try done.
  - intros q o _ HP. by apply (PcbMove_quiet _ _ _ _ _ G).
  - intros i. by apply occ_shape.
  - congruence.
Qed.

(** A move that changes the semaphores or the counter of one PCB. *)
Lemma Inv_pcb k k' G t g p' r o o2 :
  Inv k G → G !! t = Some g → sameK k k' → bm k' = bm k → bmsem k' = bmsem k → holds_bm p' = holds_bm (gpos g) →
  heap k !! r = Some o → heap k' !! r = Some o2 → PcbMove g p' r o o2 →
  (∀ q o o', q ≠ r → heap k !! q = Some o → heap k' !! q = Some o' → sems o' = sems o ∧ (PcbOk G q o → PcbMove g p' q o o)) →
  (∀ i, occ i (at_pos p' g) = occ i g) →
  ThrOk k (at_pos p' g) → has_pcb p' = has_pcb (gpos g) → embryo p' = embryo (gpos g) → (∀ x, born p' = Some x → born (gpos g) = Some x) →
  (released (gpos g) = true → released p' = true) →
  (let_go p' = true → let_go (gpos g) = true ∨ ∀ r o, gpar g = Some r → heap k !! r = Some o → 1 ≤ cnt (n_rel r) G) →
  Inv k' (<[t := at_pos p' g]> G).
Proof.
  intros HI Ht HS Hbm Hb Hhb Hr Hr2 Hmv Hoth Hocc Hth Hhas Hemb Hx Hrel Hgo. apply (Inv_move k); try done.
  - apply (TabOk_same k); [done|apply HI].
  - intros q o' Ho'. by apply (same_dom k k').
  - apply (SlotsOk_move k); [apply HI|done|done|done].
  - rewrite Hb. apply HI.
  - by rewrite Hb, Hhb.
  - intros q oq oq' Hq Hq' HP. destruct (decide (q = r)) as [->|Hne]; [by simplify_eq|].
    destruct (Hoth q oq oq' Hne Hq Hq') as [[= E1 E2 E3 E4 E5] HM]. destruct (HM HP) as [M1 M2 M3 M4 M5].
    split; rewrite ?E1, ?E2, ?E3, ?E4, ?E5; done.
  - by apply (same_others k).
  - by apply (ThrOk_same k).
Qed.

(** ** The operations *)

Definition sem_ptr (s : sem) : option ptr :=
  match s with JoinSem r | ExitSem r | Multex r | ShouldExit r => Some r | _ => None end.
Definition sem_val (s : sem) o : Z :=
  match s with JoinSem _ => joinsem o | ExitSem _ => exitsem o | Multex _ => multex o | ShouldExit _ => shouldExit o | _ => 0 end.
Definition sem_set (s : sem) (v : Z) o : PCB :=
  match s with
  | JoinSem _ => set_sems v (exitsem o) (multex o) (shouldExit o) o
  | ExitSem _ => set_sems (joinsem o) v (multex o) (shouldExit o) o
  | Multex _ => set_sems (joinsem o) (exitsem o) v (shouldExit o) o
  | ShouldExit _ => set_sems (joinsem o) (exitsem o) (multex o) v o
  | _ => o
  end.

Lemma get_sem_pcb s k r o : sem_ptr s = Some r → heap k !! r = Some o → get_sem s k = Ok (sem_val s o).
Proof. intros Hs Ho. destruct s; cbn in Hs; try done; injection Hs as ->; cbn; by rewrite Ho. Qed.

Lemma get_sem_dead s k r : sem_ptr s = Some r → heap k !! r = None → get_sem s k = Err BadAccess.
Proof. intros Hs Ho. destruct s; cbn in Hs; try done; injection Hs as ->; cbn; by rewrite Ho. Qed.

Lemma put_sem_pcb s k r o v : sem_ptr s = Some r → heap k !! r = Some o → put_sem s v k = set_heap (<[r := sem_set s v o]> (heap k)) k.
Proof.
  intros Hs Ho. destruct s; cbn in Hs; try done; injection Hs as ->; cbn; unfold alter_pcb; f_equal;
    apply map_eq; intros q; (destruct (decide (q = r)) as [->|Hne]; [by rewrite lookup_alter_eq, lookup_insert_eq, Ho|by rewrite lookup_alter_ne, lookup_insert_ne]).
Qed.

Lemma P_pcb s k k1 r :
  sem_ptr s = Some r → do_op (P s) k = Ok (Some k1) →
  ∃ o, heap k !! r = Some o ∧ sem_val s o ≠ 0 ∧ k1 = set_heap (<[r := sem_set s (sem_val s o - 1) o]> (heap k)) k.
Proof.
  intros Hs E. destruct (heap k !! r) as [o|] eqn:Ho; [|cbn [do_op] in E; by rewrite (get_sem_dead s k r) in E]. exists o. split; [done|].
  cbn [do_op] in E. rewrite (get_sem_pcb s k r o) in E by done. cbn in E. destruct (Z.eqb_spec (sem_val s o) 0); [done|]. split; [done|].
  injection E as <-. by apply put_sem_pcb.
Qed.

Lemma V_pcb s k k1 r :
  sem_ptr s = Some r → do_op (V s) k = Ok (Some k1) →
  ∃ o, heap k !! r = Some o ∧ k1 = set_heap (<[r := sem_set s (sem_val s o + 1) o]> (heap k)) k.
Proof.
  intros Hs E. destruct (heap k !! r) as [o|] eqn:Ho; [|cbn [do_op] in E; by rewrite (get_sem_dead s k r) in E]. exists o. split; [done|].
  cbn [do_op] in E. rewrite (get_sem_pcb s k r o) in E by done. cbn in E. injection E as <-. by apply put_sem_pcb.
Qed.

Lemma P_bm k k1 : do_op (P BmSem) k = Ok (Some k1) → bmsem k ≠ 0 ∧ k1 = set_bmsem (bmsem k - 1) k.
Proof. cbn. destruct (Z.eqb_spec (bmsem k) 0); [done|]. by intros [= <-]. Qed.

Lemma V_bm k k1 : do_op (V BmSem) k = Ok (Some k1) → k1 = set_bmsem (bmsem k + 1) k.
Proof. cbn. by intros [= <-]. Qed.

Lemma sameK_pcb k r o o2 h : heap k !! r = Some o → key o2 = key o → h = <[r := o2]> (heap k) → sameK k (set_heap h k).
Proof.
  intros Ho Hk ->. split; try done. intros q. cbn. destruct (decide (q = r)) as [->|]; [|by rewrite lookup_insert_ne].
  rewrite lookup_insert_eq, Ho. cbn. by rewrite Hk.
Qed.
End ProcessInv.
