(* ===== verification/ProcessStep.v ===== *)
(** Every step of the processes of Process.v preserves the invariant of
    ProcessInv.v: the effect of an operation, a new thread, what a thread does
    behind an operation, and the end of a thread. *)

From S2P Require Import Prelude BitmapLib Machine AddrSpace Process ProcessInv.

Module ProcessStep.
Import AddrSpace Process ProcessInv.
Implicit Types (g : Info) (G : gmap nat Info) (k : KS) (o : PCB) (q r : ptr) (p : pos).

(** ** What a thread knows after a move *)

Lemma ThrOk_at k g p :
  ThrOk k g → (has_pcb p = true → has_pcb (gpos g) = true) → (∀ e, exiting p = Some e → exiting (gpos g) = Some e) →
  (∀ i, slot_of p = Some i → slot_of (gpos g) = Some i) → (∀ i, reserved p = Some i → reserved (gpos g) = Some i) → (∀ i q, embryo p = Some (i, q) → embryo (gpos g) = Some (i, q)) →
  (awaited p = true → awaited (gpos g) = true) → pos_fact g p → (∀ q, holds_mx p = Some q → (q < next_ptr k)%nat) →
  (∀ x, joining p = Some x → joining (gpos g) = Some x) → (∀ x, lost p = Some x → lost (gpos g) = Some x) → (∀ r, waking p = Some r → is_Some (heap k !! r)) →
  ThrOk k (at_pos p g).
Proof.
  intros [T1 T2 TR T3 T4 T5 T6 T7 T8 T9 T10] C1 C2 C3 CR C4 C5 C6 C7 C8 C9 C10. split; cbn [gpos gcur gme gpp gpar at_pos].
  - intros Hp. destruct (T1 (C1 Hp)) as (?&?&o&?&?&He). split; [done|]. split; [done|]. exists o. split; [done|]. split; [done|]. auto.
  - intros i Hi. apply T2. auto.
  - intros i Hi. apply TR. auto.
  - intros i q Hi. apply T3. auto.
  - intros Ha. apply T4. auto.
  - revert C6. clear. induction p; try done. by destruct p.
  - destruct T6 as (?&?&_). done.
  - intros c q Hj. apply T7. auto.
  - intros c x Hl. apply (T8 c x). auto.
  - exact T9.
  - exact C10.
Qed.

(** [at_ok] proves it for concrete positions, up to the facts of the new one. *)
Ltac at_ok HT Ep := apply (ThrOk_at _ _ _ HT); rewrite ?Ep; cbn; try done; try (intros; congruence).

Lemma live_ptr k q o : TabOk k → heap k !! q = Some o → (q < next_ptr k)%nat.
Proof. intros HT Ho. by apply (ta_heap _ HT) in Ho as [? _]. Qed.

(** Behind an operation. *)
Lemma ThrOk_after k g (c : op) : TabOk k → ThrOk k g → op_of (gpos g) = Some c → c ≠ Resume → ThrOk k (at_pos (After (gpos g)) g).
Proof.
  intros HTab HT Eo Hc. pose proof HT as [T1 T2 TR T3 T4 T5 (T6&T6'&T6'') T7 T8 T9 T10].
  destruct (gpos g) eqn:Ep; cbn in Eo; try done; injection Eo as <-; try done; cbn in T3, T5, T6'';
    (at_ok HT Ep; intros x [= <-]; subst; try done; try (by apply T6'')).
  - destruct (T3 _ _ eq_refl) as (_&o&Ho&_). by apply (live_ptr k _ o HTab).
  - destruct T5 as (_&_&?). by apply T6'.
Qed.

Section STEP.
Variable uninit : ptr → Z * Z.
Variable executable : list Z → option (list Z).
Variable garbage : list Z.
Variable garbage_addr : Z.

#[local] Abbreviation nxt := (nxt uninit executable garbage garbage_addr).

(** ** Operations *)

Lemma effect_bm k k1 G t g (c : op) :
  Inv k G → G !! t = Some g → op_of (gpos g) = Some c → (c = P BmSem ∨ c = V BmSem) → do_op c k = Ok (Some k1) →
  Inv k1 (<[t := at_pos (After (gpos g)) g]> G).
Proof.
  intros HI Ht Eo Hc E. pose proof (ThrOk_after k g c (in_tab _ _ HI) (in_thr _ _ HI t g Ht) Eo ltac:(by destruct Hc as [->| ->])) as HT. destruct (in_bm _ _ HI) as [Hb _].
  destruct Hc as [->| ->]; [destruct (P_bm k k1 E) as [Hn ->]|rewrite (V_bm k k1 E)];
    (apply (Inv_quiet k); try done; cbn [bmsem set_bmsem]; try lia; destruct (gpos g); cbn in Eo |- *; try done; try congruence; try lia).
Qed.

Lemma effect_lock k k1 G t g (c : op) :
  Inv k G → G !! t = Some g → op_of (gpos g) = Some c → (c = P AddrLock ∨ c = V AddrLock) → do_op c k = Ok (Some k1) →
  Inv k1 (<[t := at_pos (After (gpos g)) g]> G).
Proof.
  intros HI Ht Eo Hc E. pose proof (ThrOk_after k g c (in_tab _ _ HI) (in_thr _ _ HI t g Ht) Eo ltac:(by destruct Hc as [->| ->])) as HT. destruct (in_bm _ _ HI) as [Hb _].
  destruct Hc as [->| ->]; cbn in E; [destruct (addrLock k =? 0); [done|]|]; injection E as <-;
    (apply (Inv_quiet k); try done; destruct (gpos g); cbn in Eo |- *; try done; congruence).
Qed.

Ltac mv Ep := split; unfold n_mx, n_wait, n_exit, n_pass, n_rel, n_got, n_join; cbn [gpos gme gpar at_pos]; rewrite ?Ep; cbn;
  repeat case_bool_decide; simplify_eq; cbn; try lia.

(** The PCBs that a change of one of them leaves alone. *)
Lemma pcb_others k G r o2 g p' :
  (∀ q o, q ≠ r → heap k !! q = Some o → PcbOk G q o → PcbMove g p' q o o) →
  ∀ q o o', q ≠ r → heap k !! q = Some o → heap (set_heap (<[r := o2]> (heap k)) k) !! q = Some o' → sems o' = sems o ∧ (PcbOk G q o → PcbMove g p' q o o).
Proof. intros Hq q o o' Hne Ho Ho'. cbn in Ho'. rewrite lookup_insert_ne in Ho' by done. rewrite Ho in Ho'. injection Ho' as <-. split; [done|]. by apply Hq. Qed.

(** A move that changes PCB [r] to [o2]. *)
Lemma Inv_pcb1 k G t g p' r o o2 :
  Inv k G → G !! t = Some g → heap k !! r = Some o → key o2 = key o → holds_bm p' = holds_bm (gpos g) →
  (PcbOk G r o → PcbMove g p' r o o2) → (∀ q o, q ≠ r → heap k !! q = Some o → PcbOk G q o → PcbMove g p' q o o) →
  (∀ i, occ i (at_pos p' g) = occ i g) →
  ThrOk k (at_pos p' g) → has_pcb p' = has_pcb (gpos g) → embryo p' = embryo (gpos g) → (∀ x, born p' = Some x → born (gpos g) = Some x) →
  (released (gpos g) = true → released p' = true) →
  (let_go p' = true → let_go (gpos g) = true ∨ ∀ r o, gpar g = Some r → heap k !! r = Some o → 1 ≤ cnt (n_rel r) G) →
  Inv (set_heap (<[r := o2]> (heap k)) k) (<[t := at_pos p' g]> G).
Proof.
  intros HI Ht Ho Hk Hb Hr Hq Hocc HT Hhas Hemb Hx Hrel Hgo. apply (Inv_pcb k _ G t g p' r o o2); try done.
  - by eapply sameK_pcb.
  - cbn. apply lookup_insert_eq.
  - apply Hr. by apply (in_pcb _ _ HI).
  - by apply (pcb_others k G r o2).
Qed.

Ltac by_pcb1 k G t g o Ep := apply (Inv_pcb1 k G t g _ _ o); rewrite ?Ep; try done;
  [intros [P1 P2 P3 P4 P5]; try solve [mv Ep]|intros q' o' Hne _ [P1 P2 P3 P4 P5]; try solve [mv Ep]|intros i'; unfold occ; cbn; by rewrite Ep|..].

Lemma effect_P k k1 G t g s r :
  Inv k G → G !! t = Some g → op_of (gpos g) = Some (P s) → sem_ptr s = Some r → do_op (P s) k = Ok (Some k1) →
  Inv k1 (<[t := at_pos (After (gpos g)) g]> G).
Proof.
  intros HI Ht Eo Hs E. pose proof (ThrOk_after k g _ (in_tab _ _ HI) (in_thr _ _ HI t g Ht) Eo ltac:(done)) as HT.
  pose proof (th_pos _ _ (in_thr _ _ HI t g Ht)) as Hf.
  destruct (P_pcb s k k1 r Hs E) as (o&Ho&Hn&->). destruct (gpos g) eqn:Ep; cbn in Eo; try done; injection Eo as <-; cbn in Hs; try done; injection Hs as ->;
    cbn [sem_val sem_set] in *; by_pcb1 k G t g o Ep.
  - intros _. right. intros r' o' Hr Ho'. destruct Hf as (->&_&Hpar). rewrite Hpar in Hr. injection Hr as <-. rewrite Ho in Ho'. injection Ho' as <-.
    destruct (po_pass _ _ _ (in_pcb _ _ HI _ _ Ho)) as [He0 He]. pose proof (cnt_nonneg (n_pass r) G (n_pass_nonneg _)). lia.
  - by left.
Qed.

Lemma effect_V k k1 G t g s r :
  Inv k G → G !! t = Some g → op_of (gpos g) = Some (V s) → sem_ptr s = Some r → do_op (V s) k = Ok (Some k1) →
  Inv k1 (<[t := at_pos (After (gpos g)) g]> G).
Proof.
  intros HI Ht Eo Hs E. pose proof (ThrOk_after k g _ (in_tab _ _ HI) (in_thr _ _ HI t g Ht) Eo ltac:(done)) as HT.
  pose proof (th_pos _ _ (in_thr _ _ HI t g Ht)) as Hf.
  destruct (V_pcb s k k1 r Hs E) as (o&Ho&->). destruct (gpos g) eqn:Ep; cbn in Eo; try done; injection Eo as <-; cbn in Hs; try done; injection Hs as ->;
    cbn [sem_val sem_set pos_fact] in *; try match type of Hf with _ ∧ _ => destruct Hf as [-> Hf] end; by_pcb1 k G t g o Ep.
  intros _. by left.
Qed.

(** ** Behind an operation: moves that leave the PCBs alone *)

Ltac quiet k HI HT Ep := apply (Inv_quiet k); rewrite ?Ep; try done; try (by apply HI); try (at_ok HT Ep).

Lemma own_slot k g : ThrOk k g → has_pcb (gpos g) = true → aget (pcb k) (gcur g) = Ok (Some (gme g)).
Proof. intros HT Hp. destruct (th_own _ _ HT Hp) as (Hc&Hs&_). apply aget_Ok. split; [lia|done]. Qed.

Lemma seg_exec k k2 G t g p p' :
  Inv k G → G !! t = Some g → gpos g = After p → nxt (gcur g) p k = Ok (k2, p') →
  match p with X2 _ _ _ | XFull | X4 _ _ _ | X8 _ _ _ | X9 _ _ _ _ | X10 _ _ _ _ _ | X11 _ _ _ _ | X12 _ _ => True | X3 _ _ i => i = -1 | _ => False end →
  Inv k2 (<[t := at_pos p' g]> G).
Proof.
  intros HI Ht Ep En Hk. pose proof (in_thr _ _ HI t g Ht) as HT. destruct (th_ptr _ _ HT) as (_&_&Hm). rewrite Ep in Hm. destruct p; try done; cbn in Hm.
  - injection En as <- <-. quiet k HI HT Ep.
  - subst i. injection En as <- <-. quiet k HI HT Ep.
  - injection En as <- <-. quiet k HI HT Ep.
  - pose proof (own_slot k g HT ltac:(by rewrite Ep)) as Hs. cbn in En. destruct (th_own _ _ HT ltac:(by rewrite Ep)) as (Hc&_).
    rewrite (proj2 (Z.eqb_neq (gcur g) (-1))), Hs in En by lia. injection En as <- <-. quiet k HI HT Ep.
  - cbn in En. destruct (executable f); [|done]. injection En as <- <-. quiet k HI HT Ep.
  - cbn in En. apply bind_Ok in En as ([sp w]&_&[= <- <-]). quiet k HI HT Ep.
  - cbn in En. apply bind_Ok in En as ([]&_&[= <- <-]). quiet k HI HT Ep.
  - injection En as <- <-. quiet k HI HT Ep.
  - injection En as <- <-. quiet k HI HT Ep.
Qed.

Lemma seg_start k k2 G t g sp file p' :
  Inv k G → G !! t = Some g → gpos g = Starting sp file → nxt (gcur g) (Starting sp file) k = Ok (k2, p') → Inv k2 (<[t := at_pos p' g]> G).
Proof.
  intros HI Ht Ep En. pose proof (in_thr _ _ HI t g Ht) as HT. cbn in En. apply bind_Ok in En as ([[ok sp'] w]&_&En). apply bind_Ok in En as ([]&_&[= <- <-]).
  quiet k HI HT Ep.
Qed.

(** The process that Join has found. *)
Lemma found_pcb k (i : Z) q : TabOk k → the_pcb i k = Ok q → (q < next_ptr k)%nat ∧ is_Some (heap k !! q) ∧ ∀ o, heap k !! q = Some o → pID o = i.
Proof.
  intros HT E. unfold the_pcb in E. apply bind_Ok in E as ([x|]&Ea&E); [|done]. injection E as ->. apply aget_Ok in Ea as [Hi Ha].
  destruct (ta_slot _ HT _ _ Ha) as (o&Ho&Hid). split; [by apply (live_ptr k q o HT)|]. split; [by exists o|]. intros o' Ho'. rewrite Ho in Ho'. injection Ho' as <-. lia.
Qed.

Lemma not_exists k (i : Z) q : TabOk k → is_exist i k = Ok false → 0 ≤ i → pcb k !! Z.to_nat i ≠ Some (Some q).
Proof.
  intros HT E Hi Hq. unfold is_exist in E. rewrite (ta_size _ HT) in E. pose proof (lookup_lt_Some _ _ _ Hq) as Hlt. rewrite (ta_len _ HT) in Hlt.
  rewrite (proj2 (Z.ltb_ge i 0)), (proj2 (Z.leb_gt 10 i)) in E by lia. cbn in E. by rewrite (proj2 (aget_Ok (pcb k) i (Some q))) in E.
Qed.

Lemma exists_self k g : TabOk k → ThrOk k g → has_pcb (gpos g) = true → is_exist (gcur g) k = Ok true.
Proof.
  intros HTab HT Hp. unfold is_exist. destruct (th_own _ _ HT Hp) as (Hc&_). rewrite (ta_size _ HTab).
  rewrite (proj2 (Z.ltb_ge (gcur g) 0)), (proj2 (Z.leb_gt 10 (gcur g))) by lia. cbn. by rewrite (own_slot k g HT Hp).
Qed.

Lemma seg_join k k2 G t g p p' :
  Inv k G → G !! t = Some g → gpos g = After p → nxt (gcur g) p k = Ok (k2, p') →
  match p with J1 _ | J2 _ | J3 _ _ | Q1 _ | Q12 _ => True | _ => False end →
  Inv k2 (<[t := at_pos p' g]> G).
Proof.
  intros HI Ht Ep En Hk. pose proof (in_thr _ _ HI t g Ht) as HT. pose proof (th_pos _ _ HT) as Hf. rewrite Ep in Hf. destruct p; try done; cbn in En, Hf.
  - assert (HTn : ThrOk k (at_pos (J1 0) g)) by (at_ok HT Ep). apply bind_Ok in En as ([]&Eb&[= <- <-]); [quiet k HI HT Ep|]. apply (Inv_quiet k); rewrite ?Ep; try done; [apply HI|].
    destruct HTn as [N1 N2 NR N3 N4 N5 N6 N7 N8 N9 N10]. split; cbn in *; try done. intros c' x [= <- <-] _ q o Hc Hq Ho. by apply (not_exists k c q (in_tab _ _ HI)) in Eb.
  - apply bind_Ok in En as (q&Eq&[= <- <-]). destruct (found_pcb k c q (in_tab _ _ HI) Eq) as (Hq1&(o&Ho)&Hq2). apply (Inv_quiet k); rewrite ?Ep; try done; [apply HI|].
    assert (HTn : ThrOk k (at_pos (J1 0) g)) by (at_ok HT Ep). destruct HTn as [N1 N2 NR N3 N4 N5 N6 N7 N8 N9 N10]. split; cbn in *; try done; [by intros ?? [= <- <-]|].
    intros c' x [= <- <-] Hx. specialize (Hx q eq_refl). congruence.
  - apply bind_Ok in En as (o&_&[= <- <-]). apply (Inv_still k); rewrite ?Ep; try done; [apply HI| | |at_ok HT Ep].
    + intros x ox _ [P1 P2 P3 P4 P5]. mv Ep.
    + intros i. unfold occ. cbn. by rewrite Ep.
  - rewrite (exists_self k g (in_tab _ _ HI) HT) in En by (by rewrite Ep). injection En as <- <-. quiet k HI HT Ep.
  - injection En as <- <-. quiet k HI HT Ep.
Qed.

Lemma seg_exit k k2 G t g p p' :
  Inv k G → G !! t = Some g → gpos g = After p → nxt (gcur g) p k = Ok (k2, p') →
  match p with Q3 _ _ _ | Q4 _ _ _ | Q6 _ _ _ | Q7 _ _ _ | Q8 _ _ _ | Q9 _ _ _ | Q10 _ _ => True | _ => False end →
  Inv k2 (<[t := at_pos p' g]> G).
Proof.
  intros HI Ht Ep En Hk. pose proof (in_thr _ _ HI t g Ht) as HT. pose proof (th_pos _ _ HT) as Hf. rewrite Ep in Hf. destruct (th_ptr _ _ HT) as (_&_&Hm). rewrite Ep in Hm.
  destruct p; try done; cbn in En, Hf, Hm; destruct Hf as [-> Hf].
  - injection En as <- <-. quiet k HI HT Ep.
  - destruct (th_parent _ _ HT ltac:(by rewrite Ep)) as [(Hc&Hpp&Hpar)|(Hc&Hpp&r&Hpar&Hr)].
    + rewrite Hf, Hpp in En. cbn in En. unfold exit_next in En. rewrite Hc in En. injection En as <- <-. quiet k HI HT Ep.
    + assert (Ea : aget (pcb k) (gpp g) = Ok (Some r)) by (apply aget_Ok; split; [lia|done]).
      rewrite Hf, (proj2 (Z.eqb_neq (gpp g) (-1))), Ea in En by lia. injection En as <- <-. quiet k HI HT Ep.
  - injection En as <- <-. quiet k HI HT Ep.
  - injection En as <- <-. quiet k HI HT Ep.
  - injection En as <- <-. quiet k HI HT Ep.
  - destruct Hf as [Hc Hpar]. unfold exit_next in En. rewrite (proj2 (Z.eqb_neq (gcur g) 0)) in En by done. injection En as <- <-. quiet k HI HT Ep.
  - injection En as <- <-. quiet k HI HT Ep.
Qed.

(** ** The counter of a PCB, and the name *)

Lemma num_wait_Ok d r k k2 n :
  num_wait d r k = Ok (k2, n) → ∃ o, heap k !! r = Some o ∧ n = numwait o + d ∧ k2 = set_heap (<[r := set_numwait (numwait o + d) o]> (heap k)) k.
Proof. unfold num_wait. intros E. apply bind_Ok in E as (o&Ho&[= <- <-]). apply deref_Ok in Ho. by exists o. Qed.

Lemma seg_inc k k2 G t g f i q r n p :
  Inv k G → G !! t = Some g → gpos g = After p → (p = X5 f i q r ∧ (∀ o, heap k !! r = Some o → numwait o ≠ 0) ∨ p = X6 f i q r) →
  num_wait 1 r k = Ok (k2, n) → Inv k2 (<[t := at_pos (X7 f i q r) g]> G).
Proof.
  intros HI Ht Ep Hp E. pose proof (in_thr _ _ HI t g Ht) as HT. destruct (num_wait_Ok _ _ _ _ _ E) as (o&Ho&_&->). pose proof (in_pcb _ _ HI _ _ Ho) as HP.
  pose proof (po_wait _ _ _ HP) as Hw. pose proof (cnt_nonneg (n_wait r) G (n_wait_nonneg _)) as Hw0. pose proof (th_pos _ _ HT) as Hf. rewrite Ep in Hf.
  assert (Hn1 : (numwait o + 1 =? 0) = false) by (apply Z.eqb_neq; lia). assert (Hr : (r < next_ptr k)%nat) by (by apply (live_ptr k r o (in_tab _ _ HI))).
  destruct Hp as [[-> Hn]| ->]; cbn in Hf; subst r.
  - specialize (Hn o Ho). apply Z.eqb_neq in Hn. by_pcb1 k G t g o Ep; [mv Ep; cbn in *; rewrite ?Hn, ?Hn1 in *; cbn in *; lia|]. at_ok HT Ep.
  - assert (Ez : numwait o = 0).
    { pose proof (cnt_ge (n_exit (gme g)) G t g (n_exit_nonneg _) Ht) as Hge. unfold n_exit at 1 in Hge. rewrite Ep in Hge. cbn in Hge. rewrite bool_decide_true in Hge by done.
      destruct (po_exit _ _ _ HP) as [He0 He]. destruct (Z.eqb_spec (numwait o) 0); [done|]. cbn in *. lia. }
    apply Z.eqb_eq in Ez. by_pcb1 k G t g o Ep; [mv Ep; cbn in *; rewrite ?Ez, ?Hn1 in *; cbn in *; lia|]. at_ok HT Ep.
Qed.

Lemma seg_dec k k2 G t g e q r n :
  Inv k G → G !! t = Some g → gpos g = After (Q5 e q r) → num_wait (-1) r k = Ok (k2, n) →
  Inv k2 (<[t := at_pos (if n =? 0 then Q6 e q r else Q7 e q r) g]> G).
Proof.
  intros HI Ht Ep E. pose proof (in_thr _ _ HI t g Ht) as HT. pose proof (th_pos _ _ HT) as Hf. rewrite Ep in Hf. destruct Hf as (->&Hc&Hpar).
  destruct (num_wait_Ok _ _ _ _ _ E) as (o&Ho&->&->). pose proof (in_pcb _ _ HI _ _ Ho) as HP. assert (Hr : (r < next_ptr k)%nat) by (by apply (live_ptr k r o (in_tab _ _ HI))).
  assert (Hw : 1 ≤ numwait o).
  { rewrite (po_wait _ _ _ HP). pose proof (cnt_ge (n_wait r) G t g (n_wait_nonneg r) Ht) as Hge. revert Hge. unfold n_wait at 1. rewrite Ep. cbn. rewrite bool_decide_true by done. cbn. lia. }
  assert (H0 : (numwait o =? 0) = false) by (apply Z.eqb_neq; lia).
  destruct (numwait o + -1 =? 0) eqn:Ez; (by_pcb1 k G t g o Ep; [mv Ep; cbn in *; rewrite ?Ez, ?H0 in *; cbn in *; lia|]; at_ok HT Ep).
  intros x [= <-]. by exists o.
Qed.

Lemma seg_count k k2 G t g p p' :
  Inv k G → G !! t = Some g → gpos g = After p → nxt (gcur g) p k = Ok (k2, p') →
  match p with X5 _ _ _ _ | X6 _ _ _ _ | X7 _ _ _ _ | Q5 _ _ _ => True | _ => False end →
  Inv k2 (<[t := at_pos p' g]> G).
Proof.
  intros HI Ht Ep En Hk. pose proof (in_thr _ _ HI t g Ht) as HT. destruct p; try done; cbn in En.
  - apply bind_Ok in En as (o&Ho&En). apply deref_Ok in Ho. pose proof (live_ptr k _ o (in_tab _ _ HI) Ho) as Hl. destruct (Z.eqb_spec (numwait o) 0).
    + injection En as <- <-. quiet k HI HT Ep. pose proof (th_pos _ _ HT) as Hf. by rewrite Ep in Hf.
    + apply bind_Ok in En as ([k3 n']&E&[= <- <-]). eapply seg_inc; [done..| |done]. left. split; [done|]. intros o' Ho'. congruence.
  - apply bind_Ok in En as ([k3 n']&E&[= <- <-]). eapply seg_inc; [done..| |done]. by right.
  - unfold exec_file in En. apply bind_Ok in En as (o&Ho&[= <- <-]). apply deref_Ok in Ho. by_pcb1 k G t g o Ep. at_ok HT Ep.
  - apply bind_Ok in En as ([k3 n']&E&[= <- <-]). by eapply seg_dec.
Qed.
(** ** Calls *)

Lemma call_ok k G t g v c : Inv k G → G !! t = Some g → gpos g = User v → Inv k (<[t := at_pos (first_pos c) g]> G).
Proof.
  intros HI Ht Ep. pose proof (in_thr _ _ HI t g Ht) as HT. destruct c; quiet k HI HT Ep.
Qed.

(** ** Slots *)

Lemma main_has_pcb k G t g : Inv k G → G !! t = Some g → gcur g = 0 → has_pcb (gpos g) = true.
Proof.
  intros HI Ht Hc. pose proof (th_pos _ _ (in_thr _ _ HI t g Ht)) as Hf. revert Hf. generalize (gpos g) as p. induction p; try done. by destruct p.
Qed.

Lemma occ_marked k G M i t g :
  BitmapSpec.Marked (bm k) 10 M → (∀ i, 0 ≤ i < 10 → cnt (occ i) G = Z.b2z (bool_decide (i ∈ M))) →
  G !! t = Some g → 0 ≤ i < 10 → 1 ≤ occ i g → i ∈ M.
Proof.
  intros _ Hc Ht Hi Ho. pose proof (cnt_ge (occ i) G t g (occ_nonneg i) Ht) as Hge. rewrite Hc in Hge by done.
  case_bool_decide; [done|]. cbn in Hge. lia.
Qed.

Lemma embryo_slot p i q : embryo p = Some (i, q) → slot_of p = Some i.
Proof. induction p; cbn; try done; try congruence. destruct p; done. Qed.

Lemma reserved_slot p i : reserved p = Some i → slot_of p = Some i.
Proof. induction p; cbn; try done. destruct p; done. Qed.

Lemma lost_pcb p x : lost p = Some x → has_pcb p = true.
Proof. induction p; try done. Qed.

Lemma free_slot k G M (i : Z) :
  Inv k G → BitmapSpec.Marked (bm k) 10 M → (∀ i, 0 ≤ i < 10 → cnt (occ i) G = Z.b2z (bool_decide (i ∈ M))) →
  0 ≤ i < 10 → i ∉ M → 0 < i ∧ pcb k !! Z.to_nat i = Some None.
Proof.
  intros HI HM Hc Hi Hn. split.
  - destruct (in_main _ _ HI) as (t&g&Ht&Hc0). pose proof (main_has_pcb k G t g HI Ht Hc0) as Hp. pose proof (own_occ g Hp) as Ho. rewrite Hc0 in Ho.
    destruct (decide (i = 0)) as [->|]; [|lia]. exfalso. apply Hn. by apply (occ_marked k G M 0 t g).
  - destruct (lookup_lt_is_Some_2 (pcb k) (Z.to_nat i)) as [[q|] Hq]; [rewrite (ta_len _ (in_tab _ _ HI)); lia| |done]. exfalso. apply Hn.
    destruct (ta_slot _ (in_tab _ _ HI) _ _ Hq) as (o&Ho&Hid). destruct (in_owner _ _ HI q o Ho) as (t&g&Ht&[[Hp <-]|He]); apply (occ_marked k G M i t g); try done.
    + pose proof (own_occ g Hp) as Hocc. destruct (th_own _ _ (in_thr _ _ HI t g Ht) Hp) as (Hcr&Hs&_).
      replace i with (gcur g); [done|]. apply (slot_inj k _ _ (gme g) (in_tab _ _ HI)); try done; lia.
    + apply slot_occ. apply embryo_slot in He. rewrite He. f_equal. lia.
Qed.

Lemma seg_slot k k2 G t g f a p' :
  Inv k G → G !! t = Some g → gpos g = After (X1 f a) → nxt (gcur g) (X1 f a) k = Ok (k2, p') →
  Inv k2 (<[t := at_pos p' g]> G).
Proof.
  intros HI Ht Ep En. pose proof (in_thr _ _ HI t g Ht) as HT. destruct (in_bm _ _ HI) as [Hb0 Hb].
  destruct (in_slots _ _ HI) as (M&HM&Hc). cbn in En. destruct (BitmapSpec.FindAndSet_spec (bm k) 10 M HM) as (i&b&Ef&Hcase). rewrite Ef in En. cbn in En.
  injection En as <- <-. destruct Hcase as [(->&->&_)|(Hi&Hni&_&HM')].
  - quiet k HI HT Ep.
  - destruct (free_slot k G M i HI HM Hc Hi Hni) as [Hi0 Hsl].
    assert (HS : sameK k (set_bm b k)) by (by split).
    assert (Hneg : (i =? -1) = false) by (apply Z.eqb_neq; lia).
    apply (Inv_move k); rewrite ?Ep; try done.
    + apply (TabOk_same k); [done|apply HI].
    + intros q o' Ho'. by apply (same_dom k _ q o' HS).
    + exists ({[i]} ∪ M). split; [done|]. intros j Hj. rewrite (cnt_update _ _ _ g), Hc by done. unfold occ. cbn [at_pos gpos gcur]. rewrite Ep. cbn [slot_of has_pcb andb]. rewrite Hneg.
      rewrite (bool_decide_false (None = Some j)) by done. destruct (decide (j = i)) as [->|Hne].
      * rewrite (bool_decide_false (i ∈ M)), (bool_decide_true (i ∈ {[i]} ∪ M)), (bool_decide_true (Some i = Some i)) by (done || set_solver). cbn [Z.b2z]. lia.
      * rewrite (bool_decide_false (Some i = Some j)) by congruence. rewrite (bool_decide_ext (j ∈ {[i]} ∪ M) (j ∈ M)) by set_solver. cbn [Z.b2z]. lia.
    + intros q o o' Ho Ho' HP. cbn in Ho'. rewrite Ho in Ho'. injection Ho' as <-. destruct HP as [P1 P2 P3 P4 P5]. mv Ep.
    + by apply (same_others k).
    + apply (ThrOk_same k); [done|]. destruct HT as [T1 T2 TR T3 T4 T5 T6 T7 T8 T9 T10]. rewrite Ep in *. split; cbn in *; rewrite ?Hneg; try done.
      * intros j [= <-]. lia.
      * intros j [= <-]. done.
Qed.

(** ** A new PCB *)

Definition with_new (i : Z) oN k : KS :=
  mkKS (<[next_ptr k := oN]> (heap k)) (S (next_ptr k)) (psize k) (bm k) (<[Z.to_nat i := Some (next_ptr k)]> (pcb k))
       (bmsem k) (addrLock k) (frames k).

Lemma new_heap k q o : TabOk k → heap k !! q = Some o → q ≠ next_ptr k.
Proof. intros HT Ho. apply (live_ptr k q o HT) in Ho. lia. Qed.

Lemma new_slot k (i : Z) (j : nat) q : pcb k !! Z.to_nat i = Some None → pcb k !! j = Some (Some q) → j ≠ Z.to_nat i.
Proof. intros Hi Hj ->. congruence. Qed.

Lemma TabOk_new k (i : Z) oN : TabOk k → 0 ≤ i < 10 → pcb k !! Z.to_nat i = Some None → pID oN = i → TabOk (with_new i oN k).
Proof.
  intros HT Hi Hs Hid. pose proof HT as [T1 T2 T3 T4]. split; cbn; try done.
  - by rewrite length_insert.
  - intros q o [[<- <-]|[Hne Ho]]%lookup_insert_Some.
    + rewrite Hid. split; [lia|]. split; [done|]. apply list_lookup_insert_eq. rewrite T2. lia.
    + destruct (T3 q o Ho) as (?&?&Hq). split; [lia|]. split; [done|]. rewrite list_lookup_insert_ne; [done|]. by apply not_eq_sym, (new_slot k i _ q).
  - intros j q Hj. destruct (decide (j = Z.to_nat i)) as [->|Hne].
    + rewrite list_lookup_insert_eq in Hj by (rewrite T2; lia). injection Hj as <-. exists oN. rewrite lookup_insert_eq. split; [done|lia].
    + rewrite list_lookup_insert_ne in Hj by done. destruct (T4 j q Hj) as (o&Ho&Hp). exists o. rewrite lookup_insert_ne by (by apply not_eq_sym, (new_heap k q o)). done.
Qed.

Lemma ThrOk_new k g (i : Z) oN :
  TabOk k → ThrOk k g → 0 ≤ i → pcb k !! Z.to_nat i = Some None → reserved (gpos g) ≠ Some i → i ≠ 0 →
  (lost (gpos g) = None ∨ parentID oN ≠ gcur g) → ThrOk (with_new i oN k) g.
Proof.
  intros HTab HT Hi Hs Hr Hi0 Hpar. pose proof HT as [T1 T2 TR T3 T4 T5 T6 T7 T8 T9 T10].
  assert (Hslot : ∀ j q, pcb k !! j = Some (Some q) → <[Z.to_nat i := Some (next_ptr k)]> (pcb k) !! j = Some (Some q)).
  { intros j q Hj. rewrite list_lookup_insert_ne; [done|]. by apply not_eq_sym, (new_slot k i j q). }
  assert (Hheap : ∀ q o, heap k !! q = Some o → <[next_ptr k := oN]> (heap k) !! q = Some o).
  { intros q o Ho. rewrite lookup_insert_ne; [done|]. by apply not_eq_sym, (new_heap k q o). }
  split; cbn; try done.
  - intros Hp. destruct (T1 Hp) as (?&?&o&?&?&?). split; [done|]. split; [by apply Hslot|]. exists o. split; [by apply Hheap|done].
  - intros j Hj. assert (j ≠ i) by congruence. specialize (T2 j (reserved_slot _ _ Hj)). rewrite list_lookup_insert_ne by lia. by apply TR.
  - intros j q Hj. destruct (T3 j q Hj) as (?&o&?&?). split; [by apply Hslot|]. exists o. split; [by apply Hheap|done].
  - intros Ha. destruct (T4 Ha) as [?|(?&?&r&?&?)]; [by left|right]. split; [done|]. split; [done|]. exists r. split; [done|]. by apply Hslot.
  - destruct T6 as (?&Hp&Hm). split; [lia|]. split; [intros r Hr'; specialize (Hp r Hr'); lia|intros q Hq; specialize (Hm q Hq); lia].
  - intros c q Hj. destruct (T7 c q Hj) as [? Hq]. split; [lia|]. intros o. rewrite lookup_insert_ne by lia. apply Hq.
  - intros c x Hl Hx q o Hc Hq Ho. destruct Hpar as [Hpar|Hpar]; [by rewrite Hl in Hpar|].
    assert (Hx' : ∀ y, x = Some y → heap k !! y = None) by (intros y Hy; specialize (Hx y Hy); by apply lookup_insert_None in Hx as [? _]).
    apply lookup_insert_Some in Ho as [[<- <-]|[Hne Ho]]; [done|]. apply (T8 c x Hl Hx' q o Hc); [|done].
    destruct (decide (Z.to_nat c = Z.to_nat i)) as [Hd|Hd]; [|by rewrite list_lookup_insert_ne in Hq].
    rewrite Hd, list_lookup_insert_eq in Hq by (by apply lookup_lt_Some in Hs). congruence.
  - intros r Hpp H0. rewrite list_lookup_insert_ne in H0; [by apply T9|]. lia.
  - intros r Hw. destruct (T10 r Hw) as [o Ho]. exists o. by apply Hheap.
Qed.

(** Nobody knows a PCB that is not there yet. *)
Lemma exit_ptr_known g q : pos_fact g (gpos g) → exit_ptr (gpos g) = Some q → q = gme g ∨ gpar g = Some q.
Proof.
  intros Hf E. destruct (gpos g); try done; try (destruct p; try done); cbn in *;
    injection E as <-; naive_solver.
Qed.

Lemma pass_ptr_known g q : pos_fact g (gpos g) → pass_ptr (gpos g) = Some q → gpar g = Some q.
Proof.
  intros Hf E. destruct (gpos g); try done; try (destruct p; try done); cbn in *;
    injection E as <-; naive_solver.
Qed.

Lemma got_ptr_joining p q : got_ptr p = Some q → ∃ c, joining p = Some (c, q).
Proof. destruct p; try done. destruct p; try done. cbn. intros [= <-]. by eexists. Qed.

Lemma unknown_ptr k g : ThrOk k g →
  n_mx (next_ptr k) g = 0 ∧ n_wait (next_ptr k) g = 0 ∧ n_exit (next_ptr k) g = 0 ∧ n_pass (next_ptr k) g = 0
  ∧ n_rel (next_ptr k) g = 0 ∧ n_got (next_ptr k) g = 0 ∧ n_join (next_ptr k) g = 0.
Proof.
  intros [_ _ _ _ _ T5 (H1&H2&H3) T7 _ _ _]. unfold n_mx, n_wait, n_exit, n_pass, n_rel, n_got, n_join.
  assert (E1 : gme g ≠ next_ptr k) by lia. assert (E2 : gpar g ≠ Some (next_ptr k)) by (intros E; specialize (H2 _ E); lia).
  assert (E3 : holds_mx (gpos g) ≠ Some (next_ptr k)) by (intros E; specialize (H3 _ E); lia).
  assert (E4 : exit_ptr (gpos g) ≠ Some (next_ptr k)) by (intros [?|?]%(exit_ptr_known g _ T5); congruence).
  assert (E5 : pass_ptr (gpos g) ≠ Some (next_ptr k)) by (intros ?%(pass_ptr_known g _ T5); congruence).
  assert (E6 : got_ptr (gpos g) ≠ Some (next_ptr k)) by (intros [c Hc]%got_ptr_joining; destruct (T7 _ _ Hc); lia).
  rewrite !bool_decide_false by done. rewrite !andb_false_r. done.
Qed.

Lemma PcbOk_new k G oN :
  (∀ t g, G !! t = Some g → ThrOk k g) → sems oN = (0, 0, 1, 1, 0) → PcbOk G (next_ptr k) oN.
Proof.
  intros HG [= E1 E2 E3 E4 E5].
  split; rewrite ?E1, ?E2, ?E3, ?E4, ?E5; rewrite ?cnt_zero; try done; intros t g Ht; apply (unknown_ptr k g (HG t g Ht)).
Qed.

Lemma seg_new k k2 G t g f a i p' :
  (∀ x, (uninit x).2 = 0) → Inv k G → G !! t = Some g → gpos g = After (X3 f a i) → i ≠ -1 →
  nxt (gcur g) (X3 f a i) k = Ok (k2, p') → Inv k2 (<[t := at_pos p' g]> G).
Proof.
  intros Hu HI Ht Ep Hi1 En. pose proof (in_thr _ _ HI t g Ht) as HT. destruct (in_bm _ _ HI) as [Hb0 Hb].
  apply Z.eqb_neq in Hi1 as Hi2. cbn in En. rewrite Hi2 in En. apply bind_Ok in En as ([]&_&En). apply bind_Ok in En as (l&El&[= <- <-]).
  assert (Hi : 0 < i < 10) by (apply (th_slot _ _ HT); rewrite Ep; cbn; by rewrite Hi2).
  assert (Hs : pcb k !! Z.to_nat i = Some None) by (apply (th_res _ _ HT); rewrite Ep; cbn; by rewrite Hi2).
  apply aset_Ok in El as [_ ->]. cbn. set (oN := created uninit (gcur g) a i (next_ptr k)). fold (with_new i oN k).
  pose proof (in_tab _ _ HI) as HTab. pose proof HI as [I1 I2 _ I4 I5 I9 _ I7 I8].
  split.
  - apply TabOk_new; [done|lia|done|done].
  - apply (SlotsOk_move k); [done|done|done|]. intros j. unfold occ. cbn. rewrite Ep. cbn. by rewrite Hi2.
  - cbn. split; [lia|]. rewrite (cnt_update _ _ _ g) by done. unfold n_bm at 2 3. cbn. rewrite Ep. cbn. lia.
  - intros q o' Ho'. cbn in Ho'. apply lookup_insert_Some in Ho' as [[<- <-]|[Hne Ho]].
    + assert (HN : PcbOk G (next_ptr k) oN) by (apply (PcbOk_new k); [done|]; unfold sems, oN, created; cbn; by rewrite Hu).
      apply (PcbOk_move _ _ g _ _ oN); [done|done|]. destruct HN as [P1 P2 P3 P4 P5]. mv Ep.
    + apply (PcbOk_move _ _ g _ _ o'); [done|by apply I4|]. destruct (I4 q o' Ho) as [P1 P2 P3 P4 P5]. mv Ep.
  - intros t' g' [[<- <-]|[Hne Ht']]%lookup_insert_Some; [|apply ThrOk_new; try done; [by apply (I5 t')|lia| |lia|]].
    + destruct HT as [T1 T2 TR T3 T4 T5 T6 T7 T8 T9 T10]. rewrite Ep in *. cbn in *. rewrite Hi2 in *.
      assert (HTn : ThrOk (with_new i oN k) (at_pos (J1 0) g)).
      { apply ThrOk_new; [done| |lia|done|done|lia|by left]. apply (ThrOk_at k g); rewrite ?Ep; cbn; try done. by apply (I5 t). }
      destruct HTn as [N1 N2 NR N3 N4 N5 N6 N7 N8 N9 N10]. split; cbn in *; try done.
      intros j q [= <- <-]. rewrite list_lookup_insert_eq by (rewrite (ta_len _ HTab); lia). split; [done|]. exists oN. rewrite lookup_insert_eq. split; [done|].
      unfold oN, created. cbn. by rewrite (proj2 (Z.eqb_neq i 0)) by lia.
    + intros Hr. apply Hne. symmetry. apply (slot_unique k G t' g' t g i HI Ht' Ht ltac:(lia)); apply slot_occ.
      * by apply reserved_slot.
      * rewrite Ep. cbn. by rewrite Hi2.
    + destruct (lost (gpos g')) as [x|] eqn:El; [right|by left]. unfold oN, created. cbn. rewrite (proj2 (Z.eqb_neq i 0)) by lia.
      intros E. apply Hne, (cur_unique k G t g t' g' HI Ht Ht'); [by rewrite Ep|by apply (lost_pcb _ x)|done].
  - intros q o' Ho'. cbn in Ho'. apply lookup_insert_Some in Ho' as [[<- <-]|[Hne Ho]]; [|apply (owner_move k); rewrite ?Ep; done].
    exists t, (at_pos (X4 f i (next_ptr k)) g). rewrite lookup_insert_eq. split; [done|]. by right.
  - by apply (main_move k).
  - intros t' g' r o' Ht' Hg' Hr Ho'. assert (Hrel : cnt (n_rel r) G ≤ cnt (n_rel r) (<[t:=at_pos (X4 f i (next_ptr k)) g]> G)) by (apply n_rel_mono; [done|by rewrite Ep]).
    apply lookup_insert_Some in Ht' as [[<- <-]|[Hne Ht']]; [done|]. cbn in Ho'. rewrite lookup_insert_ne in Ho'.
    + specialize (I7 t' g' r o' Ht' Hg' Hr Ho'). lia.
    + destruct (th_ptr _ _ (I5 t' g' Ht')) as (_&Hp&_). specialize (Hp r Hr). lia.
  - intros t' g' j q [[<- <-]|[Hne Ht']]%lookup_insert_Some Hg'; [done|]. apply (child_move k G t g _ t' g' j q); rewrite ?Ep; done.
Qed.

(** ** The exit code *)

Definition coded q (e : Z) o k : KS := set_heap (<[q := set_exitcode e o]> (heap k)) k.

Lemma coded_heap k q (e : Z) o x ox :
  heap k !! q = Some o → heap k !! x = Some ox →
  ∃ ox', heap (coded q e o k) !! x = Some ox' ∧ parentID ox' = parentID ox ∧ pID ox' = pID ox ∧ sems ox' = sems ox ∧ (x ≠ q → ox' = ox).
Proof.
  intros Ho Hx. cbn. destruct (decide (x = q)) as [->|Hne].
  - rewrite Ho in Hx. injection Hx as <-. exists (set_exitcode e o). by rewrite lookup_insert_eq.
  - exists ox. by rewrite lookup_insert_ne.
Qed.

Lemma coded_heap' k q (e : Z) o x ox' :
  heap k !! q = Some o → heap (coded q e o k) !! x = Some ox' → ∃ ox, heap k !! x = Some ox ∧ pID ox' = pID ox ∧ sems ox' = sems ox ∧ parentID ox' = parentID ox.
Proof.
  intros Ho Hx. cbn in Hx. apply lookup_insert_Some in Hx as [[<- <-]|[Hne Hx]]; [by exists o|by exists ox'].
Qed.

Lemma ThrOk_coded k q (e : Z) o g :
  heap k !! q = Some o → ThrOk k g → (has_pcb (gpos g) = true → gme g = q → exiting (gpos g) = None) → ThrOk (coded q e o k) g.
Proof.
  intros Ho [T1 T2 TR T3 T4 T5 T6 T7 T8 T9 T10] Hne. split; try done.
  - intros Hp. destruct (T1 Hp) as (?&?&om&Hom&Hpp&He). split; [done|]. split; [done|].
    destruct (coded_heap k q e o _ _ Ho Hom) as (om'&Hom'&Hpp'&_&_&Hsame). exists om'. split; [done|]. split; [congruence|].
    intros e' E. rewrite Hsame; [by apply He|]. intros Hm. rewrite Hne in E by done. done.
  - intros i x E. destruct (T3 i x E) as (?&ox&Hox&Hpp). split; [done|].
    destruct (coded_heap k q e o _ _ Ho Hox) as (ox'&?&?&_). exists ox'. split; [done|]. congruence.
  - intros c x E. destruct (T7 c x E) as [? Hc]. split; [done|]. intros ox' Hx. destruct (coded_heap' k q e o x ox' Ho Hx) as (ox&?&->&_). by apply Hc.
  - intros c x E Hx y oy' Hc Hy Hoy'. destruct (coded_heap' k q e o y oy' Ho Hoy') as (oy&Hoy&_&_&Hpp). rewrite Hpp. apply (T8 c x E) with y; try done.
    intros z Hz. specialize (Hx z Hz). cbn in Hx. by apply lookup_insert_None in Hx as [? _].
  - intros r Hw. destruct (T10 r Hw) as [ox Hox]. destruct (coded_heap k q e o _ _ Ho Hox) as (ox'&?&_). by exists ox'.
Qed.

Lemma seg_code k k2 G t g e p' :
  Inv k G → G !! t = Some g → gpos g = After (Q2 e) → nxt (gcur g) (Q2 e) k = Ok (k2, p') →
  Inv k2 (<[t := at_pos p' g]> G).
Proof.
  intros HI Ht Ep En. pose proof (in_thr _ _ HI t g Ht) as HT. destruct (in_bm _ _ HI) as [Hb0 Hb].
  destruct (th_own _ _ HT ltac:(by rewrite Ep)) as (Hc&Hs&o&Ho&Hpp&_). pose proof (own_slot k g HT ltac:(by rewrite Ep)) as Ea.
  cbn in En. unfold the_pcb in En. cbn in En. rewrite Ea in En. cbn in En. rewrite Ho in En. cbn in En. injection En as <- <-. fold (coded (gme g) e o k).
  rewrite Hpp. apply (Inv_move k); rewrite ?Ep; try done.
  - pose proof (in_tab _ _ HI) as [T1 T2 T3 T4]. split; try done.
    + intros x ox' Hx. destruct (coded_heap' k _ e o x ox' Ho Hx) as (ox&Hox&->&_). by apply T3.
    + intros i x Hx. destruct (T4 i x Hx) as (ox&Hox&Hid). destruct (coded_heap k _ e o x ox Ho Hox) as (ox'&?&_&?&_). exists ox'. split; [done|]. congruence.
  - intros x ox' Hx. destruct (coded_heap' k _ e o x ox' Ho Hx) as (ox&?&?&_&_). by exists ox.
  - apply (SlotsOk_move k); try done; [apply HI|]. intros i. unfold occ. cbn. by rewrite Ep.
  - intros x ox ox' Hx Hx' HP. apply (PcbMove_quiet _ _ _ _ _ G); try done; [by rewrite Ep|]. destruct (coded_heap k _ e o x ox Ho Hx) as (ox2&Hx2&_&_&Hs2&_). congruence.
  - intros t' g' Hne Ht'. apply ThrOk_coded; [done|by apply (in_thr _ _ HI t')|]. intros Hp' Hm. exfalso. apply Hne. apply (me_unique k G t' g' t g HI); try done. by rewrite Ep.
  - assert (HTc : ThrOk (coded (gme g) e o k) (at_pos (User 0) g)) by (apply ThrOk_coded; [done|at_ok HT Ep|done]).
    destruct HTc as [N1 N2 NR N3 N4 N5 N6 N7 N8 N9 N10]. split; try done. intros _. destruct (N1 eq_refl) as (?&?&oc&Hoc&Hpc&_).
    split; [done|]. split; [done|]. exists oc. split; [done|]. split; [done|]. intros e' [= <-]. cbn in Hoc. rewrite lookup_insert_eq in Hoc. by injection Hoc as <-.
Qed.

(** ** The new thread *)

Definition child_of g (i : Z) q (sp : AddrSpace) (file : list Z) : Info := mkInfo i (Starting sp file) q (gcur g) (Some (gme g)).

Lemma child_counts g i q file sp :
  gpos g = X11 i q file sp →
  let S f := f (child_of g i q sp file) + f (at_pos (After (X11 i q file sp)) g) in
  (∀ j, S (occ j) = occ j g) ∧ S n_bm = n_bm g ∧
  ∀ r, S (n_mx r) = n_mx r g ∧ S (n_wait r) = n_wait r g ∧ S (n_exit r) = n_exit r g ∧ S (n_pass r) = n_pass r g
       ∧ S (n_rel r) = n_rel r g ∧ S (n_got r) = n_got r g ∧ S (n_join r) = n_join r g.
Proof.
  intros Ep S. subst S. cbv beta. split; [|split].
  - intros j. unfold occ. cbn. rewrite Ep. cbn. destruct (Z.eqb_spec i j); repeat case_bool_decide; simplify_eq; cbn; lia.
  - unfold n_bm. cbn. by rewrite Ep.
  - intros r. unfold n_mx, n_wait, n_exit, n_pass, n_rel, n_got, n_join. cbn. rewrite Ep. cbn. repeat split; try lia.
    rewrite (bool_decide_ext (Some (gme g) = Some r) (gme g = r)) by (split; congruence). lia.
Qed.

Lemma cnt_fork f G t g t2 c p' : G !! t = Some g → G !! t2 = None → f c + f (at_pos p' g) = f g → cnt f (<[t2 := c]> (<[t := at_pos p' g]> G)) = cnt f G.
Proof. intros Ht Ht2 Hf. rewrite cnt_new by (rewrite lookup_insert_ne; [done|congruence]). rewrite (cnt_update _ _ _ g) by done. lia. Qed.

Lemma ThrOk_child k G t g i q file sp : Inv k G → G !! t = Some g → gpos g = X11 i q file sp → ThrOk k (child_of g i q sp file).
Proof.
  intros HI Ht Ep. pose proof (in_thr _ _ HI t g Ht) as [T1 T2 TR T3 T4 T5 T6 T7 T8 T9 T10]. rewrite Ep in *. cbn in *.
  destruct (T1 eq_refl) as (Hc&Hs&o&Ho&_), (T3 i q eq_refl) as (Hsq&oq&Hoq&Hpp). specialize (T2 i eq_refl).
  split; cbn; try done.
  - intros _. split; [lia|]. split; [done|]. by exists oq.
  - intros _. right. split; [lia|]. split; [lia|]. by exists (gme g).
  - split; [by apply (live_ptr k q oq (in_tab _ _ HI))|]. split; [|done]. intros r [= <-]. exact (proj1 T6).
  - intros r E Hr. rewrite E in Hs. change (Z.to_nat 0) with 0%nat in Hs. congruence.
Qed.

Lemma effect_fork k G t t2 g i q file sp :
  Inv k G → G !! t = Some g → G !! t2 = None → gpos g = X11 i q file sp →
  Inv k (<[t2 := child_of g i q sp file]> (<[t := at_pos (After (X11 i q file sp)) g]> G)).
Proof.
  intros HI Ht Ht2 Ep. pose proof (in_thr _ _ HI t g Ht) as HT. assert (Hne2 : t2 ≠ t) by congruence.
  destruct (child_counts g i q file sp Ep) as (C1&C2&C3).
  assert (Hfresh : ∀ t' g', <[t := at_pos (After (X11 i q file sp)) g]> G !! t' = Some g' → t' ≠ t2) by (intros t' g' E ->; rewrite lookup_insert_ne in E by done; congruence).
  split.
  - apply HI.
  - destruct (in_slots _ _ HI) as (M&HM&Hc). exists M. split; [done|]. intros j Hj. rewrite (cnt_fork _ _ _ g) by done. by apply Hc.
  - rewrite (cnt_fork _ _ _ g) by done. apply HI.
  - intros r o Ho. destruct (C3 r) as (D1&D2&D3&D4&D5&D6&D7). destruct (in_pcb _ _ HI r o Ho) as [P1 P2 P3 P4 P5]. split; rewrite ?(cnt_fork _ _ _ g) by done; done.
  - intros t' g' [[<- <-]|[_ [[<- <-]|[_ Ht']]%lookup_insert_Some]]%lookup_insert_Some; [by apply (ThrOk_child k G t)| |by apply (in_thr _ _ HI t')].
    rewrite <- Ep. apply (ThrOk_after k g (Fork i sp file) (in_tab _ _ HI) HT); [by rewrite Ep|done].
  - intros x o Hx. destruct (in_owner _ _ HI x o Hx) as (t'&g'&Ht'&Hown). destruct (decide (t' = t)) as [->|Hne].
    + rewrite Ht in Ht'. injection Ht' as <-. rewrite Ep in Hown. cbn in Hown. destruct Hown as [[_ Hm]|[= Hi Hq]].
      * exists t, (at_pos (After (X11 i q file sp)) g). rewrite lookup_insert_ne, lookup_insert_eq by done. split; [done|]. by left.
      * exists t2, (child_of g i q sp file). rewrite lookup_insert_eq. split; [done|]. by left.
    + exists t', g'. rewrite !lookup_insert_ne by congruence. done.
  - destruct (main_move k G t g (After (X11 i q file sp)) HI Ht) as (tm&gm&Hm&Hm0). exists tm, gm. rewrite lookup_insert_ne; [done|]. by apply not_eq_sym, (Hfresh tm gm).
  - intros t' g' r o Ht' Hg' Hr Ho. destruct (C3 r) as (_&_&_&_&D5&_). rewrite (cnt_fork _ _ _ g) by done.
    apply lookup_insert_Some in Ht' as [[<- <-]|[_ [[<- <-]|[_ Ht']]%lookup_insert_Some]]; [done|done|]. by apply (in_go _ _ HI t' g' r o).
  - intros t' g' j x [[<- <-]|[_ [[<- <-]|[_ Ht']]%lookup_insert_Some]]%lookup_insert_Some Hg'; [done| |].
    + cbn in Hg'. injection Hg' as <- <-. exists t2, (child_of g i q sp file). by rewrite lookup_insert_eq.
    + destruct (child_move k G t g (After (X11 i q file sp)) t' g' j x HI Ht ltac:(by rewrite Ep) Ht' Hg') as (t3&g3&Ht3&?). exists t3, g3.
      rewrite lookup_insert_ne; [done|]. by apply not_eq_sym, (Hfresh t3 g3).
Qed.

(** ** Removal *)

Definition without (i : Z) q (b : Bitmap.Bitmap) k : KS :=
  mkKS (delete q (heap k)) (next_ptr k) (psize k) b (<[Z.to_nat i := None]> (pcb k)) (bmsem k) (addrLock k) (frames k).

(** Nobody waits for a process that has taken its shouldExit. *)
Lemma no_children k G t g e q : Inv k G → G !! t = Some g → gpos g = After (Q11 e q) → cnt (n_wait (gme g)) G = 0.
Proof.
  intros HI Ht Ep. pose proof (in_thr _ _ HI t g Ht) as HT. pose proof (th_pos _ _ HT) as Hf. rewrite Ep in Hf. destruct Hf as (->&_).
  destruct (th_own _ _ HT ltac:(by rewrite Ep)) as (_&_&o&Ho&_). destruct (in_pcb _ _ HI _ _ Ho) as [_ P2 [P3 P3'] _ _].
  pose proof (cnt_ge (n_exit (gme g)) G t g (n_exit_nonneg _) Ht) as Hge. unfold n_exit at 1 in Hge. rewrite Ep in Hge. cbn in Hge.
  rewrite bool_decide_true in Hge by done. rewrite <- P2. destruct (Z.eqb_spec (numwait o) 0); [done|]. cbn in *. lia.
Qed.

Lemma awaited_counts G t g q : G !! t = Some g → awaited (gpos g) = true → gpar g = Some q → 1 ≤ cnt (n_wait q) G.
Proof.
  intros Ht Ha Hp. pose proof (cnt_ge (n_wait q) G t g (n_wait_nonneg q) Ht) as Hge. revert Hge. unfold n_wait at 1. rewrite Ha, (bool_decide_true (gpar g = _)) by done.
  cbn [andb Z.b2z]. pose proof (b2z_nonneg (creating (gpos g) && bool_decide (gme g = q))). lia.
Qed.

Lemma lost_joining p (c : Z) q : lost p = Some (c, Some q) → joining p = Some (c, q).
Proof. induction p; try done; cbn; congruence. Qed.

Lemma ThrOk_without k G t g t' g' b :
  Inv k G → G !! t = Some g → has_pcb (gpos g) = true → cnt (n_wait (gme g)) G = 0 → G !! t' = Some g' → t' ≠ t → gcur g ≠ 0 → waking (gpos g') ≠ Some (gme g) →
  ThrOk (without (gcur g) (gme g) b k) g'.
Proof.
  intros HI Ht Hp Hw Ht' Hne Hc0 Hwk. destruct (th_own _ _ (in_thr _ _ HI t g Ht) Hp) as (Hc&Hs&_). pose proof (in_tab _ _ HI) as HTab.
  pose proof (in_thr _ _ HI t' g' Ht') as [T1 T2 TR T3 T4 T5 T6 T7 T8 T9 T10].
  assert (Hkeep : ∀ i x, 0 ≤ i → i ≠ gcur g → pcb k !! Z.to_nat i = Some x → <[Z.to_nat (gcur g) := None]> (pcb k) !! Z.to_nat i = Some x).
  { intros i x Hi Hic Hx. rewrite list_lookup_insert_ne; [done|lia]. }
  split; try done.
  - intros Hp'. destruct (T1 Hp') as (?&?&o&Ho&?). split; [done|]. split; [apply Hkeep; [lia| |done]; intros E; by apply Hne, (cur_unique k G t' g' t g HI)|].
    exists o. split; [|done]. cbn. rewrite lookup_delete_ne; [done|]. intros E. by apply Hne, (me_unique k G t' g' t g HI).
  - intros i Hi. cbn. destruct (decide (Z.to_nat i = Z.to_nat (gcur g))) as [->|Hd]; [apply list_lookup_insert_eq; rewrite (ta_len _ HTab); lia|].
    rewrite list_lookup_insert_ne by done. by apply TR.
  - intros i q Hi. destruct (T3 i q Hi) as (Hiq&o&Ho&Hpo). specialize (T2 i (embryo_slot _ _ _ Hi)). assert (Hic : i ≠ gcur g).
    { intros E. apply Hne. apply (slot_unique k G t' g' t g (gcur g) HI Ht' Ht Hc); [|by apply own_occ]. apply slot_occ. rewrite <- E. by apply (embryo_slot _ i q). }
    split; [apply Hkeep; try done; lia|]. exists o. split; [|done]. cbn. rewrite lookup_delete_ne; [done|]. intros E. apply Hic. subst q. apply (slot_inj k _ _ (gme g) HTab); try done; lia.
  - intros Ha. destruct (T4 Ha) as [?|(?&?&r&Hr&Hpr)]; [by left|right]. split; [done|]. split; [done|]. exists r. split; [done|]. apply Hkeep; [lia| |done].
    intros E. rewrite E, Hs in Hpr. injection Hpr as <-. pose proof (awaited_counts G t' g' (gme g) Ht' Ha Hr). lia.
  - intros c x Hx. destruct (T7 c x Hx) as [? Hc']. split; [done|]. intros o Ho. cbn in Ho. apply lookup_delete_Some in Ho as [_ Ho]. by apply Hc'.
  - intros c x Hl Hx y o Hc' Hy Ho. cbn in Hy, Ho. apply lookup_delete_Some in Ho as [Hne' Ho]. destruct (decide (Z.to_nat c = Z.to_nat (gcur g))) as [Hd|Hd].
    { rewrite Hd, list_lookup_insert_eq in Hy by (rewrite (ta_len _ HTab); lia). done. }
    rewrite list_lookup_insert_ne in Hy by done. apply (T8 c x Hl) with y; try done. intros z Hz. specialize (Hx z Hz). cbn in Hx. destruct (heap k !! z) as [oz|] eqn:Ez; [|done].
    exfalso. assert (z = gme g) as -> by (destruct (decide (gme g = z)); [done|]; rewrite lookup_delete_ne in Hx by done; congruence).
    subst x. apply lost_joining in Hl. destruct (T7 c _ Hl) as [_ Hid]. specialize (Hid oz Ez). destruct (ta_heap _ HTab _ _ Ez) as (_&_&Hz). rewrite Hid in Hz.
    apply Hd. rewrite (slot_inj k c (gcur g) (gme g) HTab); try done; lia.
  - intros r Hpp H0. cbn in H0. rewrite list_lookup_insert_ne in H0 by lia. by apply T9.
  - intros r Hr. destruct (T10 r Hr) as [o Ho]. exists o. cbn. rewrite lookup_delete_ne; [done|]. congruence.
Qed.

Lemma TabOk_without k (i : Z) q b : TabOk k → 0 ≤ i < 10 → pcb k !! Z.to_nat i = Some (Some q) → TabOk (without i q b k).
Proof.
  intros HT Hi Hs. pose proof HT as [T1 T2 T3 T4]. split; cbn; try done; [by rewrite length_insert| |].
  - intros x o [Hne Ho]%lookup_delete_Some. destruct (T3 x o Ho) as (?&?&Hx). split; [done|]. split; [done|]. rewrite list_lookup_insert_ne; [done|]. intros E. rewrite <- E, Hs in Hx. congruence.
  - intros j x Hj. destruct (decide (j = Z.to_nat i)) as [->|Hd]; [rewrite list_lookup_insert_eq in Hj by (rewrite T2; lia); done|].
    rewrite list_lookup_insert_ne in Hj by done. destruct (T4 j x Hj) as (o&Ho&Hid). exists o. split; [|done]. rewrite lookup_delete_ne; [done|].
    intros <-. apply Hd. pose proof (slot_inj k i (Z.of_nat j) q HT ltac:(lia) ltac:(lia) Hs ltac:(by rewrite Nat2Z.id)). lia.
Qed.

Lemma released_pcb p : released p = true → has_pcb p = true.
Proof. induction p; try done. destruct p; done. Qed.

Lemma born_alive p x : born p = Some x → has_pcb p = true ∧ released p = false.
Proof. destruct p; try done. destruct p; done. Qed.

(** A thread that is about to return a new process is not exiting, so it has let
    no child go. *)
Lemma not_let_go k G t g t' g' i q :
  Inv k G → G !! t = Some g → let_go (gpos g) = true → G !! t' = Some g' → born (gpos g') = Some (i, q) → gpar g ≠ Some (gme g').
Proof.
  intros HI Ht Hl Ht' Hb Hpar. destruct (born_alive _ _ Hb) as [Hp' Hnr]. destruct (th_own _ _ (in_thr _ _ HI t' g' Ht') Hp') as (_&_&o&Ho&_).
  pose proof (in_go _ _ HI t g _ o Ht Hl Hpar Ho) as Hr. destruct (cnt_pos (n_rel (gme g')) G ltac:(lia)) as (t2&g2&Ht2&Hn). unfold n_rel in Hn.
  destruct (released (gpos g2)) eqn:Er; [|done]. cbn in Hn. case_bool_decide as Hm; [|done].
  assert (t2 = t') by (apply (me_unique k G t2 g2 t' g' HI); try done; by apply released_pcb). subst t2. rewrite Ht' in Ht2. injection Ht2 as <-. congruence.
Qed.

(** No child is about to release the shouldExit of a process that has taken it. *)
Lemma not_waking k G t g t' g' e q :
  Inv k G → G !! t = Some g → gpos g = After (Q11 e q) → G !! t' = Some g' → t ≠ t' → waking (gpos g') ≠ Some (gme g).
Proof.
  intros HI Ht Ep Ht' Hne Hw. pose proof (in_thr _ _ HI t g Ht) as HT. pose proof (th_pos _ _ HT) as Hf. rewrite Ep in Hf. destruct Hf as (->&_).
  destruct (th_own _ _ HT ltac:(by rewrite Ep)) as (_&_&o&Ho&_). destruct (po_exit _ _ _ (in_pcb _ _ HI _ _ Ho)) as [P3 P3'].
  pose proof (cnt_ge2 (n_exit (gme g)) G t g t' g' (n_exit_nonneg _) Ht Ht' Hne) as Hge. destruct (gpos g') eqn:Ep'; try done. cbn in Hw. injection Hw as ->. revert Hge.
  unfold n_exit at 1 2. rewrite Ep, Ep'. cbn. rewrite !bool_decide_true by done. cbn. pose proof (b2z_nonneg (negb (numwait o =? 0))). lia.
Qed.

Lemma seg_remove k k2 G t g e q p' :
  Inv k G → G !! t = Some g → gpos g = After (Q11 e q) → nxt (gcur g) (Q11 e q) k = Ok (k2, p') →
  Inv k2 (<[t := at_pos p' g]> G).
Proof.
  intros HI Ht Ep En. pose proof (in_thr _ _ HI t g Ht) as HT. destruct (in_bm _ _ HI) as [Hb0 Hb].
  pose proof (no_children k G t g e q HI Ht Ep) as Hw. pose proof (th_pos _ _ HT) as Hf. rewrite Ep in Hf. destruct Hf as (->&Hc0&_).
  destruct (th_own _ _ HT ltac:(by rewrite Ep)) as (Hc&Hs&o&Ho&_). pose proof (own_slot k g HT ltac:(by rewrite Ep)) as Ea.
  destruct (in_slots _ _ HI) as (M&HM&HMc). destruct (BitmapSpec.Clear_spec (bm k) 10 M (gcur g) HM Hc) as (b&Eb&HM').
  cbn in En. rewrite Eb in En. cbn in En. unfold the_pcb in En. cbn in En. rewrite Ea in En. cbn in En. rewrite Ho in En. cbn in En.
  apply bind_Ok in En as (l&El&[= <- <-]). apply aset_Ok in El as [_ ->]. fold (without (gcur g) (gme g) b k).
  split.
  - by apply TabOk_without; [apply HI|..].
  - exists (M ∖ {[gcur g]}). split; [done|]. intros j Hj. rewrite (cnt_update _ _ _ g), HMc by done. unfold occ. cbn [gpos gcur at_pos]. rewrite Ep. cbn [has_pcb slot_of andb].
    rewrite !(bool_decide_false (None = Some j)) by done. cbn [Z.b2z]. destruct (Z.eqb_spec (gcur g) j) as [<-|Hne].
    + rewrite (bool_decide_false (_ ∈ _ ∖ _)) by set_solver. rewrite bool_decide_true; [cbn; lia|]. apply (occ_marked k G M (gcur g) t g); try done. apply own_occ. by rewrite Ep.
    + rewrite (bool_decide_ext (j ∈ M ∖ {[gcur g]}) (j ∈ M)) by set_solver. cbn. lia.
  - cbn. split; [lia|]. rewrite (cnt_update _ _ _ g) by done. unfold n_bm at 2 3. cbn. rewrite Ep. cbn. lia.
  - intros x ox Hx. cbn in Hx. apply lookup_delete_Some in Hx as [Hne Hx]. apply (PcbOk_move _ _ g _ _ ox); [done|by apply (in_pcb _ _ HI)|]. destruct (in_pcb _ _ HI x ox Hx) as [P1 P2 P3 P4 P5]. mv Ep.
  - intros t' g' [[<- <-]|[Hne Ht']]%lookup_insert_Some; [|apply (ThrOk_without k G t g t' g'); try done; [by rewrite Ep|by apply (not_waking k G t g t' g' e (gme g))]].
    destruct HT as [T1 T2 TR T3 T4 T5 T6 T7 T8 T9 T10]. split; cbn; try done; [by destruct T6 as (?&?&_)|]. intros r Hpp H0. rewrite list_lookup_insert_ne in H0 by lia. by apply T9.
  - intros x ox Hx. cbn in Hx. apply lookup_delete_Some in Hx as [Hne Hx]. destruct (in_owner _ _ HI x ox Hx) as (t'&g'&Ht'&Hown). exists t', g'. rewrite lookup_insert_ne; [done|].
    intros <-. rewrite Ht in Ht'. injection Ht' as <-. rewrite Ep in Hown. cbn in Hown. destruct Hown as [[_ ?]|?]; congruence.
  - by apply (main_move k).
  - intros t' g' r o' Ht' Hg' Hr Ho'. cbn in Ho'. apply lookup_delete_Some in Ho' as [Hne Ho']. rewrite (cnt_update _ _ _ g) by done. unfold n_rel at 2 3. cbn. rewrite Ep. cbn. rewrite bool_decide_false by done. cbn.
    apply lookup_insert_Some in Ht' as [[<- <-]|[_ Ht']]; [done|]. pose proof (in_go _ _ HI t' g' r o' Ht' Hg' Hr Ho'). lia.
  - intros t' g' j x [[<- <-]|[Hne Ht']]%lookup_insert_Some Hg'; [done|]. destruct (in_child _ _ HI t' g' j x Ht' Hg') as (t2&g2&Ht2&Hp2&Hm2&Hc2&Hpp2&Hpar2). exists t2, g2.
    rewrite lookup_insert_ne; [done|]. intros <-. rewrite Ht in Ht2. injection Ht2 as <-. apply (not_let_go k G t g t' g' j x HI); try done. by rewrite Ep.
Qed.

(** ** All moves *)

Lemma effect_ok k k1 G t g (c : op) :
  Inv k G → G !! t = Some g → op_of (gpos g) = Some c → c ≠ Resume → (∀ i sp file, c ≠ Fork i sp file) → do_op c k = Ok (Some k1) →
  Inv k1 (<[t := at_pos (After (gpos g)) g]> G).
Proof.
  intros HI Ht Eo Hc Hf E. destruct c as [[]|[]|i sp file|]; try done;
    first [by eapply effect_bm; eauto|by eapply effect_lock; eauto|by eapply effect_P|by eapply effect_V|by destruct (Hf i sp file)].
Qed.

Lemma seg_ok k k2 G t g p' :
  (∀ x, (uninit x).2 = 0) → Inv k G → G !! t = Some g → op_of (gpos g) = Some Resume → nxt (gcur g) (gpos g) k = Ok (k2, p') →
  Inv k2 (<[t := at_pos p' g]> G).
Proof.
  intros Hu HI Ht Eo En. pose proof (th_pos _ _ (in_thr _ _ HI t g Ht)) as Hf. destruct (gpos g) as [|sp file| | | | | | | | | | | | | | | | | | | | | | | | | | | | | | | | |p] eqn:Ep; try done.
  - by eapply seg_start.
  - cbn [ProcessInv.nxt] in En. destruct p; try done;
      first [by eapply seg_exec|by eapply seg_join|by eapply seg_exit|by eapply seg_count|by eapply seg_slot|by eapply seg_code|by eapply seg_remove|idtac].
    destruct (decide (i = -1)) as [->|]; [by eapply seg_exec|by eapply seg_new].
Qed.
End STEP.

(** ** The end of a thread *)

Lemma Inv_delete k G t g w : Inv k G → G !! t = Some g → gpos g = Finished → Inv (set_frames w k) (delete t G).
Proof.
  intros HI Ht Ep. assert (HS : sameK k (set_frames w k)) by done.
  assert (Hz : (∀ j, occ j g = 0) ∧ n_bm g = 0 ∧ ∀ r, n_mx r g = 0 ∧ n_wait r g = 0 ∧ n_exit r g = 0 ∧ n_pass r g = 0 ∧ n_rel r g = 0 ∧ n_got r g = 0 ∧ n_join r g = 0).
  { unfold occ, n_bm, n_mx, n_wait, n_exit, n_pass, n_rel, n_got, n_join. rewrite Ep. cbn. repeat split; intros; rewrite ?bool_decide_false by done; done. }
  destruct Hz as (Z1&Z2&Z3). split.
  - apply (TabOk_same k); [done|apply HI].
  - destruct (in_slots _ _ HI) as (M&HM&Hc). exists M. split; [done|]. intros j Hj. rewrite (cnt_delete _ _ _ g), Z1, Hc by done. lia.
  - rewrite (cnt_delete _ _ _ g), Z2, Z.sub_0_r by done. apply HI.
  - intros q o Ho. destruct (Z3 q) as (C1&C2&C3&C4&C5&C6&C7). destruct (in_pcb _ _ HI q o Ho) as [P1 P2 P3 P4 P5]. split; rewrite ?(cnt_delete _ _ _ g) by done; lia.
  - intros t' g' [_ Ht']%lookup_delete_Some. apply (ThrOk_same k); [done|]. by apply (in_thr _ _ HI t').
  - intros q o Ho. destruct (in_owner _ _ HI q o Ho) as (t'&g'&Ht'&Hown). exists t', g'. rewrite lookup_delete_ne; [done|]. intros <-. rewrite Ht in Ht'. injection Ht' as <-. rewrite Ep in Hown. naive_solver.
  - destruct (in_main _ _ HI) as (t'&g'&Ht'&Hc). exists t', g'. rewrite lookup_delete_ne; [done|]. intros <-. rewrite Ht in Ht'. injection Ht' as <-.
    pose proof (th_pos _ _ (in_thr _ _ HI t g Ht)) as Hf. by rewrite Ep in Hf.
  - intros t' g' r o [_ Ht']%lookup_delete_Some Hl Hr Ho. destruct (Z3 r) as (_&_&_&_&C5&_). rewrite (cnt_delete _ _ _ g), C5 by done. pose proof (in_go _ _ HI t' g' r o Ht' Hl Hr Ho). lia.
  - intros t' g' i q [_ Ht']%lookup_delete_Some Hb. destruct (in_child _ _ HI t' g' i q Ht' Hb) as (t2&g2&Ht2&Hp2&Hr2). exists t2, g2. rewrite lookup_delete_ne; [done|].
    intros <-. rewrite Ht in Ht2. injection Ht2 as <-. by rewrite Ep in Hp2.
Qed.
End ProcessStep.
