(* ===== verification/ProcessThms.v ===== *)
(** What holds of the processes of Process.v in every state the system can
    reach: the process table is consistent, the ways in which a call can fail,
    what Exec and Join return, and which processes stay in the table. *)

From S2P Require Import Prelude BitmapLib Machine AddrSpace Process ProcessInv ProcessStep.

Module ProcessThms.
Import AddrSpace Process ProcessInv ProcessStep.
Implicit Types (g : Info) (G : gmap nat Info) (k : KS) (o : PCB) (q r : ptr) (p : pos) (th : Thread).

Lemma lookup_insert_Some_empty {A} (i j : nat) (x y : A) : <[i := x]> (∅ : gmap nat A) !! j = Some y → i = j ∧ x = y.
Proof. intros [?|[_ ?]]%lookup_insert_Some; [done|done]. Qed.

(** ** Runs *)

(** A step of thread [t] of process [id]; the latest step is the first. *)
Abbreviation event := (nat * Z * action)%type.
Implicit Types (tr : list event) (s : Sys).

(** The call that a thread has made last. *)
Fixpoint last_call (t : nat) tr : option call :=
  match tr with
  | [] => None
  | (t', _, Call c) :: tr => if decide (t' = t) then Some c else last_call t tr
  | _ :: tr => last_call t tr
  end.

(** The file that a call executes. *)
Definition exec_name (lc : option call) : option (list Z) :=
  match lc with Some (CExec f) => Some f | Some (CExecV _ argv) => Some (default [] (head argv)) | _ => None end.

Section RUN.
Variable uninit : ptr → Z * Z.
Variable executable : list Z → option (list Z).
Variable garbage : list Z.
Variable garbage_addr : Z.

#[local] Abbreviation step := (step uninit executable garbage garbage_addr).
#[local] Abbreviation nxt := (nxt uninit executable garbage garbage_addr).
#[local] Abbreviation code := (code uninit executable garbage garbage_addr).

Inductive Run (s : Sys) : list event → Sys → Prop :=
| run_nil : Run s [] s
| run_step tr s1 t th a s2 : Run s tr s1 → threads s1 !! t = Some th → step t a s1 = Some (Ok s2) → Run s ((t, pid th, a) :: tr) s2.

(** The system with its first process.  The table starts with NULL pointers,
    which the constructor does not see to. *)
Definition start (name : list Z) (args : list (list Z)) (w : Frames) : res Sys :=
  k ← new_PTable (replicate 10 None) w; StartMainThread uninit executable garbage garbage_addr name args k.

Definition Boot (name : list Z) (args : list (list Z)) (w : Frames) s : Prop := start name args w = Ok s ∧ threads s ≠ ∅.

(** ** Positions and calls *)

Definition ended (lc : option call) : Prop := match lc with None | Some (CExit _) => True | _ => False end.

(** [E e]: the process has called Exit(e). *)
Fixpoint called (E : Z → Prop) (lc : option call) p : Prop :=
  match p with
  | User _ => True
  | Starting _ _ | Finished => ended lc
  | Halted => ∃ e, E e
  | X1 f a | X2 f a _ | X3 f a _ =>
    exec_name lc = Some f ∧ match a with None => True | Some (argc, argv) => lc = Some (CExecV argc argv) end
  | X4 f _ _ | X5 f _ _ _ | X6 f _ _ _ | X7 f _ _ _ | X8 f _ _ | X10 f _ _ _ _ => exec_name lc = Some f
  | X9 f _ _ file => exec_name lc = Some f ∧ executable f = Some file
  | XFull | X11 _ _ _ _ | X12 _ _ => is_Some (exec_name lc)
  | J1 c | JNone c | J2 c | J3 c _ => lc = Some (CJoin c)
  | Q1 e | QNone e | Q2 e | Q3 e _ _ | Q4 e _ _ | Q5 e _ _ | Q6 e _ _ | Q7 e _ _ | Q8 e _ _ | Q9 e _ _ | Q10 e _ | Q11 e _ | Q12 e =>
    lc = Some (CExit e) ∧ E e
  | After p => called E lc p
  end.

Definition Called tr (t : nat) g : Prop := called (λ e, (t, gcur g, Call (CExit e)) ∈ tr) (last_call t tr) (gpos g).

Lemma called_mono (E E' : Z → Prop) lc p : (∀ e, E e → E' e) → called E lc p → called E' lc p.
Proof. intros HE. induction p; cbn; naive_solver. Qed.

Lemma called_first (E : Z → Prop) c : (∀ e, c = CExit e → E e) → called E (Some c) (first_pos c).
Proof. destruct c; cbn; auto. Qed.

Lemma called_next E lc cur p k k' p' : called E lc p → nxt cur p k = Ok (k', p') → called E lc p'.
Proof.
  revert p'. induction p; intros p' Hc En; cbn in En, Hc; unfold exec_file, exit_next in En;
    repeat first [apply bind_Ok in En as (?&?&En)|case_match; simplify_eq; try done]; simplify_eq; cbn; try done; try naive_solver.
Qed.

(** ** The invariant and the steps *)

Record Good s tr G : Prop := {
  gd_inv : Inv (ks s) G;
  gd_thr t th : threads s !! t = Some th →
    ∃ g, G !! t = Some g ∧ pid th = gcur g ∧ run th = code (gcur g) (gpos g) ∧ Called tr t g;
  gd_dom t : threads s !! t = None → G !! t = None ∧ ended (last_call t tr);
  gd_halt t g : G !! t = Some g → gpos g = Halted → halted s = true
}.

Lemma Good_thread s tr G t g : Good s tr G → G !! t = Some g → ∃ th, threads s !! t = Some th ∧ pid th = gcur g ∧ run th = code (gcur g) (gpos g) ∧ Called tr t g.
Proof.
  intros HG Ht. destruct (threads s !! t) as [th|] eqn:E; [|apply (gd_dom _ _ _ HG) in E as [? _]; congruence].
  destruct (gd_thr _ _ _ HG t th E) as (g'&Hg'&?). exists th. rewrite Ht in Hg'. by injection Hg' as <-.
Qed.

(** The code at a position: its operation, and what is behind it. *)
Lemma code_at g p (c : op) : pos_fact g p → op_of p = Some c →
  ∃ next, code (gcur g) p = Do c next ∧ code (gcur g) (After p) = Do Resume next ∧ ∀ k, next k = rest uninit executable garbage garbage_addr (gcur g) (nxt (gcur g) p k).
Proof.
  intros Hf Eo. assert (∃ next, code (gcur g) p = Do c next) as [next E].
  { destruct p; cbn in Eo; try done; injection Eo as <-; try (by eexists). destruct p; try done; by eexists. }
  exists next. split; [done|]. cbn [ProcessInv.code]. rewrite E. split; [done|]. intros k. by rewrite <- code_next, E.
Qed.

Lemma code_idle g p : pos_fact g p → op_of p = None →
  (∃ v, p = User v ∧ code (gcur g) p = Return v) ∨ (p = Finished ∧ code (gcur g) p = Finish) ∨ (p = Halted ∧ code (gcur g) p = Halt).
Proof. intros Hf Eo. destruct p; try done; [left; by eexists|right; by left|right; by right]. Qed.

(** What a step can be. *)
Lemma step_cases s tr G t th g a res :
  Good s tr G → threads s !! t = Some th → G !! t = Some g → step t a s = Some res →
  halted s = false ∧
  ((∃ c v, a = Call c ∧ gpos g = User v ∧ res = resume t th (threads s) (syscall uninit executable garbage (gcur g) c (ks s)))
   ∨ (∃ c next, a = Go ∧ op_of (gpos g) = Some c ∧ c ≠ Resume ∧ code (gcur g) (After (gpos g)) = Do Resume next ∧
        ((∃ e, do_op c (ks s) = Err e ∧ res = Err e)
         ∨ ∃ k, do_op c (ks s) = Ok (Some k) ∧
             res = Ok (mkSys k (<[t := mkThread (pid th) (space th) (Do Resume next)]> (forked garbage garbage_addr c (threads s))) false)))
   ∨ (a = Go ∧ op_of (gpos g) = Some Resume ∧ res = resume t th (threads s) (rest uninit executable garbage garbage_addr (gcur g) (nxt (gcur g) (gpos g) (ks s))))
   ∨ (a = Go ∧ gpos g = Finished ∧ res = (w ← delete_AddrSpace (space th) (frames (ks s)); Ok (mkSys (set_frames w (ks s)) (delete t (threads s)) false)))).
Proof.
  intros HG Ht Hg E. destruct (gd_thr _ _ _ HG t th Ht) as (g'&Hg'&Hpid&Hrun&_). rewrite Hg in Hg'. injection Hg' as <-.
  pose proof (th_pos _ _ (in_thr _ _ (gd_inv _ _ _ HG) t g Hg)) as Hf. unfold Process.step in E. destruct (halted s); [done|]. split; [done|]. rewrite Ht in E. cbn in E. rewrite Hrun in E.
  destruct (op_of (gpos g)) as [c|] eqn:Eo.
  - destruct (code_at g (gpos g) c Hf Eo) as (next&E1&E2&E3). rewrite E1 in E. destruct c; destruct a; try done; cbn [do_op] in E.
    + right; left. eexists _, next. do 4 (split; [done|]). cbn [do_op]. destruct (get_sem s0 (ks s)) as [v|e]; [|left; exists e; cbn in *; by simplify_eq].
      cbn in E |- *. destruct (v =? 0); [done|]. right. eexists. split; [done|]. by injection E as <-.
    + right; left. eexists _, next. do 4 (split; [done|]). cbn [do_op]. destruct (get_sem s0 (ks s)) as [v|e]; [|left; exists e; cbn in *; by simplify_eq].
      right. eexists. split; [done|]. by injection E as <-.
    + right; left. eexists _, next. do 4 (split; [done|]). right. eexists. split; [done|]. by injection E as <-.
    + do 2 right; left. do 2 (split; [done|]). injection E as <-. by rewrite E3.
  - destruct (code_idle g (gpos g) Hf Eo) as [(v&Ep&Ec)|[[Ep Ec]|[Ep Ec]]]; rewrite Ec in E; destruct a; try done; injection E as <-.
    + left. exists c, v. rewrite Hpid. done.
    + by do 3 right.
Qed.

Hypothesis uninit_zero : ∀ x, (uninit x).2 = 0.

Lemma Called_go tr t g t' i : Called tr t g → Called ((t', i, Go) :: tr) t g.
Proof. apply called_mono. intros e He. by right. Qed.

Lemma Called_other tr t g t' i a : t' ≠ t → Called tr t g → Called ((t', i, a) :: tr) t g.
Proof.
  intros Hne. unfold Called. destruct a; cbn [last_call]; rewrite ?decide_False by done; apply called_mono; intros e He; by right.
Qed.

Lemma last_call_other tr t t' i a : t' ≠ t → last_call t ((t', i, a) :: tr) = last_call t tr.
Proof. intros Hne. destruct a; [done|]. cbn. by rewrite decide_False. Qed.

(** A thread moves to another position. *)
Lemma Good_move s tr G t th g a k p' ev :
  Good s tr G → halted s = false → threads s !! t = Some th → G !! t = Some g → Inv k (<[t := at_pos p' g]> G) → ev = (t, pid th, a) →
  Called (ev :: tr) t (at_pos p' g) →
  Good (mkSys k (<[t := mkThread (pid th) (space th) (code (gcur g) p')]> (threads s)) (match code (gcur g) p' with Halt => true | _ => false end))
       (ev :: tr) (<[t := at_pos p' g]> G).
Proof.
  intros HG Eh Ht Hg HI -> Hc. destruct (gd_thr _ _ _ HG t th Ht) as (g'&Hg'&Hpid&_). rewrite Hg in Hg'. injection Hg' as <-.
  split.
  - done.
  - intros t' th'. cbn [threads]. intros [[<- <-]|[Hne Ht']]%lookup_insert_Some; [exists (at_pos p' g); rewrite lookup_insert_eq; done|].
    destruct (gd_thr _ _ _ HG t' th' Ht') as (g'&Hg'&?&?&?). exists g'. rewrite lookup_insert_ne by done. do 3 (split; [done|]). by apply Called_other.
  - intros t'. cbn [threads]. intros [Ht' Hne]%lookup_insert_None. rewrite lookup_insert_ne, last_call_other by done. by apply (gd_dom _ _ _ HG).
  - intros t' g' [[<- <-]|[Hne Ht']]%lookup_insert_Some Hh; cbn in *; [by subst p'|]. pose proof (gd_halt _ _ _ HG t' g' Ht' Hh). congruence.
Qed.

Lemma Good_fork s tr G t th g i q sp file next :
  Good s tr G → halted s = false → threads s !! t = Some th → G !! t = Some g → gpos g = X11 i q file sp → code (gcur g) (After (gpos g)) = Do Resume next →
  Good (mkSys (ks s) (<[t := mkThread (pid th) (space th) (Do Resume next)]> (forked garbage garbage_addr (Fork i sp file) (threads s))) false) ((t, pid th, Go) :: tr)
       (<[fresh (dom (threads s)) := child_of g i q sp file]> (<[t := at_pos (After (gpos g)) g]> G)).
Proof.
  intros HG Hh Ht Hg Ep En. destruct (gd_thr _ _ _ HG t th Ht) as (g'&Hg'&Hpid&Hrun&Hcall). rewrite Hg in Hg'. injection Hg' as <-. cbn [forked].
  set (t2 := fresh (dom (threads s))). assert (Ht2 : threads s !! t2 = None) by (apply not_elem_of_dom, is_fresh). assert (Hne : t ≠ t2) by congruence.
  destruct (gd_dom _ _ _ HG t2 Ht2) as [Hg2 Hend]. split; cbn [ks threads halted].
  - rewrite Ep. by apply effect_fork; [apply HG|..].
  - intros t' th' [[<- <-]|[Hne1 [[<- <-]|[Hne2 Ht']]%lookup_insert_Some]]%lookup_insert_Some.
    + exists (at_pos (After (gpos g)) g). rewrite lookup_insert_ne, lookup_insert_eq by done. do 2 (split; [done|]). split; [done|]. by apply Called_go.
    + exists (child_of g i q sp file). rewrite lookup_insert_eq. done.
    + destruct (gd_thr _ _ _ HG t' th' Ht') as (g'&Hg'&?&?&?). exists g'. rewrite !lookup_insert_ne by done. do 3 (split; [done|]). by apply Called_go.
  - intros t' [[Ht' Hn2]%lookup_insert_None Hn1]%lookup_insert_None. rewrite !lookup_insert_ne by done. by apply (gd_dom _ _ _ HG).
  - intros t' g' [[<- <-]|[Hne1 [[<- <-]|[Hne2 Ht']]%lookup_insert_Some]]%lookup_insert_Some Hp; [done|done|]. pose proof (gd_halt _ _ _ HG t' g' Ht' Hp). congruence.
Qed.

Lemma Good_end s tr G t th g w :
  Good s tr G → halted s = false → threads s !! t = Some th → G !! t = Some g → gpos g = Finished →
  Good (mkSys (set_frames w (ks s)) (delete t (threads s)) false) ((t, pid th, Go) :: tr) (delete t G).
Proof.
  intros HG Hh Ht Hg Ep. destruct (gd_thr _ _ _ HG t th Ht) as (g'&Hg'&_&_&Hcall). rewrite Hg in Hg'. injection Hg' as <-. split; cbn [ks threads halted].
  - by apply (Inv_delete (ks s) G t g); [apply HG|..].
  - intros t' th' [Hne Ht']%lookup_delete_Some. destruct (gd_thr _ _ _ HG t' th' Ht') as (g'&Hg'&?&?&?). exists g'. rewrite lookup_delete_ne by done. do 3 (split; [done|]). by apply Called_go.
  - intros t' Ht'. apply lookup_delete_None in Ht' as [<-|Ht']; [|cbn [last_call]; destruct (gd_dom _ _ _ HG t' Ht') as [Hg' ?]; split; [by rewrite lookup_delete_None; right|done]].
    rewrite lookup_delete_eq. split; [done|]. unfold Called in Hcall. rewrite Ep in Hcall. exact Hcall.
  - intros t' g' [Hne Ht']%lookup_delete_Some Hp. pose proof (gd_halt _ _ _ HG t' g' Ht' Hp). congruence.
Qed.

Lemma fork_or_not (c : op) : (∃ i sp file, c = Fork i sp file) ∨ ∀ i sp file, c ≠ Fork i sp file.
Proof. destruct c as [| |i sp file|]; [by right..|left; by exists i, sp, file|by right]. Qed.

Lemma Good_step s tr G t th a s' :
  Good s tr G → threads s !! t = Some th → step t a s = Some (Ok s') → ∃ G', Good s' ((t, pid th, a) :: tr) G'.
Proof.
  intros HG Ht E. destruct (gd_thr _ _ _ HG t th Ht) as (g&Hg&Hpid&Hrun&Hcall). destruct (step_cases s tr G t th g a (Ok s') HG Ht Hg E) as [Hh Hcases].
  destruct Hcases as [(c&v&->&Ep&Er)|[(c&next&->&Eo&Hnr&En&[(e&_&Er)|(k&Ed&Er)])|[(->&Eo&Er)|(->&Ep&Er)]]]; try done.
  - destruct (syscall_first uninit executable garbage garbage_addr (gcur g) c (ks s)) as [Es|(e&Es&_)]; rewrite Es in Er; [|done]. cbn in Er. injection Er as ->.
    eexists. eapply Good_move; try done.
    + by apply (call_ok (ks s) G t g v c); [apply HG|..].
    + unfold Called. cbn [last_call gpos at_pos gcur]. rewrite decide_True by done. apply called_first. intros e ->. rewrite Hpid. by left.
  - injection Er as ->. destruct (fork_or_not c) as [(i&sp&file&->)|Hf].
    + destruct (gpos g) eqn:Ep; try done. cbn in Eo. injection Eo as -> -> ->. cbn in Ed. injection Ed as <-. eexists. rewrite <- Ep in En. by eapply Good_fork.
    + assert (Hi : Inv k (<[t := at_pos (After (gpos g)) g]> G)) by (by eapply effect_ok; [apply HG|..]).
      pose proof (Good_move s tr G t th g Go k (After (gpos g)) _ HG Hh Ht Hg Hi eq_refl ltac:(by apply Called_go)) as H. rewrite En in H. eexists.
      replace (forked garbage garbage_addr c (threads s)) with (threads s); [exact H|]. destruct c as [| |i sp file|]; try done. by destruct (Hf i sp file).
  - unfold rest in Er. destruct (nxt (gcur g) (gpos g) (ks s)) as [[k2 p']|] eqn:Enx; [|done]. cbn in Er. injection Er as ->.
    eexists. eapply Good_move; try done; [by eapply seg_ok; [done|apply HG|..]|]. apply Called_go. unfold Called in *. cbn [gpos at_pos gcur]. by eapply called_next.
  - symmetry in Er. apply bind_Ok in Er as (w&_&[= <-]). eexists. by eapply Good_end.
Qed.

(** ** The start *)

Lemma Good_boot name args w s : Boot name args w s → ∃ G, Good s [] G.
Proof.
  intros [E Hne]. unfold start in E. apply bind_Ok in E as (k0&E0&E). unfold new_PTable in E0. destruct (BitmapSpec.new_Bitmap_spec MAX_PROCESS ltac:(unfold MAX_PROCESS; lia)) as (b&Eb&HM).
  rewrite Eb in E0. cbn in E0. injection E0 as <-. unfold StartMainThread in E. cbn [frames Process.pcb bm next_ptr heap psize bmsem addrLock] in E.
  apply bind_Ok in E as ([sp w1]&_&E). apply bind_Ok in E as (l&El&E). apply aset_Ok in El as [_ ->]. apply bind_Ok in E as (b1&Eb1&E).
  destruct (BitmapSpec.Mark_spec b MAX_PROCESS ∅ 0 HM ltac:(unfold MAX_PROCESS; lia)) as (b2&Eb2&HM2). rewrite Eb2 in Eb1. injection Eb1 as ->.
  apply bind_Ok in E as ([]&_&E). apply bind_Ok in E as ([[ok sp'] w2]&_&[= <-]). destruct ok; [|done]. clear Hne Eb Eb2.
  set (o0 := mkPCB _ _ _ _ _ _ _ _ _ _ _). exists {[0%nat := mkInfo 0 (User 0) 0%nat (-1) None]}.
  assert (Hz : numwait o0 = 0) by apply uninit_zero.
  assert (Hcnt : ∀ f, cnt f {[0%nat := mkInfo 0 (User 0) 0%nat (-1) None]} = f (mkInfo 0 (User 0) 0%nat (-1) None)).
  { intros f. rewrite <- insert_empty, cnt_new, cnt_empty by done. lia. }
  split; cbn [ks threads].
  - split; cbn.
    + split; cbn; try done.
      * intros q o [<- <-]%lookup_insert_Some_empty. split; [lia|]. done.
      * intros i q Hi. destruct i as [|i]; [injection Hi as <-; exists o0; by rewrite lookup_insert_eq|]. cbn in Hi. do 9 (destruct i as [|i]; [done|]). done.
    + exists ({[0]} ∪ ∅). split; [done|]. intros i Hi. rewrite Hcnt. unfold occ. cbn. rewrite (bool_decide_false (None = Some i)) by done.
      destruct (decide (i = 0)) as [->|Hi0]; [by rewrite bool_decide_true by set_solver|]. rewrite (bool_decide_false (i ∈ _)) by set_solver. destruct i; done.
    + rewrite Hcnt. done.
    + intros q o [<- <-]%lookup_insert_Some_empty. split; rewrite ?Hcnt, ?Hz; cbn; try done.
    + intros t g [<- <-]%lookup_singleton_Some. split; cbn; try done; [|by left|split; [lia|done]]. intros _. split; [lia|]. split; [done|]. exists o0. by rewrite lookup_insert_eq.
    + intros q o [<- <-]%lookup_insert_Some_empty. eexists _, _. split; [apply lookup_singleton_eq|]. by left.
    + eexists _, _. split; [apply lookup_singleton_eq|]. done.
    + by intros t g r o [<- <-]%lookup_singleton_Some.
    + by intros t g i q [<- <-]%lookup_singleton_Some.
  - intros t th [<- <-]%lookup_singleton_Some. eexists. split; [apply lookup_singleton_eq|]. done.
  - intros t Ht. apply lookup_singleton_None in Ht. by rewrite lookup_singleton_ne.
  - by intros t g [<- <-]%lookup_singleton_Some.
Qed.

Lemma Good_run name args w s0 tr s : Boot name args w s0 → Run s0 tr s → ∃ G, Good s tr G.
Proof.
  intros HB HR. induction HR as [|tr s1 t th a s2 _ [G HG] Ht E]; [by eapply Good_boot|]. by eapply Good_step.
Qed.

(** ** The table *)

(** The table and its bitmap agree, the semaphores and counters of a PCB are in
    range, and a process that runs has its own entry, and its parent has one. *)
Record Table s : Prop := {
  tb_slot (i : nat) q : pcb (ks s) !! i = Some (Some q) → ∃ o, heap (ks s) !! q = Some o ∧ pID o = Z.of_nat i;
  tb_heap q o : heap (ks s) !! q = Some o → 0 ≤ pID o < MAX_PROCESS ∧ pcb (ks s) !! Z.to_nat (pID o) = Some (Some q);
  tb_sems q o : heap (ks s) !! q = Some o →
    0 ≤ multex o ≤ 1 ∧ 0 ≤ numwait o ∧ 0 ≤ shouldExit o ≤ 1 ∧ (numwait o ≠ 0 → shouldExit o = 0) ∧ 0 ≤ exitsem o ∧ 0 ≤ joinsem o;
  tb_bm : 0 ≤ bmsem (ks s) ≤ 1 ∧ ∃ M : gset Z, BitmapSpec.Marked (bm (ks s)) MAX_PROCESS M ∧
            ∀ (i : nat) q, pcb (ks s) !! i = Some (Some q) → Z.of_nat i ∈ M;
  tb_user t th v : threads s !! t = Some th → run th = Return v →
    0 ≤ pid th < MAX_PROCESS ∧ ∃ q o, pcb (ks s) !! Z.to_nat (pid th) = Some (Some q) ∧ heap (ks s) !! q = Some o ∧
      (pid th = 0 ∧ parentID o = -1 ∨ pid th ≠ 0 ∧ 0 ≤ parentID o < MAX_PROCESS ∧ ∃ r, pcb (ks s) !! Z.to_nat (parentID o) = Some (Some r));
  tb_distinct t1 t2 th1 th2 v1 v2 : threads s !! t1 = Some th1 → threads s !! t2 = Some th2 →
    run th1 = Return v1 → run th2 = Return v2 → pid th1 = pid th2 → t1 = t2
}.

Lemma user_pos s tr G t th g v : Good s tr G → threads s !! t = Some th → G !! t = Some g → run th = Return v → pid th = gcur g ∧ gpos g = User v.
Proof.
  intros HG Ht Hg Hr. destruct (gd_thr _ _ _ HG t th Ht) as (g'&Hg'&Hpid&Hrun&_). rewrite Hg in Hg'. injection Hg' as <-. split; [done|].
  pose proof (th_pos _ _ (in_thr _ _ (gd_inv _ _ _ HG) t g Hg)) as Hf. rewrite Hr in Hrun. destruct (op_of (gpos g)) as [c|] eqn:Eo.
  - destruct (code_at g (gpos g) c Hf Eo) as (next&E1&_). congruence.
  - destruct (code_idle g (gpos g) Hf Eo) as [(v'&Ep&Ec)|[[Ep Ec]|[Ep Ec]]]; congruence.
Qed.

Lemma PcbOk_range G q o : PcbOk G q o →
  0 ≤ multex o ≤ 1 ∧ 0 ≤ numwait o ∧ 0 ≤ shouldExit o ≤ 1 ∧ (numwait o ≠ 0 → shouldExit o = 0) ∧ 0 ≤ exitsem o ∧ 0 ≤ joinsem o.
Proof.
  intros [P1 P2 P3 P4 P5]. pose proof (cnt_nonneg (n_mx q) G (n_mx_nonneg _)). pose proof (cnt_nonneg (n_wait q) G (n_wait_nonneg _)).
  pose proof (cnt_nonneg (n_exit q) G (n_exit_nonneg _)). pose proof (b2z_nonneg (negb (numwait o =? 0))).
  repeat split; try lia. intros Hn%Z.eqb_neq. rewrite Hn in P3. cbn in P3. lia.
Qed.

Lemma Good_Table s tr G : Good s tr G → Table s.
Proof.
  intros HG. pose proof (gd_inv _ _ _ HG) as HI. pose proof (in_tab _ _ HI) as HTab. split.
  - apply HTab.
  - intros q o Ho. by apply HTab in Ho as [_ ?].
  - intros q o Ho. apply (PcbOk_range G q). by apply (in_pcb _ _ HI).
  - pose proof (in_bm _ _ HI). pose proof (cnt_nonneg n_bm G n_bm_nonneg). split; [lia|]. destruct (in_slots _ _ HI) as (M&HM&Hc). exists M. split; [done|].
    intros i q Hi. destruct (decide (Z.of_nat i ∈ M)) as [|Hn]; [done|]. exfalso. assert (Hlt := lookup_lt_Some _ _ _ Hi). rewrite (ta_len _ HTab) in Hlt.
    destruct (free_slot (ks s) G M (Z.of_nat i) HI HM Hc ltac:(lia) Hn) as [_ Hnone]. rewrite Nat2Z.id in Hnone. congruence.
  - intros t th v Ht Hr. destruct (gd_thr _ _ _ HG t th Ht) as (g&Hg&_). destruct (user_pos s tr G t th g v HG Ht Hg Hr) as [-> Ep]. pose proof (in_thr _ _ HI t g Hg) as HT.
    destruct (th_own _ _ HT ltac:(by rewrite Ep)) as (Hc&Hs&o&Ho&Hpp&_). split; [done|]. exists (gme g), o. split; [done|]. split; [done|]. rewrite Hpp.
    destruct (th_parent _ _ HT ltac:(by rewrite Ep)) as [(?&?&_)|(?&?&r&_&?)]; [by left|right]. split; [done|]. split; [done|]. by exists r.
  - intros t1 t2 th1 th2 v1 v2 Ht1 Ht2 Hr1 Hr2 Hp. destruct (gd_thr _ _ _ HG t1 th1 Ht1) as (g1&Hg1&_), (gd_thr _ _ _ HG t2 th2 Ht2) as (g2&Hg2&_).
    destruct (user_pos s tr G t1 th1 g1 v1 HG Ht1 Hg1 Hr1) as [E1 P1], (user_pos s tr G t2 th2 g2 v2 HG Ht2 Hg2 Hr2) as [E2 P2].
    apply (cur_unique (ks s) G t1 g1 t2 g2 HI); rewrite ?P1, ?P2; try done. congruence.
Qed.

(** ** What goes wrong *)

(** The ways in which a step can fail: bad arguments of ExecV; a program that
    cannot be opened, has too long a name, or does not fit; Join of a process
    that is not a child of the caller; the PCB of the parent is gone when Exit
    comes to its semaphores; the frames of a thread that has finished. *)
Inductive Failure s th (lc : option call) : action → Prop :=
| F_args argc argv : argc ≤ 0 ∨ argv = [] → Failure s th lc (Call (CExecV argc argv))
| F_argv argc argv : lc = Some (CExecV argc argv) → MAX_ARG_NUM < argc ∨ Z.of_nat (length argv) < argc → Failure s th lc Go
| F_name f : exec_name lc = Some f → executable f = None ∨ 32 ≤ Z.of_nat (length f) → Failure s th lc Go
| F_space f file e : exec_name lc = Some f → executable f = Some file → new_AddrSpace (Some file) garbage (frames (ks s)) = Err e → Failure s th lc Go
| F_load sp file : run th = Do Resume (processCreator garbage garbage_addr sp file) →
    (∀ sp' w, Load (Some file) garbage garbage_addr sp (frames (ks s)) ≠ Ok (true, sp', w)) → Failure s th lc Go
| F_join c : lc = Some (CJoin c) →
    (∀ q o, 0 ≤ c → pcb (ks s) !! Z.to_nat c = Some (Some q) → heap (ks s) !! q = Some o → parentID o ≠ pid th) → Failure s th lc Go
| F_parent e r c next : lc = Some (CExit e) → pid th ≠ 0 → run th = Do c next → c ∈ [V (Multex r); P (ExitSem r); V (ExitSem r)] →
    heap (ks s) !! r = None → Failure s th lc Go
| F_frames e : run th = Finish → delete_AddrSpace (space th) (frames (ks s)) = Err e → Failure s th lc Go.

Lemma get_sem_Err (c : sem) k e : get_sem c k = Err e → ∃ r, sem_ptr c = Some r ∧ heap k !! r = None.
Proof. destruct c; cbn; try done; destruct (heap k !! p) eqn:E; try done; intros _; by eexists. Qed.

Lemma op_Err (c : op) k e : do_op c k = Err e → ∃ (x : sem) r, (c = P x ∨ c = V x) ∧ sem_ptr x = Some r ∧ heap k !! r = None.
Proof.
  destruct c as [x|x| |]; cbn; try done; intros E; destruct (get_sem x k) eqn:Eg; try done; destruct (get_sem_Err x k _ Eg) as (r&?&?); exists x, r; auto.
Qed.

Lemma own_alive k g : ThrOk k g → has_pcb (gpos g) = true → heap k !! gme g ≠ None.
Proof. intros HT Hp. destruct (th_own _ _ HT Hp) as (_&_&o&Ho&_). congruence. Qed.

Lemma embryo_alive k g i q : ThrOk k g → embryo (gpos g) = Some (i, q) → heap k !! q ≠ None.
Proof. intros HT He. destruct (th_embryo _ _ HT i q He) as (_&o&Ho&_). congruence. Qed.

Lemma parent_alive k g r : TabOk k → ThrOk k g → awaited (gpos g) = true → gpar g = Some r → heap k !! r ≠ None.
Proof.
  intros HTab HT Ha Hr. destruct (th_parent _ _ HT Ha) as [(_&_&?)|(_&_&r'&Hr'&Hs)]; [congruence|]. destruct (ta_slot _ HTab _ _ Hs) as (o&Ho&_). congruence.
Qed.

Lemma join_fails s tr G t th g c x :
  Good s tr G → threads s !! t = Some th → G !! t = Some g → lost (gpos g) = Some (c, x) → (∀ q, x = Some q → heap (ks s) !! q = None) →
  Failure s th (last_call t tr) Go.
Proof.
  intros HG Ht Hg Hl Hx. destruct (gd_thr _ _ _ HG t th Ht) as (g'&Hg'&Hpid&_&Hcall). rewrite Hg in Hg'. injection Hg' as <-.
  apply (F_join _ _ _ c); [|rewrite Hpid; by apply (th_lost _ _ (in_thr _ _ (gd_inv _ _ _ HG) t g Hg) c x)].
  revert Hcall Hl. unfold Called. generalize (gpos g) as p. induction p; cbn; try done; congruence.
Qed.

Lemma effect_fails s tr G t th g (c : op) e next :
  Good s tr G → threads s !! t = Some th → G !! t = Some g → op_of (gpos g) = Some c → run th = Do c next → do_op c (ks s) = Err e →
  Failure s th (last_call t tr) Go.
Proof.
  intros HG Ht Hg Eo Hrun E. destruct (gd_thr _ _ _ HG t th Ht) as (g'&Hg'&Hpid&_&Hcall). rewrite Hg in Hg'. injection Hg' as <-.
  pose proof (gd_inv _ _ _ HG) as HI. pose proof (in_thr _ _ HI t g Hg) as HT. pose proof (in_tab _ _ HI) as HTab. pose proof (th_pos _ _ HT) as Hf.
  destruct (op_Err c _ e E) as (x&r&Hc&Hx&Hnone).
  assert (A1 : has_pcb (gpos g) = true → gme g ≠ r) by (intros Hp Hm; apply (own_alive _ g HT Hp); congruence).
  assert (A2 : ∀ i, embryo (gpos g) ≠ Some (i, r)) by (intros i Hi; by apply (embryo_alive _ g i r HT Hi)).
  assert (A3 : awaited (gpos g) = true → gpar g ≠ Some r) by (intros Ha Hp; by apply (parent_alive _ g r HTab HT Ha Hp)).
  assert (A4 : ∀ i, born (gpos g) ≠ Some (i, r)).
  { intros i Hb. destruct (in_child _ _ HI t g i r Hg Hb) as (t'&g'&Hg'&Hp'&<-&_). by apply (own_alive _ g' (in_thr _ _ HI t' g' Hg') Hp'). }
  assert (A5 : waking (gpos g) ≠ Some r) by (intros Hw; destruct (th_dec _ _ HT r Hw); congruence).
  unfold Called in Hcall. destruct (gpos g) eqn:Ep; cbn in Eo; try done; injection Eo as <-; destruct Hc as [[= <-]|[= <-]]; cbn in Hx; try done; injection Hx as <-; cbn in Hf, Hcall; subst;
    try (exfalso; first [by eapply A1|by eapply A2|by eapply A4|by apply A5|by apply A1, eq_sym, (proj1 Hf)|by apply A3, (proj2 (proj2 Hf))]).
  - eapply (join_fails s tr G t th g _ (Some q)); try done; [by rewrite Ep|]. by intros ? [= <-].
  - destruct Hf as (_&Hc0&_), Hcall as [Hcall _]. eapply (F_parent _ _ _ e0 parent); [done|congruence|done|set_solver|done].
  - destruct Hf as (_&Hc0&_), Hcall as [Hcall _]. eapply (F_parent _ _ _ e0 parent); [done|congruence|done|set_solver|done].
  - destruct Hf as (_&Hc0&_), Hcall as [Hcall _]. eapply (F_parent _ _ _ e0 parent); [done|congruence|done|set_solver|done].
Qed.

Lemma bind_Err' {A B} (r : res A) (f : A → res B) e : r ≫= f = Err e → r = Err e ∨ ∃ a, r = Ok a ∧ f a = Err e.
Proof. destruct r as [a|]; cbn; [right; by exists a|left; by simplify_eq]. Qed.

Lemma the_pcb_own k g : ThrOk k g → has_pcb (gpos g) = true → the_pcb (gcur g) k = Ok (gme g).
Proof. intros HT Hp. unfold the_pcb. by rewrite (own_slot k g HT Hp). Qed.

Lemma is_exist_Ok k (i : Z) e : TabOk k → is_exist i k ≠ Err e.
Proof.
  intros HT. unfold is_exist. rewrite (ta_size _ HT). destruct (Z.ltb_spec i 0), (Z.leb_spec 10 i); try done. cbn.
  destruct (lookup_lt_is_Some_2 (pcb k) (Z.to_nat i)) as [x Hx]; [rewrite (ta_len _ HT); lia|]. by rewrite (proj2 (aget_Ok (pcb k) i x)).
Qed.

Lemma table_set k (i : Z) x e : TabOk k → 0 ≤ i < 10 → aset (pcb k) i x ≠ Err e.
Proof.
  intros HT Hi. assert (E : aset (pcb k) i x = Ok (<[Z.to_nat i := x]> (pcb k))); [|congruence]. apply aset_Ok. split; [rewrite (ta_len _ HT); lia|done].
Qed.

Lemma argv_fails s th lc a f e : exec_name lc = Some f ∧ match a with None => True | Some (argc, argv) => lc = Some (CExecV argc argv) end →
  pcb_check a = Err e → Failure s th lc Go.
Proof.
  intros [_ Ha] E. destruct a as [[argc argv]|]; [|done]. cbn in E. apply (F_argv _ _ _ argc argv Ha).
  destruct (Z.leb_spec argc MAX_ARG_NUM); [|by left]. destruct (Z.leb_spec argc (Z.of_nat (length argv))); [done|by right].
Qed.

Lemma exec_fails s tr G t th g p e :
  Good s tr G → threads s !! t = Some th → G !! t = Some g → gpos g = After p → is_Some (exec_name (last_call t tr)) → nxt (gcur g) p (ks s) = Err e →
  Failure s th (last_call t tr) Go.
Proof.
  intros HG Ht Hg Ep Hex E. destruct (gd_thr _ _ _ HG t th Ht) as (g'&Hg'&Hpid&Hrun&Hcall). rewrite Hg in Hg'. injection Hg' as <-.
  pose proof (gd_inv _ _ _ HG) as HI. pose proof (in_thr _ _ HI t g Hg) as HT. pose proof (in_tab _ _ HI) as HTab. pose proof (th_pos _ _ HT) as Hf. rewrite Ep in Hf.
  unfold Called in Hcall. rewrite Ep in Hcall. cbn [called] in Hcall. destruct Hex as [name Hex].
  assert (Hown : has_pcb p = true → heap (ks s) !! gme g ≠ None) by (intros Hp; apply own_alive; [done|by rewrite Ep]).
  assert (Hemb : ∀ i q, embryo (After p) = Some (i, q) → heap (ks s) !! q ≠ None) by (intros i q Hi; apply (embryo_alive _ g i q HT); by rewrite Ep).
  destruct p; try done; cbn in Hcall, Hf, E; try (by rewrite Hex in Hcall); try (rewrite Hcall in Hex; done); try (rewrite (proj1 Hcall) in Hex; done).
  - destruct (in_slots _ _ HI) as (M&HM&_). destruct (BitmapSpec.FindAndSet_spec _ _ _ HM) as (i&b&Ef&_). by rewrite Ef in E.
  - destruct (i =? -1) eqn:Ei; [done|]. apply bind_Err' in E as [E|([]&_&E)]; [by eapply argv_fails|]. apply bind_Err' in E as [E|(l&_&E)]; [|done].
    exfalso. apply (table_set (ks s) i _ e HTab) in E; [done|]. assert (0 < i < 10); [|lia]. apply (th_slot _ _ HT). rewrite Ep. cbn. by rewrite Ei.
  - destruct (_ =? -1); cbn in E; [|by rewrite (own_slot _ g HT) in E by (by rewrite Ep)].
    unfold exec_file in E. specialize (Hemb i q eq_refl). by destruct (heap (ks s) !! q).
  - subst parent. specialize (Hown eq_refl). unfold num_wait in E. destruct (heap (ks s) !! gme g) as [o|]; [|done]. cbn in E. by destruct (numwait o =? 0).
  - subst parent. specialize (Hown eq_refl). unfold num_wait in E. by destruct (heap (ks s) !! gme g).
  - specialize (Hemb i q eq_refl). unfold exec_file in E. by destruct (heap (ks s) !! q).
  - destruct (executable f) eqn:Ef; [done|]. apply (F_name _ _ _ f Hcall). by left.
  - apply bind_Err' in E as [E|([sp w]&_&E)]; [|done]. destruct Hcall. by apply (F_space _ _ _ f file e).
  - apply bind_Err' in E as [E|([]&_&E)]; [|done]. apply (F_name _ _ _ f Hcall). right. destruct (Z.leb_spec (Z.of_nat (length f) + 1) 32); [done|lia].
Qed.

(** Join fails only where it has lost the process, Exit does not fail behind an
    operation. *)
Lemma call_fails s tr G t th g p e :
  Good s tr G → threads s !! t = Some th → G !! t = Some g → gpos g = After p → exec_name (last_call t tr) = None → nxt (gcur g) p (ks s) = Err e →
  Failure s th (last_call t tr) Go.
Proof.
  intros HG Ht Hg Ep Hex E. destruct (gd_thr _ _ _ HG t th Ht) as (g'&Hg'&Hpid&Hrun&Hcall). rewrite Hg in Hg'. injection Hg' as <-.
  pose proof (gd_inv _ _ _ HG) as HI. pose proof (in_thr _ _ HI t g Hg) as HT. pose proof (in_tab _ _ HI) as HTab. pose proof (th_pos _ _ HT) as Hf. rewrite Ep in Hf.
  unfold Called in Hcall. rewrite Ep in Hcall. cbn [called] in Hcall.
  assert (Hpcb : has_pcb p = true → the_pcb (gcur g) (ks s) = Ok (gme g)) by (intros Hp; apply the_pcb_own; [done|by rewrite Ep]).
  assert (Hown : has_pcb p = true → heap (ks s) !! gme g ≠ None) by (intros Hp; apply own_alive; [done|by rewrite Ep]).
  destruct p; try done; cbn in Hcall, Hf, E; rewrite ?Hex in Hcall; try done; try (by destruct Hcall).
  - apply bind_Err' in E as [E|(b&_&E)]; [by apply (is_exist_Ok _ _ _ HTab) in E|by destruct b].
  - by eapply (join_fails s tr G t th g c None); [..|rewrite Ep|].
  - apply bind_Err' in E as [E|(q&_&E)]; [|done]. apply (F_join _ _ _ c Hcall). intros q o Hc Hq Ho. unfold the_pcb in E. by rewrite (proj2 (aget_Ok (pcb (ks s)) c (Some q))) in E.
  - eapply (join_fails s tr G t th g c (Some q)); try done; [by rewrite Ep|]. intros q' [= <-]. by destruct (heap (ks s) !! q).
  - apply bind_Err' in E as [E|(b&_&E)]; [by apply (is_exist_Ok _ _ _ HTab) in E|by destruct b].
  - specialize (Hown eq_refl). rewrite (Hpcb eq_refl) in E. cbn in E. by destruct (heap (ks s) !! gme g).
  - destruct Hf as [-> ->]. destruct (th_parent _ _ HT ltac:(by rewrite Ep)) as [(_&Hpp&_)|(_&Hpp&r&_&Hr)]; [by rewrite Hpp in E|].
    rewrite (proj2 (Z.eqb_neq (gpp g) (-1))), (proj2 (aget_Ok (pcb (ks s)) (gpp g) (Some r)) (conj (proj1 Hpp) Hr)) in E by lia. done.
  - destruct Hf as (_&_&Hpar). pose proof (parent_alive (ks s) g parent HTab HT ltac:(by rewrite Ep) Hpar). unfold num_wait in E. by destruct (heap (ks s) !! parent).
  - destruct (in_slots _ _ HI) as (M&HM&_). destruct (th_own _ _ HT ltac:(by rewrite Ep)) as (Hc&_). destruct (BitmapSpec.Clear_spec _ _ _ (gcur g) HM Hc) as (b&Eb&_).
    specialize (Hown eq_refl). rewrite Eb, (Hpcb eq_refl) in E. cbn in E. destruct (heap (ks s) !! gme g); [|done]. cbn in E.
    apply bind_Err' in E as [E|(l&_&E)]; [|done]. by apply (table_set _ _ _ _ HTab Hc) in E.
Qed.

Lemma Good_fails s tr G t th a e : Good s tr G → threads s !! t = Some th → step t a s = Some (Err e) → Failure s th (last_call t tr) a.
Proof.
  intros HG Ht E. destruct (gd_thr _ _ _ HG t th Ht) as (g&Hg&Hpid&Hrun&Hcall). destruct (step_cases s tr G t th g a (Err e) HG Ht Hg E) as [Hh Hcases].
  destruct Hcases as [(c&v&->&Ep&Er)|[(c&next&->&Eo&Hnr&En&[(e'&Ed&_)|(k&_&Er)])|[(->&Eo&Er)|(->&Ep&Er)]]]; try done.
  - destruct (syscall_first uninit executable garbage garbage_addr (gcur g) c (ks s)) as [Es|(e'&Es&argc&argv&->&Ha)]; [by rewrite Es in Er|]. by apply F_args.
  - destruct (code_at g (gpos g) c (th_pos _ _ (in_thr _ _ (gd_inv _ _ _ HG) t g Hg)) Eo) as (nx&E1&_). rewrite E1 in Hrun. by eapply effect_fails.
  - destruct (nxt (gcur g) (gpos g) (ks s)) as [[k2 p']|e'] eqn:Enx; [done|]. destruct (gpos g) eqn:Ep; try done.
    + eapply F_load; [exact Hrun|]. intros sp' w El. cbn in Enx. by rewrite El in Enx.
    + destruct (exec_name (last_call t tr)) eqn:Ex; [eapply exec_fails; try done; by eexists|by eapply call_fails].
  - symmetry in Er. apply bind_Err' in Er as [Er|(w&_&Er)]; [|done]. apply (F_frames _ _ _ e); [|done]. by rewrite Hrun, Ep.
Qed.

(** ** What calls return *)

Lemma returns_next lc (E : Z → Prop) cur p k k' v : called E lc p → nxt cur p k = Ok (k', User v) → k' = k ∧
  ((∃ c q o, p = J3 c q ∧ heap k !! q = Some o ∧ v = exitcode o) ∨ (p = XFull ∧ v = -1) ∨ ∃ q, p = X12 v q) ∨ ended lc ∨ (∃ v', p = User v') ∨ ∃ p', p = After p'.
Proof.
  intros Hc En. destruct p; cbn in En, Hc; try (by right; left); try (by right; right; right; eexists); try (by right; right; left; eexists);
    unfold exec_file, exit_next in En; repeat first [apply bind_Ok in En as (?&?&En)|case_match; simplify_eq; try done]; simplify_eq; left; (split; [done|]).
  - right. by left.
  - right. right. by eexists.
  - left. eexists _, _, _. split; [done|]. split; [by apply deref_Ok|done].
Qed.

Lemma Return_User g p v : pos_fact g p → code (gcur g) p = Return v → p = User v.
Proof.
  intros Hf E. destruct (op_of p) as [c|] eqn:Eo; [destruct (code_at g p c Hf Eo) as (next&E1&_); congruence|].
  destruct (code_idle g p Hf Eo) as [(v'&Ep&Ec)|[[Ep Ec]|[Ep Ec]]]; congruence.
Qed.

(** Where a thread stands when its call returns. *)
Lemma call_returns s tr G t th s' th' v :
  Good s tr G → threads s !! t = Some th → ¬ ended (last_call t tr) → step t Go s = Some (Ok s') → threads s' !! t = Some th' → run th' = Return v →
  ks s' = ks s ∧ halted s = false ∧ ∃ g p, G !! t = Some g ∧ pid th = gcur g ∧ gpos g = After p ∧ Called tr t g ∧
  ((∃ c q o, p = J3 c q ∧ heap (ks s) !! q = Some o ∧ v = exitcode o) ∨ (p = XFull ∧ v = -1) ∨ ∃ q, p = X12 v q).
Proof.
  intros HG Ht Hend E Ht' Hr. destruct (gd_thr _ _ _ HG t th Ht) as (g&Hg&Hpid&Hrun&Hcall). pose proof (gd_inv _ _ _ HG) as HI.
  destruct (step_cases s tr G t th g Go (Ok s') HG Ht Hg E) as [Hh Hcases]. pose proof (th_pos _ _ (in_thr _ _ HI t g Hg)) as Hf.
  destruct Hcases as [(c&v'&?&_)|[(c&next&_&_&_&_&[(e&_&Er)|(k&_&Er)])|[(_&Eo&Er)|(_&Ep&_)]]]; try done.
  - injection Er as ->. cbn in Ht'. rewrite lookup_insert_eq in Ht'. injection Ht' as <-. done.
  - destruct (nxt (gcur g) (gpos g) (ks s)) as [[k2 p']|] eqn:Enx; [|done]. cbn in Er. injection Er as ->. cbn [threads] in Ht'. rewrite lookup_insert_eq in Ht'. injection Ht' as <-.
    cbn in Hr. pose proof (seg_ok _ _ _ _ _ _ _ _ _ _ uninit_zero HI Hg Eo Enx) as HI2. pose proof (th_pos _ _ (in_thr _ _ HI2 t _ (lookup_insert_eq _ _ _))) as Hf2.
    assert (p' = User v) as -> by (by apply (Return_User (at_pos p' g))). unfold Called in Hcall. destruct (gpos g) as [| | | | | | | | | | | | | | | | | | | | | | | | | | | | | | | | | |p] eqn:Ep; try done.
    cbn [ProcessInv.nxt called] in Enx, Hcall. destruct (returns_next _ _ _ _ _ _ _ Hcall Enx) as [[-> Hcase]|[?|[[v' ->]|[p' ->]]]]; [|done..].
    split; [done|]. split; [done|]. exists g, p. rewrite Ep. unfold Called. rewrite Ep. done.
  - unfold Called in Hcall. by rewrite Ep in Hcall.
Qed.

Lemma joinable_exiting g p : pos_fact g p → joinable p = true → p = Halted ∨ ∃ e, exiting p = Some e.
Proof. destruct p; try done; intros Hf Hj; try (by right; eexists); [by left|]. destruct p; try done; right; by eexists. Qed.

Lemma exiting_called (E : Z → Prop) lc p e : exiting p = Some e → called E lc p → E e.
Proof. induction p; cbn; try done; intros [= ->]; naive_solver. Qed.

Lemma join_result s tr G t g c q o :
  Good s tr G → halted s = false → G !! t = Some g → gpos g = After (J3 c q) → heap (ks s) !! q = Some o → ∃ t', (t', c, Call (CExit (exitcode o))) ∈ tr.
Proof.
  intros HG Hh Hg Ep Ho. pose proof (gd_inv _ _ _ HG) as HI. destruct (po_join _ _ _ (in_pcb _ _ HI q o Ho)) as [P0 P5].
  assert (1 ≤ cnt (n_got q) G). { pose proof (cnt_ge (n_got q) G t g (n_got_nonneg _) Hg) as Hge. unfold n_got at 1 in Hge. rewrite Ep in Hge. cbn in Hge. by rewrite bool_decide_true in Hge. }
  destruct (cnt_pos (n_join q) G ltac:(lia)) as (t'&g'&Hg'&Hn). unfold n_join in Hn. destruct (joinable (gpos g')) eqn:Ej; [|done]. cbn in Hn. case_bool_decide as Hm; [|done].
  pose proof (in_thr _ _ HI t' g' Hg') as HT'. destruct (joinable_exiting g' _ (th_pos _ _ HT') Ej) as [Ehalt|[e Ee]]; [pose proof (gd_halt _ _ _ HG t' g' Hg' Ehalt); congruence|].
  assert (Hp' : has_pcb (gpos g') = true) by (revert Ej; clear; generalize (gpos g') as p; induction p; try done; destruct p; done).
  destruct (th_own _ _ HT' Hp') as (Hc&Hs&o'&Ho'&_&Hec). rewrite Hm, Ho in Ho'. injection Ho' as <-. rewrite (Hec e Ee).
  destruct (Good_thread s tr G t' g' HG Hg') as (th'&_&_&_&Hcall). exists t'. apply (exiting_called _ _ _ _ Ee) in Hcall.
  destruct (th_join _ _ (in_thr _ _ HI t g Hg) c q ltac:(by rewrite Ep)) as [_ Hid]. specialize (Hid o Ho).
  destruct (ta_slot _ (in_tab _ _ HI) _ _ Hs) as (o2&Ho2&Hid2). rewrite Hm, Ho in Ho2. injection Ho2 as <-. replace c with (gcur g') by lia. done.
Qed.

(** ** The PCBs that a step leaves *)

Definition stays q (i : Z) k : Prop := ∃ o, heap k !! q = Some o ∧ parentID o = i.

Lemma stays_insert k q r (i : Z) o o' : stays q i k → heap k !! r = Some o → parentID o' = parentID o → stays q i (set_heap (<[r := o']> (heap k)) k).
Proof.
  intros (x&Hx&Hi) Ho Hp. unfold stays. cbn. destruct (decide (r = q)) as [->|Hne]; [exists o'; rewrite lookup_insert_eq; split; [done|congruence]|exists x; by rewrite lookup_insert_ne].
Qed.

Lemma op_stays (c : op) k k' q i : do_op c k = Ok (Some k') → stays q i k → stays q i k'.
Proof.
  intros E Hs. destruct c as [x|x| |]; cbn in E; [| |by injection E as <-..].
  - destruct (get_sem x k) as [v|] eqn:Eg; [|done]. cbn in E. destruct (v =? 0); [done|]. injection E as <-. destruct (sem_ptr x) as [r|] eqn:Ex; [|by destruct x].
    destruct (heap k !! r) as [o|] eqn:Eo; [|by rewrite (get_sem_dead x k r) in Eg]. rewrite (put_sem_pcb x k r o) by done. by apply stays_insert with o; [..|destruct x].
  - destruct (get_sem x k) as [v|] eqn:Eg; [|done]. injection E as <-. destruct (sem_ptr x) as [r|] eqn:Ex; [|by destruct x].
    destruct (heap k !! r) as [o|] eqn:Eo; [|by rewrite (get_sem_dead x k r) in Eg]. rewrite (put_sem_pcb x k r o) by done. by apply stays_insert with o; [..|destruct x].
Qed.

Lemma num_wait_stays d r k k' n q i : num_wait d r k = Ok (k', n) → stays q i k → stays q i k'.
Proof. intros E Hs. destruct (num_wait_Ok _ _ _ _ _ E) as (o&Ho&_&->). by apply stays_insert with o. Qed.

Fixpoint removes p : bool := match p with Q11 _ _ => true | After p => removes p | _ => false end.

Lemma nxt_stays cur p k k' p' q i :
  TabOk k → nxt cur p k = Ok (k', p') → stays q i k → stays q i k' ∨ removes p = true ∧ the_pcb cur k = Ok q.
Proof.
  intros HTab. revert k' p'. induction p; intros k' p' En Hs; cbn in En; unfold exec_file, exit_next in En;
    repeat first [apply bind_Ok in En as (?&?&En)|case_match; simplify_eq; try done]; simplify_eq; try (by left); try (left; by eapply num_wait_stays); try (left; eapply stays_insert; [done|by apply deref_Ok|done]).
  - left. destruct Hs as (o&Ho&Hp). exists o. split; [|done]. cbn. rewrite lookup_insert_ne; [done|]. apply (live_ptr k q o HTab) in Ho. lia.
  - match goal with H : the_pcb _ _ = Ok ?x |- _ => destruct (decide (x = q)) as [->|Hne]; [by right|left] end.
    destruct Hs as (o&Ho&Hp). exists o. split; [|done]. cbn. by rewrite lookup_delete_ne.
  - by eapply IHp.
Qed.

Lemma released_called (E : Z → Prop) lc p : released p = true → called E lc p → ∃ e, E e.
Proof. induction p; cbn; try done; try (intros _ [_ HE]; by eexists). destruct p; try done; intros _ [_ HE]; by eexists. Qed.

Lemma removes_pos g p : pos_fact g p → removes p = true → op_of p = Some Resume → let_go p = true ∧ has_pcb p = true.
Proof. destruct p; try done. by destruct p. Qed.

(** A process whose parent is the first process is removed only when that one
    has called Exit. *)
Lemma Good_stays s tr G t th a s' q :
  Good s tr G → threads s !! t = Some th → step t a s = Some (Ok s') → stays q 0 (ks s) → stays q 0 (ks s') ∨ ∃ t' e, (t', 0, Call (CExit e)) ∈ tr.
Proof.
  intros HG Ht E Hs. destruct (gd_thr _ _ _ HG t th Ht) as (g&Hg&Hpid&Hrun&Hcall). pose proof (gd_inv _ _ _ HG) as HI. pose proof (in_thr _ _ HI t g Hg) as HT.
  destruct (step_cases s tr G t th g a (Ok s') HG Ht Hg E) as [_ Hcases].
  destruct Hcases as [(c&v&->&Ep&Er)|[(c&next&->&Eo&Hnr&En&[(e&_&Er)|(k&Ed&Er)])|[(->&Eo&Er)|(->&Ep&Er)]]]; try done.
  - left. destruct (syscall_first uninit executable garbage garbage_addr (gcur g) c (ks s)) as [Es|(e&Es&_)]; rewrite Es in Er; [|done]. by injection Er as ->.
  - left. injection Er as ->. by apply (op_stays c (ks s)).
  - destruct (nxt (gcur g) (gpos g) (ks s)) as [[k2 p']|] eqn:Enx; [|done]. injection Er as ->. cbn [ks].
    destruct (nxt_stays _ _ _ _ _ q 0 (in_tab _ _ HI) Enx Hs) as [?|[Hrem Hq]]; [by left|right]. destruct (removes_pos g _ (th_pos _ _ HT) Hrem Eo) as [Hl Hp].
    rewrite (the_pcb_own (ks s) g HT Hp) in Hq. injection Hq as <-. destruct (in_main _ _ HI) as (t0&g0&Hg0&Hc0). pose proof (main_has_pcb _ _ _ _ HI Hg0 Hc0) as Hp0.
    destruct (th_own _ _ (in_thr _ _ HI t0 g0 Hg0) Hp0) as (_&Hs0&o0&Ho0&_). rewrite Hc0 in Hs0. change (Z.to_nat 0) with 0%nat in Hs0.
    destruct (th_own _ _ HT Hp) as (_&_&o&Ho&Hpp&_). destruct Hs as (o'&Ho'&Hpar). rewrite Ho in Ho'. injection Ho' as <-.
    pose proof (th_main _ _ HT (gme g0) ltac:(congruence) Hs0) as Hpar0. pose proof (in_go _ _ HI t g _ o0 Hg Hl Hpar0 Ho0) as Hrel.
    destruct (cnt_pos (n_rel (gme g0)) G ltac:(lia)) as (t1&g1&Hg1&Hn). unfold n_rel in Hn. destruct (released (gpos g1)) eqn:Er; [|done]. cbn in Hn. case_bool_decide as Hm; [|done].
    assert (t1 = t0) as -> by (apply (me_unique (ks s) G t1 g1 t0 g0 HI); try done; by apply released_pcb). rewrite Hg0 in Hg1. injection Hg1 as <-.
    destruct (Good_thread s tr G t0 g0 HG Hg0) as (th0&_&_&_&Hcall0). destruct (released_called _ _ _ Er Hcall0) as [e He]. exists t0, e. by rewrite <- Hc0.
  - left. symmetry in Er. apply bind_Ok in Er as (w&_&[= <-]). done.
Qed.

(** ** Theorems *)

Variables (name : list Z) (args : list (list Z)) (w : Frames).




(** When a call of Exec or ExecV returns v, then v is -1, or
    slot v of the table holds the PCB of a process with id v and the caller as
    its parent. *)
Theorem exec_returns_child s0 tr s t th f s' th' v :
  Boot name args w s0 → Run s0 tr s → threads s !! t = Some th → exec_name (last_call t tr) = Some f →
  step t Go s = Some (Ok s') → threads s' !! t = Some th' → run th' = Return v →
  v = -1 ∨ 0 ≤ v < MAX_PROCESS ∧ ∃ q o, pcb (ks s') !! Z.to_nat v = Some (Some q) ∧ heap (ks s') !! q = Some o ∧ pID o = v ∧ parentID o = pid th.
Proof.
  intros HB HR Ht Hlc E Ht' Hr. destruct (Good_run name args w s0 tr s HB HR) as [G HG].
  destruct (call_returns s tr G t th s' th' v HG Ht) as (->&Hh&g&p&Hg&->&Ep&Hcall&Hcase); try done; [destruct (last_call t tr) as [[]|]; try done; by intros []|].
  unfold Called in Hcall. rewrite Ep in Hcall. destruct Hcase as [(c'&q&o&->&Ho&->)|[[_ ->]|[q ->]]]; [cbn in Hcall; by rewrite Hcall in Hlc|by left|right].
  pose proof (gd_inv _ _ _ HG) as HI. destruct (in_child _ _ HI t g v q Hg ltac:(by rewrite Ep)) as (t'&g'&Hg'&Hp'&Hm&<-&Hpp&_).
  destruct (th_own _ _ (in_thr _ _ HI t' g' Hg') Hp') as (Hc&Hs&o&Ho&Hpar&_). split; [done|]. exists (gme g'), o. do 2 (split; [done|]).
  destruct (ta_slot _ (in_tab _ _ HI) _ _ Hs) as (o'&Ho'&Hid). rewrite Ho in Ho'. injection Ho' as <-. split; [lia|congruence].
Qed.

(** A child of the first process stays in the process table until
    that process calls Exit, also when the child has exited and has been joined:
    its exit waits for the exitsem of its parent. *)
Theorem children_of_main_stay s0 tr s q tr' s' :
  Boot name args w s0 → Run s0 tr s → Run s tr' s' → (∀ t e, (t, 0, Call (CExit e)) ∉ tr' ++ tr) → stays q 0 (ks s) → stays q 0 (ks s').
Proof.
  intros HB HR HR'. induction HR' as [|tr' s1 t th a s2 HR1 IH Ht E]; [done|]. intros Hno Hs.
  assert (Hno' : ∀ t e, (t, 0, Call (CExit e)) ∉ tr' ++ tr) by (intros t' e' Hin; apply (Hno t' e'); cbn; by right).
  assert (HR2 : Run s0 (tr' ++ tr) s1) by (clear - HR HR1; induction HR1 as [|tr' s1 t th a s2 _ IH Ht E]; [done|by eapply run_step]).
  destruct (Good_run name args w s0 _ s1 HB HR2) as [G HG]. destruct (Good_stays s1 _ G t th a s2 q HG Ht E (IH Hno' Hs)) as [?|(t'&e&Hin)]; [done|]. by destruct (Hno' t' e).
Qed.
End RUN.

#[global] Instance call_eq_dec : EqDecision call.
Proof. solve_decision. Defined.

(** ** Examples *)

(** One program, [small], with the name A; the heap is full of zeros. *)
Definition zeros (x : ptr) : Z * Z := (0, 0).
Definition only_small (f : list Z) : option (list Z) := if decide (f = [65]) then Some small else None.

#[local] Abbreviation stepA := (step zeros only_small [] 0).
#[local] Abbreviation RunA := (Run zeros only_small [] 0).
#[local] Abbreviation BootA := (Boot zeros only_small [] 0 [65] [] empty_memory).

#[local] Abbreviation boot := (start zeros only_small [] 0 [65] [] empty_memory).

(** A schedule, and the steps it leads to. *)
Fixpoint sched (l : list (nat * action)) s tr : option (list event * Sys) :=
  match l with
  | [] => Some (tr, s)
  | (t, a) :: l =>
    match threads s !! t, stepA t a s with
    | Some th, Some (Ok s') => sched l s' ((t, pid th, a) :: tr)
    | _, _ => None
    end
  end.

Lemma sched_Run l s0 s tr tr' s' : RunA s0 tr s → sched l s tr = Some (tr', s') → RunA s0 tr' s'.
Proof.
  revert s tr. induction l as [|[t a] l IH]; intros s tr HR E; cbn in E; [by injection E as <- <-|].
  destruct (threads s !! t) as [th|] eqn:Ht; [|done]. destruct (stepA t a s) as [[s1|]|] eqn:Es; try done. eapply IH; [|done]. by eapply run_step.
Qed.

Definition gos (t n : nat) : list (nat * action) := replicate n (t, Go).
Definition calls (t : nat) (c : call) (n : nat) : list (nat * action) := (t, Call c) :: gos t n.

(** A test of the state at the end of a schedule. *)
Definition test (r : res Sys) (l : list (nat * action)) (f : list event → Sys → bool) : bool :=
  match r with Ok s => match sched l s [] with Some (tr, s) => f tr s | None => false end | Err _ => false end.

Definition holds : list (nat * action) → (list event → Sys → bool) → bool := test boot.

Lemma boot_thread : test boot [] (λ _ s, negb (bool_decide (threads s !! 0%nat = None))) = true.
Proof. vm_compute. reflexivity. Qed.

Lemma test_Run (r : res Sys) l f : r = boot → test r l f = true → ∃ s0 tr s, BootA s0 ∧ RunA s0 tr s ∧ f tr s = true.
Proof.
  intros Er Hf. pose proof boot_thread as Hn. rewrite <- Er in Hn. destruct r as [s0|]; [|done]. cbn [test sched] in Hf, Hn. destruct (sched l s0 []) as [[tr s]|] eqn:Es; [|done].
  exists s0, tr, s. split; [|split; [eapply sched_Run; [apply run_nil|exact Es]|exact Hf]]. split; [exact (eq_sym Er)|]. intros E. by rewrite E in Hn.
Qed.

Lemma holds_Run l f : holds l f = true → ∃ s0 tr s, BootA s0 ∧ RunA s0 tr s ∧ f tr s = true.
Proof. apply test_Run. reflexivity. Qed.

(** The first process executes A, which exits with 7; the first process joins it. *)
Definition join_7 : list (nat * action) := calls 0 (CExec [65]) 24 ++ gos 1 1 ++ calls 1 (CExit 7) 14 ++ calls 0 (CJoin 1) 5.

Definition is_return (v : Z) (th : option Thread) : bool :=
  match th with Some th => match run th with Return x => x =? v | _ => false end | None => false end.

(** The next step of thread [t] returns [v] from a call that [f] accepts. *)
Definition returns (t : nat) (v : Z) (f : option call → bool) tr s : bool :=
  f (last_call t tr) && match threads s !! t, stepA t Go s with Some _, Some (Ok s') => is_return v (threads s' !! t) | _, _ => false end.

Lemma returns_true t v f tr s : returns t v f tr s = true →
  f (last_call t tr) = true ∧ ∃ th s' th', threads s !! t = Some th ∧ stepA t Go s = Some (Ok s') ∧ threads s' !! t = Some th' ∧ run th' = Return v.
Proof.
  unfold returns. intros [Hf E]%andb_true_iff. split; [done|]. destruct (threads s !! t) as [th|]; [|done]. destruct (stepA t Go s) as [[s'|]|]; try done.
  unfold is_return in E. destruct (threads s' !! t) as [th'|] eqn:Ht'; [|done]. destruct (run th') eqn:Hr; try done. apply Z.eqb_eq in E as ->. by exists th, s', th'.
Qed.



Lemma exec_returns_child_witness :
  ∃ s0 tr s q o, BootA s0 ∧ RunA s0 tr s ∧ pcb (ks s) !! 1%nat = Some (Some q) ∧ heap (ks s) !! q = Some o ∧ parentID o = 0.
Proof.
  assert (H : holds (calls 0 (CExec [65]) 23) (λ tr s, returns 0 1 (λ c, bool_decide (exec_name c = Some [65])) tr s && match threads s !! 0%nat with Some th => pid th =? 0 | None => false end) = true)
    by (vm_compute; reflexivity).
  apply holds_Run in H as (s0&tr&s&HB&HR&[[Hc%bool_decide_eq_true (th&s'&th'&Ht&E&Ht'&Hr)]%returns_true Hp]%andb_true_iff).
  destruct (exec_returns_child zeros only_small [] 0 ltac:(done) [65] [] empty_memory s0 tr s 0%nat th [65] s' th' 1 HB HR Ht Hc E Ht' Hr) as [?|(_&q&o&Hq&Ho&_&Hpar)]; [done|].
  rewrite Ht in Hp. apply Z.eqb_eq in Hp. exists s0, ((0%nat, pid th, Go) :: tr), s', q, o. split; [done|]. split; [by eapply run_step|]. do 2 (split; [done|]). congruence.
Defined.

Lemma two_Runs l1 l2 f :
  holds l1 (λ tr s, match sched l2 s [] with Some (tr2, s2) => f tr s tr2 s2 | None => false end) = true →
  ∃ s0 tr s tr2 s2, BootA s0 ∧ RunA s0 tr s ∧ RunA s tr2 s2 ∧ f tr s tr2 s2 = true.
Proof.
  intros (s0&tr&s&HB&HR&E)%holds_Run. destruct (sched l2 s []) as [[tr2 s2]|] eqn:E2; [|done]. exists s0, tr, s, tr2, s2.
  do 2 (split; [done|]). split; [eapply sched_Run; [apply run_nil|exact E2]|exact E].
Qed.

Definition no_main_exit tr : bool := forallb (λ ev : event, match ev with (_, 0, Call (CExit _)) => false | _ => true end) tr.

Lemma no_main_exit_true tr t e : no_main_exit tr = true → (t, 0, Call (CExit e)) ∉ tr.
Proof. intros H Hin. apply list_elem_of_In in Hin. by apply (proj1 (forallb_forall _ _) H) in Hin. Qed.

Definition child_of_main q s : bool := match heap (ks s) !! q with Some o => parentID o =? 0 | None => false end.

Lemma child_of_main_true q s : child_of_main q s = true → stays q 0 (ks s).
Proof. unfold child_of_main. destruct (heap (ks s) !! q) as [o|] eqn:E; [|done]. intros H%Z.eqb_eq. by exists o. Qed.

(** The child has exited and has been joined, and is still in the table. *)
Lemma children_of_main_stay_witness : ∃ s0 tr s tr' s', BootA s0 ∧ RunA s0 tr s ∧ RunA s tr' s' ∧ last_call 1 tr' = Some (CExit 7) ∧ last_call 0 tr' = Some (CJoin 1) ∧ stays 1 0 (ks s').
Proof.
  assert (H : holds (calls 0 (CExec [65]) 24) (λ tr s, match sched (gos 1 1 ++ calls 1 (CExit 7) 14 ++ calls 0 (CJoin 1) 6) s [] with
    | Some (tr2, s2) => no_main_exit (tr2 ++ tr) && child_of_main 1 s && bool_decide (last_call 1 tr2 = Some (CExit 7)) && bool_decide (last_call 0 tr2 = Some (CJoin 1)) | None => false end) = true)
    by (vm_compute; reflexivity).
  apply (two_Runs _ _ (λ tr s tr2 s2, no_main_exit (tr2 ++ tr) && child_of_main 1 s && bool_decide (last_call 1 tr2 = Some (CExit 7)) && bool_decide (last_call 0 tr2 = Some (CJoin 1))))
    in H as (s0&tr&s&tr2&s2&HB&HR&HR2&[[[Hn Hc]%andb_true_iff H1%bool_decide_eq_true]%andb_true_iff H2%bool_decide_eq_true]%andb_true_iff).
  exists s0, tr, s, tr2, s2. do 5 (split; [done|]).
  exact (children_of_main_stay zeros only_small [] 0 ltac:(done) [65] [] empty_memory s0 tr s 1%nat tr2 s2 HB HR HR2 (λ t e, no_main_exit_true _ t e Hn) (child_of_main_true _ _ Hc)).
Defined.

(** A has a child B, and B a child C.  A exits, then B, which has to wait for C;
    C exits, and loses the processor when it has released the shouldExit of B;
    B goes on and deletes its PCB. *)
Definition grandchildren : list (nat * action) :=
  calls 0 (CExec [65]) 24 ++ gos 1 1 ++ calls 1 (CExec [65]) 24 ++ gos 2 1 ++ calls 2 (CExec [65]) 24 ++ gos 3 1 ++
  calls 1 (CExit 0) 14 ++ calls 2 (CExit 0) 18 ++ calls 3 (CExit 0) 11 ++ gos 2 7 ++ gos 3 1.

Lemma grandchildren_fail :
  holds grandchildren (λ tr s, match threads s !! 3%nat, stepA 3 Go s with Some _, Some (Err BadAccess) => bool_decide (last_call 3 tr = Some (CExit 0)) | _, _ => false end) = true.
Proof. vm_compute. reflexivity. Qed.

(** Exit of a process can reach the semaphores of its parent after
    the parent has deleted them: DecNumWait lets the parent go on when it
    releases shouldExit, before it has released multex and before ExitWait. *)
Theorem exit_uses_deleted_parent :
  ∃ s0 tr s th, BootA s0 ∧ RunA s0 tr s ∧ threads s !! 3%nat = Some th ∧ last_call 3 tr = Some (CExit 0) ∧ stepA 3 Go s = Some (Err BadAccess).
Proof.
  destruct (holds_Run _ _ grandchildren_fail) as (s0&tr&s&HB&HR&E). destruct (threads s !! 3%nat) as [th|] eqn:Ht; [|done]. destruct (stepA 3 Go s) as [[|[]]|] eqn:Es; try done.
  apply bool_decide_eq_true in E. by exists s0, tr, s, th.
Qed.

End ProcessThms.
