(* ===== verification/Conc.v ===== *)
(** Monitors: code that synchronises with semaphores, locks and condition
    variables and has an object of its own, as steps of its threads.

    Threads of the kernel lose the processor only in the operations of
    threads/synch.cc: while they wait, and when an operation turns interrupts on
    again at its end (Threads.v).  Between two operations a thread has the object
    for itself.  A component is therefore a set of control points ([Pos]); at
    each one a thread is about to do an operation, and [go] is the code behind
    it, up to the next control point or the return of the call.  The operations
    are those of Synch.v, seen from outside: P and Acquire wait until they can
    proceed, Wait gives the lock up and takes it again when the thread has been
    signalled and the lock is free.  Interrupt handlers of a device act on the
    object and signal semaphores; they come at any point.

    [Atomic] is the contract of such a component: what a call does when it is
    done at one instant.  [Monitor] is the proof rule for code under a lock: an
    assertion for the object and the abstract state while the lock is free, and
    one for each control point of its holder; [bad] are the conditions under
    which the code itself fails.  [monitor_step] shows that no step fails
    otherwise, [monitor_refines] that the histories of calls and returns are
    those of the contract (linearisability), [stuck_asleep] who can be left
    waiting. *)

From S2P Require Import Prelude.

Module Conc.

Inductive op := P (s : nat) | V (s : nat) | Acquire (l : nat) | Release (l : nat) | Wait (c l : nat) | Signal (c l : nat).

(** The code of a component with object [S]: the first control point of a call,
    the operation at a control point, the code behind it, and the interrupt
    handlers, with the semaphores they signal. *)
Class Code (S Pos Call Val Int : Type) := {
  entry : Call → res Pos;
  op_of : Pos → op;
  go : Pos → S → res (S * (Pos + Val));
  interrupt : Int → S → option (res (S * list nat))
}.

Record World (S : Type) := mkWorld { obj : S; sems : gmap nat Z; locks : gmap nat (option nat); conds : gmap nat (list nat) }.
#[global] Arguments mkWorld {S}.
#[global] Arguments obj {S}.
#[global] Arguments sems {S}.
#[global] Arguments locks {S}.
#[global] Arguments conds {S}.

(** A thread: outside, in front of an operation, asleep in Wait, behind it. *)
Inductive tstate (Pos Val : Type) := Outside (v : option Val) | At (p : Pos) | Asleep (p : Pos) | Behind (p : Pos).
#[global] Arguments Outside {Pos Val}.
#[global] Arguments At {Pos Val}.
#[global] Arguments Asleep {Pos Val}.
#[global] Arguments Behind {Pos Val}.

Section CONC.
Context {S Pos Call Val Int : Type} `{!Code S Pos Call Val Int}.
Implicit Types (w : World S) (p : Pos) (t : nat).

Record Sys := mkSys { world : World S; threads : gmap nat (tstate Pos Val) }.

Definition set_sem (s : nat) (v : Z) w : World S := mkWorld (obj w) (<[s := v]> (sems w)) (locks w) (conds w).
Definition set_lock (l : nat) (h : option nat) w : World S := mkWorld (obj w) (sems w) (<[l := h]> (locks w)) (conds w).
Definition set_cond (c : nat) (q : list nat) w : World S := mkWorld (obj w) (sems w) (locks w) (<[c := q]> (conds w)).
Definition set_obj (x : S) w : World S := mkWorld x (sems w) (locks w) (conds w).

Definition held_by t (l : nat) w : res unit := h ← deref (locks w !! l); ASSERT (bool_decide (h = Some t)).

(** The effect of an operation of thread [t]: [None] while it has to wait. *)
Definition do_op t (o : op) w : res (option (World S)) :=
  match o with
  | P s => v ← deref (sems w !! s); Ok (if v =? 0 then None else Some (set_sem s (v - 1) w))
  | V s => v ← deref (sems w !! s); Ok (Some (set_sem s (v + 1) w))
  | Acquire l => h ← deref (locks w !! l); Ok (match h with None => Some (set_lock l (Some t) w) | Some _ => None end)
  | Release l => held_by t l w ;; Ok (Some (set_lock l None w))
  | Wait c l => held_by t l w ;; q ← deref (conds w !! c); Ok (Some (set_cond c (q ++ [t]) (set_lock l None w)))
  | Signal c l => held_by t l w ;; q ← deref (conds w !! c); Ok (Some (set_cond c (tail q) w))
  end.

(** The way out of Wait. *)
Definition wake t (c l : nat) w : res (option (World S)) :=
  q ← deref (conds w !! c);
  h ← deref (locks w !! l);
  Ok (match h with None => if bool_decide (t ∈@{list nat} q) then None else Some (set_lock l (Some t) w) | Some _ => None end).

(** The code behind an operation. *)
Definition run_on p w : res (World S * tstate Pos Val) :=
  '(x, n) ← go p (obj w);
  Ok (set_obj x w, match n with inl p' => At p' | inr v => Outside (Some v) end).

Definition signal_all (ss : list nat) w : res (World S) :=
  foldM (λ s w, v ← deref (sems w !! s); Ok (set_sem s (v + 1) w)) ss w.

Inductive event := ECall t (c : Call) | EGo t | EInt (i : Int).

(** The effect of an operation of thread [t], if it can be done now. *)
Definition advance t (r : res (option (World S))) (ts : tstate Pos Val) (s : Sys) : option (res Sys) :=
  match r with
  | Err e => Some (Err e)
  | Ok None => None
  | Ok (Some w) => Some (Ok (mkSys w (<[t := ts]> (threads s))))
  end.

Definition step (e : event) (s : Sys) : option (res Sys) :=
  match e with
  | ECall t c =>
    match default (Outside None) (threads s !! t) with
    | Outside _ => Some (p ← entry c; Ok (mkSys (world s) (<[t := At p]> (threads s))))
    | _ => None
    end
  | EGo t =>
    match default (Outside None) (threads s !! t) with
    | Outside _ => None
    | At p => advance t (do_op t (op_of p) (world s)) (match op_of p with Wait _ _ => Asleep p | _ => Behind p end) s
    | Asleep p => match op_of p with Wait c l => advance t (wake t c l (world s)) (Behind p) s | _ => None end
    | Behind p => Some ('(w, ts) ← run_on p (world s); Ok (mkSys w (<[t := ts]> (threads s))))
    end
  | EInt i =>
    match interrupt i (obj (world s)) with
    | None => None
    | Some r => Some ('(x, ss) ← r; w ← signal_all ss (set_obj x (world s)); Ok (mkSys w (threads s)))
    end
  end.

(** A thread that waits on a semaphore can go on after an interrupt that
    signals it. *)
Lemma interrupt_wakes (s : Sys) t p n i x :
  threads s !! t = Some (At p) → op_of p = P n → sems (world s) !! n = Some 0 → interrupt i (obj (world s)) = Some (Ok (x, [n])) →
  ∃ s', step (EInt i) s = Some (Ok s') ∧ is_Some (step (EGo t) s').
Proof.
  intros Ht Eo Hz Ei. unfold step at 1. rewrite Ei. unfold signal_all. cbn. rewrite Hz. cbn. eexists. split; [done|]. cbn. rewrite Ht. cbn. rewrite Eo. cbn. rewrite lookup_insert_eq. by eexists.
Qed.

(** What the callers see of a step. *)
Inductive hev := HCall t (c : Call) | HRet t (v : Val).

Definition visible (e : event) (s : Sys) : list hev :=
  match e with
  | ECall t c => [HCall t c]
  | EGo t => match threads s !! t with Some (Outside (Some v)) => [HRet t v] | _ => [] end
  | EInt _ => []
  end.

(** The runs from [s], with their histories. *)
Inductive Run (s : Sys) : list hev → Sys → Prop :=
| run_nil : Run s [] s
| run_step h s1 e s2 : Run s h s1 → step e s1 = Some (Ok s2) → Run s (h ++ visible e s2) s2.

(** A schedule, for concrete runs. *)
Fixpoint exec (es : list event) (s : Sys) : option (list hev * Sys) :=
  match es with
  | [] => Some ([], s)
  | e :: es => match step e s with
               | Some (Ok s1) => match exec es s1 with Some (h, s2) => Some (visible e s1 ++ h, s2) | None => None end
               | _ => None
               end
  end.

Lemma exec_run_from s0 h0 es s h s' : Run s0 h0 s → exec es s = Some (h, s') → Run s0 (h0 ++ h) s'.
Proof.
  revert s h0 h. induction es as [|e es IH]; intros s h0 h HR E; cbn in E; [injection E as <- <-; by rewrite app_nil_r|].
  destruct (step e s) as [[s1|]|] eqn:Es; try done. destruct (exec es s1) as [[h1 s2]|] eqn:Ee; [|done]. injection E as <- <-.
  rewrite app_assoc. eapply IH; [|done]. by econstructor.
Qed.

Lemma exec_run es s h s' : exec es s = Some (h, s') → Run s h s'.
Proof. intros E. apply (exec_run_from s [] es s h s'); [constructor|done]. Qed.

(** No thread can go on, checked for the threads there are. *)
Definition stuck_with (ts : list nat) (s : Sys) : bool := forallb (λ t, match step (EGo t) s with None => true | Some _ => false end) ts && bool_decide (dom (threads s) = list_to_set ts).

Lemma stuck_with_stuck ts (s : Sys) : stuck_with ts s = true → ∀ t, step (EGo t) s = None.
Proof.
  unfold stuck_with. intros [Hf Hd%bool_decide_eq_true]%andb_true_iff t. destruct (threads s !! t) as [x|] eqn:Et.
  - assert (t ∈ ts) as Hin by (apply (elem_of_list_to_set (C := gset nat)); rewrite <- Hd; by apply elem_of_dom). rewrite forallb_forall in Hf. specialize (Hf t (proj1 (list_elem_of_In _ _) Hin)).
    by destruct (step (EGo t) s).
  - unfold step. by rewrite Et.
Qed.
End CONC.

#[global] Arguments Sys : clear implicits.
#[global] Arguments event : clear implicits.
#[global] Arguments hev : clear implicits.

(** ** The contract: every call has its effect at one instant *)

(** [None] while the call has to wait. *)
Class Atomic (A Call Val : Type) := apply_call : Call → A → option (Val * A).

(** The atomic object with its callers: a call that waits for its effect, or
    one that has had it and will return a value. *)
Section ATOMIC.
Context {A Call Val : Type} `{!Atomic A Call Val}.

Inductive ARun (α : A * gmap nat (Call + Val)) : list (hev Call Val) → A * gmap nat (Call + Val) → Prop :=
| arun_nil : ARun α [] α
| arun_call h a ph t c : ARun α h (a, ph) → ph !! t = None → ARun α (h ++ [HCall t c]) (a, <[t := inl c]> ph)
| arun_do h a ph t c v a' : ARun α h (a, ph) → ph !! t = Some (inl c) → apply_call c a = Some (v, a') → ARun α h (a', <[t := inr v]> ph)
| arun_ret h a ph t v : ARun α h (a, ph) → ph !! t = Some (inr v) → ARun α (h ++ [HRet t v]) (a, delete t ph).
End ATOMIC.

(** ** The proof rule *)

Definition bump (n : nat) (ss : gmap nat Z) : res (gmap nat Z) := v ← deref (ss !! n); Ok (<[n := v + 1]> ss).

(** An interrupt handler leads to a state where [Q] holds. *)
Definition handled {S Pos Call Val Int} `{!Code S Pos Call Val Int} (i : Int) (x : S) (ss : gmap nat Z) (Q : S → gmap nat Z → Prop) : Prop :=
  ∃ x' l ss', interrupt i x = Some (Ok (x', l)) ∧ foldM bump l ss = Ok ss' ∧ Q x' ss'.

(** A monitor with lock [L]: [own] says at which points a thread has the lock,
    [J] holds of the object, the semaphores and the abstract state while nobody
    has it, [K] at a point of the thread that has it; [pend] is the call that
    has not had its effect yet, or the value that it will return, and [wf] what
    holds of the arguments of a point. *)
Class Monitor (S Pos Call Val Int A : Type) `{!Code S Pos Call Val Int} `{!Atomic A Call Val} (L : nat) := {
  own : tstate Pos Val → bool;
  pend : Pos → Call + Val;
  J : S → gmap nat Z → A → Prop;
  K : tstate Pos Val → S → gmap nat Z → A → Prop;
  cond_of : nat → Prop;
  bad : Pos → S → Prop;
  wf : Pos → Prop;
  mo_entry c p : entry c = Ok p → own (At p) = false ∧ pend p = inl c ∧ wf p;
  mo_outside v : own (Outside v) = false;
  mo_op p : match op_of p with
    | Acquire l => l = L ∧ own (At p) = false ∧ own (Behind p) = true ∧ ∀ x ss a, J x ss a → K (Behind p) x ss a
    | Release l => l = L ∧ own (At p) = true ∧ own (Behind p) = false ∧ ∀ x ss a, K (At p) x ss a → J x ss a
    | Wait c l => l = L ∧ cond_of c ∧ own (At p) = true ∧ own (Asleep p) = false ∧ own (Behind p) = true
                  ∧ ∀ x ss a, (K (At p) x ss a → J x ss a) ∧ (J x ss a → K (Behind p) x ss a)
    | Signal c l => l = L ∧ cond_of c ∧ own (At p) = true ∧ own (Behind p) = true ∧ ∀ x ss a, K (At p) x ss a → K (Behind p) x ss a
    | P s => own (At p) = true ∧ own (Behind p) = true
             ∧ ∀ x ss a, K (At p) x ss a → ∃ v, ss !! s = Some v ∧ (v ≠ 0 → K (Behind p) x (<[s := v - 1]> ss) a)
    | V s => own (At p) = true ∧ own (Behind p) = true ∧ ∀ x ss a, K (At p) x ss a → ∃ v, ss !! s = Some v ∧ K (Behind p) x (<[s := v + 1]> ss) a
    end;
  mo_go p x ss a : wf p → own (Behind p) = true → K (Behind p) x ss a →
    (∃ x' p' a', go p x = Ok (x', inl p') ∧ own (At p') = true ∧ wf p' ∧ K (At p') x' ss a' ∧
       (pend p' = pend p ∧ a' = a ∨ ∃ c v, pend p = inl c ∧ pend p' = inr v ∧ apply_call c a = Some (v, a')))
    ∨ bad p x ∧ ∃ e, go p x = Err e;
  mo_free p x : wf p → own (Behind p) = false →
    ∃ n, go p x = Ok (x, n) ∧ match n with inl p' => own (At p') = false ∧ wf p' ∧ pend p' = pend p | inr v => pend p = inr v end;
  mo_int i x ss a r : interrupt i x = Some r →
    (J x ss a → handled i x ss (λ x ss, J x ss a)) ∧ ∀ ts, own ts = true → K ts x ss a → handled i x ss (λ x ss, K ts x ss a)
}.

Section MONITOR.
Context {S Pos Call Val Int A : Type} `{!Code S Pos Call Val Int} `{!Atomic A Call Val} {L : nat} `{!Monitor S Pos Call Val Int A L}.
Implicit Types (w : World S) (p : Pos) (t : nat) (s : Sys S Pos Val) (a : A).

(** The arguments of a thread's point. *)
Definition twf (ts : tstate Pos Val) : Prop := match ts with Outside _ => True | At p | Asleep p | Behind p => wf p end.

Record Ok_ s a : Prop := {
  ok_lock : ∃ h, locks (world s) !! L = Some h ∧
    match h with
    | None => J (obj (world s)) (sems (world s)) a
    | Some t => ∃ ts, threads s !! t = Some ts ∧ own ts = true ∧ K ts (obj (world s)) (sems (world s)) a
    end;
  ok_own t ts : threads s !! t = Some ts → own ts = true → locks (world s) !! L = Some (Some t);
  ok_asleep t p : threads s !! t = Some (Asleep p) → ∃ c l, op_of p = Wait c l;
  ok_conds c : cond_of c → is_Some (conds (world s) !! c);
  ok_wf t ts : threads s !! t = Some ts → twf ts
}.

(** What a thread owes its caller. *)
Definition tpend (ts : tstate Pos Val) : option (Call + Val) :=
  match ts with Outside _ => None | At p | Asleep p | Behind p => Some (pend p) end.

Definition phases (G : gmap nat (tstate Pos Val)) : gmap nat (Call + Val) := omap tpend G.

Lemma signal_all_sems (l : list nat) w ss' :
  foldM bump l (sems w) = Ok ss' → signal_all l w = Ok (mkWorld (obj w) ss' (locks w) (conds w)).
Proof.
  revert w. unfold signal_all. induction l as [|n l IH]; intros w E; cbn in E |- *; [injection E as <-; by destruct w|].
  apply bind_Ok in E as (ss&E1&E). unfold bump in E1. apply bind_Ok in E1 as (v&E1&[= <-]). rewrite E1. cbn. by apply (IH (set_sem n (v + 1) w)) in E.
Qed.

Lemma held_by_own t w : locks w !! L = Some (Some t) → held_by t L w = Ok tt.
Proof. intros E. unfold held_by. rewrite E. cbn. by rewrite bool_decide_true. Qed.

Lemma Ok_holder s a t ts : Ok_ s a → threads s !! t = Some ts → own ts = true → locks (world s) !! L = Some (Some t) ∧ K ts (obj (world s)) (sems (world s)) a.
Proof.
  intros HS Ht Ho. pose proof (ok_own _ _ HS t ts Ht Ho) as Hl. split; [done|]. destruct (ok_lock _ _ HS) as (h&Eh&Hh). rewrite Hl in Eh. injection Eh as <-.
  destruct Hh as (ts'&Ht'&_&HK). rewrite Ht in Ht'. by injection Ht' as <-.
Qed.

(** A step of the holder that keeps the lock. *)
Lemma Ok_keep s a a' t ts ts' x ss cs :
  Ok_ s a → threads s !! t = Some ts → own ts = true → own ts' = true → twf ts' → K ts' x ss a' → (∀ p, ts' ≠ Asleep p) → (∀ c, is_Some (conds (world s) !! c) → is_Some (cs !! c)) →
  Ok_ (mkSys (mkWorld x ss (locks (world s)) cs) (<[t := ts']> (threads s))) a'.
Proof.
  intros HS Ht Ho Ho' Hwf HK Hns Hcs. destruct (Ok_holder s a t ts HS Ht Ho) as [Hl _]. split; cbn.
  - exists (Some t). split; [done|]. exists ts'. by rewrite lookup_insert_eq.
  - intros t2 ts2 [[<- <-]|[Hne Ht2]]%lookup_insert_Some Ho2; [done|]. by apply (ok_own _ _ HS t2 ts2).
  - intros t2 p [[<- E]|[Hne Ht2]]%lookup_insert_Some; [by apply Hns in E|]. by apply (ok_asleep _ _ HS t2).
  - intros c Hc. by apply Hcs, (ok_conds _ _ HS).
  - intros t2 ts2 [[<- <-]|[Hne Ht2]]%lookup_insert_Some; [done|]. by apply (ok_wf _ _ HS t2).
Qed.

(** A step that gives the lock up. *)
Lemma Ok_leave s a t ts ts' cs :
  Ok_ s a → threads s !! t = Some ts → own ts = true → own ts' = false → twf ts' → J (obj (world s)) (sems (world s)) a →
  (∀ p, ts' = Asleep p → ∃ c l, op_of p = Wait c l) → (∀ c, is_Some (conds (world s) !! c) → is_Some (cs !! c)) →
  Ok_ (mkSys (mkWorld (obj (world s)) (sems (world s)) (<[L := None]> (locks (world s))) cs) (<[t := ts']> (threads s))) a.
Proof.
  intros HS Ht Ho Ho' Hwf HJ Hns Hcs. destruct (Ok_holder s a t ts HS Ht Ho) as [Hl _]. split; cbn.
  - exists None. by rewrite lookup_insert_eq.
  - intros t2 ts2 [[<- <-]|[Hne Ht2]]%lookup_insert_Some Ho2; [congruence|]. pose proof (ok_own _ _ HS t2 ts2 Ht2 Ho2). congruence.
  - intros t2 p [[<- E]|[Hne Ht2]]%lookup_insert_Some; [by apply Hns|]. by apply (ok_asleep _ _ HS t2).
  - intros c Hc. by apply Hcs, (ok_conds _ _ HS).
  - intros t2 ts2 [[<- <-]|[Hne Ht2]]%lookup_insert_Some; [done|]. by apply (ok_wf _ _ HS t2).
Qed.

(** A step that takes it. *)
Lemma Ok_take s a t ts' :
  Ok_ s a → locks (world s) !! L = Some None → own ts' = true → twf ts' → (J (obj (world s)) (sems (world s)) a → K ts' (obj (world s)) (sems (world s)) a) → (∀ p, ts' ≠ Asleep p) →
  Ok_ (mkSys (set_lock L (Some t) (world s)) (<[t := ts']> (threads s))) a.
Proof.
  intros HS Hl Ho' Hwf HK Hns. destruct (ok_lock _ _ HS) as (h&Eh&Hh). rewrite Hl in Eh. injection Eh as <-. split; cbn.
  - exists (Some t). rewrite lookup_insert_eq. split; [done|]. exists ts'. rewrite lookup_insert_eq. auto.
  - intros t2 ts2 [[<- <-]|[Hne Ht2]]%lookup_insert_Some Ho2; [by rewrite lookup_insert_eq|]. pose proof (ok_own _ _ HS t2 ts2 Ht2 Ho2). congruence.
  - intros t2 p [[<- E]|[Hne Ht2]]%lookup_insert_Some; [by apply Hns in E|]. by apply (ok_asleep _ _ HS t2).
  - intros c Hc. by apply (ok_conds _ _ HS).
  - intros t2 ts2 [[<- <-]|[Hne Ht2]]%lookup_insert_Some; [done|]. by apply (ok_wf _ _ HS t2).
Qed.

(** A step outside the lock. *)
Lemma Ok_outside s a t ts' :
  Ok_ s a → own (default (Outside None) (threads s !! t)) = false → own ts' = false → twf ts' → (∀ p, ts' ≠ Asleep p) → Ok_ (mkSys (world s) (<[t := ts']> (threads s))) a.
Proof.
  intros HS Ho Ho' Hwf Hns. destruct (ok_lock _ _ HS) as (h&Eh&Hh). split; cbn.
  - exists h. split; [done|]. destruct h as [t2|]; [|done]. destruct Hh as (ts2&Ht2&Ho2&HK). exists ts2. split; [|done]. rewrite lookup_insert_ne; [done|]. intros <-. rewrite Ht2 in Ho. cbn in Ho. congruence.
  - intros t2 ts2 [[<- <-]|[Hne Ht2]]%lookup_insert_Some Ho2; [congruence|]. by apply (ok_own _ _ HS t2 ts2).
  - intros t2 p [[<- E]|[Hne Ht2]]%lookup_insert_Some; [by apply Hns in E|]. by apply (ok_asleep _ _ HS t2).
  - intros c Hc. by apply (ok_conds _ _ HS).
  - intros t2 ts2 [[<- <-]|[Hne Ht2]]%lookup_insert_Some; [done|]. by apply (ok_wf _ _ HS t2).
Qed.

(** ** The callers' view *)

Lemma phases_lookup (G : gmap nat (tstate Pos Val)) t : phases G !! t = G !! t ≫= tpend.
Proof. apply lookup_omap. Qed.

Lemma phases_insert (G : gmap nat (tstate Pos Val)) t ts :
  phases (<[t := ts]> G) = match tpend ts with Some x => <[t := x]> (phases G) | None => delete t (phases G) end.
Proof. unfold phases. rewrite omap_insert. by destruct (tpend ts). Qed.

(** The contract can follow a step. *)
Definition follows (e : event Call Int) s a s' a' : Prop :=
  ∀ α h, ARun α h (a, phases (threads s)) → ARun α (h ++ visible e s') (a', phases (threads s')).

Lemma follows_same s a w t ts ts' : threads s !! t = Some ts → tpend ts' = tpend ts → is_Some (tpend ts) → follows (EGo t) s a (mkSys w (<[t := ts']> (threads s))) a.
Proof.
  intros Ht E [x Hx] α h HR. cbn. rewrite lookup_insert_eq, phases_insert, E, Hx, insert_id by (by rewrite phases_lookup, Ht).
  rewrite Hx in E. destruct ts'; [done|..]; by rewrite app_nil_r.
Qed.

Lemma follows_call s a t p c : threads s !! t ≫= tpend = None → pend p = inl c → follows (ECall t c) s a (mkSys (world s) (<[t := At p]> (threads s))) a.
Proof. intros Ht Ep α h HR. cbn. rewrite phases_insert. cbn. rewrite Ep. apply arun_call; [done|]. by rewrite phases_lookup. Qed.

Lemma follows_do s a a' w t p p' c v :
  threads s !! t = Some (Behind p) → pend p = inl c → pend p' = inr v → apply_call c a = Some (v, a') → follows (EGo t) s a (mkSys w (<[t := At p']> (threads s))) a'.
Proof.
  intros Ht Ep Ep' Ea α h HR. cbn. rewrite lookup_insert_eq, app_nil_r, phases_insert. cbn. rewrite Ep'. eapply arun_do; [done| |done]. rewrite phases_lookup, Ht. cbn. by rewrite Ep.
Qed.

Lemma follows_ret s a w t p v : threads s !! t = Some (Behind p) → pend p = inr v → follows (EGo t) s a (mkSys w (<[t := Outside (Some v)]> (threads s))) a.
Proof. intros Ht Ep α h HR. cbn. rewrite lookup_insert_eq, phases_insert. cbn. apply arun_ret; [done|]. rewrite phases_lookup, Ht. cbn. by rewrite Ep. Qed.

(** ** Steps *)

Lemma sem_conds (w : World S) c q cs : conds w = cs → ∀ c', is_Some (cs !! c') → is_Some (<[c := q]> cs !! c').
Proof. intros _ c' Hc. destruct (decide (c = c')) as [<-|Hne]; [by rewrite lookup_insert_eq|by rewrite lookup_insert_ne]. Qed.

(** The operation of a thread: it succeeds or waits, and keeps [Ok_]. *)
Lemma Ok_op s a t p r :
  Ok_ s a → threads s !! t = Some (At p) → advance t (do_op t (op_of p) (world s)) (match op_of p with Wait _ _ => Asleep p | _ => Behind p end) s = Some r →
  ∃ w ts', r = Ok (mkSys w (<[t := ts']> (threads s))) ∧ tpend ts' = Some (pend p) ∧ Ok_ (mkSys w (<[t := ts']> (threads s))) a.
Proof.
  intros HS Ht E. pose proof (ok_wf _ _ HS t _ Ht : wf p) as Hwf. pose proof (mo_op p) as Hp. destruct (op_of p) as [n|n|l|l|c l|c l] eqn:Eo; cbn [do_op advance] in E.
  - destruct Hp as (Ho&Ho'&HK). destruct (Ok_holder s a t _ HS Ht Ho) as [Hl HKp]. destruct (HK _ _ _ HKp) as (v&Ev&HKb). rewrite Ev in E. cbn in E.
    destruct (Z.eqb_spec v 0); [done|]. injection E as <-. eexists _, _. split; [done|]. split; [done|]. by apply (Ok_keep s a a t (At p)); [..|auto|done|].
  - destruct Hp as (Ho&Ho'&HK). destruct (Ok_holder s a t _ HS Ht Ho) as [Hl HKp]. destruct (HK _ _ _ HKp) as (v&Ev&HKb). rewrite Ev in E. cbn in E.
    injection E as <-. eexists _, _. split; [done|]. split; [done|]. by apply (Ok_keep s a a t (At p)); [..|done|].
  - destruct Hp as (->&Ho&Ho'&HK). destruct (ok_lock _ _ HS) as (h&Eh&_). rewrite Eh in E. cbn in E. destruct h; [done|]. injection E as <-. eexists _, _. split; [done|]. split; [done|].
    apply Ok_take; try done. apply HK.
  - destruct Hp as (->&Ho&Ho'&HK). destruct (Ok_holder s a t _ HS Ht Ho) as [Hl HKp]. rewrite (held_by_own t _ Hl) in E. cbn in E. injection E as <-. eexists _, _. split; [done|]. split; [done|].
    apply (Ok_leave s a t (At p)); try done. by apply HK.
  - destruct Hp as (->&Hc&Ho&Hoa&Ho'&HK). destruct (Ok_holder s a t _ HS Ht Ho) as [Hl HKp]. rewrite (held_by_own t _ Hl) in E. cbn in E.
    destruct (ok_conds _ _ HS c Hc) as [q Eq]. rewrite Eq in E. cbn in E. injection E as <-. eexists _, _. split; [done|]. split; [done|].
    apply (Ok_leave s a t (At p)); try done; [by apply HK|intros ? [= <-]; eauto|]. by apply (sem_conds (world s)).
  - destruct Hp as (->&Hc&Ho&Ho'&HK). destruct (Ok_holder s a t _ HS Ht Ho) as [Hl HKp]. rewrite (held_by_own t _ Hl) in E. cbn in E.
    destruct (ok_conds _ _ HS c Hc) as [q Eq]. rewrite Eq in E. cbn in E. injection E as <-. eexists _, _. split; [done|]. split; [done|].
    apply (Ok_keep s a a t (At p)); try done; [by apply HK|]. by apply (sem_conds (world s)).
Qed.

Lemma Ok_wake s a t p c l r :
  Ok_ s a → threads s !! t = Some (Asleep p) → op_of p = Wait c l → advance t (wake t c l (world s)) (Behind p) s = Some r →
  ∃ w ts', r = Ok (mkSys w (<[t := ts']> (threads s))) ∧ tpend ts' = Some (pend p) ∧ Ok_ (mkSys w (<[t := ts']> (threads s))) a.
Proof.
  intros HS Ht Eo E. pose proof (ok_wf _ _ HS t _ Ht : wf p) as Hwf. pose proof (mo_op p) as Hp. rewrite Eo in Hp. destruct Hp as (->&Hc&_&_&Ho'&HK). unfold wake in E.
  destruct (ok_conds _ _ HS c Hc) as [q Eq]. destruct (ok_lock _ _ HS) as (h&Eh&_). rewrite Eq, Eh in E. cbn [mbind res_bind deref] in E. destruct h; [done|]. case_bool_decide; [done|]. injection E as <-.
  eexists _, _. split; [done|]. split; [done|]. apply Ok_take; try done. apply HK.
Qed.

Lemma Ok_run s a t p r :
  Ok_ s a → threads s !! t = Some (Behind p) → ('(w, ts) ← run_on p (world s); Ok (mkSys w (<[t := ts]> (threads s)))) = r →
  (∃ s' a', r = Ok s' ∧ Ok_ s' a' ∧ follows (EGo t) s a s' a') ∨ bad p (obj (world s)) ∧ ∃ e, r = Err e.
Proof.
  intros HS Ht <-. pose proof (ok_wf _ _ HS t _ Ht : wf p) as Hwf. unfold run_on. destruct (own (Behind p)) eqn:Ho.
  - destruct (Ok_holder s a t _ HS Ht Ho) as [Hl HK]. destruct (mo_go p _ _ _ Hwf Ho HK) as [(x'&p'&a'&Eg&Ho'&Hwf'&HK'&Hpend)|[Hb [e Eg]]]; rewrite Eg; cbn; [left|right; split; [done|by exists e]].
    eexists _, a'. split; [done|]. split; [by apply (Ok_keep s a a' t (Behind p))|].
    destruct Hpend as [[Ep ->]|(c&v&E1&E2&E3)]; [eapply follows_same; [done|cbn; by rewrite Ep|by eexists]|by eapply follows_do].
  - left. destruct (mo_free p (obj (world s)) Hwf Ho) as (n&Eg&Hn). rewrite Eg. cbn. eexists _, a. split; [done|]. replace (set_obj (obj (world s)) (world s)) with (world s) by (by destruct (world s)).
    split; [apply Ok_outside; [done|by rewrite Ht| | |by destruct n]; destruct n; [apply Hn|apply mo_outside|apply Hn|done]|].
    destruct n as [p'|v]; [eapply follows_same; [done|cbn; by destruct Hn as (_&_&->)|by eexists]|by eapply follows_ret].
Qed.

Lemma Ok_int s a i r : Ok_ s a → interrupt i (obj (world s)) = Some r →
  ∃ w, ('(x, ss) ← r; w ← signal_all ss (set_obj x (world s)); Ok (mkSys w (threads s))) = Ok (mkSys w (threads s)) ∧ Ok_ (mkSys w (threads s)) a.
Proof.
  intros HS Er. destruct (mo_int i (obj (world s)) (sems (world s)) a r Er) as [HJ HK]. destruct (ok_lock _ _ HS) as (h&Eh&Hh).
  assert (∃ x' l ss', r = Ok (x', l) ∧ foldM bump l (sems (world s)) = Ok ss' ∧ match h with None => J x' ss' a | Some t => ∃ ts, threads s !! t = Some ts ∧ own ts = true ∧ K ts x' ss' a end)
    as (x'&l&ss'&->&Ef&HQ).
  { destruct h as [t|].
    - destruct Hh as (ts&Ht&Ho&HKt). destruct (HK ts Ho HKt) as (x'&l&ss'&E1&E2&E3). rewrite Er in E1. injection E1 as ->. exists x', l, ss'. do 2 (split; [done|]). by exists ts.
    - destruct (HJ Hh) as (x'&l&ss'&E1&E2&E3). rewrite Er in E1. injection E1 as ->. by exists x', l, ss'. }
  cbn. rewrite (signal_all_sems l (set_obj x' (world s)) ss') by done. cbn. eexists. split; [done|]. split; cbn.
  - by exists h.
  - apply (ok_own _ _ HS).
  - apply (ok_asleep _ _ HS).
  - apply (ok_conds _ _ HS).
  - apply (ok_wf _ _ HS).
Qed.

(** A call whose first checks fail, or code that fails at its point. *)
Definition goes_wrong (e : event Call Int) s : Prop :=
  match e with
  | ECall t c => ∃ f, entry c = Err f
  | EGo t => ∃ p, threads s !! t = Some (Behind p) ∧ bad p (obj (world s))
  | EInt _ => False
  end.

(** A step of a monitor fails only in bad conditions; the assertions hold again
    after it, and the contract can follow it. *)
Lemma monitor_step s a e r :
  Ok_ s a → step e s = Some r → (∃ s' a', r = Ok s' ∧ Ok_ s' a' ∧ follows e s a s' a') ∨ goes_wrong e s ∧ ∃ f, r = Err f.
Proof.
  intros HS E. destruct e as [t c|t|i]; cbn in E.
  - destruct (default _ _) as [v| | |] eqn:Et; try done. destruct (entry c) as [p|f] eqn:Ec; injection E as <-; [left|right; split; [by exists f|by eexists]].
    destruct (mo_entry c p Ec) as (Ho&Hp&Hwf). eexists _, a. split; [done|]. split; [apply Ok_outside; try done; by rewrite Et, mo_outside|].
    apply follows_call; [|done]. destruct (threads s !! t) as [ts|]; [|done]. cbn in Et |- *. by subst ts.
  - destruct (threads s !! t) as [[v|p|p|p]|] eqn:Et; cbn in E; try done.
    + left. destruct (Ok_op s a t p r HS Et E) as (w&ts'&->&Hp&HS'). eexists _, a. split; [done|]. split; [done|]. by eapply follows_same.
    + left. destruct (op_of p) eqn:Eo; try done. destruct (Ok_wake s a t p _ _ r HS Et Eo E) as (w&ts'&->&Hp&HS'). eexists _, a. split; [done|]. split; [done|]. by eapply follows_same.
    + injection E as E. destruct (Ok_run s a t p r HS Et E) as [?|[? ?]]; [by left|right]. split; [by exists p|done].
  - left. destruct (interrupt i (obj (world s))) as [r'|] eqn:Er; [|done]. injection E as <-. destruct (Ok_int s a i r' HS Er) as (w&->&?). eexists _, a. split; [done|]. split; [done|].
    intros α h HR. cbn. by rewrite app_nil_r.
Qed.

Lemma monitor_next s a e s' : Ok_ s a → step e s = Some (Ok s') → ∃ a', Ok_ s' a' ∧ follows e s a s' a'.
Proof. intros HS E. destruct (monitor_step s a e _ HS E) as [(s2&a'&[= <-]&?&?)|[_ [f ?]]]; [by exists a'|done]. Qed.

(** Every history of the code is one of the contract. *)
Lemma monitor_refines s0 a0 h s :
  Ok_ s0 a0 → threads s0 = ∅ → Run s0 h s → ∃ a, Ok_ s a ∧ ARun (a0, ∅) h (a, phases (threads s)).
Proof.
  intros HS E0 HR. induction HR as [|h s1 e s2 HR IH E].
  - exists a0. split; [done|]. rewrite E0. unfold phases. rewrite omap_empty. constructor.
  - destruct IH as (a1&HS1&HA). destruct (monitor_next s1 a1 e s2 HS1 E) as (a2&HS2&HF). exists a2. split; [done|]. by apply HF.
Qed.

Lemma monitor_run s0 a0 h s : Ok_ s0 a0 → Run s0 h s → ∃ a, Ok_ s a.
Proof. intros HS HR. induction HR as [|h s1 e s2 _ IH E]; [by exists a0|]. destruct IH as [a1 HS1]. destruct (monitor_next s1 a1 e s2 HS1 E) as (a2&?&_). by exists a2. Qed.

Lemma monitor_safe s0 a0 h s e f : Ok_ s0 a0 → Run s0 h s → step e s = Some (Err f) → goes_wrong e s.
Proof. intros HS HR E. destruct (monitor_run s0 a0 h s HS HR) as [a HSa]. by destruct (monitor_step s a e _ HSa E) as [(?&?&?&_)|[? _]]. Qed.

(** ** Who waits *)

(** The holder of the lock can always go on, when it does not wait on a
    semaphore. *)
Lemma holder_steps s a t : Ok_ s a → locks (world s) !! L = Some (Some t) →
  is_Some (step (EGo t) s) ∨ ∃ p n, threads s !! t = Some (At p) ∧ op_of p = P n ∧ sems (world s) !! n = Some 0 ∧ K (At p) (obj (world s)) (sems (world s)) a.
Proof.
  intros HS Hl. destruct (ok_lock _ _ HS) as (h&Eh&Hh). rewrite Hl in Eh. injection Eh as <-. destruct Hh as (ts&Ht&Ho&HK). cbn. rewrite Ht. cbn.
  destruct ts as [v|p|p|p].
  - by rewrite mo_outside in Ho.
  - pose proof (mo_op p) as Hp. destruct (op_of p) as [n|n|l|l|c l|c l] eqn:Eo; cbn [do_op].
    + destruct Hp as (_&_&HKP). destruct (HKP _ _ _ HK) as (v&Ev&_). rewrite Ev. cbn. destruct (Z.eqb_spec v 0) as [->|]; [right; by exists p, n|left; by eexists].
    + destruct Hp as (_&_&HKV). destruct (HKV _ _ _ HK) as (v&Ev&_). rewrite Ev. left. by eexists.
    + destruct Hp as (_&Hn&_). congruence.
    + destruct Hp as (->&_). rewrite held_by_own by done. left. by eexists.
    + destruct Hp as (->&Hc&_). rewrite held_by_own by done. destruct (ok_conds _ _ HS c Hc) as [q Eq]. cbn. rewrite Eq. left. by eexists.
    + destruct Hp as (->&Hc&_). rewrite held_by_own by done. destruct (ok_conds _ _ HS c Hc) as [q Eq]. cbn. rewrite Eq. left. by eexists.
  - destruct (ok_asleep _ _ HS t p Ht) as (c&l&Eo). pose proof (mo_op p) as Hp. rewrite Eo in Hp. destruct Hp as (_&_&_&Hn&_). congruence.
  - left. by eexists.
Qed.

(** A thread waits on the condition of [p] and has not been signalled. *)
Definition waits s t p : Prop := threads s !! t = Some (Asleep p) ∧ ∃ c l q, op_of p = Wait c l ∧ conds (world s) !! c = Some q ∧ t ∈ q.

(** When no thread can go on, a thread inside waits on a condition, or one
    holds the lock and waits on a semaphore. *)
Lemma stuck_asleep s a : Ok_ s a → (∀ t, step (EGo t) s = None) →
  (∃ t p n, threads s !! t = Some (At p) ∧ op_of p = P n ∧ sems (world s) !! n = Some 0 ∧ K (At p) (obj (world s)) (sems (world s)) a) ∨
  locks (world s) !! L = Some None ∧ ∀ t ts, threads s !! t = Some ts → (∃ v, ts = Outside v) ∨ ∃ p, ts = Asleep p ∧ waits s t p.
Proof.
  intros HS Hst. destruct (ok_lock _ _ HS) as ([t|]&El&_).
  { left. destruct (holder_steps s a t HS El) as [[r E]|(p&n&?)]; [by rewrite Hst in E|by exists t, p, n]. }
  right. split; [done|]. intros t ts Ht.
  assert (own ts = false) as Hno. { destruct (own ts) eqn:Ho; [|done]. pose proof (ok_own _ _ HS t ts Ht Ho). congruence. }
  specialize (Hst t). cbn in Hst. rewrite Ht in Hst. cbn in Hst. destruct ts as [v|p|p|p]; [left; by exists v|..|done].
  - exfalso. pose proof (mo_op p) as Hp. destruct (op_of p) eqn:Eo.
    1,2,4,5,6: destruct_and?; congruence.
    destruct Hp as (->&_). cbn in Hst. by rewrite El in Hst.
  - right. exists p. split; [done|]. split; [done|]. destruct (ok_asleep _ _ HS t p Ht) as (c&l&Eo). pose proof (mo_op p) as Hp. rewrite Eo in Hp, Hst. destruct Hp as (->&Hc&_).
    destruct (ok_conds _ _ HS c Hc) as [q Eq]. unfold wake in Hst. rewrite Eq, El in Hst. cbn [mbind res_bind deref] in Hst. exists c, L, q. do 2 (split; [done|]). destruct (decide (t ∈ q)); [done|]. by rewrite bool_decide_false in Hst.
Qed.
End MONITOR.
End Conc.
