(* ===== verification/SynchList.v ===== *)
(** threads/synchlist.{h,cc}: a list with a lock and a condition variable.

    The list is any implementation of the interface ListADT; the code is a
    monitor in the sense of Conc.v, with lock 0 and condition 0 (listEmpty).
    The contract is a queue: [synchlist_refines_queue] shows that the histories
    of Append, RemoveFront and Apply are those of a queue whose operations
    happen at one instant, and that only the Append of an item that is in the
    list already can fail;
    [synchlist_no_lost_wakeup] shows that nobody is left waiting beside an item.  The
    function of Apply is represented by the items it is handed, in order.  The
    self test is not modelled. *)

From S2P Require Import Prelude LinkedList ListADT Conc.

Module SynchList.
Import Conc.

Section CODE.
Context {T L It : Type} `{EqDecision T} `{!ListADT T L It}.

Inductive call := Append (item : T) | RemoveFront | Apply.
Inductive val := Done | Item (item : T) | Visited (items : list T).

Inductive pos :=
| AppendAcquire (item : T)     (* lock->Acquire() *)
| AppendSignal                 (* listEmpty->Signal(lock) *)
| AppendRelease                (* lock->Release() *)
| RemoveAcquire                (* lock->Acquire() *)
| RemoveWait                   (* listEmpty->Wait(lock) *)
| RemoveRelease (item : T)     (* lock->Release() *)
| ApplyAcquire                 (* lock->Acquire() *)
| ApplyRelease (items : list T). (* lock->Release() *)

(** The loop of RemoveFront, from its test, and the removal behind it. *)
Definition remove_loop (list : L) : res (L * (pos + val)) :=
  if lst_isEmpty list then Ok (list, inl RemoveWait)
  else '(item, list) ← lst_removeFront list; Ok (list, inl (RemoveRelease item)).

#[global] Instance SynchList_code : Code L pos call val Empty_set := {
  entry c := Ok (match c with Append item => AppendAcquire item | RemoveFront => RemoveAcquire | Apply => ApplyAcquire end);
  op_of p := match p with
    | AppendAcquire _ | RemoveAcquire | ApplyAcquire => Acquire 0
    | AppendSignal => Signal 0 0
    | AppendRelease | RemoveRelease _ | ApplyRelease _ => Release 0
    | RemoveWait => Wait 0 0
    end;
  go p list := match p with
    | AppendAcquire item => list ← lst_append item list; Ok (list, inl AppendSignal)
    | AppendSignal => Ok (list, inl AppendRelease)
    | AppendRelease => Ok (list, inr Done)
    | RemoveAcquire | RemoveWait => remove_loop list
    | RemoveRelease item => Ok (list, inr (Item item))
    | ApplyAcquire => items ← lst_apply _ (λ item items, Ok (items ++ [item])) list []; Ok (list, inl (ApplyRelease items))
    | ApplyRelease items => Ok (list, inr (Visited items))
    end;
  interrupt i list := None
}.

(** The constructor. *)
Definition new_SynchList : Sys L pos val :=
  mkSys (mkWorld lst_new ∅ {[0%nat := None]} {[0%nat := []]}) ∅.

(** ** The contract *)

#[global] Instance Queue : Atomic (list T) call val := λ c q,
  match c, q with
  | Append item, _ => Some (Done, q ++ [item])
  | RemoveFront, [] => None
  | RemoveFront, item :: q => Some (Item item, q)
  | Apply, _ => Some (Visited q, q)
  end.

(** ** The monitor *)

Definition holds_lock (ts : tstate pos val) : bool :=
  match ts with
  | At (AppendSignal | AppendRelease | RemoveWait | RemoveRelease _ | ApplyRelease _) => true
  | Behind (AppendAcquire _ | AppendSignal | RemoveAcquire | RemoveWait | ApplyAcquire) => true
  | _ => false
  end.

Definition pending (p : pos) : call + val :=
  match p with
  | AppendAcquire item => inl (Append item)
  | AppendSignal | AppendRelease => inr Done
  | RemoveAcquire | RemoveWait => inl RemoveFront
  | RemoveRelease item => inr (Item item)
  | ApplyAcquire => inl Apply
  | ApplyRelease items => inr (Visited items)
  end.

(** Append of an item that is in the list. *)
Definition duplicate (p : pos) (list : L) : Prop :=
  match p with AppendAcquire item => ∃ xs, lst_rep list xs ∧ item ∈ xs | _ => False end.

Lemma remove_loop_ok list xs : lst_rep list xs →
  match xs with
  | [] => remove_loop list = Ok (list, inl RemoveWait)
  | x :: xs => ∃ list', remove_loop list = Ok (list', inl (RemoveRelease x)) ∧ lst_rep list' xs
  end.
Proof.
  intros HR. unfold remove_loop. rewrite (lst_isEmpty_ok _ _ HR). destruct xs as [|x xs]; [done|].
  destruct (lst_removeFront_ok _ _ _ HR) as (list'&E&HR'). rewrite bool_decide_false by done. rewrite E. by exists list'.
Qed.

Lemma apply_visits (list : L) xs : lst_rep list xs → lst_apply _ (λ item items, Ok (items ++ [item])) list [] = Ok xs.
Proof.
  intros HR. rewrite (lst_apply_ok _ _ _ _ _ HR). enough (∀ acc, foldM (λ item items, Ok (items ++ [item])) xs acc = Ok (acc ++ xs)) as HF by apply (HF []). clear HR.
  induction xs as [|x xs IH]; intros acc; cbn; [by rewrite app_nil_r|]. rewrite IH. by rewrite <- app_assoc.
Qed.

(** A thread that goes to wait has seen the list without items. *)
Definition seen (ts : tstate pos val) (l : L) (q : list T) : Prop :=
  lst_rep l q ∧ match ts with At RemoveWait => q = [] | _ => True end.

#[global] Program Instance SynchList_monitor : Monitor L pos call val Empty_set (list T) 0 := {
  own := holds_lock;
  pend := pending;
  J list _ q := lst_rep list q;
  K ts list _ q := seen ts list q;
  cond_of c := c = 0%nat;
  bad := duplicate;
  wf _ := True
}.
Next Obligation. intros c p E. cbn in E. injection E as <-. by destruct c. Qed.
Next Obligation. done. Qed.
Next Obligation. intros []; cbn; unfold seen; naive_solver. Qed.
Next Obligation.
  intros p list _ q _ Ho [HR _]. destruct p as [x| | | | |x| |items]; try done; cbn.
  - destruct (decide (x ∈ q)) as [Hin|Hni].
    + right. split; [by exists q|]. rewrite (lst_append_dup _ _ _ HR Hin). by eexists.
    + left. destruct (lst_append_ok _ _ _ HR Hni) as (l'&E&HR'). rewrite E. eexists _, _, _. do 4 (split; [done|]). right. by eexists _, _.
  - left. eexists _, _, _. do 4 (split; [done|]). by left.
  - left. pose proof (remove_loop_ok _ _ HR) as HL. destruct q as [|x q]; [rewrite HL|destruct HL as (l'&E&HR'); rewrite E]; eexists _, _, _; (do 4 (split; [done|])); [by left|right; by eexists _, _].
  - left. pose proof (remove_loop_ok _ _ HR) as HL. destruct q as [|x q]; [rewrite HL|destruct HL as (l'&E&HR'); rewrite E]; eexists _, _, _; (do 4 (split; [done|])); [by left|right; by eexists _, _].
  - left. rewrite (apply_visits _ _ HR). eexists _, _, _. do 4 (split; [done|]). right. by eexists _, _.
Qed.
Next Obligation. intros p list _ Ho. destruct p; try done; cbn; by eexists. Qed.
Next Obligation. done. Qed.

Lemma new_list_ok : Ok_ (L := 0) new_SynchList [].
Proof.
  split; cbn.
  - exists None. split; [done|]. apply lst_new_ok.
  - done.
  - done.
  - intros c ->. by eexists.
  - done.
Qed.

(** ** Wakeups *)

(** Threads that wait or will look at the list again, and those that are about
    to signal. *)
Definition attends (ts : tstate pos val) : Z :=
  match ts with Asleep RemoveWait | Behind RemoveWait | At AppendSignal => 1 | _ => 0 end.

(** While threads wait, each item that is in the list has somebody else who has
    been signalled or is going to signal. *)
Record Attended (s : Sys L pos val) (q : list nat) : Prop := {
  at_queue : conds (world s) !! 0%nat = Some q;
  at_NoDup : NoDup q;
  at_asleep t : t ∈ q → threads s !! t = Some (Asleep RemoveWait);
  at_count : q ≠ [] → lst_num (obj (world s)) + Z.of_nat (length q) ≤ cnt attends (threads s)
}.

Lemma attends_nonneg ts : 0 ≤ attends ts.
Proof. destruct ts as [v|p|p|p]; [done|..]; by destruct p. Qed.

Lemma Attended_insert s q x ss ls t ts :
  Attended s q → t ∉ q → lst_num x - lst_num (obj (world s)) ≤ attends ts - from_option attends 0 (threads s !! t) →
  Attended (mkSys (mkWorld x ss ls (conds (world s))) (<[t := ts]> (threads s))) q.
Proof.
  intros [Hq HN Ha Hc] Ht Hd. split; cbn; try done.
  - intros t' Ht'. rewrite lookup_insert_ne; [by apply Ha|]. by intros ->.
  - intros Hne. rewrite cnt_insert. specialize (Hc Hne). lia.
Qed.

(** A list without items is attended whatever the threads do. *)
Lemma Attended_empty s q x ss ls t ts :
  Attended s q → t ∉ q → lst_num x = 0 → Attended (mkSys (mkWorld x ss ls (conds (world s))) (<[t := ts]> (threads s))) q.
Proof.
  intros [Hq HN Ha Hc] Ht Hx. assert (∀ t', t' ∈ q → <[t := ts]> (threads s) !! t' = Some (Asleep RemoveWait)) as Ha'.
  { intros t' Ht'. rewrite lookup_insert_ne; [by apply Ha|]. by intros ->. }
  split; cbn; try done. intros _. rewrite Hx. apply cnt_ge_length; [apply attends_nonneg|done|]. intros t' Ht'. exists (Asleep RemoveWait). split; [by apply Ha'|done].
Qed.

(** The loop of RemoveFront leaves the list without items or takes one out. *)
Lemma remove_loop_num list xs list' n : lst_rep list xs → remove_loop list = Ok (list', n) →
  (lst_num list' = 0 ∧ n = inl RemoveWait) ∨ ∃ x, lst_num list' = lst_num list - 1 ∧ n = inl (RemoveRelease x).
Proof.
  intros HR E. pose proof (remove_loop_ok _ _ HR) as HL. rewrite (lst_num_ok _ _ HR). destruct xs as [|x xs].
  - rewrite HL in E. injection E as <- <-. left. by rewrite (lst_num_ok _ _ HR).
  - destruct HL as (l'&E'&HR'). rewrite E' in E. injection E as <- <-. right. exists x. rewrite (lst_num_ok _ _ HR'). cbn [length]. split; [lia|done].
Qed.

Lemma not_asleep_not_queued s q t ts : Attended s q → threads s !! t = Some ts → ts ≠ Asleep RemoveWait → t ∉ q.
Proof. intros HA Ht Hne Hin. rewrite (at_asleep _ _ HA t Hin) in Ht. congruence. Qed.

(** An operation. *)
Lemma Attended_op s a q t p s' : Ok_ (L := 0) s a → Attended s q → threads s !! t = Some (At p) → step (Int := Empty_set) (EGo t) s = Some (Ok s') → ∃ q', Attended s' q'.
Proof.
  intros HS HA Ht E. pose proof (not_asleep_not_queued s q t _ HA Ht ltac:(done)) as Hni. cbn in E. rewrite Ht in E. cbn in E. unfold advance in E.
  destruct p; cbn [op_of SynchList_code do_op] in E.
  all: try (destruct (deref (locks (world s) !! 0%nat)) as [[?|]|]; try done; injection E as <-; exists q; apply Attended_insert; [done|done|rewrite Ht; cbn; lia]).
  all: destruct (held_by t 0 (world s)) as [[]|]; try done; cbn in E.
  all: try (injection E as <-; exists q; apply Attended_insert; [done|done|rewrite Ht; cbn; lia]).
  all: rewrite (at_queue _ _ HA) in E; cbn in E; injection E as <-; destruct HA as [Hq HN Ha Hc].
  - exists (tail q). split; cbn; [by rewrite lookup_insert_eq|by destruct q; [|apply NoDup_cons in HN as [_ ?]]| |].
    + intros t' Ht'. assert (t' ∈ q) by (destruct q; [done|by right]). rewrite lookup_insert_ne; [by apply Ha|]. by intros ->.
    + intros Hne. destruct q as [|t0 q]; [done|]. specialize (Hc ltac:(done)). rewrite cnt_insert, Ht. cbn [length tail attends from_option] in *. lia.
  - destruct (Ok_holder s a t (At RemoveWait) HS Ht eq_refl) as [_ [HR ->]]. exists (q ++ [t]). split; cbn; [by rewrite lookup_insert_eq| | |].
    + apply NoDup_app. split; [done|]. split; [|apply NoDup_singleton]. intros t' Ht' ->%list_elem_of_singleton. done.
    + intros t' [Ht'| ->%list_elem_of_singleton]%elem_of_app; [|by rewrite lookup_insert_eq]. rewrite lookup_insert_ne; [by apply Ha|]. by intros ->.
    + intros _. rewrite (lst_num_ok _ _ HR). apply (cnt_ge_length attends); [apply attends_nonneg| |].
      * apply NoDup_app. split; [done|]. split; [|apply NoDup_singleton]. intros t' Ht' ->%list_elem_of_singleton. done.
      * intros t' [Ht'| ->%list_elem_of_singleton]%elem_of_app; [|exists (Asleep RemoveWait); by rewrite lookup_insert_eq]. exists (Asleep RemoveWait). rewrite lookup_insert_ne; [split; [by apply Ha|done]|]. by intros ->.
Qed.

(** The code behind an operation. *)
Lemma Attended_run s a q t p s' : Ok_ (L := 0) s a → Attended s q → threads s !! t = Some (Behind p) → step (Int := Empty_set) (EGo t) s = Some (Ok s') → Attended s' q.
Proof.
  intros HS HA Ht E. pose proof (not_asleep_not_queued s q t _ HA Ht ltac:(done)) as Hni. cbn in E. rewrite Ht in E. cbn in E. injection E as E. unfold run_on in E.
  destruct (holds_lock (Behind p)) eqn:Ho.
  - destruct (Ok_holder s a t (Behind p) HS Ht Ho) as [_ [HR _]]. destruct p; try done; cbn [go SynchList_code] in E.
    + destruct (decide (item ∈ a)) as [Hin|Hna]; [by rewrite (lst_append_dup _ _ _ HR Hin) in E|]. destruct (lst_append_ok _ _ _ HR Hna) as (l'&El&HR'). rewrite El in E. cbn in E. injection E as <-.
      apply Attended_insert; [done|done|]. rewrite Ht, (lst_num_ok _ _ HR), (lst_num_ok _ _ HR'), length_app. cbn. lia.
    + injection E as <-. apply Attended_insert; [done|done|rewrite Ht; cbn; lia].
    + destruct (remove_loop (obj (world s))) as [[l' n]|] eqn:El; [|done]. cbn in E. injection E as <-.
      destruct (remove_loop_num _ _ _ _ HR El) as [[Hn ->]|(x&Hn&->)]; [by apply Attended_empty|]. apply Attended_insert; [done|done|rewrite Ht; cbn; lia].
    + destruct (remove_loop (obj (world s))) as [[l' n]|] eqn:El; [|done]. cbn in E. injection E as <-.
      destruct (remove_loop_num _ _ _ _ HR El) as [[Hn ->]|(x&Hn&->)]; [by apply Attended_empty|]. apply Attended_insert; [done|done|rewrite Ht; cbn; lia].
    + rewrite (apply_visits _ _ HR) in E. cbn in E. injection E as <-. apply Attended_insert; [done|done|rewrite Ht; cbn; lia].
  - destruct p; try done; cbn in E; injection E as <-; (apply Attended_insert; [done|done|rewrite Ht; cbn; lia]).
Qed.

Lemma Attended_step s a q e s' : Ok_ (L := 0) s a → Attended s q → step (Int := Empty_set) e s = Some (Ok s') → ∃ q', Attended s' q'.
Proof.
  intros HS HA E. destruct e as [t c|t|[]].
  - exists q. cbn in E. destruct (default _ _) as [v| | |] eqn:Et; try done. injection E as <-. replace (world s) with (mkWorld (obj (world s)) (sems (world s)) (locks (world s)) (conds (world s))) by (by destruct (world s)).
    apply Attended_insert; [done| |].
    + intros Hin. by rewrite (at_asleep _ _ HA t Hin) in Et.
    + destruct (threads s !! t) as [ts|]; cbn in Et |- *; [subst ts|]; cbn; destruct c; cbn; lia.
  - destruct (threads s !! t) as [[v|p|p|p]|] eqn:Et.
    1,5: cbn in E; by rewrite Et in E.
    + by eapply Attended_op.
    + exists q. cbn in E. rewrite Et in E. cbn in E. destruct p; try done. unfold advance, wake in E. rewrite (at_queue _ _ HA) in E. cbn [mbind res_bind deref op_of SynchList_code] in E.
      destruct (deref (locks (world s) !! 0%nat)) as [[?|]|]; try done. cbn [mbind res_bind] in E. destruct (bool_decide (t ∈ q)) eqn:Eb; cbn in E; [done|]. apply bool_decide_eq_false in Eb. injection E as <-.
      apply Attended_insert; [done|done|rewrite Et; cbn; lia].
    + exists q. by eapply Attended_run.
Qed.

Lemma run_attended h s : Run new_SynchList h s → ∃ a q, Ok_ (L := 0) s a ∧ Attended s q.
Proof.
  intros HR. induction HR as [|h s1 e s2 _ IH E].
  - exists [], []. split; [apply new_list_ok|]. split; cbn; try done; [apply NoDup_nil_2|]. by intros t ?%not_elem_of_nil.
  - destruct IH as (a&q&HS&HA). destruct (monitor_next s1 a e s2 HS E) as (a'&HS'&_). destruct (Attended_step s1 a q e s2 HS HA E) as [q' HA']. by exists a', q'.
Qed.
End CODE.

#[global] Arguments call : clear implicits.
#[global] Arguments val : clear implicits.
#[global] Arguments pos : clear implicits.

(** ** Theorems *)

Section THEOREMS.
Context {T L It : Type} `{EqDecision T} `{!ListADT T L It}.

(** No step of the synchronised list fails, whatever the
    interleaving, but the Append of an item that is in the list already. *)
Lemma synchlist_fails_on_duplicates (h : list (hev (call T) (val T))) (s : Sys L (pos T) (val T)) e f :
  Run new_SynchList h s → step e s = Some (Err f) →
  ∃ t item xs, e = EGo t ∧ threads s !! t = Some (Behind (AppendAcquire item)) ∧ lst_rep (obj (world s)) xs ∧ item ∈ xs.
Proof.
  intros HR E. pose proof (monitor_safe (L := 0) _ _ h s e f new_list_ok HR E) as HW. destruct e as [t c|t|[]]; [by destruct HW|].
  destruct HW as (p&Ht&Hb). destruct p; try done. destruct Hb as (xs&?&?). by exists t, item, xs.
Qed.

(** C23 (refinement): the synchronised list is a queue whose operations happen
    at one instant: for every history of calls and returns of any number of
    threads there is a run of the queue with the same history, in which each
    call has its effect exactly once between its start and its return, and
    RemoveFront returns the oldest item; and no step fails but the Append of an
    item that is in the list already. *)
Theorem synchlist_refines_queue (h : list (hev (call T) (val T))) (s : Sys L (pos T) (val T)) :
  Run new_SynchList h s →
  (∃ q ph, ARun ([], ∅) h (q, ph) ∧ (locks (world s) !! 0%nat = Some None → lst_rep (obj (world s)) q))
  ∧ ∀ e f, step e s = Some (Err f) → ∃ t item xs, e = EGo t ∧ threads s !! t = Some (Behind (AppendAcquire item)) ∧ lst_rep (obj (world s)) xs ∧ item ∈ xs.
Proof.
  intros HR. split; [|intros e f; by apply synchlist_fails_on_duplicates with h]. destruct (monitor_refines (L := 0) _ [] h s new_list_ok eq_refl HR) as (q&HS&HA). exists q, (phases (threads s)). split; [done|].
  intros Hl. destruct (ok_lock _ _ HS) as (o&Eo&Ho). rewrite Hl in Eo. by injection Eo as <-.
Qed.

(** No wakeup is lost: when no thread can go on, the lock is
    free, and every thread inside waits in RemoveFront for an item of a list
    without items. *)
Theorem synchlist_no_lost_wakeup (h : list (hev (call T) (val T))) (s : Sys L (pos T) (val T)) :
  Run new_SynchList h s → (∀ t, step (EGo t) s = None) →
  locks (world s) !! 0%nat = Some None ∧
  ∀ t ts, threads s !! t = Some ts → (∃ v, ts = Outside v) ∨ ts = Asleep RemoveWait ∧ lst_rep (obj (world s)) [].
Proof.
  intros HR Hst. destruct (run_attended h s HR) as (a&q&HS&HA). destruct (stuck_asleep s a HS Hst) as [(t&p&n&_&Eo&_)|[Hl Hw]]; [by destruct p|].
  split; [done|]. intros t ts Ht. destruct (Hw t ts Ht) as [?|(p&->&_&c&l&q'&Eo&Eq&Hin)]; [by left|right]. destruct p; try done. injection Eo as <- <-. split; [done|].
  rewrite (at_queue _ _ HA) in Eq. injection Eq as <-. destruct (ok_lock _ _ HS) as (o&Eo&Ho). rewrite Hl in Eo. injection Eo as <-. change (lst_rep (obj (world s)) a) in Ho.
  assert (cnt attends (threads s) ≤ Z.of_nat (length q)) as Hle.
  { apply cnt_le_length. intros t' g Hg. destruct (Hw t' g Hg) as [[v ->]|(p&->&_&c&l&q'&Eo&Eq&Hin')]; [cbn; by case_bool_decide|]. destruct p; try done. injection Eo as <- <-.
    rewrite (at_queue _ _ HA) in Eq. injection Eq as <-. by rewrite bool_decide_true. }
  pose proof (at_count _ _ HA ltac:(by intros ->; apply not_elem_of_nil in Hin)) as Hc. rewrite (lst_num_ok _ _ Ho) in Hc. destruct a as [|x a]; [done|]. cbn [length] in Hc. lia.
Qed.
End THEOREMS.

(** ** Witnesses: RemoveFront waits for an item, Append wakes it *)

Abbreviation ZList := (Sys (NList.List Z) (pos Z) (val Z)).

Definition start : ZList := new_SynchList.
Definition go_n (t n : nat) : list (event (call Z) Empty_set) := replicate n (EGo t).
Definition handover : list (event (call Z) Empty_set) := ECall 1 RemoveFront :: go_n 1 3 ++ ECall 2 (Append 7) :: go_n 2 6 ++ go_n 1 4.

Lemma handover_history : fst <$> exec handover start = Some [HCall 1 RemoveFront; HCall 2 (Append 7); HRet 2 Done; HRet 1 (Item 7)].
Proof. by vm_compute. Qed.

Lemma synchlist_refines_queue_witness :
  ∃ (s : ZList) q ph, ARun ([], ∅) [HCall 1 RemoveFront; HCall 2 (Append 7); HRet 2 Done; HRet 1 (Item 7)] (q, ph) ∧ (locks (world s) !! 0%nat = Some None → lst_rep (obj (world s)) q).
Proof.
  pose proof handover_history as E. destruct (exec handover start) as [[h s]|] eqn:Ee; [|done]. injection E as ->. exists s.
  exact (proj1 (synchlist_refines_queue _ s (exec_run handover _ _ _ Ee))).
Defined.

Definition twice : list (event (call Z) Empty_set) := ECall 1 (Append 7) :: go_n 1 6 ++ ECall 1 (Append 7) :: go_n 1 1.

Lemma synchlist_fails_on_duplicates_witness :
  ∃ (s : ZList) h, exec twice start = Some (h, s) ∧ step (EGo 1) s = Some (Err AssertFailed) ∧ ∃ xs, lst_rep (obj (world s)) xs ∧ 7 ∈ xs.
Proof.
  destruct (exec twice start) as [[h s]|] eqn:Ee; [|by vm_compute in Ee]. exists s, h. split; [done|].
  assert (step (EGo 1) s = Some (Err AssertFailed)) as Hs. { vm_compute in Ee. injection Ee as <- <-. by vm_compute. }
  split; [done|]. assert (threads s !! 1%nat = Some (Behind (AppendAcquire 7))) as Ht. { vm_compute in Ee. injection Ee as <- <-. by vm_compute. }
  destruct (synchlist_fails_on_duplicates h s (EGo 1) AssertFailed (exec_run _ _ _ _ Ee) Hs) as (t&item&xs&[= <-]&Ht'&HR&Hin). rewrite Ht in Ht'. injection Ht' as <-. by exists xs.
Defined.

Definition waiting : list (event (call Z) Empty_set) := ECall 1 RemoveFront :: go_n 1 3.

Lemma waiting_threads (s : ZList) h : exec waiting start = Some (h, s) → threads s = {[1%nat := Asleep RemoveWait]} ∧ step (EGo 1) s = None.
Proof. intros E. vm_compute in E. injection E as <- <-. split; [by vm_compute|by vm_compute]. Qed.

Lemma synchlist_no_lost_wakeup_witness : ∃ (s : ZList) h, exec waiting start = Some (h, s) ∧ (∀ t, step (EGo t) s = None) ∧ lst_rep (obj (world s)) [].
Proof.
  destruct (exec waiting start) as [[h s]|] eqn:Ee; [|by vm_compute in Ee]. destruct (waiting_threads s h Ee) as [Ht Hs]. exists s, h. split; [done|].
  assert (∀ t, step (EGo t) s = None) as Hst. { intros t. destruct (decide (t = 1%nat)) as [->|Hne]; [done|]. cbn. rewrite Ht. by rewrite lookup_singleton_ne. }
  split; [done|]. destruct (synchlist_no_lost_wakeup h s (exec_run _ _ _ _ Ee) Hst) as [_ Hw]. destruct (Hw 1%nat (Asleep RemoveWait)) as [[v ?]|[_ ?]]; [rewrite Ht; by rewrite lookup_singleton_eq|done|done].
Defined.
End SynchList.
