(* ===== verification/Hardware.v ===== *)
(** A machine with one device, for the monitors of Conc.v that use a device.

    The object of such a monitor is the simulation of Interrupt.v with the
    device as its only source of interrupts; [Tick] is what happens while other
    threads run ([Interrupt::OneTick]), [UntilDue] what happens when nobody can
    run ([Interrupt::Idle]).  An interrupt handler signals semaphores: [V_later]
    notes them in the device state, and [hardware] hands them on.
    [hardware_ok] says what the hardware does to the device. *)

From S2P Require Import Prelude LinkedList ListADT Machine Interrupt Conc.
Import Interrupt InterruptSpec.

Module Hardware.

Section HARDWARE.
Context {T L : Type}.
Context `{SA : !SortedADT (PendingInterrupt unit) PendingCompare L}.

(** The device, and the semaphores that its handler has signalled. *)
Abbreviation Sim := (Interrupt (T * list nat) L).
Implicit Types (s : Sim) (xs : list (PendingInterrupt unit)).

Definition device s : T := fst (dev s).
Definition set_device (d : T) s : Sim := set_dev (d, snd (dev s)) s.

(** [semaphore->V()] in an interrupt handler. *)
Definition V_later (n : nat) s : res Sim := Ok (set_dev (fst (dev s), snd (dev s) ++ [n]) s).

Definition new_sim (d : T) : Sim := set_level IntOn (new_Interrupt None (d, [])).

Inductive hw := Tick | UntilDue.

Section HANDLER.
Context (handler : Sim → res Sim).

(** At most two interrupts are looked at. *)
Definition fuel : nat := 2.

Definition drain s : Sim * list nat := (set_dev (fst (dev s), []) s, snd (dev s)).

Definition hardware (i : hw) s : option (res (Sim * list nat)) :=
  match i with
  | Tick => Some (s ← OneTick (λ _, handler) (λ s, Ok s) fuel s; Ok (drain s))
  | UntilDue =>
    match Idle (λ _, handler) fuel (set_level IntOff s) with
    | Ok None => None
    | Ok (Some s) => Some (Ok (drain (set_level IntOn s)))
    | Err e => Some (Err e)
    end
  end.

(** Between two events: interrupts are on, and [xs] are pending. *)
Record Calm s xs : Prop := {
  cm_rep : IRep s xs;
  cm_level : level s = IntOn;
  cm_handler : inHandler s = false;
  cm_yield : yieldOnReturn s = false;
  cm_time : 0 ≤ totalTicks (stats s);
  cm_signals : snd (dev s) = []
}.

Lemma new_sim_calm d : Calm (new_sim d) [].
Proof. split; try done. split; [apply srt_new_ok|constructor|done]. Qed.

(** The call of the handler. *)
Record Called (d : T) s : Prop := {
  ca_rep : IRep s [];
  ca_level : level s = IntOff;
  ca_handler : inHandler s = true;
  ca_yield : yieldOnReturn s = false;
  ca_time : 0 ≤ totalTicks (stats s);
  ca_dev : dev s = (d, [])
}.

(** A handler that returns, leaves the device in [d'] with [xs] pending, at most
    one interrupt and later than now, and has signalled [ss]. *)
Record Returned s (d' : T) xs (ss : list nat) s' : Prop := {
  re_rep : IRep s' xs;
  re_later : Forall (λ x, totalTicks (stats s) < when x) xs;
  re_few : (length xs ≤ 1)%nat;
  re_level : level s' = IntOff;
  re_handler : inHandler s' = true;
  re_yield : yieldOnReturn s' = false;
  re_time : totalTicks (stats s') = totalTicks (stats s);
  re_status : status s' = status s;
  re_dev : dev s' = (d', ss)
}.

(** What the handler does to a device in state [d]. *)
Definition Handles (d : T) (Q : T → list (PendingInterrupt unit) → list nat → Prop) : Prop :=
  ∀ s, Called d s → ∃ s' d' xs ss, handler s = Ok s' ∧ Returned s d' xs ss s' ∧ Q d' xs ss.

Lemma fire_one s d x Q :
  Handles d Q → IRep s [x] → level s = IntOff → yieldOnReturn s = false → inHandler s = true → 0 ≤ totalTicks (stats s) → dev s = (d, []) →
  ∃ s' d' xs ss, fire_due (λ _, handler) fuel s = Ok ([x], s') ∧ Returned s d' xs ss s' ∧ Q d' xs ss.
Proof.
  intros HQ HR Hl Hy Hh Ht Hd. unfold fuel. cbn [fire_due]. destruct (srt_removeFront_ok _ _ _ (ir_list _ _ HR)) as (p&->&Hp). cbn [mbind res_bind].
  destruct (HQ (set_pending p s)) as (s'&d'&xs&ss&->&HRe&HQ').
  { split; try done. split; [done|constructor|apply HR]. }
  cbn [mbind res_bind]. destruct HRe as [HR' Hlater Hfew Hl' Hh' Hy' Ht' Hs' Hd']. rewrite (srt_isEmpty_ok _ _ (ir_list _ _ HR')). exists s', d', xs, ss.
  split; [|by split]. destruct xs as [|y xs]; [by rewrite bool_decide_true|]. rewrite bool_decide_false by done. cbn [mbind res_bind].
  rewrite (srt_front_ok _ _ _ (ir_list _ _ HR')). cbn [mbind res_bind]. inversion Hlater as [|? ? Hy1 Hy2]; subst. cbn in Hy1. rewrite Ht', (proj2 (Z.leb_gt _ _)) by done. done.
Qed.

(** CheckIfDue with at most one interrupt pending. *)
Lemma check_few adv s d xs Q :
  (xs ≠ [] → Handles d Q) → IRep s xs → (length xs ≤ 1)%nat → level s = IntOff → yieldOnReturn s = false → inHandler s = false → 0 ≤ totalTicks (stats s) → dev s = (d, []) →
  CheckIfDue (λ _, handler) fuel adv s = Ok ([], s) ∧ (adv = true → xs = []) ∨
  ∃ x s1 s' d' xs' ss, xs = [x] ∧ CheckIfDue (λ _, handler) fuel adv s = Ok ([x], set_inHandler false s') ∧ status s1 = status s ∧ 0 ≤ totalTicks (stats s1) ∧ Returned s1 d' xs' ss s' ∧ Q d' xs' ss.
Proof.
  intros HQ HR Hx Hl Hy Hh Ht Hd. unfold CheckIfDue. rewrite bool_decide_true by done. cbn [ASSERT mbind res_bind]. rewrite (srt_isEmpty_ok _ _ (ir_list _ _ HR)).
  destruct xs as [|x [|? ?]]; [left; split; [by rewrite bool_decide_true|done]| |cbn in Hx; lia].
  rewrite bool_decide_false, (srt_front_ok _ _ _ (ir_list _ _ HR)) by done. cbn [mbind res_bind].
  destruct (_ && _) eqn:E; [left; split; [done|]; intros ->; by rewrite andb_false_r in E|right].
  set (s1 := if totalTicks (stats s) <? when x then _ else s).
  assert (IRep s1 [x] ∧ level s1 = IntOff ∧ yieldOnReturn s1 = false ∧ 0 ≤ totalTicks (stats s1) ∧ dev s1 = (d, []) ∧ status s1 = status s) as (HR1&Hl1&Hy1&Ht1&Hd1&Hs1).
  { subst s1. destruct (Z.ltb_spec (totalTicks (stats s)) (when x)); split_and!; try done; [by destruct HR|cbn; lia]. }
  clearbody s1. destruct (finish_load_ok s1 _ HR1) as (m&->&HR2). cbn [mbind res_bind].
  destruct (fire_one (set_inHandler true (set_machine m s1)) d x Q (HQ ltac:(done))) as (s'&d'&xs'&ss&->&HRe&HQ'); try done.
  { by apply (IRep_set (set_machine m s1) _ (set_inHandler true)). }
  cbn [mbind res_bind]. exists x, (set_inHandler true (set_machine m s1)), s', d', xs', ss. by split_and!.
Qed.

(** The state after an event in which the handler ran. *)
Lemma calm_after s1 s' d' xs ss st' :
  Returned s1 d' xs ss s' → 0 ≤ totalTicks (stats s1) → Calm (set_dev (d', []) (set_level IntOn (set_status st' (set_inHandler false s')))) xs.
Proof. intros [HR' Hlater Hfew Hl' Hh' Hy' Ht' Hs' Hd'] Ht. split; try done; [by destruct HR'|]. cbn. by rewrite Ht'. Qed.

(** What the hardware does: nothing to the device, or a call of its handler;
    with an interrupt pending it can always go on. *)
Lemma hardware_ok i s xs Q :
  Calm s xs → (length xs ≤ 1)%nat → (xs ≠ [] → Handles (device s) Q) →
  match hardware i s with
  | None => i = UntilDue ∧ xs = []
  | Some r => ∃ s' d' xs' ss, r = Ok (s', ss) ∧ Calm s' xs' ∧ (length xs' ≤ 1)%nat ∧ device s' = d' ∧ (i = Tick ∧ d' = device s ∧ xs' = xs ∧ ss = [] ∨ xs ≠ [] ∧ Q d' xs' ss)
  end.
Proof.
  intros [HR Hl Hh Hy Ht Hsg] Hx HQ. destruct (dev s) as [d sg] eqn:Hd. cbn in Hsg. subst sg. unfold device in *. rewrite Hd in HQ. cbn in HQ. destruct i; cbn [hardware].
  - destruct (ticked_ok s xs HR) as (HR1&Hl1&Hs1&Hh1&Ht1&_). unfold OneTick, ChangeLevel. change (set_level IntOff _) with (ticked s).
    assert (yieldOnReturn (ticked s) = false ∧ dev (ticked s) = (d, [])) as [Hy1 Hd1] by (unfold ticked; by destruct (status s)).
    assert (0 ≤ totalTicks (stats (ticked s))) as Ht2 by (rewrite Ht1; unfold tick_of, SystemTick, UserTick; destruct (status s); lia).
    destruct (check_few false (ticked s) d xs Q HQ HR1 Hx Hl1 Hy1 ltac:(congruence) Ht2 Hd1) as [[-> _]|(x&s1&s'&d'&xs'&ss&->&->&Es&Ht3&HRe&HQ')]; cbn [mbind res_bind].
    + cbn [yieldOnReturn set_level]. rewrite Hy1. cbn [mbind res_bind]. unfold drain. cbn [dev set_level]. rewrite Hd1. cbn [fst snd]. eexists _, d, xs, []. split; [done|]. split; [split; try done; [by destruct HR1|change (inHandler (ticked s) = false); congruence]|].
      rewrite Hd. split; [done|]. split; [done|]. by left.
    + pose proof (calm_after s1 s' d' xs' ss (status s') HRe Ht3) as HC. destruct HRe. cbn [yieldOnReturn set_level set_inHandler]. rewrite re_yield0. cbn. unfold drain. cbn. rewrite re_dev0. cbn.
      eexists _, d', xs', ss. split; [done|]. split; [exact HC|]. split; [done|]. split; [done|]. by right.
  - unfold Idle. destruct (check_few true (set_status IdleMode (set_level IntOff s)) d xs Q HQ) as [[-> Hn]|(x&s1&s'&d'&xs'&ss&->&->&Es&Ht3&HRe&HQ')]; try done.
    + by destruct HR.
    + cbn. by rewrite Hn.
    + pose proof (calm_after s1 s' d' xs' ss SystemMode HRe Ht3) as HC. destruct HRe. cbn. unfold drain. cbn. rewrite re_dev0. cbn.
      eexists _, d', xs', ss. split; [done|]. split; [exact HC|]. split; [done|]. split; [done|]. by right.
Qed.

Lemma set_device_calm s xs d : Calm s xs → Calm (set_device d s) xs ∧ device (set_device d s) = d.
Proof. intros [[] ? ? ? ? ?]. by split. Qed.

(** A request schedules an interrupt. *)
Lemma Schedule_calm s d' fromNow kind :
  Calm s [] → 0 < fromNow → ∃ s' x, Schedule tt fromNow kind (set_device d' s) = Ok s' ∧ Calm s' [x] ∧ device s' = d'.
Proof.
  intros [HR Hl Hh Hy Ht Hsg] Hf. destruct (Schedule_ok (set_device d' s) [] tt fromNow kind) as (p&E&HR'); [by destruct HR|done|]. eexists _, _. split; [exact E|]. split; [|done]. by split.
Qed.

(** A handler that schedules nothing. *)
Lemma returns_quiet s d d' st n : Called d s → totalTicks st = totalTicks (stats s) →
  ∃ s', V_later n (set_stats st (set_device d' s)) = Ok s' ∧ Returned s d' [] [n] s'.
Proof.
  intros [HR Hl Hh Hy Ht Hd] Est. unfold V_later. eexists. split; [done|]. split; try done; [by destruct HR|cbn; lia|]. cbn. by rewrite Hd.
Qed.
End HANDLER.

(** ** Devices that are asked and answer

    The code makes a request, which schedules the interrupt, and waits on
    semaphore 0; the handler [answer]s and signals it.  [R] relates the device
    at rest to the contract's state. *)
Section ASK.
Context {A : Type} (handler : Sim → res Sim) (answer : T → T) (R : T → A → Prop).
Context (Hh : ∀ d, Handles handler d (λ d' xs ss, d' = answer d ∧ xs = [] ∧ ss = [0%nat])).
Implicit Types (ss : gmap nat Z) (a : A).

Definition at_rest s ss a : Prop := Calm s [] ∧ ss !! 0%nat = Some 0 ∧ R (device s) a.

(** Before the answer, or after it. *)
Definition asked s ss a : Prop :=
  (∃ x, Calm s [x] ∧ ss !! 0%nat = Some 0 ∧ R (answer (device s)) a) ∨ Calm s [] ∧ ss !! 0%nat = Some 1 ∧ R (device s) a.

Lemma at_rest_int i s ss a r : hardware handler i s = Some r → at_rest s ss a →
  ∃ s' l ss', hardware handler i s = Some (Ok (s', l)) ∧ foldM Conc.bump l ss = Ok ss' ∧ at_rest s' ss' a.
Proof.
  intros E (HC&Hs&HR). pose proof (hardware_ok handler i s [] _ HC ltac:(cbn; lia) (λ _, Hh _)) as HO. rewrite E in HO |- *.
  destruct HO as (s'&d'&xs'&l&->&HC'&_&<-&[(_&Ed&->&->)|[? _]]); [|done]. exists s', [], ss. split; [done|]. split; [done|]. split; [done|]. by rewrite Ed.
Qed.

Lemma asked_int i s ss a r : hardware handler i s = Some r → asked s ss a →
  ∃ s' l ss', hardware handler i s = Some (Ok (s', l)) ∧ foldM Conc.bump l ss = Ok ss' ∧ asked s' ss' a.
Proof.
  intros E [(x&HC&Hs&HR)|(HC&Hs&HR)]; pose proof (hardware_ok handler i s _ _ HC ltac:(cbn; lia) (λ _, Hh _)) as HO; rewrite E in HO |- *.
  - destruct HO as (s'&d'&xs'&l&->&HC'&_&<-&[(_&Ed&->&->)|[_ (Ed&->&->)]]).
    + exists s', [], ss. split; [done|]. split; [done|]. left. exists x. by rewrite Ed.
    + exists s', [0%nat], (<[0%nat := 1]> ss). split; [done|]. cbn. unfold Conc.bump. rewrite Hs. split; [done|]. right. split; [done|]. rewrite lookup_insert_eq. split; [done|]. by rewrite Ed.
  - destruct HO as (s'&d'&xs'&l&->&HC'&_&<-&[(_&Ed&->&->)|[? _]]); [|done]. exists s', [], ss. split; [done|]. split; [done|]. right. by rewrite Ed.
Qed.

(** The semaphore. *)
Lemma asked_P s ss a : asked s ss a → ∃ v, ss !! 0%nat = Some v ∧ (v ≠ 0 → at_rest s (<[0%nat := v - 1]> ss) a).
Proof.
  intros [(x&HC&Hs&HR)|(HC&Hs&HR)]; [by exists 0|]. exists 1. split; [done|]. intros _. split; [done|]. by rewrite lookup_insert_eq.
Qed.

(** Whoever waits for the answer will get it. *)
Lemma asked_answered s ss a : asked s ss a → ss !! 0%nat = Some 0 → ∃ s' ss', hardware handler UntilDue s = Some (Ok (s', [0%nat])) ∧ foldM Conc.bump [0%nat] ss = Ok ss' ∧ ss' !! 0%nat = Some 1.
Proof.
  intros [(x&HC&Hs&HR)|(HC&Hs&HR)] Hz; [|congruence]. pose proof (hardware_ok handler UntilDue s _ _ HC ltac:(cbn; lia) (λ _, Hh _)) as HO. cbn [foldM Conc.bump]. unfold Conc.bump. rewrite Hs. cbn.
  destruct (hardware handler UntilDue s) as [r|] eqn:E; [|by destruct HO]. destruct HO as (s'&d'&xs'&l&->&HC'&_&<-&[(?&_)|[_ (Ed&->&->)]]).
  - done.
  - exists s', (<[0%nat := 1]> ss). split; [done|]. split; [done|]. by rewrite lookup_insert_eq.
Qed.
End ASK.
End HARDWARE.
End Hardware.
