(* ===== verification/SynchDisk.v ===== *)
(** filesys/synchdisk.{h,cc}: the synchronous disk.

    The code is a monitor in the sense of Conc.v: lock 0 is SynchDisk::lock,
    semaphore 0 SynchDisk::semaphore, and the object is the simulated machine
    with the disk of Disk.v as its device (Hardware.v).  The contract is an
    array of sectors.  Theorems: every history of ReadSector and WriteSector is
    one of an array whose operations happen at one instant; two requests never
    meet in the disk, and a step fails only for a sector number out of range;
    whoever waits for the disk gets its answer. *)

From S2P Require Import Prelude LinkedList ListADT Machine Interrupt Disk Conc Hardware.
Import Interrupt InterruptSpec Hardware.

Module SynchDisk.
Import Conc.

(** [char data[SectorSize]]. *)
Definition buffer : Type := { b : list Z | DiskSpec.sector_data b }.

(** The disk after its interrupt. *)
Abbreviation answer := (Disk.set_active false).

Section CODE.
Context {L : Type} `{SA : !SortedADT (PendingInterrupt unit) PendingCompare L}.
Abbreviation Sim := (Interrupt (Disk.Disk * list nat) L).

Inductive call := ReadSector (sectorNumber : Z) | WriteSector (sectorNumber : Z) (data : buffer).
Inductive val := Data (data : list Z) | Written.

Inductive pos :=
| ReadAcquire (sectorNumber : Z)                  (* lock->Acquire() *)
| ReadP (data : list Z)                           (* semaphore->P() *)
| ReadRelease (data : list Z)                     (* lock->Release() *)
| WriteAcquire (sectorNumber : Z) (data : buffer) (* lock->Acquire() *)
| WriteP                                          (* semaphore->P() *)
| WriteRelease.                                   (* lock->Release() *)

Definition disk_of : Disk.Disk * list nat → Disk.Disk := fst.
Definition set_disk (d : Disk.Disk) (x : Disk.Disk * list nat) : Disk.Disk * list nat := (d, snd x).

(** SynchDisk::CallBack. *)
Definition CallBack : Sim → res Sim := V_later 0.

#[global] Instance SynchDisk_code : Code Sim pos call val hw := {
  entry c := Ok (match c with ReadSector n => ReadAcquire n | WriteSector n data => WriteAcquire n data end);
  op_of p := match p with
    | ReadAcquire _ | WriteAcquire _ _ => Acquire 0
    | ReadP _ | WriteP => P 0
    | ReadRelease _ | WriteRelease => Release 0
    end;
  go p disk := match p with
    | ReadAcquire n => '(data, disk) ← Disk.ReadRequest disk_of set_disk tt n disk; Ok (disk, inl (ReadP data))
    | ReadP data => Ok (disk, inl (ReadRelease data))
    | ReadRelease data => Ok (disk, inr (Data data))
    | WriteAcquire n data => disk ← Disk.WriteRequest disk_of set_disk tt n (`data) disk; Ok (disk, inl WriteP)
    | WriteP => Ok (disk, inl WriteRelease)
    | WriteRelease => Ok (disk, inr Written)
    end;
  interrupt := hardware (Disk.CallBack disk_of set_disk CallBack)
}.

(** The constructor, with the disk that [new Disk(this)] makes. *)
Definition new_SynchDisk (disk : Disk.Disk) : Sys Sim pos val :=
  mkSys (mkWorld (new_sim disk) {[0%nat := 0]} {[0%nat := None]} ∅) ∅.

(** ** The contract *)

#[global] Instance Sectors : Atomic (list (list Z)) call val := λ c ds,
  match c with
  | ReadSector n => if Disk.sector_ok n then (λ b, (Data b, ds)) <$> ds !! Z.to_nat n else None
  | WriteSector n data => if Disk.sector_ok n then Some (Written, <[Z.to_nat n := `data]> ds) else None
  end.

(** ** The monitor *)

Definition holds_lock (ts : tstate pos val) : bool :=
  match ts with
  | At (ReadP _ | ReadRelease _ | WriteP | WriteRelease) => true
  | Behind (ReadAcquire _ | ReadP _ | WriteAcquire _ _ | WriteP) => true
  | _ => false
  end.

Definition pending (p : pos) : call + val :=
  match p with
  | ReadAcquire n => inl (ReadSector n)
  | ReadP data | ReadRelease data => inr (Data data)
  | WriteAcquire n data => inl (WriteSector n data)
  | WriteP | WriteRelease => inr Written
  end.

(** The disk at rest. *)
Definition stores (d : Disk.Disk) (ds : list (list Z)) : Prop :=
  DiskSpec.DiskOk d ∧ Disk.active d = false ∧ ds = sectors_of (Disk.file d).

Definition assertion (ts : tstate pos val) (s : Sim) (ss : gmap nat Z) (ds : list (list Z)) : Prop :=
  match ts with At (ReadP _ | WriteP) => asked answer stores s ss ds | _ => at_rest stores s ss ds end.

Definition out_of_range (p : pos) (s : Sim) : Prop :=
  match p with ReadAcquire n | WriteAcquire n _ => ¬ 0 ≤ n < Disk.NumSectors | _ => False end.

Lemma disk_handler_ok d : Handles (L := L) (Disk.CallBack disk_of set_disk CallBack) d (λ d' xs ss, d' = answer d ∧ xs = [] ∧ ss = [0%nat]).
Proof.
  intros s HC. destruct (returns_quiet s d (answer d) (stats s) 0 HC eq_refl) as (s'&E&HRe). exists s', (answer d), [], [0%nat]. split; [|by split].
  rewrite <- E. unfold Disk.CallBack, CallBack, Disk.upd, set_device, disk_of, set_disk. by rewrite (ca_dev _ _ HC).
Qed.

(** A request that is accepted. *)
Lemma accepted_asked (s s' : Sim) ss n w f ds :
  at_rest stores s ss ds → DiskSpec.accepted disk_of tt s [] n w f s' → 0 ≤ n < Disk.NumSectors → Z.of_nat (length f) = Disk.DiskSize → Forall is_byte f →
  level s' = level s → inHandler s' = inHandler s → yieldOnReturn s' = yieldOnReturn s → snd (dev s') = snd (dev s) → asked answer stores s' ss (sectors_of f).
Proof.
  intros (HC&Hs&HR) [Ef Ea El Et HRep] Hn Hl Hb E1 E2 E3 E4. destruct HC as [HR0 C1 C2 C3 C4 C5]. left. eexists. split; [split; [exact HRep|congruence|congruence|congruence|by rewrite Et|congruence]|]. split; [done|].
  unfold device. fold disk_of in *. unfold disk_of in *. split; [|split; [done|]]; [split; cbn; [by rewrite Ef|by rewrite Ef|by rewrite El]|cbn; by rewrite Ef].
Qed.

Lemma Schedule_fields (c : unit) n k (s s' : Sim) : Schedule c n k s = Ok s' → level s' = level s ∧ inHandler s' = inHandler s ∧ yieldOnReturn s' = yieldOnReturn s ∧ dev s' = dev s.
Proof. unfold Schedule. cbn. intros (u&_&E)%bind_Ok. apply bind_Ok in E as (p&_&[= <-]). done. Qed.

Lemma read_fields n (s s' : Sim) data : Disk.ReadRequest disk_of set_disk tt n s = Ok (data, s') →
  level s' = level s ∧ inHandler s' = inHandler s ∧ yieldOnReturn s' = yieldOnReturn s ∧ snd (dev s') = snd (dev s).
Proof.
  unfold Disk.ReadRequest. intros (u1&_&E)%bind_Ok. apply bind_Ok in E as (u2&_&E). apply bind_Ok in E as (d&_&E). apply bind_Ok in E as (s1&E&[= <- <-]).
  apply Schedule_fields in E as (->&->&->&->). done.
Qed.

Lemma write_fields n b (s s' : Sim) : Disk.WriteRequest disk_of set_disk tt n b s = Ok s' →
  level s' = level s ∧ inHandler s' = inHandler s ∧ yieldOnReturn s' = yieldOnReturn s ∧ snd (dev s') = snd (dev s).
Proof.
  unfold Disk.WriteRequest. intros (u1&_&E)%bind_Ok. apply bind_Ok in E as (u2&_&E). apply bind_Ok in E as (f&_&E).
  apply Schedule_fields in E as (->&->&->&->). done.
Qed.

Lemma read_asks (s : Sim) ss n ds : at_rest stores s ss ds → 0 ≤ n < Disk.NumSectors →
  ∃ b s', Disk.ReadRequest disk_of set_disk tt n s = Ok (b, s') ∧ asked answer stores s' ss ds ∧ ds !! Z.to_nat n = Some b.
Proof.
  intros HA Hn. pose proof HA as (HC&Hs&HD&Ha&->). destruct (DiskSpec.ReadRequest_ok disk_of set_disk tt ltac:(done) s [] n (cm_rep _ _ HC) (cm_time _ _ HC) HD Ha Hn) as (s'&E&Hacc).
  eexists _, s'. split; [exact E|]. destruct (read_fields _ _ _ _ E) as (?&?&?&?). split; [|by apply sectors_lookup]. by eapply accepted_asked; [..|apply HD|apply HD| | | |].
Qed.

Lemma write_asks (s : Sim) ss n (data : buffer) ds : at_rest stores s ss ds → 0 ≤ n < Disk.NumSectors →
  ∃ s', Disk.WriteRequest disk_of set_disk tt n (`data) s = Ok s' ∧ asked answer stores s' ss (<[Z.to_nat n := `data]> ds).
Proof.
  intros HA Hn. pose proof HA as (HC&Hs&HD&Ha&->). destruct data as [b Hb]. cbn.
  destruct (DiskSpec.WriteRequest_ok disk_of set_disk tt ltac:(done) s [] n b (cm_rep _ _ HC) (cm_time _ _ HC) HD Ha Hn Hb) as (f&s'&E&Hacc&Hl&Hf&Hsec).
  exists s'. split; [exact E|]. destruct (write_fields _ _ _ _ E) as (?&?&?&?).
  replace (<[Z.to_nat n := b]> (sectors_of (Disk.file (device s)))) with (sectors_of f); [by eapply accepted_asked|]. by apply sectors_of_write.
Qed.

#[global] Program Instance SynchDisk_monitor : Monitor Sim pos call val hw (list (list Z)) 0 := {
  own := holds_lock;
  pend := pending;
  J := at_rest stores;
  K := assertion;
  cond_of _ := False;
  bad := out_of_range;
  wf _ := True
}.
Next Obligation. intros c p E. cbn in E. injection E as <-. by destruct c. Qed.
Next Obligation. done. Qed.
Next Obligation. intros []; cbn; split_and!; try done; intros x ss a HA; by apply (asked_P _ _ _ _ _ HA). Qed.
Next Obligation.
  intros p s ss ds _ Ho HA. destruct p as [n|b| |n b| |]; try done; cbn in HA |- *.
  - destruct (decide (0 ≤ n < Disk.NumSectors)) as [Hn|Hn]; [left|right].
    + destruct (read_asks s ss n ds HA Hn) as (b&s'&E&HA'&Hb). rewrite E. eexists s', _, ds. do 4 (split; [done|]). right. eexists _, _. split; [done|]. split; [done|].
      unfold apply_call, Sectors. by rewrite DiskSpec.sector_ok_true, Hb.
    + split; [done|]. rewrite (proj1 (DiskSpec.request_refused disk_of set_disk tt s n [] (or_intror Hn))). by eexists.
  - left. eexists s, _, ds. do 4 (split; [done|]). by left.
  - destruct (decide (0 ≤ n < Disk.NumSectors)) as [Hn|Hn]; [left|right].
    + destruct (write_asks s ss n b ds HA Hn) as (s'&E&HA'). rewrite E. eexists s', _, _. do 3 (split; [done|]). split; [exact HA'|]. right. eexists _, _. split; [done|]. split; [done|].
      unfold apply_call, Sectors. by rewrite DiskSpec.sector_ok_true.
    + split; [done|]. rewrite (proj2 (DiskSpec.request_refused disk_of set_disk tt s n (`b) (or_intror Hn))). by eexists.
  - left. eexists s, _, ds. do 4 (split; [done|]). by left.
Qed.
Next Obligation. intros p s _ Ho. destruct p; try done; cbn; by eexists. Qed.
Next Obligation.
  intros i s ss ds r E. split; [intros HA; by apply (at_rest_int _ _ _ disk_handler_ok _ _ _ _ _ E HA)|]. intros ts _ HA. unfold Conc.handled, assertion in *.
  destruct ts as [v|p|p|p]; try (by apply (at_rest_int _ _ _ disk_handler_ok _ _ _ _ _ E HA)).
  destruct p; try (by apply (at_rest_int _ _ _ disk_handler_ok _ _ _ _ _ E HA)); by apply (asked_int _ _ _ disk_handler_ok _ _ _ _ _ E HA).
Qed.

Lemma new_disk_ok d : DiskSpec.DiskOk d → Disk.active d = false → Ok_ (L := 0) (new_SynchDisk d) (sectors_of (Disk.file d)).
Proof.
  intros HD Ha. split; cbn; [|done..]. exists None. split; [done|]. split; [apply new_sim_calm|]. split; [done|]. by split.
Qed.

End CODE.

(** ** Theorems *)

Section THEOREMS.
Context {L : Type} `{SA : !SortedADT (PendingInterrupt unit) PendingCompare L}.
Context (d : Disk.Disk) (HD : DiskSpec.DiskOk d) (Ha : Disk.active d = false).
Abbreviation System := (Sys (Interrupt (Disk.Disk * list nat) L) pos val).

(** Requests never meet in the disk: whatever the interleaving of
    threads and interrupts, no assertion of the disk or of the synchronisation
    fails, unless a thread asks for a sector that does not exist. *)
Lemma synchdisk_safe (h : list (hev call val)) (s : System) e f :
  Run (new_SynchDisk d) h s → step e s = Some (Err f) →
  ∃ t p, e = EGo t ∧ threads s !! t = Some (Behind p) ∧ match p with ReadAcquire n | WriteAcquire n _ => ¬ 0 ≤ n < Disk.NumSectors | _ => False end.
Proof.
  intros HR E. pose proof (monitor_safe (L := 0) _ _ h s e f (new_disk_ok d HD Ha) HR E) as HW. destruct e as [t c|t|i]; [by destruct HW| |done].
  destruct HW as (p&Ht&Hb). by exists t, p.
Qed.

(** C24 (refinement): the synchronous disk is an array of sectors: for every
    history of ReadSector and WriteSector calls of any number of threads, and
    whenever the disk interrupts come, there is a run of the array with the
    same history in which every call happens at one instant between its start
    and its return, and while the lock is free the device holds the array's
    contents; requests never meet in the disk: no assertion of the disk or of
    the synchronisation fails, unless a thread asks for a sector that does not
    exist. *)
Theorem synchdisk_refines_sectors (h : list (hev call val)) (s : System) :
  Run (new_SynchDisk d) h s →
  (∃ ds ph, ARun (sectors_of (Disk.file d), ∅) h (ds, ph) ∧ (locks (world s) !! 0%nat = Some None → sectors_of (Disk.file (device (obj (world s)))) = ds))
  ∧ ∀ e f, step e s = Some (Err f) →
      ∃ t p, e = EGo t ∧ threads s !! t = Some (Behind p) ∧ match p with ReadAcquire n | WriteAcquire n _ => ¬ 0 ≤ n < Disk.NumSectors | _ => False end.
Proof.
  intros HR. split; [|intros e f; by apply synchdisk_safe with h]. destruct (monitor_refines (L := 0) _ _ h s (new_disk_ok d HD Ha) eq_refl HR) as (ds&HS&HA). exists ds, (phases (threads s)). split; [done|].
  intros Hl. destruct (ok_lock _ _ HS) as (o&Eo&Ho). rewrite Hl in Eo. injection Eo as <-. by destruct Ho as (_&_&_&_&->).
Qed.

(** Whoever waits for the disk gets its answer: when threads are
    inside and none can go on, one of them holds the lock and waits for its
    request; the next interrupt of the idle machine is the answer, and after it
    that thread can go on. *)
Theorem synchdisk_answers (h : list (hev call val)) (s : System) :
  Run (new_SynchDisk d) h s → (∀ t, step (EGo t) s = None) →
  (∀ t ts, threads s !! t = Some ts → ∃ v, ts = Outside v) ∨
  ∃ t s', locks (world s) !! 0%nat = Some (Some t) ∧ step (EInt UntilDue) s = Some (Ok s') ∧ is_Some (step (EGo t) s').
Proof.
  intros HR Hst. destruct (monitor_run (L := 0) _ _ h s (new_disk_ok d HD Ha) HR) as [ds HS]. destruct (stuck_asleep s ds HS Hst) as [(t&p&n&Ht&Eo&Hz&HK)|[_ Hw]].
  - right. assert (holds_lock (At p) = true) as Hown by (by destruct p). destruct (Ok_holder s ds t _ HS Ht Hown) as [Hl _].
    assert (n = 0%nat ∧ asked answer stores (obj (world s)) (sems (world s)) ds) as [-> HA] by (destruct p; try done; by injection Eo as <-).
    destruct (asked_answered _ _ _ disk_handler_ok _ _ _ HA Hz) as (x'&ss'&E&_). exists t. destruct (interrupt_wakes s t p 0 UntilDue x' Ht Eo Hz E) as (s'&?&?). by exists s'.
  - left. intros t ts Ht. destruct (Hw t ts Ht) as [?|(p&->&_&c&l&q&Eo&_)]; [done|by destruct p].
Qed.
End THEOREMS.

(** ** Witnesses: one thread writes a sector, another one reads it *)

Abbreviation Blank := (Sys (Interrupt (Disk.Disk * list nat) (NList.List (PendingInterrupt unit))) pos val).

Definition start : Blank := new_SynchDisk blank_disk.

Lemma sevens_ok : DiskSpec.sector_data (replicate 128 7).
Proof. split; [done|]. apply Forall_replicate. unfold is_byte. lia. Qed.

Definition sevens : buffer := replicate 128 7 ↾ sevens_ok.

Definition write_then_read : list (event call hw) :=
  [ECall 1 (WriteSector 3 sevens); EGo 1; ECall 2 (ReadSector 3); EGo 1; EInt Tick; EInt UntilDue; EGo 1; EGo 1; EGo 1; EGo 1; EGo 2; EGo 2; EInt UntilDue; EGo 2; EGo 2; EGo 2; EGo 2].

Abbreviation history := [HCall 1 (WriteSector 3 sevens); HCall 2 (ReadSector 3); HRet 1 Written; HRet 2 (Data (replicate 128 7))].

Lemma write_then_read_history : fst <$> exec write_then_read start = Some history.
Proof. vm_compute. reflexivity. Qed.

Lemma synchdisk_refines_sectors_witness : ∃ ds ph, ARun (sectors_of (Disk.file blank_disk), ∅) history (ds, ph).
Proof.
  pose proof write_then_read_history as E. destruct (exec write_then_read start) as [[h s]|] eqn:Ee; [|done]. injection E as ->.
  destruct (synchdisk_refines_sectors blank_disk blank_disk_ok eq_refl history s (exec_run _ _ _ _ Ee)) as [(ds&ph&HA&_) _]. by exists ds, ph.
Defined.

Definition bad_read : list (event call hw) := [ECall 1 (ReadSector 1024); EGo 1].

(** The outcome of one more event. *)
Definition then_fails (es : list (event call hw)) (e : event call hw) : bool :=
  match exec es start with Some (_, s) => match step e s with Some (Err AssertFailed) => true | _ => false end | None => false end.

Lemma synchdisk_safe_witness : ∃ (s : Blank) h, Run start h s ∧ step (EGo 1) s = Some (Err AssertFailed) ∧ ∃ t p, EGo (Call := call) (Int := hw) 1 = EGo t ∧ threads s !! t = Some (Behind p).
Proof.
  assert (then_fails bad_read (EGo 1) = true) as E by (vm_compute; reflexivity). unfold then_fails in E. destruct (exec bad_read start) as [[h s]|] eqn:Ee; [|done].
  exists s, h. pose proof (exec_run _ _ _ _ Ee) as HR. split; [done|]. destruct (step (EGo 1) s) as [[|[]]|] eqn:Es; try done. split; [done|].
  destruct (synchdisk_safe blank_disk blank_disk_ok eq_refl h s _ _ HR Es) as (t&p&?&?&_). by exists t, p.
Defined.

Definition both_wait : list (event call hw) := [ECall 1 (ReadSector 3); EGo 1; ECall 2 (ReadSector 4); EGo 1].

Lemma synchdisk_answers_witness : ∃ (s : Blank) h, Run start h s ∧ (∀ t, step (EGo t) s = None) ∧
  ((∀ t ts, threads s !! t = Some ts → ∃ v, ts = Outside v) ∨ ∃ t s', locks (world s) !! 0%nat = Some (Some t) ∧ step (EInt UntilDue) s = Some (Ok s') ∧ is_Some (step (EGo t) s')).
Proof.
  assert (match exec both_wait start with Some (_, s) => stuck_with [1%nat; 2%nat] s | None => false end = true) as E by (vm_compute; reflexivity).
  destruct (exec both_wait start) as [[h s]|] eqn:Ee; [|done]. pose proof (exec_run _ _ _ _ Ee) as HR. pose proof (stuck_with_stuck _ _ E) as Hst.
  exists s, h. split; [done|]. split; [done|]. exact (synchdisk_answers blank_disk blank_disk_ok eq_refl h s HR Hst).
Defined.
End SynchDisk.
