(* ===== verification/SynchConsole.v ===== *)
(** machine/console.{h,cc} and userprog/synchconsole.{h,cc}: the console.

    Module ConsoleOut holds the display device (ConsoleOutput) and the
    synchronised display on it (SynchConsoleOutput: PutChar, PutString), Module
    ConsoleIn the keyboard device (ConsoleInput) and the synchronised keyboard
    (SynchConsoleInput::GetChar).  Both are monitors in the sense of Conc.v on
    the machine of Hardware.v: lock 0 is [lock], semaphore 0 is [waitFor].

    The UNIX files behind the device: the display file is the list of bytes
    written to it; what the keyboard file gives at each poll (PollFile, then
    ReadPartial) is a list of [poll]s, after whose end nothing comes any more.
    Read errors of the host are left out.  A [char] is a signed byte. *)

From S2P Require Import Prelude LinkedList ListADT Machine Interrupt Conc Hardware.
Import Interrupt InterruptSpec Hardware.

Definition count_console (read written : Z) (st : Statistics) : Statistics :=
  mkStats (totalTicks st) (idleTicks st) (systemTicks st) (userTicks st) (numDiskReads st) (numDiskWrites st)
    (numConsoleCharsRead st + read) (numConsoleCharsWritten st + written) (numPageFaults st) (numPacketsSent st) (numPacketsRecvd st).

Module ConsoleOut.
Import Conc.

Record ConsoleOutput := mkConsoleOutput { display : list Z; putBusy : bool }.

(** The device after its interrupt. *)
Definition not_busy (d : ConsoleOutput) : ConsoleOutput := mkConsoleOutput (display d) false.

Section CODE.
Context {L : Type} `{SA : !SortedADT (PendingInterrupt unit) PendingCompare L}.
Abbreviation Sim := (Interrupt (ConsoleOutput * list nat) L).

(** ConsoleOutput::PutChar. *)
Definition device_PutChar (ch : Z) (s : Sim) : res Sim :=
  ASSERT (negb (putBusy (device s))) ;;
  let s := set_device (mkConsoleOutput (display (device s) ++ [ch]) (putBusy (device s))) s in
  let s := set_device (mkConsoleOutput (display (device s)) true) s in
  Schedule tt ConsoleTime ConsoleWriteInt s.

(** SynchConsoleOutput::CallBack. *)
Definition CallBack : Sim → res Sim := V_later 0.

(** ConsoleOutput::CallBack. *)
Definition device_CallBack (s : Sim) : res Sim :=
  let s := set_device (not_busy (device s)) s in
  let s := set_stats (count_console 0 1 (stats s)) s in
  CallBack s.

Inductive call := PutChar (ch : Z) | PutString (s : list Z) (size : Z).

Inductive pos :=
| CharAcquire (ch : Z)                  (* lock->Acquire() *)
| CharP                                 (* waitFor->P() *)
| CharRelease                           (* lock->Release() *)
| StringAcquire (s : list Z) (size : Z) (* lock->Acquire() *)
| StringP (s : list Z) (size i : Z)     (* waitFor->P(), in round i of the loop *)
| StringRelease.                        (* lock->Release() *)

(** The loop of PutString, from the test of round [i]. *)
Definition put_loop (str : list Z) (size i : Z) (s : Sim) : res (Sim * (pos + unit)) :=
  if i <? size then
    ch ← aget str i;
    s ← device_PutChar ch s;
    Ok (s, inl (StringP str size i))
  else Ok (s, inl StringRelease).

#[global] Instance Output_code : Code Sim pos call unit hw := {
  entry c := Ok (match c with PutChar ch => CharAcquire ch | PutString str size => StringAcquire str size end);
  op_of p := match p with
    | CharAcquire _ | StringAcquire _ _ => Acquire 0
    | CharP | StringP _ _ _ => P 0
    | CharRelease | StringRelease => Release 0
    end;
  go p s := match p with
    | CharAcquire ch => s ← device_PutChar ch s; Ok (s, inl CharP)
    | CharP => Ok (s, inl CharRelease)
    | CharRelease | StringRelease => Ok (s, inr tt)
    | StringAcquire str size => put_loop str size 0 s
    | StringP str size i => put_loop str size (i + 1) s
    end;
  interrupt := hardware device_CallBack
}.

(** The constructors; nothing is on the display yet. *)
Definition new_SynchConsoleOutput : Sys Sim pos unit :=
  mkSys (mkWorld (new_sim (mkConsoleOutput [] false)) {[0%nat := 0]} {[0%nat := None]} ∅) ∅.

(** ** The contract: what is on the display *)

#[global] Instance Display : Atomic (list Z) call unit := λ c shown,
  Some (tt, shown ++ match c with PutChar ch => [ch] | PutString str size => take (Z.to_nat size) str end).

(** ** The monitor *)

Definition holds_lock (ts : tstate pos unit) : bool :=
  match ts with
  | At (CharP | CharRelease | StringP _ _ _ | StringRelease) => true
  | Behind (CharAcquire _ | CharP | StringAcquire _ _ | StringP _ _ _) => true
  | _ => false
  end.

Definition pending (p : pos) : call + unit :=
  match p with
  | CharAcquire ch => inl (PutChar ch)
  | StringAcquire str size => inl (PutString str size)
  | _ => inr tt
  end.

(** [rest] is still to be written. *)
Definition shows (rest : list Z) (d : ConsoleOutput) (shown : list Z) : Prop := putBusy d = false ∧ display d ++ rest = shown.

(** What is to be written of a string from round [i] on. *)
Definition rest_of (str : list Z) (size i : Z) : list Z := drop (Z.to_nat i) (take (Z.to_nat size) str).

Definition assertion (ts : tstate pos unit) (s : Sim) (ss : gmap nat Z) (shown : list Z) : Prop :=
  match ts with
  | At CharP => asked not_busy (shows []) s ss shown
  | At (StringP str size i) => 0 ≤ i ∧ asked not_busy (shows (rest_of str size (i + 1))) s ss shown
  | Behind (StringP str size i) => 0 ≤ i ∧ at_rest (shows (rest_of str size (i + 1))) s ss shown
  | _ => at_rest (shows []) s ss shown
  end.

(** PutString runs behind the end of its string. *)
Definition overrun (p : pos) (s : Sim) : Prop :=
  match p with
  | StringAcquire str size => Z.of_nat (length str) = 0 ∧ 0 < size
  | StringP str size i => Z.of_nat (length str) ≤ i + 1 < size
  | _ => False
  end.

Lemma out_handler_ok d : Handles (L := L) device_CallBack d (λ d' xs ss, d' = not_busy d ∧ xs = [] ∧ ss = [0%nat]).
Proof.
  intros s HC. destruct (returns_quiet s d (not_busy d) (count_console 0 1 (stats s)) 0 HC eq_refl) as (s'&E&HRe). exists s', (not_busy d), [], [0%nat]. split; [|by split].
  rewrite <- E. unfold device_CallBack, CallBack, set_device, device. by rewrite (ca_dev _ _ HC).
Qed.

Lemma put_asks (s : Sim) ss ch rest shown : at_rest (shows (ch :: rest)) s ss shown → ∃ s', device_PutChar ch s = Ok s' ∧ asked not_busy (shows rest) s' ss shown.
Proof.
  intros (HC&Hs&Hb&Hd). unfold device_PutChar. rewrite Hb. cbn [negb ASSERT mbind res_bind].
  destruct (Schedule_calm s (mkConsoleOutput (display (device s) ++ [ch]) true) ConsoleTime ConsoleWriteInt HC ltac:(done)) as (s'&x&E&HC'&Ed).
  exists s'. split; [exact E|]. left. exists x. split; [done|]. split; [done|]. rewrite Ed. split; [done|]. cbn. by rewrite <- app_assoc.
Qed.

Lemma rest_of_cons str size i ch : 0 ≤ i < size → aget str i = Ok ch → rest_of str size i = ch :: rest_of str size (i + 1).
Proof.
  intros Hi Hc. apply aget_Ok in Hc as [_ Hc]. unfold rest_of. rewrite Z2Nat.inj_add by lia. rewrite Nat.add_1_r. apply drop_S. rewrite lookup_take_lt by lia. done.
Qed.

Lemma rest_of_end str size i : 0 ≤ i → size ≤ i → rest_of str size i = [].
Proof. intros H0 Hi. unfold rest_of. apply drop_ge. rewrite length_take. lia. Qed.

(** The loop: it writes the next character, ends, or fails behind the end. *)
Lemma put_loop_ok (s : Sim) ss str size i shown : 0 ≤ i → at_rest (shows (rest_of str size i)) s ss shown →
  (∃ s' p, put_loop str size i s = Ok (s', inl p) ∧ assertion (At p) s' ss shown ∧ holds_lock (At p) = true ∧ pending p = inr tt)
  ∨ Z.of_nat (length str) ≤ i < size ∧ ∃ e, put_loop str size i s = Err e.
Proof.
  intros Hi HA. unfold put_loop. destruct (Z.ltb_spec i size) as [Hlt|Hge].
  - destruct (decide (i < Z.of_nat (length str))) as [Hl|Hl].
    + left. destruct (aget_ex str i ltac:(lia)) as (ch&Ec). rewrite Ec. cbn [mbind res_bind]. rewrite (rest_of_cons str size i ch) in HA by done.
      destruct (put_asks s ss ch _ shown HA) as (s'&E&HA'). rewrite E. cbn [mbind res_bind]. by exists s', (StringP str size i).
    + right. split; [lia|]. destruct (aget str i) as [ch|e] eqn:Ec; [|by exists e]. apply aget_Ok in Ec as [_ Ec%lookup_lt_Some]. lia.
  - left. exists s, StringRelease. split; [done|]. rewrite rest_of_end in HA by lia. done.
Qed.

Lemma overrun_0 (str : list Z) size : Z.of_nat (length str) ≤ 0 < size → Z.of_nat (length str) = 0 ∧ 0 < size.
Proof. lia. Qed.

#[global] Program Instance Output_monitor : Monitor Sim pos call unit hw (list Z) 0 := {
  own := holds_lock;
  pend := pending;
  J := at_rest (shows []);
  K := assertion;
  cond_of _ := False;
  bad := overrun;
  wf _ := True
}.
Next Obligation. intros c p E. cbn in E. injection E as <-. by destruct c. Qed.
Next Obligation. done. Qed.
Next Obligation.
  intros []; cbn; split_and!; try done; [intros x ss a HA; by apply (asked_P _ _ _ _ _ HA)|].
  intros x ss a [Hi HA]. destruct (asked_P _ _ _ _ _ HA) as (v&Ev&HR). exists v. split; [done|]. by split; [|apply HR].
Qed.
Next Obligation.
  intros p s ss shown _ Ho HA. destruct p as [ch| | |str size|str size i|]; try done; cbn in HA |- *.
  - left. destruct HA as (HC&Hs&Hb&Hd). destruct (put_asks s ss ch [] (shown ++ [ch])) as (s'&E&HA').
    { do 3 (split; [done|]). rewrite <- Hd. by rewrite app_nil_r. }
    rewrite E. eexists s', _, _. do 3 (split; [done|]). split; [exact HA'|]. right. by eexists _, _.
  - left. eexists s, _, shown. do 4 (split; [done|]). by left.
  - destruct (put_loop_ok s ss str size 0 (shown ++ take (Z.to_nat size) str)) as [(s'&p&E&HA'&Hown&Hp)|[Hb He]]; [lia| |left|right; split; [by apply overrun_0|done]].
    { destruct HA as (HC&Hs&Hb&Hd). do 3 (split; [done|]). unfold rest_of. rewrite drop_0, <- Hd. by rewrite app_nil_r. }
    rewrite E. eexists s', p, _. do 3 (split; [done|]). split; [exact HA'|]. right. by eexists _, _.
  - destruct HA as [Hi HA]. destruct (put_loop_ok s ss str size (i + 1) shown) as [(s'&p&E&HA'&Hown&Hp)|[Hb He]]; [lia|done|left|by right].
    rewrite E. eexists s', p, _. do 3 (split; [done|]). split; [exact HA'|]. by left.
Qed.
Next Obligation. intros p s _ Ho. destruct p; try done; cbn; by eexists. Qed.
Next Obligation.
  intros i s ss shown r E. split; [intros HA; by apply (at_rest_int _ _ _ out_handler_ok _ _ _ _ _ E HA)|]. intros ts _ HA. unfold Conc.handled, assertion in *.
  destruct ts as [v|p|p|p]; try (by apply (at_rest_int _ _ _ out_handler_ok _ _ _ _ _ E HA)); destruct p; try (by apply (at_rest_int _ _ _ out_handler_ok _ _ _ _ _ E HA)).
  - by apply (asked_int _ _ _ out_handler_ok _ _ _ _ _ E HA).
  - destruct HA as [Hi HA]. destruct (asked_int _ _ _ out_handler_ok _ _ _ _ _ E HA) as (s'&l&ss'&?&?&?). by exists s', l, ss'.
  - destruct HA as [Hi HA]. destruct (at_rest_int _ _ _ out_handler_ok _ _ _ _ _ E HA) as (s'&l&ss'&?&?&?). by exists s', l, ss'.
Qed.

Lemma new_out_ok : Ok_ (L := 0) new_SynchConsoleOutput [].
Proof. split; cbn; [|done..]. exists None. split; [done|]. split; [apply new_sim_calm|]. by split. Qed.
End CODE.

(** ** Theorems *)

Section THEOREMS.
Context {L : Type} `{SA : !SortedADT (PendingInterrupt unit) PendingCompare L}.
Abbreviation System := (Sys (Interrupt (ConsoleOutput * list nat) L) pos unit).

(** No two characters meet in the display device: whatever the
    interleaving, no step fails but a PutString whose size is larger than its
    string, when it reaches the end of the string. *)
Lemma synchconsole_output_safe (h : list (hev call unit)) (s : System) e f :
  Run new_SynchConsoleOutput h s → step e s = Some (Err f) →
  ∃ t p, e = EGo t ∧ threads s !! t = Some (Behind p) ∧
    match p with
    | StringAcquire str size => length str = 0%nat ∧ 0 < size
    | StringP str size i => Z.of_nat (length str) ≤ i + 1 < size
    | _ => False
    end.
Proof.
  intros HR E. pose proof (monitor_safe (L := 0) _ _ h s e f new_out_ok HR E) as HW. destruct e as [t c|t|i]; [by destruct HW| |done].
  destruct HW as (p&Ht&Hb). exists t, p. split; [done|]. split; [done|]. destruct p; try done. cbn in Hb |- *. lia.
Qed.
(** C25 (refinement): the synchronised display does whole calls: for every
    history of PutChar and PutString calls of any number of threads, and
    whenever the interrupts come, there is a run in which each call puts all of
    its characters on the display at one instant between its start and its
    return, so the characters of two calls are never mixed; while the lock is
    free the display shows exactly the characters of these calls.  No step
    fails but a PutString whose size is larger than its string, when it reaches
    the end of the string. *)
Theorem synchconsole_output_atomic (h : list (hev call unit)) (s : System) :
  Run new_SynchConsoleOutput h s →
  (∃ shown ph, ARun ([], ∅) h (shown, ph) ∧ (locks (world s) !! 0%nat = Some None → display (device (obj (world s))) = shown))
  ∧ ∀ e f, step e s = Some (Err f) →
      ∃ t p, e = EGo t ∧ threads s !! t = Some (Behind p) ∧
        match p with
        | StringAcquire str size => length str = 0%nat ∧ 0 < size
        | StringP str size i => Z.of_nat (length str) ≤ i + 1 < size
        | _ => False
        end.
Proof.
  intros HR. split; [|intros e f; by apply synchconsole_output_safe with h]. destruct (monitor_refines (L := 0) _ _ h s new_out_ok eq_refl HR) as (shown&HS&HA). exists shown, (phases (threads s)). split; [done|].
  intros Hl. destruct (ok_lock _ _ HS) as (o&Eo&Ho). rewrite Hl in Eo. injection Eo as <-. destruct Ho as (_&_&_&<-). by rewrite app_nil_r.
Qed.
End THEOREMS.

(** ** Witnesses: two strings of two threads *)

Abbreviation Con := (Sys (Interrupt (ConsoleOutput * list nat) (NList.List (PendingInterrupt unit))) pos unit).

Definition start : Con := new_SynchConsoleOutput.

(** Thread 2 arrives while thread 1 writes. *)
Definition two_strings : list (event call hw) :=
  [ECall 1 (PutString [104; 105] 2); EGo 1; EGo 1; ECall 2 (PutChar 33); EInt UntilDue; EGo 1; EGo 1; EInt Tick; EInt UntilDue; EGo 1; EGo 1; EGo 1; EGo 1; EGo 2; EGo 2; EInt UntilDue; EGo 2; EGo 2; EGo 2; EGo 2].

Lemma two_strings_history :
  (λ '(h, s), (h, display (device (obj (world s))), locks (world s) !! 0%nat)) <$> exec two_strings start
  = Some ([HCall 1 (PutString [104; 105] 2); HCall 2 (PutChar 33); HRet 1 tt; HRet 2 tt], [104; 105; 33], Some None).
Proof. vm_compute. reflexivity. Qed.

Lemma synchconsole_output_atomic_witness :
  ∃ ph, ARun ([], ∅) [HCall 1 (PutString [104; 105] 2); HCall 2 (PutChar 33); HRet 1 tt; HRet 2 tt] ([104; 105; 33], ph).
Proof.
  pose proof two_strings_history as E. destruct (exec two_strings start) as [[h s]|] eqn:Ee; [|done]. cbn in E. injection E as Eh Ed El. subst h.
  destruct (synchconsole_output_atomic _ s (exec_run _ _ _ _ Ee)) as [(shown&ph&HA&Hd) _]. rewrite Hd in Ed by exact El. subst shown. by exists ph.
Defined.

Definition too_long : list (event call hw) := [ECall 1 (PutString [104] 2); EGo 1; EGo 1; EInt UntilDue; EGo 1].

Lemma synchconsole_output_safe_witness : ∃ (s : Con) h f, Run start h s ∧ step (EGo 1) s = Some (Err f) ∧ ∃ t p, EGo (Call := call) (Int := hw) 1 = EGo t ∧ threads s !! t = Some (Behind p).
Proof.
  assert (match exec too_long start with Some (_, s) => match step (EGo 1) s with Some (Err _) => true | _ => false end | None => false end = true) as E by (vm_compute; reflexivity).
  destruct (exec too_long start) as [[h s]|] eqn:Ee; [|done]. pose proof (exec_run _ _ _ _ Ee) as HR. clear Ee. destruct (step (EGo 1) s) as [[|f]|] eqn:Es; [discriminate E| |discriminate E].
  exists s, h, f. split; [exact HR|]. split; [exact Es|]. destruct (synchconsole_output_safe h s _ _ HR Es) as (t&p&Et&Ep&_). exact (ex_intro _ t (ex_intro _ p (conj Et Ep))).
Defined.
End ConsoleOut.

Module ConsoleIn.
Import Conc.

Definition EOF : Z := -1.

(** What a poll of the keyboard file finds: nothing yet, a character, or the
    end of the file. *)
Inductive poll := Nothing | Char (c : Z) | EndOfFile.

Record ConsoleInput := mkConsoleInput { readFile : list poll; incoming : Z }.

Section CODE.
Context {L : Type} `{SA : !SortedADT (PendingInterrupt unit) PendingCompare L}.
Abbreviation Sim := (Interrupt (ConsoleInput * list nat) L).

(** SynchConsoleInput::CallBack. *)
Definition CallBack : Sim → res Sim := V_later 0.

(** ConsoleInput::CallBack.  [readFile] gives the outcome of PollFile and
    ReadPartial. *)
Definition device_CallBack (s : Sim) : res Sim :=
  ASSERT (incoming (device s) =? EOF) ;;
  match readFile (device s) with
  | [] => Schedule tt ConsoleTime ConsoleReadInt s
  | Nothing :: f => Schedule tt ConsoleTime ConsoleReadInt (set_device (mkConsoleInput f (incoming (device s))) s)
  | EndOfFile :: f => CallBack (set_device (mkConsoleInput f (incoming (device s))) s)
  | Char c :: f => CallBack (set_stats (count_console 1 0 (stats s)) (set_device (mkConsoleInput f c) s))
  end.

(** ConsoleInput::GetChar. *)
Definition device_GetChar (s : Sim) : res (Z * Sim) :=
  let ch := incoming (device s) in
  s ← (if negb (incoming (device s) =? EOF) then Schedule tt ConsoleTime ConsoleReadInt s else Ok s);
  Ok (ch, set_device (mkConsoleInput (readFile (device s)) EOF) s).

Inductive call := GetChar.

Inductive pos :=
| GetAcquire          (* lock->Acquire() *)
| GetP                (* waitFor->P() *)
| GetRelease (ch : Z). (* lock->Release() *)

#[global] Instance Input_code : Code Sim pos call Z hw := {
  entry c := Ok GetAcquire;
  op_of p := match p with GetAcquire => Acquire 0 | GetP => P 0 | GetRelease _ => Release 0 end;
  go p s := match p with
    | GetAcquire => Ok (s, inl GetP)
    | GetP => '(ch, s) ← device_GetChar s; Ok (s, inl (GetRelease ch))
    | GetRelease ch => Ok (s, inr ch)
    end;
  interrupt := hardware device_CallBack
}.

(** The constructors; the device starts to poll. *)
Definition new_SynchConsoleInput (f : list poll) : res (Sys Sim pos Z) :=
  s ← Schedule tt ConsoleTime ConsoleReadInt (new_sim (mkConsoleInput f EOF));
  Ok (mkSys (mkWorld s {[0%nat := 0]} {[0%nat := None]} ∅) ∅).

(** ** The contract: the characters that GetChar will return *)

(** The characters of a file, up to its end or up to a byte that looks like it,
    which is returned as EOF. *)
Fixpoint chars (f : list poll) : list Z :=
  match f with
  | [] => []
  | Nothing :: f => chars f
  | EndOfFile :: _ => [EOF]
  | Char c :: f => c :: if c =? EOF then [] else chars f
  end.

#[global] Instance Keyboard : Atomic (list Z) call Z := λ _ cs, match cs with [] => None | c :: cs => Some (c, cs) end.

(** ** The monitor *)

Definition holds_lock (ts : tstate pos Z) : bool :=
  match ts with At (GetP | GetRelease _) | Behind (GetAcquire | GetP) => true | _ => false end.

Definition pending (p : pos) : call + Z :=
  match p with GetAcquire | GetP => inl GetChar | GetRelease ch => inr ch end.

(** A character, or EOF, has arrived. *)
Definition arrived (d : ConsoleInput) (cs : list Z) : Prop :=
  cs = incoming d :: if incoming d =? EOF then [] else chars (readFile d).

Definition taken (s : Sim) (ss : gmap nat Z) (cs : list Z) : Prop := Calm s [] ∧ ss !! 0%nat = Some 0 ∧ arrived (device s) cs.

(** The device polls; or a character waits; or there will be no more. *)
Definition keys (s : Sim) (ss : gmap nat Z) (cs : list Z) : Prop :=
  (∃ x, Calm s [x] ∧ ss !! 0%nat = Some 0 ∧ incoming (device s) = EOF ∧ cs = chars (readFile (device s)))
  ∨ Calm s [] ∧ ss !! 0%nat = Some 1 ∧ arrived (device s) cs
  ∨ Calm s [] ∧ ss !! 0%nat = Some 0 ∧ cs = [].

Definition assertion (ts : tstate pos Z) : Sim → gmap nat Z → list Z → Prop :=
  match ts with Behind GetP => taken | _ => keys end.

(** A handler that schedules the next poll. *)
Lemma returns_polling (s : Sim) d d' : Called d s → ∃ s' x, Schedule tt ConsoleTime ConsoleReadInt (set_device d' s) = Ok s' ∧ Returned s d' [x] [] s'.
Proof.
  intros [HR Hl Hh Hy Ht Hd]. destruct (Schedule_ok (set_device d' s) [] tt ConsoleTime ConsoleReadInt) as (p&E&HR'); [by destruct HR|done|]. eexists _, _. split; [exact E|].
  split; try done; [|cbn; by rewrite Hd]. apply Forall_singleton. cbn. unfold ConsoleTime. lia.
Qed.

Definition polled (d d' : ConsoleInput) (xs : list (PendingInterrupt unit)) (ss : list nat) : Prop :=
  readFile d' = tail (readFile d) ∧ chars (readFile d') = chars (readFile d) ∧ incoming d' = EOF ∧ ss = [] ∧ (∃ x, xs = [x])
  ∨ arrived d' (chars (readFile d)) ∧ ss = [0%nat] ∧ xs = [].

Lemma in_handler_ok d : incoming d = EOF → Handles (L := L) device_CallBack d (polled d).
Proof.
  intros Hi s HC. assert (device s = d) as Ed by (unfold device; by rewrite (ca_dev _ _ HC)). unfold device_CallBack. rewrite Ed, Hi, Z.eqb_refl. cbn [ASSERT mbind res_bind].
  assert (s = set_device d s) as Es by (unfold set_device; rewrite (ca_dev _ _ HC); cbn; rewrite <- (ca_dev _ _ HC); by destruct s).
  destruct (readFile d) as [|[|c|] f] eqn:Ef.
  - destruct (returns_polling s d d HC) as (s'&x&E&HRe). rewrite <- Es in E. exists s', d, [x], []. split; [done|]. split; [done|]. left. rewrite Ef. split_and!; try done. by exists x.
  - destruct (returns_polling s d (mkConsoleInput f EOF) HC) as (s'&x&E&HRe). exists s', (mkConsoleInput f EOF), [x], []. split; [done|]. split; [done|]. left. rewrite Ef. split_and!; try done. by exists x.
  - destruct (returns_quiet s d (mkConsoleInput f c) (count_console 1 0 (stats s)) 0 HC eq_refl) as (s'&E&HRe). exists s', (mkConsoleInput f c), [], [0%nat]. split; [done|]. split; [done|]. right. by rewrite Ef.
  - destruct (returns_quiet s d (mkConsoleInput f EOF) (stats s) 0 HC eq_refl) as (s'&E&HRe). exists s', (mkConsoleInput f EOF), [], [0%nat]. split; [done|]. split; [done|]. right. by rewrite Ef.
Qed.

Lemma taken_int i s ss cs r : hardware device_CallBack i s = Some r → taken s ss cs →
  ∃ s' l ss', hardware device_CallBack i s = Some (Ok (s', l)) ∧ foldM bump l ss = Ok ss' ∧ taken s' ss' cs.
Proof.
  intros E (HC&Hs&HA). pose proof (hardware_ok device_CallBack i s [] (λ _ _ _, False) HC ltac:(cbn; lia) ltac:(done)) as HO. rewrite E in HO |- *.
  destruct HO as (s'&d'&xs'&l&->&HC'&_&<-&[(_&Ed&->&->)|[? _]]); [|done]. exists s', [], ss. split; [done|]. split; [done|]. split; [done|]. by rewrite Ed.
Qed.

Lemma keys_int i s ss cs r : hardware device_CallBack i s = Some r → keys s ss cs →
  ∃ s' l ss', hardware device_CallBack i s = Some (Ok (s', l)) ∧ foldM bump l ss = Ok ss' ∧ keys s' ss' cs.
Proof.
  intros E [(x&HC&Hs&Hi&Hc)|[(HC&Hs&HA)|(HC&Hs&Hc)]].
  - pose proof (hardware_ok device_CallBack i s [x] _ HC ltac:(cbn; lia) (λ _, in_handler_ok _ Hi)) as HO. rewrite E in HO |- *.
    destruct HO as (s'&d'&xs'&l&->&HC'&_&Ed'&[(_&Ed&->&->)|[_ [(_&Ec&Ei&->&[y ->])|(HA&->&->)]]]).
    + exists s', [], ss. split; [done|]. split; [done|]. left. exists x. by rewrite Ed', Ed.
    + exists s', [], ss. split; [done|]. split; [done|]. left. exists y. by rewrite Ed', Ei, Ec.
    + exists s', [0%nat], (<[0%nat := 1]> ss). split; [done|]. cbn. unfold bump. rewrite Hs. split; [done|]. right. left. split; [done|]. rewrite lookup_insert_eq. split; [done|]. by rewrite Ed', Hc.
  - pose proof (hardware_ok device_CallBack i s [] (λ _ _ _, False) HC ltac:(cbn; lia) ltac:(done)) as HO. rewrite E in HO |- *.
    destruct HO as (s'&d'&xs'&l&->&HC'&_&<-&[(_&Ed&->&->)|[? _]]); [|done]. exists s', [], ss. split; [done|]. split; [done|]. right. left. split; [done|]. by rewrite Ed.
  - pose proof (hardware_ok device_CallBack i s [] (λ _ _ _, False) HC ltac:(cbn; lia) ltac:(done)) as HO. rewrite E in HO |- *.
    destruct HO as (s'&d'&xs'&l&->&HC'&_&<-&[(_&Ed&->&->)|[? _]]); [|done]. exists s', [], ss. split; [done|]. split; [done|]. right. by right.
Qed.

Lemma get_ok s ss cs : taken s ss cs → ∃ ch s' cs', device_GetChar s = Ok (ch, s') ∧ keys s' ss cs' ∧ cs = ch :: cs'.
Proof.
  intros (HC&Hs&HA). unfold device_GetChar. destruct (Z.eqb_spec (incoming (device s)) EOF) as [Ee|Ee]; cbn [negb mbind res_bind].
  - eexists _, _, _. split; [done|]. unfold arrived in HA. rewrite Ee in HA |- *. split; [|exact HA]. right. right. split; [|done]. by destruct HC as [[] ? ? ? ? ?].
  - destruct (Schedule_calm s (device s) ConsoleTime ConsoleReadInt HC ltac:(done)) as (s'&x&E&HC'&Ed).
    assert (set_device (device s) s = s) as Es by (unfold set_device, device; destruct s as [? ? ? ? ? ? ? ? []]; done). rewrite Es in E. rewrite E. cbn [mbind res_bind]. eexists _, _, _. split; [done|].
    unfold arrived in HA. rewrite (proj2 (Z.eqb_neq _ _) Ee) in HA. split; [|exact HA]. left. exists x. split; [by destruct HC' as [[] ? ? ? ? ?]|]. split; [done|]. split; [done|]. cbn. by rewrite Ed.
Qed.

#[global] Program Instance Input_monitor : Monitor Sim pos call Z hw (list Z) 0 := {
  own := holds_lock;
  pend := pending;
  J := keys;
  K := assertion;
  cond_of _ := False;
  bad _ _ := False;
  wf _ := True
}.
Next Obligation. intros [] p E. cbn in E. by injection E as <-. Qed.
Next Obligation. done. Qed.
Next Obligation.
  intros []; cbn; split_and!; try done. intros s ss cs [(x&HC&Hs&Hi&Hc)|[(HC&Hs&HA)|(HC&Hs&Hc)]]; [by exists 0| |by exists 0].
  exists 1. split; [done|]. intros _. split; [done|]. by rewrite lookup_insert_eq.
Qed.
Next Obligation.
  intros p s ss cs _ Ho HA. left. destruct p; try done; cbn in HA |- *.
  - eexists s, _, cs. do 4 (split; [done|]). by left.
  - destruct (get_ok s ss cs HA) as (ch&s'&cs'&E&HK&->). rewrite E. eexists s', _, cs'. do 4 (split; [done|]). right. by eexists _, _.
Qed.
Next Obligation. intros p s _ Ho. destruct p; try done; cbn; by eexists. Qed.
Next Obligation.
  intros i s ss cs r E. split; [intros HA; by apply (keys_int _ _ _ _ _ E HA)|]. intros ts _ HA. unfold Conc.handled, assertion in *.
  destruct ts as [v|p|p|p]; try (by apply (keys_int _ _ _ _ _ E HA)). destruct p; try (by apply (keys_int _ _ _ _ _ E HA)). by apply (taken_int _ _ _ _ _ E HA).
Qed.

Lemma new_in_ok f : ∃ s0 : Sys Sim pos Z, new_SynchConsoleInput f = Ok s0 ∧ threads s0 = ∅ ∧ Ok_ (L := 0) s0 (chars f).
Proof.
  destruct (Schedule_calm (new_sim (mkConsoleInput f EOF)) (mkConsoleInput f EOF) ConsoleTime ConsoleReadInt (new_sim_calm _) ltac:(done)) as (s'&x&E&HC&Ed).
  unfold new_SynchConsoleInput. change (set_device _ (new_sim _)) with (new_sim (L := L) (mkConsoleInput f EOF)) in E. rewrite E. eexists. split; [done|]. split; [done|].
  split; cbn; [|done..]. exists None. split; [done|]. left. exists x. by rewrite Ed.
Qed.

(** With characters to come, the keyboard delivers one after finitely many
    polls. *)
Lemma polls_arrive (s : Sys Sim pos Z) (t : nat) (x : PendingInterrupt unit) :
  Calm (obj (world s)) [x] → sems (world s) !! 0%nat = Some 0 → incoming (device (obj (world s))) = EOF → threads s !! t = Some (At GetP) →
  chars (readFile (device (obj (world s)))) ≠ [] →
  ∃ n s', (n ≤ length (readFile (device (obj (world s)))))%nat ∧ exec (replicate n (EInt UntilDue)) s = Some ([], s') ∧ is_Some (step (EGo t) s').
Proof.
  remember (readFile (device (obj (world s)))) as f eqn:Ef. revert s x Ef. induction f as [|p f IH]; intros s x Ef HC Hs Hi Ht Hne; [done|].
  pose proof (hardware_ok device_CallBack UntilDue _ [x] _ HC ltac:(cbn; lia) (λ _, in_handler_ok _ Hi)) as HO.
  destruct (hardware device_CallBack UntilDue (obj (world s))) as [r|] eqn:E; [|by destruct HO].
  destruct HO as (s'&d'&xs'&l&->&HC'&_&Ed'&[(?&_)|[_ [(Et&Ec&Ei&->&[y ->])|(HA&->&->)]]]); [done| |].
  - set (s1 := mkSys (mkWorld s' (sems (world s)) (locks (world s)) (conds (world s))) (threads s)).
    assert (step (EInt UntilDue) s = Some (Ok s1)) as E1. { unfold step. change (interrupt UntilDue _) with (hardware device_CallBack UntilDue (obj (world s))). rewrite E. done. }
    rewrite <- Ef in Et, Ec. cbn in Et. destruct (IH s1 y) as (n&s2&Hn&E2&Hg); cbn; try done; [by rewrite Ed', Et|by rewrite Ed'|by rewrite <- Et, Ec|].
    exists (S n), s2. split; [cbn; lia|]. split; [|done]. cbn [replicate exec]. rewrite E1. by rewrite E2.
  - destruct (interrupt_wakes s t GetP 0 UntilDue s' Ht) as (s2&E2&Hg); [done|done|exact E|]. exists 1%nat, s2. split; [cbn; lia|]. split; [|done]. cbn [replicate exec]. by rewrite E2.
Qed.
End CODE.

(** ** Theorems *)

Section THEOREMS.
Context {L : Type} `{SA : !SortedADT (PendingInterrupt unit) PendingCompare L}.
Abbreviation System := (Sys (Interrupt (ConsoleInput * list nat) L) pos Z).

(** C26 (refinement): the synchronised keyboard is a stream: whatever the
    interleaving of threads and interrupts, no step fails, and for every
    history of GetChar calls there is a run in which each call takes the next
    character of the keyboard file at one instant between its start and its
    return; no character is lost or read twice.  The end of the file, and a
    byte of value 255, which is the same [char] as EOF, are returned once, and
    nothing after them. *)
Theorem synchconsole_input_stream (f : list poll) (s0 : System) (h : list (hev call Z)) (s : System) :
  new_SynchConsoleInput f = Ok s0 → Run s0 h s → (∃ cs ph, ARun (chars f, ∅) h (cs, ph)) ∧ ∀ e err, step e s ≠ Some (Err err).
Proof.
  intros E0 HR. destruct (new_in_ok (L := L) f) as (s1&E1&Ht&HS0). rewrite E0 in E1. injection E1 as <-. split.
  - destruct (monitor_refines (L := 0) _ _ h s HS0 Ht HR) as (cs&_&HA). by exists cs, (phases (threads s)).
  - intros e err E. pose proof (monitor_safe (L := 0) _ _ h s e err HS0 HR E) as HW. destruct e as [t c|t|i]; [by destruct HW|by destruct HW as (p&_&[])|done].
Qed.

(** A reader gets its character: when a thread waits in GetChar
    while the contract still has characters to give, it can go on after at most
    as many interrupts of the idle machine as there are polls left. *)
Theorem synchconsole_input_arrives (f : list poll) (s0 : System) (h : list (hev call Z)) (s : System) (t : nat) :
  new_SynchConsoleInput f = Ok s0 → Run s0 h s → threads s !! t = Some (At GetP) →
  ∃ cs ph, ARun (chars f, ∅) h (cs, ph) ∧
    (cs ≠ [] → ∃ n s', (n ≤ length (readFile (device (obj (world s)))))%nat ∧ exec (replicate n (EInt UntilDue)) s = Some ([], s') ∧ is_Some (step (EGo t) s')).
Proof.
  intros E0 HR Ht. destruct (new_in_ok (L := L) f) as (s1&E1&Ht0&HS0). rewrite E0 in E1. injection E1 as <-.
  destruct (monitor_refines (L := 0) _ _ h s HS0 Ht0 HR) as (cs&HS&HA). exists cs, (phases (threads s)). split; [done|]. intros Hne.
  destruct (Ok_holder s cs t _ HS Ht eq_refl) as [_ [(x&HC&Hs&Hi&Hc)|[(HC&Hs&HA')|(HC&Hs&Hc)]]]; [| |done].
  - apply (polls_arrive s t x); try done. by rewrite <- Hc.
  - exists 0%nat, s. split; [lia|]. split; [done|]. cbn. rewrite Ht. cbn. rewrite Hs. by eexists.
Qed.
End THEOREMS.

(** ** Witnesses: a key after an empty poll, then the end of the file *)

Abbreviation Con := (Sys (Interrupt (ConsoleInput * list nat) (NList.List (PendingInterrupt unit))) pos Z).

Definition typed : list poll := [Nothing; Char 65; EndOfFile].

Definition start : Con := match new_SynchConsoleInput typed with Ok s => s | Err _ => mkSys (mkWorld (new_sim (mkConsoleInput [] EOF)) ∅ ∅ ∅) ∅ end.

Lemma start_ok : new_SynchConsoleInput typed = Ok start.
Proof. vm_compute. reflexivity. Qed.

Definition get (t : nat) : list (event call hw) := [ECall t GetChar; EGo t; EGo t].

Definition two_gets : list (event call hw) := get 1 ++ [EInt UntilDue; EInt UntilDue; EGo 1; EGo 1; EGo 1; EGo 1] ++ get 2 ++ [EInt UntilDue; EGo 2; EGo 2; EGo 2; EGo 2].

Lemma two_gets_history : fst <$> exec two_gets start = Some [HCall 1 GetChar; HRet 1 65; HCall 2 GetChar; HRet 2 EOF].
Proof. vm_compute. reflexivity. Qed.

Lemma synchconsole_input_stream_witness : ∃ cs ph, ARun ([65; EOF], ∅) [HCall 1 GetChar; HRet 1 65; HCall 2 GetChar; HRet 2 EOF] (cs, ph).
Proof.
  pose proof two_gets_history as E. destruct (exec two_gets start) as [[h s]|] eqn:Ee; [|done]. injection E as ->.
  exact (proj1 (synchconsole_input_stream typed start _ s start_ok (exec_run _ _ _ _ Ee))).
Defined.

Lemma synchconsole_input_arrives_witness : ∃ (s : Con) h, Run start h s ∧ ∃ cs ph, ARun ([65; EOF], ∅) h (cs, ph) ∧
  (cs ≠ [] → ∃ n s', (n ≤ length (readFile (device (obj (world s)))))%nat ∧ exec (replicate n (EInt UntilDue)) s = Some ([], s') ∧ is_Some (step (EGo 1) s')).
Proof.
  assert (match exec (get 1) start with Some (_, s) => match threads s !! 1%nat with Some (At GetP) => true | _ => false end | None => false end = true) as E by (vm_compute; reflexivity).
  destruct (exec (get 1) start) as [[h s]|] eqn:Ee; [|done]. pose proof (exec_run _ _ _ _ Ee) as HR. exists s, h. split; [done|].
  destruct (threads s !! 1%nat) as [[|[]| |]|] eqn:Et; try done. exact (synchconsole_input_arrives typed start h s 1 start_ok HR Et).
Defined.
End ConsoleIn.
