(* ===== verification/Network.v ===== *)
(** machine/network.{h,cc} and the sending half of network/post.{h,cc}.

    Module Packet holds the headers and their bytes on the wire, Module
    PostOut the network output device (NetworkOutput) and PostOfficeOutput::Send
    on it, a monitor in the sense of Conc.v on the machine of Hardware.v (lock 0
    is sendLock, semaphore 0 is messageSent).  The receiving half is PostOffice.v.

    Parameters are [fresh], the contents of new memory ([new char[n]] does not
    initialise it), and the host's random numbers.  The sockets are the list of
    the packets handed to SendToSocket with their destinations.  The [double]
    chanceToWork is a rational number. *)

From Stdlib Require QArith.QArith_base.
From S2P Require Import Prelude LinkedList ListADT Machine Interrupt Conc Hardware.
Import Interrupt InterruptSpec Hardware.

Module Packet.

Record PacketHeader := mkPacketHeader { pkt_to : Z; pkt_from : Z; pkt_length : Z }.
Record MailHeader := mkMailHeader { mail_to : Z; mail_from : Z; mail_length : Z }.

Definition sizeof_header : Z := 12.
Definition MaxWireSize : Z := 64.
Definition MaxPacketSize : Z := MaxWireSize - sizeof_header.
Definition MaxMailSize : Z := MaxPacketSize - sizeof_header.

(** The objects as bytes of the host. *)
Definition pkt_bytes (h : PacketHeader) : list Z := words_encode [pkt_to h; pkt_from h; pkt_length h].
Definition mail_bytes (h : MailHeader) : list Z := words_encode [mail_to h; mail_from h; mail_length h].

Definition header_of {H} (mk : Z → Z → Z → H) (b : list Z) : res H :=
  ASSERT (sizeof_header <=? Z.of_nat (length b)) ;;
  match words_decode 3 b with
  | [to; from; len] => Ok (mk to from (u32 len))
  | _ => Err BadAccess
  end.

(** [*(PacketHeader * )buffer], [*(MailHeader * )buffer]. *)
Definition pkt_of : list Z → res PacketHeader := header_of mkPacketHeader.
Definition mail_of : list Z → res MailHeader := header_of mkMailHeader.

(** bcopy of [n] bytes of [src] to [dst + off]. *)
Definition bcopy (src dst : list Z) (off n : Z) : res (list Z) :=
  if (0 <=? n) && (n <=? Z.of_nat (length src)) && (off + n <=? Z.of_nat (length dst))
  then Ok (splice dst off (take (Z.to_nat n) src)) else Err BadAccess.

Definition header_ok (to from len : Z) : Prop := is_s32 to ∧ is_s32 from ∧ 0 ≤ len < halfword.

Lemma header_of_words {H} (mk : Z → Z → Z → H) to from len rest :
  header_ok to from len → header_of mk (words_encode [to; from; len] ++ rest) = Ok (mk to from len).
Proof.
  intros (Ht&Hf&Hl). unfold header_of. rewrite length_app, length_words_encode. cbn [length].
  rewrite (proj2 (Z.leb_le sizeof_header _)) by (unfold sizeof_header; lia). cbn [ASSERT mbind res_bind].
  rewrite (words_decode_encode [to; from; len]) by (repeat constructor; try done; unfold_int; lia). f_equal. f_equal. apply u32_id. unfold_int. lia.
Qed.

Lemma bcopy_ok src dst off n :
  0 ≤ off → 0 ≤ n ≤ Z.of_nat (length src) → off + n ≤ Z.of_nat (length dst) →
  bcopy src dst off n = Ok (splice dst off (take (Z.to_nat n) src)) ∧ length (splice dst off (take (Z.to_nat n) src)) = length dst.
Proof.
  intros Ho Hn Hd. unfold bcopy. rewrite (proj2 (Z.leb_le 0 n)), (proj2 (Z.leb_le n _)), (proj2 (Z.leb_le (off + n) _)) by lia. split; [done|].
  apply length_splice; [done|]. rewrite length_take. lia.
Qed.

Lemma splice_0 (l d : list Z) : splice l 0 d = d ++ drop (length d) l.
Proof. done. Qed.

Lemma length_pkt_bytes h : length (pkt_bytes h) = 12%nat.
Proof. unfold pkt_bytes. by rewrite length_words_encode. Qed.

Lemma length_mail_bytes h : length (mail_bytes h) = 12%nat.
Proof. unfold mail_bytes. by rewrite length_words_encode. Qed.

Lemma splice_header (b h t : list Z) : length h = 12%nat → splice (splice b 0 h) 12 t = h ++ t ++ drop (12 + length t) b.
Proof.
  intros Hh. rewrite splice_0, Hh. unfold splice. change (Z.to_nat 12) with 12%nat.
  rewrite take_app_length' by done. rewrite <- drop_drop, drop_app_length', drop_drop by done. done.
Qed.

(** A header in front of its data, as both layers build it: reading it back
    gives the header and the data. *)
Lemma framed_read {H} (mk : Z → Z → Z → H) to from len hdr buf data n :
  header_ok to from len → hdr = words_encode [to; from; len] → 0 ≤ n ≤ Z.of_nat (length data) → 12 + n ≤ Z.of_nat (length buf) →
  let b := splice (splice buf 0 hdr) 12 (take (Z.to_nat n) data) in
  header_of mk b = Ok (mk to from len) ∧ slice b 12 n = take (Z.to_nat n) data ∧ length b = length buf.
Proof.
  intros Hok -> Hn Hb b. assert (Hlen : length (words_encode [to; from; len]) = 12%nat) by (by rewrite length_words_encode).
  set (b1 := splice buf 0 (words_encode [to; from; len])) in *. assert (Hl1 : length b1 = length buf) by (apply length_splice; rewrite ?Hlen; lia).
  assert (Hd : Z.of_nat (length (take (Z.to_nat n) data)) = n) by (rewrite length_take; lia).
  split; [|split].
  - subst b. unfold splice at 1. replace (take (Z.to_nat 12) b1) with (words_encode [to; from; len]); [by apply header_of_words|].
    subst b1. rewrite splice_0, Hlen. change (Z.to_nat 12) with 12%nat. rewrite <- Hlen at 1. by rewrite take_app_length.
  - rewrite <- Hd at 1. apply slice_splice_same; lia.
  - subst b. rewrite length_splice; lia.
Qed.
End Packet.

Module PostOut.
Import Conc Packet.
Local Abbreviation Q := QArith_base.Q.

(** [sent] is what SendToSocket was given. *)
Record NetworkOutput (Seed : Type) := mkNetworkOutput { sent : list (Z * list Z); chanceToWork : Q; sendBusy : bool; seed : Seed }.
#[global] Arguments mkNetworkOutput {Seed}.
#[global] Arguments sent {Seed}.
#[global] Arguments chanceToWork {Seed}.
#[global] Arguments sendBusy {Seed}.
#[global] Arguments seed {Seed}.

Definition count_sent (st : Statistics) : Statistics :=
  mkStats (totalTicks st) (idleTicks st) (systemTicks st) (userTicks st) (numDiskReads st) (numDiskWrites st)
    (numConsoleCharsRead st) (numConsoleCharsWritten st) (numPageFaults st) (numPacketsSent st + 1) (numPacketsRecvd st).

(** [RandomNumber() % 100 >= chanceToWork * 100]. *)
Definition lost (r : Z) (chance : Q) : bool :=
  QArith_base.Qle_bool (QArith_base.Qmult chance (QArith_base.inject_Z 100)) (QArith_base.inject_Z (u32 r mod 100)).

Section CODE.
Context {Seed : Type} (RandomNumber : Seed → Z * Seed) (fresh : Z → list Z) (hostName : Z).
Context {L : Type} `{SA : !SortedADT (PendingInterrupt unit) PendingCompare L}.
Abbreviation Sim := (Interrupt (NetworkOutput Seed * list nat) L).
Abbreviation Device := (NetworkOutput Seed).

(** The constructor of the device. *)
Definition new_NetworkOutput (reliability : Q) (sd : Seed) : Device :=
  let zero := QArith_base.inject_Z 0 in
  let one := QArith_base.inject_Z 1 in
  mkNetworkOutput []
    (if negb (QArith_base.Qle_bool zero reliability) then zero
     else if negb (QArith_base.Qle_bool reliability one) then one else reliability) false sd.

(** What NetworkOutput::Send puts into its socket. *)
Definition wire_packet (hdr : PacketHeader) (data : list Z) : res (list Z) :=
  buffer ← bcopy (pkt_bytes hdr) (fresh MaxWireSize) 0 sizeof_header;
  bcopy data buffer sizeof_header (pkt_length hdr).

(** NetworkOutput::Send. *)
Definition device_Send (hdr : PacketHeader) (data : list Z) (s : Sim) : res Sim :=
  ASSERT (negb (sendBusy (device s)) && (0 <? pkt_length hdr) && (pkt_length hdr <=? MaxPacketSize) && (pkt_from hdr =? hostName)) ;;
  s ← Schedule tt NetworkTime NetworkSendInt s;
  let d := device s in
  let '(r, sd) := RandomNumber (seed d) in
  if lost r (chanceToWork d) then Ok (set_device (mkNetworkOutput (sent d) (chanceToWork d) (sendBusy d) sd) s)
  else
    buffer ← wire_packet hdr data;
    Ok (set_device (mkNetworkOutput (sent d ++ [(pkt_to hdr, buffer)]) (chanceToWork d) (sendBusy d) sd) s).

Definition not_busy (d : Device) : Device := mkNetworkOutput (sent d) (chanceToWork d) false (seed d).

(** PostOfficeOutput::CallBack. *)
Definition CallBack : Sim → res Sim := V_later 0.

(** NetworkOutput::CallBack. *)
Definition device_CallBack (s : Sim) : res Sim :=
  let s := set_device (not_busy (device s)) s in
  let s := set_stats (count_sent (stats s)) s in
  CallBack s.

Inductive call := Send (pktHdr : PacketHeader) (mailHdr : MailHeader) (data : list Z).

Inductive pos :=
| SendAcquire (c : call) (pktHdr : PacketHeader) (buffer : list Z) (* sendLock->Acquire() *)
| SendP                                                            (* messageSent->P() *)
| SendRelease.                                                     (* sendLock->Release() *)

(** PostOfficeOutput::Send up to the lock: the packet header and the buffer. *)
Definition prepare (c : call) : res (PacketHeader * list Z) :=
  let 'Send pktHdr mailHdr data := c in
  let buffer := fresh MaxPacketSize in
  ASSERT (mail_length mailHdr <=? MaxMailSize) ;;
  ASSERT (0 <=? mail_to mailHdr) ;;
  let pktHdr := mkPacketHeader (pkt_to pktHdr) hostName (u32 (mail_length mailHdr + sizeof_header)) in
  buffer ← bcopy (mail_bytes mailHdr) buffer 0 sizeof_header;
  buffer ← bcopy data buffer sizeof_header (mail_length mailHdr);
  Ok (pktHdr, buffer).

#[local] Instance Output_code : Code Sim pos call unit hw := {
  entry c := '(hdr, buffer) ← prepare c; Ok (SendAcquire c hdr buffer);
  op_of p := match p with SendAcquire _ _ _ => Acquire 0 | SendP => P 0 | SendRelease => Release 0 end;
  go p s := match p with
    | SendAcquire _ hdr buffer => s ← device_Send hdr buffer s; Ok (s, inl SendP)
    | SendP => Ok (s, inl SendRelease)
    | SendRelease => Ok (s, inr tt)
    end;
  interrupt := hardware device_CallBack
}.

(** The constructor. *)
Definition new_PostOfficeOutput (reliability : Q) (sd : Seed) : Sys Sim pos unit :=
  mkSys (mkWorld (new_sim (new_NetworkOutput reliability sd)) {[0%nat := 0]} {[0%nat := None]} ∅) ∅.

(** ** The contract: the packets on the network *)

(** What is wrong with a message: it is longer than 40 bytes, its mailbox is
    negative, or it is longer than the data it comes with. *)
Definition refused (c : call) : option fault :=
  let 'Send _ mailHdr data := c in
  if decide (40 < mail_length mailHdr ∨ mail_to mailHdr < 0) then Some AssertFailed
  else if decide (0 ≤ mail_length mailHdr ≤ Z.of_nat (length data)) then None else Some BadAccess.

(** A message on the wire: six words, the receiving and the sending machine, the
    length with the mail header, the two mailboxes, the length, then the data,
    and what the new memory had up to 64 bytes. *)
Definition on_the_wire (c : call) : Z * list Z :=
  let 'Send pktHdr mailHdr data := c in
  let n := mail_length mailHdr in
  (pkt_to pktHdr,
   words_encode [pkt_to pktHdr; hostName; n + 12; mail_to mailHdr; mail_from mailHdr; n]
     ++ take (Z.to_nat n) data ++ drop (24 + Z.to_nat n) (fresh 64)).

(** The network delivers a packet in [reliability] of all cases: one of the
    hundred last two digits of the random number lies below. *)
Definition gets_through (reliability : Q) (r : Z) : bool :=
  u32 r mod 100 * Z.pos (QArith_base.Qden reliability) <? 100 * QArith_base.Qnum reliability.

(** A call with a good message puts its packet on the network, or the network
    loses it. *)
Definition transmit (reliability : Q) (c : call) (a : list (Z * list Z) * Seed) : option (unit * (list (Z * list Z) * Seed)) :=
  match refused c with
  | Some _ => None
  | None =>
    let '(r, sd) := RandomNumber (snd a) in
    Some (tt, (if gets_through reliability r then fst a ++ [on_the_wire c] else fst a, sd))
  end.

(** ** The monitor *)

Definition holds_lock (ts : tstate pos unit) : bool :=
  match ts with At (SendP | SendRelease) | Behind (SendAcquire _ _ _ | SendP) => true | _ => false end.

Definition pending (p : pos) : call + unit := match p with SendAcquire c _ _ => inl c | _ => inr tt end.

Definition prepared (p : pos) : Prop := match p with SendAcquire c hdr buffer => prepare c = Ok (hdr, buffer) | _ => True end.

Definition sends (reliability : Q) (d : Device) (a : list (Z * list Z) * Seed) : Prop :=
  sendBusy d = false ∧ (∀ r, lost r (chanceToWork d) = negb (gets_through reliability r)) ∧ a = (sent d, seed d).

Definition assertion (reliability : Q) (ts : tstate pos unit) : Sim → gmap nat Z → list (Z * list Z) * Seed → Prop :=
  match ts with At SendP => asked not_busy (sends reliability) | _ => at_rest (sends reliability) end.

Lemma send_handler_ok d : Handles (L := L) device_CallBack d (λ d' xs ss, d' = not_busy d ∧ xs = [] ∧ ss = [0%nat]).
Proof.
  intros s HC. destruct (returns_quiet s d (not_busy d) (count_sent (stats s)) 0 HC eq_refl) as (s'&E&HRe). exists s', (not_busy d), [], [0%nat]. split; [|by split].
  rewrite <- E. unfold device_CallBack, CallBack, set_device, device. by rewrite (ca_dev _ _ HC).
Qed.

Context (Hfresh : ∀ n, 0 ≤ n → Z.of_nat (length (fresh n)) = n).

(** What prepare guarantees. *)
Lemma prepare_Ok c hdr buffer : prepare c = Ok (hdr, buffer) →
  let 'Send pktHdr mailHdr data := c in
  0 ≤ mail_length mailHdr ≤ MaxMailSize ∧ mail_length mailHdr ≤ Z.of_nat (length data) ∧ 0 ≤ mail_to mailHdr
  ∧ hdr = mkPacketHeader (pkt_to pktHdr) hostName (mail_length mailHdr + sizeof_header)
  ∧ buffer = splice (splice (fresh MaxPacketSize) 0 (mail_bytes mailHdr)) 12 (take (Z.to_nat (mail_length mailHdr)) data)
  ∧ Z.of_nat (length buffer) = MaxPacketSize.
Proof.
  destruct c as [pktHdr mailHdr data]. unfold prepare. intros E. apply bind_Ok in E as ([]&E1%ASSERT_Ok&E). apply bind_Ok in E as ([]&E2%ASSERT_Ok&E).
  destruct (bcopy_ok (mail_bytes mailHdr) (fresh MaxPacketSize) 0 sizeof_header) as [Ec Hl]; [lia|rewrite length_mail_bytes; unfold sizeof_header; lia|rewrite Hfresh; done|].
  rewrite Ec in E. cbn [mbind res_bind] in E. replace (take (Z.to_nat sizeof_header) (mail_bytes mailHdr)) with (mail_bytes mailHdr) in * by (rewrite take_ge; [done|by rewrite length_mail_bytes]).
  apply bind_Ok in E as (b&E3&[= <- <-]). unfold bcopy in E3. destruct (_ && _) eqn:Ec2; [|done]. injection E3 as <-. apply andb_true_iff in Ec2 as [[Ea Eb]%andb_true_iff Ed].
  unfold MaxMailSize, MaxPacketSize, MaxWireSize, sizeof_header in *. rewrite u32_id by (unfold_int; lia).
  split_and!; try lia; [done|done|]. rewrite length_splice; [by rewrite Hl, Hfresh|lia|]. rewrite Hl, Hfresh, length_take by lia. lia.
Qed.

Lemma wire_packet_Ok c hdr buffer : prepare c = Ok (hdr, buffer) →
  wire_packet hdr buffer = Ok (splice (splice (fresh MaxWireSize) 0 (pkt_bytes hdr)) 12 (take (Z.to_nat (pkt_length hdr)) buffer))
  ∧ 0 < pkt_length hdr ≤ MaxPacketSize ∧ pkt_from hdr = hostName.
Proof.
  intros E. apply prepare_Ok in E. destruct c as [pktHdr mailHdr data]. destruct E as (Hm&Hd&Ht&->&_&Hb). cbn [pkt_length pkt_from]. unfold wire_packet. cbn [pkt_length].
  destruct (bcopy_ok (pkt_bytes (mkPacketHeader (pkt_to pktHdr) hostName (mail_length mailHdr + sizeof_header))) (fresh MaxWireSize) 0 sizeof_header) as [-> Hl];
    [lia|rewrite length_pkt_bytes; unfold sizeof_header; lia|rewrite Hfresh; done|]. cbn [mbind res_bind].
  rewrite (take_ge (pkt_bytes _)) in * by (by rewrite length_pkt_bytes). unfold MaxMailSize, MaxPacketSize, MaxWireSize, sizeof_header in *.
  destruct (bcopy_ok buffer (splice (fresh 64) 0 (pkt_bytes (mkPacketHeader (pkt_to pktHdr) hostName (mail_length mailHdr + 12)))) 12 (mail_length mailHdr + 12)) as [-> _]; [lia|lia| |].
  { rewrite Hl, Hfresh by lia. lia. }
  split; [done|]. split; [lia|done].
Qed.

(** Exactly the messages that are refused make prepare fail. *)
Lemma prepare_refused c : match refused c with Some f => prepare c = Err f | None => ∃ p, prepare c = Ok p end.
Proof.
  destruct c as [pktHdr mailHdr data]. unfold refused, prepare. case_decide as Hbad.
  - destruct (Z.leb_spec (mail_length mailHdr) MaxMailSize); [|done]. cbn. rewrite (proj2 (Z.leb_gt _ _)); [done|].
    unfold MaxMailSize, MaxPacketSize, MaxWireSize, sizeof_header in *. lia.
  - assert (MaxMailSize = 40) as EM by done. rewrite (proj2 (Z.leb_le _ MaxMailSize)), (proj2 (Z.leb_le 0 _)) by lia. cbn [ASSERT mbind res_bind].
    destruct (bcopy_ok (mail_bytes mailHdr) (fresh MaxPacketSize) 0 sizeof_header) as [-> Hl];
      [lia|rewrite length_mail_bytes; unfold sizeof_header; lia|by rewrite Hfresh|]. cbn [mbind res_bind].
    set (b := splice _ _ _) in *. case_decide as Hok.
    + destruct (bcopy_ok data b sizeof_header (mail_length mailHdr)) as [-> _]; [done|lia| |by eexists].
      rewrite Hl, Hfresh by done. unfold MaxPacketSize, MaxWireSize, sizeof_header. lia.
    + unfold bcopy. destruct (Z.leb_spec 0 (mail_length mailHdr)), (Z.leb_spec (mail_length mailHdr) (Z.of_nat (length data))); try done. lia.
Qed.

(** The two bcopys and the two headers put the message on the wire. *)
Lemma wire_packet_bytes c hdr buffer : prepare c = Ok (hdr, buffer) → wire_packet hdr buffer = Ok (on_the_wire c).2 ∧ pkt_to hdr = (on_the_wire c).1.
Proof.
  intros E. destruct (wire_packet_Ok c hdr buffer E) as [-> _]. apply prepare_Ok in E. destruct c as [pktHdr mailHdr data]. destruct E as (Hm&Hd&_&->&->&_). split; [|done].
  f_equal. cbn [on_the_wire snd pkt_length pkt_to pkt_from]. set (n := mail_length mailHdr) in *. set (t := take (Z.to_nat n) data).
  assert (Ht : length t = Z.to_nat n) by (unfold t; rewrite length_take; lia).
  rewrite !splice_header by (apply length_pkt_bytes || apply length_mail_bytes).
  replace (Z.to_nat (n + sizeof_header)) with (length (mail_bytes mailHdr ++ t)) by (rewrite length_app, length_mail_bytes, Ht; unfold sizeof_header; lia).
  rewrite (app_assoc (mail_bytes mailHdr)), take_app_length, length_app, length_mail_bytes, Ht. by rewrite <- !app_assoc.
Qed.

(** The clamped chance and the comparison lose exactly the packets that do not
    get through. *)
Lemma lost_iff (reliability : Q) (sd : Seed) (r : Z) :
  lost r (chanceToWork (new_NetworkOutput reliability sd)) = negb (gets_through reliability r).
Proof.
  pose proof (Z.mod_pos_bound (u32 r) 100 ltac:(lia)) as Hr. destruct reliability as [n d]. unfold gets_through, lost, new_NetworkOutput, QArith_base.Qle_bool, QArith_base.inject_Z. cbn.
  generalize dependent (u32 r `mod` 100). intros k Hk. apply Bool.eq_iff_eq_true. rewrite negb_true_iff, Z.ltb_ge.
  repeat case_match; cbn in *; rewrite ?negb_false_iff, ?negb_true_iff, ?Z.leb_le, ?Z.leb_gt in *; nia.
Qed.

Lemma send_asks reliability c hdr buffer (s : Sim) ss a : prepare c = Ok (hdr, buffer) → at_rest (sends reliability) s ss a →
  ∃ s' a', device_Send hdr buffer s = Ok s' ∧ asked not_busy (sends reliability) s' ss a' ∧ transmit reliability c a = Some (tt, a').
Proof.
  intros Ep (HC&Hs&Hb&Hch&->). destruct (wire_packet_Ok c hdr buffer Ep) as (_&Hl&Hf). destruct (wire_packet_bytes c hdr buffer Ep) as [Ew Et].
  pose proof (prepare_refused c) as Hc. destruct (refused c) eqn:Er; [congruence|]. unfold device_Send, transmit. rewrite Er, Hb, Hf, (proj2 (Z.ltb_lt _ _)), (proj2 (Z.leb_le _ MaxPacketSize)), Z.eqb_refl by lia.
  cbn [negb andb ASSERT mbind res_bind fst snd]. destruct (Schedule_calm s (device s) NetworkTime NetworkSendInt HC ltac:(done)) as (s'&x&E&HC'&Ed).
  assert (set_device (device s) s = s) as Es by (unfold set_device, device; destruct s as [? ? ? ? ? ? ? ? []]; done). rewrite Es in E. rewrite E. cbn [mbind res_bind]. rewrite Ed.
  destruct (RandomNumber (seed (device s))) as [r sd]. rewrite (Hch r), Et, Ew. cbn [mbind res_bind]. rewrite <- surjective_pairing.
  destruct (gets_through reliability r); eexists _, _; (split; [done|]; split; [|done]); left; exists x; (split; [by destruct HC' as [[] ? ? ? ? ?]|]; split; [done|by split]).
Qed.

Section MONITOR.
Context (reliability : Q).
#[local] Instance Network : Atomic (list (Z * list Z) * Seed) call unit := transmit reliability.

#[local] Program Instance Output_monitor : Monitor Sim pos call unit hw (list (Z * list Z) * Seed) 0 := {
  own := holds_lock;
  pend := pending;
  J := at_rest (sends reliability);
  K := assertion reliability;
  cond_of _ := False;
  bad _ _ := False;
  wf := prepared
}.
Next Obligation. intros c p E. cbn in E. apply bind_Ok in E as ([hdr buffer]&E&[= <-]). done. Qed.
Next Obligation. done. Qed.
Next Obligation. intros []; cbn; split_and!; try done. intros x ss a HA. by apply (asked_P _ _ _ _ _ HA). Qed.
Next Obligation.
  intros p s ss a Hp Ho HA. left. destruct p as [c hdr buffer| |]; try done; cbn in HA, Hp |- *.
  - destruct (send_asks reliability c hdr buffer s ss a Hp HA) as (s'&a'&E&HA'&Ea). rewrite E. eexists s', _, a'. do 3 (split; [done|]). split; [exact HA'|]. right. by eexists _, _.
  - eexists s, _, a. do 4 (split; [done|]). by left.
Qed.
Next Obligation. intros p s _ Ho. destruct p; try done; cbn; by eexists. Qed.
Next Obligation.
  intros i s ss a r E. split; [intros HA; by apply (at_rest_int _ _ _ send_handler_ok _ _ _ _ _ E HA)|]. intros ts _ HA. unfold Conc.handled, assertion in *.
  destruct ts as [v|p|p|p]; try (by apply (at_rest_int _ _ _ send_handler_ok _ _ _ _ _ E HA)).
  destruct p; try (by apply (at_rest_int _ _ _ send_handler_ok _ _ _ _ _ E HA)). by apply (asked_int _ _ _ send_handler_ok _ _ _ _ _ E HA).
Qed.
End MONITOR.

(** ** Theorems *)

Context (reliability : Q) (sd : Seed).
Abbreviation System := (Sys Sim pos unit).
Abbreviation start := (new_PostOfficeOutput reliability sd).

#[local] Instance reliable_network : Atomic (list (Z * list Z) * Seed) call unit := Network reliability.

Lemma new_send_ok : Ok_ (Monitor0 := Output_monitor reliability) start ([], sd).
Proof. split; cbn; [|done..]. exists None. split; [done|]. split; [apply new_sim_calm|]. split; [done|]. split; [done|]. split; [|done]. intros r. apply lost_iff. Qed.

(** C27 (refinement): PostOfficeOutput::Send is atomic: whatever the
    interleaving of threads and interrupts, for every history of calls there is a
    run in which each call hands its packet to the network at one instant between
    its start and its return: 64 bytes, the two headers with the sender's own
    machine number and the lengths filled in, then the data; or loses it, exactly
    when the last two digits of the random number are not below 100 times the
    reliability.  While the lock is free the socket has been given exactly these
    packets, in that order.  A call fails an assertion if its message is longer
    than 40 bytes or its mailbox negative, and reads outside an array if the
    message is longer than its data; no other step fails. *)
Theorem postoffice_send_atomic (h : list (hev call unit)) (s : System) :
  Run start h s →
  (∃ a ph, ARun (([], sd), ∅) h (a, ph) ∧ (locks (world s) !! 0%nat = Some None → (sent (device (obj (world s))), seed (device (obj (world s)))) = a))
  ∧ (∀ e f, step e s = Some (Err f) → ∃ t c, e = ECall t c ∧ refused c = Some f)
  ∧ ∀ t c f r, refused c = Some f → step (ECall t c) s = Some r → r = Err f.
Proof.
  intros HR. split; [|split].
  - destruct (monitor_refines (Monitor0 := Output_monitor reliability) _ _ h s new_send_ok eq_refl HR) as (a&HS&HA). exists a. eexists. split; [exact HA|].
    intros Hl. destruct (ok_lock _ _ HS) as (o&Eo&Ho). rewrite Hl in Eo. injection Eo as <-. by destruct Ho as (_&_&_&_&->).
  - intros e f E. pose proof (monitor_safe (Monitor0 := Output_monitor reliability) _ _ h s e f new_send_ok HR E) as HW. destruct e as [t c|t|i]; [|by destruct HW as (p&_&[])|done].
    exists t, c. split; [done|]. pose proof (prepare_refused c) as Hc. cbn in E. destruct (default _ _); try done. injection E as E.
    destruct (refused c) as [g|]; [rewrite Hc in E; cbn in E; by injection E as <-|]. destruct Hc as [[hdr buffer] Hc]. by rewrite Hc in E.
  - intros t c f r Hf E. pose proof (prepare_refused c) as Hc. rewrite Hf in Hc. cbn in E. destruct (default _ _); try done. injection E as <-. by rewrite Hc.
Qed.
End CODE.

(** ** Witness: two threads of machine 1 send a message each *)

Definition junk (n : Z) : list Z := replicate (Z.to_nat n) 170.

Lemma junk_length n : 0 ≤ n → Z.of_nat (length (junk n)) = n.
Proof. intros Hn. unfold junk. rewrite length_replicate. lia. Qed.

Definition dice (n : Z) : Z * Z := (n, n + 1).

Abbreviation Out := (Sys (Interrupt (NetworkOutput Z * list nat) (NList.List (PendingInterrupt unit))) pos unit).

Definition sample (k : Z) : call := Send (mkPacketHeader 0 0 0) (mkMailHeader k 5 2) [104; 105].

Definition two_sends : list (event call hw) :=
  [ECall 1 (sample 3); ECall 2 (sample 4); EGo 2; EGo 2; EInt UntilDue; EGo 2; EGo 2; EGo 2; EGo 2; EGo 1; EGo 1; EInt UntilDue; EGo 1; EGo 1; EGo 1; EGo 1].

Definition out_start : Out := new_PostOfficeOutput (QArith_base.inject_Z 1) 7.

Lemma two_sends_run :
  (λ '(h, s), (h, locks (world s) !! 0%nat, fst <$> sent (device (obj (world s))))) <$> exec (Code0 := Output_code dice junk 1) two_sends out_start
  = Some ([HCall 1 (sample 3); HCall 2 (sample 4); HRet 2 tt; HRet 1 tt], Some None, [0; 0]).
Proof. vm_compute. reflexivity. Qed.

Lemma postoffice_send_atomic_witness :
  ∃ a ph, ARun (Atomic0 := reliable_network dice junk 1 (QArith_base.inject_Z 1)) (([], 7), ∅) [HCall 1 (sample 3); HCall 2 (sample 4); HRet 2 tt; HRet 1 tt] (a, ph) ∧ length (fst a) = 2%nat.
Proof.
  pose proof two_sends_run as E. destruct (exec two_sends out_start) as [[h s]|] eqn:Ee; [|done]. cbn in E. injection E as Eh El Es. subst h.
  destruct (postoffice_send_atomic dice junk 1 junk_length (QArith_base.inject_Z 1) 7 _ s (exec_run (Code0 := Output_code dice junk 1) _ _ _ _ Ee)) as [(a&ph&HA&Ha) _].
  exists a, ph. split; [exact HA|]. rewrite <- (Ha El). cbn [fst]. apply (f_equal length) in Es. rewrite length_fmap in Es. exact Es.
Defined.

(** A message of machine 1 for mailbox 3 of machine 0, on the wire. *)
Example sample_on_the_wire : on_the_wire junk 1 (sample 3)
  = (0, [0;0;0;0; 1;0;0;0; 14;0;0;0; 3;0;0;0; 5;0;0;0; 2;0;0;0; 104;105] ++ replicate 38 170).
Proof. vm_compute. reflexivity. Qed.

(** With reliability 1/2 the random number 149 gets through and 150 does not. *)
Example half_gets_through : map (gets_through (QArith_base.Qmake 1 2)) [149; 150] = [true; false].
Proof. reflexivity. Qed.
End PostOut.
