(* ===== verification/PostOffice.v ===== *)
(** network/post.{h,cc}, the receiving half, and NetworkInput of
    machine/network.{h,cc}.

    The post office of one machine is the network input device on the machine of
    Hardware.v, the semaphore messageAvailable, the postal worker and the
    mailboxes.  A mailbox is a SynchList, used through its contract (the queue
    of SynchList.v): its operations happen at one instant.  The worker holds no
    lock, so its round from one [messageAvailable->P()] to the next is one step;
    packets arrive and interrupts come between any two steps.
    Theorems: what PostOfficeOutput::Send puts on the network is read back
    unchanged ([send_packet_carries]); messages reach their mailboxes unchanged,
    in order and exactly once ([postoffice_delivers_in_order]); no message stays
    in the network ([postoffice_empties_network]).

    A packet in the socket is the datagram that a peer sent; [fresh] is the
    contents of new memory. *)

From Stdlib Require QArith.QArith_base.
From S2P Require Import Prelude LinkedList ListADT Machine Interrupt Conc SynchList Hardware Network.
Import Interrupt InterruptSpec Hardware Packet.

Module PostOffice.

Record NetworkInput := mkNetworkInput { inHdr : PacketHeader; inbox : list Z; socket : list (list Z) }.
Record Mail := mkMail { pktHdr : PacketHeader; mailHdr : MailHeader; data : list Z }.

Definition set_length (n : Z) (h : PacketHeader) : PacketHeader := mkPacketHeader (pkt_to h) (pkt_from h) n.

Definition count_recvd (st : Statistics) : Statistics :=
  mkStats (totalTicks st) (idleTicks st) (systemTicks st) (userTicks st) (numDiskReads st) (numDiskWrites st)
    (numConsoleCharsRead st) (numConsoleCharsWritten st) (numPageFaults st) (numPacketsSent st) (numPacketsRecvd st + 1).

Section CODE.
Context (fresh : Z → list Z) (hostName : Z).
Context {L : Type} `{SA : !SortedADT (PendingInterrupt unit) PendingCompare L}.
Abbreviation Sim := (Interrupt (NetworkInput * list nat) L).

(** PostOfficeInput::CallBack. *)
Definition CallBack : Sim → res Sim := V_later 0.

(** NetworkInput::CallBack. *)
Definition device_CallBack (s : Sim) : res Sim :=
  s ← Schedule tt NetworkTime NetworkRecvInt s;
  let d := device s in
  if negb (pkt_length (inHdr d) =? 0) then Ok s
  else
    match socket d with
    | [] => Ok s
    | buffer :: rest =>
      ASSERT (Z.of_nat (length buffer) =? MaxWireSize) ;;
      hdr ← pkt_of buffer;
      ASSERT ((pkt_to hdr =? hostName) && (pkt_length hdr <=? MaxPacketSize)) ;;
      box ← bcopy (drop (Z.to_nat sizeof_header) buffer) (inbox d) 0 (pkt_length hdr);
      CallBack (set_stats (count_recvd (stats s)) (set_device (mkNetworkInput hdr box rest) s))
    end.

(** NetworkInput::Receive. *)
Definition device_Receive (buf : list Z) (s : Sim) : res (PacketHeader * list Z * Sim) :=
  let d := device s in
  let hdr := inHdr d in
  let s := set_device (mkNetworkInput (set_length 0 hdr) (inbox d) (socket d)) s in
  buf ← (if negb (pkt_length hdr =? 0) then bcopy (inbox d) buf 0 (pkt_length hdr) else Ok buf);
  Ok (hdr, buf, s).

(** Mail::Mail. *)
Definition new_Mail (pktH : PacketHeader) (mailH : MailHeader) (msgData : list Z) : res Mail :=
  ASSERT (mail_length mailH <=? MaxMailSize) ;;
  d ← bcopy msgData (fresh MaxMailSize) 0 (mail_length mailH);
  Ok (mkMail pktH mailH d).

(** The state of the post office; [buffer] is the worker's. *)
Record Office := mkOffice { sim : Sim; messageAvailable : Z; buffer : list Z; boxes : list (list Mail) }.

Definition new_NetworkInput (sim : Sim) : res Sim :=
  let d := device sim in
  Schedule tt NetworkTime NetworkRecvInt (set_device (mkNetworkInput (set_length 0 (inHdr d)) (inbox d) (socket d)) sim).

(** PostOfficeInput::PostOfficeInput, with the start of the worker; the device
    object is new memory, [hdr] and [box]. *)
Definition new_PostOfficeInput (nBoxes : nat) (hdr : PacketHeader) (box : list Z) : res Office :=
  sim ← new_NetworkInput (new_sim (mkNetworkInput hdr box []));
  Ok (mkOffice sim 0 (fresh MaxPacketSize) (replicate nBoxes [])).

(** MailBox::Put. *)
Definition Put (q : list Mail) (pktH : PacketHeader) (mailH : MailHeader) (d : list Z) : res (list Mail) :=
  mail ← new_Mail pktH mailH d;
  match Conc.apply_call (SynchList.Append mail) q with Some (_, q) => Ok q | None => Err BadAccess end.

(** A round of PostOfficeInput::PostalDelivery behind its P. *)
Definition PostalDelivery (s : Office) : res Office :=
  '(pktH, buf, sim) ← device_Receive (buffer s) (sim s);
  mailH ← mail_of buf;
  ASSERT ((0 <=? mail_to mailH) && (mail_to mailH <? Z.of_nat (length (boxes s)))) ;;
  ASSERT (mail_length mailH <=? MaxMailSize) ;;
  q ← aget (boxes s) (mail_to mailH);
  q ← Put q pktH mailH (drop (Z.to_nat sizeof_header) buf);
  bs ← aset (boxes s) (mail_to mailH) q;
  Ok (mkOffice sim (messageAvailable s) buf bs).

(** MailBox::Get: what it stores at the caller's pointers, and the mailbox. *)
Definition Get (q : list Mail) : option (res (PacketHeader * MailHeader * list Z * list Mail)) :=
  match Conc.apply_call (SynchList.RemoveFront) q with
  | Some (SynchList.Item mail, q) =>
    Some (if (0 <=? mail_length (mailHdr mail)) && (mail_length (mailHdr mail) <=? Z.of_nat (length (data mail)))
          then Ok (pktHdr mail, mailHdr mail, take (Z.to_nat (mail_length (mailHdr mail))) (data mail), q) else Err BadAccess)
  | Some _ => Some (Err BadAccess)
  | None => None
  end.

(** PostOfficeInput::Receive; [None] while the mailbox has no mail. *)
Definition Receive (box : Z) (s : Office) : option (res (PacketHeader * MailHeader * list Z * Office)) :=
  if (0 <=? box) && (box <? Z.of_nat (length (boxes s))) then
    match aget (boxes s) box with
    | Err e => Some (Err e)
    | Ok q => match Get q with
              | None => None
              | Some r => Some ('(pktH, mailH, d, q) ← r;
                                ASSERT (mail_length mailH <=? MaxMailSize) ;;
                                bs ← aset (boxes s) box q;
                                Ok (pktH, mailH, d, mkOffice (sim s) (messageAvailable s) (buffer s) bs))
              end
    end
  else Some (Err AssertFailed).

(** A packet reaches the socket; the hardware runs; the worker gets through its
    P and does its round; a thread receives from a mailbox. *)
Inductive event := Arrive (packet : list Z) | Hw (i : hw) | Deliver | Take (box : Z).

(** What a thread has received. *)
Definition message : Type := PacketHeader * MailHeader * list Z.

Definition step (e : event) (s : Office) : option (res (option message * Office)) :=
  match e with
  | Arrive packet =>
    let d := device (sim s) in
    Some (Ok (None, mkOffice (set_device (mkNetworkInput (inHdr d) (inbox d) (socket d ++ [packet])) (sim s)) (messageAvailable s) (buffer s) (boxes s)))
  | Hw i =>
    match hardware device_CallBack i (sim s) with
    | None => None
    | Some r => Some ('(x, ss) ← r; Ok (None, mkOffice x (messageAvailable s + Z.of_nat (length ss)) (buffer s) (boxes s)))
    end
  | Deliver =>
    if messageAvailable s =? 0 then None
    else Some (s ← PostalDelivery (mkOffice (sim s) (messageAvailable s - 1) (buffer s) (boxes s)); Ok (None, s))
  | Take box =>
    match Receive box s with
    | None => None
    | Some r => Some ('(pktH, mailH, d, s) ← r; Ok (Some (pktH, mailH, d), s))
    end
  end.

(** Runs, with the packets that arrived and what was received from which box. *)
Inductive Run (s : Office) : list (list Z) → list (Z * message) → Office → Prop :=
| run_nil : Run s [] [] s
| run_step ps got s1 e o s2 :
    Run s ps got s1 → step e s1 = Some (Ok (o, s2)) →
    Run s (ps ++ match e with Arrive packet => [packet] | _ => [] end) (got ++ match e, o with Take box, Some m => [(box, m)] | _, _ => [] end) s2.

(** ** Packets that carry a message *)

(** The packet of message [m] to a machine with [nb] mailboxes. *)
Definition carries (nb : nat) (packet : list Z) (m : message) : Prop :=
  let '(pktH, mailH, d) := m in
  (∃ padding, packet = pkt_bytes pktH ++ mail_bytes mailH ++ d ++ padding) ∧ Z.of_nat (length packet) = MaxWireSize
  ∧ header_ok (pkt_to pktH) (pkt_from pktH) (pkt_length pktH) ∧ header_ok (mail_to mailH) (mail_from mailH) (mail_length mailH)
  ∧ pkt_to pktH = hostName ∧ pkt_length pktH = mail_length mailH + sizeof_header ∧ mail_length mailH = Z.of_nat (length d) ∧ 0 ≤ mail_to mailH < Z.of_nat nb.

(** The device holds a message. *)
Definition holds (nb : nat) (d : NetworkInput) (m : message) : Prop :=
  let '(pktH, mailH, b) := m in
  inHdr d = pktH ∧ (∃ padding, inbox d = mail_bytes mailH ++ b ++ padding)
  ∧ header_ok (mail_to mailH) (mail_from mailH) (mail_length mailH)
  ∧ pkt_length pktH = mail_length mailH + sizeof_header ∧ mail_length mailH = Z.of_nat (length b) ∧ 0 ≤ mail_to mailH < Z.of_nat nb ∧ mail_length mailH ≤ MaxMailSize.

(** A piece of mail is a message. *)
Definition is_mail (k : nat) (x : Mail) (m : message) : Prop :=
  let '(pktH, mailH, b) := m in
  pktHdr x = pktH ∧ mailHdr x = mailH ∧ (∃ padding, data x = b ++ padding) ∧ mail_length mailH = Z.of_nat (length b) ∧ mail_length mailH ≤ MaxMailSize ∧ mail_to mailH = Z.of_nat k.

Context (Hfresh : ∀ n, 0 ≤ n → Z.of_nat (length (fresh n)) = n).

Lemma bcopy_0 (src dst : list Z) a rest n : src = a ++ rest → n = Z.of_nat (length a) → n ≤ Z.of_nat (length dst) →
  bcopy src dst 0 n = Ok (a ++ drop (length a) dst) ∧ length (a ++ drop (length a) dst) = length dst.
Proof.
  intros -> -> Hd. destruct (bcopy_ok (a ++ rest) dst 0 (Z.of_nat (length a))) as [-> Hl]; [lia|rewrite length_app; lia|lia|].
  rewrite Nat2Z.id, take_app_length in *. by rewrite splice_0 in *.
Qed.

Lemma length_message nb packet pktH mailH b : carries nb packet (pktH, mailH, b) → mail_length mailH ≤ MaxMailSize.
Proof. intros ((pad&->)&Hl&_&_&_&_&->&_). rewrite !length_app, length_pkt_bytes, length_mail_bytes in Hl. unfold MaxMailSize, MaxPacketSize, MaxWireSize, sizeof_header in *. lia. Qed.

(** The device at a poll. *)
Record Device (nb : nat) (d : NetworkInput) (v : Z) (fl : list message) : Prop := {
  de_inbox : Z.of_nat (length (inbox d)) = MaxPacketSize;
  de_messages : v = 0 ∧ pkt_length (inHdr d) = 0 ∧ Forall2 (carries nb) (socket d) fl
    ∨ v = 1 ∧ ∃ m fl', fl = m :: fl' ∧ holds nb d m ∧ Forall2 (carries nb) (socket d) fl'
}.

Lemma read_packet nb hdr0 box packet m rest fl :
  pkt_length hdr0 = 0 → Z.of_nat (length box) = MaxPacketSize → carries nb packet m → Forall2 (carries nb) rest fl →
  ∃ hdr box', Z.of_nat (length packet) = MaxWireSize ∧ pkt_of packet = Ok hdr ∧ (pkt_to hdr =? hostName) && (pkt_length hdr <=? MaxPacketSize) = true
    ∧ bcopy (drop (Z.to_nat sizeof_header) packet) box 0 (pkt_length hdr) = Ok box' ∧ Device nb (mkNetworkInput hdr box' rest) 1 (m :: fl).
Proof.
  intros H0 Hb HC HF. destruct m as [[pktH mailH] b]. pose proof (length_message _ _ _ _ _ HC) as Hmax. destruct HC as ((pad&Ep)&Hl&Hok&Hok2&Hto&Hlen&Hd&Hbox).
  assert (drop (Z.to_nat sizeof_header) packet = (mail_bytes mailH ++ b) ++ pad) as Edrop.
  { rewrite Ep. change (Z.to_nat sizeof_header) with 12%nat. rewrite <- (length_pkt_bytes pktH) at 1. rewrite drop_app_length. by rewrite <- app_assoc. }
  destruct (bcopy_0 (drop (Z.to_nat sizeof_header) packet) box (mail_bytes mailH ++ b) pad (pkt_length pktH)) as [Ec Hlc].
  { done. } { rewrite length_app, length_mail_bytes, Hlen. unfold sizeof_header. lia. } { unfold MaxMailSize, MaxPacketSize, MaxWireSize, sizeof_header in *. lia. }
  eexists pktH, _. split; [done|]. split; [unfold pkt_of; rewrite Ep; destruct pktH; by apply header_of_words|].
  split; [apply andb_true_iff; unfold MaxMailSize in Hmax; lia|]. split; [exact Ec|]. split; cbn [inbox]; [by rewrite Hlc|].
  right. split; [done|]. exists (pktH, mailH, b), fl. split; [done|]. split; [|done]. split_and!; try done; try lia. exists (drop (length (mail_bytes mailH ++ b)) box). cbn [inbox]. by rewrite app_assoc.
Qed.

(** The interrupt handler. *)
Lemma post_handler_ok nb d v fl : Device nb d v fl → Handles (L := L) device_CallBack d (λ d' xs ss, (∃ x, xs = [x]) ∧ Device nb d' (v + Z.of_nat (length ss)) fl ∧ (fl ≠ [] → v + Z.of_nat (length ss) = 1)).
Proof.
  intros [Hb HM] s HC. assert (device s = d) as Ed by (unfold device; by rewrite (ca_dev _ _ HC)).
  assert (set_device d s = s) as Es by (unfold set_device; rewrite (ca_dev _ _ HC); cbn; rewrite <- (ca_dev _ _ HC); by destruct s).
  destruct HC as [HR Hl Hh Hy Ht Hd]. destruct (Schedule_ok s [] tt NetworkTime NetworkRecvInt HR ltac:(done)) as (p&E&HR'). set (s1 := set_pending p _) in *.
  assert (∀ st d' ss, totalTicks st = totalTicks (stats s) → dev s1 = (d, []) → Returned s d' [mkPending (nextObj s) tt (totalTicks (stats s) + NetworkTime) NetworkRecvInt] ss (set_dev (d', ss) (set_stats st s1))) as HRet.
  { intros st d' ss Est Ed1. split; try done; [by destruct HR'|]. apply Forall_singleton. cbn. unfold NetworkTime. lia. }
  assert (dev s1 = (d, [])) as Ed1 by done. assert (device s1 = d) as Ed2 by (unfold device; by rewrite Ed1).
  assert (s1 = set_dev (d, []) (set_stats (stats s) s1)) as Es1 by (subst s1; destruct s; cbn in Hd |- *; by subst).
  unfold device_CallBack. rewrite E. cbn [mbind res_bind]. rewrite Ed2.
  destruct HM as [(->&Hz&HF)|(->&m&fl'&->&HH&HF)].
  - rewrite Hz. cbn [Z.eqb negb]. inversion HF as [Hs Hf|packet m rest fl' HP HF' Hs Hf].
    + exists s1, d, [mkPending (nextObj s) tt (totalTicks (stats s) + NetworkTime) NetworkRecvInt], []. split; [done|]. split; [rewrite Es1; by apply HRet|].
      split; [by eexists|]. split; [|done]. split; [done|]. left. split; [done|]. split; [done|]. rewrite <- Hs. constructor.
    + destruct (read_packet nb (inHdr d) (inbox d) packet m rest fl' Hz Hb HP HF') as (hdr&box'&Hl'&Eh&Ec&Ebc&HD). rewrite Hl', Z.eqb_refl, Eh. cbn [ASSERT mbind res_bind]. rewrite Ec. cbn [ASSERT mbind res_bind].
      rewrite Ebc. cbn [mbind res_bind]. unfold CallBack, V_later. cbn [dev set_device set_stats set_dev fst snd]. rewrite Ed1. cbn [snd app].
      eexists _, (mkNetworkInput hdr box' rest), _, [0%nat]. split; [done|]. split; [exact (HRet (count_recvd (stats s)) (mkNetworkInput hdr box' rest) [0%nat] eq_refl Ed1)|]. split; [by eexists|]. by split.
  - assert (pkt_length (inHdr d) ≠ 0) as Hnz. { destruct m as [[pktH mailH] b]. destruct HH as (->&_&_&->&->&_). unfold sizeof_header. lia. }
    rewrite (proj2 (Z.eqb_neq _ _) Hnz). cbn [negb]. exists s1, d, [mkPending (nextObj s) tt (totalTicks (stats s) + NetworkTime) NetworkRecvInt], []. split; [done|]. split; [rewrite Es1; by apply HRet|].
    split; [by eexists|]. split; [|done]. split; [done|]. right. split; [done|]. by exists m, fl'.
Qed.

(** ** The post office *)

Definition box_of (m : message) : nat := Z.to_nat (mail_to (snd (fst m))).

(** [fl] are the messages on their way to a mailbox, [B] those in the
    mailboxes. *)
Record Inv (nb : nat) (s : Office) (fl : list message) (B : nat → list message) : Prop := {
  in_sim : ∃ x, Calm (sim s) [x];
  in_buffer : Z.of_nat (length (buffer s)) = MaxPacketSize;
  in_device : Device nb (device (sim s)) (messageAvailable s) fl;
  in_length : length (boxes s) = nb;
  in_boxes k q : boxes s !! k = Some q → Forall2 (is_mail k) q (B k)
}.

(** What a step does to the messages. *)
Definition moved (nb : nat) (e : event) (o : option message) (fl : list message) (B : nat → list message) (fl' : list message) (B' : nat → list message) : Prop :=
  match e with
  | Arrive packet => ∃ m, carries nb packet m ∧ fl' = fl ++ [m] ∧ B' = B
  | Hw _ => fl' = fl ∧ B' = B
  | Deliver => ∃ m, fl = m :: fl' ∧ (box_of m < nb)%nat ∧ ∀ k, B' k = B k ++ if decide (box_of m = k) then [m] else []
  | Take box => ∃ m, o = Some m ∧ fl' = fl ∧ ∀ k, B k = (if decide (Z.to_nat box = k) then [m] else []) ++ B' k
  end.

Lemma arrive_ok nb s fl B packet m : Inv nb s fl B → carries nb packet m →
  ∃ s', step (Arrive packet) s = Some (Ok (None, s')) ∧ Inv nb s' (fl ++ [m]) B.
Proof.
  intros [[x HC] Hb [Hi HM] Hl HB] HP. eexists. split; [done|]. destruct (set_device_calm (sim s) [x] (mkNetworkInput (inHdr (device (sim s))) (inbox (device (sim s))) (socket (device (sim s)) ++ [packet])) HC) as [HC' Ed].
  split; cbn [sim buffer boxes messageAvailable]; try done; [by exists x|]. rewrite Ed. split; [done|]. cbn [inHdr socket].
  assert (∀ fl0, Forall2 (carries nb) (socket (device (sim s))) fl0 → Forall2 (carries nb) (socket (device (sim s)) ++ [packet]) (fl0 ++ [m])) as HA by (intros; apply Forall2_app; [done|by constructor]).
  destruct HM as [(?&?&?)|(?&m0&fl'&->&?&?)]; [left|right]; (split; [done|]); [split; [done|by apply HA]|]. exists m0, (fl' ++ [m]). split; [done|]. split; [done|by apply HA].
Qed.

Lemma hw_ok nb s fl B i r : Inv nb s fl B → step (Hw i) s = Some r →
  ∃ s', r = Ok (None, s') ∧ Inv nb s' fl B ∧ (i = UntilDue → fl ≠ [] → messageAvailable s' = 1).
Proof.
  intros [[x HC] Hb HD Hl HB] E. cbn in E. pose proof (hardware_ok device_CallBack i (sim s) [x] _ HC ltac:(cbn; lia) (λ _, post_handler_ok nb _ _ _ HD)) as HO.
  destruct (hardware device_CallBack i (sim s)) as [r'|]; [|done]. injection E as <-.
  destruct HO as (s'&d'&xs'&ss&->&HC'&_&Ed'&[(Ei&Ed&->&->)|[_ ([y ->]&HD'&Hone)]]); cbn [mbind res_bind]; eexists; (split; [done|]).
  - split; [|by intros ->]. split; cbn; try done; [by exists x|]. rewrite Ed', Ed. by rewrite Z.add_0_r.
  - split; [|intros _; apply Hone]. split; cbn; try done; [by exists y|]. by rewrite Ed'.
Qed.

Lemma mail_of_buffer mailH b rest : header_ok (mail_to mailH) (mail_from mailH) (mail_length mailH) → mail_of ((mail_bytes mailH ++ b) ++ rest) = Ok mailH.
Proof. intros Hok. rewrite <- app_assoc. unfold mail_of, mail_bytes. rewrite header_of_words by done. by destruct mailH. Qed.

(** A round of the worker. *)
Lemma deliver_ok nb s fl B : Inv nb s fl B → messageAvailable s ≠ 0 →
  ∃ s' m fl' B', step Deliver s = Some (Ok (None, s')) ∧ Inv nb s' fl' B' ∧ fl = m :: fl' ∧ (box_of m < nb)%nat ∧ (∀ k, B' k = B k ++ if decide (box_of m = k) then [m] else []) ∧ messageAvailable s' = 0.
Proof.
  intros [[x HC] Hb [Hi HM] Hl HB] Hv. destruct HM as [(?&_)|(Ev&m&fl'&->&HH&HF)]; [done|]. destruct m as [[pktH mailH] b].
  destruct HH as (Eh&(pad&Ebox)&Hok&Hlen&Hd&Hto&Hmax). unfold step. rewrite Ev. cbn [Z.eqb]. unfold PostalDelivery, device_Receive. cbn [sim buffer boxes messageAvailable].
  rewrite Eh, Hlen. assert (mail_length mailH + sizeof_header =? 0 = false) as -> by (apply Z.eqb_neq; unfold sizeof_header; lia). cbn [negb].
  destruct (bcopy_0 (inbox (device (sim s))) (buffer s) (mail_bytes mailH ++ b) pad (mail_length mailH + sizeof_header)) as [-> Hlb].
  { by rewrite Ebox, <- app_assoc. } { rewrite length_app, length_mail_bytes. unfold sizeof_header. lia. } { unfold MaxMailSize, MaxPacketSize, MaxWireSize, sizeof_header in *. lia. }
  cbn [mbind res_bind]. rewrite mail_of_buffer by done. cbn [mbind res_bind]. rewrite Hl, (proj2 (Z.leb_le 0 _)), (proj2 (Z.ltb_lt _ _)), (proj2 (Z.leb_le _ MaxMailSize)) by lia. cbn [andb ASSERT mbind res_bind].
  destruct (aget_ex (boxes s) (mail_to mailH)) as (q&Eq); [lia|]. rewrite Eq. cbn [mbind res_bind]. apply aget_Ok in Eq as [_ Eq]. unfold Put, new_Mail. rewrite (proj2 (Z.leb_le _ MaxMailSize)) by lia. cbn [ASSERT mbind res_bind].
  destruct (bcopy_0 (drop (Z.to_nat sizeof_header) ((mail_bytes mailH ++ b) ++ drop (length (mail_bytes mailH ++ b)) (buffer s))) (fresh MaxMailSize) b (drop (length (mail_bytes mailH ++ b)) (buffer s)) (mail_length mailH)) as [-> Hlm].
  { rewrite <- app_assoc. change (Z.to_nat sizeof_header) with 12%nat. rewrite <- (length_mail_bytes mailH) at 1. by rewrite drop_app_length. } { done. } { rewrite Hfresh; done. }
  cbn [mbind res_bind Conc.apply_call SynchList.Queue]. rewrite aset_in by lia. cbn [mbind res_bind].
  eexists _, (pktH, mailH, b), fl', (λ k, B k ++ if decide (box_of (pktH, mailH, b) = k) then [(pktH, mailH, b)] else []). split; [done|].
  destruct (set_device_calm (sim s) [x] (mkNetworkInput (set_length 0 pktH) (inbox (device (sim s))) (socket (device (sim s)))) HC) as [HC' Ed].
  split; [|split; [done|]; split; [unfold box_of; cbn; lia|done]]. split; cbn [sim buffer boxes messageAvailable].
  - by exists x.
  - by rewrite Hlb.
  - rewrite Ed. split; [done|]. by left.
  - by rewrite length_insert.
  - intros k q' [(<-&<-&_)|[Hne Hk]]%list_lookup_insert_Some.
    + unfold box_of. cbn [fst snd]. rewrite decide_True by done. apply Forall2_app; [by apply HB|]. repeat constructor; cbn; try done; [by eexists|lia].
    + unfold box_of. cbn [fst snd]. rewrite decide_False by done. rewrite app_nil_r. by apply HB.
Qed.

Lemma take_ok nb s fl B box r : Inv nb s fl B → 0 ≤ box < Z.of_nat nb → step (Take box) s = Some r →
  ∃ o s' B', r = Ok (o, s') ∧ Inv nb s' fl B' ∧ moved nb (Take box) o fl B fl B'.
Proof.
  intros [[x HC] Hb HD Hl HB] Hbox E. cbn in E. unfold Receive in E. rewrite Hl, (proj2 (Z.leb_le 0 box)), (proj2 (Z.ltb_lt box _)) in E by lia. cbn [andb] in E.
  destruct (aget_ex (boxes s) box) as (q&Eq); [lia|]. rewrite Eq in E. apply aget_Ok in Eq as [_ Eq]. pose proof (HB _ _ Eq) as HF. unfold Get in E. destruct q as [|mail q]; [done|]. cbn in E. injection E as <-.
  apply Forall2_cons_inv_l in HF as (m&ms&Hm&HF&EB). destruct m as [[pktH mailH] b]. destruct Hm as (Ep&Em&(pad&Ed)&Hlen&Hmax&Hto).
  rewrite Em, Ed, length_app, (proj2 (Z.leb_le 0 _)), (proj2 (Z.leb_le _ (Z.of_nat (length b + length pad)))) by lia. cbn [andb mbind res_bind]. rewrite (proj2 (Z.leb_le _ MaxMailSize)) by lia. cbn [ASSERT mbind res_bind].
  rewrite aset_in by lia. cbn [mbind res_bind]. rewrite Hlen, Nat2Z.id, take_app_length, Ep.
  eexists _, _, (λ k, if decide (Z.to_nat box = k) then ms else B k). split; [done|]. split.
  - split; cbn; try done; [by exists x|by rewrite length_insert|]. intros k q' [(<-&<-&_)|[Hne Hk]]%list_lookup_insert_Some; [by rewrite decide_True|rewrite decide_False by done; by apply HB].
  - exists (pktH, mailH, b). split; [done|]. split; [done|]. intros k. case_decide as Ek; [subst k; by rewrite EB|done].
Qed.

(** ** Histories *)

Definition received (k : nat) (got : list (Z * message)) : list message := snd <$> filter (λ x, fst x = Z.of_nat k) got.
Definition for_box (k : nat) (ms : list message) : list message := filter (λ m, box_of m = k) ms.

(** Every message is received, in its mailbox or on its way, in order. *)
Definition Hist (nb : nat) (ps : list (list Z)) (got : list (Z * message)) (fl : list message) (B : nat → list message) (ms : list message) : Prop :=
  Forall2 (carries nb) ps ms ∧ ∀ k, (k < nb)%nat → for_box k ms = received k got ++ B k ++ for_box k fl.

Lemma for_box_app k ms ms' : for_box k (ms ++ ms') = for_box k ms ++ for_box k ms'.
Proof. apply filter_app. Qed.

Lemma for_box_cons k m ms : for_box k (m :: ms) = (if decide (box_of m = k) then [m] else []) ++ for_box k ms.
Proof. unfold for_box. rewrite filter_cons. by case_decide. Qed.

Lemma received_app k got box m : received k (got ++ [(Z.of_nat box, m)]) = received k got ++ if decide (box = k) then [m] else [].
Proof.
  unfold received. rewrite filter_app, fmap_app. f_equal. rewrite filter_cons. cbn. case_decide as E1; case_decide as E2; try done; [by apply Nat2Z.inj in E1|by subst].
Qed.

Lemma post_step_ok nb s fl B e r :
  Inv nb s fl B → match e with Arrive p => ∃ m, carries nb p m | Take box => 0 ≤ box < Z.of_nat nb | _ => True end → step e s = Some r →
  ∃ o s' fl' B', r = Ok (o, s') ∧ Inv nb s' fl' B' ∧ moved nb e o fl B fl' B'.
Proof.
  intros HI He E. destruct e as [p|i| |box].
  - destruct He as [m Hm]. destruct (arrive_ok nb s fl B p m HI Hm) as (s'&E'&HI'). rewrite E' in E. injection E as <-. eexists None, s', _, B. split; [done|]. split; [exact HI'|]. by exists m.
  - destruct (hw_ok nb s fl B i r HI E) as (s'&->&HI'&_). by exists None, s', fl, B.
  - assert (messageAvailable s ≠ 0) as Hv. { intros Hz. cbn in E. by rewrite Hz in E. } destruct (deliver_ok nb s fl B HI Hv) as (s'&m&fl'&B'&E'&HI'&?&?&?&_). rewrite E' in E. injection E as <-.
    exists None, s', fl', B'. split; [done|]. split; [done|]. by exists m.
  - destruct (take_ok nb s fl B box r HI He E) as (o&s'&B'&->&HI'&HM). by exists o, s', fl, B'.
Qed.

Lemma moved_hist nb e o ps got fl B fl' B' ms :
  Hist nb ps got fl B ms → moved nb e o fl B fl' B' → match e with Take box => 0 ≤ box | _ => True end →
  ∃ ms', Hist nb (ps ++ match e with Arrive packet => [packet] | _ => [] end) (got ++ match e, o with Take box, Some m => [(box, m)] | _, _ => [] end) fl' B' ms'.
Proof.
  intros [HF HK] HM He. destruct e as [p|i| |box]; cbn in HM; rewrite ?app_nil_r.
  - destruct HM as (m&Hm&->&->). exists (ms ++ [m]). split; [by apply Forall2_app; [|constructor]|]. intros k Hk. rewrite !for_box_app, HK by done. by rewrite <- !app_assoc.
  - destruct HM as [-> ->]. by exists ms.
  - destruct HM as (m&->&_&HB). exists ms. split; [done|]. intros k Hk. rewrite HK by done. rewrite for_box_cons, HB. by rewrite <- app_assoc.
  - destruct HM as (m&->&->&HB). exists ms. split; [done|]. intros k Hk. rewrite HK by done. rewrite <- (Z2Nat.id box) at 1 by done. rewrite received_app, (HB k). by rewrite <- !app_assoc.
Qed.

Lemma take_range s box o s' : step (Take box) s = Some (Ok (o, s')) → 0 ≤ box < Z.of_nat (length (boxes s)).
Proof.
  cbn. unfold Receive. destruct (_ && _) eqn:E; [|done]. intros _. apply andb_true_iff in E as [?%Z.leb_le ?%Z.ltb_lt]. lia.
Qed.

Lemma post_run_ok nb s0 ps got s :
  Inv nb s0 [] (λ _, []) → Run s0 ps got s → Forall (λ p, ∃ m, carries nb p m) ps → ∃ fl B ms, Inv nb s fl B ∧ Hist nb ps got fl B ms.
Proof.
  intros H0 HR. induction HR as [|ps got s1 e o s2 HR IH E]; intros HF; [by exists [], (λ _, []), []|].
  apply Forall_app in HF as [HF HFe]. destruct (IH HF) as (fl&B&ms&HI&HH).
  assert (match e with Arrive p => ∃ m, carries nb p m | Take box => 0 ≤ box < Z.of_nat nb | _ => True end) as He.
  { destruct e; try done; [exact (proj1 (Forall_singleton _ _) HFe)|]. rewrite <- (in_length _ _ _ _ HI). by eapply take_range. }
  destruct (post_step_ok nb s1 fl B e _ HI He E) as (o'&s'&fl'&B'&[= <- <-]&HI'&HM). destruct (moved_hist nb e o ps got fl B fl' B' ms HH HM) as [ms' HH']; [destruct e; try done; lia|]. by exists fl', B', ms'.
Qed.

(** What is left in the network is delivered by interrupts and the worker. *)
Lemma drain_ok nb s fl B : Inv nb s fl B → ∃ s' B', Run s [] [] s' ∧ Inv nb s' [] B' ∧ ∀ k, B' k = B k ++ for_box k fl.
Proof.
  revert s B. induction fl as [|m fl IH]; intros s B HI; [exists s, B; split; [constructor|]; split; [done|]; intros k; by rewrite app_nil_r|].
  assert (∃ s1, Run s [] [] s1 ∧ Inv nb s1 (m :: fl) B ∧ messageAvailable s1 ≠ 0) as (s1&HR1&HI1&Hv).
  { destruct (in_sim _ _ _ _ HI) as [x HC]. pose proof (hardware_ok device_CallBack UntilDue (sim s) [x] _ HC ltac:(cbn; lia) (λ _, post_handler_ok nb _ _ _ (in_device _ _ _ _ HI))) as HO.
    destruct (hardware device_CallBack UntilDue (sim s)) as [r|] eqn:E; [|by destruct HO]. destruct (step (Hw UntilDue) s) as [r'|] eqn:Es; [|unfold step in Es; by rewrite E in Es].
    destruct (hw_ok nb s (m :: fl) B UntilDue r' HI Es) as (s1&->&HI1&H1). exists s1. split; [apply (run_step s [] [] s (Hw UntilDue) None s1); [constructor|done]|]. split; [done|]. by rewrite H1. }
  destruct (deliver_ok nb s1 (m :: fl) B HI1 Hv) as (s2&m'&fl'&B'&E&HI2&[= <- <-]&_&HB&_). destruct (IH s2 B' HI2) as (s3&B3&HR3&HI3&HB3). exists s3, B3. split; [|split; [done|]].
  - assert (Run s [] [] s2) as HR2 by (apply (run_step s [] [] s1 Deliver None s2); done). clear -HR2 HR3. remember [] as ps eqn:Ep in HR3. remember [] as got eqn:Eg in HR3.
    induction HR3 as [|ps got sa e o sb HRa IH Eb]; [done|]. apply app_eq_nil in Ep as [-> Ep]. apply app_eq_nil in Eg as [-> Eg]. specialize (IH eq_refl eq_refl). pose proof (run_step s [] [] sa e o sb IH Eb) as HRb. by rewrite Ep, Eg in HRb.
  - intros k. rewrite HB3, HB, for_box_cons. by rewrite <- app_assoc.
Qed.

Lemma new_post_ok nb hdr box : Z.of_nat (length box) = MaxPacketSize → ∃ s0, new_PostOfficeInput nb hdr box = Ok s0 ∧ Inv nb s0 [] (λ _, []).
Proof.
  intros Hb. destruct (Schedule_calm (new_sim (mkNetworkInput hdr box [])) (mkNetworkInput (set_length 0 hdr) box []) NetworkTime NetworkRecvInt (new_sim_calm _) ltac:(done)) as (s'&x&E&HC&Ed).
  unfold new_PostOfficeInput, new_NetworkInput. cbn [device new_sim dev set_level new_Interrupt fst inHdr inbox socket] in *. rewrite E. cbn [mbind res_bind]. eexists. split; [done|]. split; cbn.
  - by exists x.
  - by rewrite Hfresh.
  - rewrite Ed. split; [done|]. left. split; [done|]. split; [done|constructor].
  - apply length_replicate.
  - intros k q [-> _]%lookup_replicate. constructor.
Qed.

(** ** Theorems *)

Context (nb : nat) (hdr : PacketHeader) (box : list Z) (Hbox : Z.of_nat (length box) = MaxPacketSize).

(** C28 (safety): the post office delivers unchanged, in order and at most once:
    if every packet that arrives carries a message for this machine, then
    whatever the interleaving of arrivals, interrupts, the worker and the
    receivers, no assertion fails, except that a thread names a mailbox that
    does not exist; and what has been received from a mailbox is a prefix of
    the messages sent to it, in the order of their packets, with their headers
    and data. *)
Theorem postoffice_delivers_in_order (s0 : Office) (ps : list (list Z)) (got : list (Z * message)) (s : Office) :
  new_PostOfficeInput nb hdr box = Ok s0 → Run s0 ps got s → Forall (λ p, ∃ m, carries nb p m) ps →
  (∀ e f, step e s = Some (Err f) → ∃ b, e = Take b ∧ ¬ 0 ≤ b < Z.of_nat nb)
  ∧ ∃ ms, Forall2 (carries nb) ps ms ∧ ∀ k, (k < nb)%nat → received k got `prefix_of` for_box k ms.
Proof.
  intros E0 HR HF. destruct (new_post_ok nb hdr box Hbox) as (s1&E1&HI0). rewrite E0 in E1. injection E1 as <-. destruct (post_run_ok nb s0 ps got s HI0 HR HF) as (fl&B&ms&HI&HH&HK). split.
  - intros e f E. destruct e as [p|i| |b]; [done| | |].
    + by destruct (post_step_ok nb s fl B (Hw i) _ HI I E) as (?&?&?&?&?&_).
    + by destruct (post_step_ok nb s fl B Deliver _ HI I E) as (?&?&?&?&?&_).
    + exists b. split; [done|]. intros Hr. by destruct (post_step_ok nb s fl B (Take b) _ HI Hr E) as (?&?&?&?&?&_).
  - exists ms. split; [done|]. intros k Hk. rewrite HK by done. by eexists.
Qed.

(** C29 (liveness): no message stays in the network: from every state that the
    post office can reach, interrupts and the worker alone bring it to one
    where each mailbox holds, in order, all the messages sent to it that have
    not been received. *)
Theorem postoffice_empties_network (s0 : Office) (ps : list (list Z)) (got : list (Z * message)) (s : Office) :
  new_PostOfficeInput nb hdr box = Ok s0 → Run s0 ps got s → Forall (λ p, ∃ m, carries nb p m) ps →
  ∃ ms s', Forall2 (carries nb) ps ms ∧ Run s [] [] s' ∧
    ∀ k q, boxes s' !! k = Some q → Forall2 (is_mail k) q (drop (length (received k got)) (for_box k ms)).
Proof.
  intros E0 HR HF. destruct (new_post_ok nb hdr box Hbox) as (s1&E1&HI0). rewrite E0 in E1. injection E1 as <-. destruct (post_run_ok nb s0 ps got s HI0 HR HF) as (fl&B&ms&HI&HH&HK).
  destruct (drain_ok nb s fl B HI) as (s'&B'&HR'&HI'&HB'). exists ms, s'. split; [done|]. split; [done|]. intros k q Hq. rewrite HK, drop_app_length, <- HB'; [by apply (in_boxes _ _ _ _ HI')|].
  apply lookup_lt_Some in Hq. by rewrite (in_length _ _ _ _ HI') in Hq.
Qed.
End CODE.

(** What PostOfficeOutput::Send puts on the network carries its
    message: a post office with the destination's name and a mailbox of that
    number reads back the mail header, the data, and a packet header with the
    sender's machine and the right length. *)
Theorem send_packet_carries (fresh : Z → list Z) (hostName : Z) (nb : nat) (pktH : PacketHeader) (mailH : MailHeader) (d : list Z) (hdr : PacketHeader) (buf packet : list Z)
    (Hfresh : ∀ n, 0 ≤ n → Z.of_nat (length (fresh n)) = n) (Hhost : is_s32 hostName) (Hto : is_s32 (pkt_to pktH)) (Hbox : mail_to mailH < Z.of_nat nb)
    (Hmto : is_s32 (mail_to mailH)) (Hmfrom : is_s32 (mail_from mailH)) :
  PostOut.prepare fresh hostName (PostOut.Send pktH mailH d) = Ok (hdr, buf) → PostOut.wire_packet fresh hdr buf = Ok packet →
  carries (pkt_to pktH) nb packet (mkPacketHeader (pkt_to pktH) hostName (mail_length mailH + sizeof_header), mailH, take (Z.to_nat (mail_length mailH)) d).
Proof.
  intros Ep Ew. destruct (PostOut.wire_packet_Ok fresh hostName Hfresh _ _ _ Ep) as (Ew'&Hl&_). rewrite Ew in Ew'. injection Ew' as ->.
  apply (PostOut.prepare_Ok fresh hostName Hfresh) in Ep. destruct Ep as (Hm&Hd&Hb&->&->&Hlb). cbn [pkt_length] in *.
  assert (Z.of_nat (length (take (Z.to_nat (mail_length mailH)) d)) = mail_length mailH) as Hld by (rewrite length_take; lia).
  set (b := take (Z.to_nat (mail_length mailH)) d) in *. set (h := mkPacketHeader _ _ _) in *.
  assert (∀ l x (y : list Z), length x = 12%nat → splice (splice l 0 x) 12 y = x ++ y ++ drop (12 + length y) (x ++ drop 12 l)) as Hspl.
  { intros l x y Hx. rewrite splice_0, Hx. unfold splice. change (Z.to_nat 12) with 12%nat. by rewrite take_app_length' by done. }
  unfold carries. split_and!; try done; try lia.
  - rewrite Hspl by apply length_pkt_bytes. rewrite (Hspl (fresh MaxPacketSize)) by apply length_mail_bytes.
    replace (take (Z.to_nat (mail_length mailH + sizeof_header)) (mail_bytes mailH ++ b ++ drop (12 + length b) (mail_bytes mailH ++ drop 12 (fresh MaxPacketSize)))) with (mail_bytes mailH ++ b).
    + eexists. rewrite <- !app_assoc. reflexivity.
    + rewrite app_assoc, take_app_length'; [done|]. rewrite length_app, length_mail_bytes. unfold sizeof_header. lia.
  - rewrite !length_splice; rewrite ?length_splice; rewrite ?length_pkt_bytes, ?Hfresh; unfold MaxMailSize, MaxPacketSize, MaxWireSize, sizeof_header in *; try lia; rewrite ?length_take; lia.
  - unfold header_ok. split_and!; try done; cbn [h pkt_length]; subst h; cbn; unfold MaxMailSize, MaxPacketSize, MaxWireSize, sizeof_header, halfword in *; lia.
  - unfold header_ok. split_and!; try done; unfold MaxMailSize, MaxPacketSize, MaxWireSize, sizeof_header, halfword in *; lia.
Qed.

(** ** Witnesses: a message from machine 1 to mailbox 3 of machine 0 *)

Definition hi : message := (mkPacketHeader 0 1 14, mkMailHeader 3 5 2, [104; 105]).

Definition the_packet : list Z :=
  match ('(hdr, buf) ← PostOut.prepare PostOut.junk 1 (PostOut.sample 3); PostOut.wire_packet PostOut.junk hdr buf) with Ok p => p | Err _ => [] end.

Lemma send_packet_carries_witness : carries 0 10 the_packet hi.
Proof.
  destruct (PostOut.prepare PostOut.junk 1 (PostOut.sample 3)) as [[hdr buf]|] eqn:Ep; [|by vm_compute in Ep].
  destruct (PostOut.wire_packet PostOut.junk hdr buf) as [p|] eqn:Ew; [|vm_compute in Ep; injection Ep as <- <-; by vm_compute in Ew].
  assert (the_packet = p) as ->. { unfold the_packet. rewrite Ep. cbn [mbind res_bind]. by rewrite Ew. }
  apply (send_packet_carries PostOut.junk 1 10 (mkPacketHeader 0 0 0) (mkMailHeader 3 5 2) [104; 105] hdr buf p PostOut.junk_length); try done; unfold_int; cbn; lia.
Defined.

Abbreviation In := (Office (L := NList.List (PendingInterrupt unit))).

Definition in_start : In := match new_PostOfficeInput PostOut.junk 10 (mkPacketHeader 0 0 9) (PostOut.junk 52) with Ok s => s | Err _ => mkOffice (new_sim (mkNetworkInput (mkPacketHeader 0 0 0) [] [])) 0 [] [] end.

Lemma in_start_ok : new_PostOfficeInput PostOut.junk 10 (mkPacketHeader 0 0 9) (PostOut.junk 52) = Ok in_start.
Proof. vm_compute. reflexivity. Qed.

(** One event after another. *)
Fixpoint follow (es : list event) (s : In) (ps : list (list Z)) (got : list (Z * message)) : option (list (list Z) * list (Z * message) * In) :=
  match es with
  | [] => Some (ps, got, s)
  | e :: es => match step PostOut.junk 0 e s with
               | Some (Ok (o, s)) => follow es s (ps ++ match e with Arrive packet => [packet] | _ => [] end) (got ++ match e, o with Take box, Some m => [(box, m)] | _, _ => [] end)
               | _ => None
               end
  end.

Lemma post_follow_run es s0 s ps got ps' got' s' : Run PostOut.junk 0 s0 ps got s → follow es s ps got = Some (ps', got', s') → Run PostOut.junk 0 s0 ps' got' s'.
Proof.
  revert s ps got. induction es as [|e es IH]; intros s ps got HR E; cbn in E; [by injection E as <- <- <-|].
  destruct (step PostOut.junk 0 e s) as [[[o s1]|]|] eqn:Es; try done. eapply IH; [|exact E]. by econstructor.
Qed.

Definition one_message : list event := [Arrive the_packet; Hw UntilDue; Deliver; Take 3].

Lemma one_message_received : fst <$> follow one_message in_start [] [] = Some ([the_packet], [(3, hi)]).
Proof. vm_compute. reflexivity. Qed.

Lemma carried : Forall (λ p, ∃ m, carries 0 10 p m) [the_packet].
Proof.
  constructor; [|constructor]. exists hi. repeat split; try (vm_compute; congruence); try (unfold_int; cbn; lia). exists (replicate 38 170). vm_compute. reflexivity.
Qed.

Lemma postoffice_delivers_in_order_witness : ∃ ms, Forall2 (carries 0 10) [the_packet] ms ∧ [hi] `prefix_of` for_box 3 ms.
Proof.
  pose proof one_message_received as E. destruct (follow one_message in_start [] []) as [[[ps got] s]|] eqn:Ef; [|done]. cbn in E. injection E as -> ->.
  pose proof (post_follow_run _ in_start _ _ _ _ _ _ (run_nil _ _ _) Ef) as HR.
  destruct (postoffice_delivers_in_order PostOut.junk 0 PostOut.junk_length 10 (mkPacketHeader 0 0 9) (PostOut.junk 52) eq_refl in_start _ _ s in_start_ok HR carried) as [_ (ms&HF&HK)].
  exists ms. split; [exact HF|]. apply (HK 3%nat). lia.
Defined.

Lemma postoffice_empties_network_witness : ∃ ms (s' : In), Forall2 (carries 0 10) [the_packet] ms ∧ ∀ k q, boxes s' !! k = Some q → Forall2 (is_mail k) q (for_box k ms).
Proof.
  destruct (follow [Arrive the_packet] in_start [] []) as [[[ps got] s]|] eqn:Ef; [|by vm_compute in Ef]. assert (ps = [the_packet] ∧ got = []) as [-> ->] by (cbn in Ef; by injection Ef as <- <- _).
  pose proof (post_follow_run _ in_start _ _ _ _ _ _ (run_nil _ _ _) Ef) as HR.
  destruct (postoffice_empties_network PostOut.junk 0 PostOut.junk_length 10 (mkPacketHeader 0 0 9) (PostOut.junk 52) eq_refl in_start _ _ s in_start_ok HR carried) as (ms&s'&HF&_&HB).
  exists ms, s'. split; [exact HF|exact HB].
Defined.
End PostOffice.
