(* ===== verification/SemTable.v ===== *)
(** threads/sem.{h,cc} and threads/stable.{h,cc}: the named semaphores of user
    programs, with SysCreateSem, SysWait and SysSignal of ksyscall.h.

    The table is modelled as it is written: a bitmap of the slots in use and an
    array of pointers to Sem objects; a Sem is its name (the array up to its
    NUL) and the value of its semaphore.  Threads lose the processor only in
    P and V, so Create, Signal and the search of Wait are one step each, and a
    thread in Wait is at the P of the semaphore it has found.
    The contract is a list of named counters in the order of their creation.

    STable::Create has no return statement behind the creation: [noreturn] is
    what its caller finds in the register of the result.  The constructor does
    not initialise the array semTab: [mem] is what the memory held, a null
    pointer or a stray one in each place.  Following a stray pointer is an error
    of the model.  The value of a semaphore is an int that wraps around. *)

From S2P Require Import Prelude BitmapLib Machine Files Conc.

Module SemTable.
Import Bitmap CString.

Definition SEM_NAME_MAX_LEN : Z := 64.
Definition MAX_SEMAPHORE : Z := 10.

Record Sem := mkSem { name : list Z; value : Z }.

(** A pointer of the table: null, to no object, or to a semaphore. *)
Inductive slot := Null | Wild | Ptr (sem : Sem).

Record STable := mkSTable { bm : Bitmap; semTab : list slot }.

#[global] Instance Sem_eq_dec : EqDecision Sem.
Proof. solve_decision. Defined.
#[global] Instance slot_eq_dec : EqDecision slot.
Proof. solve_decision. Defined.

Definition point (p : slot) : res Sem := match p with Ptr sem => Ok sem | Null | Wild => Err BadAccess end.

(** strcpy into an array of [size] characters. *)
Definition strcpy (size : Z) (src : list Z) : res (list Z) :=
  s ← cstr src;
  if Z.of_nat (length s) <? size then Ok (s ++ [0]) else Err BadAccess.

Definition new_Sem (sname : list Z) (permits : Z) : res Sem :=
  n ← strcpy SEM_NAME_MAX_LEN sname;
  Ok (mkSem n permits).

(** The constructor, in memory that holds [mem] in the place of semTab. *)
Definition new_STable (mem : list slot) : res STable :=
  b ← new_Bitmap MAX_SEMAPHORE;
  Ok (mkSTable b mem).

Definition FindFreeSlot (t : STable) : res (Z * STable) :=
  '(id, b) ← FindAndSet (bm t);
  Ok (id, mkSTable b (semTab t)).

Section CODE.
Context (noreturn : Z).

Definition Create (nm : list Z) (init : Z) (t : STable) : res (Z * STable) :=
  '(id, t) ← FindFreeSlot t;
  if id =? -1 then Ok (-1, t)
  else
    sem ← new_Sem nm init;
    tab ← aset (semTab t) id (Ptr sem);
    Ok (noreturn, mkSTable (bm t) tab).

(** The loop of Wait and Signal: the first semaphore of that name. *)
Fixpoint find_loop (n : nat) (i : Z) (nm : list Z) (t : STable) : res (option Z) :=
  match n with
  | O => Ok None
  | S n =>
    s ← aget (semTab t) i;
    same ← (match s with Null => Ok false | _ => sem ← point s; streq (name sem) nm end);
    if (same : bool) then Ok (Some i) else find_loop n (i + 1) nm t
  end.

Definition find (nm : list Z) (t : STable) : res (option Z) := find_loop (Z.to_nat MAX_SEMAPHORE) 0 nm t.

(** Sem::wait of slot [i]: [None] while it waits. *)
Definition wait (i : Z) (t : STable) : res (option STable) :=
  s ← aget (semTab t) i;
  sem ← point s;
  if value sem =? 0 then Ok None
  else tab ← aset (semTab t) i (Ptr (mkSem (name sem) (s32 (value sem - 1)))); Ok (Some (mkSTable (bm t) tab)).

(** Sem::signal. *)
Definition signal (i : Z) (t : STable) : res STable :=
  s ← aget (semTab t) i;
  sem ← point s;
  tab ← aset (semTab t) i (Ptr (mkSem (name sem) (s32 (value sem + 1))));
  Ok (mkSTable (bm t) tab).

Definition Signal (nm : list Z) (t : STable) : res (Z * STable) :=
  i ← find nm t;
  match i with
  | Some i => t ← signal i t; Ok (i, t)
  | None => Ok (-1, t)
  end.

(** The calls, with the names that User2System has read, and the threads: in
    Wait a thread is at the P of a semaphore. *)
Inductive call := CCreate (nm : list Z) (init : Z) | CWait (nm : list Z) | CSignal (nm : list Z).
Inductive tstate := Outside | InWait (c : call) (i : Z).

Record Sys := mkSys { tab : STable; threads : gmap nat tstate }.

Inductive event := Call (t : nat) (c : call) | Pass (t : nat).

Definition start_call (c : call) (tb : STable) : res (tstate * option Z * STable) :=
  match c with
  | CCreate nm init => '(r, tb) ← Create nm init tb; Ok (Outside, Some r, tb)
  | CSignal nm => '(r, tb) ← Signal nm tb; Ok (Outside, Some r, tb)
  | CWait nm => i ← find nm tb; Ok (match i with Some i => (InWait c i, None, tb) | None => (Outside, Some (-1), tb) end)
  end.

(** A step, with what its thread returns. *)
Definition step (e : event) (s : Sys) : option (res (option Z * Sys)) :=
  match e with
  | Call t c =>
    match default Outside (threads s !! t) with
    | Outside => Some ('(ts, r, tb) ← start_call c (tab s); Ok (r, mkSys tb (<[t := ts]> (threads s))))
    | InWait _ _ => None
    end
  | Pass t =>
    match default Outside (threads s !! t) with
    | Outside => None
    | InWait _ i =>
      match wait i (tab s) with
      | Err e => Some (Err e)
      | Ok None => None
      | Ok (Some tb) => Some (Ok (Some i, mkSys tb (<[t := Outside]> (threads s))))
      end
    end
  end.

Definition visible (e : event) (r : option Z) : list (Conc.hev call Z) :=
  match e with Call t c => [Conc.HCall t c] | Pass t => [] end
  ++ match r with Some v => [Conc.HRet (match e with Call t _ | Pass t => t end) v] | None => [] end.

Inductive Run (s : Sys) : list (Conc.hev call Z) → Sys → Prop :=
| run_nil : Run s [] s
| run_step h s1 e r s2 : Run s h s1 → step e s1 = Some (Ok (r, s2)) → Run s (h ++ visible e r) s2.

(** ** The contract: named counters *)

Abbreviation counters := (list (list Z * Z)).

(** The first counter of a name. *)
Definition first (nm : list Z) (l : counters) : option nat := fst <$> list_find (λ x, x = nm) l.*1.

Definition add (d : Z) (i : nat) (l : counters) : counters := match l !! i with Some (nm, v) => <[i := (nm, s32 (v + d))]> l | None => l end.

#[local] Instance Counters : Conc.Atomic counters call Z := λ c l,
  match c with
  | CCreate buf init =>
    match cstr buf with
    | Ok nm => Some (if bool_decide (Z.of_nat (length l) < MAX_SEMAPHORE) then (noreturn, l ++ [(nm, init)]) else (-1, l))
    | Err _ => None
    end
  | CSignal buf =>
    match cstr buf with
    | Ok nm => Some (match first nm l with Some i => (Z.of_nat i, add 1 i l) | None => (-1, l) end)
    | Err _ => None
    end
  | CWait buf =>
    match cstr buf with
    | Ok nm => match first nm l with
               | Some i => match l !! i with Some (_, v) => if v =? 0 then None else Some (Z.of_nat i, add (-1) i l) | None => None end
               | None => Some (-1, l)
               end
    | Err _ => None
    end
  end.

(** ** The table represents counters *)

Definition sem_of (x : list Z * Z) : Sem := mkSem (fst x ++ [0]) (snd x).

Definition unset (p : slot) : Prop := match p with Ptr _ => False | Null | Wild => True end.
Definition is_wild (p : slot) : bool := match p with Wild => true | _ => false end.

Section REP.
Context (mem : list slot).

(** A stray pointer is left behind the semaphores. *)
Definition stray (l : counters) : Prop := Wild ∈ drop (length l) mem.

Record Rep (t : STable) (l : counters) : Prop := {
  rp_bits : BitmapSpec.Marked (bm t) MAX_SEMAPHORE (list_to_set (seqZ 0 (Z.of_nat (length l))));
  rp_room : Z.of_nat (length l) ≤ MAX_SEMAPHORE;
  rp_slots : semTab t = (Ptr ∘ sem_of <$> l) ++ drop (length l) mem;
  rp_names : Forall (λ x, 0 ∉ fst x) l
}.

Context (Hlen : Z.of_nat (length mem) = MAX_SEMAPHORE) (Hmem : Forall unset mem).

Lemma new_STable_ok : ∃ t, new_STable mem = Ok t ∧ Rep t [].
Proof.
  unfold new_STable. destruct (BitmapSpec.new_Bitmap_spec MAX_SEMAPHORE ltac:(done)) as (b&->&HM). cbn [mbind res_bind]. eexists. split; [done|]. split; [done|done|done|constructor].
Qed.

Lemma length_slots t l : Rep t l → Z.of_nat (length (semTab t)) = MAX_SEMAPHORE.
Proof. intros [_ Hr -> _]. rewrite length_app, length_fmap, length_drop. lia. Qed.

Lemma first_cons nm x l : first nm (x :: l) = if decide (fst x = nm) then Some 0%nat else S <$> first nm l.
Proof. unfold first. cbn. case_decide; [done|]. by destruct (list_find _ _) as [[]|]. Qed.

Lemma existsb_wild q : existsb is_wild q = bool_decide (Wild ∈ q).
Proof.
  apply Bool.eq_iff_eq_true. rewrite bool_decide_eq_true, existsb_exists. split; [|intros H; exists Wild; by split; [apply list_elem_of_In|]].
  intros (y&Hy&Hw). destruct y; try done. by apply list_elem_of_In.
Qed.

(** The search from slot [i] on, with semaphores and then unset slots before it. *)
Lemma find_loop_ok t nm rest (l : counters) q (n : nat) (i : nat) :
  drop i (semTab t) = (Ptr ∘ sem_of <$> l) ++ q → n = (length l + length q)%nat → Forall (λ x, 0 ∉ fst x) l → Forall unset q → 0 ∉ nm →
  find_loop n (Z.of_nat i) (nm ++ 0 :: rest) t
  = match first nm l with
    | Some k => Ok (Some (Z.of_nat (i + k)))
    | None => if existsb is_wild q then Err BadAccess else Ok None
    end.
Proof.
  intros Hd -> Hl Hq Hz.
  assert (Hget : ∀ i p r, drop i (semTab t) = p :: r → aget (semTab t) (Z.of_nat i) = Ok p ∧ drop (S i) (semTab t) = r).
  { intros i' p r E. split; [|by rewrite <- Nat.add_1_r, <- drop_drop, E]. apply aget_Ok. split; [lia|]. by rewrite Nat2Z.id, <- (Nat.add_0_r i'), <- lookup_drop, E. }
  revert i Hd. induction Hl as [|x l Hx Hl IH]; intros i Hd; cbn [length Nat.add fmap list_fmap app] in *.
  - revert i Hd. induction Hq as [|p q Hp Hq IH]; intros i Hd; [done|]. cbn [length find_loop]. destruct (Hget i p q Hd) as [-> Hd']. cbn [mbind res_bind].
    destruct p; [|done|done]. cbn [mbind res_bind]. replace (Z.of_nat i + 1) with (Z.of_nat (S i)) by lia. by rewrite (IH (S i) Hd').
  - cbn [find_loop]. destruct (Hget i _ _ Hd) as [-> Hd']. cbn [mbind res_bind point compose sem_of name]. rewrite FilesSpec.streq_ok by done. cbn [mbind res_bind]. rewrite first_cons.
    case_bool_decide as Ex; [by rewrite decide_True, Nat.add_0_r|]. rewrite decide_False by done. replace (Z.of_nat i + 1) with (Z.of_nat (S i)) by lia. rewrite (IH (S i) Hd').
    destruct (first nm l) as [k|]; [|done]. cbn. do 3 f_equal. lia.
Qed.

Lemma find_ok t l buf nm : Rep t l → cstr buf = Ok nm →
  find buf t = match first nm l with Some i => Ok (Some (Z.of_nat i)) | None => if existsb is_wild (drop (length l) mem) then Err BadAccess else Ok None end.
Proof.
  intros HR Hc. apply FilesSpec.cstr_inv in Hc as (Hz&rest&->). unfold find. apply (find_loop_ok t nm rest l _ _ 0); try done.
  - by rewrite (rp_slots _ _ HR).
  - rewrite length_drop. pose proof (rp_room _ _ HR). lia.
  - apply HR.
  - by apply Forall_drop.
Qed.

(** ** The operations *)

Lemma first_lookup nm l i : first nm l = Some i → ∃ v, l !! i = Some (nm, v).
Proof.
  unfold first. destruct (list_find _ _) as [[j y]|] eqn:E; [|done]. cbn. intros [= <-]. apply list_find_Some in E as (Ej&->&_). rewrite list_lookup_fmap in Ej.
  destruct (l !! j) as [[n v]|]; [|done]. injection Ej as ->. by exists v.
Qed.

Lemma add_names d i l : (add d i l).*1 = l.*1.
Proof.
  unfold add. destruct (l !! i) as [[nm v]|] eqn:E; [|done]. rewrite list_fmap_insert. apply list_insert_id. by rewrite list_lookup_fmap, E.
Qed.

Lemma first_add nm d i l : first nm (add d i l) = first nm l.
Proof. unfold first. by rewrite add_names. Qed.

Lemma first_app nm l x i : first nm l = Some i → first nm (l ++ x) = Some i.
Proof.
  unfold first. rewrite fmap_app. intros E. destruct (list_find _ l.*1) as [[j y]|] eqn:Ef; [|done]. cbn in E. injection E as <-. by rewrite (list_find_app_l _ _ _ _ _ Ef).
Qed.

(** A slot gets a new value. *)
Lemma Rep_add t l i nm v d : Rep t l → l !! i = Some (nm, v) →
  aset (semTab t) (Z.of_nat i) (Ptr (mkSem (nm ++ [0]) (s32 (v + d)))) = Ok (<[i := Ptr (mkSem (nm ++ [0]) (s32 (v + d)))]> (semTab t))
  ∧ Rep (mkSTable (bm t) (<[i := Ptr (mkSem (nm ++ [0]) (s32 (v + d)))]> (semTab t))) (add d i l).
Proof.
  intros [Hb Hr Hs Hn] E. pose proof (lookup_lt_Some _ _ _ E) as Hlt.
  assert (Hla : length (add d i l) = length l) by (by rewrite <- (length_fmap fst), add_names, length_fmap).
  split; [rewrite aset_in, Nat2Z.id; [done|rewrite Hs, length_app, length_fmap; lia]|]. split; cbn [bm semTab].
  - by rewrite Hla.
  - by rewrite Hla.
  - rewrite Hla, Hs, insert_app_l by (by rewrite length_fmap). f_equal. unfold add. rewrite E. by rewrite list_fmap_insert.
  - unfold add. rewrite E. apply Forall_insert; [done|]. exact (proj1 (Forall_lookup _ _) Hn _ _ E).
Qed.

Lemma slot_value t l i nm v : Rep t l → l !! i = Some (nm, v) → aget (semTab t) (Z.of_nat i) = Ok (Ptr (mkSem (nm ++ [0]) v)).
Proof.
  intros HR E. apply aget_Ok. split; [lia|]. rewrite Nat2Z.id, (rp_slots _ _ HR), lookup_app_l by (rewrite length_fmap; by eapply lookup_lt_Some). by rewrite list_lookup_fmap, E.
Qed.

Lemma wait_ok t l i nm v : Rep t l → l !! i = Some (nm, v) →
  if v =? 0 then wait (Z.of_nat i) t = Ok None else ∃ t', wait (Z.of_nat i) t = Ok (Some t') ∧ Rep t' (add (-1) i l).
Proof.
  intros HR E. unfold wait. rewrite (slot_value t l i nm v HR E). cbn [mbind res_bind point value name]. destruct (v =? 0); [done|].
  destruct (Rep_add t l i nm v (-1) HR E) as [Ea HR']. change (v - 1) with (v + -1). rewrite Ea. cbn [mbind res_bind]. by eexists.
Qed.

Lemma signal_ok t l i nm v : Rep t l → l !! i = Some (nm, v) → ∃ t', signal (Z.of_nat i) t = Ok t' ∧ Rep t' (add 1 i l).
Proof.
  intros HR E. unfold signal. rewrite (slot_value t l i nm v HR E). cbn [mbind res_bind point value name].
  destruct (Rep_add t l i nm v 1 HR E) as [Ea HR']. rewrite Ea. cbn [mbind res_bind]. by eexists.
Qed.

Lemma in_seqZ_set n j : j ∈@{gset Z} list_to_set (seqZ 0 n) ↔ 0 ≤ j < n.
Proof. rewrite elem_of_list_to_set, elem_of_seqZ. lia. Qed.

(** A name fits when its semaphore can be made. *)
Definition fits (nm : list Z) (l : counters) : Prop := Z.of_nat (length l) < MAX_SEMAPHORE → Z.of_nat (length nm) < SEM_NAME_MAX_LEN.

Lemma Create_sem_ok t l buf nm init : Rep t l → cstr buf = Ok nm →
  (fits nm l ∧ ∃ t', Create buf init t = Ok ((if bool_decide (Z.of_nat (length l) < MAX_SEMAPHORE) then noreturn else -1), t')
     ∧ Rep t' (if bool_decide (Z.of_nat (length l) < MAX_SEMAPHORE) then l ++ [(nm, init)] else l))
  ∨ ¬ fits nm l ∧ Create buf init t = Err BadAccess.
Proof.
  intros HR Hc. pose proof (length_slots t l HR) as Hls. pose proof HR as [Hb Hr Hs Hn]. unfold Create, FindFreeSlot. case_bool_decide as Hl.
  - destruct (BitmapSpec.FindAndSet_first (bm t) _ _ (Z.of_nat (length l)) Hb) as (b'&->&HM); [lia|rewrite in_seqZ_set; lia|intros j Hj; apply in_seqZ_set; lia|]. cbn [mbind res_bind].
    rewrite (proj2 (Z.eqb_neq _ _)) by lia. unfold new_Sem, strcpy. rewrite Hc. cbn [mbind res_bind]. destruct (Z.ltb_spec (Z.of_nat (length nm)) SEM_NAME_MAX_LEN) as [Hf|Hf]; [left|right; split; [unfold fits; lia|done]].
    split; [by intros _|]. cbn [mbind res_bind semTab bm].
    rewrite aset_in by lia. cbn [mbind res_bind]. eexists. split; [done|]. split; cbn [bm semTab].
    + rewrite length_app. cbn [length]. replace (list_to_set (seqZ 0 (Z.of_nat (length l + 1))) : gset Z) with ({[Z.of_nat (length l)]} ∪ list_to_set (seqZ 0 (Z.of_nat (length l))) : gset Z); [done|].
      apply set_eq. intros j. rewrite elem_of_union, elem_of_singleton, !in_seqZ_set. lia.
    + rewrite length_app. cbn [length]. lia.
    + rewrite Hs, Nat2Z.id. rewrite fmap_app, <- app_assoc. rewrite <- (length_fmap (Ptr ∘ sem_of) l) at 1. rewrite <- (Nat.add_0_r (length _)), insert_app_r. f_equal.
      rewrite length_app. cbn [length]. rewrite <- drop_drop. destruct (drop (length l) mem) as [|p q] eqn:Ed; [|done]. apply (f_equal length) in Ed. rewrite length_drop in Ed. cbn in Ed. lia.
    + apply Forall_app. split; [done|]. constructor; [|constructor]. by apply FilesSpec.cstr_inv in Hc as [? _].
  - left. split; [unfold fits; lia|]. rewrite (BitmapSpec.FindAndSet_full (bm t) _ _ Hb) by (intros j Hj; apply in_seqZ_set; lia). cbn [mbind res_bind Z.eqb]. eexists. split; [done|]. by split.
Qed.

Lemma Signal_sem_ok t l buf nm : Rep t l → cstr buf = Ok nm →
  match first nm l with
  | Some i => ∃ t', Signal buf t = Ok (Z.of_nat i, t') ∧ Rep t' (add 1 i l)
  | None => Signal buf t = if existsb is_wild (drop (length l) mem) then Err BadAccess else Ok (-1, t)
  end.
Proof.
  intros HR Hc. unfold Signal. rewrite (find_ok t l buf nm HR Hc). destruct (first nm l) as [i|] eqn:Ef; [|by destruct (existsb _ _)]. cbn [mbind res_bind].
  destruct (first_lookup nm l i Ef) as [v Ev]. destruct (signal_ok t l i nm v HR Ev) as (t'&->&HR'). cbn [mbind res_bind]. by exists t'.
Qed.

(** ** Histories *)

Definition tpend (ts : tstate) : option (call + Z) := match ts with Outside => None | InWait c _ => Some (inl c) end.
Definition phases (G : gmap nat tstate) : gmap nat (call + Z) := omap tpend G.

(** A thread in Wait is at the first semaphore of its name. *)
Definition waits_right (l : counters) (ts : tstate) : Prop :=
  match ts with
  | Outside => True
  | InWait c i => ∃ buf nm, c = CWait buf ∧ cstr buf = Ok nm ∧ 0 ≤ i ∧ first nm l = Some (Z.to_nat i)
  end.

Record Ok_ (s : Sys) (l : counters) : Prop := {
  ok_rep : Rep (tab s) l;
  ok_threads t ts : threads s !! t = Some ts → waits_right l ts
}.

(** The names of a later state begin with those of an earlier one. *)
Definition later (l l' : counters) : Prop := ∀ nm i, first nm l = Some i → first nm l' = Some i.

Lemma Ok_update s l tb l' t ts : Ok_ s l → Rep tb l' → later l l' → waits_right l' ts → Ok_ (mkSys tb (<[t := ts]> (threads s))) l'.
Proof.
  intros [HR HT] HR' Hlat Hts. split; cbn; [done|]. intros t2 ts2 [[<- <-]|[Hne Ht2]]%lookup_insert_Some; [done|]. specialize (HT _ _ Ht2).
  destruct ts2 as [|c i]; [done|]. destruct HT as (buf&nm&?&?&?&?). exists buf, nm. auto.
Qed.

Lemma phases_outside G t : phases (<[t := Outside]> G) = delete t (phases G).
Proof. unfold phases. by rewrite omap_insert. Qed.

(** A call that is done at once. *)
Lemma arun_at_once α h l G t c v l' :
  Conc.ARun α h (l, phases G) → G !! t ≫= tpend = None → Conc.apply_call c l = Some (v, l') → Conc.ARun α (h ++ [Conc.HCall t c; Conc.HRet t v]) (l', phases (<[t := Outside]> G)).
Proof.
  intros HA Ht Ea. change ([Conc.HCall t c; Conc.HRet t v]) with ([Conc.HCall t c] ++ [Conc.HRet t v]). rewrite app_assoc, phases_outside.
  assert (phases G !! t = None) as Hp by (unfold phases; by rewrite lookup_omap).
  replace (delete t (phases G)) with (delete t (<[t := inr v]> (<[t := inl c]> (phases G)))) by (by rewrite insert_insert_eq, delete_insert_eq).
  apply Conc.arun_ret; [|by rewrite lookup_insert_eq]. eapply Conc.arun_do; [by apply Conc.arun_call|by rewrite lookup_insert_eq|done].
Qed.

Definition name_of (c : call) : list Z := match c with CCreate buf _ | CWait buf | CSignal buf => buf end.

(** The names come from User2System, which ends them with a NUL. *)
Definition terminated (c : call) : Prop := ∃ nm, cstr (name_of c) = Ok nm.

(** What makes a call fail: the Create of a name that does not fit its array,
    and looking for a name that is not there past a stray pointer. *)
Definition fails (c : call) (l : counters) : Prop :=
  match c with
  | CCreate buf _ => ∃ nm, cstr buf = Ok nm ∧ Z.of_nat (length l) < MAX_SEMAPHORE ∧ SEM_NAME_MAX_LEN ≤ Z.of_nat (length nm)
  | CWait buf | CSignal buf => ∃ nm, cstr buf = Ok nm ∧ first nm l = None ∧ stray l
  end.

Definition follows (s : Sys) (l : counters) (e : event) (r : option Z) (s' : Sys) (l' : counters) : Prop :=
  ∀ α h, Conc.ARun α h (l, phases (threads s)) → Conc.ARun α (h ++ visible e r) (l', phases (threads s')).

Lemma later_refl l : later l l.
Proof. by intros nm i. Qed.

Lemma later_add d i l : later l (add d i l).
Proof. intros nm j. by rewrite first_add. Qed.

Lemma later_app l x : later l (l ++ x).
Proof. intros nm j. apply first_app. Qed.

Lemma outside_pend s t : default Outside (threads s !! t) = Outside → threads s !! t ≫= tpend = None.
Proof. destruct (threads s !! t) as [ts|]; [|done]. cbn. by intros ->. Qed.

Lemma not_found_fails buf nm l : cstr buf = Ok nm → first nm l = None →
  if existsb is_wild (drop (length l) mem) then fails (CWait buf) l else ¬ fails (CWait buf) l.
Proof.
  intros Ec Ef. rewrite existsb_wild. case_bool_decide as Hw; [by exists nm|]. intros (nm'&_&_&?). done.
Qed.

Lemma found_ok buf nm l i : cstr buf = Ok nm → first nm l = Some i → ¬ fails (CWait buf) l.
Proof. intros Ec Ef (nm'&Ec'&?&_). congruence. Qed.

Lemma sem_call_ok s l t c r : Ok_ s l → terminated c → step (Call t c) s = Some r →
  (¬ fails c l ∧ ∃ v s' l', r = Ok (v, s') ∧ Ok_ s' l' ∧ follows s l (Call t c) v s' l') ∨ fails c l ∧ r = Err BadAccess.
Proof.
  intros HS [nm Ec] E. unfold step in E. destruct (default Outside (threads s !! t)) eqn:Et; [|done]. injection E as <-. apply outside_pend in Et. pose proof (ok_rep _ _ HS) as HR. destruct c as [buf init|buf|buf]; cbn [start_call name_of] in *.
  - destruct (Create_sem_ok (tab s) l buf nm init HR Ec) as [[Hf (tb&E&HR')]|[Hf E]]; rewrite E; cbn [mbind res_bind]; [left|right; split; [exists nm; unfold fits in Hf; split; [done|lia]|done]].
    split; [intros (nm'&Ec'&?&?); assert (nm' = nm) as -> by congruence; unfold fits in Hf; lia|].
    eexists _, _, _. split; [done|]. split; [apply (Ok_update s l); try done; case_bool_decide; [apply later_app|apply later_refl]|].
    intros α h HA. apply (arun_at_once α h l); try done. unfold Conc.apply_call, Counters. rewrite Ec. by case_bool_decide.
  - rewrite (find_ok (tab s) l buf nm HR Ec). destruct (first nm l) as [i|] eqn:Ef; cbn [mbind res_bind].
    + left. split; [by eapply found_ok|]. eexists None, _, l. split; [done|]. split; [apply (Ok_update s l); [done|done|apply later_refl|]; exists buf, nm; split_and!; try done; [lia|by rewrite Nat2Z.id]|].
      intros α h HA. cbn. unfold phases. rewrite omap_insert. cbn. apply Conc.arun_call; [done|]. by rewrite lookup_omap.
    + pose proof (not_found_fails buf nm l Ec Ef) as Hf. destruct (existsb _ _); [by right|left]. split; [done|].
      eexists (Some (-1)), _, l. split; [done|]. split; [by apply (Ok_update s l); [..|apply later_refl|]|]. intros α h HA. apply (arun_at_once α h l); try done. unfold Conc.apply_call, Counters. by rewrite Ec, Ef.
  - pose proof (Signal_sem_ok (tab s) l buf nm HR Ec) as HSig. destruct (first nm l) as [i|] eqn:Ef.
    + destruct HSig as (tb&E&HR'). rewrite E. cbn [mbind res_bind]. left. split; [by eapply found_ok|].
      eexists _, _, _. split; [done|]. split; [apply (Ok_update s l); try done; apply later_add|].
      intros α h HA. apply (arun_at_once α h l); try done. unfold Conc.apply_call, Counters. by rewrite Ec, Ef.
    + rewrite HSig. pose proof (not_found_fails buf nm l Ec Ef) as Hf. destruct (existsb _ _); [by right|left]. split; [done|].
      eexists (Some (-1)), _, l. split; [done|]. split; [by apply (Ok_update s l); [..|apply later_refl|]|]. intros α h HA. apply (arun_at_once α h l); try done. unfold Conc.apply_call, Counters. by rewrite Ec, Ef.
Qed.

Lemma pass_ok s l t r : Ok_ s l → step (Pass t) s = Some r → ∃ v s' l', r = Ok (v, s') ∧ Ok_ s' l' ∧ follows s l (Pass t) v s' l'.
Proof.
  intros HS E. unfold step in E. destruct (threads s !! t) as [[|c i]|] eqn:Et; cbn [default from_option] in E; unfold id in E; try done. destruct (ok_threads _ _ HS t _ Et) as (buf&nm&->&Ec&Hi&Ef).
  destruct (first_lookup nm l _ Ef) as [v Ev]. pose proof (wait_ok (tab s) l (Z.to_nat i) nm v (ok_rep _ _ HS) Ev) as Hw. rewrite Z2Nat.id in Hw by done. destruct (v =? 0) eqn:Ez; [by rewrite Hw in E|].
  destruct Hw as (tb&Ew&HR'). rewrite Ew in E. injection E as <-. eexists (Some i), _, (add (-1) (Z.to_nat i) l). split; [done|]. split; [apply (Ok_update s l); try done; apply later_add|].
  intros α h HA. cbn. rewrite phases_outside. replace (delete t (phases (threads s))) with (delete t (<[t := inr i]> (phases (threads s)))) by (by rewrite delete_insert_eq).
  apply Conc.arun_ret; [|by rewrite lookup_insert_eq]. eapply Conc.arun_do; [exact HA|unfold phases; by rewrite lookup_omap, Et|]. unfold Conc.apply_call, Counters. rewrite Ec, Ef, Ev, Ez. by rewrite Z2Nat.id.
Qed.

Definition all_terminated (h : list (Conc.hev call Z)) : Prop := ∀ t c, Conc.HCall t c ∈ h → terminated c.

Lemma sem_run_ok s0 h s : Ok_ s0 [] → threads s0 = ∅ → Run s0 h s → all_terminated h → ∃ l, Ok_ s l ∧ Conc.ARun ([], ∅) h (l, phases (threads s)).
Proof.
  intros H0 E0 HR. induction HR as [|h s1 e r s2 HR IH E]; intros HT; [exists []; split; [done|]; rewrite E0; unfold phases; rewrite omap_empty; constructor|].
  destruct IH as (l&HS&HA); [intros t c Hin; apply (HT t); apply elem_of_app; by left|]. destruct e as [t c|t].
  - destruct (sem_call_ok s1 l t c (Ok (r, s2)) HS) as [(_&v&s'&l'&[= <- <-]&HS'&HF)|[_ ?]]; [apply (HT t), elem_of_app; right; by left|exact E| |done]. exists l'. split; [done|by apply HF].
  - destruct (pass_ok s1 l t _ HS E) as (v&s'&l'&[= <- <-]&HS'&HF). exists l'. split; [done|by apply HF].
Qed.

End REP.

(** ** The counters stay between zero and what the permits and the signals give *)

Definition permits_ok (m : Z) (h : list (Conc.hev call Z)) : Prop := ∀ t buf init, Conc.HCall t (CCreate buf init) ∈ h → 0 ≤ init ≤ m.

Definition signal_call (c : call + Z) : bool := match c with inl (CSignal _) => true | _ => false end.

(** The SignalSem calls of a history, and those that are on their way. *)
Definition signals (h : list (Conc.hev call Z)) : Z :=
  foldr (λ e n, match e with Conc.HCall _ c => if signal_call (inl c) then n + 1 else n | _ => n end) 0 h.
Definition coming (ph : gmap nat (call + Z)) : Z := Z.of_nat (size (filter (λ x, signal_call x.2 = true) ph)).

Lemma signals_snoc h e : signals (h ++ [e]) = signals h + signals [e].
Proof. induction h as [|x h IH]; [done|]. cbn [app signals foldr] in *. fold (signals (h ++ [e])) (signals h) in *. rewrite IH. repeat case_match; lia. Qed.

Lemma coming_insert ph t x : ph !! t = None → coming (<[t := x]> ph) = coming ph + if signal_call x then 1 else 0.
Proof.
  intros Ht. unfold coming. destruct (signal_call x) eqn:Ex.
  - rewrite map_filter_insert_True by done. rewrite map_size_insert_None by (by apply map_lookup_filter_None; left). lia.
  - rewrite map_filter_insert_False by (cbn; congruence). rewrite delete_id by done. lia.
Qed.

Lemma coming_delete ph t x : ph !! t = Some x → coming ph = coming (delete t ph) + if signal_call x then 1 else 0.
Proof. intros Ht. rewrite <- (insert_delete_id ph t x Ht) at 1. apply coming_insert. apply lookup_delete_eq. Qed.

Lemma coming_done ph t c v : ph !! t = Some (inl c) → coming ph = coming (<[t := inr v]> ph) + if signal_call (inl c) then 1 else 0.
Proof.
  intros Ht. rewrite (coming_delete _ _ _ Ht), (coming_delete (<[t := inr v]> ph) t (inr v)) by apply lookup_insert_eq. cbn [signal_call]. rewrite delete_insert_eq. lia.
Qed.

Definition bounded (m : Z) (h : list (Conc.hev call Z)) (α : counters * gmap nat (call + Z)) : Prop :=
  Forall (λ x, 0 ≤ snd x ≤ m + signals h - coming (snd α)) (fst α)
  ∧ ∀ t buf init, snd α !! t = Some (inl (CCreate buf init)) → 0 ≤ init ≤ m.

(** The effect of one call on counters between 0 and [n], with a signal to come. *)
Lemma apply_bounded c l v l' n : 0 ≤ n → Forall (λ x, 0 ≤ snd x ≤ n) l → Conc.apply_call c l = Some (v, l') →
  (∀ buf init, c = CCreate buf init → 0 ≤ init ≤ n) →
  n + (if signal_call (inl c) then 1 else 0) < halfword → Forall (λ x, 0 ≤ snd x ≤ n + if signal_call (inl c) then 1 else 0) l'.
Proof.
  intros Hn HF Ea Hc Hhalf.
  assert (∀ d i nm w, l !! i = Some (nm, w) → -1 ≤ d ≤ 1 → 0 ≤ w + d → n + (if decide (0 < d) then 1 else 0) < halfword → Forall (λ x, 0 ≤ snd x ≤ n + (if decide (0 < d) then 1 else 0)) (add d i l)) as Hadd.
  { intros d i nm w E Hd Hw Hh. pose proof (proj1 (Forall_lookup _ _) HF _ _ E) as Hb. cbn in Hb. unfold add. rewrite E. apply Forall_insert.
    - eapply Forall_impl; [exact HF|]. cbn. intros x Hx. case_decide; lia.
    - cbn. rewrite s32_id by (unfold is_s32; revert Hh; case_decide; unfold_int; lia). case_decide; lia. }
  unfold Conc.apply_call, Counters in Ea. destruct c as [buf init|buf|buf]; destruct (cstr buf) as [nm|]; try done; cbn [signal_call] in *; rewrite ?Z.add_0_r in *.
  - specialize (Hc buf init eq_refl). case_bool_decide; injection Ea as <- <-; [|done]. apply Forall_app. split; [done|]. constructor; [done|constructor].
  - destruct (first nm l) as [i|]; [|by injection Ea as <- <-]. destruct (l !! i) as [[m w]|] eqn:Ei; [|done]. destruct (Z.eqb_spec w 0); [done|]. injection Ea as <- <-.
    pose proof (proj1 (Forall_lookup _ _) HF _ _ Ei) as Hb. cbn in Hb. specialize (Hadd (-1) i m w Ei). rewrite decide_False, Z.add_0_r in Hadd by lia. apply Hadd; lia.
  - destruct (first nm l) as [i|] eqn:Ef; injection Ea as <- <-; [|eapply Forall_impl; [exact HF|]; cbn; lia]. destruct (first_lookup nm l i Ef) as [w Ei].
    pose proof (proj1 (Forall_lookup _ _) HF _ _ Ei) as Hb. cbn in Hb. specialize (Hadd 1 i nm w Ei). rewrite decide_True in Hadd by lia. apply Hadd; lia.
Qed.

Lemma signals_nonneg h : 0 ≤ signals h.
Proof. induction h as [|e h IH]; [done|]. cbn [signals foldr]. fold (signals h). repeat case_match; lia. Qed.

Lemma counters_bounded (m : Z) h α : 0 ≤ m → Conc.ARun ([], ∅) h α → permits_ok m h → m + signals h < halfword → coming (snd α) ≤ signals h ∧ bounded m h α.
Proof.
  intros Hm HA. induction HA as [|h l ph t c HA IH Hp|h l ph t c v l' HA IH Hp Ea|h l ph t v HA IH Hp]; intros HP HS; unfold bounded in *; cbn [fst snd] in *.
  - split; [done|]. split; [constructor|]. intros t buf init. by rewrite lookup_empty.
  - rewrite signals_snoc in *. cbn [signals foldr] in *. rewrite (coming_insert _ _ _ Hp).
    assert (HP' : permits_ok m h) by (intros t' buf init Hin; apply (HP t' buf), elem_of_app; by left).
    destruct IH as (IH0&IH1&IH2); [done|case_match; lia|]. split; [case_match; lia|]. split; [eapply Forall_impl; [exact IH1|]; cbn beta; intros x Hx; destruct (signal_call (inl c)); lia|].
    intros t' buf init [[<- [= ->]]|[Hne ?]]%lookup_insert_Some; [|by apply (IH2 t' buf)]. apply (HP t buf), elem_of_app. right. by left.
  - destruct (IH HP HS) as (IH0&IH1&IH2). pose proof (coming_done ph t c v Hp) as Hc. assert (0 ≤ coming (<[t := inr v]> ph)) by (unfold coming; lia). split; [case_match; lia|]. split.
    + assert (Hcr : ∀ buf init, c = CCreate buf init → 0 ≤ init ≤ m) by (intros buf init ->; by apply (IH2 t buf)).
      replace (m + signals h - coming (<[t := inr v]> ph)) with (m + signals h - coming ph + if signal_call (inl c) then 1 else 0) by (case_match; lia).
      apply (apply_bounded c l v l'); [lia|done|done| |case_match; lia]. intros buf init Ec. specialize (Hcr buf init Ec). lia.
    + intros t' buf init [[<- ?]|[Hne ?]]%lookup_insert_Some; [done|by apply (IH2 t' buf)].
  - rewrite signals_snoc in *. cbn [signals foldr] in *. rewrite Z.add_0_r in *. rewrite (coming_delete _ _ _ Hp) in IH. cbn [signal_call] in IH. rewrite Z.add_0_r in IH.
    destruct IH as (IH0&IH1&IH2); [intros t' buf init Hin; apply (HP t' buf), elem_of_app; by left|done|]. split; [done|]. split; [done|]. intros t' buf init [_ ?]%lookup_delete_Some. by apply (IH2 t' buf).
Qed.
End CODE.

(** ** Theorems *)

(** C30 (refinement): the semaphore table is a list of named counters: for every
    history of CreateSem, WaitSem and SignalSem calls of any number of threads
    there is a run of the counters with the same history, in which each call
    happens at one instant between its start and its return.  Create appends a
    counter, also under a name that exists, and returns -1 when there are ten;
    Wait and Signal act on the first counter of their name or return -1; Wait
    waits while the counter is zero; the counters are ints that wrap around.
    Whatever the memory held where the table was made, a call fails exactly if
    it is the Create of a name of 64 characters, which overflows its array, or
    a Wait or Signal of a name that is not there while a slot without a
    semaphore holds a stray pointer, which is followed; a thread that waits
    never fails.  With permits between 0 and [m] and fewer than 2^31 - [m]
    signals no counter wraps or goes below zero. *)
Theorem semaphore_table_refines_counters (noreturn m : Z) (mem : list slot) (tb : STable) (h : list (Conc.hev call Z)) (s : Sys) :
  Z.of_nat (length mem) = MAX_SEMAPHORE → Forall unset mem →
  new_STable mem = Ok tb → Run noreturn (mkSys tb ∅) h s → all_terminated h →
  ∃ l ph, Conc.ARun (Atomic0 := Counters noreturn) ([], ∅) h (l, ph) ∧ Rep mem (tab s) l
  ∧ (∀ t c r, terminated c → step noreturn (Call t c) s = Some r →
       (fails mem c l → r = Err BadAccess) ∧ (¬ fails mem c l → ∃ v, r = Ok v))
  ∧ (∀ t r, step noreturn (Pass t) s = Some r → ∃ v, r = Ok v)
  ∧ (0 ≤ m → permits_ok m h → m + signals h < halfword → Forall (λ x, 0 ≤ snd x ≤ m + signals h) l).
Proof.
  intros Hlen Hmem E0 HR HT. destruct (new_STable_ok mem) as (tb'&E1&HRep). rewrite E0 in E1. injection E1 as <-.
  destruct (sem_run_ok noreturn mem Hlen Hmem (mkSys tb ∅) h s) as (l&HS&HA); [by split|done|done|done|]. exists l. eexists. split; [exact HA|]. split; [apply HS|]. split; [|split].
  - intros t c r Ht E. destruct (sem_call_ok noreturn mem Hlen Hmem s l t c r HS Ht E) as [(Hf&v&s'&l'&->&_)|[Hf ->]]; split; intros ?; try done. by eexists.
  - intros t r E. destruct (pass_ok noreturn mem s l t r HS E) as (v&s'&l'&->&_). by eexists.
  - intros Hm HP Hs. destruct (counters_bounded noreturn m h _ Hm HA HP Hs) as (_&HF&_). eapply Forall_impl; [exact HF|]. cbn. intros x Hx. unfold coming in Hx. lia.
Qed.

(** ** Witness: one thread waits, another one signals *)

Definition buf_a : list Z := [97; 0].

Definition no_pointers : list slot := replicate 10 Null.

Definition sample_tab : STable := match new_STable no_pointers with Ok t => t | Err _ => mkSTable (mkBitmap 0 0 []) [] end.

Lemma sample_tab_ok : new_STable no_pointers = Ok sample_tab.
Proof. vm_compute. reflexivity. Qed.

Fixpoint follow (es : list event) (s : Sys) : option (list (Conc.hev call Z) * Sys) :=
  match es with
  | [] => Some ([], s)
  | e :: es => match step 77 e s with
               | Some (Ok (r, s)) => match follow es s with Some (h, s') => Some (visible e r ++ h, s') | None => None end
               | _ => None
               end
  end.

Lemma sem_follow_run es s0 h0 s h s' : Run 77 s0 h0 s → follow es s = Some (h, s') → Run 77 s0 (h0 ++ h) s'.
Proof.
  revert s h0 h. induction es as [|e es IH]; intros s h0 h HR E; cbn in E; [injection E as <- <-; by rewrite app_nil_r|].
  destruct (step 77 e s) as [[[r s1]|]|] eqn:Es; try done. destruct (follow es s1) as [[h1 s2]|] eqn:Ef; [|done]. injection E as <- <-. rewrite app_assoc. eapply IH; [|done]. by econstructor.
Qed.

Definition ping : list event := [Call 1 (CCreate buf_a 0); Call 1 (CWait buf_a); Call 2 (CSignal buf_a); Pass 1; Call 2 (CWait [98; 0])].

Abbreviation ping_history :=
  [Conc.HCall 1 (CCreate buf_a 0); Conc.HRet 1 77; Conc.HCall 1 (CWait buf_a); Conc.HCall 2 (CSignal buf_a); Conc.HRet 2 0; Conc.HRet 1 0; Conc.HCall 2 (CWait [98; 0]); Conc.HRet 2 (-1)].

Lemma ping_run : fst <$> follow ping (mkSys sample_tab ∅) = Some ping_history.
Proof. vm_compute. reflexivity. Qed.

Lemma ping_names : all_terminated ping_history ∧ permits_ok 0 ping_history.
Proof.
  split.
  - intros t c Hin. apply list_elem_of_In in Hin. cbn [In] in Hin. destruct Hin as [[= <- <-]|[?|[[= <- <-]|[[= <- <-]|[?|[?|[[= <- <-]|[?|[]]]]]]]]]; try done; by eexists.
  - intros t buf init Hin. apply list_elem_of_In in Hin. cbn [In] in Hin. destruct Hin as [[= <- <- <-]|[?|[?|[?|[?|[?|[?|[?|[]]]]]]]]]; try done; lia.
Qed.

Lemma semaphore_table_refines_counters_witness :
  ∃ l ph, Conc.ARun (Atomic0 := Counters 77) ([], ∅) ping_history (l, ph) ∧ Forall (λ x, 0 ≤ snd x ≤ 1) l.
Proof.
  pose proof ping_run as E. destruct (follow ping (mkSys sample_tab ∅)) as [[h s]|] eqn:Ef; [|done]. cbn in E. injection E as ->.
  destruct (semaphore_table_refines_counters 77 0 no_pointers sample_tab ping_history s) as (l&ph&HA&_&_&_&HP).
  - done.
  - by repeat constructor.
  - exact sample_tab_ok.
  - exact (sem_follow_run _ _ [] _ _ _ (run_nil _ _) Ef).
  - apply ping_names.
  - exists l, ph. split; [exact HA|]. apply HP; [done|apply ping_names|done].
Defined.

(** In other memory the same calls fail: looking for a name that is not there
    follows a stray pointer. *)
Example stray_pointer :
  (tb ← new_STable (replicate 9 Null ++ [Wild]); '(_, tb) ← Create 77 buf_a 0 tb; Signal [98; 0] tb) = Err BadAccess.
Proof. vm_compute. reflexivity. Qed.

(** The permits of a semaphore wrap around. *)
Example value_wraps :
  (tb ← new_STable no_pointers; '(_, tb) ← Create 77 buf_a (halfword - 1) tb; '(_, tb) ← Signal buf_a tb; Ok (head (semTab tb)))
  = Ok (Some (Ptr (mkSem buf_a (- halfword)))).
Proof. vm_compute. reflexivity. Qed.
End SemTable.
