(* ===== verification/ProcCalls.v ===== *)
(** userprog/exception.cc, the calls on processes and named semaphores: Exec,
    ExecV, Exit, Join, CreateSem, WaitSem and SignalSem, and GetArgvs.

    A thread can sleep in the function of ksyscall.h that such a call runs, and
    other threads run in the meantime.  A case of the handler is therefore in two
    parts: [S kcall] takes the arguments from the registers and the memory of the
    program and ends with the call it makes, a call of Process.v or SemTable.v;
    [after] is what follows when the call has returned.  Names and arguments are
    the characters of the buffers, as in Process.v.
    GetArgvs only reads the process table and runs at once. *)

From S2P Require Import Prelude BitmapLib Machine AddrSpace Files Syscall Process SemTable.
#[local] Open Scope list_scope.

Module ProcCalls.
Import Machine CString Files Syscall.

Definition SC_Exit : Z := 1.
Definition SC_Exec : Z := 2.
Definition SC_Join : Z := 3.
Definition SC_ExecV : Z := 13.
Definition SC_GetArgvs : Z := 20.
Definition SC_CreateSem : Z := 69.
Definition SC_WaitSem : Z := 70.
Definition SC_SignalSem : Z := 71.

Inductive kcall := KProc (c : Process.call) | KSem (c : SemTable.call).

Section CALLS.
Context {H ino : Type} `{Host H ino}.
Abbreviation S := (@S H ino).

Definition do_Exec : S kcall :=
  virtAddr ← mach (ReadRegister 4);
  exec_name ← User2System virtAddr FILE_NAME_MAX_LEN;
  name ← slift (cstr exec_name);
  mret (KProc (Process.CExec name)).

Definition do_Exit : S kcall :=
  exit_status ← mach (ReadRegister 4);
  mret (KProc (Process.CExit exit_status)).

Definition do_Join : S kcall :=
  join_thread_id ← mach (ReadRegister 4);
  mret (KProc (Process.CJoin join_thread_id)).

Definition do_CreateSem : S kcall :=
  virtAddr ← mach (ReadRegister 4);
  permits ← mach (ReadRegister 5);
  sem_name ← User2System virtAddr SemTable.SEM_NAME_MAX_LEN;
  mret (KSem (SemTable.CCreate sem_name permits)).

Definition do_WaitSem : S kcall :=
  virtAddr ← mach (ReadRegister 4);
  sem_name ← User2System virtAddr SemTable.SEM_NAME_MAX_LEN;
  mret (KSem (SemTable.CWait sem_name)).

Definition do_SignalSem : S kcall :=
  virtAddr ← mach (ReadRegister 4);
  sem_name ← User2System virtAddr SemTable.SEM_NAME_MAX_LEN;
  mret (KSem (SemTable.CSignal sem_name)).

(** The loop of ExecV over the characters of an argument.  Nothing but the end of
    the address space bounds it. *)
Fixpoint arg_length (n : nat) (argAddr offset : Z) : S Z :=
  match n with
  | O => slift (Err OutOfFuel)
  | Datatypes.S n =>
    value ← mach (ReadMem (s32 (argAddr + offset)) 1);
    let c := s8 value in
    let offset := s32 (offset + 1) in
    if negb (c =? 0) then arg_length n argAddr offset else mret offset
  end.

Definition arg_fuel : nat := Z.to_nat MemorySize + 1.

(** The loop over the arguments, [n] more from [i]. *)
Fixpoint read_args (n : nat) (i virtAddr : Z) (argv : list (list Z)) : S (list (list Z)) :=
  match n with
  | O => mret argv
  | Datatypes.S n =>
    argAddr ← mach (ReadMem (s32 (virtAddr + s32 (i * 4))) 4);
    offset ← arg_length arg_fuel argAddr 0;
    arg ← User2System argAddr offset;
    arg ← slift (cstr arg);
    read_args n (i + 1) virtAddr (argv ++ [arg])
  end.

Definition do_ExecV : S kcall :=
  argc ← mach (ReadRegister 4);
  virtAddr ← mach (ReadRegister 5);
  slift (if argc <? 0 then Err AssertFailed else Ok tt) ;;
  argv ← read_args (Z.to_nat argc) 0 virtAddr [];
  mret (KProc (Process.CExecV argc argv)).

(** Behind the call: all but Exit write the result to register 2. *)
Definition after (c : kcall) (result : Z) : S unit :=
  match c with
  | KProc (Process.CExit _) => increasePC
  | _ => finish result
  end.

Definition process_call (type : Z) : option (S kcall) :=
  if type =? SC_Exec then Some do_Exec
  else if type =? SC_Exit then Some do_Exit
  else if type =? SC_Join then Some do_Join
  else if type =? SC_CreateSem then Some do_CreateSem
  else if type =? SC_WaitSem then Some do_WaitSem
  else if type =? SC_SignalSem then Some do_SignalSem
  else if type =? SC_ExecV then Some do_ExecV
  else None.

Definition ProcessHandler (k : Kern) : option (sout kcall) :=
  match ReadRegister 2 (machine k) with
  | Ret type _ => (λ c, c k) <$> process_call type
  | Trap _ _ => None
  | Fault e => Some (SFailed kcall e)
  end.

(** ** GetArgvs *)

Definition GetArgc (this : Process.ptr) : Process.proc Z := Process.field this Process.userArgc.
Definition GetArgv (this : Process.ptr) : Process.proc (list (list Z)) := Process.field this Process.userArgs.

(** A call on the process table that does not sleep. *)
Definition at_once {A} (c : Process.proc A) (ks : Process.KS) : res A :=
  match c ks with
  | Ok (_, Process.Return a) => Ok a
  | Ok _ => Err OutOfFuel
  | Err e => Err e
  end.

(** [n] more characters of an argument, from [j]. *)
Fixpoint copy_arg (n : nat) (j at_ : Z) (arg temp : list Z) : res (list Z) :=
  match n with
  | O => Ok temp
  | Datatypes.S n =>
    c ← aget arg j;
    temp ← aset temp (at_ + j) c;
    copy_arg n (j + 1) at_ arg temp
  end.

(** An argument ends in a NUL, which the model does not store. *)
Fixpoint copy_args (n : nat) (i argc count size : Z) (data : list (list Z)) (result : Z) (temp : list Z) : res (Z * list Z) :=
  match n with
  | O => Ok (result, temp)
  | Datatypes.S n =>
    if (i <? argc) && negb (result =? count) then
      d ← aget data i;
      let arg := d ++ [0] in
      len ← strnlen (Z.to_nat size) arg;
      temp ← copy_arg (Z.to_nat len) 0 ((i - 1) * size) arg temp;
      copy_args n (i + 1) argc count size data (result + 1) temp
    else Ok (result, temp)
  end.

Fixpoint write_args (n : nat) (write_count virtAddr total : Z) (temp : list Z) : S unit :=
  match n with
  | O => slift (Err OutOfFuel)
  | Datatypes.S n =>
    c ← slift (aget temp write_count);
    mach (WriteMem (s32 (virtAddr + write_count)) 1 c) ;;
    if write_count + 1 <? total then write_args n (write_count + 1) virtAddr total temp else mret tt
  end.

(** [cur] is the id of the current thread and [fresh] what is in the memory that
    [new] returns: memset clears the first [size] bytes of it. *)
Definition do_GetArgvs (cur : Z) (ks : Process.KS) (fresh : Z → list Z) : S unit :=
  count ← mach (ReadRegister 4);
  virtAddr ← mach (ReadRegister 5);
  size ← mach (ReadRegister 6);
  slift (ASSERT (0 <? count)) ;;
  slift (ASSERT (-1 <? cur)) ;;
  p ← slift (at_once (Process.GetPcb cur) ks);
  p ← slift (deref p);
  data ← slift (at_once (GetArgv p) ks);
  process_argc ← slift (at_once (GetArgc p) ks);
  let total := s32 (size * count) in
  slift (if total <? 0 then Err AssertFailed else Ok tt) ;;
  slift (if (0 <=? size) && (size <=? total) then Ok tt else Err BadAccess) ;;
  let temp := replicate (Z.to_nat size) 0 ++ drop (Z.to_nat size) (fresh total) in
  '(result, temp) ← slift (copy_args (Z.to_nat process_argc) 1 process_argc count size data 0 temp);
  write_args (Z.to_nat total + 1) 0 virtAddr total temp ;;
  finish result.
End CALLS.
End ProcCalls.

Module ProcCallsSpec.
Import Machine MachineSpec AddrSpaceSpec CString Files FilesSpec Syscall SyscallSpec ProcCalls.
Implicit Types (sp : AddrSpace.AddrSpace) (m : Machine).

(** ** Words of the program *)

Lemma read_word sp m va w :
  Runs sp m → Z.land va 3 = 0 → is_s32 w → holds sp m va (le_encode 4 (u32 w)) → ∃ m', ReadMem va 4 m = Ret w m' ∧ quiet sp m m'.
Proof.
  intros HR Ha Hw Hh. assert (Hal : aligned 4 va) by (by right). destruct (aligned_room 4 va Hal) as [_ Hroom].
  assert (Hva : mapped sp va) by (specialize (Hh 0%nat _ eq_refl); rewrite Z.add_0_r in Hh; apply Hh).
  destruct (mapped_entry sp m va HR Hva) as (e&He&Hf&_). destruct (Translate_user sp m va 4 false e HR Hva Hal He) as (m1&ET&HR1&Er&Em). exists m1. split; [|done].
  pose proof (frame_range e Hf) as [F1 F2]. assert (Hmod : 0 ≤ va mod PageSize < PageSize) by (apply Z.mod_pos_bound; done).
  unfold ReadMem, translate, mbind, M_bind, gets, lift, mret, M_ret. rewrite ET, Em.
  change 4%nat with (length (le_encode 4 (u32 w))) at 1. rewrite (load_le_bytes (mainMemory m) (le_encode 4 (u32 w)) (physicalPage e * PageSize + va mod PageSize)); [|lia|].
  - rewrite le_decode_encode. unfold WordToHost. f_equal. change (256 ^ Z.of_nat 4) with wordsize. change (u32 w mod wordsize) with (u32 (u32 w)).
    rewrite (u32_id (u32 w)) by apply u32_range. rewrite s32_u32. by apply s32_id.
  - intros i b Hi. destruct (Hh i b Hi) as [_ Hu]. pose proof (lookup_lt_Some _ _ _ Hi) as Hlt. rewrite length_le_encode in Hlt. unfold umem, view in Hu.
    assert (E1 : (va + Z.of_nat i) / PageSize = va / PageSize) by (unfold PageSize in *; dlia). assert (E2 : (va + Z.of_nat i) mod PageSize = va mod PageSize + Z.of_nat i) by (unfold PageSize in *; dlia).
    rewrite E1, E2, He in Hu. cbn in Hu. by replace (physicalPage e * PageSize + va mod PageSize + Z.of_nat i) with (physicalPage e * PageSize + (va mod PageSize + Z.of_nat i)) by lia.
Qed.

(** A word anywhere: its value, or a trap. *)
Lemma read_word_total sp m va :
  Runs sp m → is_s32 va → (∃ w m', is_s32 w ∧ ReadMem va 4 m = Ret w m' ∧ quiet sp m m') ∨ ∃ m', ReadMem va 4 m = Trap AddressErrorException m'.
Proof.
  intros HR Hs. destruct (decide (mapped sp va)) as [Hva|Hn].
  - destruct (decide (Z.land va 3 = 0)) as [Ha|Ha].
    + left. assert (Hal : aligned 4 va) by (by right). destruct (aligned_room 4 va Hal) as [_ Hroom].
      assert (Hm : ∀ i, (i < 4)%nat → mapped sp (va + Z.of_nat i)).
      { intros i Hi. unfold mapped in *. unfold PageSize in *. dlia. }
      assert (∃ l, length l = 4%nat ∧ holds sp m va l) as (l&Hl&Hh).
      { exists (omap (λ i, umem sp m (va + Z.of_nat i)) (seq 0 4)). destruct (umem_Some sp m _ HR (Hm 0%nat ltac:(lia))) as (b0&E0&_), (umem_Some sp m _ HR (Hm 1%nat ltac:(lia))) as (b1&E1&_), (umem_Some sp m _ HR (Hm 2%nat ltac:(lia))) as (b2&E2&_), (umem_Some sp m _ HR (Hm 3%nat ltac:(lia))) as (b3&E3&_).
        cbn [seq omap list_omap]. rewrite E0, E1, E2, E3. split; [done|]. intros [|[|[|[|i]]]] b Hi; cbn in Hi; [injection Hi as <-..|done]; split; auto with lia. }
      assert (Hb : Forall is_byte l) by (by eapply holds_bytes).
      destruct (read_word sp m va (s32 (le_decode l)) HR Ha (s32_range _)) as (m'&E&Hq); [|by eexists _, m'; split; [apply s32_range|]].
      assert (E : le_encode 4 (u32 (s32 (le_decode l))) = l); [|by rewrite E]. rewrite u32_s32, <- Hl. rewrite <- (le_encode_decode l Hb) at 3. f_equal.
      apply u32_id. pose proof (le_decode_encode 4 (le_decode l)) as Hd. rewrite <- Hl, le_encode_decode in Hd by done. rewrite Hd. unfold_int. rewrite Hl. change (256 ^ Z.of_nat 4) with (2 ^ 32). apply Z.mod_pos_bound. lia.
    + right. unfold ReadMem, translate, mbind, M_bind. assert (ET : Translate va 4 false m = Ok (inl AddressErrorException, m)).
      { unfold Translate. by rewrite (proj2 (Z.eqb_neq _ _) Ha). }
      rewrite ET. destruct (Raise_traps (A := Z) AddressErrorException va m (ru_wf _ _ HR) Hs) as [m' ->]. by eexists.
  - right. unfold ReadMem, translate, mbind, M_bind. rewrite (unmapped_traps sp m va 4) by done.
    destruct (Raise_traps (A := Z) AddressErrorException va m (ru_wf _ _ HR) Hs) as [m' ->]. by eexists.
Qed.

(** ** Strings *)

Lemma holds_app sp m va l1 l2 : holds sp m va (l1 ++ l2) ↔ holds sp m va l1 ∧ holds sp m (va + Z.of_nat (length l1)) l2.
Proof.
  revert va. induction l1 as [|c l1 IH]; intros va; cbn [app length].
  - rewrite Z.add_0_r. split; [by intros ?; split|by intros [_ ?]].
  - rewrite !holds_cons, IH. replace (va + Z.of_nat (Datatypes.S (length l1))) with (va + 1 + Z.of_nat (length l1)) by lia. tauto.
Qed.

(** The memory from an address on: a string that ends, one that reaches the end of
    the address space, or [n] characters. *)
Lemma scan sp m va (n : nat) : Runs sp m →
  ∃ l, 0 ∉ l ∧ holds sp m va l ∧
    ((length l < n)%nat ∧ holds sp m va (l ++ [0]) ∨ (length l < n)%nat ∧ ¬ mapped sp (va + Z.of_nat (length l)) ∨ length l = n).
Proof.
  intros HR. induction n as [|n (l&Hz&Hh&Hc)]; [exists []; split; [apply not_elem_of_nil|]; split; [intros i b Hi; done|by right; right]|].
  destruct Hc as [[Hl He]|[[Hl Hn]|Hl]].
  - exists l. split; [done|]. split; [done|]. left. split; [lia|done].
  - exists l. split; [done|]. split; [done|]. right. left. split; [lia|done].
  - destruct (decide (mapped sp (va + Z.of_nat (length l)))) as [Hm|Hm].
    + destruct (umem_Some sp m _ HR Hm) as (b&Eb&_). assert (Hb : holds sp m va (l ++ [b])).
      { apply holds_app. split; [done|]. apply holds_cons. split; [done|]. intros i x Hi. done. }
      destruct (decide (b = 0)) as [->|Hb0].
      * exists l. split; [done|]. split; [done|]. left. split; [lia|done].
      * exists (l ++ [b]). split; [|split; [done|right; right; rewrite length_app; cbn; lia]].
        intros Hin. apply elem_of_app in Hin as [Hin|Hin]; [done|]. apply list_elem_of_singleton in Hin. congruence.
    + exists l. split; [done|]. split; [done|]. right. left. split; [lia|done].
Qed.

(** Strings end within the memory of the machine. *)
Lemma holds_bound sp m va l : Runs sp m → 0 ≤ va → holds sp m va l → va + Z.of_nat (length l) ≤ MemorySize ∨ l = [].
Proof.
  intros HR Hva Hh. destruct l as [|c l] using rev_ind; [by right|]. left. apply holds_app in Hh as [_ Hh]. apply holds_cons in Hh as [[Hm _] _].
  pose proof (ru_pages _ _ HR). unfold mapped in Hm. rewrite length_app. cbn. unfold MemorySize, NumPhysPages, PageSize in *. lia.
Qed.

Lemma holds_first sp m va c l : holds sp m va (c :: l) → 0 ≤ va.
Proof. intros Hh. apply holds_cons in Hh as [[Hm _] _]. apply Hm. Qed.

Lemma str_first sp m va l : holds sp m va (l ++ [0]) → 0 ≤ va.
Proof. destruct l as [|c l]; apply holds_first. Qed.

Lemma str_bound sp m va l : Runs sp m → holds sp m va (l ++ [0]) → va + Z.of_nat (length l) < MemorySize.
Proof.
  intros HR Hh. pose proof (str_first _ _ _ _ Hh) as Hva. destruct (holds_bound sp m va (l ++ [0]) HR Hva Hh) as [Hb|Hb]; [rewrite length_app in Hb; cbn in Hb; lia|by destruct l].
Qed.

Section CALLS.
Context {H ino : Type} `{Host H ino}.
Implicit Types (f : @State H ino).

Ltac srun := unfold mret, S_ret, mbind, S_bind, slift, mach, kern; cbn [machine files].

Lemma arg_length_ok sp va l : ∀ (n : nat) off m f,
  Runs sp m → holds sp m (va + off) (l ++ [0]) → 0 ∉ l → (length l < n)%nat → 0 ≤ off → is_s32 (off + Z.of_nat (length l) + 1) →
  ∃ m', arg_length n va off (mkKern m f) = SDone _ (off + Z.of_nat (length l) + 1) (mkKern m' f) ∧ quiet sp m m'.
Proof.
  induction l as [|c l IH]; intros n off m f HR Hh Hz Hn Ho Hs; (destruct n as [|n]; [cbn in Hn; lia|]); cbn [arg_length app] in *; srun;
    apply holds_cons in Hh as [[Hm Hu] Hh]; destruct (mapped_s32 sp m _ HR Hm) as [Hms _]; rewrite (s32_id (va + off)) by done;
    destruct (umem_Some sp m _ HR Hm) as (b&Eb&Hb); rewrite Hu in Eb; injection Eb as <-; destruct (read_user sp m _ _ HR Hm Hu) as (m1&E&Hq); rewrite E, s8_idem.
  - cbn in Hs |- *. rewrite Z.add_0_r in *. rewrite s32_id by done. by exists m1.
  - apply not_elem_of_cons in Hz as [Hc Hz]. rewrite (proj2 (Z.eqb_neq _ _)) by (apply s8_nonzero; [exact Hb|congruence]). cbn [negb].
    cbn [length] in Hs, Hn |- *. rewrite (s32_id (off + 1)) by (unfold_int; lia). destruct (IH n (off + 1) m1 f) as (m'&E'&Hq'); [apply Hq| |done|lia|lia| |].
    + rewrite Z.add_assoc. by eapply holds_quiet.
    + by replace (off + 1 + Z.of_nat (length l) + 1) with (off + Z.of_nat (Datatypes.S (length l)) + 1) by lia.
    + exists m'. rewrite E'. split; [f_equal; lia|by eapply quiet_trans].
Qed.

Lemma arg_length_bad sp va l : ∀ (n : nat) off m f,
  Runs sp m → holds sp m (va + off) l → 0 ∉ l → (length l < n)%nat → 0 ≤ off → is_s32 (off + Z.of_nat (length l) + 1) →
  is_s32 (va + off + Z.of_nat (length l)) → ¬ mapped sp (va + off + Z.of_nat (length l)) →
  arg_length n va off (mkKern m f) = SFailed _ AssertFailed.
Proof.
  induction l as [|c l IH]; intros n off m f HR Hh Hz Hn Ho Hs Hv Hbad; (destruct n as [|n]; [cbn in Hn; lia|]); cbn [arg_length length] in *; srun.
  - rewrite Z.add_0_r in *. rewrite (s32_id (va + off)) by done. by destruct (unmapped_access sp m _ 0 HR Hv Hbad) as [[m' ->] _].
  - apply holds_cons in Hh as [[Hm Hu] Hh]. apply not_elem_of_cons in Hz as [Hc Hz]. destruct (mapped_s32 sp m _ HR Hm) as [Hms _].
    destruct (umem_Some sp m _ HR Hm) as (b&Eb&Hb). rewrite Hu in Eb. injection Eb as <-.
    destruct (read_user sp m _ c HR Hm Hu) as (m1&E&Hq). rewrite (s32_id (va + off)) by done. rewrite E, s8_idem.
    rewrite (proj2 (Z.eqb_neq _ _)) by (apply s8_nonzero; [exact Hb|congruence]). cbn [negb]. rewrite (s32_id (off + 1)) by (unfold_int; lia).
    apply IH; [apply Hq|rewrite Z.add_assoc; by eapply holds_quiet|done|lia|lia|unfold_int; lia| |].
    + by replace (va + (off + 1) + Z.of_nat (length l)) with (va + off + Z.of_nat (Datatypes.S (length l))) by lia.
    + by replace (va + (off + 1) + Z.of_nat (length l)) with (va + off + Z.of_nat (Datatypes.S (length l))) by lia.
Qed.

(** An argument of ExecV: its length, its buffer and its characters. *)
Lemma arg_taken sp m f va l :
  Runs sp m → holds sp m va (l ++ [0]) → 0 ∉ l →
  ∃ offset buf m1 m2, arg_length arg_fuel va 0 (mkKern m f) = SDone _ offset (mkKern m1 f) ∧ User2System va offset (mkKern m1 f) = SDone _ buf (mkKern m2 f)
    ∧ cstr buf = Ok (map s8 l) ∧ quiet sp m m2.
Proof.
  intros HR Hh Hz. pose proof (str_first _ _ _ _ Hh) as Hva. pose proof (str_bound sp m va l HR Hh) as Hb.
  assert (Hs : is_s32 (Z.of_nat (length l) + 2)) by (unfold_int; unfold MemorySize, NumPhysPages, PageSize in *; lia).
  destruct (arg_length_ok sp va l arg_fuel 0 m f) as (m1&E1&Hq1); [done|by rewrite Z.add_0_r|done|unfold arg_fuel; lia|done|unfold_int; lia|].
  assert (Hstr : Str sp m1 va (length l + 1) l).
  { split; [|done|right; split; [lia|by eapply holds_quiet]]. eapply holds_quiet; [done|]. by apply holds_app in Hh as [? _]. }
  destruct (User2System_ok sp m1 f va (length l + 1) l) as (m2&E2&Hq2); [apply Hq1|unfold_int; lia|done|].
  eexists _, _, m1, m2. split; [exact E1|]. split; [replace (0 + Z.of_nat (length l) + 1) with (Z.of_nat (length l + 1)) by lia; exact E2|]. split; [|by eapply quiet_trans].
  eapply kbuf_cstr; [apply Hq1|done].
Qed.

(** The pointers at [va], and the strings they point to. *)
Record Args sp m (va : Z) (addrs : list Z) (ls : list (list Z)) : Prop := {
  ag_words : holds sp m va (words_encode addrs);
  ag_strings : Forall2 (λ a l, is_s32 a ∧ 0 ∉ l ∧ holds sp m a (l ++ [0])) addrs ls
}.

Lemma Args_cons sp m va a addrs l ls :
  Args sp m va (a :: addrs) (l :: ls) →
  holds sp m va (le_encode 4 (u32 a)) ∧ is_s32 a ∧ 0 ∉ l ∧ holds sp m a (l ++ [0]) ∧ Args sp m (va + 4) addrs ls.
Proof.
  intros [A1 A2]. unfold words_encode in A1. cbn [map concat] in A1. apply holds_app in A1 as [A1 A3]. rewrite length_le_encode in A3.
  apply Forall2_cons in A2 as [(?&?&?) A2]. done.
Qed.

Lemma Args_quiet sp m m' va addrs ls : quiet sp m m' → Args sp m va addrs ls → Args sp m' va addrs ls.
Proof.
  intros Hq [A1 A2]. split; [by eapply holds_quiet|]. eapply Forall2_impl; [done|]. intros a l (?&?&?). split; [done|]. split; [done|]. by eapply holds_quiet.
Qed.

Lemma land_mod4 va : va mod 4 = 0 → Z.land va 3 = 0.
Proof. intros E. change 3 with (Z.ones 2). by rewrite Z.land_ones. Qed.

Lemma read_args_ok sp va : ∀ addrs ls i acc m f,
  Runs sp m → 0 ≤ va → 0 ≤ i → va mod 4 = 0 → Args sp m (va + i * 4) addrs ls →
  ∃ m', read_args (length addrs) i va acc (mkKern m f) = SDone _ (acc ++ map (map s8) ls) (mkKern m' f) ∧ quiet sp m m'.
Proof.
  induction addrs as [|a addrs IH]; intros ls i acc m f HR Hva Hi Ha HA.
  - destruct HA as [_ A2]. apply Forall2_nil_inv_l in A2 as ->. exists m. by rewrite app_nil_r.
  - destruct ls as [|l ls]; [destruct HA as [_ A2]; by apply Forall2_cons_nil_inv in A2|]. apply Args_cons in HA as (Hw&Has&Hz&Hstr&HA).
    assert (Hm : mapped sp (va + i * 4)) by (apply holds_cons in Hw as [[? _] _]; done). destruct (mapped_s32 sp m _ HR Hm) as [Hs _].
    cbn [length read_args]. srun. rewrite (s32_id (i * 4)) by (unfold_int; lia). rewrite (s32_id (va + i * 4)) by done.
    destruct (read_word sp m (va + i * 4) a HR) as (m1&E1&Hq1); [apply land_mod4; dlia|done|done|]. rewrite E1. cbn [machine files].
    destruct (arg_taken sp m1 f a l) as (off&buf&m2&m3&E2&E3&E4&Hq3); [apply Hq1|by eapply holds_quiet|done|]. rewrite E2, E3, E4.
    destruct (IH ls (i + 1) (acc ++ [map s8 l]) m3 f) as (m'&E&Hq); [apply Hq3|done|lia|done| |].
    + replace (va + (i + 1) * 4) with (va + i * 4 + 4) by lia. eapply Args_quiet; [exact Hq3|]. by eapply Args_quiet.
    + exists m'. rewrite E, <- app_assoc. split; [done|]. eapply quiet_trans; [exact Hq1|]. by eapply quiet_trans.
Qed.

(** ** Whatever the program passes *)

Lemma name_total sp m f va (limit : nat) :
  Runs sp m → is_s32 va → is_s32 (Z.of_nat limit + 1) →
  (∃ l m', Str sp m va limit l ∧ User2System va (Z.of_nat limit) (mkKern m f) = SDone _ (kbuf l limit) (mkKern m' f) ∧ quiet sp m m')
  ∨ User2System va (Z.of_nat limit) (mkKern m f) = SFailed _ AssertFailed.
Proof.
  intros HR Hva Hl. destruct (scan sp m va limit HR) as (l&Hz&Hh&Hc).
  assert (Hcase : Str sp m va limit l ∨ (length l < limit)%nat ∧ ¬ mapped sp (va + Z.of_nat (length l))).
  { destruct Hc as [[Hlt He]|[?|He]]; [left; split; auto|by right|left; split; auto]. }
  destruct Hcase as [Hs|[Hlt Hn]].
  - left. destruct (User2System_ok sp m f va limit l HR Hl Hs) as (m'&E&Hq). by exists l, m'.
  - right. apply (User2System_bad sp m f va limit l); try done. rewrite s32_id; [done|]. destruct l as [|c l]; [by rewrite Z.add_0_r|].
    pose proof (holds_first _ _ _ _ _ Hh). destruct (holds_bound sp m va (c :: l) HR) as [Hb|]; [done|done| |done]. unfold_int. unfold MemorySize, NumPhysPages, PageSize in *. lia.
Qed.

Lemma arg_total sp m f va :
  Runs sp m → is_s32 va → (∃ l, 0 ∉ l ∧ holds sp m va (l ++ [0])) ∨ arg_length arg_fuel va 0 (mkKern m f) = SFailed _ AssertFailed.
Proof.
  intros HR Hva. destruct (scan sp m va arg_fuel HR) as (l&Hz&Hh&Hc).
  assert (Hb : l = [] ∨ 0 ≤ va ∧ va + Z.of_nat (length l) ≤ MemorySize).
  { destruct l as [|c l]; [by left|right]. pose proof (holds_first _ _ _ _ _ Hh). destruct (holds_bound sp m va (c :: l) HR) as [|]; done. }
  destruct Hc as [[_ He]|[[Hlt Hn]|He]]; [left; by exists l| |exfalso; destruct Hb as [->|]; unfold arg_fuel in He; cbn [length] in He; lia].
  right. apply (arg_length_bad sp va l); try done; rewrite ?Z.add_0_r; try done; destruct Hb as [->|Hb]; cbn [length] in *; rewrite ?Z.add_0_r in *; try done; unfold_int; unfold MemorySize, NumPhysPages, PageSize in *; lia.
Qed.

Lemma read_args_total sp va : ∀ (n : nat) i acc m f, Runs sp m →
  (∃ argv m', read_args n i va acc (mkKern m f) = SDone _ argv (mkKern m' f) ∧ length argv = (length acc + n)%nat ∧ quiet sp m m')
  ∨ read_args n i va acc (mkKern m f) = SFailed _ AssertFailed.
Proof.
  induction n as [|n IH]; intros i acc m f HR; cbn [read_args]; [left; exists acc, m; split; [done|]; split; [lia|done]|]. srun.
  destruct (read_word_total sp m (s32 (va + s32 (i * 4))) HR (s32_range _)) as [(a&m1&Ha&->&Hq1)|[m1 ->]]; [|by right]. cbn [machine files].
  destruct (arg_total sp m1 f a ltac:(apply Hq1) Ha) as [(l&Hz&Hh)| ->]; [|by right].
  destruct (arg_taken sp m1 f a l ltac:(apply Hq1) Hh Hz) as (off&buf&m2&m3&E2&E3&E4&Hq3). rewrite E2, E3, E4.
  destruct (IH (i + 1) (acc ++ [map s8 l]) m3 f ltac:(apply Hq3)) as [(argv&m'&E&El&Hq)|E]; [left|by right].
  exists argv, m'. split; [done|]. split; [rewrite length_app in El; cbn in El; lia|]. eapply quiet_trans; [exact Hq1|]. by eapply quiet_trans.
Qed.

(** ** The handler *)

(** It makes the call [c]; of the machine, only use and dirty bits have changed. *)
Definition asks sp m f (c : kcall) (res : option (@sout H ino kcall)) : Prop :=
  ∃ m', res = Some (SDone kcall c (mkKern m' f)) ∧ quiet sp m m'.

Lemma handler_case m f t c :
  registers m !! 2%nat = Some t → process_call t = Some c → ProcessHandler (mkKern m f) = Some (c (mkKern m f)).
Proof. intros Ht Hc. unfold ProcessHandler. cbn [machine]. rewrite (ReadRegister_run 2 t) by (done || lia). by rewrite Hc. Qed.

Lemma asks_name sp m f va (limit : nat) l (c : list Z → kcall) :
  Runs sp m → is_s32 (Z.of_nat limit + 1) → Str sp m va limit l →
  asks sp m f (c (kbuf l limit)) (Some ((b ← User2System va (Z.of_nat limit); mret (c b)) (mkKern m f))).
Proof. intros HR Hl Hs. destruct (User2System_ok sp m f va limit l HR Hl Hs) as (m1&E&Hq). exists m1. split; [|done]. unfold mbind, S_bind. by rewrite E. Qed.

Lemma asks_string sp m f va (limit : nat) l (c : list Z → kcall) :
  Runs sp m → is_s32 (Z.of_nat limit + 1) → Str sp m va limit l →
  asks sp m f (c (map s8 l)) (Some ((b ← User2System va (Z.of_nat limit); x ← slift (cstr b); mret (c x)) (mkKern m f))).
Proof.
  intros HR Hl Hs. destruct (User2System_ok sp m f va limit l HR Hl Hs) as (m1&E&Hq). exists m1. split; [|done]. srun. rewrite E.
  fold (kbuf l limit). by rewrite (kbuf_cstr sp m va limit l HR Hs).
Qed.

Lemma asks_args sp m f va addrs ls :
  Runs sp m → registers m !! 4%nat = Some (Z.of_nat (length addrs)) → registers m !! 5%nat = Some va → va mod 4 = 0 → Args sp m va addrs ls →
  asks sp m f (KProc (Process.CExecV (Z.of_nat (length addrs)) (map (map s8) ls))) (Some (do_ExecV (mkKern m f))).
Proof.
  intros HR H4 H5 Ha HA. unfold do_ExecV. rewrite (arg_run m f _ (Z.of_nat (length addrs))), (arg_run m f _ va) by (done || lia).
  srun. rewrite (proj2 (Z.ltb_ge _ _)) by lia. rewrite Nat2Z.id. destruct addrs as [|a addrs].
  - destruct HA as [_ A2]. apply Forall2_nil_inv_l in A2 as ->. by exists m.
  - assert (Hva : 0 ≤ va) by (destruct HA as [A1 _]; unfold words_encode in A1; cbn [map concat le_encode app] in A1; by apply holds_first in A1).
    destruct (read_args_ok sp va (a :: addrs) ls 0 [] m f) as (m'&E&Hq); [done|done|done|done|by rewrite Z.add_0_r|]. exists m'. by rewrite E.
Qed.

Lemma after_returns sp m f c r :
  (∀ code, c ≠ KProc (Process.CExit code)) → Runs sp m → is_s32 r →
  ∃ m', after c r (mkKern m f) = SDone _ tt (mkKern m' f) ∧ Returned sp m r (λ _, None) m'.
Proof.
  intros Hc HR Hr. assert (E : after (H := H) (ino := ino) c r = finish r) by (destruct c as [[]|]; try done; by destruct (Hc code)).
  rewrite E. apply finish_returns; [by apply updated_id|done].
Qed.

(** Every case ends, with a call or by an abort. *)
Definition ends sp m f (o : @sout H ino kcall) : Prop :=
  (∃ c m', o = SDone kcall c (mkKern m' f) ∧ quiet sp m m') ∨ o = SFailed kcall AssertFailed.

Lemma ends_name sp m f va (limit : nat) (c : list Z → S kcall) :
  Runs sp m → is_s32 va → is_s32 (Z.of_nat limit + 1) →
  (∀ l m1, quiet sp m m1 → Str sp m va limit l → ends sp m f (c (kbuf l limit) (mkKern m1 f))) →
  ends sp m f ((b ← User2System va (Z.of_nat limit); c b) (mkKern m f)).
Proof. intros HR Hva Hl Hc. unfold mbind, S_bind. destruct (name_total sp m f va limit HR Hva Hl) as [(l&m1&Hs&->&Hq)| ->]; [by apply Hc|by right]. Qed.

Lemma ends_args sp m f a va :
  Runs sp m → registers m !! 4%nat = Some a → registers m !! 5%nat = Some va → ends sp m f (do_ExecV (mkKern m f)).
Proof.
  intros HR H4 H5. unfold do_ExecV. rewrite (arg_run m f _ a), (arg_run m f _ va) by (done || lia). srun.
  destruct (a <? 0); [by right|]. destruct (read_args_total sp va (Z.to_nat a) 0 [] m f HR) as [(argv&m'&->&_&Hq)| ->]; [|by right]. left. by eexists _, m'.
Qed.
End CALLS.
(** ** The arguments of a process *)

Lemma strnlen_ok a : ∀ n, 0 ∉ a → strnlen n (a ++ [0]) = Ok (Z.of_nat (n `min` length a)).
Proof.
  induction a as [|c a IH]; intros [|n] Hz; cbn [strnlen app length Nat.min]; [done..|]. apply not_elem_of_cons in Hz as [Hc Hz].
  rewrite (proj2 (Z.eqb_neq c 0)) by congruence. rewrite IH by done. cbn [mbind res_bind]. f_equal. lia.
Qed.

Lemma copy_arg_ok arg at_ : ∀ (n j : nat) temp,
  (j + n ≤ length arg)%nat → (at_ + j + n ≤ length temp)%nat →
  ∃ temp', copy_arg n (Z.of_nat j) (Z.of_nat at_) arg temp = Ok temp' ∧ length temp' = length temp
    ∧ ∀ x, temp' !! x = if decide (at_ + j ≤ x < at_ + j + n)%nat then arg !! (x - at_)%nat else temp !! x.
Proof.
  induction n as [|n IH]; intros j temp Hj Ht; cbn [copy_arg]; [exists temp; split; [done|]; split; [done|]; intros x; by rewrite decide_False by lia|].
  destruct (lookup_lt_is_Some_2 arg j) as [c Hc]; [lia|]. assert (E : aget arg (Z.of_nat j) = Ok c) by (apply aget_Ok; split; [lia|by rewrite Nat2Z.id]). rewrite E.
  cbn [mbind res_bind]. rewrite aset_in by lia. cbn [mbind res_bind]. replace (Z.of_nat j + 1) with (Z.of_nat (Datatypes.S j)) by lia.
  destruct (IH (Datatypes.S j) (<[Z.to_nat (Z.of_nat at_ + Z.of_nat j) := c]> temp)) as (temp'&E'&Hl&Hx); [lia|rewrite length_insert; lia|].
  exists temp'. split; [done|]. split; [by rewrite Hl, length_insert|]. intros x. rewrite Hx. replace (Z.to_nat (Z.of_nat at_ + Z.of_nat j)) with (at_ + j)%nat by lia.
  destruct (decide (x = at_ + j)%nat) as [->|Hne].
  - rewrite decide_False by lia. rewrite decide_True by lia. rewrite list_lookup_insert_eq by lia. rewrite <- Hc. f_equal. lia.
  - rewrite list_lookup_insert_ne by done. case_decide; [by rewrite decide_True by lia|by rewrite decide_False by lia].
Qed.

(** Character [j] of place [k] of the buffer of GetArgvs: of argument [k], or what is there. *)
Definition arg_char (size : nat) (args : list (list Z)) (temp : list Z) (k j : nat) : option Z :=
  match args !! k with
  | Some d => if decide (j < length d)%nat then d !! j else temp !! (k * size + j)%nat
  | None => temp !! (k * size + j)%nat
  end.

Lemma copy_args_ok (size count : nat) d0 : ∀ rest don (n : nat) temp,
  (0 < size)%nat → Forall (λ d, 0 ∉ d) rest → length temp = (size * count)%nat → (length don ≤ count)%nat → (length rest < n)%nat →
  ∃ temp', copy_args n (Z.of_nat (length don) + 1) (Z.of_nat (length don + length rest) + 1) (Z.of_nat count) (Z.of_nat size) (d0 :: don ++ rest) (Z.of_nat (length don)) temp
      = Ok (Z.of_nat (count `min` (length don + length rest)), temp')
    ∧ length temp' = length temp ∧ (∀ x, (x < length don * size)%nat → temp' !! x = temp !! x)
    ∧ ∀ k j, (length don + k < count)%nat → (j < size)%nat →
        temp' !! ((length don + k) * size + j)%nat
        = match rest !! k with
          | Some d => if decide (j < length d)%nat then d !! j else temp !! ((length don + k) * size + j)%nat
          | None => temp !! ((length don + k) * size + j)%nat
          end.
Proof.
  induction rest as [|d rest IH]; intros don n temp Hsz Hz Hlt Hd Hn; (destruct n as [|n]; [cbn in Hn; lia|]); cbn [copy_args].
  - cbn [length]. rewrite Nat.add_0_r, (proj2 (Z.ltb_ge _ _)) by lia. cbn [andb]. exists temp. split; [do 2 f_equal; lia|]. split; [done|]. split; [done|]. intros k j _ _. by rewrite lookup_nil.
  - destruct (decide (length don = count)) as [Ec|Ec].
    { rewrite Ec, Z.eqb_refl. cbn [negb]. rewrite andb_false_r. exists temp. split; [do 2 f_equal; lia|]. split; [done|]. split; [done|]. intros k j ? _. lia. }
    rewrite (proj2 (Z.ltb_lt _ _)) by (cbn [length]; lia). rewrite (proj2 (Z.eqb_neq _ _)) by lia. cbn [negb andb].
    assert (E : aget (d0 :: don ++ d :: rest) (Z.of_nat (length don) + 1) = Ok d).
    { apply aget_Ok. split; [lia|]. replace (Z.to_nat (Z.of_nat (length don) + 1)) with (Datatypes.S (length don)) by lia. cbn. by apply list_lookup_middle. }
    rewrite E. cbn [mbind res_bind]. apply Forall_cons in Hz as [Hzd Hz]. rewrite Nat2Z.id, strnlen_ok by done. cbn [mbind res_bind].
    replace ((Z.of_nat (length don) + 1 - 1) * Z.of_nat size) with (Z.of_nat (length don * size)) by lia. rewrite Nat2Z.id.
    destruct (copy_arg_ok (d ++ [0]) (length don * size) (size `min` length d) 0 temp) as (t1&E1&Hl1&Hx1); [rewrite length_app; lia|nia|].
    change (Z.of_nat 0) with 0 in E1. rewrite E1. cbn [mbind res_bind].
    destruct (IH (don ++ [d]) n t1 Hsz Hz ltac:(lia)) as (t2&E2&Hl2&Hlow&Hx2); [rewrite length_app; cbn; lia|cbn in Hn; lia|].
    rewrite length_app in E2, Hlow, Hx2. cbn [length] in E2, Hlow, Hx2. rewrite <- app_assoc in E2. cbn [app] in E2.
    exists t2. split.
    { cbn [length]. replace (length don + 1 + length rest)%nat with (length don + Datatypes.S (length rest))%nat in E2 by lia. rewrite <- E2. f_equal; lia. }
    split; [congruence|]. split.
    { intros x Hx. rewrite Hlow by lia. rewrite Hx1. by rewrite decide_False by lia. }
    intros [|k] j Hk Hj; cbn [lookup list_lookup].
    + rewrite Nat.add_0_r. rewrite Hlow by lia. rewrite Hx1. destruct (decide (j < length d)%nat) as [Hjd|Hjd].
      * rewrite decide_True by lia. replace (length don * size + j - length don * size)%nat with j by lia. by rewrite lookup_app_l.
      * by rewrite decide_False by lia.
    + specialize (Hx2 k j ltac:(lia) Hj). replace (length don + 1 + k)%nat with (length don + Datatypes.S k)%nat in Hx2 by lia. rewrite Hx2.
      rewrite Hx1. by rewrite decide_False by nia.
Qed.

Section GETARGVS.
Context {H ino : Type} `{Host H ino}.
Implicit Types (f : @State H ino).

Ltac srun := unfold mret, S_ret, mbind, S_bind, slift, mach, kern; cbn [machine files].

Lemma write_args_ok sp va : ∀ rest c pre (n : nat) m f,
  Runs sp m → (length rest < n)%nat → (∀ j, (j < length (c :: rest))%nat → mapped sp (va + Z.of_nat (length pre) + Z.of_nat j)) →
  ∃ m', write_args n (Z.of_nat (length pre)) va (Z.of_nat (length pre + length (c :: rest))) (pre ++ c :: rest) (mkKern m f) = SDone _ tt (mkKern m' f)
    ∧ updated sp m (at_addr (va + Z.of_nat (length pre)) (map u8 (c :: rest))) m'.
Proof.
  induction rest as [|c' rest IH]; intros c pre n m f HR Hn Hm; (destruct n as [|n]; [lia|]); cbn [write_args]; srun;
    (assert (E : ∀ r, aget (pre ++ c :: r) (Z.of_nat (length pre)) = Ok c) by (intros r; apply aget_Ok; split; [lia|]; rewrite Nat2Z.id; by apply list_lookup_middle)); rewrite E;
    (assert (Hm0 : mapped sp (va + Z.of_nat (length pre))) by (specialize (Hm 0%nat); rewrite Z.add_0_r in Hm; apply Hm; cbn; lia));
    destruct (mapped_s32 sp m _ HR Hm0) as [Hs _]; rewrite s32_id by done; cbn [machine files];
    destruct (write_user sp m _ c HR Hm0) as (m1&Ew&Hup); rewrite Ew.
  - rewrite (proj2 (Z.ltb_ge _ _)) by (cbn; lia). exists m1. split; [done|]. eapply updated_trans; [by apply updated_id|exact Hup|]. intros x. cbn [map]. rewrite at_addr_cons.
    replace (at_addr _ [] x) with (@None Z) by (unfold at_addr; by case_decide). by case_decide.
  - rewrite (proj2 (Z.ltb_lt _ _)) by (cbn; lia). cbn [machine files].
    assert (El : Z.of_nat (length pre) + 1 = Z.of_nat (length (pre ++ [c]))) by (rewrite length_app; cbn; lia).
    destruct (IH c' (pre ++ [c]) n m1 f (up_runs _ _ _ _ Hup)) as (m'&Er&Hup'); [cbn in Hn; lia| |].
    + intros j Hj. rewrite <- El. specialize (Hm (Datatypes.S j)).
      replace (va + (Z.of_nat (length pre) + 1) + Z.of_nat j) with (va + Z.of_nat (length pre) + Z.of_nat (Datatypes.S j)) by lia. apply Hm. cbn in Hj |- *. lia.
    + exists m'. split.
      * rewrite <- app_assoc in Er. cbn [app] in Er. rewrite El, <- Er. f_equal. rewrite length_app. cbn [length]. lia.
      * eapply updated_trans; [exact Hup|exact Hup'|]. intros x. rewrite (map_cons u8 c (c' :: rest)), at_addr_cons, <- El. by rewrite Z.add_assoc.
Qed.
(** The process with the id [cur] has these arguments, the name of the program first. *)
Definition HasArgs (ks : Process.KS) (cur : Z) (args : list (list Z)) : Prop :=
  ∃ p o, 0 ≤ cur < Process.psize ks ∧ Process.pcb ks !! Z.to_nat cur = Some (Some p) ∧ Process.heap ks !! p = Some o
    ∧ Process.userArgs o = args ∧ Process.userArgc o = Z.of_nat (length args).

Lemma HasArgs_table ks cur args : HasArgs ks cur args →
  ∃ p, at_once (Process.GetPcb cur) ks = Ok (Some p) ∧ at_once (GetArgv p) ks = Ok args ∧ at_once (GetArgc p) ks = Ok (Z.of_nat (length args)).
Proof.
  intros (p&o&Hc&Hp&Ho&Ea&En). exists p. unfold at_once, GetArgv, GetArgc, Process.field, Process.atomic. rewrite Ho. cbn. rewrite Ea, En. split; [|done].
  unfold Process.GetPcb, Process.slot, Process.atomic, mbind, Process.proc_bind. cbn [Process.node_bind]. rewrite (proj2 (Z.eqb_neq cur (-1))), (proj2 (Z.ltb_ge _ _)) by lia. cbn [orb].
  assert (E : aget (Process.pcb ks) cur = Ok (Some p)) by (apply aget_Ok; split; [lia|done]). by rewrite E.
Qed.

Lemma SetArgvs_HasArgs p argc argv ks0 ks cur :
  Process.SetArgvs p argc argv ks0 = Ok (ks, Process.Return tt) → Process.pcb ks !! Z.to_nat cur = Some (Some p) → 0 ≤ cur < Process.psize ks → 0 ≤ argc →
  HasArgs ks cur (take (Z.to_nat argc) argv).
Proof.
  intros E Hp Hc Ha. unfold Process.SetArgvs, Process.lift, Process.update, Process.atomic, mbind, Process.proc_bind in E.
  destruct ((argc <=? Process.MAX_ARG_NUM) && (argc <=? Z.of_nat (length argv))) eqn:Eb; cbn in E; [|done]. apply andb_true_iff in Eb as [_ Eb]. apply Z.leb_le in Eb.
  destruct (Process.heap ks0 !! p) as [o|] eqn:Eo; cbn in E; [|done]. injection E as <-. eexists p, _. split; [done|]. split; [done|]. cbn. rewrite lookup_insert_eq. split; [done|]. cbn. split; [done|]. rewrite length_take. lia.
Qed.

(** The memory GetArgvs starts from: one place is cleared. *)
Definition cleared (size : nat) (fresh : list Z) : list Z := replicate size 0 ++ drop size fresh.

Lemma GetArgvs_ok sp m f cur ks args fresh (count size : nat) va :
  Runs sp m → registers m !! 4%nat = Some (Z.of_nat count) → registers m !! 5%nat = Some va → registers m !! 6%nat = Some (Z.of_nat size) →
  (0 < count)%nat → (0 < size)%nat → is_s32 (Z.of_nat (size * count)) → HasArgs ks cur args → Forall (λ d, 0 ∉ d) args →
  length (fresh (Z.of_nat (size * count))) = (size * count)%nat → (∀ j, (j < size * count)%nat → mapped sp (va + Z.of_nat j)) →
  ∃ buf m', do_GetArgvs cur ks fresh (mkKern m f) = SDone _ tt (mkKern m' f)
    ∧ Returned sp m (Z.of_nat (count `min` length (tail args))) (at_addr va (map u8 buf)) m' ∧ length buf = (size * count)%nat
    ∧ ∀ k j, (k < count)%nat → (j < size)%nat → buf !! (k * size + j)%nat = arg_char size (tail args) (cleared size (fresh (Z.of_nat (size * count)))) k j.
Proof.
  intros HR H4 H5 H6 Hc Hs Hsc HA Hz Hf Hm. destruct (HasArgs_table ks cur args HA) as (p&E1&E2&E3). destruct HA as (_&_&[Hcur _]&_).
  set (temp := cleared size (fresh (Z.of_nat (size * count)))). assert (Hlt : length temp = (size * count)%nat) by (unfold temp, cleared; rewrite length_app, length_replicate, length_drop; nia).
  assert (∃ buf, copy_args (length args) 1 (Z.of_nat (length args)) (Z.of_nat count) (Z.of_nat size) args 0 temp = Ok (Z.of_nat (count `min` length (tail args)), buf)
    ∧ length buf = (size * count)%nat ∧ ∀ k j, (k < count)%nat → (j < size)%nat → buf !! (k * size + j)%nat = arg_char size (tail args) temp k j) as (buf&E4&Hlb&Hb).
  { destruct args as [|d0 args]; [exists temp; split; [cbn [copy_args length tail]; do 2 f_equal; lia|by split]|]. apply Forall_cons in Hz as [_ Hz].
    destruct (copy_args_ok size count d0 args [] (Datatypes.S (length args)) temp Hs Hz Hlt) as (buf&E&Hl&_&Hx); [cbn; lia|lia|]. exists buf.
    cbn [length app Nat.add] in E, Hx. split; [cbn [length tail]; rewrite <- E; f_equal; lia|]. split; [congruence|]. intros k j Hk Hj. by apply Hx. }
  exists buf. destruct buf as [|c rest] eqn:Eb; [cbn in Hlb; nia|]. rewrite <- Eb in *.
  destruct (write_args_ok sp va rest c [] (size * count + 1) m f HR) as (m1&E5&Hup); [rewrite Eb in Hlb; cbn in Hlb; lia|rewrite <- Eb, Hlb; intros j Hj; rewrite Z.add_0_r; by apply Hm|].
  cbn [length app Nat.add] in E5, Hup. change (Datatypes.S (length rest)) with (length (c :: rest)) in E5. rewrite <- Eb in E5, Hup. change (Z.of_nat 0) with 0 in *. rewrite Z.add_0_r in Hup. rewrite Hlb in E5.
  destruct (finish_returns sp m _ m1 (Z.of_nat (count `min` length (tail args))) f Hup) as (m'&E6&HRet); [unfold_int; nia|]. exists m'. split; [|by split].
  unfold do_GetArgvs. rewrite (arg_run m f _ (Z.of_nat count)), (arg_run m f _ va), (arg_run m f _ (Z.of_nat size)) by (done || lia). srun.
  rewrite (proj2 (Z.ltb_lt 0 _)), (proj2 (Z.ltb_lt (-1) _)) by lia. cbn [ASSERT]. rewrite E1. cbn [deref]. rewrite E2, E3.
  rewrite <- Nat2Z.inj_mul, (s32_id (Z.of_nat (size * count))) by done. rewrite (proj2 (Z.ltb_ge _ 0)), (proj2 (Z.leb_le 0 _)), (proj2 (Z.leb_le _ (Z.of_nat (size * count)))) by nia. cbn [andb].
  rewrite !Nat2Z.id. fold (cleared size (fresh (Z.of_nat (size * count)))). fold temp. rewrite E4. rewrite E5. exact E6.
Qed.
Lemma Returned_at sp m r va buf m' x b :
  Returned sp m r (at_addr va (map u8 buf)) m' → buf !! x = Some b → mapped sp (va + Z.of_nat x) → umem sp m' (va + Z.of_nat x) = Some (u8 b).
Proof.
  intros HRet Hb Hm. rewrite (rt_umem _ _ _ _ _ HRet) by done. unfold at_addr. rewrite decide_True by lia.
  replace (Z.to_nat (va + Z.of_nat x - va)) with x by lia. by rewrite list_lookup_fmap, Hb.
Qed.

(** Place [k] of the buffer holds the bytes of argument [k], and a NUL where there is one. *)
Lemma argument_held sp m r va buf m' (size count k : nat) args temp l :
  Returned sp m r (at_addr va (map u8 buf)) m' → (∀ j, (j < size * count)%nat → mapped sp (va + Z.of_nat j)) →
  (∀ k j, (k < count)%nat → (j < size)%nat → buf !! (k * size + j)%nat = arg_char size args temp k j) →
  (k < count)%nat → args !! k = Some (map s8 l) → Forall is_byte l →
  holds sp m' (va + Z.of_nat (k * size)) (take size l)
  ∧ ((length l < size)%nat → temp !! (k * size + length l)%nat = Some 0 → holds sp m' (va + Z.of_nat (k * size)) (l ++ [0])).
Proof.
  intros HRet Hm Hb Hk Hl Hby. assert (Hat : ∀ j b, (j < size)%nat → buf !! (k * size + j)%nat = Some (s8 b) → is_byte b → mapped sp (va + Z.of_nat (k * size) + Z.of_nat j) ∧ umem sp m' (va + Z.of_nat (k * size) + Z.of_nat j) = Some b).
  { intros j b Hj Hx Hbb. replace (va + Z.of_nat (k * size) + Z.of_nat j) with (va + Z.of_nat (k * size + j)) by lia. assert (mapped sp (va + Z.of_nat (k * size + j))) by (apply Hm; nia). split; [done|].
    rewrite (Returned_at sp m r va buf m' (k * size + j) (s8 b)) by done. by rewrite u8_s8, u8_id. }
  assert (Hin : ∀ j b, (j < size)%nat → l !! j = Some b → mapped sp (va + Z.of_nat (k * size) + Z.of_nat j) ∧ umem sp m' (va + Z.of_nat (k * size) + Z.of_nat j) = Some b).
  { intros j b Hj Hx. apply Hat; [done| |exact (proj1 (Forall_lookup _ _) Hby _ _ Hx)]. rewrite Hb by done. unfold arg_char. rewrite Hl. rewrite decide_True by (rewrite length_map; by eapply lookup_lt_Some). by rewrite list_lookup_fmap, Hx. }
  split; [intros j b Hx; apply lookup_take_Some in Hx as [Hx Hj]; by apply Hin|]. intros Hlt Hnul j b Hx. apply lookup_snoc_Some in Hx as [[Hj Hx]|[-> <-]]; [apply Hin; [lia|done]|].
  apply Hat; [done| |unfold is_byte; lia]. rewrite Hb by done. unfold arg_char. rewrite Hl. by rewrite decide_False by (rewrite length_map; lia).
Qed.
End GETARGVS.
End ProcCallsSpec.

Import Machine MachineSpec AddrSpaceSpec CString Files FilesSpec Syscall SyscallSpec ProcCalls ProcCallsSpec.

(** The system calls on processes and named semaphores make the call of
    the process table or of the semaphore table with the registers 4 and 5 and
    the strings of the program's memory: the characters up to a NUL or up to the
    limit, 32 for Exec and 64 for semaphores; ExecV takes as many pointers as
    register 4 says from the memory at register 5 and each argument up to its
    NUL.  Nothing of the program changes before the call.  When it has returned,
    also after a sleep, the program finds its result in register 2 and goes on
    behind the instruction, with its other registers and its memory as they
    are. *)
Theorem process_calls_carry_arguments {H ino : Type} `{Host H ino} (sp : AddrSpace.AddrSpace) (m : Machine) (f : @State H ino)
    (a b : Z) (l addrs : list Z) (ls : list (list Z))
    (HR : Runs sp m) (H4 : registers m !! 4%nat = Some a) (H5 : registers m !! 5%nat = Some b) :
  let nr t := registers m !! 2%nat = Some t in
  let res := ProcessHandler (mkKern m f) in
  (nr SC_Exec → Str sp m a 32 l → asks sp m f (KProc (Process.CExec (map s8 l))) res)
  ∧ (nr SC_Exit → asks sp m f (KProc (Process.CExit a)) res)
  ∧ (nr SC_Join → asks sp m f (KProc (Process.CJoin a)) res)
  ∧ (nr SC_CreateSem → Str sp m a 64 l → asks sp m f (KSem (SemTable.CCreate (kbuf l 64) b)) res)
  ∧ (nr SC_WaitSem → Str sp m a 64 l → asks sp m f (KSem (SemTable.CWait (kbuf l 64))) res)
  ∧ (nr SC_SignalSem → Str sp m a 64 l → asks sp m f (KSem (SemTable.CSignal (kbuf l 64))) res)
  ∧ (nr SC_ExecV → a = Z.of_nat (length addrs) → b mod 4 = 0 → Args sp m b addrs ls →
       asks sp m f (KProc (Process.CExecV a (map (map s8) ls))) res)
  ∧ ∀ c r m1 (f1 : @State H ino), (∀ code, c ≠ KProc (Process.CExit code)) → Runs sp m1 → is_s32 r →
      ∃ m2, after c r (mkKern m1 f1) = SDone unit tt (mkKern m2 f1) ∧ Returned sp m1 r (λ _, None) m2.
Proof.
  intros nr res. assert (H33 : is_s32 (Z.of_nat 32 + 1)) by (unfold_int; lia). assert (H65 : is_s32 (Z.of_nat 64 + 1)) by (unfold_int; lia).
  split_and!; [intros Ht..|intros c r m1 f1 Hc HR1 Hr; by apply after_returns]; unfold res.
  - intros Hs. rewrite (handler_case m f SC_Exec do_Exec Ht eq_refl). unfold do_Exec. rewrite (arg_run m f _ a) by (done || lia).
    exact (asks_string sp m f a 32 l (λ x, KProc (Process.CExec x)) HR H33 Hs).
  - rewrite (handler_case m f SC_Exit do_Exit Ht eq_refl). unfold do_Exit. rewrite (arg_run m f _ a) by (done || lia). by exists m.
  - rewrite (handler_case m f SC_Join do_Join Ht eq_refl). unfold do_Join. rewrite (arg_run m f _ a) by (done || lia). by exists m.
  - intros Hs. rewrite (handler_case m f SC_CreateSem do_CreateSem Ht eq_refl). unfold do_CreateSem. rewrite (arg_run m f _ a), (arg_run m f _ b) by (done || lia).
    exact (asks_name sp m f a 64 l (λ x, KSem (SemTable.CCreate x b)) HR H65 Hs).
  - intros Hs. rewrite (handler_case m f SC_WaitSem do_WaitSem Ht eq_refl). unfold do_WaitSem. rewrite (arg_run m f _ a) by (done || lia).
    exact (asks_name sp m f a 64 l (λ x, KSem (SemTable.CWait x)) HR H65 Hs).
  - intros Hs. rewrite (handler_case m f SC_SignalSem do_SignalSem Ht eq_refl). unfold do_SignalSem. rewrite (arg_run m f _ a) by (done || lia).
    exact (asks_name sp m f a 64 l (λ x, KSem (SemTable.CSignal x)) HR H65 Hs).
  - intros -> Hb HA. rewrite (handler_case m f SC_ExecV do_ExecV Ht eq_refl). by eapply asks_args.
Qed.

(** C31 (termination): whatever a program leaves in its registers and its memory, the
    handler of a call on processes or semaphores comes to its call or aborts the
    simulation because of a bad pointer or count: the loop of ExecV over the
    characters of an argument, which has no limit, ends at a NUL or at the end
    of the address space, and no access leaves a buffer of the kernel. *)
Theorem process_calls_end {H ino : Type} `{Host H ino} (sp : AddrSpace.AddrSpace) (m : Machine) (f : @State H ino) (t : Z)
    (HR : Runs sp m) (Ht : registers m !! 2%nat = Some t)
    (Hcall : t ∈ [SC_Exec; SC_Exit; SC_Join; SC_CreateSem; SC_WaitSem; SC_SignalSem; SC_ExecV]) :
  ∃ o, ProcessHandler (mkKern m f) = Some o ∧ ends sp m f o.
Proof.
  assert (H33 : is_s32 (Z.of_nat 32 + 1)) by (unfold_int; lia). assert (H65 : is_s32 (Z.of_nat 64 + 1)) by (unfold_int; lia).
  pose proof (wf_nregs _ (ru_wf _ _ HR)) as Hn. destruct (lookup_lt_is_Some_2 (registers m) 4) as [a H4]; [lia|]. destruct (lookup_lt_is_Some_2 (registers m) 5) as [b H5]; [lia|].
  pose proof (proj1 (Forall_lookup _ _) (wf_s32 _ (ru_wf _ _ HR)) _ _ H4) as Ha.
  repeat (apply elem_of_cons in Hcall as [->|Hcall]); [..|by apply elem_of_nil in Hcall].
  - exists (do_Exec (mkKern m f)). split; [by apply (handler_case m f SC_Exec)|]. unfold do_Exec. rewrite (arg_run m f _ a) by (done || lia).
    apply (ends_name sp m f a 32); try done. intros l m1 Hq Hs. unfold mbind, S_bind, slift. rewrite (kbuf_cstr sp m a 32 l HR Hs). left. by eexists _, m1.
  - exists (do_Exit (mkKern m f)). split; [by apply (handler_case m f SC_Exit)|]. unfold do_Exit. rewrite (arg_run m f _ a) by (done || lia). left. by eexists _, m.
  - exists (do_Join (mkKern m f)). split; [by apply (handler_case m f SC_Join)|]. unfold do_Join. rewrite (arg_run m f _ a) by (done || lia). left. by eexists _, m.
  - exists (do_CreateSem (mkKern m f)). split; [by apply (handler_case m f SC_CreateSem)|]. unfold do_CreateSem. rewrite (arg_run m f _ a), (arg_run m f _ b) by (done || lia).
    apply (ends_name sp m f a 64); try done. intros l m1 Hq Hs. left. by eexists _, m1.
  - exists (do_WaitSem (mkKern m f)). split; [by apply (handler_case m f SC_WaitSem)|]. unfold do_WaitSem. rewrite (arg_run m f _ a) by (done || lia).
    apply (ends_name sp m f a 64); try done. intros l m1 Hq Hs. left. by eexists _, m1.
  - exists (do_SignalSem (mkKern m f)). split; [by apply (handler_case m f SC_SignalSem)|]. unfold do_SignalSem. rewrite (arg_run m f _ a) by (done || lia).
    apply (ends_name sp m f a 64); try done. intros l m1 Hq Hs. left. by eexists _, m1.
  - exists (do_ExecV (mkKern m f)). split; [by apply (handler_case m f SC_ExecV)|]. by eapply ends_args.
Qed.

(** C32 (roundtrip): the arguments of ExecV reach the program it starts.  The parent calls
    ExecV with pointers to strings; the process table stores what the handler
    passes to it in the PCB of the child; the child calls GetArgvs for [count]
    places of [size] bytes.  The call returns the number of arguments behind the
    name of the program, at most [count], and each place holds the bytes of its
    argument, as many as fit.  A shorter argument ends in a NUL in the first
    place, and in the others only where the memory that the kernel allocates is
    zero: the handler clears one place and not all of them. *)
Theorem arguments_reach_program {H ino : Type} `{Host H ino} (sp : AddrSpace.AddrSpace) (m : Machine) (f : @State H ino)
    (va : Z) (addrs : list Z) (ls : list (list Z))
    (HR : Runs sp m) (H2 : registers m !! 2%nat = Some SC_ExecV) (H4 : registers m !! 4%nat = Some (Z.of_nat (length addrs)))
    (H5 : registers m !! 5%nat = Some va) (Ha : va mod 4 = 0) (HA : Args sp m va addrs ls) :
  ∃ argc argv, asks sp m f (KProc (Process.CExecV argc argv)) (ProcessHandler (mkKern m f))
  ∧ ∀ p ks0 ks cur, Process.SetArgvs p argc argv ks0 = Ok (ks, Process.Return tt) →
    Process.pcb ks !! Z.to_nat cur = Some (Some p) → 0 ≤ cur < Process.psize ks →
    ∀ sp1 m1 (f1 : @State H ino) fresh (count size : nat) va1, Runs sp1 m1 →
    registers m1 !! 4%nat = Some (Z.of_nat count) → registers m1 !! 5%nat = Some va1 → registers m1 !! 6%nat = Some (Z.of_nat size) →
    (0 < count)%nat → (0 < size)%nat → is_s32 (Z.of_nat (size * count)) → (∀ n, length (fresh n) = Z.to_nat n) →
    (∀ j, (j < size * count)%nat → mapped sp1 (va1 + Z.of_nat j)) →
    ∃ m2, do_GetArgvs cur ks fresh (mkKern m1 f1) = SDone unit tt (mkKern m2 f1)
    ∧ registers m2 !! 2%nat = Some (Z.of_nat (count `min` (length ls - 1)))
    ∧ ∀ k l, (k < count)%nat → ls !! Datatypes.S k = Some l →
        holds sp1 m2 (va1 + Z.of_nat (k * size)) (take size l)
        ∧ ((length l < size)%nat → k = 0%nat ∨ fresh (Z.of_nat (size * count)) !! (k * size + length l)%nat = Some 0 →
             holds sp1 m2 (va1 + Z.of_nat (k * size)) (l ++ [0])).
Proof.
  exists (Z.of_nat (length addrs)), (map (map s8) ls). split; [rewrite (handler_case m f SC_ExecV do_ExecV H2 eq_refl); by eapply asks_args|].
  intros p ks0 ks cur Hset Hpcb Hcur sp1 m1 f1 fresh count size va1 HR1 R4 R5 R6 Hc Hs Hsc Hfr Hm.
  pose proof (Forall2_length _ _ _ (ag_strings _ _ _ _ _ HA)) as Hlen. pose proof (SetArgvs_HasArgs p _ _ ks0 ks cur Hset Hpcb Hcur ltac:(lia)) as HH.
  rewrite Nat2Z.id, take_ge in HH by (rewrite length_map; lia).
  assert (Hstr : Forall (λ l, 0 ∉ l ∧ Forall is_byte l) ls).
  { apply Forall_lookup. intros i l Hi. destruct (Forall2_lookup_r _ _ _ _ _ (ag_strings _ _ _ _ _ HA) Hi) as (a&_&_&Hz&Hh). split; [done|]. apply holds_app in Hh as [Hh _]. exact (holds_bytes sp m a l HR Hh). }
  destruct (GetArgvs_ok sp1 m1 f1 cur ks (map (map s8) ls) fresh count size va1) as (buf&m2&E&HRet&Hlb&Hb); try done.
  { apply Forall_map. eapply Forall_impl; [exact Hstr|]. intros l [Hz Hby]. by apply map_s8_nul. }
  { rewrite Hfr. lia. }
  assert (Etl : tail (map (map s8) ls) = map (map s8) (tail ls)) by (by destruct ls). rewrite Etl in HRet, Hb.
  exists m2. split; [done|]. split.
  { rewrite (Returned_result _ _ _ _ _ HR1 HRet), length_map. assert (El : length (tail ls) = (length ls - 1)%nat) by (destruct ls; cbn; lia). by rewrite El. }
  intros k l Hk Hl. assert (Htl : tail ls !! k = Some l) by (by destruct ls).
  destruct (argument_held sp1 m1 _ va1 buf m2 size count k (map (map s8) (tail ls)) (cleared size (fresh (Z.of_nat (size * count)))) l HRet Hm Hb Hk) as [H1 H3].
  { by rewrite list_lookup_fmap, Htl. }
  { exact (proj2 (proj1 (Forall_lookup _ _) Hstr _ _ Hl)). }
  split; [done|]. intros Hlt Hz. apply H3; [done|]. unfold cleared. destruct Hz as [->|Hz].
  - rewrite lookup_app_l by (rewrite length_replicate; lia). by apply lookup_replicate.
  - destruct k as [|k]; [rewrite lookup_app_l by (rewrite length_replicate; lia); by apply lookup_replicate|].
    rewrite lookup_app_r by (rewrite length_replicate; lia). rewrite length_replicate, lookup_drop. by replace (size + (Datatypes.S k * size + length l - size))%nat with (Datatypes.S k * size + length l)%nat by lia.
Qed.

(** ** A program that starts "hi" with two arguments *)

Lemma set_mainMemory_Runs (sp : AddrSpace.AddrSpace) (m : Machine) (mem : list Z) :
  Runs sp m → length mem = length (mainMemory m) → Forall is_byte mem → Runs sp (set_mainMemory mem m).
Proof.
  intros [R1 R2 [W1 W2 W3 W4 W5 W6] R4 R5] Hl Hb. split; [exact R1|exact R2|split; [exact W1|exact W2|exact W3| |exact Hb|exact W6]|exact R4|exact R5]. cbn. by rewrite Hl.
Qed.

(** Three pointers to "hi" at address 8. *)
Definition args_machine (nr a b c : Z) : Machine :=
  set_mainMemory (<[392%nat := 4]> (<[396%nat := 4]> (<[400%nat := 4]> user_memory))) (user_machine nr a b c).

Lemma args_machine_Runs (nr a b c : Z) : is_s32 nr → is_s32 a → is_s32 b → is_s32 c → Runs user_space (args_machine nr a b c).
Proof.
  intros Hnr Ha Hb Hc. pose proof (user_machine_Runs nr a b c Hnr Ha Hb Hc) as HR. pose proof (wf_mem _ (ru_wf _ _ HR)) as Hby. cbn [user_machine mainMemory] in Hby.
  apply set_mainMemory_Runs; [exact HR|by rewrite !length_insert|]. apply Forall_insert; [apply Forall_insert; [apply Forall_insert; [exact Hby|]|]|]; unfold is_byte; lia.
Qed.

Lemma args_args (nr a b c : Z) : Args user_space (args_machine nr a b c) 8 [4; 4; 4] [[104; 105]; [104; 105]; [104; 105]].
Proof.
  assert (Hin : ∀ va l, (∀ i, (i < length l)%nat → mapped user_space (va + Z.of_nat i)) →
    forallb (λ i, bool_decide (umem user_space (args_machine nr a b c) (va + Z.of_nat i) = l !! i)) (seq 0 (length l)) = true → holds user_space (args_machine nr a b c) va l).
  { intros va l Hm Hl i x Hi. pose proof (lookup_lt_Some _ _ _ Hi) as Hlt. split; [by apply Hm|]. rewrite forallb_forall in Hl. rewrite <- Hi. apply (bool_decide_eq_true_1 _ (Hl i (proj2 (in_seq _ _ _) (conj (Nat.le_0_l i) Hlt)))). }
  assert (Hs : is_s32 4 ∧ 0 ∉ [104; 105] ∧ holds user_space (args_machine nr a b c) 4 ([104; 105] ++ [0])).
  { split; [unfold_int; lia|]. split; [by apply (bool_decide_eq_false_1 (0 ∈ [104; 105]))|]. apply Hin; [|vm_compute; reflexivity]. intros i Hi. cbn in Hi. unfold mapped. cbn. unfold PageSize. lia. }
  split; [|do 3 (apply Forall2_cons; split; [exact Hs|]); by apply Forall2_nil]. apply Hin; [|vm_compute; reflexivity]. intros i Hi. cbn in Hi. unfold mapped. cbn. unfold PageSize. lia.
Qed.

Lemma process_calls_carry_arguments_witness :
  asks user_space (args_machine SC_ExecV 3 8 0) mini_state (KProc (Process.CExecV 3 [[104; 105]; [104; 105]; [104; 105]])) (ProcessHandler (mkKern (args_machine SC_ExecV 3 8 0) mini_state)).
Proof.
  assert (HR : Runs user_space (args_machine SC_ExecV 3 8 0)) by (apply args_machine_Runs; vm_compute; split; discriminate || reflexivity).
  destruct (process_calls_carry_arguments user_space (args_machine SC_ExecV 3 8 0) mini_state 3 8 [] [4; 4; 4] [[104; 105]; [104; 105]; [104; 105]] HR eq_refl eq_refl) as (_&_&_&_&_&_&HV&_).
  exact (HV eq_refl eq_refl eq_refl (args_args _ _ _ _)).
Defined.

(** An argument that does not end in the address space. *)
Lemma process_calls_end_witness : ∃ o, ProcessHandler (mkKern (args_machine SC_ExecV 3 256 0) mini_state) = Some o ∧ ends user_space (args_machine SC_ExecV 3 256 0) mini_state o.
Proof.
  assert (HR : Runs user_space (args_machine SC_ExecV 3 256 0)) by (apply args_machine_Runs; vm_compute; split; discriminate || reflexivity).
  apply (process_calls_end user_space (args_machine SC_ExecV 3 256 0) mini_state SC_ExecV HR eq_refl). by apply (bool_decide_eq_true_1 (SC_ExecV ∈ _)).
Defined.

(** The process 0, which has been given the three strings. *)
Definition args_ks (args : list (list Z)) (argc : Z) : Process.KS :=
  Process.mkKS {[0%nat := Process.mkPCB (-1) 0 0 0 1 1 0 0 None args argc]} 1 10 (Bitmap.mkBitmap 10 1 [1]) (Some 0%nat :: replicate 9 None) 1 1 empty_memory.

Definition sevens (n : Z) : list Z := replicate (Z.to_nat n) 7.

Lemma arguments_reach_program_witness :
  ∃ m2, do_GetArgvs 0 (args_ks [[104; 105]; [104; 105]; [104; 105]] 3) sevens (mkKern (user_machine SC_GetArgvs 2 64 4) mini_state) = SDone unit tt (mkKern m2 mini_state)
    ∧ registers m2 !! 2%nat = Some 2 ∧ holds user_space m2 64 [104; 105; 0] ∧ holds user_space m2 68 [104; 105].
Proof.
  assert (HR : Runs user_space (args_machine SC_ExecV 3 8 0)) by (apply args_machine_Runs; vm_compute; split; discriminate || reflexivity).
  assert (HR1 : Runs user_space (user_machine SC_GetArgvs 2 64 4)) by (apply user_machine_Runs; vm_compute; split; discriminate || reflexivity).
  destruct (arguments_reach_program user_space (args_machine SC_ExecV 3 8 0) mini_state 8 [4; 4; 4] [[104; 105]; [104; 105]; [104; 105]] HR eq_refl eq_refl eq_refl eq_refl (args_args _ _ _ _)) as (argc&argv&Hasks&Hget).
  destruct (asks_args user_space (args_machine SC_ExecV 3 8 0) mini_state 8 [4; 4; 4] [[104; 105]; [104; 105]; [104; 105]] HR eq_refl eq_refl eq_refl (args_args _ _ _ _)) as (x&Ex&_), Hasks as (y&Ey&_).
  rewrite (handler_case (args_machine SC_ExecV 3 8 0) mini_state SC_ExecV do_ExecV eq_refl eq_refl), Ex in Ey. injection Ey as <- <- _.
  destruct (Hget 0%nat (args_ks [] 0) (args_ks [[104; 105]; [104; 105]; [104; 105]] 3) 0) with (sp1 := user_space) (m1 := user_machine SC_GetArgvs 2 64 4) (f1 := mini_state) (fresh := sevens) (count := 2%nat) (size := 4%nat) (va1 := 64) as (m2&E&E2&Hk).
  - vm_compute. reflexivity.
  - reflexivity.
  - cbn. lia.
  - exact HR1.
  - reflexivity.
  - reflexivity.
  - reflexivity.
  - lia.
  - lia.
  - unfold_int. lia.
  - intros n. apply length_replicate.
  - intros j Hj. unfold mapped. cbn. unfold PageSize. lia.
  - exists m2. split; [exact E|]. split; [exact E2|]. split; [apply (Hk 0%nat [104; 105]); [lia|reflexivity|cbn; lia|by left]|]. apply (Hk 1%nat [104; 105]); [lia|reflexivity].
Defined.

(** The second argument of that process has no end: behind it is what was in the
    memory of the kernel. *)
Example second_argument_unterminated :
  match do_GetArgvs 0 (args_ks [[104; 105]; [104; 105]; [104; 105]] 3) sevens (mkKern (user_machine SC_GetArgvs 2 64 4) mini_state) with
  | SDone _ _ k => map (umem user_space (machine k)) [64; 65; 66; 67; 68; 69; 70; 71]
  | _ => []
  end = map Some [104; 105; 0; 0; 104; 105; 7; 7].
Proof. vm_compute. reflexivity. Qed.
