(* ===== verification/Multiprog.v ===== *)
(** threads/scheduler.cc (Run), threads/thread.cc (SaveUserState and
    RestoreUserState) and userprog/addrspace.cc (SaveState, RestoreState): user
    programs that share the machine.

    The registers of a user program are in the machine while its thread runs and
    in its thread otherwise; the machine has a pointer to the page table of one
    address space, whose use and dirty bits it sets.  The theorem is that every
    program runs as if it had a machine of its own.

    The kernel enters through the functions of Scheduler::Run before and behind
    SWITCH, through Execute, and through changes of the machine it makes for the
    current program (system calls).  Kernel stacks are in Switch.v. *)

From S2P Require Import Prelude Machine Mips AddrSpace Files Syscall.
#[local] Open Scope list_scope.

Module Alike.
Import Machine MachineSpec Mips AddrSpaceSpec SyscallSpec.
Implicit Types (sp : AddrSpace.AddrSpace) (m : Machine).

(** ** Programs do not see where their pages are *)

(** The machine has the memory and the page table of a program in [sp]. *)
Record Shape sp m : Prop := {
  sh_space : SpaceOk sp;
  sh_pages : AddrSpace.numPages sp ≤ NumPhysPages;
  sh_tlb : tlb m = None;
  sh_table : ∃ pt, pageTable m = Some pt ∧ Forall2 same_entry (AddrSpace.pageTable sp) pt;
  sh_size : pageTableSize m = AddrSpace.numPages sp;
  sh_nregs : length (registers m) = 40%nat;
  sh_len : Z.of_nat (length (mainMemory m)) = MemorySize;
  sh_bytes : bytes (mainMemory m)
}.

Create HintDb respects.

(** Two machines look the same to their programs. *)
Record Same sp m sp' m' : Prop := {
  sm_l : Shape sp m;
  sm_r : Shape sp' m';
  sm_pages : AddrSpace.numPages sp = AddrSpace.numPages sp';
  sm_regs : registers m = registers m';
  sm_umem va : mapped sp va → umem sp m va = umem sp' m' va
}.

(** A translation fails in the same way for all, or finds the frame. *)
Lemma Shape_translate sp m va size (w : bool) :
  Shape sp m → access_size size → misaligned va size = false → u32 va / PageSize < AddrSpace.numPages sp →
  ∃ e m1, AddrSpace.pageTable sp !! Z.to_nat (u32 va / PageSize) = Some e ∧ 0 ≤ physicalPage e < NumPhysPages
    ∧ Translate va size w m = Ok (inr (physicalPage e * PageSize + u32 va mod PageSize), m1)
    ∧ Shape sp m1 ∧ registers m1 = registers m ∧ mainMemory m1 = mainMemory m.
Proof.
  intros [HS Hp Ht (pt&Hpt&HF) Hsz Hnr Hl Hb] Has Hal Hlt. pose proof (so_pages _ HS) as Hnp. pose proof (Forall2_length _ _ _ HF) as Hlen.
  assert (Hdiv : 0 ≤ u32 va / PageSize) by (apply Z.div_pos; [apply u32_range|done]).
  destruct (lookup_lt_is_Some_2 (AddrSpace.pageTable sp) (Z.to_nat (u32 va / PageSize))) as [e He]; [lia|].
  destruct (so_entry _ HS _ _ He) as (_&Hv&Hro&Hf). destruct (Forall2_lookup_l _ _ _ _ _ HF He) as (e'&He'&(Ev'&Ep&Ev&Ero)).
  pose proof (frame_range e Hf) as [F1 F2]. destruct (aligned_offset va size Has Hal) as [O1 O2]. assert (Hs1 : 1 ≤ size) by (destruct Has as [->|[->| ->]]; lia).
  eexists e, _. split; [done|]. split; [done|]. split.
  { unfold Translate. fold (misaligned va size). rewrite Hal, Ht, Hpt, Hsz. cbn [bool_decide decide decide_rel option_eq_None_dec orb negb ASSERT mbind res_bind deref].
    rewrite (proj2 (Z.leb_gt (AddrSpace.numPages sp) _)) by lia. assert (Eg : aget pt (u32 va / PageSize) = Ok e') by (by apply aget_Ok). rewrite Eg. cbn [mbind res_bind].
    rewrite <- Ev, Hv. cbn [negb]. unfold entry_check. rewrite <- Ero, Hro. cbn [andb]. rewrite <- Ep, (u32_id (physicalPage e)) by (unfold_int; unfold NumPhysPages in *; lia).
    rewrite (proj2 (Z.leb_gt NumPhysPages _)) by lia. rewrite s32_id by (unfold_int; unfold MemorySize, NumPhysPages, PageSize in *; lia).
    rewrite (proj2 (Z.leb_le 0 _)), (proj2 (Z.leb_le _ MemorySize)) by lia. cbn [andb ASSERT mbind res_bind]. rewrite aset_in by lia. reflexivity. }
  split; [|done]. split; try done. eexists. split; [reflexivity|]. apply Forall2_lookup. intros i. destruct (decide (i = Z.to_nat (u32 va / PageSize))) as [->|Hne].
  - rewrite He, list_lookup_insert_eq by lia. constructor. by repeat split.
  - rewrite list_lookup_insert_ne by done. by apply Forall2_lookup.
Qed.

Lemma Shape_misaligned sp m va size (w : bool) :
  Shape sp m → misaligned va size = true ∨ AddrSpace.numPages sp ≤ u32 va / PageSize → Translate va size w m = Ok (inl AddressErrorException, m).
Proof.
  intros [HS Hp Ht (pt&Hpt&HF) Hsz Hnr Hl Hb] Hc. unfold Translate. fold (misaligned va size). destruct (misaligned va size) eqn:Em; [done|]. destruct Hc as [?|Hc]; [done|].
  rewrite Ht, Hpt, Hsz. cbn [bool_decide decide decide_rel option_eq_None_dec orb negb ASSERT mbind res_bind deref]. by rewrite (proj2 (Z.leb_le _ _)).
Qed.

(** The bytes of an access are behind each other in one frame. *)
Lemma place_run va size (i : Z) :
  access_size size → misaligned va size = false → 0 ≤ i < size →
  (u32 va + i) / PageSize = u32 va / PageSize ∧ (u32 va + i) mod PageSize = u32 va mod PageSize + i.
Proof. intros Has Hal Hi. destruct (aligned_offset va size Has Hal) as [O1 O2]. unfold PageSize in *. split; dlia. Qed.

Lemma store_le_lookup : ∀ (n : nat) mem p v mem', 0 ≤ p → p + Z.of_nat n ≤ Z.of_nat (length mem) → store_le n mem p v = Ok mem' →
  length mem' = length mem ∧ ∀ x, mem' !! x = if decide (p ≤ Z.of_nat x < p + Z.of_nat n) then le_encode n v !! Z.to_nat (Z.of_nat x - p) else mem !! x.
Proof.
  induction n as [|n IH]; intros mem p v mem' Hp Hl E; cbn [store_le] in E; [injection E as <-; split; [done|]; intros x; by rewrite decide_False by lia|].
  rewrite aset_in in E by lia. cbn [mbind res_bind] in E. destruct (IH (<[Z.to_nat p := v mod 256]> mem) (p + 1) (v / 256) mem') as [Hl' Hx]; [lia|rewrite length_insert; lia|done|].
  split; [by rewrite Hl', length_insert|]. intros x. rewrite Hx. cbn [le_encode]. destruct (decide (Z.of_nat x = p)) as [Ex|Ex].
  - rewrite decide_False by lia. rewrite decide_True by lia. replace (Z.to_nat p) with x by lia. rewrite list_lookup_insert_eq by lia. by replace (Z.to_nat (Z.of_nat x - p)) with 0%nat by lia.
  - rewrite list_lookup_insert_ne by lia. case_decide.
    + rewrite decide_True by lia. by replace (Z.to_nat (Z.of_nat x - p)) with (S (Z.to_nat (Z.of_nat x - (p + 1)))) by lia.
    + by rewrite decide_False by lia.
Qed.

(** What a computation does on two machines that look the same: the same, and
    only the frames of the programs change. *)
Definition kept sp m m1 : Prop := same_outside (frames sp) (mainMemory m) (mainMemory m1).

Section RESPECTS.
Context (sp sp' : AddrSpace.AddrSpace).

Definition together {A} m m' (o o' : out A) : Prop :=
  match o, o' with
  | Ret a m1, Ret a' m1' => a = a' ∧ Same sp m1 sp' m1' ∧ kept sp m m1 ∧ kept sp' m' m1'
  | Trap x m1, Trap x' m1' => x = x' ∧ Same sp m1 sp' m1' ∧ kept sp m m1 ∧ kept sp' m' m1'
  | Fault e, Fault e' => e = e'
  | _, _ => False
  end.

Definition respects {A} (c : M A) : Prop := ∀ m m', Same sp m sp' m' → together m m' (c m) (c m').

Lemma respects_ret {A} (a : A) : respects (mret a).
Proof. intros m m' HS. cbn. by split_and!. Qed.

Lemma respects_bind {A B} (c : M A) (f : A → M B) : respects c → (∀ a, respects (f a)) → respects (c ≫= f).
Proof.
  intros Hc Hf m m' HS. specialize (Hc m m' HS). unfold mbind, M_bind, together in *. destruct (c m) as [a m1|x m1|e], (c m') as [a' m1'|x' m1'|e']; try done.
  destruct Hc as (<-&HS1&K1&K2). specialize (Hf a m1 m1' HS1). unfold together in Hf. unfold kept in *.
  destruct (f a m1), (f a m1'); try done; destruct Hf as (<-&HS2&K3&K4); (split; [done|]); (split; [done|]); split; by etrans.
Qed.

Lemma respects_lift {A} (r : res A) : respects (lift r).
Proof. intros m m' HS. unfold lift. destruct r; [|done]. cbn. by split_and!. Qed.

Lemma respects_trap {A} x : respects (trap (A := A) x).
Proof. intros m m' HS. cbn. by split_and!. Qed.

Lemma respects_registers : respects (gets registers).
Proof. intros m m' HS. cbn. split; [apply HS|by split_and!]. Qed.

Lemma respects_reg i : respects (reg i).
Proof. apply respects_bind; [apply respects_registers|intros rs; apply respects_lift]. Qed.

Lemma respects_wreg i v : respects (wreg i v).
Proof.
  intros m m' HS. unfold wreg, gets, modify, mbind, M_bind, lift. rewrite (sm_regs _ _ _ _ HS). destruct (aset (registers m') i v) as [rs|e] eqn:E; [|done]. cbn.
  assert (Hrs : length rs = 40%nat) by (apply aset_Ok in E as [_ ->]; rewrite length_insert; apply HS).
  destruct HS as [[] [] ? ? ?]. split; [done|]. split; [|done]. by split.
Qed.

#[local] Hint Resolve respects_ret respects_lift respects_trap respects_reg respects_wreg : respects.

(** Goes through the code of an operation. *)
Ltac respect :=
  repeat first
    [ progress intros
    | solve [auto with respects nocore]
    | apply respects_bind
    | match goal with |- respects (match ?x with _ => _ end) => destruct x end ].

Lemma respects_Raise {A} x va : respects (RaiseException (A := A) x va).
Proof. unfold RaiseException, DelayedLoad. respect. Qed.

(** The bytes of an access. *)
Lemma Shape_bytes sp0 m va size e :
  Shape sp0 m → access_size size → misaligned va size = false → u32 va / PageSize < AddrSpace.numPages sp0 →
  AddrSpace.pageTable sp0 !! Z.to_nat (u32 va / PageSize) = Some e →
  ∃ l, length l = Z.to_nat size ∧ load_le (Z.to_nat size) (mainMemory m) (physicalPage e * PageSize + u32 va mod PageSize) = Ok (le_decode l)
    ∧ ∀ i b, l !! i = Some b → umem sp0 m (u32 va + Z.of_nat i) = Some b ∧ mapped sp0 (u32 va + Z.of_nat i).
Proof.
  intros HS Has Hal Hlt He. destruct (so_entry _ (sh_space _ _ HS) _ _ He) as (_&_&_&Hf). pose proof (frame_range e Hf) as [F1 F2]. pose proof (sh_len _ _ HS) as Hl.
  destruct (aligned_offset va size Has Hal) as [O1 O2]. assert (Hs1 : 1 ≤ size) by (destruct Has as [->|[->| ->]]; lia). set (p := physicalPage e * PageSize + u32 va mod PageSize) in *.
  exists (take (Z.to_nat size) (drop (Z.to_nat p) (mainMemory m))). assert (Hlen : length (take (Z.to_nat size) (drop (Z.to_nat p) (mainMemory m))) = Z.to_nat size) by (rewrite length_take, length_drop; unfold p in *; lia).
  split; [done|]. assert (Hx : ∀ i b, take (Z.to_nat size) (drop (Z.to_nat p) (mainMemory m)) !! i = Some b → (i < Z.to_nat size)%nat ∧ mainMemory m !! Z.to_nat (p + Z.of_nat i) = Some b).
  { intros i b Hi. apply lookup_take_Some in Hi as [Hi Hlt']. split; [done|]. rewrite lookup_drop in Hi. rewrite <- Hi. f_equal. unfold p in *. lia. }
  split.
  - rewrite <- Hlen at 1. apply load_le_bytes; [unfold p; lia|]. intros i b Hi. by apply Hx.
  - intros i b Hi. destruct (Hx i b Hi) as [Hi1 Hi2]. destruct (place_run va size (Z.of_nat i) Has Hal ltac:(lia)) as [P1 P2]. unfold umem, view, mapped. rewrite P1, P2, He. cbn.
    split; [rewrite <- Hi2; f_equal; unfold p; lia|]. pose proof (u32_range va). unfold_int. unfold PageSize in *. split; [lia|]. dlia.
Qed.

(** The bytes, as a list, are the same on both machines. *)
Lemma Same_load m m' va size e e' :
  Same sp m sp' m' → access_size size → misaligned va size = false → u32 va / PageSize < AddrSpace.numPages sp →
  AddrSpace.pageTable sp !! Z.to_nat (u32 va / PageSize) = Some e → AddrSpace.pageTable sp' !! Z.to_nat (u32 va / PageSize) = Some e' →
  load_le (Z.to_nat size) (mainMemory m) (physicalPage e * PageSize + u32 va mod PageSize)
  = load_le (Z.to_nat size) (mainMemory m') (physicalPage e' * PageSize + u32 va mod PageSize).
Proof.
  intros HS Has Hal Hlt He He'. destruct (Shape_bytes sp m va size e (sm_l _ _ _ _ HS) Has Hal Hlt He) as (l&Hl&->&Hx).
  destruct (Shape_bytes sp' m' va size e' (sm_r _ _ _ _ HS) Has Hal ltac:(rewrite <- (sm_pages _ _ _ _ HS); done) He') as (l'&Hl'&->&Hx').
  do 2 f_equal. apply list_eq. intros i. destruct (l !! i) as [b|] eqn:Eb, (l' !! i) as [b'|] eqn:Eb'; try done.
  - destruct (Hx i b Eb) as [Hu Hm], (Hx' i b' Eb') as [Hu' _]. rewrite (sm_umem _ _ _ _ HS) in Hu by done. congruence.
  - apply lookup_lt_Some in Eb. apply lookup_ge_None in Eb'. lia.
  - apply lookup_lt_Some in Eb'. apply lookup_ge_None in Eb. lia.
Qed.

Lemma Same_quiet m m' m1 m1' :
  Same sp m sp' m' → Shape sp m1 → Shape sp' m1' → registers m1 = registers m → registers m1' = registers m' → mainMemory m1 = mainMemory m → mainMemory m1' = mainMemory m' → Same sp m1 sp' m1'.
Proof. intros [] H1 H2 E1 E2 E3 E4. split; [done|done|done|congruence|]. intros va Hva. unfold umem in *. rewrite E3, E4. auto. Qed.

(** An access is refused on both machines, or goes to the frames. *)
Lemma access_cases {A} va size (w : bool) (c c' : Z → M A) m m' :
  Same sp m sp' m' → access_size size →
  (∀ e e' m1 m1', misaligned va size = false → u32 va / PageSize < AddrSpace.numPages sp → 0 ≤ physicalPage e < NumPhysPages → 0 ≤ physicalPage e' < NumPhysPages →
    AddrSpace.pageTable sp !! Z.to_nat (u32 va / PageSize) = Some e → AddrSpace.pageTable sp' !! Z.to_nat (u32 va / PageSize) = Some e' →
    Same sp m1 sp' m1' → mainMemory m1 = mainMemory m → mainMemory m1' = mainMemory m' →
    together m1 m1' (c (physicalPage e * PageSize + u32 va mod PageSize) m1) (c' (physicalPage e' * PageSize + u32 va mod PageSize) m1')) →
  together m m' ((translate va size w ≫= c) m) ((translate va size w ≫= c') m').
Proof.
  intros HS Has Hc. pose proof (sm_pages _ _ _ _ HS) as Hp. unfold mbind, M_bind, translate.
  destruct (decide (misaligned va size = true ∨ AddrSpace.numPages sp ≤ u32 va / PageSize)) as [Hbad|Hgood].
  - rewrite (Shape_misaligned sp m va size w (sm_l _ _ _ _ HS) Hbad). rewrite (Shape_misaligned sp' m' va size w (sm_r _ _ _ _ HS)) by (by rewrite <- Hp).
    pose proof (respects_Raise (A := Z) AddressErrorException va m m' HS) as HR. unfold together in HR. destruct (RaiseException _ _ m) as [a m1|x m1|e] eqn:Er, (RaiseException _ _ m') as [a' m1'|x' m1'|e']; try done. by apply Raise_not_Ret in Er.
  - assert (Hal : misaligned va size = false) by (destruct (misaligned va size); [tauto|done]). assert (Hlt : u32 va / PageSize < AddrSpace.numPages sp) by lia.
    destruct (Shape_translate sp m va size w (sm_l _ _ _ _ HS) Has Hal Hlt) as (e&m1&He&Hf&E&HS1&Er&Em).
    destruct (Shape_translate sp' m' va size w (sm_r _ _ _ _ HS) Has Hal ltac:(by rewrite <- Hp)) as (e'&m1'&He'&Hf'&E'&HS1'&Er'&Em').
    rewrite E, E'. specialize (Hc e e' m1 m1' Hal Hlt Hf Hf' He He' (Same_quiet m m' m1 m1' HS HS1 HS1' Er Er' Em Em') Em Em').
    unfold together, kept in *. by rewrite Em, Em' in Hc.
Qed.

Lemma respects_ReadMem va size : access_size size → respects (ReadMem va size).
Proof.
  intros Has m m' HS. unfold ReadMem. apply access_cases; [done|done|]. intros e e' m1 m1' Hal Hlt Hf Hf' He He' HS1 Em Em'.
  pose proof (Same_load m1 m1' va size e e' HS1 Has Hal Hlt He He') as El. unfold mbind, M_bind, gets, lift, mret, M_ret.
  destruct Has as [->|[->| ->]]; [change (Z.to_nat 1) with 1%nat in El|change (Z.to_nat 2) with 2%nat in El|change (Z.to_nat 4) with 4%nat in El];
    rewrite El; (match goal with |- context [load_le ?n ?a ?p] => destruct (load_le n a p) end; [cbn; by split_and!|done]).
Qed.

(** A store, as the program sees it. *)
Lemma Shape_store sp0 m va size v e mem :
  Shape sp0 m → access_size size → misaligned va size = false → u32 va / PageSize < AddrSpace.numPages sp0 →
  AddrSpace.pageTable sp0 !! Z.to_nat (u32 va / PageSize) = Some e →
  store_le (Z.to_nat size) (mainMemory m) (physicalPage e * PageSize + u32 va mod PageSize) v = Ok mem →
  Shape sp0 (set_mainMemory mem m) ∧ kept sp0 m (set_mainMemory mem m)
  ∧ ∀ x, mapped sp0 x → umem sp0 (set_mainMemory mem m) x
      = if decide (u32 va ≤ x < u32 va + size) then le_encode (Z.to_nat size) v !! Z.to_nat (x - u32 va) else umem sp0 m x.
Proof.
  intros HS Has Hal Hlt He Est. pose proof (sh_space _ _ HS) as Hok. destruct (so_entry _ Hok _ _ He) as (_&_&_&Hf). pose proof (frame_range e Hf) as [F1 F2]. pose proof (sh_len _ _ HS) as Hl.
  destruct (aligned_offset va size Has Hal) as [O1 O2]. assert (Hs1 : 1 ≤ size) by (destruct Has as [->|[->| ->]]; lia). set (p := physicalPage e * PageSize + u32 va mod PageSize) in *.
  destruct (store_le_lookup (Z.to_nat size) (mainMemory m) p v mem) as [Hl' Hx]; [unfold p; lia|unfold p; lia|done|]. rewrite Z2Nat.id in Hx by lia.
  destruct (store_le_ok (Z.to_nat size) (mainMemory m) p v) as (mem2&E2&_&Hb&_); [unfold p; lia|unfold p; lia|]. rewrite Est in E2. injection E2 as <-.
  split; [|split].
  - destruct HS. split; try done; cbn; [by rewrite Hl'|by apply Hb].
  - intros a Ha Hn. cbn. rewrite Hx, Z2Nat.id by done. rewrite decide_False; [done|]. intros Hin. apply Hn. assert (a / PageSize = physicalPage e) as -> by (unfold p, PageSize in *; dlia).
    apply list_elem_of_fmap. exists e. split; [done|]. by eapply list_elem_of_lookup_2.
  - intros x Hm. unfold umem, view. cbn [mainMemory set_mainMemory]. pose proof (u32_range va) as Hu. unfold is_u32 in Hu. case_decide as Hin.
    + destruct (place_run va size (x - u32 va) Has Hal ltac:(lia)) as [P1 P2]. replace (u32 va + (x - u32 va)) with x in P1, P2 by lia. rewrite P1, P2, He. cbn. rewrite Hx. rewrite decide_True by (unfold p in *; lia).
      f_equal. unfold p. lia.
    + destruct (AddrSpace.pageTable sp0 !! Z.to_nat (x / PageSize)) as [ex|] eqn:Ex; [|done]. cbn. rewrite Hx. destruct (so_entry _ Hok _ _ Ex) as (_&_&_&Hfx).
      pose proof (frame_range ex Hfx) as [G1 G2]. assert (Hmx : 0 ≤ x mod PageSize < PageSize) by (apply Z.mod_pos_bound; done). rewrite decide_False; [done|]. rewrite Z2Nat.id by lia. intros Hc. apply Hin.
      set (i := physicalPage ex * PageSize + x mod PageSize - p) in *. destruct (place_run va size i Has Hal ltac:(unfold i; lia)) as [P1 P2].
      assert (x = u32 va + i); [|unfold i in *; lia]. apply (place_inj sp0 x (u32 va + i) ex e Hok); [apply Hm|lia|done|by rewrite P1|]. rewrite P2. unfold i, p. lia.
Qed.

Lemma store_total sp0 m va size v e :
  Shape sp0 m → access_size size → misaligned va size = false → AddrSpace.pageTable sp0 !! Z.to_nat (u32 va / PageSize) = Some e →
  ∃ mem, store_le (Z.to_nat size) (mainMemory m) (physicalPage e * PageSize + u32 va mod PageSize) v = Ok mem.
Proof.
  intros HS Has Hal He. destruct (so_entry _ (sh_space _ _ HS) _ _ He) as (_&_&_&Hf). pose proof (frame_range e Hf) as [F1 F2]. pose proof (sh_len _ _ HS) as Hl. destruct (aligned_offset va size Has Hal) as [O1 O2].
  assert (Hs1 : 1 ≤ size) by (destruct Has as [->|[->| ->]]; lia). destruct (store_le_ok (Z.to_nat size) (mainMemory m) (physicalPage e * PageSize + u32 va mod PageSize) v) as (mem&E&_); [lia|lia|]. by exists mem.
Qed.

Lemma respects_WriteMem va size v : access_size size → respects (WriteMem va size v).
Proof.
  intros Has m m' HS. unfold WriteMem. apply access_cases; [done|done|]. intros e e' m1 m1' Hal Hlt Hf Hf' He He' HS1 _ _.
  assert (Hw : ∀ w, together m1 m1' ((mem ← lift (store_le (Z.to_nat size) (mainMemory m1) (physicalPage e * PageSize + u32 va mod PageSize) w); modify (set_mainMemory mem)) m1)
    ((mem ← lift (store_le (Z.to_nat size) (mainMemory m1') (physicalPage e' * PageSize + u32 va mod PageSize) w); modify (set_mainMemory mem)) m1')).
  { intros w. destruct (store_total sp m1 va size w e (sm_l _ _ _ _ HS1) Has Hal He) as [mem E], (store_total sp' m1' va size w e' (sm_r _ _ _ _ HS1) Has Hal He') as [mem' E'].
    unfold mbind, M_bind, lift. rewrite E, E'. cbn. destruct (Shape_store sp m1 va size w e mem (sm_l _ _ _ _ HS1) Has Hal Hlt He E) as (A1&A2&A3).
    destruct (Shape_store sp' m1' va size w e' mem' (sm_r _ _ _ _ HS1) Has Hal ltac:(by rewrite <- (sm_pages _ _ _ _ HS1)) He' E') as (B1&B2&B3).
    split; [done|]. split; [|done]. split; [done|done|apply HS1|apply HS1|]. intros x Hx. rewrite A3 by done. rewrite B3 by (unfold mapped in *; by rewrite <- (sm_pages _ _ _ _ HS1)).
    case_decide; [done|]. by apply HS1. }
  destruct Has as [->|[->| ->]]; apply Hw.
Qed.

#[local] Hint Resolve respects_Raise : respects.

Lemma respects_OneInstruction : respects OneInstruction.
Proof.
  assert (A1 : access_size 1) by (by left). assert (A2 : access_size 2) by (by right; left). assert (A4 : access_size 4) by (by right; right).
  pose proof (λ va, respects_ReadMem va 1 A1) as R1. pose proof (λ va, respects_ReadMem va 2 A2) as R2. pose proof (λ va, respects_ReadMem va 4 A4) as R4.
  pose proof (λ va v, respects_WriteMem va 1 v A1) as W1. pose proof (λ va v, respects_WriteMem va 2 v A2) as W2. pose proof (λ va v, respects_WriteMem va 4 v A4) as W4.
  assert (HE : ∀ i pc, respects (exec_1 i pc)).
  { intros i pc. unfold exec_1, exec_2, op_ADD, op_ADDI, op_SUB, op_DIV, op_DIVU, op_MULT, op_LB, op_LH, op_LW, op_LWL, op_LWR, op_SWL, op_SWR, op_store, pending_rt, alu, alu_imm, move, branch, link, jump, load, address, Mips.done.
    destruct (opCode i); respect. }
  unfold OneInstruction, advance, DelayedLoad. respect.
Qed.
End RESPECTS.
End Alike.

(** ** The kernel switches between programs *)

Module Multiprog.
Import Machine Mips.

(** [begun]: the thread has called Run, and goes on behind SWITCH; [inUser]: it has
    called Execute. *)
Record UThread := mkUThread { space : option AddrSpace.AddrSpace; userRegisters : list Z; begun : bool; inUser : bool }.

Definition set_space (sp : AddrSpace.AddrSpace) (t : UThread) : UThread := mkUThread (Some sp) (userRegisters t) (begun t) (inUser t).
Definition set_userRegisters (rs : list Z) (t : UThread) : UThread := mkUThread (space t) rs (begun t) (inUser t).
Definition set_begun (t : UThread) : UThread := mkUThread (space t) (userRegisters t) true (inUser t).
Definition set_inUser (t : UThread) : UThread := mkUThread (space t) (userRegisters t) (begun t) true.

(** [tableOf] is the thread whose page table the machine points to: the bits the
    machine sets in its [pageTable] are those of that table. *)
Record Cpu := mkCpu { machine : Machine; currentThread : nat; tableOf : option nat; uthreads : gmap nat UThread }.

Definition set_machine (m : Machine) (c : Cpu) : Cpu := mkCpu m (currentThread c) (tableOf c) (uthreads c).
Definition set_current (t : nat) (c : Cpu) : Cpu := mkCpu (machine c) t (tableOf c) (uthreads c).
Definition set_tableOf (t : option nat) (c : Cpu) : Cpu := mkCpu (machine c) (currentThread c) t (uthreads c).
Definition set_uthreads (ts : gmap nat UThread) (c : Cpu) : Cpu := mkCpu (machine c) (currentThread c) (tableOf c) ts.

(** A computation on the machine that raises no exception. *)
Definition on_machine {A} (f : M A) (c : Cpu) : res (A * Cpu) :=
  match f (machine c) with
  | Ret a m => Ok (a, set_machine m c)
  | Trap _ _ => Err AssertFailed
  | Fault e => Err e
  end.

(** *** thread.cc *)

Fixpoint save_loop (n : nat) (i : Z) (userRegisters : list Z) : M (list Z) :=
  match n with
  | O => mret userRegisters
  | S n =>
    v ← ReadRegister i;
    userRegisters ← lift (aset userRegisters i v);
    save_loop n (i + 1) userRegisters
  end.

Definition SaveUserState (t : nat) (c : Cpu) : res Cpu :=
  th ← deref (uthreads c !! t);
  '(rs, c) ← on_machine (save_loop (Z.to_nat NumTotalRegs) 0 (userRegisters th)) c;
  Ok (set_uthreads (<[t := set_userRegisters rs th]> (uthreads c)) c).

Fixpoint restore_loop (n : nat) (i : Z) (userRegisters : list Z) : M unit :=
  match n with
  | O => mret tt
  | S n =>
    v ← lift (aget userRegisters i);
    WriteRegister i v ;;
    restore_loop n (i + 1) userRegisters
  end.

Definition RestoreUserState (t : nat) (c : Cpu) : res Cpu :=
  th ← deref (uthreads c !! t);
  '(_, c) ← on_machine (restore_loop (Z.to_nat NumTotalRegs) 0 (userRegisters th)) c;
  Ok c.

(** *** addrspace.cc *)

(** The table of the address space is the one the machine has used. *)
Definition sync (c : Cpu) : Cpu :=
  match tableOf c with
  | Some t =>
    match uthreads c !! t, pageTable (machine c) with
    | Some th, Some pt =>
      match space th with
      | Some sp => set_uthreads (<[t := set_space (AddrSpace.mkAddrSpace pt (AddrSpace.numPages sp)) th]> (uthreads c)) c
      | None => c
      end
    | _, _ => c
    end
  | None => c
  end.

(** The machine points to the table of the address space of thread [t]. *)
Definition point_to (f : AddrSpace.AddrSpace → M unit) (t : nat) (c : Cpu) : res Cpu :=
  let c := sync c in
  th ← deref (uthreads c !! t);
  sp ← deref (space th);
  '(_, c) ← on_machine (f sp) c;
  Ok (set_tableOf (Some t) c).

Definition RestoreState (t : nat) (c : Cpu) : res Cpu := point_to AddrSpace.RestoreState t c.

Definition Execute (t : nat) (c : Cpu) : res Cpu :=
  c ← point_to AddrSpace.Execute t c;
  th ← deref (uthreads c !! t);
  Ok (set_uthreads (<[t := set_inUser th]> (uthreads c)) c).

(** *** scheduler.cc, Run: before SWITCH in the old thread, behind it in the next *)

Definition has_space (t : nat) (c : Cpu) : res bool :=
  th ← deref (uthreads c !! t);
  Ok (negb (bool_decide (space th = None))).

Definition Run (nextThread : nat) (c : Cpu) : res Cpu :=
  let oldThread := currentThread c in
  user ← has_space oldThread c;
  c ← (if (user : bool) then SaveUserState oldThread c else Ok c);
  old ← deref (uthreads c !! oldThread);
  let c := set_uthreads (<[oldThread := set_begun old]> (uthreads c)) c in
  let c := set_current nextThread c in
  next ← deref (uthreads c !! nextThread);
  if begun next then
    user ← has_space nextThread c;
    if (user : bool) then c ← RestoreUserState nextThread c; RestoreState nextThread c else Ok c
  else Ok c.
End Multiprog.

Module MultiprogSpec.
Import Machine MachineSpec Mips AddrSpaceSpec SyscallSpec Alike Multiprog.
Implicit Types (sp : AddrSpace.AddrSpace) (m p : Machine) (c : Cpu) (t : nat).

(** ** What happens *)

(** The outcome of an instruction: the next one, or an exception. *)
Definition outcome (o : out unit) : option (option ExceptionType * Machine) :=
  match o with Ret _ m => Some (None, m) | Trap x m => Some (Some x, m) | Fault _ => None end.

(** The kernel acts for a program: it sets its registers and some of its memory. *)
Record acts sp m (rs : list Z) (u : Z → option Z) m' : Prop := {
  ac_shape : Shape sp m';
  ac_regs : registers m' = rs;
  ac_umem va : mapped sp va → umem sp m' va = match u va with Some b => Some b | None => umem sp m va end;
  ac_rest : kept sp m m'
}.

Inductive event :=
| EInstr (t : nat) (o : option ExceptionType)       (* the program of the thread executes an instruction *)
| EKernel (t : nat) (rs : list Z) (u : Z → option Z) (* the kernel acts for it *)
| EExecute (t : nat) (n : Z) (v : Z → option Z)      (* it starts, with [n] pages that hold [v] *)
| EDelete (t : nat)                                 (* the thread is deleted *)
| ESwitch (t : nat)                                 (* another thread runs *)
| EOther.                                           (* a thread is created; the kernel prepares memory *)

Definition space_of c t : option AddrSpace.AddrSpace := th ← uthreads c !! t; space th.
Definition user c t : Prop := ∃ th, uthreads c !! t = Some th ∧ inUser th = true.

(** A new address space: its frames are nobody else's (address_spaces_own_frames). *)
Definition new_space c (so : option AddrSpace.AddrSpace) : Prop :=
  match so with
  | Some sp => SpaceOk sp ∧ AddrSpace.numPages sp ≤ NumPhysPages ∧ ∀ t sp', space_of c t = Some sp' → ∀ f, f ∈ frames sp → f ∉ frames sp'
  | None => True
  end.

Inductive Step c : event → Cpu → Prop :=
| s_instr o m : user c (currentThread c) → outcome (OneInstruction (machine c)) = Some (o, m) → Step c (EInstr (currentThread c) o) (set_machine m c)
| s_kernel sp rs u m : user c (currentThread c) → space_of c (currentThread c) = Some sp → acts sp (machine c) rs u m →
    Step c (EKernel (currentThread c) rs u) (set_machine m c)
| s_execute sp c' : ¬ user c (currentThread c) → space_of c (currentThread c) = Some sp → Execute (currentThread c) c = Ok c' →
    Step c (EExecute (currentThread c) (AddrSpace.numPages sp) (umem sp (machine c))) c'
| s_delete t : t ≠ currentThread c →
    Step c (EDelete t) (set_tableOf (if decide (tableOf c = Some t) then None else tableOf c) (set_uthreads (delete t (uthreads c)) c))
| s_switch t c' : Run t c = Ok c' → Step c (ESwitch t) c'
| s_create t so rs : uthreads c !! t = None → new_space c so → length rs = 40%nat → Step c EOther (set_uthreads (<[t := mkUThread so rs false false]> (uthreads c)) c)
| s_memory mem : length mem = length (mainMemory (machine c)) → bytes mem →
    (∀ t sp, user c t → space_of c t = Some sp → ∀ va, mapped sp va → view sp mem va = umem sp (machine c) va) →
    Step c EOther (set_machine (set_mainMemory mem (machine c)) c).

Inductive Steps c : list event → Cpu → Prop :=
| steps_nil : Steps c [] c
| steps_snoc h c1 e c2 : Steps c h c1 → Step c1 e c2 → Steps c (h ++ [e]) c2.

(** ** The contract: a machine for every program *)

(** An address space of [n] pages, each in the frame of its number. *)
Definition id_entry (i : Z) : TranslationEntry := mkEntry i i true false false false.
Definition id_space (n : Z) : AddrSpace.AddrSpace := AddrSpace.mkAddrSpace (map id_entry (seqZ 0 n)) n.

Abbreviation machines := (gmap nat (Z * Machine)).

(** The registers of a program that starts. *)
Definition first_registers (n : Z) : list Z := <[29%nat := n * PageSize - 16]> (<[35%nat := 4]> (replicate 40 0)).

Inductive AStep (ps : machines) : event → machines → Prop :=
| a_instr t n p o p' : ps !! t = Some (n, p) → outcome (OneInstruction p) = Some (o, p') → AStep ps (EInstr t o) (<[t := (n, p')]> ps)
| a_kernel t n p rs u p' : ps !! t = Some (n, p) → acts (id_space n) p rs u p' → AStep ps (EKernel t rs u) (<[t := (n, p')]> ps)
| a_execute t n v p : ps !! t = None → Shape (id_space n) p → registers p = first_registers n →
    (∀ va, mapped (id_space n) va → umem (id_space n) p va = v va) → AStep ps (EExecute t n v) (<[t := (n, p)]> ps)
| a_delete t : AStep ps (EDelete t) (delete t ps)
| a_switch t : AStep ps (ESwitch t) ps
| a_other : AStep ps EOther ps.

Inductive ASteps (ps : machines) : list event → machines → Prop :=
| asteps_nil : ASteps ps [] ps
| asteps_snoc h ps1 e ps2 : ASteps ps h ps1 → AStep ps1 e ps2 → ASteps ps (h ++ [e]) ps2.

(** ** The simulation *)

(** The machine of a program. *)
Record Mine c sp (n : Z) p : Prop := {
  mi_shape : Shape (id_space n) p;
  mi_pages : AddrSpace.numPages sp = n;
  mi_umem va : mapped sp va → umem sp (machine c) va = umem (id_space n) p va
}.

(** [run] is the thread whose registers are in the machine. *)
Record SimR c (run : option nat) (ps : machines) : Prop := {
  si_nregs : length (registers (machine c)) = 40%nat;
  si_tlb : tlb (machine c) = None;
  si_len : Z.of_nat (length (mainMemory (machine c))) = MemorySize;
  si_bytes : bytes (mainMemory (machine c));
  si_saved t th : uthreads c !! t = Some th → length (userRegisters th) = 40%nat;
  si_space t sp : space_of c t = Some sp → SpaceOk sp ∧ AddrSpace.numPages sp ≤ NumPhysPages;
  si_frames t t' sp sp' f : space_of c t = Some sp → space_of c t' = Some sp' → t ≠ t' → f ∈ frames sp → f ∉ frames sp';
  si_table t : tableOf c = Some t → ∃ sp pt, space_of c t = Some sp ∧ pageTable (machine c) = Some pt
    ∧ Forall2 same_entry (AddrSpace.pageTable sp) pt ∧ pageTableSize (machine c) = AddrSpace.numPages sp;
  si_dom t : is_Some (ps !! t) ↔ user c t;
  si_mine t n p : ps !! t = Some (n, p) → ∃ sp, space_of c t = Some sp ∧ Mine c sp n p;
  si_current t n p : run = Some t → ps !! t = Some (n, p) → registers (machine c) = registers p ∧ tableOf c = Some t;
  si_parked t th n p : run ≠ Some t → ps !! t = Some (n, p) → uthreads c !! t = Some th → userRegisters th = registers p ∧ begun th = true
}.

Definition Sim c (ps : machines) : Prop := SimR c (Some (currentThread c)) ps.

(** *** Machines of their own *)

Lemma id_lookup n (i : nat) e : map id_entry (seqZ 0 n) !! i = Some e ↔ e = id_entry (Z.of_nat i) ∧ Z.of_nat i < n.
Proof.
  rewrite list_lookup_fmap. split.
  - destruct (seqZ 0 n !! i) as [x|] eqn:E; [|done]. apply lookup_seqZ in E as [-> Hi]. cbn. intros [= <-]. by split.
  - intros [-> Hi]. assert (E : seqZ 0 n !! i = Some (Z.of_nat i)) by (apply lookup_seqZ; lia). by rewrite E.
Qed.

Lemma id_SpaceOk n : 0 ≤ n ≤ NumPhysPages → SpaceOk (id_space n).
Proof.
  intros Hn. split; cbn [id_space AddrSpace.numPages AddrSpace.pageTable].
  - rewrite length_map, length_seqZ. lia.
  - intros i e He. apply id_lookup in He as [-> Hi]. cbn. split; [done|]. split; [done|]. split; [done|]. lia.
  - unfold frames. cbn. assert (E : physicalPage <$> map id_entry (seqZ 0 n) = seqZ 0 n) by (rewrite <- list_fmap_compose; apply list_fmap_id). rewrite E. apply NoDup_seqZ.
Qed.

Lemma umem_id n p va : mapped (id_space n) va → umem (id_space n) p va = mainMemory p !! Z.to_nat va.
Proof.
  intros [Hv1 Hv2]. cbn in Hv2. unfold umem, view. assert (E : AddrSpace.pageTable (id_space n) !! Z.to_nat (va / PageSize) = Some (id_entry (Z.of_nat (Z.to_nat (va / PageSize))))).
  { apply id_lookup. split; [done|]. unfold PageSize in *. dlia. }
  rewrite E. cbn. f_equal. unfold PageSize in *. dlia.
Qed.

(** A machine with given registers and memory, and the rest of its memory. *)
Lemma alone n rs (v : Z → option Z) mem0 :
  0 ≤ n ≤ NumPhysPages → length rs = 40%nat → Z.of_nat (length mem0) = MemorySize → bytes mem0 → (∀ va, mapped (id_space n) va → ∃ b, v va = Some b ∧ is_byte b) →
  ∃ p, Shape (id_space n) p ∧ registers p = rs ∧ (∀ va, mapped (id_space n) va → umem (id_space n) p va = v va) ∧ same_outside (frames (id_space n)) mem0 (mainMemory p).
Proof.
  intros Hn Hrs Hl Hb Hv. set (mem := imap (λ i b, if decide (Z.of_nat i < n * PageSize) then default 0 (v (Z.of_nat i)) else b) mem0).
  assert (Hm : ∀ i, mem !! i = (λ b, if decide (Z.of_nat i < n * PageSize) then default 0 (v (Z.of_nat i)) else b) <$> mem0 !! i) by (intros i; apply list_lookup_imap).
  exists (mkMachine rs mem None (Some (map id_entry (seqZ 0 n))) n). split; [|split; [done|split]].
  - split; cbn; [by apply id_SpaceOk|lia|done| |done|done|unfold mem; by rewrite length_imap|].
    + eexists. split; [done|]. apply Forall2_same_length_lookup_2; [done|]. intros i x y Hx Hy. rewrite Hx in Hy. injection Hy as <-. by repeat split.
    + apply Forall_lookup. intros i b Hi. rewrite Hm in Hi. destruct (mem0 !! i) as [b0|] eqn:E0; [|done]. cbn in Hi. injection Hi as <-. case_decide as Hd.
      * destruct (Hv (Z.of_nat i)) as (b&->&Hbb); [split; cbn; lia|done].
      * exact (proj1 (Forall_lookup _ _) Hb _ _ E0).
  - intros va Hva. rewrite umem_id by done. cbn. rewrite Hm. destruct Hva as [V1 V2]. cbn in V2.
    destruct (lookup_lt_is_Some_2 mem0 (Z.to_nat va)) as [b0 ->]; [unfold MemorySize in *; unfold NumPhysPages, PageSize in *; lia|]. cbn. rewrite decide_True by lia. rewrite Z2Nat.id by done.
    destruct (Hv va) as (b&->&_); [by split|done].
  - intros a Ha Hnf. cbn. rewrite Hm. destruct (mem0 !! Z.to_nat a) as [b|] eqn:E; [|done]. cbn. rewrite decide_False; [done|]. intros Hlt. apply Hnf.
    apply list_elem_of_fmap. exists (id_entry (a / PageSize)). split; [done|]. apply list_elem_of_lookup. exists (Z.to_nat (a / PageSize)). apply id_lookup. unfold PageSize in *. split; [f_equal; dlia|dlia].
Qed.

(** *** Registers *)

Lemma save_loop_ok m : length (registers m) = 40%nat → ∀ (n i : nat) rs, (i + n)%nat = 40%nat → length rs = 40%nat → take i rs = take i (registers m) →
  save_loop n (Z.of_nat i) rs m = Ret (registers m) m.
Proof.
  intros Hm. induction n as [|n IH]; intros i rs Hi Hl Ht; cbn [save_loop].
  - unfold mret, M_ret. f_equal. rewrite <- (take_ge rs i), <- (take_ge (registers m) i) by lia. done.
  - destruct (lookup_lt_is_Some_2 (registers m) i) as [v Hv]; [lia|]. unfold mbind, M_bind. rewrite (ReadRegister_run (Z.of_nat i) v) by (rewrite ?Nat2Z.id; done || lia).
    unfold lift. rewrite aset_in by lia. rewrite Nat2Z.id. replace (Z.of_nat i + 1) with (Z.of_nat (S i)) by lia. apply IH; [lia|by rewrite length_insert|].
    rewrite (take_S_r _ _ v) by (apply list_lookup_insert_eq; lia). rewrite take_insert_ge by lia. rewrite Ht. by rewrite (take_S_r (registers m) i v Hv).
Qed.

Lemma restore_loop_ok rs : length rs = 40%nat → ∀ (n i : nat) m, (i + n)%nat = 40%nat → length (registers m) = 40%nat → take i (registers m) = take i rs →
  restore_loop n (Z.of_nat i) rs m = Ret tt (set_registers rs m).
Proof.
  intros Hrs. induction n as [|n IH]; intros i m Hi Hl Ht; cbn [restore_loop].
  - unfold mret, M_ret. f_equal. destruct m as [r ? ? ? ?]. cbn in *. unfold set_registers. cbn. f_equal. rewrite <- (take_ge r i), <- (take_ge rs i) by lia. done.
  - destruct (lookup_lt_is_Some_2 rs i) as [v Hv]; [lia|]. unfold mbind, M_bind, lift. assert (E : aget rs (Z.of_nat i) = Ok v) by (apply aget_Ok; split; [lia|by rewrite Nat2Z.id]). rewrite E.
    rewrite WriteRegister_run by lia. rewrite Nat2Z.id. replace (Z.of_nat i + 1) with (Z.of_nat (S i)) by lia. rewrite IH; [done|lia|cbn; by rewrite length_insert|].
    cbn. rewrite (take_S_r _ _ v) by (apply list_lookup_insert_eq; lia). rewrite take_insert_ge by lia. rewrite Ht. by rewrite (take_S_r rs i v Hv).
Qed.

(** *** Address spaces up to use and dirty bits *)

Definition like sp sp' : Prop := AddrSpace.numPages sp = AddrSpace.numPages sp' ∧ Forall2 same_entry (AddrSpace.pageTable sp) (AddrSpace.pageTable sp').

Lemma like_refl sp : like sp sp.
Proof. split; [done|]. reflexivity. Qed.

Lemma like_frames sp sp' : like sp sp' → frames sp' = frames sp.
Proof. intros [_ HF]. unfold frames. induction HF as [|e e' pt pt' (_&E&_) _ IH]; [done|]. cbn. by rewrite IH, E. Qed.

Lemma like_view sp sp' mem va : like sp sp' → view sp' mem va = view sp mem va.
Proof.
  intros [_ HF]. unfold view. destruct (AddrSpace.pageTable sp !! Z.to_nat (va / PageSize)) as [e|] eqn:E.
  - destruct (Forall2_lookup_l _ _ _ _ _ HF E) as (e'&->&(_&Ep&_)). cbn. by rewrite Ep.
  - apply lookup_ge_None in E. rewrite (Forall2_length _ _ _ HF) in E. apply lookup_ge_None in E. by rewrite E.
Qed.

Lemma like_SpaceOk sp sp' : like sp sp' → SpaceOk sp → SpaceOk sp'.
Proof.
  intros HL [S1 S2 S3]. pose proof (like_frames _ _ HL) as Hf. destruct HL as [Hn HF]. split; [rewrite <- Hn, S1; by rewrite (Forall2_length _ _ _ HF)| |by rewrite Hf].
  intros i e' He'. destruct (Forall2_lookup_r _ _ _ _ _ HF He') as (e&He&(E1&E2&E3&E4)). destruct (S2 i e He) as (?&?&?&?). split_and!; congruence || lia.
Qed.

(** The threads, up to these bits. *)
Record like_thread (th th' : UThread) : Prop := {
  lt_regs : userRegisters th' = userRegisters th;
  lt_begun : begun th' = begun th;
  lt_user : inUser th' = inUser th;
  lt_space : option_Forall2 like (space th) (space th')
}.

Lemma like_thread_refl th : like_thread th th.
Proof. split; [done|done|done|]. destruct (space th); constructor. apply like_refl. Qed.

Section LIKE.
Context (c c' : Cpu) (Hth : ∀ t, option_Forall2 like_thread (uthreads c !! t) (uthreads c' !! t)).

Lemma like_space_of t : option_Forall2 like (space_of c t) (space_of c' t).
Proof. unfold space_of. destruct (Hth t) as [th th' [_ _ _ Hs]|]; cbn; [done|constructor]. Qed.

Lemma like_space_r t sp' : space_of c' t = Some sp' → ∃ sp, space_of c t = Some sp ∧ like sp sp'.
Proof. intros E. pose proof (like_space_of t) as HL. rewrite E in HL. inversion HL as [sp ? Hl E1 E2|]; subst. by exists sp. Qed.

Lemma like_space_l t sp : space_of c t = Some sp → ∃ sp', space_of c' t = Some sp' ∧ like sp sp'.
Proof. intros E. pose proof (like_space_of t) as HL. rewrite E in HL. inversion HL as [? sp' Hl E1 E2|]; subst. by exists sp'. Qed.

Lemma like_user t : user c' t ↔ user c t.
Proof.
  unfold user. destruct (Hth t) as [th th' [_ _ Hu _]|]; [|done]. split; intros (x&[= <-]&E); eexists; (split; [done|]); congruence.
Qed.

Lemma SimR_like run ps : machine c' = machine c → tableOf c' = tableOf c → SimR c run ps → SimR c' run ps.
Proof.
  intros Em Et HS. split; rewrite ?Em, ?Et; try apply HS.
  - intros t th' E. pose proof (Hth t) as HL. rewrite E in HL. inversion HL as [th ? [Hr _ _ _] E1 E2|]; subst. rewrite Hr. by apply (si_saved _ _ _ HS t).
  - intros t sp' E. destruct (like_space_r t sp' E) as (sp&Es&HL). destruct (si_space _ _ _ HS t sp Es) as [Hok Hn]. split; [by eapply like_SpaceOk|]. by destruct HL as [<- _].
  - intros t1 t2 sp1 sp2 f E1 E2 Hne. destruct (like_space_r t1 sp1 E1) as (s1&F1&HL1), (like_space_r t2 sp2 E2) as (s2&F2&HL2). rewrite (like_frames _ _ HL1), (like_frames _ _ HL2). by apply (si_frames _ _ _ HS t1 t2).
  - intros t E. destruct (si_table _ _ _ HS t E) as (sp&pt&Es&Ep&HF&Hn). destruct (like_space_l t sp Es) as (sp'&Es'&HL). exists sp', pt. split; [done|]. split; [done|].
    destruct HL as [HL1 HL2]. split; [|congruence]. etrans; [symmetry; exact HL2|exact HF].
  - intros t. rewrite like_user. apply HS.
  - intros t n p E. destruct (si_mine _ _ _ HS t n p E) as (sp&Es&[M1 M2 M3]). destruct (like_space_l t sp Es) as (sp'&Es'&HL). exists sp'. split; [done|]. split; [done|by destruct HL as [<- _]|].
    intros va Hva. unfold umem in *. rewrite Em, (like_view sp sp') by done. apply M3. unfold mapped in *. by destruct HL as [-> _].
  - intros t th' n p Hr E Eth. pose proof (Hth t) as HL. rewrite Eth in HL. inversion HL as [th ? [Hrg Hb _ _] E1 E2|]; subst. rewrite Hrg, Hb. by eapply (si_parked _ _ _ HS t).
Qed.
End LIKE.

(** The machine's table goes back to its address space. *)
Lemma sync_like c run ps : SimR c run ps → ∀ t, option_Forall2 like_thread (uthreads c !! t) (uthreads (sync c) !! t).
Proof.
  intros HS t. assert (Hrefl : option_Forall2 like_thread (uthreads c !! t) (uthreads c !! t)) by (destruct (uthreads c !! t); constructor; apply like_thread_refl).
  unfold sync. destruct (tableOf c) as [o|] eqn:Eo; [|done]. destruct (si_table _ _ _ HS o Eo) as (sp&pt&Es&Ep&HF&Hn). unfold space_of in Es. destruct (uthreads c !! o) as [th|] eqn:Eth; [|done]. cbn in Es. rewrite Ep, Es. cbn.
  destruct (decide (t = o)) as [->|Hne]; [|by rewrite lookup_insert_ne by done]. rewrite Eth, lookup_insert_eq. constructor. split; [done|done|done|]. rewrite Es. constructor. by split.
Qed.

Lemma sync_fields c : machine (sync c) = machine c ∧ currentThread (sync c) = currentThread c ∧ tableOf (sync c) = tableOf c.
Proof. unfold sync. destruct (tableOf c) as [t|] eqn:E; [|done]. destruct (uthreads c !! t) as [th|]; [|done]. destruct (pageTable (machine c)); [|done]. by destruct (space th). Qed.

Lemma sync_Sim c run ps : SimR c run ps → SimR (sync c) run ps.
Proof. intros HS. destruct (sync_fields c) as (Em&_&Et). eapply (SimR_like c); [by eapply sync_like|done|done|done]. Qed.

(** *** The program that runs *)

Lemma space_byte sp mem va : SpaceOk sp → Z.of_nat (length mem) = MemorySize → bytes mem → mapped sp va → ∃ b, view sp mem va = Some b ∧ is_byte b.
Proof.
  intros Hok Hl Hb [V1 V2]. pose proof (so_pages _ Hok) as Hn. destruct (lookup_lt_is_Some_2 (AddrSpace.pageTable sp) (Z.to_nat (va / PageSize))) as [e He]; [unfold PageSize in *; dlia|].
  destruct (so_entry _ Hok _ _ He) as (_&_&_&Hf). pose proof (frame_range e Hf) as [F1 F2]. assert (Hmod : 0 ≤ va mod PageSize < PageSize) by (apply Z.mod_pos_bound; done).
  unfold view. rewrite He. cbn. destruct (lookup_lt_is_Some_2 mem (Z.to_nat (physicalPage e * PageSize + va mod PageSize))) as [b Hx]; [lia|]. exists b. split; [done|]. exact (proj1 (Forall_lookup _ _) Hb _ _ Hx).
Qed.

Lemma Sim_Same c ps t n p : SimR c (Some t) ps → ps !! t = Some (n, p) → ∃ sp, space_of c t = Some sp ∧ Same sp (machine c) (id_space n) p.
Proof.
  intros HS E. destruct (si_mine _ _ _ HS t n p E) as (sp&Es&[M1 M2 M3]). exists sp. split; [done|]. destruct (si_current _ _ _ HS t n p eq_refl E) as [Er Et].
  destruct (si_table _ _ _ HS t Et) as (sp0&pt&Es0&Ep&HF&Hsz). rewrite Es in Es0. injection Es0 as <-. destruct (si_space _ _ _ HS t sp Es) as [Hok Hn].
  split; [|done|done|done|done]. split; try done; try apply HS. by exists pt.
Qed.

Lemma Sim_own c ps t sp n p m' p' :
  SimR c (Some t) ps → ps !! t = Some (n, p) → space_of c t = Some sp → Same sp m' (id_space n) p' → kept sp (machine c) m' →
  SimR (set_machine m' c) (Some t) (<[t := (n, p')]> ps).
Proof.
  intros HS E Es [SL SR Spg Srg Sum] HK. destruct (si_current _ _ _ HS t n p eq_refl E) as [_ Et]. split; cbn [machine set_machine uthreads tableOf]; try apply SL; try apply HS.
  - intros t' Et'. rewrite Et in Et'. injection Et' as <-. destruct (sh_table _ _ SL) as (pt&Ep&HF). exists sp, pt. split; [done|]. split; [done|]. split; [done|]. apply SL.
  - intros t'. rewrite lookup_insert_is_Some. rewrite (si_dom _ _ _ HS t'). split; [|by destruct (decide (t = t')); auto]. intros [<-|[_ ?]]; [|done]. apply (si_dom _ _ _ HS). by rewrite E.
  - intros t' n' q Eq. destruct (decide (t' = t)) as [->|Hne].
    + rewrite lookup_insert_eq in Eq. injection Eq as <- <-. exists sp. split; [done|]. by split.
    + rewrite lookup_insert_ne in Eq by done. destruct (si_mine _ _ _ HS t' n' q Eq) as (sp'&Es'&[M1 M2 M3]). exists sp'. split; [done|]. split; [done|done|]. intros va Hva. rewrite <- M3 by done.
      unfold umem. cbn. apply (view_outside sp' (frames sp)); [apply (si_space _ _ _ HS t' sp' Es')| |exact HK]. intros f Hf. by apply (si_frames _ _ _ HS t' t sp' sp f).
  - intros t' n' q [= <-] Eq. rewrite lookup_insert_eq in Eq. by injection Eq as <- <-.
  - intros t' th n' q Hne Eq. rewrite lookup_insert_ne in Eq by congruence. by eapply (si_parked _ _ _ HS t').
Qed.

Lemma instr_sim c ps o m : Sim c ps → user c (currentThread c) → outcome (OneInstruction (machine c)) = Some (o, m) →
  ∃ ps', AStep ps (EInstr (currentThread c) o) ps' ∧ Sim (set_machine m c) ps'.
Proof.
  intros HS Hu Eo. apply (si_dom _ _ _ HS) in Hu as [[n p] E]. destruct (Sim_Same c ps _ n p HS E) as (sp&Es&Hsame).
  pose proof (respects_OneInstruction sp (id_space n) _ _ Hsame) as HR. unfold together in HR.
  destruct (OneInstruction (machine c)) as [[] m1|x m1|] eqn:E1, (OneInstruction p) as [[] p1|x' p1|] eqn:E2; try done; cbn in Eo; injection Eo as <- <-; destruct HR as (Ex&HS1&K1&_).
  - exists (<[currentThread c := (n, p1)]> ps). split; [econstructor; [done|by rewrite E2]|]. by eapply Sim_own.
  - subst x'. exists (<[currentThread c := (n, p1)]> ps). split; [econstructor; [done|by rewrite E2]|]. by eapply Sim_own.
Qed.

Lemma kernel_sim c ps sp rs u m : Sim c ps → user c (currentThread c) → space_of c (currentThread c) = Some sp → acts sp (machine c) rs u m →
  ∃ ps', AStep ps (EKernel (currentThread c) rs u) ps' ∧ Sim (set_machine m c) ps'.
Proof.
  intros HS Hu Es [A1 A2 A3 A4]. apply (si_dom _ _ _ HS) in Hu as [[n p] E]. destruct (Sim_Same c ps _ n p HS E) as (sp0&Es0&Hsame). rewrite Es in Es0. injection Es0 as <-.
  pose proof Hsame as [SL SR Spg Srg Sum]. cbn in Spg. pose proof (sh_pages _ _ SL) as Hn. pose proof (so_pages _ (sh_space _ _ SL)) as Hnn.
  assert (Hmap : ∀ va, mapped (id_space n) va ↔ mapped sp va) by (intros va; unfold mapped; cbn; by rewrite Spg).
  destruct (alone n rs (umem sp m) (mainMemory p)) as (p'&P1&P2&P3&P4); [lia|rewrite <- A2; apply A1|apply SR|apply SR| |].
  { intros va Hva. apply Hmap in Hva. by apply space_byte; [apply A1..|]. }
  exists (<[currentThread c := (n, p')]> ps). split.
  - econstructor; [done|]. split; [done|done| |done]. intros va Hva. rewrite P3 by done. apply Hmap in Hva. rewrite A3 by done. by rewrite Sum.
  - eapply Sim_own; [done|done|done| |done]. split; [done|done|done|congruence|]. intros va Hva. symmetry. apply P3. by apply Hmap.
Qed.

(** *** Switching *)

(** A thread leaves the processor: its registers are in the thread. *)
Lemma Sim_leave c ps t th th' :
  SimR c (Some t) ps → uthreads c !! t = Some th → space th' = space th → inUser th' = inUser th → length (userRegisters th') = 40%nat →
  (∀ n p, ps !! t = Some (n, p) → userRegisters th' = registers p ∧ begun th' = true) →
  SimR (set_uthreads (<[t := th']> (uthreads c)) c) None ps.
Proof.
  intros HS Eth Esp Eu Hl Hp. assert (Hso : ∀ x, space_of (set_uthreads (<[t := th']> (uthreads c)) c) x = space_of c x).
  { intros x. unfold space_of. cbn. destruct (decide (x = t)) as [->|Hne]; [by rewrite lookup_insert_eq, Eth|by rewrite lookup_insert_ne by done]. }
  split; try setoid_rewrite Hso; try apply HS; cbn [uthreads set_uthreads tableOf].
  - intros x y Ex. destruct (decide (x = t)) as [->|Hne]; [rewrite lookup_insert_eq in Ex; by injection Ex as <-|]. rewrite lookup_insert_ne in Ex by done. by apply (si_saved _ _ _ HS x).
  - intros x. rewrite (si_dom _ _ _ HS x). unfold user. cbn. destruct (decide (x = t)) as [->|Hne]; [|by rewrite lookup_insert_ne by done]. rewrite lookup_insert_eq, Eth. split; intros (y&[= <-]&E); eexists; (split; [done|]); congruence.
  - intros x n p Ex. destruct (si_mine _ _ _ HS x n p Ex) as (sp&Es&[M1 M2 M3]). exists sp. split; [done|]. by split.
  - intros x n p [=].
  - intros x y n p _ Ex Ey. destruct (decide (x = t)) as [->|Hne]; [rewrite lookup_insert_eq in Ey; injection Ey as <-; by eapply Hp|]. rewrite lookup_insert_ne in Ey by done. eapply (si_parked _ _ _ HS x); [congruence|done|done].
Qed.

(** A thread that has no program of its own yet runs. *)
Lemma Sim_idle c ps t : SimR c None ps → ps !! t = None → SimR (set_current t c) (Some t) ps.
Proof.
  intros HS E. split; try apply HS.
  - intros x n p Ex. destruct (si_mine _ _ _ HS x n p Ex) as (sp&Es&[M1 M2 M3]). exists sp. split; [done|]. by split.
  - intros x n p [= <-] Ex. congruence.
  - intros x th n p _ Ex Ey. by eapply (si_parked _ _ _ HS x).
Qed.

Lemma Sim_none c ps t : SimR c (Some t) ps → ps !! t = None → SimR c None ps.
Proof.
  intros HS E. split; try apply HS.
  - intros x n p [=].
  - intros x th n p _ Ex Ey. eapply (si_parked _ _ _ HS x); [|done|done]. congruence.
Qed.

(** A thread with an address space gets the processor, with its registers. *)
Lemma Sim_enter c ps t sp rs :
  SimR c None ps → space_of c t = Some sp → length rs = 40%nat → (∀ n p, ps !! t = Some (n, p) → rs = registers p) →
  SimR (mkCpu (mkMachine rs (mainMemory (machine c)) (tlb (machine c)) (Some (AddrSpace.pageTable sp)) (AddrSpace.numPages sp)) t (Some t) (uthreads c)) (Some t) ps.
Proof.
  intros HS Es Hl Hr. split; cbn [machine registers mainMemory tlb uthreads tableOf pageTable pageTableSize]; try apply HS; [done| | | |].
  - intros x [= <-]. exists sp, (AddrSpace.pageTable sp). split; [done|]. split; [done|]. split; [reflexivity|done].
  - intros x n p Ex. destruct (si_mine _ _ _ HS x n p Ex) as (sp'&Es'&[M1 M2 M3]). exists sp'. split; [done|]. by split.
  - intros x n p [= <-] Ex. split; [by eapply Hr|done].
  - intros x th n p _ Ex Ey. by eapply (si_parked _ _ _ HS x).
Qed.

Lemma has_space_of c t b : has_space t c = Ok b → b = negb (bool_decide (space_of c t = None)).
Proof. unfold has_space, space_of. destruct (uthreads c !! t) as [th|]; [|done]. cbn. by intros [= <-]. Qed.

Lemma SaveUserState_ok c run ps t c' : SimR c run ps → SaveUserState t c = Ok c' →
  ∃ th, uthreads c !! t = Some th ∧ c' = set_uthreads (<[t := set_userRegisters (registers (machine c)) th]> (uthreads c)) c.
Proof.
  intros HS E. unfold SaveUserState in E. destruct (uthreads c !! t) as [th|] eqn:Et; [|done]. cbn [deref mbind res_bind] in E. exists th. split; [done|].
  unfold on_machine in E. pose proof (save_loop_ok (machine c) (si_nregs _ _ _ HS) 40 0 (userRegisters th) eq_refl (si_saved _ _ _ HS t th Et) eq_refl) as EL.
  change (save_loop 40 (Z.of_nat 0)) with (save_loop (Z.to_nat NumTotalRegs) 0) in EL. rewrite EL in E. cbn in E. by injection E as <-.
Qed.

Lemma RestoreUserState_ok c run ps t c' : SimR c run ps → RestoreUserState t c = Ok c' →
  ∃ th, uthreads c !! t = Some th ∧ c' = set_machine (set_registers (userRegisters th) (machine c)) c.
Proof.
  intros HS E. unfold RestoreUserState in E. destruct (uthreads c !! t) as [th|] eqn:Et; [|done]. cbn [deref mbind res_bind] in E. exists th. split; [done|].
  unfold on_machine in E. pose proof (restore_loop_ok (userRegisters th) (si_saved _ _ _ HS t th Et) 40 0 (machine c) eq_refl (si_nregs _ _ _ HS) eq_refl) as EL.
  change (restore_loop 40 (Z.of_nat 0)) with (restore_loop (Z.to_nat NumTotalRegs) 0) in EL. rewrite EL in E. cbn in E. by injection E as <-.
Qed.

(** While no program runs, the registers do not matter. *)
Lemma Sim_registers c ps rs : SimR c None ps → length rs = 40%nat → SimR (set_machine (set_registers rs (machine c)) c) None ps.
Proof.
  intros HS Hl. split; try apply HS; [done| |].
  - intros x n p Ex. destruct (si_mine _ _ _ HS x n p Ex) as (sp&Es&[M1 M2 M3]). exists sp. split; [done|]. by split.
  - intros x n p [=].
Qed.

Lemma enter_sim c ps t c1 c2 : SimR c None ps → RestoreUserState t c = Ok c1 → RestoreState t c1 = Ok c2 → SimR (set_current t c2) (Some t) ps.
Proof.
  intros HS E1 E2. destruct (RestoreUserState_ok c None ps t c1 HS E1) as (th&Et&->). set (c1 := set_machine _ _) in *. pose proof (Sim_registers c ps (userRegisters th) HS (si_saved _ _ _ HS t th Et)) as HS1. fold c1 in HS1.
  pose proof (sync_Sim c1 None ps HS1) as HS2. destruct (sync_fields c1) as (Em&Ec&Eo). pose proof (sync_like c1 None ps HS1 t) as HL.
  unfold RestoreState, point_to in E2. rewrite (eq_refl : uthreads c1 !! t = uthreads c !! t), Et in HL. inversion HL as [? th' [L1 L2 L3 L4] F1 F2|]; subst x. rewrite <- F2 in E2. cbn [deref mbind res_bind] in E2.
  destruct (space th') as [sp|] eqn:Es; [|done]. cbn [deref mbind res_bind] in E2. unfold on_machine, AddrSpace.RestoreState, modify in E2. cbn [mbind res_bind] in E2. injection E2 as <-.
  apply (Sim_enter (sync c1) ps t sp (registers (machine (sync c1)))); [done|unfold space_of; rewrite <- F2; by cbn|apply HS2|].
  intros n p Ep. rewrite Em. cbn. destruct (si_parked _ _ _ HS t th n p ltac:(done) Ep Et) as [-> _]. done.
Qed.

(** A current thread that may be marked. *)
Lemma SimR_current c run ps t : SimR c run ps → SimR (set_current t c) run ps.
Proof.
  intros HS. split; try apply HS. intros x n p Ex. destruct (si_mine _ _ _ HS x n p Ex) as (sp&Es&[M1 M2 M3]). exists sp. split; [done|]. by split.
Qed.

Lemma Run_sim c ps t c' : Sim c ps → Run t c = Ok c' → Sim c' ps.
Proof.
  intros HS E. unfold Run in E. apply bind_Ok in E as (b&Eb&E). apply has_space_of in Eb. apply bind_Ok in E as (c1&E1&E).
  assert (∃ th rs, uthreads c !! currentThread c = Some th ∧ length rs = 40%nat ∧ (∀ n p, ps !! currentThread c = Some (n, p) → rs = registers p)
    ∧ uthreads c1 !! currentThread c = Some (set_userRegisters rs th) ∧ set_uthreads (<[currentThread c := set_begun (set_userRegisters rs th)]> (uthreads c1)) c1 = set_uthreads (<[currentThread c := set_begun (set_userRegisters rs th)]> (uthreads c)) c) as (th&rs&Eth&Hl&Hrs&Ec1&Ecc).
  { destruct b.
    - destruct (SaveUserState_ok c _ ps _ c1 HS E1) as (th&Eth&->). exists th, (registers (machine c)). split; [done|]. split; [apply HS|]. split; [intros n p Ep; by destruct (si_current _ _ _ HS _ n p eq_refl Ep)|].
      cbn. rewrite lookup_insert_eq. split; [done|]. unfold set_uthreads. cbn. by rewrite insert_insert_eq.
    - injection E1 as <-. apply bind_Ok in E as (th&Eth&E). destruct (uthreads c !! currentThread c) as [th0|] eqn:E0; [|done]. injection Eth as ->. exists th, (userRegisters th). split; [done|].
      split; [by apply (si_saved _ _ _ HS _ th E0)|]. split; [|split; [by destruct th|by destruct th]]. intros n p Ep. exfalso. destruct (si_mine _ _ _ HS _ n p Ep) as (sp&Es&_). rewrite Es in Eb. by rewrite bool_decide_eq_false_2 in Eb. }
  rewrite Ec1 in E. cbn [deref mbind res_bind] in E. rewrite Ecc in E.
  set (c2 := set_uthreads (<[currentThread c := set_begun (set_userRegisters rs th)]> (uthreads c)) c) in *.
  assert (HS2 : SimR c2 None ps) by (eapply (Sim_leave c ps (currentThread c) th); [done|done|done|done|done|]; intros n p Ep; split; [by eapply Hrs|done]).
  clear E1 Eb Ecc Ec1 c1. cbn [set_current uthreads] in E. destruct (uthreads c2 !! t) as [next|] eqn:En; [|done]. cbn [deref mbind res_bind] in E.
  destruct (begun next) eqn:Ebg.
  - apply bind_Ok in E as (b2&Eb2&E). destruct b2.
    + apply bind_Ok in E as (c3&E3&E). pose proof (SimR_current c2 None ps t HS2) as HS3. pose proof (enter_sim (set_current t c2) ps t c3 c' HS3 E3 E) as HS4.
      assert (Ecur : currentThread c' = t); [|unfold Sim; rewrite Ecur; clear -HS4 Ecur; destruct c'; cbn in *; by subst].
      destruct (RestoreUserState_ok _ None ps t c3 HS3 E3) as (x&_&->). unfold RestoreState, point_to in E. apply bind_Ok in E as (y&_&E). apply bind_Ok in E as (z&_&E). unfold on_machine, AddrSpace.RestoreState, modify in E. cbn in E. injection E as <-. cbn.
      match goal with |- currentThread (sync ?x) = _ => exact (proj1 (proj2 (sync_fields x))) end.
    + injection E as <-. unfold Sim. cbn. apply Sim_idle; [done|]. apply has_space_of in Eb2. destruct (ps !! t) as [[n p]|] eqn:Ep; [|done]. destruct (si_mine _ _ _ HS2 t n p Ep) as (sp&Es&_).
      rewrite (eq_refl : space_of (set_current t c2) t = space_of c2 t), Es in Eb2. by rewrite bool_decide_eq_false_2 in Eb2.
  - injection E as <-. unfold Sim. cbn. apply Sim_idle; [done|]. destruct (ps !! t) as [[n p]|] eqn:Ep; [|done]. destruct (si_parked _ _ _ HS2 t next n p ltac:(done) Ep En) as [_ Hb]. congruence.
Qed.

(** *** A program starts *)

Lemma Sim_start c ps t th sp n p :
  SimR c (Some t) ps → ps !! t = None → uthreads c !! t = Some th → space th = Some sp → AddrSpace.numPages sp = n → tableOf c = Some t → Shape (id_space n) p → registers (machine c) = registers p →
  (∀ va, mapped sp va → umem sp (machine c) va = umem (id_space n) p va) → SimR (set_uthreads (<[t := set_inUser th]> (uthreads c)) c) (Some t) (<[t := (n, p)]> ps).
Proof.
  intros HS Ep Eth Esp Hn Et Hp Hr Hu. assert (Hso : ∀ x, space_of (set_uthreads (<[t := set_inUser th]> (uthreads c)) c) x = space_of c x).
  { intros x. unfold space_of. cbn. destruct (decide (x = t)) as [->|Hne]; [by rewrite lookup_insert_eq, Eth|by rewrite lookup_insert_ne by done]. }
  split; try setoid_rewrite Hso; try apply HS; cbn [uthreads set_uthreads tableOf machine].
  - intros x y Ex. destruct (decide (x = t)) as [->|Hne]; [rewrite lookup_insert_eq in Ex; injection Ex as <-; by apply (si_saved _ _ _ HS t th)|]. rewrite lookup_insert_ne in Ex by done. by apply (si_saved _ _ _ HS x).
  - intros x. unfold user. cbn. destruct (decide (x = t)) as [->|Hne]; [rewrite !lookup_insert_eq; split; [by intros _; eexists|done]|]. rewrite !lookup_insert_ne by done. apply (si_dom _ _ _ HS x).
  - intros x n' q Ex. destruct (decide (x = t)) as [->|Hne].
    + rewrite lookup_insert_eq in Ex. injection Ex as <- <-. exists sp. split; [unfold space_of; by rewrite Eth|]. by split.
    + rewrite lookup_insert_ne in Ex by done. destruct (si_mine _ _ _ HS x n' q Ex) as (sp'&Es&[M1 M2 M3]). exists sp'. split; [done|]. by split.
  - intros x n' q [= <-] Ex. rewrite lookup_insert_eq in Ex. by injection Ex as <- <-.
  - intros x y n' q Hne Ex Ey. cbn in Ey. rewrite lookup_insert_ne in Ex by congruence. rewrite lookup_insert_ne in Ey by congruence. by eapply (si_parked _ _ _ HS x).
Qed.

Lemma execute_sim c ps sp c' : Sim c ps → ¬ user c (currentThread c) → space_of c (currentThread c) = Some sp → Execute (currentThread c) c = Ok c' →
  ∃ ps', AStep ps (EExecute (currentThread c) (AddrSpace.numPages sp) (umem sp (machine c))) ps' ∧ Sim c' ps'.
Proof.
  intros HS Hnu Es E. set (t := currentThread c) in *. assert (Ep : ps !! t = None) by (apply eq_None_not_Some; intros Hs; apply Hnu; by apply (si_dom _ _ _ HS)).
  pose proof (Sim_none c ps t HS Ep) as HS0. pose proof (sync_Sim c None ps HS0) as HS1. destruct (sync_fields c) as (Em&Ecur&_).
  destruct (like_space_l c (sync c) (sync_like c None ps HS0) t sp Es) as (sp1&Es1&HL). destruct (si_space _ _ _ HS t sp Es) as [Hok Hn]. pose proof (so_pages _ Hok) as Hnn.
  unfold Execute, point_to in E. unfold space_of in Es1. destruct (uthreads (sync c) !! t) as [th|] eqn:Eth; [|done]. cbn in Es1. cbn [deref mbind res_bind] in E. rewrite Es1 in E. cbn [deref mbind res_bind] in E.
  destruct (Execute_run sp1 (machine (sync c)) (si_nregs _ _ _ HS1)) as (m1&EX&Xr&Xm&Xt&Xp&Xs); [destruct HL as [<- _]; lia|]. unfold on_machine in E. rewrite EX in E. cbn in E. rewrite Eth in E. cbn in E. injection E as <-.
  assert (Hm1 : m1 = mkMachine (first_registers (AddrSpace.numPages sp1)) (mainMemory (machine (sync c))) (tlb (machine (sync c))) (Some (AddrSpace.pageTable sp1)) (AddrSpace.numPages sp1)) by (destruct m1; cbn in *; by subst).
  assert (Hfl : length (first_registers (AddrSpace.numPages sp1)) = 40%nat) by (unfold first_registers; by rewrite !length_insert).
  assert (Hsp1 : space_of (sync c) t = Some sp1) by (unfold space_of; by rewrite Eth).
  pose proof (Sim_enter (sync c) ps t sp1 (first_registers (AddrSpace.numPages sp1)) HS1 Hsp1 Hfl ltac:(congruence)) as HS2. rewrite <- Hm1 in HS2.
  assert (Hmap : ∀ va, mapped (id_space (AddrSpace.numPages sp)) va ↔ mapped sp va) by done.
  destruct (alone (AddrSpace.numPages sp) (first_registers (AddrSpace.numPages sp)) (umem sp (machine c)) (mainMemory (machine c))) as (p&P1&P2&P3&_); [lia|unfold first_registers; by rewrite !length_insert|apply HS|apply HS| |].
  { intros va Hva. by apply space_byte; [|apply HS..|]. }
  exists (<[t := (AddrSpace.numPages sp, p)]> ps). split; [by constructor|].
  assert (Ec' : currentThread (sync c) = t) by done. unfold Sim. cbn [currentThread set_uthreads set_tableOf set_machine]. rewrite Ec'. destruct HL as [HL1 HL2].
  replace (set_uthreads _ _) with (set_uthreads (<[t := set_inUser th]> (uthreads (sync c))) (mkCpu m1 t (Some t) (uthreads (sync c)))) by (unfold set_uthreads, set_tableOf, set_machine; cbn; by rewrite Ec').
  eapply (Sim_start (mkCpu m1 t (Some t) (uthreads (sync c)))); try done.
  - cbn. by rewrite Xr, P2, HL1.
  - intros va Hva. unfold umem at 1. cbn [machine]. rewrite Xm, Em, (like_view sp sp1) by (by split). symmetry. apply P3. unfold mapped in *. cbn. by rewrite HL1.
Qed.

(** *** Threads and memory come and go *)

Lemma create_sim c ps t so rs : Sim c ps → uthreads c !! t = None → new_space c so → length rs = 40%nat → Sim (set_uthreads (<[t := mkUThread so rs false false]> (uthreads c)) c) ps.
Proof.
  intros HS Et Hns Hl. assert (Hso : ∀ x sp, space_of (set_uthreads (<[t := mkUThread so rs false false]> (uthreads c)) c) x = Some sp → x = t ∧ so = Some sp ∨ x ≠ t ∧ space_of c x = Some sp).
  { intros x sp. unfold space_of. cbn. destruct (decide (x = t)) as [->|Hne]; [rewrite lookup_insert_eq; cbn; by left|rewrite lookup_insert_ne by done; by right]. }
  assert (Hold : ∀ x sp, space_of c x = Some sp → x ≠ t ∧ space_of (set_uthreads (<[t := mkUThread so rs false false]> (uthreads c)) c) x = Some sp).
  { intros x sp Ex. assert (x ≠ t) by (intros ->; unfold space_of in Ex; by rewrite Et in Ex). split; [done|]. unfold space_of. cbn. by rewrite lookup_insert_ne. }
  split; try apply HS; cbn [uthreads set_uthreads].
  - intros x th. destruct (decide (x = t)) as [->|Hne]; [rewrite lookup_insert_eq; by intros [= <-]|rewrite lookup_insert_ne by done; apply HS].
  - intros x sp Ex. apply Hso in Ex as [[-> ->]|[_ Ex]]; [by destruct Hns as (?&?&_)|by apply (si_space _ _ _ HS x)].
  - intros x y sp sp' f Ex Ey Hne Hf. apply Hso in Ex as [[-> ->]|[_ Ex]]; apply Hso in Ey as [[-> E2]|[_ Ey]]; try done.
    + destruct Hns as (_&_&Hd). by apply (Hd y sp').
    + subst so. destruct Hns as (_&_&Hd). intros Hf'. by apply (Hd x sp Ex f).
    + by apply (si_frames _ _ _ HS x y sp sp').
  - intros x Ex. destruct (si_table _ _ _ HS x Ex) as (sp&pt&Es&Hrest). exists sp, pt. split; [by apply Hold|done].
  - intros x. rewrite (si_dom _ _ _ HS x). unfold user. cbn. destruct (decide (x = t)) as [->|Hne]; [|by rewrite lookup_insert_ne by done]. rewrite lookup_insert_eq, Et. split; [by intros (?&?&_)|by intros (?&[= <-]&?)].
  - intros x n p Ex. destruct (si_mine _ _ _ HS x n p Ex) as (sp&Es&[M1 M2 M3]). exists sp. split; [by apply Hold|]. by split.
  - intros x th n p Hr Ex. destruct (decide (x = t)) as [->|Hne]; [|rewrite lookup_insert_ne by done; by eapply (si_parked _ _ _ HS x)].
    destruct (proj1 (si_dom _ _ _ HS t)) as (y&Ey&_); [by rewrite Ex|congruence].
Qed.

Lemma delete_sim c ps t : Sim c ps → t ≠ currentThread c →
  Sim (set_tableOf (if decide (tableOf c = Some t) then None else tableOf c) (set_uthreads (delete t (uthreads c)) c)) (delete t ps).
Proof.
  intros HS Hne. set (c' := set_tableOf _ _). assert (Hso : ∀ x sp, space_of c' x = Some sp ↔ x ≠ t ∧ space_of c x = Some sp).
  { intros x sp. unfold space_of, c'. cbn. destruct (decide (x = t)) as [->|Hx]; [rewrite lookup_delete_eq; split; [done|by intros [? _]]|rewrite lookup_delete_ne by done; tauto]. }
  split; try apply HS; cbn [uthreads set_uthreads set_tableOf c' tableOf].
  - intros x th Ex. apply lookup_delete_Some in Ex as [_ Ex]. by apply (si_saved _ _ _ HS x).
  - intros x sp Ex. apply Hso in Ex as [_ Ex]. by apply (si_space _ _ _ HS x).
  - intros x y sp sp' f Ex Ey. apply Hso in Ex as [_ Ex]. apply Hso in Ey as [_ Ey]. by apply (si_frames _ _ _ HS x y).
  - intros x Ex. unfold c' in Ex. cbn in Ex. case_decide as Hd; [done|]. destruct (si_table _ _ _ HS x Ex) as (sp&pt&Es&Hrest). exists sp, pt. split; [|done]. apply Hso. split; [congruence|done].
  - intros x. unfold user, c'. cbn. destruct (decide (x = t)) as [->|Hx]; [rewrite !lookup_delete_eq; split; [by intros [? ?]|by intros (?&?&_)]|]. rewrite !lookup_delete_ne by done. apply (si_dom _ _ _ HS x).
  - intros x n p Ex. apply lookup_delete_Some in Ex as [Hx Ex]. destruct (si_mine _ _ _ HS x n p Ex) as (sp&Es&[M1 M2 M3]). exists sp. split; [by apply Hso|]. by split.
  - intros x n p [= <-] Ex. apply lookup_delete_Some in Ex as [Hx Ex]. destruct (si_current _ _ _ HS _ n p eq_refl Ex) as [? Et]. split; [done|]. cbn. rewrite decide_False by (rewrite Et; congruence). done.
  - intros x th n p Hr Ex Ey. apply lookup_delete_Some in Ex as [_ Ex]. apply lookup_delete_Some in Ey as [_ Ey]. by eapply (si_parked _ _ _ HS x).
Qed.

Lemma memory_sim c ps mem : Sim c ps → length mem = length (mainMemory (machine c)) → bytes mem →
  (∀ t sp, user c t → space_of c t = Some sp → ∀ va, mapped sp va → view sp mem va = umem sp (machine c) va) → Sim (set_machine (set_mainMemory mem (machine c)) c) ps.
Proof.
  intros HS Hl Hb Hv. split; try apply HS; [cbn; rewrite Hl; apply HS|done|]. intros x n p Ex. destruct (si_mine _ _ _ HS x n p Ex) as (sp&Es&[M1 M2 M3]). exists sp. split; [done|]. split; [done|done|].
  intros va Hva. unfold umem at 1. cbn. rewrite (Hv x sp); [by apply M3| |done|done]. apply (si_dom _ _ _ HS). by rewrite Ex.
Qed.

Lemma step_sim c ps e c' : Sim c ps → Step c e c' → ∃ ps', AStep ps e ps' ∧ Sim c' ps'.
Proof.
  intros HS HT. destruct HT as [o m Hu Eo|sp rs u m Hu Es Ha|sp c' Hu Es E|t Hne|t c' E|t so rs Et Hn Hl|mem Hl Hb Hv].
  - by apply instr_sim.
  - by eapply kernel_sim.
  - by apply execute_sim.
  - eexists. split; [constructor|by apply delete_sim].
  - eexists. split; [constructor|by eapply Run_sim].
  - eexists. split; [constructor|by apply create_sim].
  - eexists. split; [constructor|by apply memory_sim].
Qed.

Lemma steps_sim c ps h c' : Sim c ps → Steps c h c' → ∃ ps', ASteps ps h ps' ∧ Sim c' ps'.
Proof.
  intros HS. induction 1 as [|h c1 e c2 _ IH HT]; [exists ps; split; [constructor|done]|]. destruct IH as (ps1&HA&HS1). destruct (step_sim c1 ps1 e c2 HS1 HT) as (ps2&HA2&HS2). exists ps2. split; [by econstructor|done].
Qed.

(** *** The start, and what a switch needs *)

(** One kernel thread, before the first user program. *)
Definition booted (pts : Z) (rs : list Z) c : Prop :=
  ∃ m, new_Machine pts = Ok m ∧ length rs = 40%nat ∧ c = mkCpu m 0 None {[0%nat := mkUThread None rs false false]}.

Lemma new_Machine_fields pts m : new_Machine pts = Ok m →
  length (registers m) = 40%nat ∧ tlb m = None ∧ Z.of_nat (length (mainMemory m)) = MemorySize ∧ bytes (mainMemory m).
Proof.
  unfold new_Machine. change CheckEndian with (Ok tt). cbn [mbind res_bind]. generalize (Z2Nat.id MemorySize ltac:(unfold MemorySize, NumPhysPages, PageSize; lia)).
  generalize (Z.to_nat MemorySize). intros n Hn [= <-]. cbn [registers tlb mainMemory]. split; [done|]. split; [done|]. split; [by rewrite length_replicate|apply zero_bytes].
Qed.

Lemma booted_Sim pts rs c : booted pts rs c → Sim c ∅.
Proof.
  intros (m&Em&Hl&->). destruct (new_Machine_fields pts m Em) as (F1&F2&F3&F4). clear Em. set (c := mkCpu _ _ _ _).
  assert (Hso : ∀ t sp, space_of c t ≠ Some sp).
  { intros t sp. unfold space_of, c. cbn. destruct (decide (t = 0%nat)) as [->|Hne]; [by rewrite lookup_singleton_eq|by rewrite lookup_singleton_ne]. }
  split; try done.
  - intros t th E. cbn in E. apply lookup_singleton_Some in E as [_ <-]. done.
  - intros t sp E. by apply Hso in E.
  - intros t t' sp sp' f E. by apply Hso in E.
  - intros t. split; [by intros [? ?]|]. intros (th&E&Hu). cbn in E. apply lookup_singleton_Some in E as [_ <-]. done.
Qed.

Lemma Run_total c ps t : Sim c ps → is_Some (uthreads c !! currentThread c) → is_Some (uthreads c !! t) → ∃ c', Run t c = Ok c'.
Proof.
  intros HS [old Eo] [next En]. unfold Run, has_space. rewrite Eo. cbn [deref mbind res_bind].
  assert (∃ c1 old1, (if negb (bool_decide (space old = None)) then SaveUserState (currentThread c) c else Ok c) = Ok c1 ∧ uthreads c1 = <[currentThread c := old1]> (uthreads c) ∧ machine c1 = machine c ∧ tableOf c1 = tableOf c ∧ space old1 = space old ∧ length (userRegisters old1) = 40%nat)
    as (c1&old1&->&Ets&Emc&Etb&Esp&Hlen).
  { destruct (negb _).
    - unfold SaveUserState. rewrite Eo. cbn [deref mbind res_bind]. unfold on_machine. pose proof (save_loop_ok (machine c) (si_nregs _ _ _ HS) 40 0 (userRegisters old) eq_refl (si_saved _ _ _ HS _ old Eo) eq_refl) as EL.
      change (save_loop 40 (Z.of_nat 0)) with (save_loop (Z.to_nat NumTotalRegs) 0) in EL. rewrite EL. eexists _, (set_userRegisters (registers (machine c)) old). split; [reflexivity|]. cbn. split; [done|]. split; [by destruct (machine c)|]. split; [done|]. split; [done|]. apply HS.
    - exists c, old. split; [done|]. split; [by rewrite insert_id|]. split_and!; try done. exact (si_saved _ _ _ HS _ _ Eo). }
  cbn [mbind res_bind]. rewrite Ets, lookup_insert_eq. cbn [deref mbind res_bind]. rewrite insert_insert_eq. cbn [set_uthreads set_current uthreads].
  set (ts := <[currentThread c := set_begun old1]> (uthreads c)). assert (∃ th, ts !! t = Some th ∧ length (userRegisters th) = 40%nat) as (th&Eth&Hl).
  { unfold ts. destruct (decide (t = currentThread c)) as [->|Hne]; [rewrite lookup_insert_eq; by eexists|rewrite lookup_insert_ne by done]. exists next. split; [done|]. by apply (si_saved _ _ _ HS t). }
  rewrite Eth. cbn [deref mbind res_bind]. destruct (begun th); [|by eexists]. destruct (space th) as [sp|] eqn:Es; cbn; [|by eexists].
  unfold RestoreUserState. fold ts. change (uthreads _) with ts. rewrite Eth. cbn [deref mbind res_bind]. unfold on_machine. cbn [machine set_current set_uthreads].
  pose proof (restore_loop_ok (userRegisters th) Hl 40 0 (machine c1) eq_refl ltac:(rewrite Emc; apply HS) eq_refl) as EL. change (restore_loop 40 (Z.of_nat 0)) with (restore_loop (Z.to_nat NumTotalRegs) 0) in EL. cbn [machine]. rewrite EL. cbn [mbind res_bind].
  unfold RestoreState, point_to. set (c3 := set_machine _ _). assert (∃ th' sp', uthreads (sync c3) !! t = Some th' ∧ space th' = Some sp') as (th'&sp'&E1&E2).
  { unfold sync. destruct (tableOf c3) as [o|]; [|by exists th, sp]. destruct (uthreads c3 !! o) as [tho|] eqn:E3; [|by exists th, sp]. destruct (pageTable (machine c3)) as [pt|]; [|by exists th, sp]. destruct (space tho) as [spo|] eqn:E4; [|by exists th, sp].
    cbn. destruct (decide (t = o)) as [->|Hne]; [rewrite lookup_insert_eq; by eexists _, _|rewrite lookup_insert_ne by done; by exists th, sp]. }
  rewrite E1. cbn [deref mbind res_bind]. rewrite E2. cbn. by eexists.
Qed.

(** System calls that return are such acts of the kernel. *)
Lemma Runs_Shape sp m : Runs sp m → Shape sp m.
Proof.
  intros [R1 R2 [W1 W2 W3 W4 W5 W6] R4 (pt&R5&R6)]. split; try done; [by exists pt|]. rewrite R4, R5 in W6. rewrite (so_pages _ R1), (Forall2_length _ _ _ R6). done.
Qed.

Lemma Returned_acts sp m r u m' : Returned sp m r u m' → ∃ pc, registers m !! 34%nat = Some pc ∧ acts sp m (ret_regs (registers m) r pc) u m'.
Proof. intros [R1 (pc&Hpc&R2) R3 R4]. exists pc. split; [done|]. split; [by apply Runs_Shape|done|done|done]. Qed.
End MultiprogSpec.

Import Machine MachineSpec Mips AddrSpaceSpec SyscallSpec Alike Multiprog MultiprogSpec.

(** C33 (refinement): user programs run as if each had a machine of its own.  Threads are
    created with address spaces that share no frames, run instructions, enter
    the kernel, are switched by Scheduler::Run in any order and are deleted.  For
    every such run there is a run of private machines with the same events: an
    instruction of a thread, with the exception it raises or none, is an
    instruction of its machine alone; what the kernel does for a thread happens
    to its machine alone; a switch changes none of them.  At the end the memory
    that each program sees is that of its machine, and its registers are in the
    processor if it is the current thread and in the thread otherwise.  A
    switch to a thread that exists never fails. *)
Theorem programs_run_alone (pts : Z) (rs : list Z) (c c' : Cpu) (h : list event) :
  booted pts rs c → Steps c h c' →
  (∃ ps : gmap nat (Z * Machine), ASteps ∅ h ps ∧ (∀ t, is_Some (ps !! t) ↔ user c' t)
     ∧ ∀ t n p, ps !! t = Some (n, p) → ∃ sp th, space_of c' t = Some sp ∧ uthreads c' !! t = Some th ∧ AddrSpace.numPages sp = n
         ∧ (∀ va, mapped sp va → umem sp (machine c') va = umem (id_space n) p va)
         ∧ (if decide (t = currentThread c') then registers (machine c') else userRegisters th) = registers p)
  ∧ ∀ t, is_Some (uthreads c' !! currentThread c') → is_Some (uthreads c' !! t) → ∃ c'', Run t c' = Ok c''.
Proof.
  intros HB HT. destruct (steps_sim c ∅ h c' (booted_Sim _ _ _ HB) HT) as (ps&HA&HS). split; [|intros t; by apply (Run_total c' ps t)].
  exists ps. split; [done|]. split; [apply HS|]. intros t n p E. destruct (si_mine _ _ _ HS t n p E) as (sp&Es&[_ M2 M3]).
  destruct (proj1 (si_dom _ _ _ HS t)) as (th&Eth&_); [by rewrite E|]. exists sp, th. split_and!; try done. case_decide as Hd.
  - subst t. exact (proj1 (si_current _ _ _ HS _ n p eq_refl E)).
  - eapply (si_parked _ _ _ HS t); [congruence|done|done].
Qed.

(** ** A program that is interrupted *)

(** The kernel thread 0 starts the program of two pages (no operations) as thread 1,
    which executes an instruction, is switched out, and executes another one. *)
Definition got (r : res Cpu) : Cpu := match r with Ok c => c | Err _ => mkCpu (mkMachine [] [] None None 0) 0 None ∅ end.
Definition ran (c : Cpu) : Cpu := match OneInstruction (machine c) with Ret _ m => set_machine m c | _ => c end.

Definition boot_machine : Machine := mkMachine (replicate 40 0) (replicate (Z.to_nat MemorySize) 0) None None 0.
Definition boot_cpu : Cpu := mkCpu boot_machine 0 None {[0%nat := mkUThread None (replicate 40 0) false false]}.

Definition run_1 : Cpu := set_uthreads (<[1%nat := mkUThread (Some user_space) (replicate 40 7) false false]> (uthreads boot_cpu)) boot_cpu.
Definition run_2 : Cpu := got (Run 1 run_1).
Definition run_3 : Cpu := got (Execute 1 run_2).
Definition run_4 : Cpu := ran run_3.
Definition run_5 : Cpu := got (Run 0 run_4).
Definition run_6 : Cpu := got (Run 1 run_5).
Definition run_7 : Cpu := ran run_6.

Lemma ran_step (c : Cpu) : inUser <$> (uthreads c !! currentThread c) = Some true → match OneInstruction (machine c) with Ret _ _ => true | _ => false end = true → Step c (EInstr (currentThread c) None) (ran c).
Proof.
  intros Hu HR. destruct (uthreads c !! currentThread c) as [th|] eqn:Et; [|discriminate Hu]. unfold ran. destruct (OneInstruction (machine c)) as [[] m| |] eqn:E; [|discriminate HR|discriminate HR].
  apply s_instr; [exists th; split; [exact Et|by injection Hu]|]. rewrite E. reflexivity.
Qed.

Lemma Run_step (t : nat) (c : Cpu) : match Run t c with Ok _ => true | Err _ => false end = true → Step c (ESwitch t) (got (Run t c)).
Proof. intros HR. destruct (Run t c) as [c'|] eqn:E; [|discriminate HR]. apply s_switch. exact E. Qed.

Lemma Execute_step (c : Cpu) (sp : AddrSpace.AddrSpace) :
  inUser <$> (uthreads c !! currentThread c) = Some false → space_of c (currentThread c) = Some sp → match Execute (currentThread c) c with Ok _ => true | Err _ => false end = true →
  Step c (EExecute (currentThread c) (AddrSpace.numPages sp) (umem sp (machine c))) (got (Execute (currentThread c) c)).
Proof.
  intros Hu Hs HR. destruct (Execute (currentThread c) c) as [c'|] eqn:E; [|discriminate HR]. eapply s_execute; [|exact Hs|exact E].
  intros (th&Et&Hi). rewrite Et in Hu. injection Hu as Hu. rewrite Hi in Hu. discriminate Hu.
Qed.

Definition short_run : list event := [EOther; ESwitch 1; EExecute 1 2 (umem user_space (machine run_2)); EInstr 1 None; ESwitch 0; ESwitch 1; EInstr 1 None].

Lemma short_run_steps : Steps boot_cpu short_run run_7.
Proof.
  assert (N1 : currentThread run_2 = 1%nat) by (vm_compute; reflexivity). assert (N3 : currentThread run_3 = 1%nat) by (vm_compute; reflexivity). assert (N6 : currentThread run_6 = 1%nat) by (vm_compute; reflexivity).
  unfold short_run. change [EOther; ESwitch 1; EExecute 1 2 (umem user_space (machine run_2)); EInstr 1 None; ESwitch 0; ESwitch 1; EInstr 1 None]
    with (((((((([] ++ [EOther]) ++ [ESwitch 1]) ++ [EExecute 1 2 (umem user_space (machine run_2))]) ++ [EInstr 1 None]) ++ [ESwitch 0]) ++ [ESwitch 1]) ++ [EInstr 1 None])).
  apply steps_snoc with run_6; [|rewrite <- N6; apply ran_step; vm_compute; reflexivity].
  apply steps_snoc with run_5; [|apply Run_step; vm_compute; reflexivity].
  apply steps_snoc with run_4; [|apply Run_step; vm_compute; reflexivity].
  apply steps_snoc with run_3; [|rewrite <- N3; apply ran_step; vm_compute; reflexivity].
  apply steps_snoc with run_2; [|unfold run_3; rewrite <- N1; apply (Execute_step run_2 user_space); vm_compute; reflexivity].
  apply steps_snoc with run_1; [|apply Run_step; vm_compute; reflexivity].
  apply steps_snoc with boot_cpu; [apply steps_nil|]. apply s_create; [reflexivity| |apply length_replicate].
  split; [exact user_space_ok|]. split; [vm_compute; discriminate|]. intros t sp. unfold space_of. cbn [boot_cpu uthreads]. destruct (decide (t = 0%nat)) as [->|Hne]; [rewrite lookup_singleton_eq; discriminate|rewrite lookup_singleton_ne by congruence; discriminate].
Qed.

Lemma programs_run_alone_witness :
  ∃ ps : gmap nat (Z * Machine), ASteps ∅ short_run ps ∧ ∃ p, ps !! 1%nat = Some (2, p) ∧ registers p !! 34%nat = Some 8.
Proof.
  assert (HB : booted 0 (replicate 40 0) boot_cpu) by (exists boot_machine; split; [reflexivity|split; [apply length_replicate|reflexivity]]).
  destruct (programs_run_alone 0 (replicate 40 0) boot_cpu run_7 short_run HB short_run_steps) as [(ps&HA&Hdom&Hps) _]. exists ps. split; [exact HA|].
  destruct (proj2 (Hdom 1%nat)) as [[n p] E].
  { assert (E : inUser <$> (uthreads run_7 !! 1%nat) = Some true) by (vm_compute; reflexivity). unfold user. destruct (uthreads run_7 !! 1%nat) as [th|]; [|discriminate E]. injection E as E. exists th. split; [reflexivity|exact E]. }
  destruct (Hps 1%nat n p E) as (sp&th&Hsp&_&Hn&_&Hr). assert (Es : AddrSpace.numPages <$> space_of run_7 1 = Some 2) by (vm_compute; reflexivity). rewrite Hsp in Es. injection Es as Es.
  assert (Ec : currentThread run_7 = 1%nat) by (vm_compute; reflexivity). rewrite decide_True in Hr by (symmetry; exact Ec).
  exists p. split; [rewrite E, <- Hn, Es; reflexivity|]. rewrite <- Hr. vm_compute. reflexivity.
Defined.
