(* ===== verification/CoffNoff.v ===== *)
(** coff2noff/coff2noff.c, coff.h and noff.h: the converter from the executables of
    the cross compiler (COFF) to those of Nachos (NOFF).

    The program is a function from the bytes of the COFF file to those of the
    NOFF file or to the message with which it exits; a small monad carries the
    positions in the two files, the header under construction and what is
    written.  It is compiled for 32 bits (Makefile), so that [long] has four
    bytes; RDATA is defined, as for the kernel, and the host is little-endian.
    [garbage] is what the stack holds where the header is not initialised.
    Writes to the output file succeed; the lines printed are not modelled. *)

From S2P Require Import Prelude BitmapLib Machine AddrSpace.
#[local] Open Scope list_scope.

Module CoffNoff.
Import AddrSpace.

(** ** coff.h *)

Definition MIPSELMAGIC : Z := 354.       (* 0x0162 *)
Definition OMAGIC : Z := 263.            (* 0407 *)

Record filehdr := mkFilehdr { f_magic : Z; f_nscns : Z }.
Record scnhdr := mkScnhdr { s_name : list Z; s_paddr : Z; s_size : Z; s_scnptr : Z }.

Definition sizeof_filehdr : Z := 20.
Definition sizeof_aouthdr : Z := 56.
Definition sizeof_scnhdr : Z := 40.

(** A [short] and a [long] of a structure, at an offset. *)
Definition short_at (l : list Z) (a : Z) : Z := le_decode (slice l a 2).
Definition long_at (l : list Z) (a : Z) : Z := s32 (le_decode (slice l a 4)).

(** Words and short words of the file; nothing happens on a little-endian host. *)
Definition WordToHost (word : Z) : Z := word.
Definition ShortToHost (shortword : Z) : Z := shortword.

Definition swap_segment (s : Segment) : Segment :=
  mkSegment (WordToHost (virtualAddr s)) (WordToHost (inFileAddr s)) (WordToHost (size s)).
Definition SwapHeader (h : NoffHeader) : NoffHeader :=
  mkNoffHeader (WordToHost (noffMagic h)) (swap_segment (code h)) (swap_segment (initData h))
    (swap_segment (readonlyData h)) (swap_segment (uninitData h)).

Definition decode_filehdr (l : list Z) : filehdr := mkFilehdr (short_at l 0) (short_at l 2).
Definition decode_scnhdr (l : list Z) : scnhdr := mkScnhdr (slice l 0 8) (WordToHost (long_at l 8)) (WordToHost (long_at l 16)) (WordToHost (long_at l 20)).

(** ** The converter *)

Inductive failure := TooShort | NotMipsel | NotOmagic | BothBss | UnknownSegment (name : list Z) | NoInput.

Inductive outcome (A : Type) := Value (a : A) | Exit (f : failure) | Broken (e : fault).
#[global] Arguments Value {A}.
#[global] Arguments Exit {A}.
#[global] Arguments Broken {A}.

(** The position in the input, the header, [inNoffFile], and the output file with
    the position in it. *)
Record Conv := mkConv { inPos : Z; noffH : NoffHeader; inNoffFile : Z; output : list Z; outPos : Z }.

Definition C (A : Type) : Type := Conv → outcome (A * Conv).
#[global] Instance C_ret : MRet C := λ A a s, Value (a, s).
#[global] Instance C_bind : MBind C := λ A B f c s,
  match c s with
  | Value (a, s) => f a s
  | Exit x => Exit x
  | Broken e => Broken e
  end.

Definition exit_with {A} (f : failure) : C A := λ _, Exit f.
Definition clift {A} (r : res A) : C A := λ s, match r with Ok a => Value (a, s) | Err e => Broken e end.
Definition getc {A} (f : Conv → A) : C A := λ s, Value (f s, s).
Definition setc (f : Conv → Conv) : C unit := λ s, Value (tt, f s).

Definition set_inPos (p : Z) (s : Conv) : Conv := mkConv p (noffH s) (inNoffFile s) (output s) (outPos s).
Definition set_noffH (h : NoffHeader) (s : Conv) : Conv := mkConv (inPos s) h (inNoffFile s) (output s) (outPos s).
Definition set_inNoffFile (n : Z) (s : Conv) : Conv := mkConv (inPos s) (noffH s) n (output s) (outPos s).
Definition set_output (o : list Z) (p : Z) (s : Conv) : Conv := mkConv (inPos s) (noffH s) (inNoffFile s) o p.

Definition set_code (seg : Segment) (h : NoffHeader) : NoffHeader := mkNoffHeader (noffMagic h) seg (initData h) (readonlyData h) (uninitData h).
Definition set_initData (seg : Segment) (h : NoffHeader) : NoffHeader := mkNoffHeader (noffMagic h) (code h) seg (readonlyData h) (uninitData h).
Definition set_readonlyData (seg : Segment) (h : NoffHeader) : NoffHeader := mkNoffHeader (noffMagic h) (code h) (initData h) seg (uninitData h).
Definition set_uninitData (seg : Segment) (h : NoffHeader) : NoffHeader := mkNoffHeader (noffMagic h) (code h) (initData h) (readonlyData h) seg.

(** strcmp: whether the strings are equal. *)
Fixpoint strcmp_eq (a b : list Z) : res bool :=
  match a, b with
  | x :: a, y :: b => if negb (x =? y) then Ok false else if x =? 0 then Ok true else strcmp_eq a b
  | _, _ => Err BadAccess
  end.

Definition dot_text : list Z := [46; 116; 101; 120; 116; 0].
Definition dot_data : list Z := [46; 100; 97; 116; 97; 0].
Definition dot_rdata : list Z := [46; 114; 100; 97; 116; 97; 0].
Definition dot_bss : list Z := [46; 98; 115; 115; 0].

Section CONVERT.
Variable coff : list Z.
Variable garbage : NoffHeader.

(** lseek to a negative position fails and nobody looks. *)
Definition seek_in (p : Z) : C unit := setc (λ s, if p <? 0 then s else set_inPos p s).

(** Read into a buffer of [nBytes]; malloc returns no buffer of a negative size. *)
Definition Read (nBytes : Z) : C (list Z) := λ s,
  if nBytes <? 0 then Broken BadAccess
  else
    let data := slice coff (inPos s) nBytes in
    if Z.of_nat (length data) =? nBytes then Value (data, set_inPos (inPos s + nBytes) s) else Exit TooShort.

(** A file is zero where it has been skipped. *)
Definition Write (data : list Z) : C unit := setc (λ s,
  let o := output s ++ replicate (Z.to_nat (outPos s) - length (output s)) 0 in
  set_output (splice o (outPos s) data) (outPos s + Z.of_nat (length data)) s).

Definition seek_out (p : Z) : C unit := setc (λ s, set_output (output s) p s).

(** Up to 65535 section headers. *)
Fixpoint split_sections (n : nat) (l : list Z) : list scnhdr :=
  match n with
  | O => []
  | S n => decode_scnhdr (take (Z.to_nat sizeof_scnhdr) l) :: split_sections n (drop (Z.to_nat sizeof_scnhdr) l)
  end.

(** A segment that is copied: its entry of the header is [set]. *)
Definition copy_section (s : scnhdr) (set : Segment → NoffHeader → NoffHeader) : C unit :=
  at_ ← getc inNoffFile;
  h ← getc noffH;
  setc (set_noffH (set (mkSegment (s_paddr s) at_ (s_size s)) h)) ;;
  seek_in (s_scnptr s) ;;
  buffer ← Read (s_size s);
  Write buffer ;;
  setc (set_inNoffFile (s32 (at_ + s_size s))).

Definition bss_section (s : scnhdr) : C unit :=
  h ← getc noffH;
  let u := uninitData h in
  if negb (size u =? 0) then
    if s_paddr s =? s32 (virtualAddr u + size u) then exit_with BothBss
    else setc (set_noffH (set_uninitData (mkSegment (virtualAddr u) (inFileAddr u) (s32 (size u + s_size s))) h))
  else setc (set_noffH (set_uninitData (mkSegment (s_paddr s) (inFileAddr u) (s_size s)) h)).

Definition do_section (s : scnhdr) : C unit :=
  if s_size s =? 0 then mret tt
  else
    text ← clift (strcmp_eq (s_name s) dot_text);
    if (text : bool) then copy_section s set_code else
    data ← clift (strcmp_eq (s_name s) dot_data);
    if (data : bool) then copy_section s set_initData else
    rdata ← clift (strcmp_eq (s_name s) dot_rdata);
    if (rdata : bool) then copy_section s set_readonlyData else
    bss ← clift (strcmp_eq (s_name s) dot_bss);
    if (bss : bool) then bss_section s else exit_with (UnknownSegment (s_name s)).

Fixpoint do_sections (l : list scnhdr) : C unit :=
  match l with
  | [] => mret tt
  | s :: l => do_section s ;; do_sections l
  end.

(** The header before the sections: magic number and sizes. *)
Definition empty_segment (seg : Segment) : Segment := mkSegment (virtualAddr seg) (inFileAddr seg) 0.
Definition first_header : NoffHeader :=
  mkNoffHeader NOFFMAGIC (empty_segment (code garbage)) (empty_segment (initData garbage)) (empty_segment (readonlyData garbage)) (empty_segment (uninitData garbage)).

Definition encode_segment (seg : Segment) : list Z := words_encode [virtualAddr seg; inFileAddr seg; size seg].
Definition encode_header (h : NoffHeader) : list Z :=
  words_encode [noffMagic h] ++ encode_segment (code h) ++ encode_segment (initData h) ++ encode_segment (readonlyData h) ++ encode_segment (uninitData h).

Definition convert : C unit :=
  b ← Read sizeof_filehdr;
  let fileh := decode_filehdr b in
  if negb (ShortToHost (f_magic fileh) =? MIPSELMAGIC) then exit_with NotMipsel else
  b ← Read sizeof_aouthdr;
  if negb (ShortToHost (short_at b 0) =? OMAGIC) then exit_with NotOmagic else
  let numsections := ShortToHost (f_nscns fileh) in
  b ← Read (numsections * sizeof_scnhdr);
  let sections := split_sections (Z.to_nat numsections) b in
  setc (set_noffH first_header) ;;
  setc (set_inNoffFile sizeof_NoffHeader) ;;
  seek_out sizeof_NoffHeader ;;
  do_sections sections ;;
  seek_out 0 ;;
  h ← getc noffH;
  Write (encode_header (SwapHeader h)).
End CONVERT.

(** The files before: the output is empty.  [None] is an input that cannot be opened. *)
Definition coff2noff (input : option (list Z)) (garbage : NoffHeader) : outcome (list Z) :=
  match input with
  | None => Exit NoInput
  | Some coff =>
    match convert coff garbage (mkConv 0 garbage 0 [] 0) with
    | Value (_, s) => Value (output s)
    | Exit f => Exit f
    | Broken e => Broken e
    end
  end.
End CoffNoff.

Module CoffNoffSpec.
Import AddrSpace AddrSpaceSpec MachineSpec CoffNoff.
Implicit Types (s : scnhdr) (ss : list scnhdr) (st : Conv) (body : list Z) (h : NoffHeader).

(** ** What the sections mean *)

Inductive kind := KText | KData | KRdata | KBss | KEmpty | KOther.

#[global] Instance kind_eq_dec : EqDecision kind.
Proof. solve_decision. Defined.

Definition name_is s (lit : list Z) : bool := bool_decide (take (length lit) (s_name s) = lit).

Definition kind_of s : kind :=
  if s_size s =? 0 then KEmpty
  else if name_is s dot_text then KText
  else if name_is s dot_data then KData
  else if name_is s dot_rdata then KRdata
  else if name_is s dot_bss then KBss
  else KOther.

Definition of_kind (k : kind) ss : list scnhdr := filter (λ s, kind_of s = k) ss.
Definition sum_sizes ss : Z := foldr (λ s n, s_size s + n) 0 ss.

(** Sections of a linker: eight characters of name, sizes and positions that are not negative. *)
Record Good s : Prop := {
  go_name : length (s_name s) = 8%nat;
  go_size : 0 ≤ s_size s;
  go_ptr : 0 ≤ s_scnptr s;
  go_paddr : is_s32 (s_paddr s)
}.

(** Why the converter gives up at a section, behind those in [ss]. *)
Definition problem (coff : list Z) ss s : option failure :=
  match kind_of s with
  | KText | KData | KRdata => if Z.of_nat (length coff) <? s_scnptr s + s_size s then Some TooShort else None
  | KBss =>
    match of_kind KBss ss with
    | s0 :: l => if s_paddr s =? s32 (s_paddr s0 + sum_sizes (s0 :: l)) then Some BothBss else None
    | [] => None
    end
  | KEmpty => None
  | KOther => Some (UnknownSegment (s_name s))
  end.

Fixpoint first_problem (coff : list Z) ss (todo : list scnhdr) : option failure :=
  match todo with
  | [] => None
  | s :: todo => match problem coff ss s with Some f => Some f | None => first_problem coff (ss ++ [s]) todo end
  end.

(** A segment of the header, for the last section of its kind; [body] is the file
    behind the header. *)
Definition copied (coff body : list Z) (o : option scnhdr) (seg : Segment) : Prop :=
  match o with
  | None => size seg = 0 ∧ is_s32 (virtualAddr seg) ∧ is_s32 (inFileAddr seg)
  | Some s => virtualAddr seg = s_paddr s ∧ size seg = s_size s ∧ sizeof_NoffHeader ≤ inFileAddr seg
      ∧ inFileAddr seg + size seg ≤ sizeof_NoffHeader + Z.of_nat (length body)
      ∧ slice body (inFileAddr seg - sizeof_NoffHeader) (size seg) = slice coff (s_scnptr s) (s_size s) ∧ is_s32 (s_paddr s) ∧ 0 < s_size s
  end.

Definition uninitialised (l : list scnhdr) (seg : Segment) : Prop :=
  match l with
  | [] => size seg = 0 ∧ is_s32 (virtualAddr seg)
  | s :: _ => virtualAddr seg = s_paddr s ∧ size seg = sum_sizes l ∧ is_s32 (s_paddr s)
  end ∧ is_s32 (inFileAddr seg).

Record Header (coff : list Z) ss h body : Prop := {
  hd_magic : noffMagic h = NOFFMAGIC;
  hd_code : copied coff body (last (of_kind KText ss)) (code h);
  hd_init : copied coff body (last (of_kind KData ss)) (initData h);
  hd_ro : copied coff body (last (of_kind KRdata ss)) (readonlyData h);
  hd_bss : uninitialised (of_kind KBss ss) (uninitData h)
}.

Record Inv (coff : list Z) ss st body : Prop := {
  iv_header : Header coff ss (noffH st) body;
  iv_pos : outPos st = sizeof_NoffHeader + Z.of_nat (length body);
  iv_in : inNoffFile st = sizeof_NoffHeader + Z.of_nat (length body);
  iv_out : output st = [] ∧ body = [] ∨ output st = replicate 52 0 ++ body;
  iv_total : Z.of_nat (length body) + sum_sizes (of_kind KBss ss) ≤ sum_sizes ss;
  iv_good : Forall Good ss;
  iv_bytes : bytes coff → bytes body
}.

(** ** Strings *)

Lemma strcmp_eq_ok l : 0 ∉ l → ∀ a, (length l < length a)%nat → strcmp_eq a (l ++ [0]) = Ok (bool_decide (take (length (l ++ [0])) a = l ++ [0])).
Proof.
  induction l as [|c l IH]; intros Hz a Hl; (destruct a as [|x a]; [cbn in Hl; lia|]); cbn [strcmp_eq app length take].
  - destruct (Z.eqb_spec x 0) as [->|Hne]; cbn [negb]; [by rewrite bool_decide_eq_true_2|]. rewrite bool_decide_eq_false_2; [done|congruence].
  - apply not_elem_of_cons in Hz as [Hc Hz]. destruct (Z.eqb_spec x c) as [->|Hne]; cbn [negb]; [|rewrite bool_decide_eq_false_2; [done|congruence]].
    rewrite (proj2 (Z.eqb_neq c 0)) by congruence. rewrite IH by (done || (cbn in Hl; lia)). f_equal. apply bool_decide_ext. split; [by intros ->|by intros [= ->]].
Qed.

Lemma name_ok s lit l : Good s → lit = l ++ [0] → 0 ∉ l → (length l < 8)%nat → strcmp_eq (s_name s) lit = Ok (name_is s lit).
Proof. intros HG -> Hz Hl. apply strcmp_eq_ok; [done|by rewrite (go_name _ HG)]. Qed.

Lemma do_section_kind coff s st : Good s →
  do_section coff s st = match kind_of s with
    | KEmpty => Value (tt, st)
    | KText => copy_section coff s set_code st
    | KData => copy_section coff s set_initData st
    | KRdata => copy_section coff s set_readonlyData st
    | KBss => bss_section s st
    | KOther => Exit (UnknownSegment (s_name s))
    end.
Proof.
  intros HG. unfold do_section, kind_of. destruct (s_size s =? 0); [done|]. unfold mbind, C_bind, clift.
  rewrite (name_ok s dot_text [46; 116; 101; 120; 116]); [|done|done|by apply (bool_decide_eq_false_1 (0 ∈ _))|cbn; lia]. destruct (name_is s dot_text); [done|].
  rewrite (name_ok s dot_data [46; 100; 97; 116; 97]); [|done|done|by apply (bool_decide_eq_false_1 (0 ∈ _))|cbn; lia]. destruct (name_is s dot_data); [done|].
  rewrite (name_ok s dot_rdata [46; 114; 100; 97; 116; 97]); [|done|done|by apply (bool_decide_eq_false_1 (0 ∈ _))|cbn; lia]. destruct (name_is s dot_rdata); [done|].
  rewrite (name_ok s dot_bss [46; 98; 115; 115]); [|done|done|by apply (bool_decide_eq_false_1 (0 ∈ _))|cbn; lia]. by destruct (name_is s dot_bss).
Qed.

(** ** Copying *)

Lemma slice_app_l (l l' : list Z) a n : 0 ≤ a → a + n ≤ Z.of_nat (length l) → slice (l ++ l') a n = slice l a n.
Proof. intros Ha Hl. apply list_eq. intros i. rewrite !lookup_slice by done. case_decide; [|done]. by rewrite lookup_app_l by lia. Qed.

Lemma slice_app_r (l l' : list Z) a n : Z.of_nat (length l) ≤ a → slice (l ++ l') a n = slice l' (a - Z.of_nat (length l)) n.
Proof. intros Ha. unfold slice. rewrite drop_app_ge by lia. do 2 f_equal. lia. Qed.

Lemma slice_all (l : list Z) n : n = Z.of_nat (length l) → slice l 0 n = l.
Proof. intros ->. unfold slice. rewrite Nat2Z.id. change (Z.to_nat 0) with 0%nat. rewrite drop_0. by apply take_ge. Qed.

(** What is written behind the end. *)
Lemma Write_end coff ss st body data :
  Inv coff ss st body → ∃ o, Write data st = Value (tt, set_output o (outPos st + Z.of_nat (length data)) st) ∧ o = replicate 52 0 ++ body ++ data.
Proof.
  intros [_ Hp _ Ho _ _ _]. unfold Write, setc. eexists. split; [reflexivity|]. unfold sizeof_NoffHeader in Hp.
  assert (E : output st ++ replicate (Z.to_nat (outPos st) - length (output st)) 0 = replicate 52 0 ++ body).
  { destruct Ho as [[-> ->]| ->].
    - rewrite Hp. cbn [length app]. rewrite app_nil_r. f_equal.
    - rewrite length_app, length_replicate. replace (Z.to_nat (outPos st) - (52 + length body))%nat with 0%nat by lia. by rewrite app_nil_r. }
  rewrite E. unfold splice. rewrite take_ge, drop_ge by (rewrite ?length_app, ?length_replicate; lia). by rewrite app_nil_r, <- app_assoc.
Qed.

Lemma copied_grow coff body more o seg : copied coff body o seg → copied coff (body ++ more) o seg.
Proof.
  destruct o as [s|]; [|done]. intros (A1&A2&A3&A4&A5&A6). cbn. split; [done|]. split; [done|]. split; [done|]. split; [rewrite length_app; lia|]. split; [|done].
  rewrite <- A5. apply slice_app_l; lia.
Qed.

Lemma last_of_kind k ss s : last (of_kind k (ss ++ [s])) = if decide (kind_of s = k) then Some s else last (of_kind k ss).
Proof.
  unfold of_kind. rewrite filter_app, filter_cons, filter_nil. case_decide; [apply last_snoc|by rewrite app_nil_r].
Qed.
Lemma of_kind_snoc k ss s : of_kind k (ss ++ [s]) = of_kind k ss ++ (if decide (kind_of s = k) then [s] else []).
Proof. unfold of_kind. by rewrite filter_app, filter_cons, filter_nil. Qed.

Lemma copy_ok coff ss st body s set :
  Inv coff ss st body → Good s → s_size s ≠ 0 → sizeof_NoffHeader + Z.of_nat (length body) + s_size s < halfword →
  copy_section coff s set st =
    if Z.of_nat (length coff) <? s_scnptr s + s_size s then Exit TooShort
    else Value (tt, mkConv (s_scnptr s + s_size s) (set (mkSegment (s_paddr s) (inNoffFile st) (s_size s)) (noffH st)) (inNoffFile st + s_size s)
      (replicate 52 0 ++ body ++ slice coff (s_scnptr s) (s_size s)) (outPos st + s_size s)).
Proof.
  intros HI [G1 G2 G3 G4] Hnz Hb. pose proof (iv_in _ _ _ _ HI) as Hin. unfold copy_section, seek_in, getc, setc, mbind, C_bind. cbn beta iota.
  rewrite (proj2 (Z.ltb_ge _ 0)) by done. unfold Read. rewrite (proj2 (Z.ltb_ge (s_size s) 0)) by done. cbn [inPos set_inPos set_noffH].
  assert (Hlen : Z.of_nat (length (slice coff (s_scnptr s) (s_size s))) = Z.min (s_size s) (Z.max 0 (Z.of_nat (length coff) - s_scnptr s))).
  { unfold slice. rewrite length_take, length_drop. lia. }
  destruct (Z.ltb_spec (Z.of_nat (length coff)) (s_scnptr s + s_size s)) as [Hs|Hs].
  - by rewrite (proj2 (Z.eqb_neq _ _)) by lia.
  - rewrite (proj2 (Z.eqb_eq _ _)) by lia. set (st1 := set_inPos _ _).
    destruct (Write_end coff ss (mkConv (inPos st1) (noffH st) (inNoffFile st) (output st) (outPos st)) body (slice coff (s_scnptr s) (s_size s))) as (o&Ew&Eo); [destruct HI; by split|].
    unfold Write, setc in Ew |- *. cbn [output outPos set_noffH set_inPos st1 set_output set_inNoffFile inPos inNoffFile noffH] in Ew |- *. injection Ew as Ew. rewrite Ew, Eo.
    unfold set_inNoffFile. cbn [inPos noffH output outPos set_output]. f_equal. f_equal. rewrite s32_id by (unfold_int; unfold sizeof_NoffHeader, halfword in *; lia). f_equal. lia.
Qed.

Lemma sum_sizes_app l l' : sum_sizes (l ++ l') = sum_sizes l + sum_sizes l'.
Proof. induction l as [|s l IH]; cbn [app sum_sizes foldr]; [done|]. fold (sum_sizes (l ++ l')). rewrite IH. fold (sum_sizes l). lia. Qed.

Lemma good_nonneg l : Forall Good l → 0 ≤ sum_sizes l.
Proof. induction 1 as [|s l [_ ? _ _] _ IH]; [done|]. cbn [sum_sizes foldr]. fold (sum_sizes l). lia. Qed.

Lemma good_of_kind k ss : Forall Good ss → Forall Good (of_kind k ss).
Proof. rewrite !Forall_forall. intros HF s Hs. apply list_elem_of_filter in Hs as [_ Hs]. auto. Qed.

Lemma of_kind_nonneg k ss : Forall Good ss → 0 ≤ sum_sizes (of_kind k ss).
Proof. intros HF. by apply good_nonneg, good_of_kind. Qed.

Lemma copied_new coff body s : Good s → s_size s ≠ 0 → s_scnptr s + s_size s ≤ Z.of_nat (length coff) →
  copied coff (body ++ slice coff (s_scnptr s) (s_size s)) (Some s) (mkSegment (s_paddr s) (sizeof_NoffHeader + Z.of_nat (length body)) (s_size s)).
Proof.
  intros [G1 G2 G3 G4] Hs Hl. cbn [copied virtualAddr inFileAddr size]. assert (Hlen : Z.of_nat (length (slice coff (s_scnptr s) (s_size s))) = s_size s) by (rewrite length_slice by lia; lia).
  split; [done|]. split; [done|]. split; [lia|]. split; [rewrite length_app; lia|]. split; [|split; [done|lia]]. rewrite slice_app_r by lia.
  replace (_ - _ - _) with 0 by lia. by apply slice_all.
Qed.

Lemma kind_size s k : kind_of s = k → k ≠ KEmpty → s_size s ≠ 0.
Proof. unfold kind_of. destruct (Z.eqb_spec (s_size s) 0); [|done]. by intros <-. Qed.

(** The other kinds are as before. *)
Ltac other_kinds Hk := rewrite ?last_of_kind, ?of_kind_snoc, ?Hk; rewrite ?decide_False by done; rewrite ?app_nil_r.

Lemma copied_section coff ss st body s set k :
  Inv coff ss st body → Good s → kind_of s = k → sizeof_NoffHeader + sum_sizes (ss ++ [s]) < halfword →
  (k = KText ∧ set = set_code ∨ k = KData ∧ set = set_initData ∨ k = KRdata ∧ set = set_readonlyData) → s_scnptr s + s_size s ≤ Z.of_nat (length coff) →
  ∃ st' body', copy_section coff s set st = Value (tt, st') ∧ Inv coff (ss ++ [s]) st' body'.
Proof.
  intros HI HG Hk Hb Hset Hl. assert (Hnz : s_size s ≠ 0) by (eapply (kind_size s k); [done|]; by intros ->; destruct Hset as [[? _]|[[? _]|[? _]]]).
  pose proof HI as [[H1 H2 H3 H4 H5] Hp Hin Ho Ht Hg Hby]. rewrite sum_sizes_app in Hb. cbn [sum_sizes foldr] in Hb.
  pose proof (of_kind_nonneg KBss ss Hg) as Hge.
  rewrite (copy_ok coff ss st body s set HI HG Hnz) by lia. rewrite (proj2 (Z.ltb_ge _ _)) by lia.
  eexists _, (body ++ slice coff (s_scnptr s) (s_size s)). split; [reflexivity|]. rewrite Hin.
  pose proof (copied_new coff body s HG Hnz Hl) as Hnew. assert (Hlen : Z.of_nat (length (slice coff (s_scnptr s) (s_size s))) = s_size s) by (destruct HG; rewrite length_slice by lia; lia).
  split; cbn [noffH outPos inNoffFile output].
  - destruct Hset as [[-> ->]|[[-> ->]|[-> ->]]]; split; cbn [noffMagic code initData readonlyData uninitData set_code set_initData set_readonlyData]; try done; other_kinds Hk; try (by apply copied_grow); try done; by rewrite decide_True.
  - rewrite Hp, length_app. lia.
  - rewrite length_app. lia.
  - right. done.
  - rewrite length_app, sum_sizes_app, of_kind_snoc. rewrite decide_False by (destruct Hset as [[-> _]|[[-> _]|[-> _]]]; congruence). rewrite app_nil_r. cbn [sum_sizes foldr]. lia.
  - by apply Forall_app_2, Forall_singleton.
  - intros Hc. apply Forall_app_2; [by apply Hby|by apply slice_Forall].
Qed.

Lemma bss_ok coff ss st body s :
  Inv coff ss st body → Good s → kind_of s = KBss → sizeof_NoffHeader + sum_sizes (ss ++ [s]) < halfword →
  match problem coff ss s with
  | Some f => bss_section s st = Exit f
  | None => ∃ st', bss_section s st = Value (tt, st') ∧ Inv coff (ss ++ [s]) st' body
  end.
Proof.
  intros HI HG Hk Hb. assert (Hnz : s_size s ≠ 0) by (by eapply (kind_size s KBss)). pose proof HI as [[H1 H2 H3 H4 H5] Hp Hin Ho Ht Hg Hby]. rewrite sum_sizes_app in Hb. cbn [sum_sizes foldr] in Hb.
  assert (Hnew : ∀ u, uninitialised (of_kind KBss ss ++ [s]) u → Inv coff (ss ++ [s]) (set_noffH (set_uninitData u (noffH st)) st) body).
  { intros u Hu. split; cbn [noffH outPos inNoffFile output set_noffH]; try done; [|rewrite sum_sizes_app, of_kind_snoc, Hk, decide_True, sum_sizes_app by done; cbn [sum_sizes foldr]; lia|by apply Forall_app_2, Forall_singleton].
    split; cbn [noffMagic code initData readonlyData uninitData set_uninitData]; other_kinds Hk; try done; by rewrite decide_True. }
  unfold problem, bss_section, getc, setc, mbind, C_bind. rewrite Hk. destruct H5 as [H5 Hif]. destruct HG as [G1 G2 G3 G4]. destruct (of_kind KBss ss) as [|s0 l] eqn:El.
  - destruct H5 as [-> _]. cbn [negb Z.eqb]. eexists. split; [reflexivity|]. apply Hnew. cbn [app uninitialised sum_sizes foldr virtualAddr inFileAddr size]. split; [|done]. split; [done|]. split; [cbn -[Z.add]; lia|done].
  - destruct H5 as (Ev&Es&H0). assert (Hpos : 0 < sum_sizes (s0 :: l)).
    { assert (Hin0 : s0 ∈ of_kind KBss ss) by (rewrite El; by left). apply list_elem_of_filter in Hin0 as [K0 Hin0]. pose proof (kind_size s0 KBss K0 ltac:(done)). pose proof (proj1 (Forall_forall _ _) Hg s0 Hin0) as [_ ? _ _].
      pose proof (good_of_kind KBss ss Hg) as HFl. rewrite El in HFl. apply Forall_cons in HFl as [_ HFl]. apply good_nonneg in HFl. cbn [sum_sizes foldr]. fold (sum_sizes l). lia. }
    rewrite (proj2 (Z.eqb_neq _ 0)) by lia. cbn [negb]. rewrite Ev, Es. destruct (s_paddr s =? s32 (s_paddr s0 + sum_sizes (s0 :: l))); [done|].
    eexists. split; [reflexivity|]. apply Hnew. split; [|done]. cbn [app]. split; [done|]. cbn [size]. rewrite s32_id by (unfold_int; unfold sizeof_NoffHeader in *; lia). change (s0 :: l ++ [s]) with ((s0 :: l) ++ [s]). rewrite (sum_sizes_app (s0 :: l) [s]). split; [cbn; lia|done].
Qed.

Lemma section_ok coff ss st body s :
  Inv coff ss st body → Good s → sizeof_NoffHeader + sum_sizes (ss ++ [s]) < halfword →
  match problem coff ss s with
  | Some f => do_section coff s st = Exit f
  | None => ∃ st' body', do_section coff s st = Value (tt, st') ∧ Inv coff (ss ++ [s]) st' body'
  end.
Proof.
  intros HI HG Hb. rewrite do_section_kind by done.
  assert (Hcopy : ∀ set k, kind_of s = k → (k = KText ∧ set = set_code ∨ k = KData ∧ set = set_initData ∨ k = KRdata ∧ set = set_readonlyData) →
    match (if Z.of_nat (length coff) <? s_scnptr s + s_size s then Some TooShort else None) with
    | Some f => copy_section coff s set st = Exit f
    | None => ∃ st' body', copy_section coff s set st = Value (tt, st') ∧ Inv coff (ss ++ [s]) st' body'
    end).
  { intros set k Hk Hset. destruct (Z.ltb_spec (Z.of_nat (length coff)) (s_scnptr s + s_size s)) as [Hl|Hl]; [|by eapply copied_section].
    assert (Hnz : s_size s ≠ 0) by (eapply (kind_size s k); [done|]; by intros ->; destruct Hset as [[? _]|[[? _]|[? _]]]).
    pose proof (of_kind_nonneg KBss ss (iv_good _ _ _ _ HI)). pose proof (iv_total _ _ _ _ HI). rewrite sum_sizes_app in Hb. cbn [sum_sizes foldr] in Hb.
    rewrite (copy_ok coff ss st body s set HI HG Hnz) by lia. by rewrite (proj2 (Z.ltb_lt _ _)). }
  pose proof (bss_ok coff ss st body s HI HG) as Hbss. unfold problem in *. destruct (kind_of s) eqn:Hk.
  - apply (Hcopy set_code KText); auto.
  - apply (Hcopy set_initData KData); auto.
  - apply (Hcopy set_readonlyData KRdata); auto.
  - specialize (Hbss eq_refl Hb). destruct (match of_kind KBss ss with [] => None | _ => _ end); [done|]. destruct Hbss as (st'&E&HI'). by exists st', body.
  - exists st, body. split; [done|]. destruct HI as [[H1 H2 H3 H4 H5] Hp Hin Ho Ht Hg Hby]. split; try done.
    + split; other_kinds Hk; done.
    + rewrite sum_sizes_app. other_kinds Hk. destruct HG. cbn [sum_sizes foldr]. lia.
    + by apply Forall_app_2, Forall_singleton.
  - done.
Qed.

Lemma sections_ok coff : ∀ todo ss st body, Inv coff ss st body → Forall Good todo → sizeof_NoffHeader + sum_sizes (ss ++ todo) < halfword →
  match first_problem coff ss todo with
  | Some f => do_sections coff todo st = Exit f
  | None => ∃ st' body', do_sections coff todo st = Value (tt, st') ∧ Inv coff (ss ++ todo) st' body'
  end.
Proof.
  induction todo as [|s todo IH]; intros ss st body HI HG Hb; cbn [first_problem do_sections]; [exists st, body; by rewrite app_nil_r|].
  apply Forall_cons in HG as [Hs HG]. pose proof (good_nonneg todo HG) as Hrest.
  change (s :: todo) with ([s] ++ todo) in Hb. rewrite app_assoc in Hb. assert (Hb1 : sizeof_NoffHeader + sum_sizes (ss ++ [s]) < halfword) by (rewrite sum_sizes_app in Hb; lia).
  pose proof (section_ok coff ss st body s HI Hs Hb1) as Hsec. unfold mbind, C_bind. destruct (problem coff ss s) as [f|]; [by rewrite Hsec|].
  destruct Hsec as (st1&body1&->&HI1). specialize (IH (ss ++ [s]) st1 body1 HI1 HG Hb). destruct (first_problem coff (ss ++ [s]) todo); [done|]. by rewrite <- app_assoc in IH.
Qed.

(** ** The file as a whole *)

Definition sections (coff : list Z) : list scnhdr :=
  let n := f_nscns (decode_filehdr (slice coff 0 sizeof_filehdr)) in
  split_sections (Z.to_nat n) (slice coff (sizeof_filehdr + sizeof_aouthdr) (n * sizeof_scnhdr)).

(** Why a file is refused, in the order of the tests. *)
Definition refused (coff : list Z) : option failure :=
  let len := Z.of_nat (length coff) in
  if len <? 20 then Some TooShort
  else if negb (short_at coff 0 =? MIPSELMAGIC) then Some NotMipsel
  else if len <? 76 then Some TooShort
  else if negb (short_at coff 20 =? OMAGIC) then Some NotOmagic
  else if len <? 76 + short_at coff 2 * 40 then Some TooShort
  else first_problem coff [] (sections coff).

Lemma slice_slice (l : list Z) a n b k : 0 ≤ a → 0 ≤ b → b + k ≤ n → slice (slice l a n) b k = slice l (a + b) k.
Proof.
  intros Ha Hb Hk. apply list_eq. intros i. rewrite !lookup_slice by lia. repeat case_decide; try done; try lia. f_equal. lia.
Qed.

Lemma le_decode_nonneg l : bytes l → 0 ≤ le_decode l.
Proof. induction 1 as [|b l [Hb _] _ IH]; [done|]. cbn [le_decode foldr]. fold (le_decode l). lia. Qed.

Lemma split_sections_good n : ∀ l, length l = (n * 40)%nat → Forall (λ s, 0 ≤ s_size s ∧ 0 ≤ s_scnptr s) (split_sections n l) → Forall Good (split_sections n l).
Proof.
  induction n as [|n IH]; intros l Hl HF; cbn [split_sections] in *; [done|]. apply Forall_cons in HF as [[H1 H2] HF]. constructor.
  - split; [|done|done|apply s32_range]. cbn [decode_scnhdr s_name]. unfold slice. change (Z.to_nat sizeof_scnhdr) with 40%nat. rewrite length_take, length_drop, length_take. lia.
  - apply IH; [|done]. rewrite length_drop. change (Z.to_nat sizeof_scnhdr) with 40%nat. lia.
Qed.

Lemma Read_ok coff n st : 0 ≤ n → 0 ≤ inPos st ≤ Z.of_nat (length coff) →
  Read coff n st = if Z.of_nat (length coff) <? inPos st + n then Exit TooShort else Value (slice coff (inPos st) n, set_inPos (inPos st + n) st).
Proof.
  intros Hn Hp. unfold Read. rewrite (proj2 (Z.ltb_ge n 0)) by done.
  assert (Hlen : Z.of_nat (length (slice coff (inPos st) n)) = Z.min n (Z.of_nat (length coff) - inPos st)) by (unfold slice; rewrite length_take, length_drop; lia).
  destruct (Z.ltb_spec (Z.of_nat (length coff)) (inPos st + n)); [by rewrite (proj2 (Z.eqb_neq _ _)) by lia|]. by rewrite (proj2 (Z.eqb_eq _ _)) by lia.
Qed.

(** The header in the file. *)
Definition seg_s32 (seg : Segment) : Prop := is_s32 (virtualAddr seg) ∧ is_s32 (inFileAddr seg) ∧ is_s32 (size seg).
Definition header_s32 h : Prop := is_s32 (noffMagic h) ∧ Forall seg_s32 [code h; initData h; readonlyData h; uninitData h].

Lemma encode_header_words h : encode_header h = words_encode
  [noffMagic h; virtualAddr (code h); inFileAddr (code h); size (code h); virtualAddr (initData h); inFileAddr (initData h); size (initData h);
   virtualAddr (readonlyData h); inFileAddr (readonlyData h); size (readonlyData h); virtualAddr (uninitData h); inFileAddr (uninitData h); size (uninitData h)].
Proof. reflexivity. Qed.

Lemma length_encode_header h : length (encode_header h) = 52%nat.
Proof. rewrite encode_header_words, length_words_encode. reflexivity. Qed.

Lemma SwapHeader_id h : SwapHeader h = h.
Proof. by destruct h as [? [] [] [] []]. Qed.

Lemma read_header_encode h body g : header_s32 h → noffMagic h = NOFFMAGIC → read_header (Some (encode_header h ++ body)) g = Ok h.
Proof.
  intros [H0 HF] Hm. unfold read_header, ReadAt. cbn [deref mbind res_bind Z.leb ASSERT Z.compare].
  rewrite slice_app_l, slice_all by (rewrite ?length_encode_header; done).
  unfold decode_header. rewrite encode_header_words.
  lazymatch goal with |- context [words_encode ?ws] => assert (Hw : Forall is_s32 ws) end.
  { repeat (apply Forall_cons in HF as [(?&?&?) HF]). repeat (apply Forall_cons_2; [done|]). apply Forall_nil_2. }
  lazymatch goal with |- context [words_decode 13 (?a ++ ?b)] => rewrite (words_decode_encode _ b Hw : words_decode 13 (a ++ b) = _) end.
  cbn [mbind res_bind noffMagic]. rewrite Hm. cbn. by destruct h as [? [] [] [] []]; cbn in *; subst.
Qed.

Lemma copied_s32 coff body o seg : copied coff body o seg → sizeof_NoffHeader + Z.of_nat (length body) < halfword → seg_s32 seg.
Proof.
  unfold seg_s32. destruct o as [s|]; cbn.
  - intros (E1&E2&H1&H2&_&H3&H4) Hb. rewrite E1, E2 in *. split; [done|]. unfold_int. unfold sizeof_NoffHeader in *. lia.
  - intros (->&?&?) _. split; [done|]. split; [done|]. unfold_int. lia.
Qed.

Lemma Header_s32 coff ss h body : Header coff ss h body → sizeof_NoffHeader + Z.of_nat (length body) < halfword → 0 ≤ sum_sizes (of_kind KBss ss) < halfword → header_s32 h.
Proof.
  intros [H1 H2 H3 H4 [H5 H6]] Hb Hs. split; [rewrite H1; unfold_int; unfold NOFFMAGIC; lia|].
  repeat (constructor; [by eapply copied_s32|]). constructor; [|constructor]. split; [|split; [done|]].
  - destruct (of_kind KBss ss); [apply H5|]. destruct H5 as (->&_&?). done.
  - destruct (of_kind KBss ss); [destruct H5 as [-> _]; unfold_int; lia|]. destruct H5 as (_&->&_). unfold_int. lia.
Qed.

Lemma first_Inv coff g st : header_s32 g → output st = [] → outPos st = sizeof_NoffHeader → noffH st = first_header g → inNoffFile st = sizeof_NoffHeader → Inv coff [] st [].
Proof.
  intros [_ HF] E1 E2 E3 E4. repeat (apply Forall_cons in HF as [(?&?&?) HF]). split; rewrite ?E1, ?E2, ?E3, ?E4; [|done|done|by left|done|done|by constructor].
  split; cbn; done.
Qed.

Lemma write_header coff ss st body : Inv coff ss st body →
  output (set_output (output st) 0 st) = output st ∧ ∃ st', Write (encode_header (noffH st)) (set_output (output st) 0 st) = Value (tt, st') ∧ output st' = encode_header (noffH st) ++ body.
Proof.
  intros [_ _ _ Ho _ _ _]. split; [done|]. unfold Write, setc. eexists. split; [reflexivity|]. cbn [output set_output outPos]. unfold splice. change (Z.to_nat 0) with 0%nat. rewrite take_0, length_encode_header.
  cbn [app Nat.sub replicate]. rewrite app_nil_r. cbn [app Nat.add]. f_equal. destruct Ho as [[-> ->]| ->]; [done|]. rewrite drop_app_length' by (by rewrite length_replicate). done.
Qed.

Lemma coff2noff_ok coff g :
  bytes coff → header_s32 g → Forall (λ s, 0 ≤ s_size s ∧ 0 ≤ s_scnptr s) (sections coff) → sizeof_NoffHeader + sum_sizes (sections coff) < halfword →
  match refused coff with
  | Some f => coff2noff (Some coff) g = Exit f
  | None => ∃ h body, coff2noff (Some coff) g = Value (encode_header h ++ body) ∧ Header coff (sections coff) h body ∧ header_s32 h
      ∧ Z.of_nat (length body) ≤ sum_sizes (sections coff) ∧ bytes body
  end.
Proof.
  intros Hb Hg Hs Hsum. unfold coff2noff, convert, refused, mbind, C_bind. rewrite Read_ok by (cbn; unfold sizeof_filehdr, sizeof_aouthdr; lia). cbn [inPos]. change (0 + sizeof_filehdr) with 20.
  destruct (Z.ltb_spec (Z.of_nat (length coff)) 20) as [|H20]; [done|]. cbn [decode_filehdr f_magic f_nscns].
  assert (Hsh : ∀ b, 0 ≤ b → b + 2 ≤ 20 → short_at (slice coff 0 sizeof_filehdr) b = short_at coff b).
  { intros b H0 H1. unfold short_at. by rewrite slice_slice by (unfold sizeof_filehdr; lia). }
  rewrite !Hsh by lia. unfold ShortToHost. destruct (short_at coff 0 =? MIPSELMAGIC); cbn [negb]; [|done].
  rewrite Read_ok by (cbn; unfold sizeof_filehdr, sizeof_aouthdr; lia). cbn [inPos set_inPos]. change (20 + sizeof_aouthdr) with 76. destruct (Z.ltb_spec (Z.of_nat (length coff)) 76) as [|H76]; [done|].
  assert (Ea : short_at (slice coff 20 sizeof_aouthdr) 0 = short_at coff 20) by (unfold short_at; by rewrite slice_slice by (unfold sizeof_aouthdr; lia)).
  rewrite Ea. destruct (short_at coff 20 =? OMAGIC); cbn [negb]; [|done].
  assert (Hn : 0 ≤ short_at coff 2) by (apply le_decode_nonneg; by apply slice_Forall).
  rewrite Read_ok by (cbn; unfold sizeof_scnhdr; lia). cbn [inPos set_inPos]. change sizeof_scnhdr with 40. destruct (Z.ltb_spec (Z.of_nat (length coff)) (76 + short_at coff 2 * 40)) as [|Hl]; [done|].
  assert (Es : split_sections (Z.to_nat (short_at coff 2)) (slice coff 76 (short_at coff 2 * 40)) = sections coff).
  { unfold sections. cbn [decode_filehdr f_nscns]. by rewrite Hsh by lia. }
  rewrite Es. assert (HG : Forall Good (sections coff)).
  { rewrite <- Es in Hs |- *. apply split_sections_good; [|done]. pose proof (length_slice coff 76 (short_at coff 2 * 40)). lia. }
  unfold seek_out, setc, getc. cbn beta iota. set (st0 := set_output _ _ _). pose proof (sections_ok coff (sections coff) [] st0 [] (first_Inv coff g st0 Hg eq_refl eq_refl eq_refl eq_refl) HG Hsum) as Hsec.
  destruct (first_problem coff [] (sections coff)) as [f|]; [by rewrite Hsec|]. destruct Hsec as (st1&body&->&HI). cbn [app] in HI. rewrite SwapHeader_id.
  destruct (write_header _ _ _ _ HI) as (_&st2&Hw&Ho). cbn [noffH set_output]. rewrite Hw, Ho. exists (noffH st1), body. split; [done|]. split; [apply HI|].
  pose proof (of_kind_nonneg KBss _ HG). pose proof (iv_total _ _ _ _ HI). split; [|split; [lia|by apply HI]]. eapply Header_s32; [apply HI|lia|unfold sizeof_NoffHeader in *; lia].
Qed.
End CoffNoffSpec.

Import AddrSpace AddrSpaceSpec MachineSpec CoffNoff CoffNoffSpec.

(** ** From the linker to the memory of the program *)

(** The section that a segment is copied from: the last one of its kind. *)
Definition source (coff : list Z) (k : kind) : option scnhdr := last (of_kind k (sections coff)).
Definition segment_of (k : kind) (h : NoffHeader) : Segment :=
  match k with KText => code h | KData => initData h | KRdata => readonlyData h | _ => uninitData h end.
Definition copied_kinds : list kind := [KText; KData; KRdata].
Definition bss_size (coff : list Z) : Z := sum_sizes (of_kind KBss (sections coff)).

(** The pages of the program, with its stack. *)
Definition program_pages (coff : list Z) : Z :=
  divRoundUp (u32 (sum_sizes (omap (source coff) copied_kinds) + bss_size coff + UserStackSize)) PageSize.

(** Where a section is loaded: whole pages. *)
Definition covers (s : scnhdr) (va : Z) : Prop :=
  s_paddr s ≤ va < s_paddr s + divRoundUp (s_size s) PageSize * PageSize.

Definition placed (coff : list Z) (s : scnhdr) : Prop :=
  s_paddr s mod PageSize = 0 ∧ 0 ≤ s_paddr s ∧ s_paddr s + divRoundUp (s_size s) PageSize * PageSize ≤ program_pages coff * PageSize.

Lemma copied_segment coff h body k : Header coff (sections coff) h body → k ∈ copied_kinds → copied coff body (source coff k) (segment_of k h).
Proof. intros [_ H1 H2 H3 _] Hk. unfold copied_kinds in Hk. rewrite !elem_of_cons, elem_of_nil in Hk. by destruct Hk as [->|[->|[->|[]]]]. Qed.

Lemma copied_size coff h body k : Header coff (sections coff) h body → k ∈ copied_kinds → size (segment_of k h) = sum_sizes (option_list (source coff k)).
Proof.
  intros HH Hk. pose proof (copied_segment coff h body k HH Hk) as Hc. destruct (source coff k) as [s|]; cbn in *; [|apply Hc]. destruct Hc as (_&->&_). lia.
Qed.

Lemma segments_of h seg : seg ∈ [code h; initData h; readonlyData h] ↔ ∃ k, k ∈ copied_kinds ∧ seg = segment_of k h.
Proof.
  unfold copied_kinds. split.
  - rewrite !elem_of_cons, elem_of_nil. intros [->|[->|[->|[]]]]; [exists KText|exists KData|exists KRdata]; (split; [|done]); set_solver.
  - intros (k&Hk&->). rewrite !elem_of_cons, elem_of_nil in Hk. destruct Hk as [->|[->|[->|[]]]]; set_solver.
Qed.

Lemma converted_space coff h body : Header coff (sections coff) h body → divRoundUp (space_size h) PageSize = program_pages coff.
Proof.
  intros HH. unfold program_pages, space_size. do 2 f_equal.
  pose proof (copied_size coff h body KText HH ltac:(set_solver)) as E1. pose proof (copied_size coff h body KData HH ltac:(set_solver)) as E2.
  pose proof (copied_size coff h body KRdata HH ltac:(set_solver)) as E3. cbn [segment_of] in *.
  assert (E4 : size (uninitData h) = bss_size coff) by (destruct HH as [_ _ _ _ [H _]]; unfold bss_size; destruct (of_kind KBss (sections coff)); apply H).
  rewrite E1, E2, E3, E4. unfold copied_kinds. cbn. destruct (source coff KText), (source coff KData), (source coff KRdata); cbn; lia.
Qed.

Lemma converted_fits coff h body :
  Header coff (sections coff) h body → sizeof_NoffHeader + Z.of_nat (length body) + PageSize < halfword →
  (∀ k s, k ∈ copied_kinds → source coff k = Some s → placed coff s) →
  Forall (seg_ok (program_pages coff)) [code h; initData h; readonlyData h].
Proof.
  intros HH Hb Hpl. apply Forall_forall. intros seg (k&Hk&->)%segments_of Hpos. pose proof (copied_segment coff h body k HH Hk) as Hc.
  destruct (source coff k) as [s|] eqn:Es; cbn in Hc; [|lia]. destruct Hc as (E1&E2&H1&H2&_&_&_). destruct (Hpl k s Hk Es) as (P1&P2&P3).
  rewrite <- E1 in P1, P2, P3. rewrite <- E2 in P3. split; try done. pose proof (divRoundUp_spec (size (segment_of k h)) PageSize ltac:(lia) ltac:(done)). unfold sizeof_NoffHeader, PageSize in *. lia.
Qed.

(** A byte of a copied section, in the NOFF file. *)
Lemma converted_byte coff h body k s i :
  Header coff (sections coff) h body → k ∈ copied_kinds → source coff k = Some s → 0 ≤ s_scnptr s → 0 ≤ i < s_size s →
  (encode_header h ++ body) !! Z.to_nat (inFileAddr (segment_of k h) + i) = coff !! Z.to_nat (s_scnptr s + i).
Proof.
  intros HH Hk Es Hp Hi. pose proof (copied_segment coff h body k HH Hk) as Hc. rewrite Es in Hc. destruct Hc as (E1&E2&H1&H2&Hsl&_&_). unfold sizeof_NoffHeader in *.
  rewrite lookup_app_r by (rewrite length_encode_header; lia). rewrite length_encode_header.
  pose proof (f_equal (.!! Z.to_nat i) Hsl) as Hl. cbn beta in Hl. rewrite !lookup_slice in Hl by lia. rewrite !decide_True in Hl by lia.
  replace (Z.to_nat (inFileAddr (segment_of k h) + i) - 52)%nat with (Z.to_nat (inFileAddr (segment_of k h) - 52) + Z.to_nat i)%nat by lia. rewrite Hl. f_equal. lia.
Qed.

Lemma source_in coff k s : source coff k = Some s → s ∈ sections coff.
Proof. intros Hl%last_Some_elem_of. by apply list_elem_of_filter in Hl as [_ Hl]. Qed.

(** Only sections that are copied cover an address. *)
Lemma uncovered coff h body va k :
  Header coff (sections coff) h body → k ∈ copied_kinds → (∀ s, source coff k = Some s → ¬ covers s va) →
  ¬ virtualAddr (segment_of k h) ≤ va < virtualAddr (segment_of k h) + divRoundUp (size (segment_of k h)) PageSize * PageSize.
Proof.
  intros HH Hk Hcov. pose proof (copied_segment coff h body k HH Hk) as Hc. destruct (source coff k) as [s|].
  - destruct Hc as (->&->&_). by apply Hcov.
  - destruct Hc as (->&_). change (divRoundUp 0 PageSize) with 0. lia.
Qed.

Lemma converted_section coff h body k s i pages (v : Z → option Z) :
  Header coff (sections coff) h body → Forall (seg_ok pages) [code h; initData h; readonlyData h] → k ∈ copied_kinds → source coff k = Some s → 0 ≤ s_scnptr s → 0 ≤ i < s_size s →
  (∀ k' s', k' ∈ copied_kinds → k' ≠ k → source coff k' = Some s' → ¬ covers s' (s_paddr s + i)) →
  let file := encode_header h ++ body in
  load_view file (readonlyData h) (load_view file (initData h) (load_view file (code h) v)) (s_paddr s + i) = coff !! Z.to_nat (s_scnptr s + i).
Proof.
  intros HH Hok Hk Es Hp Hi Hcov file. rewrite <- (converted_byte coff h body k s i HH) by done.
  pose proof (copied_segment coff h body k HH Hk) as Hc. rewrite Es in Hc. destruct Hc as (E1&E2&H1&H2&_).
  assert (Hin : segment_of k h ∈ [code h; initData h; readonlyData h]) by (apply segments_of; by exists k).
  rewrite (segment_bytes pages file (code h) (initData h) (readonlyData h) (segment_of k h)).
  - rewrite E1. do 2 f_equal. lia.
  - apply (proj1 (Forall_forall _ _) Hok _ Hin). lia.
  - done.
  - lia.
  - unfold file. rewrite length_app, length_encode_header. unfold sizeof_NoffHeader in *. lia.
  - intros seg' (k'&Hk'&->)%segments_of Hne. eapply uncovered; [done..|]. intros s' Es'. apply (Hcov k'); [done| |done]. by intros ->.
Qed.

Lemma view_uncovered file s1 s2 s3 va (v : Z → option Z) :
  (∀ seg, seg ∈ [s1; s2; s3] → ¬ virtualAddr seg ≤ va < virtualAddr seg + divRoundUp (size seg) PageSize * PageSize) →
  load_view file s3 (load_view file s2 (load_view file s1 v)) va = v va.
Proof.
  intros Hc. assert (H : ∀ seg v, seg ∈ [s1; s2; s3] → load_view file seg v va = v va).
  { intros seg v' Hin. unfold load_view, patched. destruct (0 <? size seg); [|done]. rewrite decide_False; [done|]. specialize (Hc seg Hin). tauto. }
  rewrite !H by set_solver. done.
Qed.

(** C34 (error): coff2noff ends in exactly one of the ways that the bytes of its
    input say: a file that is cut short, one without the magic numbers, an
    unknown section or two sections of uninitialised data that meet are refused,
    with the first of these messages; every other file is converted, to a header
    followed by the bytes of the sections in their order.  The header names, for
    code, initialised and read-only data, the address and size of the last
    section of the kind and a place in the file where its bytes are, and the
    first address and total size of the uninitialised data.  The kernel reads
    the same header back from the file.  (Sections have sizes and positions that
    are not negative, and the output is smaller than 2 GB.) *)
Theorem coff2noff_correct (coff : list Z) (garbage : NoffHeader)
    (Hb : bytes coff) (Hg : header_s32 garbage) (Hs : Forall (λ s, 0 ≤ s_size s ∧ 0 ≤ s_scnptr s) (sections coff))
    (Hsum : sizeof_NoffHeader + sum_sizes (sections coff) < halfword) :
  coff2noff None garbage = Exit NoInput
  ∧ match refused coff with
    | Some f => coff2noff (Some coff) garbage = Exit f
    | None => ∃ h body, coff2noff (Some coff) garbage = Value (encode_header h ++ body)
        ∧ Header coff (sections coff) h body
        ∧ ∀ g, read_header (Some (encode_header h ++ body)) g = Ok h
    end.
Proof.
  split; [done|]. pose proof (coff2noff_ok coff garbage Hb Hg Hs Hsum) as H. destruct (refused coff); [done|].
  destruct H as (h&body&E&HH&Hh&_). exists h, body. split; [done|]. split; [done|]. intros g. apply read_header_encode; [done|apply HH].
Qed.

(** C35 (roundtrip): from the linker to memory.  The file that coff2noff writes is
    an executable for the kernel: when the pages are free and the copied sections
    start on page boundaries inside the address space, the constructor of
    AddrSpace and Load succeed on it, and then the program sees at its address
    every byte of the code, the initialised and the read-only data that the COFF
    file has at the position of the section, unless the pages of another
    section lie over it, and zero at the addresses that no copied section covers,
    so in its uninitialised data and its stack. *)
Theorem converted_program_loads (coff g : list Z) (garbage : NoffHeader) (ta : Z) (w : Frames) (sps : list AddrSpace)
    (Hb : bytes coff) (Hg : header_s32 garbage) (Hs : Forall (λ s, 0 ≤ s_size s ∧ 0 ≤ s_scnptr s) (sections coff))
    (Hsum : sizeof_NoffHeader + sum_sizes (sections coff) + PageSize < halfword) (Hok : refused coff = None)
    (HO : Owned w sps) (Hfree : program_pages coff ≤ NumPhysPages - Z.of_nat (length (concat (frames <$> sps))))
    (Hpl : ∀ k s, k ∈ copied_kinds → source coff k = Some s → placed coff s) :
  ∃ noff sp w1 sp' w2, coff2noff (Some coff) garbage = Value noff
    ∧ new_AddrSpace (Some noff) g w = Ok (sp, w1) ∧ Load (Some noff) g ta sp w1 = Ok (true, sp', w2)
    ∧ Owned w2 (sp' :: sps) ∧ numPages sp' = program_pages coff
    ∧ (∀ k s i, k ∈ copied_kinds → source coff k = Some s → 0 ≤ i < s_size s →
         (∀ k' s', k' ∈ copied_kinds → k' ≠ k → source coff k' = Some s' → ¬ covers s' (s_paddr s + i)) →
         view sp' (mainMemory w2) (s_paddr s + i) = coff !! Z.to_nat (s_scnptr s + i))
    ∧ (∀ va, 0 ≤ va < program_pages coff * PageSize →
         (∀ k s, k ∈ copied_kinds → source coff k = Some s → ¬ covers s va) → view sp' (mainMemory w2) va = Some 0).
Proof.
  pose proof (coff2noff_ok coff garbage Hb Hg Hs ltac:(unfold PageSize in *; lia)) as Hconv. rewrite Hok in Hconv. destruct Hconv as (h&body&E&HH&Hh&Hlen&Hbb).
  pose proof (read_header_encode h body g Hh (hd_magic _ _ _ _ HH)) as Hr. assert (Hbf : bytes (encode_header h ++ body)) by (apply Forall_app_2; [rewrite encode_header_words; apply words_encode_bytes|done]).
  pose proof (converted_fits coff h body HH ltac:(lia) Hpl) as Hfit. rewrite <- (converted_space coff h body HH) in Hfree, Hfit.
  destruct (loaded_view w sps _ g h ta HO Hr Hbf Hfree Hfit) as (sp&w1&sp'&w2&E1&E2&HO2&Hn&HV&_).
  exists (encode_header h ++ body), sp, w1, sp', w2. rewrite <- (converted_space coff h body HH). split_and!; try done.
  - intros k s i Hk Es Hi Hcov. destruct (Hpl k s Hk Es) as (_&P2&P3). rewrite <- (converted_space coff h body HH) in P3.
    pose proof (divRoundUp_spec (s_size s) PageSize ltac:(lia) ltac:(done)) as Hdiv. rewrite HV by (rewrite Hn; lia).
    apply (converted_section coff h body k s i (divRoundUp (space_size h) PageSize)); try done. apply (proj1 (Forall_forall _ _) Hs s). by eapply source_in.
  - intros va Hva Hcov. rewrite HV by (by rewrite Hn). rewrite view_uncovered; [done|]. intros seg (k&Hk&->)%segments_of. eapply uncovered; [done..|]. intros s. by apply Hcov.
Qed.

(** ** Examples *)

(** A header of a section: name, address, size and position. *)
Definition scn (name : list Z) (paddr sz ptr : Z) : list Z :=
  name ++ replicate (8 - length name) 0 ++ words_encode [paddr; paddr; sz; ptr; 0; 0; 0; 0].
Definition coff_file (l : list (list Z)) (data : list Z) : list Z :=
  le_encode 2 MIPSELMAGIC ++ le_encode 2 (Z.of_nat (length l)) ++ replicate 16 0 ++ le_encode 2 OMAGIC ++ replicate 54 0 ++ concat l ++ data.

(** Four bytes of code, four of data on the next page, and eight of uninitialised data. *)
Definition small_coff : list Z :=
  coff_file [scn dot_text 0 4 196; scn dot_data 128 4 200; scn dot_bss 132 8 0] [1; 2; 3; 4; 5; 6; 7; 8].
Definition no_garbage : NoffHeader :=
  let seg := mkSegment 17 (-1) 5 in mkNoffHeader 0 seg seg seg seg.

Lemma small_coff_ok : bytes small_coff ∧ header_s32 no_garbage
  ∧ Forall (λ s, 0 ≤ s_size s ∧ 0 ≤ s_scnptr s) (sections small_coff) ∧ refused small_coff = None ∧ sum_sizes (sections small_coff) = 16.
Proof.
  assert (E : sections small_coff = [mkScnhdr (dot_text ++ [0; 0]) 0 4 196; mkScnhdr (dot_data ++ [0; 0]) 128 4 200; mkScnhdr (dot_bss ++ [0; 0; 0]) 132 8 0]) by (vm_compute; reflexivity).
  split; [|split; [|split; [|split]]].
  - assert (Hf : forallb (λ z, (0 <=? z) && (z <? 256)) small_coff = true) by (vm_compute; reflexivity).
    apply Forall_forall. intros x Hx%list_elem_of_In. apply (proj1 (forallb_forall _ _) Hf) in Hx. unfold is_byte. lia.
  - split; [unfold_int; cbn; lia|]. repeat (apply Forall_cons_2; [unfold seg_s32; unfold_int; cbn; lia|]). apply Forall_nil_2.
  - rewrite E. repeat (apply Forall_cons_2; [cbn; lia|]). apply Forall_nil_2.
  - vm_compute; reflexivity.
  - rewrite E. reflexivity.
Qed.

Lemma coff2noff_correct_witness : ∃ h body, coff2noff (Some small_coff) no_garbage = Value (encode_header h ++ body) ∧ read_header (Some (encode_header h ++ body)) [] = Ok h.
Proof.
  destruct small_coff_ok as (H1&H2&H3&H4&H5).
  destruct (coff2noff_correct small_coff no_garbage H1 H2 H3) as [_ H]; [rewrite H5; unfold halfword, sizeof_NoffHeader; lia|].
  rewrite H4 in H. destruct H as (h&body&E&_&Hr). exists h, body. split; [exact E|apply Hr].
Defined.

Lemma converted_program_loads_witness : ∃ noff sp w1 sp' w2, coff2noff (Some small_coff) no_garbage = Value noff
  ∧ new_AddrSpace (Some noff) [] empty_memory = Ok (sp, w1) ∧ Load (Some noff) [] 0 sp w1 = Ok (true, sp', w2)
  ∧ view sp' (mainMemory w2) 129 = Some 6 ∧ view sp' (mainMemory w2) 300 = Some 0.
Proof.
  destruct small_coff_ok as (H1&H2&H3&H4&H5).
  assert (Et : source small_coff KText = Some (mkScnhdr (dot_text ++ [0; 0]) 0 4 196)) by (vm_compute; reflexivity).
  assert (Ed : source small_coff KData = Some (mkScnhdr (dot_data ++ [0; 0]) 128 4 200)) by (vm_compute; reflexivity).
  assert (Er : source small_coff KRdata = None) by (vm_compute; reflexivity). assert (Ep : program_pages small_coff = 9) by (vm_compute; reflexivity).
  assert (Hall : ∀ k s, k ∈ copied_kinds → source small_coff k = Some s → k = KText ∧ s_paddr s = 0 ∧ s_size s = 4 ∨ k = KData ∧ s_paddr s = 128 ∧ s_size s = 4).
  { intros k s Hk. unfold copied_kinds in Hk. rewrite !elem_of_cons, elem_of_nil in Hk. destruct Hk as [->|[->|[->|[]]]]; rewrite ?Et, ?Ed, ?Er; [intros [= <-]..|done]; auto. }
  destruct (converted_program_loads small_coff [] no_garbage 0 empty_memory [] H1 H2 H3) as (noff&sp&w1&sp'&w2&E0&E1&E2&_&_&Hsec&Hz).
  - rewrite H5. unfold halfword, sizeof_NoffHeader, PageSize. lia.
  - exact H4.
  - exact empty_memory_Owned.
  - rewrite Ep. vm_compute; congruence.
  - intros k s Hk Hs. unfold placed. rewrite Ep. destruct (Hall k s Hk Hs) as [(_&->&->)|(_&->&->)]; vm_compute; intuition congruence.
  - exists noff, sp, w1, sp', w2. split; [exact E0|]. split; [exact E1|]. split; [exact E2|]. split.
    + refine (Hsec KData _ 1 _ Ed _ _); [unfold copied_kinds; right; left|cbn; lia|]. intros k' s' Hk Hne Hs. unfold covers. destruct (Hall k' s' Hk Hs) as [(_&->&->)|(->&_)]; [vm_compute; intuition congruence|congruence].
    + apply Hz; [rewrite Ep; vm_compute; intuition congruence|]. intros k s Hk Hs. unfold covers. destruct (Hall k s Hk Hs) as [(_&->&->)|(_&->&->)]; vm_compute; intuition congruence.
Defined.

(** The test on two sections of uninitialised data is the wrong way round: two that
    are contiguous are refused, and two with a gap between them are accepted,
    as one that begins at the first and has the sum of their sizes, so that the
    second one lies outside. *)
Example bss_sections_test_inverted :
  coff2noff (Some (coff_file [scn dot_bss 0 8 0; scn dot_bss 8 8 0] [])) no_garbage = Exit BothBss
  ∧ ∃ noff h, coff2noff (Some (coff_file [scn dot_bss 0 8 0; scn dot_bss 4096 8 0] [])) no_garbage = Value noff
      ∧ read_header (Some noff) [] = Ok h ∧ virtualAddr (uninitData h) = 0 ∧ size (uninitData h) = 16.
Proof. split; [vm_compute; reflexivity|]. eexists _, _. split; [vm_compute; reflexivity|]. split; [vm_compute; reflexivity|]. split; vm_compute; reflexivity. Qed.
