(* ===== verification/Sockets.v ===== *)
(** network/socket.{h,cc}, network/serversocket.{h,cc} and the socket calls of
    userprog/ksyscall.h and exception.cc: TCP sockets of user programs, and the
    server that answers every message in capital letters.

    The network of the host is a parameter, the class [Net]: one function for each
    call (socket, setsockopt, bind, listen, inet_pton, connect, select, accept,
    read, write, getpeername, close), on a state of the host.  The model records
    the calls made with their results ([calls]).  A call that waits may never
    return, and a signal may end the process in it: the repository handles only
    SIGINT, and a write to a connection that the other side has reset raises
    SIGPIPE.  Such a run is [NStopped] at the call.  Sockets and servers are streams in the table of
    file descriptors (fdt.cc, whose functions are those of Files.v); the files in
    it are not looked into.  A pointer that has been cast to a class it does not
    have is [BadAccess].  Members that no constructor initialises are arguments.

    ServerSocket::listen has no end but a failing accept: [listen] runs a given
    number of its rounds and then is still [NRunning].  FD_SET and FD_ISSET of a
    number outside of the set (FD_SETSIZE) are [BadAccess].  What is printed is not
    modelled. *)

From S2P Require Import Prelude BitmapLib Machine AddrSpace Files Syscall.
#[local] Open Scope list_scope.

(** How a call that may wait ends: it returns, goes on waiting, or a signal kills
    the process. *)
Inductive stop := Waits | Killed.
Inductive host_out (A N : Type) := HReturn (a : A) (w : N) | HStop (why : stop).
Arguments HReturn {A N} a w.
Arguments HStop {A N} why.

(** A result of -1 is an error, as for the calls of POSIX. *)
Class Net (N : Type) := {
  n_socket : N → Z * N;                                  (* AF_INET, SOCK_STREAM *)
  n_setsockopt : Z → N → Z * N;                          (* SO_REUSEADDR *)
  n_bind : Z → Z → N → Z * N;                            (* socket, sin_port *)
  n_listen : Z → Z → N → Z * N;
  n_pton : list Z → bool;                                (* inet_pton accepts the address *)
  n_connect : Z → list Z → Z → N → host_out Z N;         (* socket, address, sin_port *)
  n_select : Z → list Z → N → host_out (list Z) N;       (* the descriptors in the set behind it *)
  n_accept : Z → N → host_out Z N;
  n_read : Z → Z → N → host_out (Z * list Z) N;
  n_write : Z → list Z → N → host_out Z N;
  n_getpeername : Z → N → Z * N;
  n_close : Z → N → Z * N
}.

(** What POSIX says of read, when it returns: an error, or at most as many bytes as
    asked for; and of socket and write: -1, or a descriptor and a count, which are
    [int]s. *)
Class NetLaws (N : Type) `{Net N} := {
  n_socket_ok w : -1 ≤ fst (n_socket w) < halfword;
  n_write_ok fd data w r w' : n_write fd data w = HReturn r w' → -1 ≤ r < halfword;
  n_read_ok fd size w r data w' : 0 ≤ size → n_read fd size w = HReturn (r, data) w' →
    r = -1 ∧ data = [] ∨ 0 ≤ r ≤ size ∧ Z.of_nat (length data) = r ∧ Forall is_byte data
}.

Module Sockets.
Import CString Files.

Definition MAX_CLIENTS : Z := 30.
Definition MaxMailSize : Z := MAX_ALLOWED_BUFFER_SIZE.

(** ** The streams *)

Record Socket := mkSocket { socket_fd : Z; ip_address : list Z; port : Z }.

Record ServerSocket := mkServerSocket {
  ss_fd : Z; ss_port : Z; isRunning : bool; client_openfileID : list Z; error_code : Z
}.

Inductive Stream := StFile | StSocket (s : Socket) | StServer (s : ServerSocket).

(** The calls to the host, with their results. *)
Inductive netcall :=
| CSocket (r : Z)
| CSetsockopt (fd r : Z)
| CBind (fd port r : Z)
| CListen (fd count r : Z)
| CConnect (fd : Z) (ip : list Z) (port r : Z)
| CSelect (nfds : Z) (fds ready : list Z)
| CAccept (fd r : Z)
| CRead (fd size r : Z) (data : list Z)
| CWrite (fd : Z) (data : list Z) (r : Z)
| CGetpeername (fd r : Z)
| CClose (fd r : Z).

(** The calls that may wait. *)
Inductive attempt :=
| TConnect (fd : Z) (ip : list Z) (port : Z)
| TSelect (nfds : Z) (fds : list Z)
| TAccept (fd : Z)
| TRead (fd size : Z)
| TWrite (fd : Z) (data : list Z).

Section SOCKETS.
Context {N : Type} `{Net N}.

Record NState := mkNState { net : N; table : list (option Stream); calls : list netcall }.

Definition set_table (t : list (option Stream)) (s : NState) : NState := mkNState (net s) t (calls s).

Inductive nout (A : Type) :=
| NDone (a : A) (s : NState)
| NHalted (s : NState)
| NStopped (why : stop) (call : attempt) (s : NState)
| NRunning (s : NState)
| NFailed (e : fault) (s : NState).

Definition NK (A : Type) : Type := NState → nout A.
#[global] Instance NK_ret : MRet NK := λ A a s, NDone A a s.
#[global] Instance NK_bind : MBind NK := λ A B f c s,
  match c s with
  | NDone _ a s => f a s
  | NHalted _ s => NHalted B s
  | NStopped _ why t s => NStopped B why t s
  | NRunning _ s => NRunning B s
  | NFailed _ e s => NFailed B e s
  end.

Definition nlift {A} (r : res A) : NK A := λ s, match r with Ok a => NDone A a s | Err e => NFailed A e s end.
Definition nget {A} (f : NState → A) : NK A := λ s, NDone A (f s) s.
Definition nmodify (f : NState → NState) : NK unit := λ s, NDone unit tt (f s).

(** A call to the host. *)
Definition syscall {A} (c : N → A * N) (log : A → netcall) : NK A := λ s,
  let '(a, w) := c (net s) in NDone A a (mkNState w (table s) (calls s ++ [log a])).

(** A call that may wait. *)
Definition waitcall {A} (t : attempt) (c : N → host_out A N) (log : A → netcall) : NK A := λ s,
  match c (net s) with
  | HReturn a w => NDone A a (mkNState w (table s) (calls s ++ [log a]))
  | HStop why => NStopped A why t s
  end.

(** htons: the lower 16 bits, with the two bytes exchanged. *)
Definition htons (p : Z) : Z := p mod 256 * 256 + p / 256 mod 256.

(** ** socket.cc *)

Definition sockClose (fd : Z) : NK Z := syscall (n_close fd) (CClose fd).

Definition sockWrite (fd : Z) (buffer : list Z) (size : Z) : NK Z :=
  nlift (if (0 <=? size) && (size <=? Z.of_nat (length buffer)) then Ok tt else Err BadAccess) ;;
  let data := map u8 (take (Z.to_nat size) buffer) in
  waitcall (TWrite fd data) (n_write fd data) (CWrite fd data).

(** The result and the buffer behind the call. *)
Definition sockRead (fd : Z) (buffer : list Z) (size : Z) : NK (Z * list Z) :=
  '(r, data) ← waitcall (TRead fd size) (n_read fd size) (λ '(r, data), CRead fd size r data);
  nlift (if (length data <=? length buffer)%nat then Ok tt else Err BadAccess) ;;
  mret (r, map s8 data ++ drop (length data) buffer).

Definition sockConnect (fd : Z) (ip : list Z) (sin_port : Z) : NK Z :=
  waitcall (TConnect fd ip sin_port) (n_connect fd ip sin_port) (CConnect fd ip sin_port).

(** [this] is the stream at a place of the table. *)
Definition stream_at (fd : Z) : NK (option Stream) := t ← nget table; nlift (getStream fd t).
Definition put_stream (fd : Z) (s : Stream) : NK unit :=
  t ← nget table;
  t ← nlift (aset t fd (Some s));
  nmodify (set_table t).

Definition as_socket (s : Stream) : res Socket := match s with StSocket s => Ok s | _ => Err BadAccess end.
Definition as_server (s : Stream) : res ServerSocket := match s with StServer s => Ok s | _ => Err BadAccess end.

Definition Socket_read (s : Socket) (buffer : list Z) (size : Z) : NK (Z * list Z) := sockRead (socket_fd s) buffer size.
Definition Socket_write (s : Socket) (buffer : list Z) (size : Z) : NK Z := sockWrite (socket_fd s) buffer size.

(** Socket::connect of the socket at [fd]. *)
Definition Socket_connect (fd : Z) (s : Socket) (ip : list Z) (port : Z) : NK Z :=
  addr ← nlift (strncpy MAX_FILE_NAME_LENGTH ip);
  sock ← syscall n_socket CSocket;
  put_stream fd (StSocket (mkSocket sock addr port)) ;;
  if sock <? 0 then mret (-1)
  else
    name ← nlift (cstr ip);
    if negb (n_pton name) then mret (-1)
    else
      status ← sockConnect sock name (htons port);
      if status <? 0 then mret (-1) else mret sock.

(** ** Closing *)

Definition FDT_close_with (del : Stream → NK unit) (fd : Z) : NK Z :=
  if bad_fd fd then mret (-1)
  else
    t ← nget table;
    e ← nlift (aget t fd);
    match e with
    | None => mret (-1)
    | Some st =>
      del st ;;
      t ← nget table;
      t ← nlift (aset t fd None);
      nmodify (set_table t) ;;
      mret 0
    end.

Fixpoint close_clients (close : Z → NK Z) (l : list Z) : NK unit :=
  match l with
  | [] => mret tt
  | id :: l =>
    (if negb (id =? -1) then _ ← close id; mret tt else mret tt) ;;
    close_clients close l
  end.

(** The destructors.  That of a server closes its clients through the table. *)
Fixpoint destroy (n : nat) (st : Stream) : NK unit :=
  match n with
  | O => nlift (Err OutOfFuel)
  | Datatypes.S n =>
    match st with
    | StFile => mret tt
    | StSocket s => if negb (socket_fd s =? -1) then _ ← sockClose (socket_fd s); mret tt else mret tt
    | StServer s =>
      if negb (ss_fd s =? -1) then
        close_clients (FDT_close_with (destroy n)) (client_openfileID s) ;;
        _ ← sockClose (ss_fd s);
        mret tt
      else mret tt
    end
  end.

(** More than streams that can be in the table. *)
Definition depth : nat := 20.
Definition FDT_close : Z → NK Z := FDT_close_with (destroy depth).

(** ** serversocket.cc *)

Definition this (ssID : Z) : NK ServerSocket :=
  st ← stream_at ssID;
  st ← nlift (deref st);
  nlift (as_server st).
Definition put_this (ssID : Z) (s : ServerSocket) : NK unit := put_stream ssID (StServer s).

Definition client (id : Z) : NK Socket :=
  st ← stream_at id;
  st ← nlift (deref st);
  nlift (as_socket st).

Definition set_error (ssID e : Z) : NK Z :=
  s ← this ssID;
  put_this ssID (mkServerSocket (ss_fd s) (ss_port s) (isRunning s) (client_openfileID s) e) ;;
  mret e.

Definition set_client (ssID i id : Z) : NK unit :=
  s ← this ssID;
  l ← nlift (aset (client_openfileID s) i id);
  put_this ssID (mkServerSocket (ss_fd s) (ss_port s) (isRunning s) l (error_code s)).

Definition init (ssID : Z) : NK Z :=
  s ← this ssID;
  fd ← syscall n_socket CSocket;
  put_this ssID (mkServerSocket fd (ss_port s) (isRunning s) (replicate (Z.to_nat MAX_CLIENTS) (-1)) (error_code s)) ;;
  if fd =? 0 then set_error ssID (-1)
  else
    r ← syscall (n_setsockopt fd) (CSetsockopt fd);
    if r <? 0 then set_error ssID (-2)
    else
      r ← syscall (n_bind fd (htons (ss_port s))) (CBind fd (htons (ss_port s)));
      if r <? 0 then set_error ssID (-3)
      else
        r ← syscall (n_listen fd 3) (CListen fd 3);
        if r <? 0 then set_error ssID (-4) else mret 0.

(** FD_SET and FD_ISSET of [fd] stay inside the set. *)
Definition FD_SETSIZE : Z := 1024.
Definition fd_slot (fd : Z) : res unit := if (0 <=? fd) && (fd <? FD_SETSIZE) then Ok tt else Err BadAccess.

(** The set for select and the highest descriptor in it. *)
Fixpoint watch (l fds : list Z) (max_sd : Z) : NK (list Z * Z) :=
  match l with
  | [] => mret (fds, max_sd)
  | id :: l =>
    sd ← (if negb (id =? -1) then c ← client id; mret (socket_fd c) else mret id);
    (if 0 <? sd then nlift (fd_slot sd) else mret tt) ;;
    watch l (if 0 <? sd then fds ++ [sd] else fds) (if max_sd <? sd then sd else max_sd)
  end.

Definition select (nfds : Z) (fds : list Z) : NK (list Z) :=
  waitcall (TSelect nfds fds) (n_select nfds fds) (CSelect nfds fds).

(** [garbage]: what is in a new Socket. *)
Fixpoint handleClientNewConnection (garbage : Socket) (ssID new_socket : Z) (n : nat) (i : Z) : NK unit :=
  match n with
  | O => mret tt
  | Datatypes.S n =>
    s ← this ssID;
    id ← nlift (aget (client_openfileID s) i);
    if id <? 0 then
      let c := StSocket (mkSocket new_socket (ip_address garbage) (port garbage)) in
      t ← nget table;
      '(add_res, t) ← nlift (Add c t);
      nmodify (set_table t) ;;
      if add_res <? 0 then destroy depth c
      else set_client ssID i add_res
    else handleClientNewConnection garbage ssID new_socket n (i + 1)
  end.

Definition toupper (c : Z) : Z := if (97 <=? c) && (c <=? 122) then c - 32 else c.

Definition handleClientCommingMessage (ssID index : Z) : NK unit :=
  s ← this ssID;
  id ← nlift (aget (client_openfileID s) index);
  c ← client id;
  '(valread, buffer) ← Socket_read c (replicate (Z.to_nat MaxMailSize) 0) MaxMailSize;
  if valread =? 0 then
    _ ← syscall (n_getpeername (socket_fd c)) (CGetpeername (socket_fd c));
    _ ← FDT_close id;
    set_client ssID index (-1)
  else
    let k := Z.to_nat valread in
    let buffer := map toupper (take k buffer) ++ drop k buffer in
    str ← nlift (cstr buffer);
    _ ← Socket_write c buffer (Z.of_nat (length str));
    mret tt.

Fixpoint serve (ssID : Z) (ready : list Z) (n : nat) (i : Z) : NK unit :=
  match n with
  | O => mret tt
  | Datatypes.S n =>
    s ← this ssID;
    id ← nlift (aget (client_openfileID s) i);
    (if id =? -1 then mret tt
     else
       c ← client id;
       nlift (fd_slot (socket_fd c)) ;;
       if bool_decide (socket_fd c ∈ ready) then handleClientCommingMessage ssID i else mret tt) ;;
    serve ssID ready n (i + 1)
  end.

(** One round of the loop of listen: [Some] is the value it returns. *)
Definition round (garbage : Socket) (ssID : Z) : NK (option Z) :=
  s ← this ssID;
  nlift (fd_slot (ss_fd s)) ;;
  '(fds, max_sd) ← watch (client_openfileID s) [ss_fd s] (ss_fd s);
  ready ← select (max_sd + 1) fds;
  r ← (if bool_decide (ss_fd s ∈ ready) then
         new_socket ← waitcall (TAccept (ss_fd s)) (n_accept (ss_fd s)) (CAccept (ss_fd s));
         if new_socket <? 0 then e ← set_error ssID (-5); mret (Some e)
         else handleClientNewConnection garbage ssID new_socket (Z.to_nat MAX_CLIENTS) 0 ;; mret None
       else mret None);
  match r with
  | Some e => mret (Some e)
  | None => serve ssID ready (Z.to_nat MAX_CLIENTS) 0 ;; mret None
  end.

Definition still_running : NK Z := λ st, NRunning Z st.

Fixpoint listen_loop (garbage : Socket) (ssID : Z) (n : nat) : NK Z :=
  s ← this ssID;
  if negb (isRunning s) then mret 0
  else
    match n with
    | O => still_running
    | Datatypes.S n =>
      r ← round garbage ssID;
      match r with
      | Some e => mret e
      | None => listen_loop garbage ssID n
      end
    end.

Definition listen (garbage : Socket) (ssID : Z) (n : nat) : NK Z :=
  r ← init ssID;
  s ← this ssID;
  if r <? 0 then mret (error_code s)
  else
    put_this ssID (mkServerSocket (ss_fd s) (ss_port s) true (client_openfileID s) (error_code s)) ;;
    listen_loop garbage ssID n.

(** ** ksyscall.h *)

Definition exitWithError {A} : NK A := λ s, NHalted A s.

Definition AddStream (st : Stream) : NK Z :=
  t ← nget table;
  '(fd, t) ← nlift (Add st t);
  nmodify (set_table t) ;;
  mret fd.

Definition SysSocketTCP (garbage : Socket) : NK Z := AddStream (StSocket garbage).

Definition SysConnect (fd : Z) (ip : list Z) (port : Z) : NK Z :=
  st ← stream_at fd;
  match st with
  | None => mret (-1)
  | Some st => s ← nlift (as_socket st); Socket_connect fd s ip port
  end.

Definition SysSend (fd : Z) (buffer : list Z) (len : Z) : NK Z :=
  if MAX_ALLOWED_BUFFER_SIZE <? len then exitWithError
  else
    st ← stream_at fd;
    match st with
    | None => mret (-1)
    | Some st => s ← nlift (as_socket st); Socket_write s buffer len
    end.

Definition SysReceive (socketID : Z) (buffer : list Z) (size : Z) : NK (Z * list Z) :=
  if MAX_ALLOWED_BUFFER_SIZE <? size then exitWithError
  else
    st ← stream_at socketID;
    match st with
    | None => mret (-1, buffer)
    | Some st => s ← nlift (as_socket st); Socket_read s buffer size
    end.

Definition SysDisconnect (socketID : Z) : NK Z := exitWithError.

(** [ids] is what is in the array of the new server. *)
Definition new_ServerSocket (port : Z) (ids : list Z) : ServerSocket := mkServerSocket (-1) port false ids 0.

Definition SysServerCreate (ids : list Z) (port : Z) : NK Z := AddStream (StServer (new_ServerSocket port ids)).

Definition SysServerListen (garbage : Socket) (ssID : Z) (n : nat) : NK Z :=
  st ← stream_at ssID;
  match st with
  | None => mret (-1)
  | Some st => _ ← nlift (as_server st); listen garbage ssID n
  end.
End SOCKETS.
End Sockets.

Module SocketsSpec.
Import CString Files Sockets.

(** ** The server as its clients see it *)

(** Thirty places for connections, each a descriptor and a socket of the host, and
    the descriptors that are free. *)
Definition Conns : Type := list (option (Z * Z)) * gset Z.

Definition upper (b : Z) : Z := if (97 <=? b) && (b <=? 122) then b - 32 else b.
Fixpoint before_nul (l : list Z) : list Z :=
  match l with [] => [] | b :: l => if b =? 0 then [] else b :: before_nul l end.
Definition answer (data : list Z) : list Z := map upper (before_nul data).

(** A message is answered when a NUL ends it in the buffer of 64 characters. *)
Definition ends_in_buffer (data : list Z) : Prop := (length data < 64)%nat ∨ 0 ∈ data.

Definition first_place (c : list (option (Z * Z))) (i : nat) : Prop :=
  c !! i = Some None ∧ ∀ j, (j < i)%nat → ∃ x, c !! j = Some (Some x).
Definition lowest (F : gset Z) (fd : Z) : Prop := fd ∈ F ∧ ∀ x, x ∈ F → fd ≤ x.

(** The server socket [ss] when select has returned [ready]. *)
Inductive welcome (ss : Z) (ready : list Z) : Conns → list netcall → Conns → Prop :=
| wl_none K : ss ∉ ready → welcome ss ready K [] K
| wl_new c F i fd sock : ss ∈ ready → 0 ≤ sock → first_place c i → lowest F fd →
    welcome ss ready (c, F) [CAccept ss sock] (<[i := Some (fd, sock)]> c, F ∖ {[fd]})
| wl_full c sock r : ss ∈ ready → 0 ≤ sock → welcome ss ready (c, ∅) [CAccept ss sock; CClose sock r] (c, ∅).

(** The connection at place [i]. *)
Inductive attend (ready : list Z) (i : nat) : Conns → list netcall → Conns → Prop :=
| at_none c F : c !! i = Some None → attend ready i (c, F) [] (c, F)
| at_quiet c F id sd : c !! i = Some (Some (id, sd)) → sd < 1024 → sd ∉ ready → attend ready i (c, F) [] (c, F)
| at_answer c F id sd r data r' : c !! i = Some (Some (id, sd)) → sd < 1024 → sd ∈ ready → r ≠ 0 → ends_in_buffer data →
    attend ready i (c, F) [CRead sd 64 r data; CWrite sd (answer data) r'] (c, F)
| at_hangup c F id sd r0 r : c !! i = Some (Some (id, sd)) → sd < 1024 → sd ∈ ready →
    attend ready i (c, F) [CRead sd 64 0 []; CGetpeername sd r0; CClose sd r] (<[i := None]> c, F ∪ {[id]}).

(** The places from [i] on, [k] of them. *)
Inductive attend_all (ready : list Z) : nat → nat → Conns → list netcall → Conns → Prop :=
| aa_nil i K : attend_all ready i 0 K [] K
| aa_cons i k K l1 K1 l2 K2 : attend ready i K l1 K1 → attend_all ready (Datatypes.S i) k K1 l2 K2 →
    attend_all ready i (Datatypes.S k) K (l1 ++ l2) K2.

Definition sockets_of (c : list (option (Z * Z))) : list Z := omap (λ o, snd <$> o) c.

(** The call of select of a round: the server and the clients, all of them looked at. *)
Definition watches (ss : Z) (c : list (option (Z * Z))) (nfds : Z) (fds : list Z) : Prop :=
  fds = ss :: filter (λ sd, 0 < sd) (sockets_of c) ∧ Forall (λ fd, 0 ≤ fd < 1024 ∧ fd < nfds) fds.

Inductive session (ss : Z) : Conns → list netcall → Conns → Prop :=
| ss_nil K : session ss K [] K
| ss_round c F nfds fds ready l1 K1 l2 K2 l3 K3 :
    watches ss c nfds fds → welcome ss ready (c, F) l1 K1 → attend_all ready 0 30 K1 l2 K2 → session ss K2 l3 K3 →
    session ss (c, F) (CSelect nfds fds ready :: l1 ++ l2 ++ l3) K3.

(** The part of a round that comes before the place [j]. *)
Inductive half_round (ss : Z) : Conns → list Z → list netcall → nat → Conns → Prop :=
| hr_places c F nfds fds ready l1 K1 j l2 K2 :
    watches ss c nfds fds → welcome ss ready (c, F) l1 K1 → attend_all ready 0 j K1 l2 K2 →
    half_round ss (c, F) ready (CSelect nfds fds ready :: l1 ++ l2) j K2.

(** Where the server can be stopped at a connection, in a call to the host or by an
    error ([None]): a descriptor of the host that has no place in the set of select,
    and a message that fills the buffer without a NUL. *)
Inductive break (ready : list Z) (i : nat) : Conns → list netcall → option attempt → Prop :=
| bk_slot c F id sd : c !! i = Some (Some (id, sd)) → 1024 ≤ sd → break ready i (c, F) [] None
| bk_read c F id sd : c !! i = Some (Some (id, sd)) → sd < 1024 → sd ∈ ready → break ready i (c, F) [] (Some (TRead sd 64))
| bk_write c F id sd r data : c !! i = Some (Some (id, sd)) → sd < 1024 → sd ∈ ready → r ≠ 0 → ends_in_buffer data →
    break ready i (c, F) [CRead sd 64 r data] (Some (TWrite sd (answer data)))
| bk_message c F id sd data : c !! i = Some (Some (id, sd)) → sd < 1024 → sd ∈ ready → length data = 64%nat → 0 ∉ data →
    break ready i (c, F) [CRead sd 64 64 data] None.

(** Where the server can be stopped in a round. *)
Inductive stopped (ss : Z) : Conns → list netcall → option attempt → Prop :=
| sp_watch c F fd : fd ∈ ss :: filter (λ sd, 0 < sd) (sockets_of c) → ¬ 0 ≤ fd < 1024 → stopped ss (c, F) [] None
| sp_select c F nfds fds : watches ss c nfds fds → stopped ss (c, F) [] (Some (TSelect nfds fds))
| sp_accept c F nfds fds ready : watches ss c nfds fds → ss ∈ ready → stopped ss (c, F) [CSelect nfds fds ready] (Some (TAccept ss))
| sp_place K ready l j K' l' t : half_round ss K ready l j K' → break ready j K' l' t → stopped ss K (l ++ l') t.

Section SPEC.
Context {N : Type} `{Net N}.
Implicit Types (s : @NState N) (srv : ServerSocket) (c : list (option (Z * Z))) (F : gset Z).

Record Serving s (ssID : Z) srv c F : Prop := {
  sv_len : length (table s) = 20%nat;
  sv_id : 2 ≤ ssID < 20;
  sv_this : table s !! Z.to_nat ssID = Some (Some (StServer srv));
  sv_run : isRunning srv = true;
  sv_clients : client_openfileID srv = map (λ o, from_option fst (-1) o) c;
  sv_conns : length c = 30%nat;
  sv_conn i id sd : c !! i = Some (Some (id, sd)) → 2 ≤ id < 20 ∧ 0 ≤ sd ∧ ∃ k, table s !! Z.to_nat id = Some (Some (StSocket k)) ∧ socket_fd k = sd;
  sv_inj i j id sd sd' : c !! i = Some (Some (id, sd)) → c !! j = Some (Some (id, sd')) → i = j;
  sv_free fd : fd ∈ F ↔ 2 ≤ fd < 20 ∧ table s !! Z.to_nat fd = Some None
}.

Ltac nrun := unfold mbind, NK_bind, mret, NK_ret, nget, nlift, nmodify; cbn beta iota.

(** ** Streams of the table *)

Lemma good_fd fd : 2 ≤ fd < 20 → bad_fd fd = false.
Proof. intros Hf. unfold bad_fd, MAX_FILE_DESCRIPTOR. lia. Qed.

Lemma stream_at_ok s fd e : 2 ≤ fd < 20 → table s !! Z.to_nat fd = Some e → stream_at fd s = NDone _ e s.
Proof.
  intros Hf He. unfold stream_at. nrun. unfold getStream. rewrite good_fd by done. assert (E : aget (table s) fd = Ok e) by (apply aget_Ok; split; [lia|done]). by rewrite E.
Qed.

Lemma put_stream_ok s fd st : 2 ≤ fd < 20 → length (table s) = 20%nat → put_stream fd st s = NDone _ tt (set_table (<[Z.to_nat fd := Some st]> (table s)) s).
Proof. intros Hf Hl. unfold put_stream. nrun. by rewrite aset_in by lia. Qed.

Lemma this_ok s ssID srv : 2 ≤ ssID < 20 → table s !! Z.to_nat ssID = Some (Some (StServer srv)) → this ssID s = NDone _ srv s.
Proof. intros Hf He. unfold this. nrun. by rewrite (stream_at_ok s ssID _ Hf He). Qed.

Lemma client_at s id k : 2 ≤ id < 20 → table s !! Z.to_nat id = Some (Some (StSocket k)) → client id s = NDone _ k s.
Proof. intros Hf He. unfold client. nrun. by rewrite (stream_at_ok s id _ Hf He). Qed.

Definition with_clients (l : list Z) srv : ServerSocket := mkServerSocket (ss_fd srv) (ss_port srv) (isRunning srv) l (error_code srv).

Lemma set_client_ok s ssID srv (i : nat) id :
  2 ≤ ssID < 20 → length (table s) = 20%nat → table s !! Z.to_nat ssID = Some (Some (StServer srv)) → (i < length (client_openfileID srv))%nat →
  set_client ssID (Z.of_nat i) id s = NDone _ tt (set_table (<[Z.to_nat ssID := Some (StServer (with_clients (<[i := id]> (client_openfileID srv)) srv))]> (table s)) s).
Proof.
  intros Hf Hl He Hi. unfold set_client. nrun. rewrite (this_ok s ssID srv Hf He). rewrite aset_in by lia. rewrite Nat2Z.id. unfold put_this. by rewrite put_stream_ok.
Qed.

(** ** A message *)

Lemma toupper_s8 b : is_byte b → u8 (toupper (s8 b)) = upper b.
Proof.
  intros Hb. unfold toupper, upper, u8, s8, is_byte in *. destruct (Z.leb_spec 97 b), (Z.leb_spec b 122); cbn [andb];
    repeat case_match; dlia.
Qed.

Definition up (b : Z) : Z := toupper (s8 b).

Lemma up_zero b : is_byte b → up b = 0 ↔ b = 0.
Proof. intros Hb. unfold up, toupper, s8, is_byte in *. destruct (Z.ltb_spec (b mod 256) 128); repeat case_match; split; intros; dlia. Qed.

Lemma cstr_message rest data : Forall is_byte data →
  cstr (map up data ++ rest) = if decide (0 ∈ data) then Ok (map up (before_nul data)) else str ← cstr rest; Ok (map up data ++ str).
Proof.
  induction 1 as [|b data Hb _ IH]; cbn [map app cstr before_nul]; [rewrite decide_False by apply not_elem_of_nil; destruct (cstr rest); done|].
  pose proof (up_zero b Hb) as Hz. destruct (Z.eqb_spec (up b) 0) as [E|E].
  - apply Hz in E as ->. by rewrite decide_True by (by left).
  - rewrite IH, (proj2 (Z.eqb_neq b 0)) by tauto. destruct (decide (0 ∈ data)) as [Hin|Hin].
    + by rewrite decide_True by (by right).
    + rewrite decide_False by (intros [Hz0|?]%elem_of_cons; [apply E, Hz; done|done]). cbn [mbind res_bind]. by destruct (cstr rest).
Qed.

Lemma before_nul_all data : 0 ∉ data → before_nul data = data.
Proof.
  induction data as [|b data IH]; [done|]. intros [Hb Hd]%not_elem_of_cons. cbn. rewrite (proj2 (Z.eqb_neq b 0)) by congruence. by rewrite IH.
Qed.

Lemma before_nul_prefix data : before_nul data `prefix_of` data.
Proof.
  induction data as [|b data IH]; [done|]. cbn. destruct (b =? 0); [apply prefix_nil|by apply prefix_cons].
Qed.

(** The characters of the buffer that are sent. *)
Lemma buffer_string data : Forall is_byte data → (length data ≤ 64)%nat → ends_in_buffer data →
  let buffer := map up data ++ replicate (64 - length data) 0 in
  cstr buffer = Ok (map up (before_nul data)) ∧ map u8 (take (length (before_nul data)) buffer) = answer data.
Proof.
  intros Hb Hl He buffer. split.
  - unfold buffer. rewrite cstr_message by done. case_decide as Hin; [done|]. destruct He as [He|?]; [|done].
    destruct (64 - length data)%nat as [|k] eqn:Ek; [lia|]. cbn. by rewrite app_nil_r, before_nul_all.
  - unfold buffer, answer. destruct (before_nul_prefix data) as [rest E]. rewrite E at 2. rewrite map_app, <- app_assoc, take_app_length' by (by rewrite length_map).
    rewrite map_map. apply map_ext_in. intros b Hin. apply toupper_s8. apply (proj1 (Forall_forall _ _) Hb). rewrite E. apply elem_of_app. left. by apply list_elem_of_In.
Qed.

Lemma buffer_unterminated data : Forall is_byte data → length data = 64%nat → 0 ∉ data → cstr (map up data ++ replicate (64 - length data) 0) = Err BadAccess.
Proof. intros Hb Hl Hn. rewrite cstr_message, decide_False by done. by rewrite Hl. Qed.

Lemma read_buffer data : (length data ≤ 64)%nat →
  let buffer := map s8 data ++ drop (length data) (replicate 64 0) in
  map toupper (take (length data) buffer) ++ drop (length data) buffer = map up data ++ replicate (64 - length data) 0.
Proof.
  intros Hl buffer. unfold buffer. rewrite take_app_length', drop_app_length' by (by rewrite length_map). rewrite map_map. f_equal. by rewrite drop_replicate.
Qed.

(** ** Connections *)

Lemma Serving_same s s' ssID srv c F : table s' = table s → Serving s ssID srv c F → Serving s' ssID srv c F.
Proof. intros E []. split; rewrite ?E; try done. Qed.

(** The table with another stream at [fd] and another array of clients. *)
Definition moved (ssID fd : Z) (e : option Stream) srv (l : list Z) (t : list (option Stream)) : list (option Stream) :=
  <[Z.to_nat ssID := Some (StServer (with_clients l srv))]> (<[Z.to_nat fd := e]> t).

Lemma moved_lookup ssID fd e srv l t x : length t = 20%nat → 2 ≤ ssID < 20 → 2 ≤ fd < 20 → 2 ≤ x < 20 →
  moved ssID fd e srv l t !! Z.to_nat x = if decide (x = ssID) then Some (Some (StServer (with_clients l srv))) else if decide (x = fd) then Some e else t !! Z.to_nat x.
Proof.
  intros Hl Hs Hf Hx. unfold moved. repeat case_decide; subst.
  - rewrite list_lookup_insert_eq; [done|rewrite length_insert; lia].
  - rewrite list_lookup_insert_ne, list_lookup_insert_eq by lia. done.
  - by rewrite !list_lookup_insert_ne by lia.
Qed.

Lemma map_insert_conn c (i : nat) o : map (λ o, from_option fst (-1) o) (<[i := o]> c) = <[i := from_option fst (-1) o]> (map (λ o : option (Z * Z), from_option fst (-1) o) c).
Proof. apply (list_fmap_insert (λ o : option (Z * Z), from_option fst (-1) o)). Qed.

Lemma conn_not_server s ssID srv c F i id sd : Serving s ssID srv c F → c !! i = Some (Some (id, sd)) → id ≠ ssID.
Proof. intros HS Hc ->. destruct (sv_conn _ _ _ _ _ HS i _ _ Hc) as (_&_&k&Hk&_). rewrite (sv_this _ _ _ _ _ HS) in Hk. congruence. Qed.

Lemma Serving_hangup s ssID srv c F (i : nat) id sd s' :
  Serving s ssID srv c F → c !! i = Some (Some (id, sd)) → table s' = moved ssID id None srv (<[i := -1]> (client_openfileID srv)) (table s) →
  Serving s' ssID (with_clients (<[i := -1]> (client_openfileID srv)) srv) (<[i := None]> c) (F ∪ {[id]}).
Proof.
  intros HS Hc Et. pose proof (conn_not_server _ _ _ _ _ _ _ _ HS Hc) as Hne. pose proof HS as [S1 S2 S3 S4 S5 S6 S7 S8 S9]. destruct (S7 i id sd Hc) as (Hid&_).
  split; rewrite ?Et; try done.
  - unfold moved. by rewrite !length_insert.
  - rewrite moved_lookup by done. by rewrite decide_True.
  - cbn [with_clients client_openfileID]. by rewrite map_insert_conn, S5.
  - by rewrite length_insert.
  - intros j id' sd' Hj. rewrite list_lookup_insert_Some in Hj. destruct Hj as [(_&?&_)|[Hij Hj]]; [done|]. destruct (S7 j id' sd' Hj) as (Hid'&Hsd&k&Hk&Esd).
    split; [done|]. split; [done|]. exists k. split; [|done]. rewrite moved_lookup by done. rewrite decide_False by (eapply conn_not_server; [exact HS|exact Hj]).
    rewrite decide_False; [done|]. intros ->. apply Hij. by eapply S8.
  - intros j1 j2 id' sd1 sd2 Hj1 Hj2. rewrite list_lookup_insert_Some in Hj1, Hj2. destruct Hj1 as [(_&?&_)|[_ Hj1]], Hj2 as [(_&?&_)|[_ Hj2]]; [done..|]. by eapply S8.
  - intros fd. rewrite elem_of_union, elem_of_singleton, S9. split.
    + intros [[Hf Hn]| ->]; (split; [done|]); rewrite moved_lookup by done; rewrite decide_False by congruence; [by case_decide|by rewrite decide_True].
    + intros [Hf Hn]. rewrite moved_lookup in Hn by done. repeat case_decide; [done|by right|by left].
Qed.

Lemma Serving_new s ssID srv c F (i : nat) fd k s' :
  Serving s ssID srv c F → c !! i = Some None → fd ∈ F → 0 ≤ socket_fd k → table s' = moved ssID fd (Some (StSocket k)) srv (<[i := fd]> (client_openfileID srv)) (table s) →
  Serving s' ssID (with_clients (<[i := fd]> (client_openfileID srv)) srv) (<[i := Some (fd, socket_fd k)]> c) (F ∖ {[fd]}).
Proof.
  intros HS Hc HF Hsd Et. pose proof HS as [S1 S2 S3 S4 S5 S6 S7 S8 S9]. apply S9 in HF as [Hf Hfree]. assert (Hne : fd ≠ ssID) by (intros ->; congruence).
  assert (Hold : ∀ j id sd, c !! j = Some (Some (id, sd)) → id ≠ fd) by (intros j id sd Hj ->; destruct (S7 j _ _ Hj) as (_&_&k'&Hk&_); congruence).
  assert (Hi : (i < length c)%nat) by (by eapply lookup_lt_Some).
  split; rewrite ?Et; try done.
  - unfold moved. by rewrite !length_insert.
  - rewrite moved_lookup by done. by rewrite decide_True.
  - cbn [with_clients client_openfileID]. by rewrite map_insert_conn, S5.
  - by rewrite length_insert.
  - intros j id sd Hj. rewrite list_lookup_insert_Some in Hj. destruct Hj as [(<-&[= <- <-]&_)|[Hij Hj]].
    + split; [done|]. split; [done|]. exists k. split; [|done]. rewrite moved_lookup by done. by rewrite decide_False, decide_True.
    + destruct (S7 j id sd Hj) as (Hid&Hsd'&k'&Hk&Esd). split; [done|]. split; [done|]. exists k'. split; [|done]. rewrite moved_lookup by done.
      rewrite decide_False by (eapply conn_not_server; [exact HS|exact Hj]). rewrite decide_False; [done|]. by eapply Hold.
  - intros j1 j2 id sd1 sd2 Hj1 Hj2. rewrite list_lookup_insert_Some in Hj1, Hj2. destruct Hj1 as [(<-&[= <- <-]&_)|[_ Hj1]], Hj2 as [(<-&E&_)|[_ Hj2]]; try done.
    + by apply Hold in Hj2.
    + injection E as <- <-. by apply Hold in Hj1.
    + by eapply S8.
  - intros x. rewrite elem_of_difference, elem_of_singleton, S9. split.
    + intros [[Hx Hn] Hxf]. split; [done|]. rewrite moved_lookup by done. rewrite decide_False by congruence. by rewrite decide_False.
    + intros [Hx Hn]. rewrite moved_lookup in Hn by done. repeat case_decide; done.
Qed.

Lemma client_id s ssID srv c F (i : nat) o : Serving s ssID srv c F → c !! i = Some o → aget (client_openfileID srv) (Z.of_nat i) = Ok (from_option fst (-1) o).
Proof. intros HS Hc. apply aget_Ok. split; [lia|]. rewrite (sv_clients _ _ _ _ _ HS), Nat2Z.id. pose proof (list_lookup_fmap (λ o : option (Z * Z), from_option fst (-1) o) c i) as E. rewrite Hc in E. exact E. Qed.

(** What has been done so far: the calls and the state of the server. *)
Record Step s ssID srv (R : Conns → list netcall → Conns → Prop) c F s' : Prop := {
  st_ex : ∃ l srv' c' F', calls s' = calls s ++ l ∧ R (c, F) l (c', F') ∧ Serving s' ssID srv' c' F' ∧ ss_fd srv' = ss_fd srv
}.

Lemma FDT_close_socket s id k : 2 ≤ id < 20 → length (table s) = 20%nat → table s !! Z.to_nat id = Some (Some (StSocket k)) → socket_fd k ≠ -1 →
  ∃ s' r, FDT_close id s = NDone _ 0 s' ∧ calls s' = calls s ++ [CClose (socket_fd k) r] ∧ table s' = <[Z.to_nat id := None]> (table s).
Proof.
  intros Hid Hl Hk Hsd. unfold FDT_close, FDT_close_with. rewrite good_fd by done. nrun.
  assert (E : aget (table s) id = Ok (Some (StSocket k))) by (apply aget_Ok; split; [lia|done]). rewrite E. cbn [destroy depth]. nrun.
  rewrite (proj2 (Z.eqb_neq _ _) Hsd). cbn [negb]. unfold sockClose, syscall. destruct (n_close (socket_fd k) (net s)) as [r w] eqn:Ec. cbn [table].
  rewrite aset_in by lia. eexists _, r. split; [reflexivity|]. done.
Qed.

Context `{!NetLaws N}.

(** What looking at the connection at place [i] comes to. *)
Definition Place {A} s ssID srv (ready : list Z) (i : nat) c F (o : @nout N A) : Prop :=
  match o with
  | NDone _ _ s' => Step s ssID srv (attend ready i) c F s'
  | NStopped _ _ t s' => ∃ l, break ready i (c, F) l (Some t) ∧ calls s' = calls s ++ l
  | NFailed _ e s' => e = BadAccess ∧ ∃ l, break ready i (c, F) l None ∧ calls s' = calls s ++ l
  | _ => False
  end.

Lemma slot_ok fd : 0 ≤ fd < 1024 → fd_slot fd = Ok tt.
Proof. intros Hf. unfold fd_slot, FD_SETSIZE. by rewrite (proj2 (Z.leb_le 0 _)), (proj2 (Z.ltb_lt _ _)) by lia. Qed.

Lemma slot_bad fd : ¬ 0 ≤ fd < 1024 → fd_slot fd = Err BadAccess.
Proof. intros Hf. unfold fd_slot, FD_SETSIZE. destruct (Z.leb_spec 0 fd), (Z.ltb_spec fd 1024); try done. lia. Qed.

Lemma message_ok s ssID srv c F (i : nat) id sd ready :
  Serving s ssID srv c F → c !! i = Some (Some (id, sd)) → sd < 1024 → sd ∈ ready → Place s ssID srv ready i c F (handleClientCommingMessage ssID (Z.of_nat i) s).
Proof.
  intros HS Hc Hmax Hr. pose proof HS as [S1 S2 S3 S4 S5 S6 S7 S8 S9]. destruct (S7 i id sd Hc) as (Hid&Hsd&k&Hk&Ek).
  unfold handleClientCommingMessage. nrun. rewrite (this_ok s ssID srv) by done. rewrite (client_id s ssID srv c F i (Some (id, sd)) HS Hc). cbn [from_option fst].
  rewrite (client_at s id k) by done. unfold Socket_read, sockRead, waitcall at 1. nrun. rewrite Ek.
  destruct (n_read sd MaxMailSize (net s)) as [[r data] w|why] eqn:Er; [|exists []; rewrite app_nil_r; split; [by eapply bk_read|done]].
  pose proof (n_read_ok sd MaxMailSize (net s) r data w ltac:(done) Er) as Hlaw. cbn beta iota.
  assert (Hdata : Forall is_byte data ∧ (length data ≤ 64)%nat ∧ Z.to_nat r = length data).
  { destruct Hlaw as [[-> ->]|(Hr0&Hr1&Hby)]; [split; [by constructor|]; split; [cbn; lia|done]|]. split; [done|]. unfold MaxMailSize, MAX_ALLOWED_BUFFER_SIZE in *. lia. }
  destruct Hdata as (Hby&Hlen&Hr64). change (Z.to_nat MaxMailSize) with 64%nat. rewrite length_replicate. rewrite (proj2 (Nat.leb_le _ _) Hlen). set (s1 := mkNState w (table s) _).
  destruct (Z.eqb_spec r 0) as [->|Hr0].
  - destruct data as [|]; [|done]. unfold syscall. destruct (n_getpeername sd (net s1)) as [r0 w0]. cbn [table calls s1]. set (s1' := mkNState w0 _ _).
    destruct (FDT_close_socket s1' id k) as (s2&r2&E2&Ecalls&Et); [done|done|done|lia|]. rewrite E2.
    assert (Hne : id ≠ ssID) by (eapply conn_not_server; [exact HS|exact Hc]).
    assert (Hl : (i < length (client_openfileID srv))%nat) by (rewrite S5, length_map; by eapply lookup_lt_Some).
    rewrite (set_client_ok s2 ssID srv i (-1)); [|done|rewrite Et, length_insert; done| |done].
    + split. exists [CRead sd 64 0 []; CGetpeername sd r0; CClose sd r2], (with_clients (<[i := -1]> (client_openfileID srv)) srv), (<[i := None]> c), (F ∪ {[id]}).
      cbn [calls set_table]. rewrite Ecalls. cbn [calls s1']. split; [by rewrite <- !app_assoc, Ek|]. split; [by eapply at_hangup|]. split; [|done].
      eapply Serving_hangup; [exact HS|exact Hc|]. cbn [table set_table]. unfold moved. by rewrite Et.
    + rewrite Et. cbn [table s1']. by rewrite list_lookup_insert_ne by lia.
  - pose proof (read_buffer data Hlen) as Hbuf. cbn zeta in Hbuf. rewrite Hr64, Hbuf. destruct (decide (ends_in_buffer data)) as [He|He].
    + destruct (buffer_string data Hby Hlen He) as [E1 E2]. rewrite E1. unfold Socket_write, sockWrite, waitcall. nrun. rewrite length_map, Nat2Z.id.
      assert (Hpre : (length (before_nul data) ≤ length data)%nat) by (apply prefix_length, before_nul_prefix).
      rewrite (proj2 (Z.leb_le 0 _)), (proj2 (Z.leb_le _ _)) by (rewrite ?length_app, ?length_map; lia). cbn [andb]. rewrite E2, Ek.
      destruct (n_write sd (answer data) (net s1)) as [r2 w2|why]; [|exists [CRead sd 64 r data]; split; [by eapply bk_write|done]].
      split. exists [CRead sd 64 r data; CWrite sd (answer data) r2], srv, c, F. cbn [calls s1]. split; [by rewrite <- app_assoc|]. split; [by eapply at_answer|]. split; [|done].
      by apply (Serving_same s).
    + unfold ends_in_buffer in He. assert (Hl : length data = 64%nat) by lia. assert (Hn : 0 ∉ data) by tauto. rewrite (buffer_unterminated data Hby Hl Hn).
      split; [done|]. exists [CRead sd 64 64 data]. split; [by eapply bk_message|]. cbn [calls s1]. by replace r with 64 by lia.
Qed.

(** What looking at the places from [i] on comes to, [n] of them. *)
Definition Stop s (ready : list Z) (i : nat) c F t s' : Prop :=
  ∃ j l K l', attend_all ready i j (c, F) l K ∧ break ready (i + j) K l' t ∧ calls s' = calls s ++ l ++ l'.
Definition Places s ssID srv (ready : list Z) (i n : nat) c F (o : @nout N unit) : Prop :=
  match o with
  | NDone _ _ s' => Step s ssID srv (attend_all ready i n) c F s'
  | NStopped _ _ t s' => Stop s ready i c F (Some t) s'
  | NFailed _ e s' => e = BadAccess ∧ Stop s ready i c F None s'
  | _ => False
  end.

Lemma place_ok s ssID srv c F (i : nat) ready : Serving s ssID srv c F → (i < 30)%nat →
  Place s ssID srv ready i c F ((s0 ← this ssID; id ← nlift (aget (client_openfileID s0) (Z.of_nat i));
    if id =? -1 then mret tt else k ← client id; nlift (fd_slot (socket_fd k)) ;; if bool_decide (socket_fd k ∈ ready) then handleClientCommingMessage ssID (Z.of_nat i) else mret tt) s).
Proof.
  intros HS Hi. pose proof HS as [S1 S2 S3 S4 S5 S6 S7 S8 S9]. nrun. rewrite (this_ok s ssID srv) by done.
  destruct (lookup_lt_is_Some_2 c i) as [o Ho]; [lia|]. rewrite (client_id s ssID srv c F i o HS Ho). destruct o as [[id sd]|]; cbn [from_option fst].
  - destruct (S7 i id sd Ho) as (Hid&Hsd&k&Hk&Ek). rewrite (proj2 (Z.eqb_neq id (-1))) by lia. rewrite (client_at s id k) by done. rewrite Ek. destruct (decide (sd < 1024)) as [Hmax|Hmax].
    + rewrite slot_ok by lia. case_bool_decide as Hr; [by apply (message_ok s ssID srv c F i id sd)|].
      split. exists [], srv, c, F. rewrite app_nil_r. split; [done|]. split; [by eapply at_quiet|done].
    + rewrite slot_bad by lia. split; [done|]. exists []. rewrite app_nil_r. split; [eapply bk_slot; [exact Ho|lia]|done].
  - split. exists [], srv, c, F. rewrite app_nil_r. split; [done|]. split; [by apply at_none|done].
Qed.

Lemma serve_cons ssID ready n i s : serve ssID ready (Datatypes.S n) i s
  = ((s0 ← this ssID; id ← nlift (aget (client_openfileID s0) i);
      if id =? -1 then mret tt else k ← client id; nlift (fd_slot (socket_fd k)) ;; if bool_decide (socket_fd k ∈ ready) then handleClientCommingMessage ssID i else mret tt) ;; serve ssID ready n (i + 1)) s.
Proof. cbn [serve]. nrun. destruct (this ssID s) as [x s1|s1|w t s1|s1|e s1]; try done. by destruct (aget _ _). Qed.

Lemma serve_ok ssID ready : ∀ (n i : nat) s srv c F, Serving s ssID srv c F → (i + n = 30)%nat → Places s ssID srv ready i n c F (serve ssID ready n (Z.of_nat i) s).
Proof.
  induction n as [|n IH]; intros i s srv c F HS Hi.
  - split. exists [], srv, c, F. rewrite app_nil_r. split; [done|]. split; [apply aa_nil|done].
  - rewrite serve_cons. unfold mbind at 1, NK_bind at 1. pose proof (place_ok s ssID srv c F i ready HS ltac:(lia)) as HP.
    assert (Hbr : ∀ t s' l, break ready i (c, F) l t → calls s' = calls s ++ l → Stop s ready i c F t s').
    { intros t s' l Hb E. exists 0%nat, [], (c, F), l. rewrite Nat.add_0_r. split; [apply aa_nil|done]. }
    destruct ((s0 ← this ssID; _) s) as [[] s1|s1|w t s1|s1|e s1]; cbn [Place Places] in HP |- *; try done; [|destruct HP as (l&Hb&E); by apply (Hbr _ _ l)|destruct HP as (->&l&Hb&E); split; [done|]; by apply (Hbr _ _ l)].
    destruct HP as [(l1&srv1&c1&F1&E1&HA&HS1&Ess)]. replace (Z.of_nat i + 1) with (Z.of_nat (Datatypes.S i)) by lia.
    assert (Hst : ∀ t s', Stop s1 ready (Datatypes.S i) c1 F1 t s' → Stop s ready i c F t s').
    { intros t s' (j&l&K&l'&HA2&Hb&Ec). exists (Datatypes.S j), (l1 ++ l), K, l'. split; [by eapply aa_cons|]. split; [by replace (i + Datatypes.S j)%nat with (Datatypes.S i + j)%nat by lia|]. rewrite Ec, E1. by rewrite !app_assoc. }
    pose proof (IH (Datatypes.S i) s1 srv1 c1 F1 HS1 ltac:(lia)) as HI. destruct (serve ssID ready n (Z.of_nat (Datatypes.S i)) s1) as [[] s2|s2|w t s2|s2|e s2]; cbn [Places] in HI |- *; try done.
    + destruct HI as [(l2&srv2&c2&F2&E2&HA2&HS2&Ess2)]. split. exists (l1 ++ l2), srv2, c2, F2. rewrite E2, E1, app_assoc. split; [done|]. split; [by eapply aa_cons|]. split; [done|congruence].
    + by apply Hst.
    + destruct HI as [-> HI]. split; [done|]. by apply Hst.
Qed.

(** ** New connections *)

Lemma free_loop_lowest {A} (t : list (option A)) : ∀ k i, 0 ≤ i → i + Z.of_nat k ≤ Z.of_nat (length t) →
  ∃ r, free_loop k i t = Ok r ∧ (r = -1 ∧ (∀ x, i ≤ x < i + Z.of_nat k → t !! Z.to_nat x ≠ Some None)
    ∨ i ≤ r < i + Z.of_nat k ∧ t !! Z.to_nat r = Some None ∧ ∀ x, i ≤ x < r → t !! Z.to_nat x ≠ Some None).
Proof.
  induction k as [|k IH]; intros i Hi Hl; cbn [free_loop]; [exists (-1); split; [done|]; left; split; [done|lia]|].
  destruct (aget_ex t i) as [e He]; [lia|]. rewrite He. cbn [mbind res_bind]. apply aget_Ok in He as [_ He]. destruct e as [e|].
  - destruct (IH (i + 1)) as (r&E&Hr); [lia|lia|]. exists r. split; [done|]. assert (Hne : ∀ x, x = i → t !! Z.to_nat x ≠ Some None) by (intros x ->; congruence).
    destruct Hr as [[-> Hr]|(Hr&Hn&Hx)]; [left|right].
    + split; [done|]. intros x Hx. destruct (decide (x = i)); [by apply Hne|apply Hr; lia].
    + split; [lia|]. split; [done|]. intros x Hx'. destruct (decide (x = i)); [by apply Hne|apply Hx; lia].
  - exists i. split; [done|]. right. split; [lia|]. split; [done|lia].
Qed.

Lemma getFree_lowest s ssID srv c F : Serving s ssID srv c F →
  getFreeFileDescriptor (table s) = Ok (-1) ∧ F = ∅ ∨ ∃ fd, getFreeFileDescriptor (table s) = Ok fd ∧ lowest F fd ∧ 2 ≤ fd < 20.
Proof.
  intros HS. pose proof (sv_free _ _ _ _ _ HS) as HF. destruct (free_loop_lowest (table s) 18 2) as (r&E&Hr); [done|rewrite (sv_len _ _ _ _ _ HS); lia|].
  unfold getFreeFileDescriptor. change (Z.to_nat (MAX_FILE_DESCRIPTOR - 2)) with 18%nat. rewrite E. destruct Hr as [[-> Hr]|(Hr&Hn&Hx)]; [left|right].
  - split; [done|]. apply set_eq. intros x. rewrite HF. split; [|set_solver]. intros [Hx Hxn]. by destruct (Hr x ltac:(lia)).
  - exists r. split; [done|]. split; [|lia]. split; [apply HF; split; [lia|done]|]. intros x [Hx1 Hx2]%HF. destruct (decide (x < r)); [|lia]. by destruct (Hx x ltac:(lia)).
Qed.

(** There are more places than descriptors. *)
Lemma place_exists s ssID srv c F : Serving s ssID srv c F → ∃ i, first_place c i.
Proof.
  intros HS. destruct (decide (Exists (λ o, o = None) c)) as [He|He].
  - clear HS. induction c as [|[x|] c IH]; [by apply Exists_nil in He| |].
    + apply Exists_cons in He as [?|He]; [done|]. destruct (IH He) as (i&H1&H2). exists (Datatypes.S i). split; [done|]. intros [|j] Hj; [by exists x|]. apply H2. lia.
    + exists 0%nat. split; [done|]. intros j Hj. lia.
  - exfalso. pose proof HS as [S1 S2 S3 S4 S5 S6 S7 S8 S9]. set (ids := (λ o : option (Z * Z), from_option fst (-1) o) <$> c).
    assert (Hids : ∀ i id, ids !! i = Some id → ∃ sd, c !! i = Some (Some (id, sd))).
    { intros i id Hi. apply list_lookup_fmap_Some in Hi as (o&Eo&Hi). destruct o as [[id' sd]|]; cbn in Eo; subst; [by exists sd|]. exfalso. apply He. apply Exists_exists. exists None. split; [by eapply list_elem_of_lookup_2|done]. }
    assert (Hnd : NoDup ids).
    { apply NoDup_alt. intros i j id Hi Hj. destruct (Hids i id Hi) as [sd Hc1], (Hids j id Hj) as [sd' Hc2]. by eapply S8. }
    assert (Hsub : ids ⊆ seqZ 2 18).
    { intros id Hin. apply list_elem_of_lookup in Hin as [i Hi]. destruct (Hids i id Hi) as [sd Hc]. destruct (S7 i id sd Hc) as (Hid&_). apply elem_of_seqZ. lia. }
    pose proof (submseteq_length _ _ (NoDup_submseteq _ _ Hnd Hsub)) as Hlen. unfold ids in Hlen. rewrite length_fmap, S6, length_seqZ in Hlen. lia.
Qed.

Lemma new_connection_ok g s ssID srv c F sock p ready : Serving s ssID srv c F → 0 ≤ sock → first_place c p → ss_fd srv ∈ ready →
  ∀ (n i : nat), (i + n = 30)%nat → (i ≤ p)%nat →
  ∃ s' l srv' c' F', handleClientNewConnection g ssID sock n (Z.of_nat i) s = NDone _ tt s' ∧ calls s' = calls s ++ l
    ∧ welcome (ss_fd srv) ready (c, F) (CAccept (ss_fd srv) sock :: l) (c', F') ∧ Serving s' ssID srv' c' F' ∧ ss_fd srv' = ss_fd srv.
Proof.
  intros HS Hsock [Hp Hfirst] Hss. pose proof HS as [S1 S2 S3 S4 S5 S6 S7 S8 S9]. assert (Hp30 : (p < 30)%nat) by (rewrite <- S6; by eapply lookup_lt_Some).
  induction n as [|n IH]; intros i Hi Hip; [lia|]. cbn [handleClientNewConnection]. nrun. rewrite (this_ok s ssID srv) by done. destruct (decide (i = p)) as [->|Hne].
  - rewrite (client_id s ssID srv c F p None HS Hp). cbn [from_option Z.ltb Z.compare]. unfold Add.
    destruct (getFree_lowest s ssID srv c F HS) as [[-> ->]|(fd&->&Hlow&Hfd)]; cbn [mbind res_bind].
    + change (-1 =? -1) with true. cbn beta iota. change (-1 <? 0) with true. cbn beta iota. cbn [destroy depth socket_fd]. rewrite (proj2 (Z.eqb_neq sock (-1))) by lia. cbn [negb]. unfold sockClose, syscall. nrun. cbn [net set_table].
      destruct (n_close sock (net s)) as [r w]. eexists _, [CClose sock r], srv, c, ∅. split; [reflexivity|]. split; [done|]. split; [by apply wl_full|]. split; [|done]. by apply (Serving_same s).
    + rewrite (proj2 (Z.eqb_neq fd (-1))) by lia. rewrite aset_in by lia. cbn [mbind res_bind]. cbn beta iota. rewrite (proj2 (Z.ltb_ge fd 0)) by lia.
      assert (Hnes : fd ≠ ssID) by (intros ->; destruct Hlow as [Hlow _]; apply S9 in Hlow as [_ Hn]; congruence).
      set (k := mkSocket sock _ _). rewrite (set_client_ok _ ssID srv p fd); [|done|cbn; by rewrite length_insert|cbn; by rewrite list_lookup_insert_ne by lia|rewrite S5, length_map, S6; done].
      eexists _, [], (with_clients (<[p := fd]> (client_openfileID srv)) srv), (<[p := Some (fd, sock)]> c), (F ∖ {[fd]}). split; [reflexivity|]. split; [cbn; by rewrite app_nil_r|].
      split; [by apply wl_new|]. split; [|done]. apply (Serving_new s ssID srv c F p fd k); try done. apply Hlow.
  - destruct (Hfirst i ltac:(lia)) as [[id sd] Hc]. rewrite (client_id s ssID srv c F i (Some (id, sd)) HS Hc). cbn [from_option fst]. destruct (S7 i id sd Hc) as (Hid&_). rewrite (proj2 (Z.ltb_ge id 0)) by lia.
    replace (Z.of_nat i + 1) with (Z.of_nat (Datatypes.S i)) by lia. apply IH; lia.
Qed.

(** ** A round *)

Definition watched (c : list (option (Z * Z))) : list Z := filter (λ sd, 0 < sd) (sockets_of c).

Lemma watched_cons id sd c : watched (Some (id, sd) :: c) = if 0 <? sd then sd :: watched c else watched c.
Proof. unfold watched. change (sockets_of (Some (id, sd) :: c)) with (sd :: sockets_of c). rewrite filter_cons. destruct (Z.ltb_spec 0 sd); case_decide; done || lia. Qed.

Lemma watch_ok s : ∀ c fds m,
  (∀ i id sd, c !! i = Some (Some (id, sd)) → 2 ≤ id < 20 ∧ 0 ≤ sd ∧ ∃ k, table s !! Z.to_nat id = Some (Some (StSocket k)) ∧ socket_fd k = sd) →
  -1 ≤ m → Forall (λ fd, fd ≤ m) fds →
  let o := watch (map (λ o, from_option fst (-1) o) c) fds m s in
  if decide (Forall (λ fd, fd < 1024) (watched c)) then ∃ m', o = NDone _ (fds ++ watched c, m') s ∧ Forall (λ fd, fd ≤ m') (fds ++ watched c)
  else o = NFailed _ BadAccess s.
Proof.
  induction c as [|o c IH]; intros fds m Hc Hm HF; cbn [map watch].
  - rewrite decide_True by constructor. exists m. cbn. rewrite app_nil_r. done.
  - assert (Hc' : ∀ i id sd, c !! i = Some (Some (id, sd)) → 2 ≤ id < 20 ∧ 0 ≤ sd ∧ ∃ k, table s !! Z.to_nat id = Some (Some (StSocket k)) ∧ socket_fd k = sd) by (intros i; apply (Hc (Datatypes.S i))).
    destruct o as [[id sd]|]; cbn [from_option fst].
    + destruct (Hc 0%nat id sd eq_refl) as (Hid&Hsd&k&Hk&Ek). rewrite (proj2 (Z.eqb_neq id (-1))) by lia. cbn [negb]. nrun. rewrite (client_at s id k) by done. rewrite Ek, watched_cons.
      set (m1 := if m <? sd then sd else m). assert (Hm1 : m ≤ m1 ∧ sd ≤ m1) by (unfold m1; destruct (Z.ltb_spec m sd); lia).
      assert (HF1 : Forall (λ fd, fd ≤ m1) fds) by (eapply Forall_impl; [exact HF|]; cbn; lia). destruct (Z.ltb_spec 0 sd) as [H0|H0].
      * destruct (decide (sd < 1024)) as [Hmax|Hmax]; [|rewrite slot_bad, decide_False by (rewrite ?Forall_cons; lia); done]. rewrite slot_ok by lia. cbn beta iota.
        pose proof (IH (fds ++ [sd]) m1 Hc' ltac:(lia) ltac:(apply Forall_app_2; [done|apply Forall_singleton; lia])) as HI. cbv zeta in HI. case_decide as Hall.
        -- rewrite decide_True by (by constructor). destruct HI as (m'&E&HF'). rewrite <- app_assoc in E, HF'. by exists m'.
        -- by rewrite decide_False by (rewrite Forall_cons; tauto).
      * by apply IH; [|lia|].
    + change (-1 =? -1) with true. cbn [negb]. nrun. change (0 <? -1) with false. cbn beta iota. rewrite (proj2 (Z.ltb_ge m (-1))) by lia. by apply IH.
Qed.

(** How a run of the server ends, seen from outside. *)
Definition Broken s srv c F (t : option attempt) s' : Prop :=
  ∃ l K l', session (ss_fd srv) (c, F) l K ∧ stopped (ss_fd srv) K l' t ∧ calls s' = calls s ++ l ++ l'.
Definition Ended s ssID srv c F (o : nout Z) : Prop :=
  match o with
  | NRunning _ s' => Step s ssID srv (session (ss_fd srv)) c F s'
  | NDone _ r s' => r = -5 ∧ ∃ l c' F' nfds fds ready r', session (ss_fd srv) (c, F) l (c', F') ∧ watches (ss_fd srv) c' nfds fds ∧ ss_fd srv ∈ ready
      ∧ r' < 0 ∧ calls s' = calls s ++ l ++ [CSelect nfds fds ready; CAccept (ss_fd srv) r']
  | NStopped _ _ t s' => Broken s srv c F (Some t) s'
  | NFailed _ e s' => e = BadAccess ∧ Broken s srv c F None s'
  | NHalted _ _ => False
  end.

(** What a round comes to. *)
Definition Round s ssID srv c F (o : nout (option Z)) : Prop :=
  match o with
  | NDone _ None s' => Step s ssID srv (session (ss_fd srv)) c F s'
  | NDone _ (Some e) s' => Ended s ssID srv c F (NDone _ e s')
  | NStopped _ w t s' => Ended s ssID srv c F (NStopped _ w t s')
  | NFailed _ e s' => Ended s ssID srv c F (NFailed _ e s')
  | _ => False
  end.

Lemma broken_now s srv c F l' t s' : stopped (ss_fd srv) (c, F) l' t → calls s' = calls s ++ l' → Broken s srv c F t s'.
Proof. intros Hst E. exists [], (c, F), l'. split; [apply ss_nil|done]. Qed.

(** The places, in a round that has done [l] since select. *)
Lemma round_serve s ssID srv c F nfds fds ready l s2 srv2 c2 F2 :
  watches (ss_fd srv) c nfds fds → calls s2 = calls s ++ CSelect nfds fds ready :: l → welcome (ss_fd srv) ready (c, F) l (c2, F2) →
  Serving s2 ssID srv2 c2 F2 → ss_fd srv2 = ss_fd srv → Round s ssID srv c F ((serve ssID ready (Z.to_nat MAX_CLIENTS) 0 ;; mret None) s2).
Proof.
  intros Hw El Hwel HS2 Ess. change (Z.to_nat MAX_CLIENTS) with 30%nat. pose proof (serve_ok ssID ready 30 0 s2 srv2 c2 F2 HS2 eq_refl) as HP. change (Z.of_nat 0) with 0 in HP. nrun.
  assert (Hbr : ∀ t s', Stop s2 ready 0 c2 F2 t s' → Broken s srv c F t s').
  { intros t s' (j&l3&K&l'&HA&Hb&E). eapply broken_now; [eapply sp_place; [by eapply hr_places|exact Hb]|]. rewrite E, El, <- !app_assoc. cbn [app]. by rewrite <- !app_assoc. }
  destruct (serve ssID ready 30 0 s2) as [[] s3|s3|w t s3|s3|e s3]; cbn [Places Round Ended] in HP |- *; try done; [|by apply Hbr|by destruct HP as [-> HP]; split; [|apply Hbr]].
  destruct HP as [(l3&srv3&c3&F3&Ec3&HA&HS3&Ess3)]. split. exists (CSelect nfds fds ready :: l ++ l3 ++ []), srv3, c3, F3. rewrite Ec3, El, app_nil_r, <- !app_assoc. split; [done|]. split; [|split; [done|congruence]].
  pose proof (ss_round (ss_fd srv) c F nfds fds ready l (c2, F2) l3 (c3, F3) [] (c3, F3) Hw Hwel HA (ss_nil _ _)) as Hsess. by rewrite app_nil_r in Hsess.
Qed.

(** A round, from the state of the server to what follows. *)
Lemma round_ok g s ssID srv c F : Serving s ssID srv c F → Round s ssID srv c F (round g ssID s).
Proof.
  intros HS. pose proof HS as [S1 S2 S3 S4 S5 S6 S7 S8 S9]. unfold round. nrun. rewrite (this_ok s ssID srv) by done. rewrite S5.
  assert (Hbad : ∀ fd, fd ∈ ss_fd srv :: watched c → ¬ 0 ≤ fd < 1024 → Ended s ssID srv c F (NFailed _ BadAccess s)).
  { intros fd Hin Hfd. split; [done|]. eapply broken_now; [by eapply sp_watch|]. by rewrite app_nil_r. }
  destruct (decide (0 ≤ ss_fd srv < 1024)) as [Hss|Hss]; [|rewrite slot_bad by done; by apply (Hbad (ss_fd srv)); [left|]]. rewrite slot_ok by done. cbn beta iota.
  pose proof (watch_ok s c [ss_fd srv] (ss_fd srv) S7 ltac:(lia) ltac:(by apply Forall_singleton)) as Hwatch. cbv zeta in Hwatch. case_decide as Hall.
  2: { rewrite Hwatch. apply not_Forall_Exists, Exists_exists in Hall as (fd&Hin&Hfd); [|apply _]. apply (Hbad fd); [by right|cbn in Hfd; lia]. }
  destruct Hwatch as (m&->&Hm). cbn beta iota. set (fds := [ss_fd srv] ++ _) in *.
  assert (Hw : watches (ss_fd srv) c (m + 1) fds).
  { split; [done|]. apply Forall_forall. intros fd Hin. pose proof (proj1 (Forall_forall _ _) Hm fd Hin) as Hle. cbn in Hle. split; [|lia]. apply elem_of_cons in Hin as [->|Hin]; [done|].
    pose proof (proj1 (Forall_forall _ _) Hall fd Hin) as Hlt. apply list_elem_of_filter in Hin as [Hpos _]. cbn in Hlt. lia. }
  unfold select, waitcall at 1. destruct (n_select (m + 1) fds (net s)) as [ready w|why]; [|eapply broken_now; [by eapply sp_select|by rewrite app_nil_r]].
  set (s1 := mkNState w (table s) _). assert (HS1 : Serving s1 ssID srv c F) by (by apply (Serving_same s)). case_bool_decide as Hin.
  - unfold waitcall. destruct (n_accept (ss_fd srv) (net s1)) as [sock w2|why]; [|eapply broken_now; [by eapply sp_accept|done]]. cbn [table calls s1]. set (s2 := mkNState w2 _ _). destruct (Z.ltb_spec sock 0) as [Hneg|Hpos].
    + unfold set_error. nrun. rewrite (this_ok s2 ssID srv) by done. unfold put_this. rewrite put_stream_ok by done. split; [done|].
      exists [], c, F, (m + 1), fds, ready, sock. split; [apply ss_nil|]. split_and!; try done. cbn [calls set_table s2 app]. by rewrite <- app_assoc.
    + assert (HS2 : Serving s2 ssID srv c F) by (by apply (Serving_same s)). destruct (place_exists s2 ssID srv c F HS2) as [p Hp].
      destruct (new_connection_ok g s2 ssID srv c F sock p ready HS2 Hpos Hp Hin 30 0 eq_refl ltac:(lia)) as (s3&l&srv3&c3&F3&E3&Ec3&Hwel&HS3&Ess).
      change (Z.to_nat MAX_CLIENTS) with 30%nat at 1. change (Z.of_nat 0) with 0 in E3. rewrite E3.
      apply (round_serve s ssID srv c F (m + 1) fds ready (CAccept (ss_fd srv) sock :: l) s3 srv3 c3 F3); try done. rewrite Ec3. cbn [calls s2]. by rewrite <- !app_assoc.
  - apply (round_serve s ssID srv c F (m + 1) fds ready [] s1 srv c F); try done. by apply wl_none.
Qed.

Lemma session_trans ss K1 l1 K2 l2 K3 : session ss K1 l1 K2 → session ss K2 l2 K3 → session ss K1 (l1 ++ l2) K3.
Proof.
  induction 1 as [K|c F nfds fds ready a1 Ka a2 Kb a3 Kc Hw Hwel Ha Hs IH]; intros H2; [done|]. cbn [app]. rewrite <- !app_assoc. eapply ss_round; [done|done|done|]. by apply IH.
Qed.

(** A session before the end. *)
Lemma Ended_after s ssID srv c F s1 l srv1 c1 F1 o :
  calls s1 = calls s ++ l → session (ss_fd srv) (c, F) l (c1, F1) → ss_fd srv1 = ss_fd srv → Ended s1 ssID srv1 c1 F1 o → Ended s ssID srv c F o.
Proof.
  intros Ec Hs Ess. assert (Hstep : ∀ s', Step s1 ssID srv1 (session (ss_fd srv1)) c1 F1 s' → Step s ssID srv (session (ss_fd srv)) c F s').
  { intros s' [(l'&srv'&c'&F'&E'&Hs'&HS'&Ess')]. rewrite Ess in Hs'. split. exists (l ++ l'), srv', c', F'. rewrite E', Ec, app_assoc. split; [done|]. split; [by eapply session_trans|]. split; [done|congruence]. }
  assert (Hbr : ∀ t s', Broken s1 srv1 c1 F1 t s' → Broken s srv c F t s').
  { intros t s' (l'&K&l2&Hs'&Hst&E'). rewrite Ess in Hs', Hst. exists (l ++ l'), K, l2. split; [by eapply session_trans|]. split; [done|]. by rewrite E', Ec, <- !app_assoc. }
  destruct o as [r s'|s'|w t s'|s'|e s']; cbn [Ended]; [|done|by apply Hbr|by apply Hstep|by intros [-> HB]; split; [|apply Hbr]]. rewrite Ess.
  intros [-> (l'&c'&F'&nfds&fds&ready&r'&Hs'&Hw&Hin&Hr&E')]. split; [done|]. exists (l ++ l'), c', F', nfds, fds, ready, r'. split; [by eapply session_trans|]. split_and!; try done. by rewrite E', Ec, <- !app_assoc.
Qed.

Lemma listen_loop_ok g ssID : ∀ (n : nat) s srv c F, Serving s ssID srv c F → Ended s ssID srv c F (listen_loop g ssID n s).
Proof.
  induction n as [|n IH]; intros s srv c F HS; cbn [listen_loop]; nrun; rewrite (this_ok s ssID srv) by apply HS; rewrite (sv_run _ _ _ _ _ HS); cbn [negb].
  - split. exists [], srv, c, F. rewrite app_nil_r. split; [done|]. split; [apply ss_nil|done].
  - pose proof (round_ok g s ssID srv c F HS) as Hr. destruct (round g ssID s) as [[e|] s1|s1|w t s1|s1|e s1]; try done.
    destruct Hr as [(l&srv1&c1&F1&Ec&Hs&HS1&Ess)]. eapply Ended_after; [exact Ec|exact Hs|exact Ess|]. by apply IH.
Qed.

(** ** Setting up *)

Definition Returns s (o : nout Z) (e : Z) (l : list netcall) : Prop := ∃ s', o = NDone _ e s' ∧ calls s' = calls s ++ l.

Lemma set_error_ok s ssID srv e : 2 ≤ ssID < 20 → length (table s) = 20%nat → table s !! Z.to_nat ssID = Some (Some (StServer srv)) →
  ∃ s' srv', set_error ssID e s = NDone _ e s' ∧ calls s' = calls s ∧ table s' !! Z.to_nat ssID = Some (Some (StServer srv')) ∧ error_code srv' = e.
Proof.
  intros Hf Hl He. unfold set_error. nrun. rewrite (this_ok s ssID srv) by done. unfold put_this. rewrite put_stream_ok by done. eexists _, _. split; [reflexivity|].
  split; [done|]. cbn [table set_table]. rewrite list_lookup_insert_eq by lia. done.
Qed.

(** A setup that fails: listen returns the code. *)
Lemma setup_fails g s s0 ssID srv n e l :
  2 ≤ ssID < 20 → length (table s) = 20%nat → table s !! Z.to_nat ssID = Some (Some (StServer srv)) → e < 0 → calls s = calls s0 ++ l →
  Returns s0 (match set_error ssID e s with
    | NDone _ r s1 => (s2 ← this ssID; if r <? 0 then mret (error_code s2) else put_this ssID (mkServerSocket (ss_fd s2) (ss_port s2) true (client_openfileID s2) (error_code s2)) ;; listen_loop g ssID n) s1
    | NHalted _ s1 => NHalted _ s1 | NStopped _ w t s1 => NStopped _ w t s1 | NRunning _ s1 => NRunning _ s1 | NFailed _ e s1 => NFailed _ e s1 end) e l.
Proof.
  intros Hf Hl He Hneg Ec. destruct (set_error_ok s ssID srv e Hf Hl He) as (s'&srv'&->&Ec'&He'&Ee). nrun. rewrite (this_ok s' ssID srv') by done.
  rewrite (proj2 (Z.ltb_lt e 0)) by done. exists s'. rewrite Ee. split; [done|congruence].
Qed.

(** The server: its socket is made, configured, bound and listened on, then come the
    rounds. *)
Definition Listens s ssID srv F (o : nout Z) : Prop :=
  ∃ ss, let l0 := [CSocket ss] in if decide (ss = 0) then Returns s o (-1) l0 else
  ∃ r1, let l1 := l0 ++ [CSetsockopt ss r1] in if decide (r1 < 0) then Returns s o (-2) l1 else
  ∃ r2, let l2 := l1 ++ [CBind ss (htons (ss_port srv)) r2] in if decide (r2 < 0) then Returns s o (-3) l2 else
  ∃ r3, let l3 := l2 ++ [CListen ss 3 r3] in if decide (r3 < 0) then Returns s o (-4) l3 else
  ∃ s1 srv1, calls s1 = calls s ++ l3 ∧ ss_fd srv1 = ss ∧ Ended s1 ssID srv1 (replicate 30 None) F o.

Lemma listen_ok g s ssID srv F (n : nat) :
  length (table s) = 20%nat → 2 ≤ ssID < 20 → table s !! Z.to_nat ssID = Some (Some (StServer srv)) → (∀ fd, fd ∈ F ↔ 2 ≤ fd < 20 ∧ table s !! Z.to_nat fd = Some None) →
  Listens s ssID srv F (listen g ssID n s).
Proof.
  intros Hl Hf He HF. unfold Listens. remember (listen g ssID n s) as o eqn:Ex. revert Ex. unfold listen, init. nrun. rewrite (this_ok s ssID srv) by done. unfold syscall at 1. pose proof (n_socket_ok (net s)) as Hsock. destruct (n_socket (net s)) as [ss w]. cbn [fst] in Hsock.
  unfold put_this. rewrite put_stream_ok by done. set (srv0 := mkServerSocket ss _ _ _ _). set (s0 := set_table _ _). cbn [table] in s0.
  assert (Hl0 : length (table s0) = 20%nat) by (cbn; by rewrite length_insert). assert (He0 : table s0 !! Z.to_nat ssID = Some (Some (StServer srv0))) by (cbn; by rewrite list_lookup_insert_eq by lia).
  intros Ex; exists ss; revert Ex. case_decide as Hss; [subst ss; change (0 =? 0) with true; intros ->; by apply (setup_fails g s0 s ssID srv0)|]. rewrite (proj2 (Z.eqb_neq ss 0)) by done.
  unfold syscall at 1. destruct (n_setsockopt ss (net s0)) as [r1 w1]. set (s1 := mkNState w1 _ _). intros Ex; exists r1; revert Ex. case_decide as Hr1; [rewrite (proj2 (Z.ltb_lt r1 0)) by done; intros ->; apply (setup_fails g s1 s ssID srv0); try done; cbn; by rewrite <- app_assoc|rewrite (proj2 (Z.ltb_ge r1 0)) by lia].
  unfold syscall at 1. destruct (n_bind ss (htons (ss_port srv)) (net s1)) as [r2 w2]. set (s2 := mkNState w2 _ _). intros Ex; exists r2; revert Ex. case_decide as Hr2; [rewrite (proj2 (Z.ltb_lt r2 0)) by done; intros ->; apply (setup_fails g s2 s ssID srv0); try done; cbn; by rewrite <- !app_assoc|rewrite (proj2 (Z.ltb_ge r2 0)) by lia].
  unfold syscall at 1. destruct (n_listen ss 3 (net s2)) as [r3 w3]. set (s3 := mkNState w3 _ _). intros Ex; exists r3; revert Ex. case_decide as Hr3; [rewrite (proj2 (Z.ltb_lt r3 0)) by done; intros ->; apply (setup_fails g s3 s ssID srv0); try done; cbn; by rewrite <- !app_assoc|rewrite (proj2 (Z.ltb_ge r3 0)) by lia].
  rewrite (this_ok s3 ssID srv0) by done. change (0 <? 0) with false. cbn beta iota. unfold put_this. rewrite put_stream_ok by done. set (srv4 := mkServerSocket _ _ _ _ _). set (s4 := set_table _ _). intros ->. exists s4, srv4. split; [cbn; by rewrite <- !app_assoc|]. split; [done|].
  apply listen_loop_ok. split; cbn [table set_table s4]; try done.
  - by rewrite length_insert.
  - rewrite list_lookup_insert_eq; [done|]. cbn. rewrite length_insert. lia.
  - intros i id sd Hi. by apply lookup_replicate in Hi as [? _].
  - intros i j id sd sd' Hi. by apply lookup_replicate in Hi as [? _].
  - intros fd. rewrite HF. cbn [table s3 s2 s1 s0 set_table]. rewrite list_insert_insert_eq. split; intros [Hfd Hn]; (split; [done|]); destruct (decide (fd = ssID)) as [->|]; [congruence|by rewrite list_lookup_insert_ne by lia| |by rewrite list_lookup_insert_ne in Hn by lia].
    rewrite list_lookup_insert_eq in Hn by lia. done.
Qed.
End SPEC.
End SocketsSpec.

Import CString Files Sockets SocketsSpec.

(** The descriptors that are free. *)
Definition is_free (t : list (option Stream)) (fd : Z) : bool := match t !! Z.to_nat fd with Some None => true | _ => false end.
Definition free_of (t : list (option Stream)) : gset Z := list_to_set (filter (λ fd, Is_true (is_free t fd)) (seqZ 2 18)).

Lemma free_of_spec t fd : fd ∈ free_of t ↔ 2 ≤ fd < 20 ∧ t !! Z.to_nat fd = Some None.
Proof.
  unfold free_of. rewrite elem_of_list_to_set, list_elem_of_filter, elem_of_seqZ. unfold is_free. split.
  - intros [Hf Hr]. split; [lia|]. by destruct (t !! Z.to_nat fd) as [[]|].
  - intros [Hr ->]. split; [done|lia].
Qed.

(** C36 (refinement): the server that ServerListen runs, for any number of rounds
    and whatever the network does.  It creates, configures, binds (to its port in
    network byte order) and listens on its socket, and returns -1 to -4 for the
    first of these steps that the code takes for failed.  Then all its calls to
    the host are a session of an echo server with 30 places: in every round it
    waits for its own socket and for every connection; when its own socket is
    ready it accepts a connection, which gets the first place and the lowest free
    descriptor, or closes it at once when no descriptor is free; then it looks at
    each place in order and reads once from each connection that is ready: a
    message is answered on the same connection with its characters up to a NUL in
    capital letters, and of a connection that has ended the peer is looked up, it
    is closed and its place and descriptor are free again.
    The run ends only with an accept that fails (the result is -5), in a select,
    accept, read or answer in which the host keeps the server waiting or a signal
    kills it (a client that has reset its connection kills it so by SIGPIPE), or
    in an error: when one of its sockets has a number outside 0 to 1023, which has
    no place in the set of select, or when a connection sends 64 characters without a
    NUL, which strlen of the code reads behind the end of the buffer.  No null
    pointer is ever used. *)
Theorem echo_server_correct {N : Type} `{NetLaws N} (s : @NState N) (ssID : Z) (srv : ServerSocket) (garbage : Socket) (n : nat)
    (Hlen : length (table s) = 20%nat) (Hid : 2 ≤ ssID < 20) (Hsrv : table s !! Z.to_nat ssID = Some (Some (StServer srv))) :
  Listens s ssID srv (free_of (table s)) (SysServerListen garbage ssID n s).
Proof.
  assert (Eo : SysServerListen garbage ssID n s = listen garbage ssID n s).
  { unfold SysServerListen, mbind, NK_bind. by rewrite (stream_at_ok s ssID _ Hid Hsrv). }
  rewrite Eo. apply listen_ok; try done. intros fd. apply free_of_spec.
Qed.

(** ** An example *)

(** A network with a script: what select returns, what is read, the number of the
    next connection, and the connections that the other side has reset. *)
Record Script := mkScript { ready_sets : list (list Z); inbox : list (list Z); next_fd : Z; resets : list Z }.

#[global] Instance Script_net : Net Script := {
  n_socket w := (3, w);
  n_setsockopt _ w := (0, w);
  n_bind _ _ w := (0, w);
  n_listen _ _ w := (0, w);
  n_pton l := bool_decide (l ≠ []);
  n_connect _ _ _ w := HReturn 0 w;
  n_select _ _ w := match ready_sets w with [] => HStop Waits | r :: l => HReturn r (mkScript l (inbox w) (next_fd w) (resets w)) end;
  n_accept _ w := HReturn (next_fd w) (mkScript (ready_sets w) (inbox w) (next_fd w + 1) (resets w));
  n_read _ size w := match inbox w with
    | [] => HReturn (-1, []) w
    | d :: l => let data := map u8 (take (Z.to_nat size) d) in HReturn (Z.of_nat (length data), data) (mkScript (ready_sets w) l (next_fd w) (resets w))
    end;
  n_write fd data w := if bool_decide (fd ∈ resets w) then HStop Killed else HReturn (Z.min (Z.of_nat (length data)) 64) w;
  n_getpeername _ w := (0, w);
  n_close _ w := (0, w)
}.

#[global] Instance Script_laws : NetLaws Script.
Proof.
  split.
  - intros w. cbn. unfold halfword. lia.
  - intros fd data w r w' E. cbn in E. case_bool_decide; [done|]. injection E as <- _. unfold halfword. lia.
  - intros fd size w r data w' Hs E. cbn in E. destruct (inbox w) as [|d l]; injection E as <- <- _; [by left|right]. rewrite length_map, length_take. split; [lia|]. split; [done|].
    apply Forall_forall. intros x Hx. apply list_elem_of_fmap in Hx as (y&->&_). apply u8_range.
Qed.

(** A client connects, sends "hi" and hangs up. *)
Definition no_socket : Socket := mkSocket 77 [] 0.
Definition server_with (w : Script) : @NState Script :=
  mkNState w (<[2%nat := Some (StServer (new_ServerSocket 80 []))]> new_FileDescriptorTable) [].
Definition server_state (inbox : list (list Z)) : @NState Script := server_with (mkScript [[3]; [4]; [4]] inbox 4 []).

Example server_answers :
  ∃ s', SysServerListen no_socket 2 9 (server_state [[104; 105]; []]) = NStopped _ Waits (TSelect 4 [3]) s'
    ∧ calls s' = [CSocket 3; CSetsockopt 3 0; CBind 3 20480 0; CListen 3 3 0; CSelect 4 [3] [3]; CAccept 3 4;
         CSelect 5 [3; 4] [4]; CRead 4 64 2 [104; 105]; CWrite 4 [72; 73] 2; CSelect 5 [3; 4] [4]; CRead 4 64 0 []; CGetpeername 4 0; CClose 4 0].
Proof. eexists. split; vm_compute; reflexivity. Qed.

(** 64 characters without a NUL. *)
Example server_crashes :
  ∃ s', SysServerListen no_socket 2 9 (server_state [replicate 64 104]) = NFailed _ BadAccess s'.
Proof. eexists. vm_compute. reflexivity. Qed.

(** The answer to a client that has reset its connection. *)
Example server_killed :
  ∃ s', SysServerListen no_socket 2 9 (server_with (mkScript [[3]; [4]] [[104; 105]] 4 [4])) = NStopped _ Killed (TWrite 4 [72; 73]) s'.
Proof. eexists. vm_compute. reflexivity. Qed.

(** A connection with a number that select cannot watch. *)
Example server_out_of_set :
  ∃ s', SysServerListen no_socket 2 9 (server_with (mkScript [[3]] [] 1024 [])) = NFailed _ BadAccess s'.
Proof. eexists. vm_compute. reflexivity. Qed.

Lemma echo_server_correct_witness :
  Listens (server_state [[104; 105]; []]) 2 (new_ServerSocket 80 []) (free_of (table (server_state [[104; 105]; []])))
    (SysServerListen no_socket 2 9 (server_state [[104; 105]; []])).
Proof. apply echo_server_correct; [reflexivity|lia|reflexivity]. Defined.
