(* ===== verification/SocketCalls.v ===== *)
(** userprog/exception.cc, the calls on sockets: SocketTCP, Connect, Send, Receive,
    Disconnect, ServerCreate and ServerListen.

    A handler works on the registers and the memory of the machine (Syscall.v) and
    on the streams and the network (Sockets.v).  The table of file descriptors is
    the one of Sockets.v; the files in it, which these calls do not touch, are in
    the state of Syscall.v. *)

From S2P Require Import Prelude BitmapLib Machine AddrSpace Files Syscall Sockets.
#[local] Open Scope list_scope.

Module SocketCalls.
Import Machine CString Files Syscall Sockets.

Definition SC_SocketTCP : Z := 60.
Definition SC_Connect : Z := 61.
Definition SC_Send : Z := 62.
Definition SC_Receive : Z := 63.
Definition SC_Disconnect : Z := 64.
Definition SC_ServerCreate : Z := 65.
Definition SC_ServerListen : Z := 66.

Section CALLS.
Context {H ino N : Type} `{Host H ino} `{Net N}.

(** A handler that does not come back waits in a call to the host, or for the
    console ([None]), or is killed in it. *)
Inductive hout (A : Type) :=
| HDone (a : A) (k : @Kern H ino) (s : @NState N)
| HHalted (s : @NState N)
| HStopped (why : stop) (call : option attempt) (s : @NState N)
| HRunning (s : @NState N)
| HFailed (e : fault).

Definition SN (A : Type) : Type := @Kern H ino → @NState N → hout A.
#[global] Instance SN_ret : MRet SN := λ A a k s, HDone A a k s.
#[global] Instance SN_bind : MBind SN := λ A B f c k s,
  match c k s with
  | HDone _ a k s => f a k s
  | HHalted _ s => HHalted B s
  | HStopped _ why t s => HStopped B why t s
  | HRunning _ s => HRunning B s
  | HFailed _ e => HFailed B e
  end.

(** The machine, and the network. *)
Definition sk {A} (c : @S H ino A) : SN A := λ k s,
  match c k with
  | SDone _ a k => HDone A a k s
  | SHalted _ _ => HHalted A s
  | SBlocked _ => HStopped A Waits None s
  | SFailed _ e => HFailed A e
  end.

Definition nk {A} (c : @NK N A) : SN A := λ k s,
  match c s with
  | NDone _ a s => HDone A a k s
  | NHalted _ s => HHalted A s
  | NStopped _ why t s => HStopped A why (Some t) s
  | NRunning _ s => HRunning A s
  | NFailed _ e _ => HFailed A e
  end.

(** What constructors leave uninitialised, and the rounds that listen runs. *)
Variables (garbage : Socket) (ids : list Z) (rounds : nat).

Definition do_SocketTCP : SN unit :=
  socketID ← nk (SysSocketTCP garbage);
  sk (finish socketID).

Definition do_Connect : SN unit :=
  socketID ← sk (mach (ReadRegister 4));
  virtAddr ← sk (mach (ReadRegister 5));
  port ← sk (mach (ReadRegister 6));
  ip ← sk (User2System virtAddr FILE_NAME_MAX_LEN);
  res ← nk (SysConnect socketID ip port);
  sk (finish res).

Definition do_Send : SN unit :=
  socketID ← sk (mach (ReadRegister 4));
  virtAddr ← sk (mach (ReadRegister 5));
  size ← sk (mach (ReadRegister 6));
  buffer ← sk (User2System virtAddr size);
  res ← nk (SysSend socketID buffer size);
  sk (finish res).

Definition do_Receive : SN unit :=
  socketID ← sk (mach (ReadRegister 4));
  virtAddr ← sk (mach (ReadRegister 5));
  size ← sk (mach (ReadRegister 6));
  buffer ← sk (User2System virtAddr size);
  '(res, buffer) ← nk (SysReceive socketID buffer size);
  _ ← sk (System2User virtAddr res buffer);
  sk (finish res).

Definition do_Disconnect : SN unit :=
  socketID ← sk (mach (ReadRegister 4));
  res ← nk (SysDisconnect socketID);
  sk (finish res).

Definition do_ServerCreate : SN unit :=
  port ← sk (mach (ReadRegister 4));
  res ← nk (SysServerCreate ids port);
  sk (finish res).

Definition do_ServerListen : SN unit :=
  ssID ← sk (mach (ReadRegister 4));
  res ← nk (SysServerListen garbage ssID rounds);
  sk (finish res).

Definition socket_call (type : Z) : option (SN unit) :=
  if type =? SC_SocketTCP then Some do_SocketTCP
  else if type =? SC_Connect then Some do_Connect
  else if type =? SC_Send then Some do_Send
  else if type =? SC_Receive then Some do_Receive
  else if type =? SC_Disconnect then Some do_Disconnect
  else if type =? SC_ServerCreate then Some do_ServerCreate
  else if type =? SC_ServerListen then Some do_ServerListen
  else None.

Definition SocketHandler (k : @Kern H ino) (s : @NState N) : option (hout unit) :=
  match ReadRegister 2 (machine k) with
  | Ret type _ => (λ c, c k s) <$> socket_call type
  | Trap _ _ => None
  | Fault e => Some (HFailed unit e)
  end.
End CALLS.
End SocketCalls.

Module SocketCallsSpec.
Import Machine MachineSpec AddrSpaceSpec CString Files FilesSpec Syscall SyscallSpec Sockets SocketsSpec SocketCalls.
Implicit Types (sp : AddrSpace.AddrSpace) (m : Machine).

Section SPEC.
Context {H ino N : Type} `{Host H ino} `{Net N} `{!NetLaws N}.
Implicit Types (f : @State H ino) (s : @NState N).

Ltac hrun := unfold mbind, SN_bind, mret, SN_ret, sk, nk; cbn beta iota.

(** The call has returned [r] and [u] is written to the memory of the program. *)
Definition Back sp m f (r : Z) (u : Z → option Z) s' (o : option (@hout H ino N unit)) : Prop :=
  ∃ m', o = Some (HDone _ tt (mkKern m' f) s') ∧ Returned sp m r u m'.

Lemma socket_case g ids n m f s t c :
  registers m !! 2%nat = Some t → socket_call g ids n t = Some c → SocketHandler g ids n (mkKern m f) s = Some (c (mkKern m f) s).
Proof. intros Ht Hc. unfold SocketHandler. cbn [machine]. rewrite (ReadRegister_run 2 t) by (done || lia). by rewrite Hc. Qed.

Lemma arg_sk {A} m f s (i : Z) v (c : Z → SN A) : registers m !! Z.to_nat i = Some v → 0 ≤ i < 40 → (x ← sk (mach (ReadRegister i)); c x) (mkKern m f) s = c v (mkKern m f) s.
Proof. intros Hi Hr. hrun. unfold mach. cbn [machine files]. by rewrite (ReadRegister_run i v). Qed.

Lemma finish_Back sp m u m1 f r s : updated sp m u m1 → is_s32 r → Back sp m f r u s (Some (sk (finish r) (mkKern m1 f) s)).
Proof. intros Hu Hr. destruct (finish_returns sp m u m1 r f Hu Hr) as (m'&E&HR). exists m'. split; [|done]. unfold sk. by rewrite E. Qed.

(** The call does not come back from [t]. *)
Definition Stops (t : attempt) s (o : option (@hout H ino N unit)) : Prop := ∃ why, o = Some (HStopped _ why (Some t) s).

(** The buffer that Send hands to the network: the characters of the program up to a
    NUL, and zeros. *)
Lemma sent_buffer sp m va (size : nat) l : Runs sp m → Str sp m va size l → map u8 (take size (kbuf l size)) = l ++ replicate (size - length l) 0.
Proof.
  intros HR [S1 S2 S3]. assert (Hl : (length l ≤ size)%nat) by lia. pose proof (holds_bytes sp m va l HR S1) as Hb. unfold kbuf. rewrite take_app_ge by (rewrite length_map; lia).
  rewrite map_app, length_map, take_replicate. f_equal.
  - rewrite map_map. clear -Hb. induction Hb as [|x l Hx _ IH]; [done|]. cbn. by rewrite IH, u8_s8, u8_id.
  - replace ((size - length l) `min` (Datatypes.S size - length l))%nat with (size - length l)%nat by lia. exact (fmap_replicate u8 _ 0).
Qed.

(** A call with a string: what follows User2System. *)
Lemma string_sk {A} sp m f s va (limit : nat) l (c : list Z → SN A) : Runs sp m → is_s32 (Z.of_nat limit + 1) → Str sp m va limit l →
  ∃ m1, quiet sp m m1 ∧ (b ← sk (User2System va (Z.of_nat limit)); c b) (mkKern m f) s = c (kbuf l limit) (mkKern m1 f) s.
Proof. intros HR Hl Hs. destruct (User2System_ok sp m f va limit l HR Hl Hs) as (m1&E&Hq). exists m1. split; [done|]. hrun. by rewrite E. Qed.

(** Send and Receive up to the call of the kernel. *)
Lemma send_run sp m f s a va (size : nat) l g ids n :
  Runs sp m → registers m !! 2%nat = Some SC_Send → registers m !! 4%nat = Some a → registers m !! 5%nat = Some va → registers m !! 6%nat = Some (Z.of_nat size) →
  is_s32 (Z.of_nat size + 1) → Str sp m va size l →
  ∃ m1, quiet sp m m1 ∧ SocketHandler g ids n (mkKern m f) s = Some ((res ← nk (SysSend a (kbuf l size) (Z.of_nat size)); sk (finish res)) (mkKern m1 f) s).
Proof.
  intros HR H2 H4 H5 H6 Hsz Hs. rewrite (socket_case g ids n m f s SC_Send do_Send) by done. unfold do_Send. rewrite (arg_sk m f s 4 a), (arg_sk m f s 5 va), (arg_sk m f s 6 (Z.of_nat size)) by (done || lia).
  destruct (string_sk sp m f s va size l (λ b, res ← nk (SysSend a b (Z.of_nat size)); sk (finish res)) HR Hsz Hs) as (m1&Hq&->). by exists m1.
Qed.

Lemma receive_run sp m f s a va (size : nat) l g ids n :
  Runs sp m → registers m !! 2%nat = Some SC_Receive → registers m !! 4%nat = Some a → registers m !! 5%nat = Some va → registers m !! 6%nat = Some (Z.of_nat size) →
  is_s32 (Z.of_nat size + 1) → Str sp m va size l →
  ∃ m1, quiet sp m m1 ∧ SocketHandler g ids n (mkKern m f) s
    = Some (('(res, buffer) ← nk (SysReceive a (kbuf l size) (Z.of_nat size)); _ ← sk (System2User va res buffer); sk (finish res)) (mkKern m1 f) s).
Proof.
  intros HR H2 H4 H5 H6 Hsz Hs. rewrite (socket_case g ids n m f s SC_Receive do_Receive) by done. unfold do_Receive. rewrite (arg_sk m f s 4 a), (arg_sk m f s 5 va), (arg_sk m f s 6 (Z.of_nat size)) by (done || lia).
  destruct (string_sk sp m f s va size l (λ b, '(res, buffer) ← nk (SysReceive a b (Z.of_nat size)); _ ← sk (System2User va res buffer); sk (finish res)) HR Hsz Hs) as (m1&Hq&->). by exists m1.
Qed.

Lemma send_ok sp m f s a va (size : nat) l k g ids n :
  Runs sp m → registers m !! 2%nat = Some SC_Send → registers m !! 4%nat = Some a → registers m !! 5%nat = Some va → registers m !! 6%nat = Some (Z.of_nat size) →
  (size ≤ 64)%nat → Str sp m va size l → 2 ≤ a < 20 → table s !! Z.to_nat a = Some (Some (StSocket k)) →
  let data := l ++ replicate (size - length l) 0 in
  (∃ r s', Back sp m f r (λ _, None) s' (SocketHandler g ids n (mkKern m f) s) ∧ table s' = table s ∧ calls s' = calls s ++ [CWrite (socket_fd k) data r])
  ∨ Stops (TWrite (socket_fd k) data) s (SocketHandler g ids n (mkKern m f) s).
Proof.
  intros HR H2 H4 H5 H6 Hsz Hs Ha Hk data. destruct (send_run sp m f s a va size l g ids n) as (m1&Hq&->); [done..|unfold_int; lia|done|]. hrun. unfold SysSend, MAX_ALLOWED_BUFFER_SIZE. rewrite (proj2 (Z.ltb_ge 64 _)) by lia. unfold mbind, NK_bind. rewrite (stream_at_ok s a _ Ha Hk). unfold nlift. cbn [as_socket]. unfold Socket_write, sockWrite, waitcall, mbind, NK_bind, nlift.
  assert (Hlen : length (kbuf l size) = Datatypes.S size) by (unfold kbuf; rewrite length_app, length_map, length_replicate; destruct Hs; lia).
  rewrite (proj2 (Z.leb_le 0 _)), (proj2 (Z.leb_le _ (Z.of_nat (length _)))) by lia. cbn [andb]. rewrite Nat2Z.id, (sent_buffer sp m va) by done.
  fold data. destruct (n_write (socket_fd k) data (net s)) as [r w|why] eqn:Ew; [left|right; by exists why]. pose proof (n_write_ok _ _ _ _ _ Ew) as Hr.
  eexists r, _. split; [apply finish_Back; [by apply quiet_updated|unfold_int; lia]|]. done.
Qed.

(** What Receive writes to the program: up to a NUL. *)
Lemma cut_bytes data : Forall is_byte data → map u8 (cut (map s8 data)) = cut data.
Proof.
  induction 1 as [|b data Hb _ IH]; [done|]. cbn [map cut]. destruct (Z.eqb_spec b 0) as [->|Hne].
  - change (s8 0) with 0. by rewrite Z.eqb_refl.
  - rewrite (proj2 (Z.eqb_neq _ _)) by (by apply s8_nonzero). cbn [map]. by rewrite IH, u8_s8, u8_id.
Qed.

Lemma receive_ok sp m f s a va (size : nat) l k g ids n :
  Runs sp m → registers m !! 2%nat = Some SC_Receive → registers m !! 4%nat = Some a → registers m !! 5%nat = Some va → registers m !! 6%nat = Some (Z.of_nat size) →
  (size ≤ 64)%nat → Str sp m va size l → (∀ j, (j < size)%nat → mapped sp (va + Z.of_nat j)) → 2 ≤ a < 20 → table s !! Z.to_nat a = Some (Some (StSocket k)) →
  (∃ r data s', Back sp m f r (at_addr va (cut data)) s' (SocketHandler g ids n (mkKern m f) s) ∧ table s' = table s
    ∧ calls s' = calls s ++ [CRead (socket_fd k) (Z.of_nat size) r data] ∧ (r = -1 ∧ data = [] ∨ r = Z.of_nat (length data)))
  ∨ Stops (TRead (socket_fd k) (Z.of_nat size)) s (SocketHandler g ids n (mkKern m f) s).
Proof.
  intros HR H2 H4 H5 H6 Hsz Hs Hm Ha Hk. destruct (receive_run sp m f s a va size l g ids n) as (m1&Hq&->); [done..|unfold_int; lia|done|].
  unfold mbind, SN_bind, nk, SysReceive, MAX_ALLOWED_BUFFER_SIZE. rewrite (proj2 (Z.ltb_ge 64 _)) by lia. unfold mbind, NK_bind. rewrite (stream_at_ok s a _ Ha Hk). unfold nlift. cbn [as_socket]. unfold Socket_read, sockRead, waitcall, mbind, NK_bind, nlift.
  destruct (n_read (socket_fd k) (Z.of_nat size) (net s)) as [[r data] w|why] eqn:Er; [left|right; by exists why].
  pose proof (n_read_ok (socket_fd k) (Z.of_nat size) (net s) r data w ltac:(lia) Er) as Hlaw. cbn beta iota.
  assert (Hlen : length (kbuf l size) = Datatypes.S size) by (unfold kbuf; rewrite length_app, length_map, length_replicate; destruct Hs; lia).
  assert (Hdl : (length data ≤ size)%nat) by (destruct Hlaw as [[_ ->]|(?&?&_)]; cbn; lia). rewrite (proj2 (Nat.leb_le _ _)) by lia. unfold mret, NK_ret.
  exists r, data, (mkNState w (table s) (calls s ++ [CRead (socket_fd k) (Z.of_nat size) r data])). split; [|split; [done|split; [done|]]]; [|by destruct Hlaw as [?|(?&?&_)]; [left|right]].
  assert (∃ x m2, System2User va r (map s8 data ++ drop (length data) (kbuf l size)) (mkKern m1 f) = SDone _ x (mkKern m2 f) ∧ updated sp m (at_addr va (cut data)) m2) as (x&m2&E&Hu).
  { destruct Hlaw as [[-> ->]|(Hr&El&Hb)].
    - exists (-1), m1. split; [done|]. destruct (quiet_updated _ _ _ Hq) as [U1 U2 U3 U4]. split; [done|done| |done]. intros x Hx. rewrite U3 by done. unfold at_addr. by case_decide.
    - destruct (System2User_ok sp m1 f va (length data) (map s8 data ++ drop (length data) (kbuf l size))) as (x&m2&E&Hu); [apply Hq|rewrite length_app, length_map; lia| |].
      + rewrite take_app_length' by (by rewrite length_map). intros j Hj. apply Hm. rewrite <- (length_map u8), cut_bytes in Hj by done. assert (Hc : (length (cut data) ≤ length data)%nat); [|lia].
        clear. induction data as [|b data IH]; [done|]. cbn. destruct (b =? 0); cbn; lia.
      + rewrite take_app_length', cut_bytes in Hu by (done || by rewrite length_map). rewrite <- El. exists x, m2. split; [done|].
        eapply updated_trans; [by apply quiet_updated|exact Hu|]. intros y. by destruct (at_addr va (cut data) y). }
  unfold sk at 1. rewrite E. apply finish_Back; [done|]. unfold_int. destruct Hlaw as [[-> _]|(?&_)]; lia.
Qed.

(** The table: a stream gets the lowest free descriptor. *)
Definition Added s (st : Stream) (r : Z) s' : Prop :=
  calls s' = calls s
  ∧ (2 ≤ r < 20 ∧ table s !! Z.to_nat r = Some None ∧ (∀ x, 2 ≤ x < r → table s !! Z.to_nat x ≠ Some None) ∧ table s' = <[Z.to_nat r := Some st]> (table s)
     ∨ r = -1 ∧ (∀ x, 2 ≤ x < 20 → table s !! Z.to_nat x ≠ Some None) ∧ table s' = table s).

Lemma AddStream_ok s st : length (table s) = 20%nat → ∃ r s', AddStream st s = NDone _ r s' ∧ Added s st r s'.
Proof.
  intros Hl. unfold AddStream, mbind, NK_bind, nget, nlift, Add, getFreeFileDescriptor. change (Z.to_nat (MAX_FILE_DESCRIPTOR - 2)) with 18%nat.
  destruct (free_loop_lowest (table s) 18 2) as (r&->&Hr); [lia|lia|]. cbn [mbind res_bind]. destruct Hr as [[-> Hr]|(Hr&Hn&Hx)].
  - rewrite Z.eqb_refl. eexists _, _. split; [reflexivity|]. split; [done|]. right. split; [done|]. split; [intros x Hx; apply Hr; lia|done].
  - rewrite (proj2 (Z.eqb_neq r (-1))) by lia. rewrite aset_in by lia. eexists _, _. split; [reflexivity|]. split; [done|]. left. split; [lia|]. done.
Qed.

Lemma create_ok sp m f s st : Runs sp m → length (table s) = 20%nat →
  ∃ r s', Back sp m f r (λ _, None) s' (Some ((r ← nk (AddStream st); sk (finish r)) (mkKern m f) s)) ∧ Added s st r s'.
Proof.
  intros HR Hl. unfold mbind, SN_bind, nk. destruct (AddStream_ok s st Hl) as (r&s'&->&HA).
  exists r, s'. split; [|done]. apply finish_Back; [by apply updated_id|]. destruct HA as [_ [(?&_)|(->&_)]]; unfold_int; lia.
Qed.

Lemma strncpy_total k : ∀ buf, (k ≤ length buf)%nat → ∃ d, strncpy k buf = Ok d.
Proof.
  induction k as [|k IH]; intros buf Hl; [by exists []|]. destruct buf as [|c buf]; [cbn in Hl; lia|]. cbn [strncpy]. destruct (c =? 0); [by eexists|].
  destruct (IH buf) as [d ->]; [cbn in Hl; lia|]. by eexists.
Qed.

(** How connect ends: a socket of the host, its address, the calls and the result. *)
Definition Connected (name : list Z) (port : Z) (k : Socket) (l : list netcall) (r : Z) : Prop :=
  let sock := socket_fd k in
  if decide (sock < 0) then l = [CSocket sock] ∧ r = -1
  else if n_pton name then ∃ st, l = [CSocket sock; CConnect sock name (htons port) st] ∧ r = (if decide (st < 0) then -1 else sock)
  else l = [CSocket sock] ∧ r = -1.

(** Or that it does not come back. *)
Definition Connecting sp m f s (a : Z) (name : list Z) (port : Z) (o : option (@hout H ino N unit)) : Prop :=
  ∃ k s', table s' = <[Z.to_nat a := Some (StSocket k)]> (table s) ∧ 
    ((∃ r l, Back sp m f r (λ _, None) s' o ∧ calls s' = calls s ++ l ∧ Connected name port k l r)
     ∨ 0 ≤ socket_fd k ∧ n_pton name = true ∧ calls s' = calls s ++ [CSocket (socket_fd k)] ∧ Stops (TConnect (socket_fd k) name (htons port)) s' o).

Lemma connect_run sp m f s a va port l g ids n :
  Runs sp m → registers m !! 2%nat = Some SC_Connect → registers m !! 4%nat = Some a → registers m !! 5%nat = Some va → registers m !! 6%nat = Some port → Str sp m va 32 l →
  ∃ m1, quiet sp m m1 ∧ SocketHandler g ids n (mkKern m f) s = Some ((res ← nk (SysConnect a (kbuf l 32) port); sk (finish res)) (mkKern m1 f) s).
Proof.
  intros HR H2 H4 H5 H6 Hs. rewrite (socket_case g ids n m f s SC_Connect do_Connect) by done. unfold do_Connect. rewrite (arg_sk m f s 4 a), (arg_sk m f s 5 va), (arg_sk m f s 6 port) by (done || lia).
  destruct (string_sk sp m f s va 32 l (λ b, res ← nk (SysConnect a b port); sk (finish res)) HR) as (m1&Hq&Es); [unfold_int; lia|done|]. change (Z.of_nat 32) with FILE_NAME_MAX_LEN in Es. rewrite Es. by exists m1.
Qed.

Lemma connect_ok sp m f s a va port l k g ids n :
  Runs sp m → registers m !! 2%nat = Some SC_Connect → registers m !! 4%nat = Some a → registers m !! 5%nat = Some va → registers m !! 6%nat = Some port →
  Str sp m va 32 l → 2 ≤ a < 20 → length (table s) = 20%nat → table s !! Z.to_nat a = Some (Some (StSocket k)) →
  Connecting sp m f s a (map s8 l) port (SocketHandler g ids n (mkKern m f) s).
Proof.
  intros HR H2 H4 H5 H6 Hs Ha Hl Hk. destruct (connect_run sp m f s a va port l g ids n) as (m1&Hq&->); [done..|].
  assert (Hfin : ∀ r s', is_s32 r → Back sp m f r (λ _, None) s' (Some (sk (finish r) (mkKern m1 f) s'))) by (intros r s' Hr; apply finish_Back; [by apply quiet_updated|done]).
  assert (Hlen : length (kbuf l 32) = 33%nat) by (unfold kbuf; rewrite length_app, length_map, length_replicate; destruct Hs; lia).
  hrun. unfold SysConnect, mbind, NK_bind. rewrite (stream_at_ok s a _ Ha Hk). unfold nlift. cbn [as_socket]. unfold Socket_connect, mbind, NK_bind, nlift.
  destruct (strncpy_total MAX_FILE_NAME_LENGTH (kbuf l 32)) as [addr ->]; [unfold MAX_FILE_NAME_LENGTH; lia|]. unfold syscall at 1. pose proof (n_socket_ok (net s)) as Hsock. destruct (n_socket (net s)) as [sock w]. cbn [fst] in Hsock.
  rewrite put_stream_ok by done. set (k' := mkSocket sock addr port). set (s1 := set_table _ _). cbn [table calls] in s1. destruct (Z.ltb_spec sock 0) as [Hneg|Hpos].
  - exists k', s1. split; [done|left]. exists (-1), [CSocket sock]. split; [apply Hfin; unfold_int; lia|]. split; [done|]. unfold Connected. cbn [k' socket_fd]. by rewrite decide_True.
  - rewrite (kbuf_cstr sp m va 32 l HR Hs). unfold Connecting, Connected. destruct (n_pton (map s8 l)) eqn:Ep; cbn [negb].
    + unfold sockConnect, waitcall. destruct (n_connect sock (map s8 l) (htons port) (net s1)) as [st w2|why].
      2: { exists k', s1. split; [done|right]. split; [done|]. split; [done|]. split; [done|]. by exists why. }
      exists k', (mkNState w2 (table s1) (calls s1 ++ [CConnect sock (map s8 l) (htons port) st])). split; [done|left].
      destruct (Z.ltb_spec st 0) as [Hst|Hst]; unfold mret, NK_ret; [exists (-1)|exists sock]; exists [CSocket sock; CConnect sock (map s8 l) (htons port) st].
      all: split; [apply Hfin; unfold_int; lia|]; split; [cbn; by rewrite <- app_assoc|]; cbn [k' socket_fd]; rewrite decide_False by lia; exists st; split; [done|]; case_decide; done || lia.
    + exists k', s1. split; [done|left]. exists (-1), [CSocket sock]. split; [apply Hfin; unfold_int; lia|]. split; [done|]. cbn [k' socket_fd]. by rewrite decide_False by lia.
Qed.

(** ** What is refused *)

(** What a call does with a descriptor that is not a socket: -1 if it is closed, and
    an error if it is another stream. *)
Definition Refused sp m f s (e : option Stream) (o : option (@hout H ino N unit)) : Prop :=
  match e with None => Back sp m f (-1) (λ _, None) s o | Some _ => o = Some (HFailed _ BadAccess) end.

Definition no_socket_at (e : option Stream) : Prop := match e with Some (StSocket _) => False | _ => True end.

Lemma refused_ok sp m f s t a va c (size : nat) l e g ids n :
  Runs sp m → registers m !! 2%nat = Some t → registers m !! 4%nat = Some a → registers m !! 5%nat = Some va → registers m !! 6%nat = Some c →
  (t = SC_Send ∨ t = SC_Receive) ∧ c = Z.of_nat size ∧ (size ≤ 64)%nat ∨ t = SC_Connect ∧ size = 32%nat →
  Str sp m va size l → stream_at a s = NDone _ e s → no_socket_at e → Refused sp m f s e (SocketHandler g ids n (mkKern m f) s).
Proof.
  intros HR H2 H4 H5 H6 Ht Hs Ha He. assert (Hm1 : is_s32 (-1)) by (unfold_int; lia). destruct Ht as [([->| ->]&->&Hsz)|[-> ->]].
  - destruct (send_run sp m f s a va size l g ids n) as (m1&Hq&->); [done..|unfold_int; lia|done|]. hrun. unfold SysSend, MAX_ALLOWED_BUFFER_SIZE.
    rewrite (proj2 (Z.ltb_ge 64 _)) by lia. unfold mbind, NK_bind. rewrite Ha. destruct e as [[]|]; try done. apply finish_Back; [by apply quiet_updated|done].
  - destruct (receive_run sp m f s a va size l g ids n) as (m1&Hq&->); [done..|unfold_int; lia|done|]. hrun. unfold SysReceive, MAX_ALLOWED_BUFFER_SIZE.
    rewrite (proj2 (Z.ltb_ge 64 _)) by lia. unfold mbind, NK_bind. rewrite Ha. destruct e as [[]|]; try done. apply finish_Back; [by apply quiet_updated|done].
  - destruct (connect_run sp m f s a va c l g ids n) as (m1&Hq&->); [done..|]. hrun. unfold SysConnect, mbind, NK_bind. rewrite Ha.
    destruct e as [[]|]; try done. apply finish_Back; [by apply quiet_updated|done].
Qed.

(** ** The server *)

(** What the program sees of the server. *)
Definition Seen sp m f (x : @nout N Z) (o : option (@hout H ino N unit)) : Prop :=
  match x with
  | NDone _ r s' => Back sp m f r (λ _, None) s' o
  | NStopped _ why t s' => o = Some (HStopped _ why (Some t) s')
  | NRunning _ s' => o = Some (HRunning _ s')
  | NFailed _ e _ => o = Some (HFailed _ e)
  | NHalted _ _ => False
  end.

Lemma listens_result s ssID srv F o : Listens s ssID srv F o → match o with NDone _ r _ => -5 ≤ r ≤ -1 | NHalted _ _ => False | _ => True end.
Proof.
  assert (HRet : ∀ e l, -5 ≤ e ≤ -1 → Returns s o e l → match o with NDone _ r _ => -5 ≤ r ≤ -1 | NHalted _ _ => False | _ => True end) by (by intros e l He (s'&->&_)).
  intros (ss&HL). case_decide; [by eapply HRet in HL|]. destruct HL as (r1&HL). case_decide; [by eapply HRet in HL|]. destruct HL as (r2&HL). case_decide; [by eapply HRet in HL|].
  destruct HL as (r3&HL). case_decide; [by eapply HRet in HL|]. destruct HL as (s1&srv1&_&_&HE). destruct o as [r s'|s'|w t s'|s'|e s']; cbn in HE; try done. destruct HE as [-> _]. lia.
Qed.

Lemma server_listen_ok sp m f s a e g ids n :
  Runs sp m → length (table s) = 20%nat → registers m !! 2%nat = Some SC_ServerListen → registers m !! 4%nat = Some a → stream_at a s = NDone _ e s →
  let o := SocketHandler g ids n (mkKern m f) s in
  match e with
  | Some (StServer srv) => 2 ≤ a < 20 → table s !! Z.to_nat a = Some e → ∃ x, Listens s a srv (free_of (table s)) x ∧ Seen sp m f x o
  | e => Refused sp m f s e o
  end.
Proof.
  intros HR Hl H2 H4 He o. unfold o. rewrite (socket_case g ids n m f s SC_ServerListen (do_ServerListen g n)) by done. unfold do_ServerListen. rewrite (arg_sk m f s 4 a) by (done || lia).
  hrun. destruct e as [[|k|srv]|]; unfold SysServerListen, mbind, NK_bind; rewrite He; try done.
  - intros Ha Ht. exists (listen g a n s). assert (HL : Listens s a srv (free_of (table s)) (listen g a n s)) by (apply listen_ok; try done; intros fd; apply free_of_spec).
    split; [done|]. cbn [as_server]. unfold nlift. pose proof (listens_result _ _ _ _ _ HL) as Hres. destruct (listen g a n s); try done. apply finish_Back; [by apply updated_id|unfold_int; lia].
  - apply finish_Back; [by apply updated_id|unfold_int; lia].
Qed.

Lemma too_large_ok sp m f s t a va (size : nat) l g ids n :
  Runs sp m → registers m !! 2%nat = Some t → t = SC_Send ∨ t = SC_Receive → registers m !! 4%nat = Some a → registers m !! 5%nat = Some va → registers m !! 6%nat = Some (Z.of_nat size) →
  (64 < size)%nat → is_s32 (Z.of_nat size + 1) → Str sp m va size l →
  SocketHandler g ids n (mkKern m f) s = Some (HHalted _ s).
Proof.
  intros HR H2 Ht H4 H5 H6 Hsz H65 Hs. destruct Ht as [->| ->].
  - destruct (send_run sp m f s a va size l g ids n) as (m1&Hq&->); [done..|]. hrun. unfold SysSend, MAX_ALLOWED_BUFFER_SIZE.
    by rewrite (proj2 (Z.ltb_lt 64 _)) by lia.
  - destruct (receive_run sp m f s a va size l g ids n) as (m1&Hq&->); [done..|]. hrun. unfold SysReceive, MAX_ALLOWED_BUFFER_SIZE.
    by rewrite (proj2 (Z.ltb_lt 64 _)) by lia.
Qed.
End SPEC.
End SocketCallsSpec.

Import Machine MachineSpec AddrSpaceSpec CString Files FilesSpec Syscall SyscallSpec Sockets SocketsSpec SocketCalls SocketCallsSpec.

(** C37 (functional): the calls on sockets, for sizes from 0 on.  SocketTCP and
    ServerCreate put a new stream at the lowest free descriptor, or return -1 when
    there is none.  Connect makes a socket of the host and connects it to the
    address, the characters of the program up to a NUL or 32 of them, and the port
    in network byte order; the result is the descriptor of the host, or -1 for the
    first step that fails.  Send hands the bytes of the program up to a NUL, filled
    up with zeros to the size asked for, to the host, and Receive stores what it
    reads from the host in the memory of the program, up to and with the first NUL;
    both return the result of the host.  Each of the three may not come back from
    its call to the host.  ServerListen runs the server as [Listens] tells it, and
    returns its result.  Nothing else of the program, of the table or of the host
    is touched.  Sizes over 64 and Disconnect halt the machine.  Connect, Send,
    Receive and ServerListen return -1, without a call to the host, for a
    descriptor that is out of range or not open, and are an error for a stream of
    another class. *)
Theorem socket_calls_correct {H ino N : Type} `{Host H ino} `{NetLaws N} (sp : AddrSpace.AddrSpace) (m : Machine) (f : @State H ino)
    (s : @NState N) (garbage : Socket) (ids : list Z) (rounds : nat) (a b c : Z) (l : list Z) (size : nat) (k : Socket) (srv : ServerSocket)
    (HR : Runs sp m) (Hlen : length (table s) = 20%nat)
    (H4 : registers m !! 4%nat = Some a) (H5 : registers m !! 5%nat = Some b) (H6 : registers m !! 6%nat = Some c) :
  let nr t := registers m !! 2%nat = Some t in
  let o := SocketHandler garbage ids rounds (mkKern m f) s in
  let at_a e := 2 ≤ a < 20 ∧ table s !! Z.to_nat a = Some e in
  let closed := ¬ 2 ≤ a < 20 ∨ at_a None in
  let none : Z → option Z := λ _, None in
  (nr SC_SocketTCP → ∃ r s', Back sp m f r none s' o ∧ Added s (StSocket garbage) r s')
  ∧ (nr SC_ServerCreate → ∃ r s', Back sp m f r none s' o ∧ Added s (StServer (new_ServerSocket a ids)) r s')
  ∧ (nr SC_Connect → Str sp m b 32 l →
       (at_a (Some (StSocket k)) → Connecting sp m f s a (map s8 l) c o)
       ∧ (closed → Back sp m f (-1) none s o)
       ∧ (at_a (Some StFile) ∨ at_a (Some (StServer srv)) → o = Some (HFailed _ BadAccess)))
  ∧ (nr SC_Send → c = Z.of_nat size → (size ≤ 64)%nat → Str sp m b size l → at_a (Some (StSocket k)) →
       let data := l ++ replicate (size - length l) 0 in
       (∃ r s', Back sp m f r none s' o ∧ table s' = table s ∧ calls s' = calls s ++ [CWrite (socket_fd k) data r])
       ∨ Stops (TWrite (socket_fd k) data) s o)
  ∧ (nr SC_Receive → c = Z.of_nat size → (size ≤ 64)%nat → Str sp m b size l → (∀ j, (j < size)%nat → mapped sp (b + Z.of_nat j)) → at_a (Some (StSocket k)) →
       (∃ r data s', Back sp m f r (at_addr b (cut data)) s' o ∧ table s' = table s
         ∧ calls s' = calls s ++ [CRead (socket_fd k) (Z.of_nat size) r data] ∧ (r = -1 ∧ data = [] ∨ r = Z.of_nat (length data)))
       ∨ Stops (TRead (socket_fd k) (Z.of_nat size)) s o)
  ∧ (nr SC_Send ∨ nr SC_Receive → c = Z.of_nat size → Str sp m b size l →
       ((64 < size)%nat → is_s32 (c + 1) → o = Some (HHalted _ s))
       ∧ ((size ≤ 64)%nat → closed → Back sp m f (-1) none s o)
       ∧ ((size ≤ 64)%nat → at_a (Some StFile) ∨ at_a (Some (StServer srv)) → o = Some (HFailed _ BadAccess)))
  ∧ (nr SC_Disconnect → o = Some (HHalted _ s))
  ∧ (nr SC_ServerListen →
       (at_a (Some (StServer srv)) → ∃ x, Listens s a srv (free_of (table s)) x ∧ Seen sp m f x o)
       ∧ (closed → Back sp m f (-1) none s o)
       ∧ (at_a (Some StFile) ∨ at_a (Some (StSocket k)) → o = Some (HFailed _ BadAccess))).
Proof.
  intros nr o at_a closed none. unfold nr, o.
  assert (Hopen : ∀ e, at_a e → stream_at a s = NDone _ e s) by (intros e [Ha He]; by apply stream_at_ok).
  assert (Hclosed : closed → stream_at a s = NDone _ None s).
  { intros [Ha|Ha]; [|by apply Hopen]. unfold stream_at, mbind, NK_bind, nget, nlift, getStream. replace (bad_fd a) with true; [done|]. unfold bad_fd, MAX_FILE_DESCRIPTOR. lia. }
  assert (Href : ∀ t n e, nr t → (t = SC_Send ∨ t = SC_Receive) ∧ c = Z.of_nat n ∧ (n ≤ 64)%nat ∨ t = SC_Connect ∧ n = 32%nat → Str sp m b n l →
    stream_at a s = NDone _ e s → no_socket_at e → Refused sp m f s e (SocketHandler garbage ids rounds (mkKern m f) s)).
  { intros t n e Ht Hn Hs Hst He. by apply (refused_ok sp m f s t a b c n l e). }
  split_and!.
  - intros Ht. rewrite (socket_case garbage ids rounds m f s SC_SocketTCP (do_SocketTCP garbage)) by done. by apply create_ok.
  - intros Ht. rewrite (socket_case garbage ids rounds m f s SC_ServerCreate (do_ServerCreate ids)) by done. unfold do_ServerCreate. rewrite (arg_sk m f s 4 a) by (done || lia). by apply create_ok.
  - intros Ht Hs. split; [intros [Ha Hk]; by apply (connect_ok sp m f s a b c l k)|]. split.
    + intros Hc. apply (Href SC_Connect 32%nat None); try done; auto.
    + intros [Ha|Ha]; [apply (Href SC_Connect 32%nat (Some StFile))|apply (Href SC_Connect 32%nat (Some (StServer srv)))]; try done; auto.
  - intros Ht -> Hsz Hs [Ha Hk]. by apply (send_ok sp m f s a b size l k).
  - intros Ht -> Hsz Hs Hm [Ha Hk]. by apply (receive_ok sp m f s a b size l k).
  - intros Ht Hc Hs. assert (∃ t, nr t ∧ (t = SC_Send ∨ t = SC_Receive)) as (t&Ht'&Hcase) by (destruct Ht; [exists SC_Send|exists SC_Receive]; auto). split; [|split].
    + intros Hsz Hr. rewrite Hc in Hr, H6. by apply (too_large_ok sp m f s t a b size l).
    + intros Hsz Hcl. apply (Href t size None); try done; auto.
    + intros Hsz [Ha|Ha]; [apply (Href t size (Some StFile))|apply (Href t size (Some (StServer srv)))]; try done; auto.
  - intros Ht. rewrite (socket_case garbage ids rounds m f s SC_Disconnect do_Disconnect) by done. unfold do_Disconnect. by rewrite (arg_sk m f s 4 a) by (done || lia).
  - intros Ht. pose proof (λ e, server_listen_ok sp m f s a e garbage ids rounds HR Hlen Ht H4) as HL. split; [|split].
    + intros [Ha Hk]. apply (HL (Some (StServer srv))); [by apply Hopen|done..].
    + intros Hcl. apply (HL None). auto.
    + intros [Ha|Ha]; [apply (HL (Some StFile))|apply (HL (Some (StSocket k)))]; try done; auto.
Qed.

(** A program with a socket at descriptor 2 sends "hi" in four bytes. *)
Definition client_state : @NState Script :=
  mkNState (mkScript [] [] 9 []) (<[2%nat := Some (StSocket (mkSocket 7 [] 80))]> new_FileDescriptorTable) [].

Lemma socket_calls_correct_witness :
  (∃ r s', Back user_space (user_machine SC_Send 2 4 4) mini_state r (λ _, None) s'
      (SocketHandler no_socket [] 0 (mkKern (user_machine SC_Send 2 4 4) mini_state) client_state)
    ∧ table s' = table client_state ∧ calls s' = [CWrite 7 [104; 105; 0; 0] r])
  ∨ Stops (TWrite 7 [104; 105; 0; 0]) client_state (SocketHandler no_socket [] 0 (mkKern (user_machine SC_Send 2 4 4) mini_state) client_state).
Proof.
  assert (HR : Runs user_space (user_machine SC_Send 2 4 4)) by (apply user_machine_Runs; unfold SC_Send; unfold_int; lia).
  destruct (socket_calls_correct user_space (user_machine SC_Send 2 4 4) mini_state client_state no_socket [] 0 2 4 4 [104; 105] 4 (mkSocket 7 [] 80) (new_ServerSocket 80 [])
    HR eq_refl eq_refl eq_refl eq_refl) as (_&_&_&H&_).
  exact (H eq_refl eq_refl ltac:(lia) (user_str SC_Send 2 4 4 4 ltac:(lia)) ltac:(split; [lia|reflexivity])).
Defined.
