(* ===== verification/Boot.v ===== *)
(** threads/main.cc and the constructor of Kernel (threads/kernel.cc): the command
    line of Nachos, and the commands that copy, print and remove files of the file
    system.

    Main is modelled for both ways to compile it: [stub] says that FILESYS_STUB is
    defined, as in the Makefiles, which leaves out the options and the commands on
    files.  Main does its jobs one after the other, in the order of its text; Remove,
    Copy and Print of files are run here.  The self tests, the listing and the dump
    of the file system, and starting a user program are not: a run stops in front
    of the first of them with the list of the jobs that are left, and a run with
    none left halts.

    An argument is the list of its characters; [atoi] is the function of C on what
    fits an [int], and the reliability of the network, a [double], is kept as the
    text that atof reads.  A file of UNIX is the list of its bytes.  What is printed
    is what Print prints of files; messages are left out. *)

From Stdlib Require Import String Ascii.
From S2P Require Import Prelude BitmapLib Interrupt Disk FileIO Directory FileSys.
#[local] Open Scope list_scope.

Module Boot.
Import FileSystem OpenFile.

(** ** Arguments *)

Definition lit (s : string) : list Z := map (λ c, Z.of_N (N_of_ascii c)) (list_ascii_of_string s).

(** strcmp(a, "...") == 0. *)
Definition arg_is (a : list Z) (s : string) : bool := bool_decide (a = lit s).

Definition isspace (c : Z) : bool := (c =? 32) || ((9 <=? c) && (c <=? 13)).
Definition isdigit (c : Z) : bool := (48 <=? c) && (c <=? 57).

Fixpoint digits (l : list Z) (n : Z) : Z :=
  match l with
  | c :: l => if isdigit c then digits l (10 * n + (c - 48)) else n
  | [] => n
  end.

Fixpoint atoi (l : list Z) : Z :=
  match l with
  | c :: r =>
    if isspace c then atoi r
    else if c =? 45 then s32 (- digits r 0)
    else if c =? 43 then s32 (digits r 0)
    else s32 (digits l 0)
  | [] => 0
  end.

(** ** The options of main *)

Record MainOptions := mkMain {
  debugArg : list Z; userProgName : option (list Z); threadTestFlag : bool; consoleTestFlag : bool; networkTestFlag : bool;
  copyUnixFileName : option (list Z); copyNachosFileName : option (list Z); printFileName : option (list Z);
  removeFileName : option (list Z); dirListFlag : bool; dumpFlag : bool
}.

Definition no_main_options : MainOptions := mkMain [] None false false false None None None None false false.

Definition set_debug v (o : MainOptions) := mkMain v (userProgName o) (threadTestFlag o) (consoleTestFlag o) (networkTestFlag o) (copyUnixFileName o) (copyNachosFileName o) (printFileName o) (removeFileName o) (dirListFlag o) (dumpFlag o).
Definition set_prog v (o : MainOptions) := mkMain (debugArg o) (Some v) (threadTestFlag o) (consoleTestFlag o) (networkTestFlag o) (copyUnixFileName o) (copyNachosFileName o) (printFileName o) (removeFileName o) (dirListFlag o) (dumpFlag o).
Definition set_tests k c n (o : MainOptions) := mkMain (debugArg o) (userProgName o) (k || threadTestFlag o) (c || consoleTestFlag o) (n || networkTestFlag o) (copyUnixFileName o) (copyNachosFileName o) (printFileName o) (removeFileName o) (dirListFlag o) (dumpFlag o).
Definition set_copy u n (o : MainOptions) := mkMain (debugArg o) (userProgName o) (threadTestFlag o) (consoleTestFlag o) (networkTestFlag o) (Some u) (Some n) (printFileName o) (removeFileName o) (dirListFlag o) (dumpFlag o).
Definition set_print v (o : MainOptions) := mkMain (debugArg o) (userProgName o) (threadTestFlag o) (consoleTestFlag o) (networkTestFlag o) (copyUnixFileName o) (copyNachosFileName o) (Some v) (removeFileName o) (dirListFlag o) (dumpFlag o).
Definition set_remove v (o : MainOptions) := mkMain (debugArg o) (userProgName o) (threadTestFlag o) (consoleTestFlag o) (networkTestFlag o) (copyUnixFileName o) (copyNachosFileName o) (printFileName o) (Some v) (dirListFlag o) (dumpFlag o).
Definition set_lists l d (o : MainOptions) := mkMain (debugArg o) (userProgName o) (threadTestFlag o) (consoleTestFlag o) (networkTestFlag o) (copyUnixFileName o) (copyNachosFileName o) (printFileName o) (removeFileName o) (l || dirListFlag o) (d || dumpFlag o).

Section ARGS.
Variables (stub : bool) (argv : list (list Z)).
Definition argc : Z := Z.of_nat (length argv).

(** The loop over the arguments, with [n] rounds left at least. *)
Fixpoint main_loop (n : nat) (i : Z) (o : MainOptions) : res MainOptions :=
  if negb (i <? argc) then Ok o
  else
    match n with
    | O => Err OutOfFuel
    | S n =>
      a ← aget argv i;
      if arg_is a "-d" then ASSERT (i + 1 <? argc) ;; v ← aget argv (i + 1); main_loop n (i + 2) (set_debug v o)
      else if arg_is a "-z" then main_loop n (i + 1) o
      else if arg_is a "-x" then ASSERT (i + 1 <? argc) ;; v ← aget argv (i + 1); main_loop n (i + 2) (set_prog v o)
      else if arg_is a "-K" then main_loop n (i + 1) (set_tests true false false o)
      else if arg_is a "-C" then main_loop n (i + 1) (set_tests false true false o)
      else if arg_is a "-N" then main_loop n (i + 1) (set_tests false false true o)
      else if negb stub && arg_is a "-cp" then
        ASSERT (i + 2 <? argc) ;; u ← aget argv (i + 1); v ← aget argv (i + 2); main_loop n (i + 3) (set_copy u v o)
      else if negb stub && arg_is a "-p" then ASSERT (i + 1 <? argc) ;; v ← aget argv (i + 1); main_loop n (i + 2) (set_print v o)
      else if negb stub && arg_is a "-r" then ASSERT (i + 1 <? argc) ;; v ← aget argv (i + 1); main_loop n (i + 2) (set_remove v o)
      else if negb stub && arg_is a "-l" then main_loop n (i + 1) (set_lists true false o)
      else if negb stub && arg_is a "-D" then main_loop n (i + 1) (set_lists false true o)
      else if arg_is a "-u" then main_loop n (i + 1) o
      else main_loop n (i + 1) o
    end.

Definition main_options : res MainOptions := main_loop (length argv) 1 no_main_options.
End ARGS.

(** ** The constructor of Kernel *)

Record KernelOptions := mkKernelOptions {
  randomSeed : option Z; debugUserProg : bool; consoleIn : option (list Z); consoleOut : option (list Z);
  userArgs : list (list Z); formatFlag : bool; reliability : option (list Z); hostName : Z
}.

(** randomSlice is TRUE when there is a seed; a reliability of [None] is 1. *)
Definition no_kernel_options : KernelOptions := mkKernelOptions None false None None [] false None 0.

Definition set_seed v (o : KernelOptions) := mkKernelOptions (Some v) (debugUserProg o) (consoleIn o) (consoleOut o) (userArgs o) (formatFlag o) (reliability o) (hostName o).
Definition set_single (o : KernelOptions) := mkKernelOptions (randomSeed o) true (consoleIn o) (consoleOut o) (userArgs o) (formatFlag o) (reliability o) (hostName o).
Definition set_in v (o : KernelOptions) := mkKernelOptions (randomSeed o) (debugUserProg o) (Some v) (consoleOut o) (userArgs o) (formatFlag o) (reliability o) (hostName o).
Definition set_out v (o : KernelOptions) := mkKernelOptions (randomSeed o) (debugUserProg o) (consoleIn o) (Some v) (userArgs o) (formatFlag o) (reliability o) (hostName o).
Definition add_arg v (o : KernelOptions) := mkKernelOptions (randomSeed o) (debugUserProg o) (consoleIn o) (consoleOut o) (userArgs o ++ [v]) (formatFlag o) (reliability o) (hostName o).
Definition set_format (o : KernelOptions) := mkKernelOptions (randomSeed o) (debugUserProg o) (consoleIn o) (consoleOut o) (userArgs o) true (reliability o) (hostName o).
Definition set_reliability v (o : KernelOptions) := mkKernelOptions (randomSeed o) (debugUserProg o) (consoleIn o) (consoleOut o) (userArgs o) (formatFlag o) (Some v) (hostName o).
Definition set_host v (o : KernelOptions) := mkKernelOptions (randomSeed o) (debugUserProg o) (consoleIn o) (consoleOut o) (userArgs o) (formatFlag o) (reliability o) v.

Definition MAX_ARG_NUM : Z := 10.

Section KERNEL.
Variables (stub : bool) (argv : list (list Z)).

(** The loop over the arguments of the user program; the result is the last index. *)
Fixpoint user_loop (n : nat) (i : Z) (o : KernelOptions) : res (Z * KernelOptions) :=
  if negb (i + 1 <? argc argv) then Ok (i, o)
  else
    match n with
    | O => Err OutOfFuel
    | S n =>
      v ← aget argv (i + 1);
      ASSERT (negb (bool_decide (v = []))) ;;
      if bool_decide (head v = Some 45) then Ok (i, o)
      else
        let o := add_arg v o in
        ASSERT (Z.of_nat (length (userArgs o)) <? MAX_ARG_NUM) ;;
        user_loop n (i + 1) o
    end.

Fixpoint kernel_loop (n : nat) (i : Z) (o : KernelOptions) : res KernelOptions :=
  if negb (i <? argc argv) then Ok o
  else
    match n with
    | O => Err OutOfFuel
    | S n =>
      a ← aget argv i;
      if arg_is a "-rs" then ASSERT (i + 1 <? argc argv) ;; v ← aget argv (i + 1); kernel_loop n (i + 2) (set_seed (atoi v) o)
      else if arg_is a "-s" then kernel_loop n (i + 1) (set_single o)
      else if arg_is a "-ci" then ASSERT (i + 1 <? argc argv) ;; v ← aget argv (i + 1); kernel_loop n (i + 2) (set_in v o)
      else if arg_is a "-co" then ASSERT (i + 1 <? argc argv) ;; v ← aget argv (i + 1); kernel_loop n (i + 2) (set_out v o)
      else if arg_is a "-argvs" then ASSERT (i + 1 <? argc argv) ;; '(i, o) ← user_loop n i o; kernel_loop n (i + 1) o
      else if negb stub && arg_is a "-f" then kernel_loop n (i + 1) (set_format o)
      else if arg_is a "-n" then ASSERT (i + 1 <? argc argv) ;; v ← aget argv (i + 1); kernel_loop n (i + 2) (set_reliability v o)
      else if arg_is a "-m" then ASSERT (i + 1 <? argc argv) ;; v ← aget argv (i + 1); kernel_loop n (i + 2) (set_host (atoi v) o)
      else if arg_is a "-u" then kernel_loop n (i + 1) o
      else kernel_loop n (i + 1) o
    end.

Definition kernel_options : res KernelOptions := kernel_loop (length argv) 1 no_kernel_options.
End KERNEL.

(** ** The jobs of main *)

Inductive job :=
| ThreadSelfTest | ConsoleTest | NetworkTest
| RemoveJob (nm : list Z) | CopyJob (u nm : list Z) | DumpJob | ListJob | PrintJob (nm : list Z)
| StartMainThread (nm : list Z).

(** In the order of main; behind them comes Halt. *)
Definition main_jobs (stub : bool) (o : MainOptions) : list job :=
  (if threadTestFlag o then [ThreadSelfTest] else [])
  ++ (if consoleTestFlag o then [ConsoleTest] else [])
  ++ (if networkTestFlag o then [NetworkTest] else [])
  ++ (if stub then []
      else
        match removeFileName o with Some nm => [RemoveJob nm] | None => [] end
        ++ match copyUnixFileName o, copyNachosFileName o with Some u, Some nm => [CopyJob u nm] | _, _ => [] end
        ++ (if dumpFlag o then [DumpJob] else [])
        ++ (if dirListFlag o then [ListJob] else [])
        ++ match printFileName o with Some nm => [PrintJob nm] | None => [] end)
  ++ match userProgName o with Some nm => [StartMainThread nm] | None => [] end.

(** ** Copy and Print *)

Definition TransferSize : Z := 128.

Section FILES.
Context {S : Type} `{SectorDisk S} (fresh : nat → list Z).

(** [rest] is what ReadPartial has not read yet of the file of UNIX. *)
Fixpoint copy_loop (n : nat) (rest : list Z) (f : OpenFile) (s : S) : res (OpenFile * S) :=
  match n with
  | O => Err OutOfFuel
  | Datatypes.S n =>
    let buffer := take (Z.to_nat TransferSize) rest in
    let amountRead := Z.of_nat (length buffer) in
    if 0 <? amountRead then
      '(_, f, s) ← Write fresh f buffer amountRead s;
      copy_loop n (drop (Z.to_nat TransferSize) rest) f s
    else Ok (f, s)
  end.

(** [from] is [None] when the file of UNIX cannot be opened. *)
Definition Copy (fs : FileSystem) (from : option (list Z)) (to : list Z) (s : S) : res S :=
  match from with
  | None => Ok s
  | Some file =>
    '(created, s) ← Create fresh fs to (Z.of_nat (length file)) s;
    if negb created then Ok s
    else
      '(openFile, s) ← Open fresh fs to s;
      ASSERT (negb (bool_decide (openFile = None))) ;;
      f ← deref openFile;
      '(_, s) ← copy_loop (Datatypes.S (length file)) file f s;
      Ok s
  end.

(** The characters printed are added to [out]. *)
Fixpoint print_loop (n : nat) (f : OpenFile) (out : list Z) (s : S) : res (list Z * S) :=
  match n with
  | O => Err OutOfFuel
  | Datatypes.S n =>
    '(d, f, s) ← Read fresh f TransferSize s;
    if 0 <? Z.of_nat (length d) then print_loop n f (out ++ d) s else Ok (out, s)
  end.

(** More rounds than a file has bytes. *)
Definition print_fuel : nat := Z.to_nat FileHeader.MaxFileSize + 1.

Definition Print (fs : FileSystem) (nm : list Z) (s : S) : res (list Z * S) :=
  '(openFile, s) ← Open fresh fs nm s;
  match openFile with
  | None => Ok ([], s)
  | Some f => print_loop print_fuel f [] s
  end.

(** ** main *)

(** The jobs that are run here, until one that is not or the end: the bytes printed,
    the disk, and the jobs that are left. *)
Fixpoint run_jobs (unix : list Z → option (list Z)) (fs : FileSystem) (jobs : list job) (out : list Z) (s : S) : res (list Z * S * list job) :=
  match jobs with
  | RemoveJob nm :: js => '(_, s) ← Remove fresh fs nm s; run_jobs unix fs js out s
  | CopyJob u nm :: js => s ← Copy fs (unix u) nm s; run_jobs unix fs js out s
  | PrintJob nm :: js => '(d, s) ← Print fs nm s; run_jobs unix fs js (out ++ d) s
  | js => Ok (out, s, js)
  end.

(** A start of Nachos.  With the stub there is no file system of its own. *)
Definition nachos (stub : bool) (argv : list (list Z)) (unix : list Z → option (list Z)) (s : S) : res (list Z * S * list job) :=
  mo ← main_options stub argv;
  ko ← kernel_options stub argv;
  if stub then Ok ([], s, main_jobs stub mo)
  else
    '(fs, s) ← new_FileSystem fresh (formatFlag ko) s;
    run_jobs unix fs (main_jobs stub mo) [] s.
End FILES.
End Boot.

Module BootSpec.
Import Disk FileSystem OpenFile FileSpec DirectorySpec FileSysSpec Boot.

(** ** Command lines *)

(** An option with its operands. *)
Inductive item :=
| Debug (v : list Z) | Copyright | Program (v : list Z) | TestThreads | TestConsole | TestNetwork
| CopyFile (u v : list Z) | PrintFile (v : list Z) | RemoveFile (v : list Z) | ListDir | Dump | Usage
| Seed (v : list Z) | Single | ConsoleIn (v : list Z) | ConsoleOut (v : list Z) | Args (vs : list (list Z))
| Format | Reliability (v : list Z) | HostName (v : list Z).

#[global] Instance item_eq_dec : EqDecision item.
Proof. solve_decision. Defined.

Definition render (x : item) : list (list Z) :=
  match x with
  | Debug v => [lit "-d"; v] | Copyright => [lit "-z"] | Program v => [lit "-x"; v]
  | TestThreads => [lit "-K"] | TestConsole => [lit "-C"] | TestNetwork => [lit "-N"]
  | CopyFile u v => [lit "-cp"; u; v] | PrintFile v => [lit "-p"; v] | RemoveFile v => [lit "-r"; v]
  | ListDir => [lit "-l"] | Dump => [lit "-D"] | Usage => [lit "-u"]
  | Seed v => [lit "-rs"; v] | Single => [lit "-s"] | ConsoleIn v => [lit "-ci"; v] | ConsoleOut v => [lit "-co"; v]
  | Args vs => lit "-argvs" :: vs
  | Format => [lit "-f"] | Reliability v => [lit "-n"; v] | HostName v => [lit "-m"; v]
  end.

(** The options of the file system, which are not options with FILESYS_STUB. *)
Definition file_option (x : item) : bool :=
  match x with CopyFile _ _ | PrintFile _ | RemoveFile _ | ListDir | Dump | Format => true | _ => false end.

Section STUB.
Variable stub : bool.

Definition main_item (o : MainOptions) (x : item) : MainOptions :=
  if stub && file_option x then o else
  match x with
  | Debug v => set_debug v o | Program v => set_prog v o
  | TestThreads => set_tests true false false o | TestConsole => set_tests false true false o | TestNetwork => set_tests false false true o
  | CopyFile u v => set_copy u v o | PrintFile v => set_print v o | RemoveFile v => set_remove v o
  | ListDir => set_lists true false o | Dump => set_lists false true o
  | _ => o
  end.

Definition kernel_item (o : KernelOptions) (x : item) : KernelOptions :=
  if stub && file_option x then o else
  match x with
  | Seed v => set_seed (atoi v) o | Single => set_single o | ConsoleIn v => set_in v o | ConsoleOut v => set_out v o
  | Args vs => foldl (λ o v, add_arg v o) o vs
  | Format => set_format o | Reliability v => set_reliability v o | HostName v => set_host (atoi v) o
  | _ => o
  end.

(** Operands are not empty and do not begin with a dash. *)
Definition operand (v : list Z) : Prop := v ≠ [] ∧ head v ≠ Some 45.
Definition good (x : item) : Prop :=
  match x with
  | Debug v | Program v | PrintFile v | RemoveFile v | Seed v | ConsoleIn v | ConsoleOut v | Reliability v | HostName v => operand v
  | CopyFile u v => operand u ∧ operand v
  | Args vs => vs ≠ [] ∧ Forall operand vs
  | _ => True
  end.
Definition args_of (x : item) : list (list Z) := match x with Args vs => vs | _ => [] end.

Definition dashed (s : string) : bool := match s with String c _ => bool_decide (c = "-"%char) | _ => false end.

Lemma operand_is v s : operand v → dashed s = true → arg_is v s = false.
Proof.
  intros [_ Hv] Hs. unfold arg_is. apply bool_decide_eq_false_2. intros ->. apply Hv. destruct s as [|c s]; [done|]. cbn in Hs. apply bool_decide_eq_true_1 in Hs as ->. done.
Qed.

(** Known words. *)
Ltac words :=
  repeat match goal with
  | |- context [arg_is (lit ?a) ?b] => let v := eval vm_compute in (arg_is (lit a) b) in change (arg_is (lit a) b) with v; cbn beta iota
  | Hv : operand ?v |- context [arg_is ?v ?b] => rewrite (operand_is v b Hv eq_refl)
  | |- context [_ && false] => rewrite andb_false_r; cbn beta iota
  | E : ?x = true |- context [negb ?x && _] => rewrite E; cbn [negb andb]; cbn beta iota
  | E : ?x = false |- context [negb ?x && _] => rewrite E; cbn [negb andb]; cbn beta iota
  end.

Lemma aget_mid {A} (pre rest : list A) a : aget (pre ++ a :: rest) (Z.of_nat (length pre)) = Ok a.
Proof. apply aget_Ok. split; [lia|]. rewrite Nat2Z.id. by apply list_lookup_middle. Qed.

Lemma aget_mid1 {A} (pre rest : list A) a b : aget (pre ++ a :: b :: rest) (Z.of_nat (length pre) + 1) = Ok b.
Proof.
  replace (Z.of_nat (length pre) + 1) with (Z.of_nat (length (pre ++ [a]))) by (rewrite length_app; cbn; lia).
  change (a :: b :: rest) with ([a] ++ b :: rest). rewrite app_assoc. apply aget_mid.
Qed.

Lemma aget_mid2 {A} (pre rest : list A) a b c : aget (pre ++ a :: b :: c :: rest) (Z.of_nat (length pre) + 2) = Ok c.
Proof.
  replace (Z.of_nat (length pre) + 2) with (Z.of_nat (length (pre ++ [a])) + 1) by (rewrite length_app; cbn; lia).
  change (a :: b :: c :: rest) with ([a] ++ b :: c :: rest). rewrite app_assoc. apply aget_mid1.
Qed.

(** The words behind: [step l n o o'] says that the loop at [l] goes on behind it with [o']. *)
Definition main_step (l : list (list Z)) (o o' : MainOptions) : Prop :=
  ∀ pre rest n, (length l ≤ n)%nat → ∃ n', (n ≤ n' + length l)%nat ∧
    main_loop stub (pre ++ l ++ rest) n (Z.of_nat (length pre)) o = main_loop stub (pre ++ l ++ rest) n' (Z.of_nat (length (pre ++ l))) o'.

Lemma main_step_one a o o' :
  (∀ argv n i, aget argv i = Ok a → i < argc argv → main_loop stub argv (S n) i o = main_loop stub argv n (i + 1) o') → main_step [a] o o'.
Proof.
  intros Hs pre rest n Hn. destruct n as [|n]; [cbn in Hn; lia|]. exists n. split; [cbn; lia|]. rewrite (Hs _ n); [|apply aget_mid|unfold argc; rewrite !length_app; cbn; lia]. f_equal. rewrite length_app. cbn. lia.
Qed.

Lemma main_step_app l1 l2 o o1 o2 : main_step l1 o o1 → main_step l2 o1 o2 → main_step (l1 ++ l2) o o2.
Proof.
  intros H1 H2 pre rest n Hn. rewrite length_app in Hn. rewrite <- app_assoc. destruct (H1 pre (l2 ++ rest) n) as (n1&Hn1&->); [lia|].
  destruct (H2 (pre ++ l1) rest n1) as (n2&Hn2&E); [lia|]. exists n2. split; [rewrite length_app; lia|]. rewrite <- app_assoc in E. rewrite E. by rewrite <- (app_assoc pre l1 l2).
Qed.

Lemma main_step_skip v o : operand v → main_step [v] o o.
Proof.
  intros Hv. apply main_step_one. intros argv n i Hi Hlt. cbn [main_loop]. rewrite (proj2 (Z.ltb_lt _ _) Hlt). cbn [negb]. rewrite Hi. cbn [mbind res_bind]. words. done.
Qed.

Lemma main_step_skips vs o : Forall operand vs → main_step vs o o.
Proof.
  induction 1 as [|v vs Hv _ IH].
  - intros pre rest n _. exists n. split; [lia|]. by rewrite app_nil_r.
  - change (v :: vs) with ([v] ++ vs). by apply (main_step_app [v] vs o o); [apply main_step_skip|].
Qed.

(** An option with one operand. *)
Lemma main_step_two a v o o' :
  (∀ argv n i, aget argv i = Ok a → aget argv (i + 1) = Ok v → i + 1 < argc argv → main_loop stub argv (S n) i o = main_loop stub argv n (i + 2) o') → main_step [a; v] o o'.
Proof.
  intros Hs pre rest n Hn. destruct n as [|n]; [cbn in Hn; lia|]. exists n. split; [cbn; lia|].
  rewrite (Hs _ n); [|apply aget_mid|apply aget_mid1|unfold argc; rewrite !length_app; cbn; lia]. f_equal. rewrite length_app. cbn. lia.
Qed.

Ltac main_run := cbn [main_loop]; rewrite (proj2 (Z.ltb_lt _ (argc _))) by lia; cbn [negb].

Lemma main_step_item x o : good x → main_step (render x) o (main_item o x).
Proof.
  assert (Hflag : ∀ a o', (∀ argv n i, aget argv i = Ok (lit a) → i < argc argv → main_loop stub argv (S n) i o = main_loop stub argv n (i + 1) o') → main_step [lit a] o o') by (intros a o'; apply main_step_one).
  assert (Hskip : ∀ a vs, (∀ argv n i, aget argv i = Ok (lit a) → i < argc argv → main_loop stub argv (S n) i o = main_loop stub argv n (i + 1) o) → Forall operand vs → main_step (lit a :: vs) o o).
  { intros a vs Ha HF. apply (main_step_app [lit a] vs o o); [by apply Hflag|by apply main_step_skips]. }
  unfold main_item. destruct (stub && file_option x) eqn:Eig.
  - apply andb_true_iff in Eig as [Es Ef]. destruct x; try done; cbn [render good]; intros Hg;
      (apply Hskip; [intros argv n i Hi Hlt; main_run; rewrite Hi; cbn [mbind res_bind]; words; done|repeat constructor; by apply Hg]).
  - destruct x as [v| |v| | | |u v|v|v| | | |v| |v|v|vs| |v|v]; cbn [render good file_option] in *; intros Hg; rewrite ?andb_true_r in Eig;
    try (apply Hflag; intros argv n i Hi Hlt; main_run; rewrite Hi; cbn [mbind res_bind]; words; done);
    try (apply main_step_two; intros argv n i Hi Hv Hlt; main_run; rewrite Hi; cbn [mbind res_bind]; words; rewrite (proj2 (Z.ltb_lt _ _) Hlt); cbn [ASSERT mbind res_bind]; rewrite Hv; done);
    try (apply Hskip; [intros argv n i Hi Hlt; main_run; rewrite Hi; cbn [mbind res_bind]; words; done|by apply Hg || (repeat constructor; by apply Hg)]).
    destruct Hg as [Hu Hv]. intros pre rest n Hn. destruct n as [|n]; [cbn in Hn; lia|]. exists n. split; [cbn; lia|]. cbn [app].
    assert (Hlt : Z.of_nat (length pre) + 2 < argc (pre ++ lit "-cp" :: u :: v :: rest)) by (unfold argc; rewrite length_app; cbn; lia). main_run.
    rewrite aget_mid. cbn [mbind res_bind]. words. rewrite (proj2 (Z.ltb_lt _ _) Hlt). cbn [ASSERT mbind res_bind]. rewrite aget_mid1, aget_mid2. cbn [mbind res_bind]. f_equal. rewrite length_app. cbn. lia.
Qed.

Lemma main_step_items items : ∀ o, Forall good items → main_step (concat (map render items)) o (foldl main_item o items).
Proof.
  induction items as [|x items IH]; intros o HF; cbn [map concat foldl].
  - intros pre rest n _. exists n. split; [lia|]. by rewrite app_nil_r.
  - apply Forall_cons in HF as [Hx HF]. by apply (main_step_app _ _ o (main_item o x)); [apply main_step_item|apply IH].
Qed.

Lemma main_loop_end argv n o : main_loop stub argv n (Z.of_nat (length argv)) o = Ok o.
Proof. destruct n; cbn [main_loop]; unfold argc; by rewrite (proj2 (Z.ltb_ge _ _)) by lia. Qed.

Lemma main_options_ok name items : Forall good items → main_options stub (name :: concat (map render items)) = Ok (foldl main_item no_main_options items).
Proof.
  intros HF. unfold main_options. destruct (main_step_items items no_main_options HF [name] [] (length (name :: concat (map render items)))) as (n'&_&E); [cbn; lia|].
  rewrite app_nil_r in E. cbn [app] in E. change (Z.of_nat (length [name])) with 1 in E. rewrite E. apply main_loop_end.
Qed.

(** The same for the constructor of Kernel.  Behind [l] comes an option or nothing. *)
Definition stops (rest : list (list Z)) : Prop := rest = [] ∨ ∃ a l, rest = a :: l ∧ head a = Some 45.

Definition kernel_step (l : list (list Z)) (o o' : KernelOptions) : Prop :=
  ∀ pre rest n, (length l < n)%nat → stops rest → ∃ n', (n ≤ n' + length l)%nat ∧
    kernel_loop stub (pre ++ l ++ rest) n (Z.of_nat (length pre)) o = kernel_loop stub (pre ++ l ++ rest) n' (Z.of_nat (length (pre ++ l))) o'.

Lemma kernel_step_one a o o' :
  (∀ argv n i, aget argv i = Ok a → i < argc argv → kernel_loop stub argv (S n) i o = kernel_loop stub argv n (i + 1) o') → kernel_step [a] o o'.
Proof.
  intros Hs pre rest n Hn _. destruct n as [|n]; [cbn in Hn; lia|]. exists n. split; [cbn; lia|]. rewrite (Hs _ n); [|apply aget_mid|unfold argc; rewrite !length_app; cbn; lia]. f_equal. rewrite length_app. cbn. lia.
Qed.

Lemma kernel_step_two a v o o' :
  (∀ argv n i, aget argv i = Ok a → aget argv (i + 1) = Ok v → i + 1 < argc argv → kernel_loop stub argv (S n) i o = kernel_loop stub argv n (i + 2) o') → kernel_step [a; v] o o'.
Proof.
  intros Hs pre rest n Hn _. destruct n as [|n]; [cbn in Hn; lia|]. exists n. split; [cbn; lia|].
  rewrite (Hs _ n); [|apply aget_mid|apply aget_mid1|unfold argc; rewrite !length_app; cbn; lia]. f_equal. rewrite length_app. cbn. lia.
Qed.

Ltac kernel_run := cbn [kernel_loop]; rewrite (proj2 (Z.ltb_lt _ (argc _))) by lia; cbn [negb].

(** Words that the kernel does not know, with their operands. *)
Lemma kernel_skip a vs o : (∀ argv n i, aget argv i = Ok a → i < argc argv → kernel_loop stub argv (S n) i o = kernel_loop stub argv n (i + 1) o) →
  Forall operand vs → kernel_step (a :: vs) o o.
Proof.
  revert a. induction vs as [|v vs IH]; intros a Ha HF; [by apply kernel_step_one|]. apply Forall_cons in HF as [Hv HF]. intros pre rest n Hn Hst.
  destruct n as [|n]; [cbn in Hn; lia|]. cbn [app]. rewrite (Ha _ n); [|apply aget_mid|unfold argc; rewrite !length_app; cbn; lia].
  destruct (IH v) with (pre := pre ++ [a]) (rest := rest) (n := n) as (n'&Hn'&E); [|done|cbn in Hn; cbn; lia|done|].
  - intros argv k i Hi Hlt. kernel_run. rewrite Hi. cbn [mbind res_bind]. words. done.
  - exists n'. split; [cbn in *; lia|]. rewrite <- app_assoc in E. cbn [app] in E. replace (Z.of_nat (length pre) + 1) with (Z.of_nat (length (pre ++ [a]))) by (rewrite length_app; cbn; lia).
    rewrite E. f_equal. rewrite !length_app. cbn. lia.
Qed.

(** The arguments of the user program. *)
Lemma user_loop_ok vs : ∀ pre rest n o, Forall operand vs → (length vs < n)%nat → stops rest → pre ≠ [] → Z.of_nat (length (userArgs o) + length vs) < MAX_ARG_NUM →
  user_loop (pre ++ vs ++ rest) n (Z.of_nat (length pre) - 1) o = Ok (Z.of_nat (length (pre ++ vs)) - 1, foldl (λ o v, add_arg v o) o vs).
Proof.
  induction vs as [|v vs IH]; intros pre rest n o HF Hn Hst Hpre Hmax; (destruct n as [|n]; [lia|]); cbn [user_loop app].
  - rewrite app_nil_r. cbn [foldl]. destruct Hst as [->|(a&l&->&Ha)].
    + rewrite (proj2 (Z.ltb_ge _ _)) by (unfold argc; rewrite app_nil_r; lia). done.
    + rewrite (proj2 (Z.ltb_lt _ _)) by (unfold argc; rewrite length_app; cbn; lia). cbn [negb]. rewrite Z.sub_add, aget_mid. cbn [mbind res_bind].
      destruct a as [|x a]; [done|]. rewrite (bool_decide_eq_false_2 (x :: a = [])) by done. cbn [negb ASSERT mbind res_bind]. by rewrite bool_decide_eq_true_2.
  - apply Forall_cons in HF as [[Hv1 Hv2] HF]. rewrite (proj2 (Z.ltb_lt _ _)) by (unfold argc; rewrite length_app; cbn; lia). cbn [negb]. rewrite Z.sub_add, aget_mid. cbn [mbind res_bind].
    rewrite bool_decide_eq_false_2 by done. cbn [negb ASSERT mbind res_bind]. rewrite bool_decide_eq_false_2 by done. cbn [add_arg userArgs].
    rewrite (proj2 (Z.ltb_lt _ _)) by (rewrite length_app; cbn in *; lia). cbn [ASSERT mbind res_bind foldl].
    specialize (IH (pre ++ [v]) rest n (add_arg v o) HF). rewrite <- !app_assoc in IH. cbn [app] in IH. replace (Z.of_nat (length pre)) with (Z.of_nat (length (pre ++ [v])) - 1) by (rewrite length_app; cbn; lia).
    apply IH; [cbn in Hn; lia|done|by destruct pre|cbn; rewrite length_app; cbn in *; lia].
Qed.

Lemma kernel_args vs o : vs ≠ [] → Forall operand vs → Z.of_nat (length (userArgs o) + length vs) < MAX_ARG_NUM →
  kernel_step (lit "-argvs" :: vs) o (foldl (λ o v, add_arg v o) o vs).
Proof.
  intros Hne HF Hmax pre rest n Hn Hst. destruct n as [|n]; [cbn in Hn; lia|]. exists n. split; [cbn; lia|]. cbn [app length] in *.
  assert (Hlt : Z.of_nat (length pre) + 1 < argc (pre ++ lit "-argvs" :: vs ++ rest)) by (unfold argc; rewrite length_app; destruct vs; [done|]; cbn; lia).
  kernel_run. rewrite aget_mid. cbn [mbind res_bind]. words. rewrite (proj2 (Z.ltb_lt _ _) Hlt). cbn [ASSERT mbind res_bind].
  pose proof (user_loop_ok vs (pre ++ [lit "-argvs"]) rest n o HF ltac:(lia) Hst ltac:(by destruct pre) Hmax) as E. rewrite <- app_assoc in E. cbn [app] in E.
  replace (Z.of_nat (length (pre ++ [lit "-argvs"])) - 1) with (Z.of_nat (length pre)) in E by (rewrite length_app; cbn; lia). rewrite E. cbn [mbind res_bind]. f_equal. rewrite <- app_assoc. cbn [app]. lia.
Qed.

Lemma kernel_step_item x o : good x → Z.of_nat (length (userArgs o) + length (args_of x)) < MAX_ARG_NUM → kernel_step (render x) o (kernel_item o x).
Proof.
  unfold kernel_item. destruct (stub && file_option x) eqn:Eig.
  - apply andb_true_iff in Eig as [Es Ef]. destruct x; try done; cbn [render good]; intros Hg _;
      (apply kernel_skip; [intros argv n i Hi Hlt; kernel_run; rewrite Hi; cbn [mbind res_bind]; words; done|repeat constructor; by apply Hg]).
  - destruct x as [v| |v| | | |u v|v|v| | | |v| |v|v|vs| |v|v]; cbn [render good args_of file_option] in *; intros Hg Hmax; rewrite ?andb_true_r in Eig;
    try (apply kernel_step_one; intros argv n i Hi Hlt; kernel_run; rewrite Hi; cbn [mbind res_bind]; words; done);
    try (apply kernel_step_two; intros argv n i Hi Hv Hlt; kernel_run; rewrite Hi; cbn [mbind res_bind]; words; rewrite (proj2 (Z.ltb_lt _ _) Hlt); cbn [ASSERT mbind res_bind]; rewrite Hv; done);
    try (apply kernel_skip; [intros argv n i Hi Hlt; kernel_run; rewrite Hi; cbn [mbind res_bind]; words; done|repeat constructor; by apply Hg]).
    by apply kernel_args; [apply Hg..|].
Qed.

Lemma kernel_item_args o x : userArgs (kernel_item o x) = userArgs o ++ args_of x.
Proof.
  unfold kernel_item. destruct (stub && file_option x) eqn:Eig; [apply andb_true_iff in Eig as [_ Ef]; destruct x; try done; by rewrite app_nil_r|]. clear Eig.
  destruct x; cbn; rewrite ?app_nil_r; try done. revert o. induction vs as [|v vs IH]; intros o; cbn; [by rewrite app_nil_r|]. rewrite IH. cbn. by rewrite <- app_assoc.
Qed.

Lemma render_stops items : stops (concat (map render items)).
Proof. destruct items as [|x items]; [by left|right]. destruct x; cbn; eexists _, _; (split; [reflexivity|done]). Qed.

Lemma kernel_step_items items : ∀ o, Forall good items → Z.of_nat (length (userArgs o) + length (concat (map args_of items))) < MAX_ARG_NUM →
  ∀ pre n, (length (concat (map render items)) < n)%nat →
  kernel_loop stub (pre ++ concat (map render items)) n (Z.of_nat (length pre)) o = Ok (foldl kernel_item o items).
Proof.
  induction items as [|x items IH]; intros o HF Hmax pre n Hn; cbn [map concat foldl] in *.
  - rewrite app_nil_r. destruct n; cbn [kernel_loop]; unfold argc; by rewrite (proj2 (Z.ltb_ge _ _)) by lia.
  - apply Forall_cons in HF as [Hx HF]. rewrite length_app in Hn, Hmax. destruct (kernel_step_item x o Hx ltac:(lia) pre (concat (map render items)) n) as (n'&Hn'&->); [lia|apply render_stops|].
    rewrite app_assoc. apply IH; [done|rewrite kernel_item_args, length_app; lia|lia].
Qed.

Lemma kernel_options_ok name items : Forall good items → (length (concat (map args_of items)) < 10)%nat →
  kernel_options stub (name :: concat (map render items)) = Ok (foldl kernel_item no_kernel_options items).
Proof.
  intros HF Hmax. unfold kernel_options. pose proof (kernel_step_items items no_kernel_options HF ltac:(cbn; unfold MAX_ARG_NUM; lia) [name] (length (name :: concat (map render items))) ltac:(cbn; lia)) as E. exact E.
Qed.

(** ** The jobs of a command line *)

(** The operand of the last option of a kind. *)
Definition last_of {A} (f : item → option A) (items : list item) : option A := last (omap f items).
Definition remove_of (x : item) : option (list Z) := match x with RemoveFile v => Some v | _ => None end.
Definition copy_of (x : item) : option (list Z * list Z) := match x with CopyFile u v => Some (u, v) | _ => None end.
Definition print_of (x : item) : option (list Z) := match x with PrintFile v => Some v | _ => None end.
Definition program_of (x : item) : option (list Z) := match x with Program v => Some v | _ => None end.

Definition opt {A} (f : A → job) (o : option A) : list job := match o with Some a => [f a] | None => [] end.
Definition flag (x : item) (j : job) (items : list item) : list job := if decide (x ∈ items) then [j] else [].

(** What a command line asks for: the self tests, then the removal, the copy, the
    dump, the list and the printing of files, then the program. *)
Definition jobs_of (items : list item) : list job :=
  flag TestThreads ThreadSelfTest items ++ flag TestConsole ConsoleTest items ++ flag TestNetwork NetworkTest items
  ++ (if stub then []
      else opt RemoveJob (last_of remove_of items) ++ opt (λ '(u, v), CopyJob u v) (last_of copy_of items)
        ++ flag Dump DumpJob items ++ flag ListDir ListJob items ++ opt PrintJob (last_of print_of items))
  ++ opt StartMainThread (last_of program_of items).

Lemma last_of_snoc {A} (f : item → option A) items x : last_of f (items ++ [x]) = match f x with Some a => Some a | None => last_of f items end.
Proof. unfold last_of. rewrite omap_app. cbn. destruct (f x); [apply last_snoc|by rewrite app_nil_r]. Qed.

Lemma flag_snoc x j items y : flag x j (items ++ [y]) = if decide (y = x) then [j] else flag x j items.
Proof. unfold flag. repeat case_decide; try done; set_solver. Qed.

(** The settings of main, as far as its jobs depend on them. *)
Record Agrees (o : MainOptions) (items : list item) : Prop := {
  ag_threads j : (if threadTestFlag o then [j] else []) = flag TestThreads j items;
  ag_console j : (if consoleTestFlag o then [j] else []) = flag TestConsole j items;
  ag_network j : (if networkTestFlag o then [j] else []) = flag TestNetwork j items;
  ag_program : userProgName o = last_of program_of items;
  ag_remove : stub = false → removeFileName o = last_of remove_of items;
  ag_copy1 : stub = false → copyUnixFileName o = fst <$> last_of copy_of items;
  ag_copy2 : stub = false → copyNachosFileName o = snd <$> last_of copy_of items;
  ag_print : stub = false → printFileName o = last_of print_of items;
  ag_dump j : stub = false → (if dumpFlag o then [j] else []) = flag Dump j items;
  ag_list j : stub = false → (if dirListFlag o then [j] else []) = flag ListDir j items
}.

Lemma main_agrees items : Agrees (foldl main_item no_main_options items) items.
Proof.
  induction items as [|x items IH] using rev_ind; [by split|]. rewrite foldl_app. cbn [foldl]. destruct IH as [A1 A2 A3 A4 A5 A6 A7 A8 A9 A10].
  unfold main_item at 1. destruct (stub && file_option x) eqn:Eig.
  - apply andb_true_iff in Eig as [Es Ef]. split; intros; try congruence; rewrite ?last_of_snoc, ?flag_snoc; destruct x; try done; rewrite ?decide_False by done; auto.
  - clear Eig. split; intros; rewrite ?last_of_snoc, ?flag_snoc; destruct x; cbn; try rewrite decide_True by done; try rewrite decide_False by done; auto.
Qed.

Lemma main_jobs_ok items : main_jobs stub (foldl main_item no_main_options items) = jobs_of items.
Proof.
  destruct (main_agrees items) as [A1 A2 A3 A4 A5 A6 A7 A8 A9 A10]. unfold main_jobs, jobs_of. rewrite A1, A2, A3, A4. do 3 f_equal. f_equal.
  destruct stub; [done|]. rewrite A5, A6, A7, A8, A9, A10 by done. do 2 f_equal. by destruct (last_of copy_of items) as [[]|].
Qed.

Lemma format_items items : stub = false → ∀ o, formatFlag (foldl kernel_item o items) = formatFlag o || bool_decide (Format ∈ items).
Proof.
  intros Es. induction items as [|x items IH]; intros o; cbn [foldl]; [rewrite bool_decide_eq_false_2 by apply not_elem_of_nil; by rewrite orb_false_r|]. rewrite IH.
  assert (E : formatFlag (kernel_item o x) = formatFlag o || bool_decide (x = Format)).
  { unfold kernel_item. rewrite Es. cbn [andb]. destruct x; cbn; rewrite ?orb_false_r, ?orb_true_r; try done. revert o. induction vs as [|v vs IH2]; intros o; [done|]. cbn. rewrite IH2. done. }
  rewrite E, <- orb_assoc. f_equal. rewrite <- bool_decide_or. apply bool_decide_ext. rewrite elem_of_cons. split; intros [?|?]; auto.
Qed.
End STUB.

Lemma last_of_in {A} (f : item → option A) items a : last_of f items = Some a → ∃ x, x ∈ items ∧ f x = Some a.
Proof. intros E. apply last_Some_elem_of in E. by apply list_elem_of_omap in E. Qed.

Lemma copy_job_asked items u nm : CopyJob u nm ∈ jobs_of false items → CopyFile u nm ∈ items.
Proof.
  assert (Hopt : ∀ A (f : A → job) o j, j ∈ opt f o → ∃ a, o = Some a ∧ j = f a) by (intros A f [a|] j Hj; [exists a; by apply list_elem_of_singleton in Hj|by apply elem_of_nil in Hj]).
  assert (Hflag : ∀ x j j', j' ∈ flag x j items → j' = j) by (intros x j j'; unfold flag; case_decide; [by rewrite list_elem_of_singleton|by rewrite elem_of_nil]).
  unfold jobs_of. cbn iota. rewrite !elem_of_app. intros Hin.
  destruct_or! Hin; try (by apply Hflag in Hin); apply Hopt in Hin as (a&Ea&Ej); try done.
  destruct a as [u' v']. injection Ej as -> ->. apply last_of_in in Ea as (x&Hx&Ex). destruct x; try done. by injection Ex as -> ->.
Qed.

(** ** Copying and printing *)

Section FILES.
Context {S : Type} `{SD : SectorDisk S} (fresh : nat → list Z).
Context (fresh_length : ∀ n, length (fresh n) = n) (fresh_bytes : ∀ n, Forall is_byte (fresh n)).

Lemma Opened_size fs (s : S) m f k c : Opened fs s m f k → m !! k = Some c → FileHeader.numBytes (hdr f) = Z.of_nat (length c).
Proof.
  intros HO Hc. destruct (Opened_lookup _ _ _ _ _ HO) as (ds&Hs&Hh&Ek&_). rewrite Hc in Ek. injection Ek as ->. symmetry. apply length_data; [done|exact (sec_shape _ _ Hs)].
Qed.

(** The rest of the file is copied to where the position is. *)
Lemma copy_loop_ok n : ∀ rest fs s m f k done_ tail, Opened fs s m f k → m !! k = Some (done_ ++ tail) → length tail = length rest → seekPosition f = Z.of_nat (length done_) →
  Forall is_byte rest → Z.of_nat (length done_ + length rest) < halfword - 128 → (length rest < n)%nat →
  ∃ f' s', copy_loop fresh n rest f s = Ok (f', s') ∧ FS fs s' (<[k := done_ ++ rest]> m).
Proof.
  induction n as [|n IH]; intros rest fs s m f k don tail HO Hk Hl Hpos Hb Hsz Hn; [lia|]. cbn [copy_loop]. change (Z.to_nat TransferSize) with 128%nat.
  destruct (decide (rest = [])) as [->|Hne].
  - cbn. eexists _, s. split; [done|]. rewrite app_nil_r. destruct tail; [|done]. rewrite app_nil_r in Hk. rewrite insert_id by done. by destruct (Opened_lookup _ _ _ _ _ HO) as (_&_&_&_&HF).
  - set (buf := take 128 rest). assert (Hbl : length buf = Nat.min 128 (length rest)) by (unfold buf; by rewrite length_take). assert (0 < length rest)%nat by (destruct rest; [done|cbn; lia]).
    rewrite (proj2 (Z.ltb_lt 0 _)) by lia. assert (Hbb : Forall is_byte buf) by (by apply Forall_take).
    destruct (Write_open_ok fresh fresh_length fresh_bytes fs s m f k buf (Z.of_nat (length buf)) HO) as (c&s1&Ec&E&HO1); [lia|done|lia|]. rewrite E. cbn [mbind res_bind].
    rewrite Hk in Ec. injection Ec as <-. pose proof (Opened_size _ _ _ _ _ _ HO Hk) as Hsize. rewrite length_app in Hsize.
    assert (Ew : written (hdr f) (Z.of_nat (length buf)) (seekPosition f) = Z.of_nat (length buf)) by (unfold written; rewrite Hsize, Hpos; lia). rewrite Ew in *. rewrite Nat2Z.id, (take_ge buf) in HO1 by lia.
    assert (Esp : splice (don ++ tail) (seekPosition f) buf = (don ++ buf) ++ drop (length buf) tail).
    { rewrite Hpos. rewrite <- (take_drop (length buf) tail) at 1. rewrite app_assoc. unfold splice. rewrite Nat2Z.id. rewrite <- !app_assoc. rewrite take_app_length. f_equal. f_equal. rewrite app_assoc.
      rewrite drop_app_ge by (rewrite length_app, length_take; lia). rewrite length_app, length_take. replace (_ - _)%nat with 0%nat by lia. done. }
    rewrite Esp in HO1. destruct (IH (drop 128 rest) fs s1 _ (Seek (seekPosition f + Z.of_nat (length buf)) f) k (don ++ buf) (drop (length buf) tail) HO1) as (f'&s'&E'&HF').
    + by rewrite lookup_insert_eq.
    + rewrite !length_drop. lia.
    + cbn. rewrite length_app. lia.
    + by apply Forall_drop.
    + rewrite length_app, length_drop. lia.
    + rewrite length_drop. lia.
    + exists f', s'. split; [exact E'|]. rewrite insert_insert_eq in HF'. unfold buf in HF'. by rewrite <- app_assoc, take_drop in HF'.
Qed.

(** What copying a file means: [None] is a file too large for its header. *)
Definition copied (from : option (list Z)) (to : list Z) (m : gmap (list Z) (list Z)) : option (gmap (list Z) (list Z)) :=
  match from with
  | None => Some m
  | Some file =>
    let k := divRoundUp (Z.of_nat (length file)) SectorSize in
    if bool_decide (is_Some (m !! key to)) || (Z.of_nat (size m) =? NumDirEntries) || (free m <? 1 + k) then Some m
    else if FileHeader.NumDirect <? k then None
    else Some (<[key to := file]> m)
  end.

Lemma Copy_ok fs (s : S) m from to : FS fs s m → Forall is_byte to → (∀ file, from = Some file → Forall is_byte file) →
  match copied from to m with
  | None => Copy fresh fs from to s = Err BadAccess
  | Some m' => ∃ s', Copy fresh fs from to s = Ok s' ∧ FS fs s' m'
  end.
Proof.
  intros HF Hto Hb. unfold copied, Copy. destruct from as [file|]; [|by exists s]. specialize (Hb file eq_refl).
  pose proof (Create_ok fresh fresh_length fresh_bytes fs s m to (Z.of_nat (length file)) HF Hto ltac:(lia)) as HC. cbn zeta in HC.
  destruct (_ || _ || _); [destruct HC as (s1&->&HF1); by exists s1|].
  destruct (Z.ltb_spec FileHeader.NumDirect (divRoundUp (Z.of_nat (length file)) SectorSize)) as [Hbig|Hsmall]; [by rewrite HC|]. destruct HC as (s1&c&->&Hc&HF1). cbn [mbind res_bind negb].
  pose proof (Open_ok fresh fresh_length fresh_bytes fs s1 _ to HF1) as HO. rewrite lookup_insert_eq in HO. destruct HO as (f&s2&->&HO&Hpos). cbn [mbind res_bind]. rewrite bool_decide_eq_false_2 by done. cbn [negb ASSERT mbind res_bind deref].
  pose proof (divRoundUp_spec (Z.of_nat (length file)) SectorSize ltac:(lia) ltac:(done)) as Hdiv.
  destruct (copy_loop_ok (Datatypes.S (length file)) file fs s2 _ f (key to) [] c HO) as (f'&s'&->&HF'); [by rewrite lookup_insert_eq|lia|done|done| |lia|].
  - cbn [length]. unfold halfword. change FileHeader.NumDirect with 30 in Hsmall. change SectorSize with 128 in *. lia.
  - exists s'. split; [done|]. cbn [app] in HF'. by rewrite insert_insert_eq in HF'.
Qed.

Lemma print_loop_ok n : ∀ fs s m f k c out, Opened fs s m f k → m !! k = Some c → 0 ≤ seekPosition f ≤ Z.of_nat (length c) → Z.of_nat (length c) < halfword - 128 →
  Z.of_nat (length c) - seekPosition f < Z.of_nat n →
  ∃ s', print_loop fresh n f out s = Ok (out ++ drop (Z.to_nat (seekPosition f)) c, s') ∧ FS fs s' m.
Proof.
  induction n as [|n IH]; intros fs s m f k c out HO Hk Hpos Hsz Hn; [lia|]. cbn [print_loop].
  destruct (Read_open_ok fresh fresh_length fs s m f k TransferSize HO) as (c'&s1&Ec&->&HO1); [unfold TransferSize; lia|]. rewrite Hk in Ec. injection Ec as <-. cbn [mbind res_bind].
  assert (Hd : length (slice c (seekPosition f) TransferSize) = Nat.min 128 (length c - Z.to_nat (seekPosition f))) by (unfold slice; by rewrite length_take, length_drop).
  destruct (Z.ltb_spec 0 (Z.of_nat (length (slice c (seekPosition f) TransferSize)))) as [Hp|Hp].
  - destruct (IH fs s1 m _ k c (out ++ slice c (seekPosition f) TransferSize) HO1 Hk) as (s'&E&HF); [cbn; lia|done|cbn; lia|]. exists s'. split; [|done]. rewrite E. rewrite <- app_assoc. do 3 f_equal. cbn [seekPosition Seek set_position].
    unfold slice. change (Z.to_nat TransferSize) with 128%nat. rewrite <- (take_drop 128 (drop (Z.to_nat (seekPosition f)) c)) at 3. f_equal. rewrite drop_drop.
    destruct (decide (128 ≤ length c - Z.to_nat (seekPosition f))%nat) as [Hge|Hlt].
    + f_equal. rewrite length_take, length_drop. lia.
    + rewrite !drop_ge; [done|lia|rewrite length_take, length_drop; lia].
  - exists s1. split; [|by destruct (Opened_lookup _ _ _ _ _ HO1) as (_&_&_&_&HF)]. rewrite drop_ge by lia. by rewrite app_nil_r.
Qed.

Lemma Print_ok fs (s : S) m nm : FS fs s m → ∃ s', Print fresh fs nm s = Ok (default [] (m !! key nm), s') ∧ FS fs s' m.
Proof.
  intros HF. unfold Print. pose proof (Open_ok fresh fresh_length fresh_bytes fs s m nm HF) as HO. destruct (m !! key nm) as [c|] eqn:Ec.
  - destruct HO as (f&s1&->&HO&Hpos). cbn [mbind res_bind]. destruct (space_bounds fs s m HF) as (_&Hmax&_). specialize (Hmax _ _ Ec). change FileHeader.MaxFileSize with 3840 in Hmax.
    destruct (print_loop_ok print_fuel fs s1 m f (key nm) c [] HO Ec) as (s'&E&HF'); [lia|unfold halfword; lia|unfold print_fuel; change (Z.to_nat FileHeader.MaxFileSize) with 3840%nat; lia|].
    exists s'. rewrite E, Hpos. done.
  - destruct HO as (s1&->&HF1). by exists s1.
Qed.

(** What the jobs mean for the files: [None] is a copy of a file too large. *)
Fixpoint effect (unix : list Z → option (list Z)) (jobs : list job) (out : list Z) (m : gmap (list Z) (list Z)) : option (list Z * gmap (list Z) (list Z) * list job) :=
  match jobs with
  | RemoveJob nm :: js => effect unix js out (delete (key nm) m)
  | CopyJob u nm :: js => match copied (unix u) nm m with Some m => effect unix js out m | None => None end
  | PrintJob nm :: js => effect unix js (out ++ default [] (m !! key nm)) m
  | js => Some (out, m, js)
  end.

Lemma run_jobs_ok unix fs jobs : (∀ u file, unix u = Some file → Forall is_byte file) → (∀ u nm, CopyJob u nm ∈ jobs → Forall is_byte nm) →
  ∀ out (s : S) m, FS fs s m →
  match effect unix jobs out m with
  | None => run_jobs fresh unix fs jobs out s = Err BadAccess
  | Some (out', m', js) => ∃ s', run_jobs fresh unix fs jobs out s = Ok (out', s', js) ∧ FS fs s' m'
  end.
Proof.
  intros Hu. induction jobs as [|j jobs IH]; intros Hnm out s m HF; [by exists s|]. assert (Hnm' : ∀ u nm, CopyJob u nm ∈ jobs → Forall is_byte nm) by (intros u nm Hin; apply (Hnm u); by right).
  destruct j; cbn [effect run_jobs]; try (by exists s).
  - destruct (FRemove_ok fresh fresh_length fresh_bytes fs s m nm HF) as (s1&->&HF1). cbn [mbind res_bind]. by apply IH.
  - pose proof (Copy_ok fs s m (unix u) nm HF (Hnm u nm ltac:(by left)) (Hu u)) as HC. destruct (copied (unix u) nm m) as [m1|]; [|by rewrite HC].
    destruct HC as (s1&->&HF1). cbn [mbind res_bind]. by apply IH.
  - destruct (Print_ok fs s m nm HF) as (s1&->&HF1). cbn [mbind res_bind]. by apply IH.
Qed.
End FILES.
End BootSpec.

Import FileSystem OpenFile FileSpec DirectorySpec FileSysSpec Boot BootSpec.

(** Main and the constructor of Kernel both read the whole command line,
    and each skips what the other understands: for every sequence of options
    whose operands are not empty and do not begin with a dash, each of them ends
    with the settings of its own options, the last one of a kind counting, and
    the arguments of the user program (nine at most) in their order. *)
Theorem command_line_parsed (stub : bool) (name : list Z) (items : list item)
    (Hgood : Forall good items) (Hargs : (length (concat (map args_of items)) < 10)%nat) :
  main_options stub (name :: concat (map render items)) = Ok (foldl (main_item stub) no_main_options items)
  ∧ kernel_options stub (name :: concat (map render items)) = Ok (foldl (kernel_item stub) no_kernel_options items).
Proof. split; [by apply main_options_ok|by apply kernel_options_ok]. Qed.

Section PROPERTIES.
Context {S : Type} `{SD : SectorDisk S} (fresh : nat → list Z).
Context (fresh_length : ∀ n, length (fresh n) = n) (fresh_bytes : ∀ n, Forall is_byte (fresh n)).

(** C38 (refinement): a start of Nachos from the command line, whatever the order of
    the options, when operands do not begin with a dash.  Main does what is asked
    for in a fixed order: self tests, -r, -cp, -D, -l, -p, -x, the last option of
    a kind counting.  With FILESYS_STUB the options on files are ignored and the
    disk is not touched.  Without, -f starts from an empty map from names to
    contents, whatever was on the disk, else the map is the one that is there;
    then, up to the first self test, dump, list or program, -r deletes a name; -cp
    enters a file of UNIX under a new name, byte by byte in transfers of 128, when
    there is room, and changes nothing when there is none or the name is in use;
    -p prints the bytes of a file.  What is on the disk at that point, or at the
    end when nothing else is asked for, is the new map, for the next start.  A file
    of more than 30 sectors overruns its header instead of being refused. *)
Theorem nachos_commands (name : list Z) (items : list item) (unix : list Z → option (list Z)) (s : S) (m : gmap (list Z) (list Z))
    (Hgood : Forall good items) (Hargs : (length (concat (map args_of items)) < 10)%nat)
    (Hunix : ∀ u file, unix u = Some file → Forall is_byte file) (Hname : ∀ u nm, CopyFile u nm ∈ items → Forall is_byte nm)
    (Hdisk : if decide (Format ∈ items) then ∃ ds, sec_rep s ds else ∃ fs, FS fs s m) :
  let argv := name :: concat (map render items) in
  nachos fresh true argv unix s = Ok ([], s, jobs_of true items)
  ∧ match effect unix (jobs_of false items) [] (if decide (Format ∈ items) then ∅ else m) with
    | None => nachos fresh false argv unix s = Err BadAccess
    | Some (out, m', js) => ∃ fs s', nachos fresh false argv unix s = Ok (out, s', js) ∧ FS fs s' m'
    end.
Proof.
  intros argv. unfold nachos, argv. rewrite !main_options_ok, !kernel_options_ok by done. cbn [mbind res_bind]. rewrite !main_jobs_ok. split; [done|].
  set (m0 := if decide (Format ∈ items) then ∅ else m).
  assert (Hstart : ∃ fs s0, new_FileSystem fresh (formatFlag (foldl (kernel_item false) no_kernel_options items)) s = Ok (fs, s0) ∧ FS fs s0 m0).
  { rewrite format_items by done. unfold m0. case_decide as Hf.
    - rewrite bool_decide_eq_true_2 by done. destruct Hdisk as [ds Hs]. by apply (format_ok fresh fresh_length fresh_bytes s ds).
    - rewrite bool_decide_eq_false_2 by done. destruct Hdisk as [fs HF]. destruct (reopen_ok fresh fs s m HF) as (s'&E&HF'). by exists (rewound fs), s'. }
  destruct Hstart as (fs&s0&->&HF0). cbn [mbind res_bind].
  pose proof (run_jobs_ok fresh fresh_length fresh_bytes unix fs (jobs_of false items) Hunix) as HJ.
  assert (Hcopy : ∀ u nm, CopyJob u nm ∈ jobs_of false items → Forall is_byte nm).
  { intros u nm Hin. apply (Hname u). by apply copy_job_asked. }
  specialize (HJ Hcopy [] s0 m0 HF0). destruct (effect _ _ _ _) as [[[out m'] js]|]; [|done]. destruct HJ as (s'&E&HF'). by exists fs, s'.
Qed.
End PROPERTIES.

(** ** An example: format and copy, then print and run a program. *)

Definition word (s : string) : list Z := lit s.
Definition copy_line : list item := [Format; CopyFile (word "u") (word "ab")].
Definition print_line : list item := [Program (word "halt"); PrintFile (word "ab")].
Definition one_file (u : list Z) : option (list Z) := if arg_is u "u" then Some (word "hello") else None.

Lemma word_bytes : Forall is_byte (word "hello") ∧ Forall is_byte (word "ab").
Proof. split; repeat (apply Forall_cons_2; [unfold is_byte; cbn; lia|]); apply Forall_nil_2. Qed.

Lemma copy_line_ok : Forall good copy_line ∧ ∀ u nm, CopyFile u nm ∈ copy_line → Forall is_byte nm.
Proof.
  split; [apply Forall_cons_2; [exact I|]; apply Forall_cons_2; [split; split; discriminate|apply Forall_nil_2]|].
  intros u nm Hin. unfold copy_line in Hin. rewrite !elem_of_cons, elem_of_nil in Hin. destruct Hin as [?|[[= -> ->]|[]]]; [discriminate|apply word_bytes].
Qed.

Lemma nachos_commands_witness :
  ∃ s1 s2, nachos zeros false (word "nachos" :: concat (map render copy_line)) one_file (Disk.file blank_disk) = Ok ([], s1, [])
    ∧ nachos zeros false (word "nachos" :: concat (map render print_line)) one_file s1 = Ok (word "hello", s2, [StartMainThread (word "halt")]).
Proof.
  assert (Hu : ∀ u file, one_file u = Some file → Forall is_byte file) by (intros u file E; unfold one_file in E; destruct (arg_is u "u"); [injection E as <-; apply word_bytes|discriminate E]).
  destruct copy_line_ok as [Hg1 Hn1].
  pose proof (nachos_commands zeros zeros_length zeros_bytes (word "nachos") copy_line one_file (Disk.file blank_disk) ∅ Hg1 ltac:(cbn; lia) Hu Hn1) as H1.
  destruct H1 as [_ (fs&s1&E1&HF)]; [rewrite decide_True by (by left); eexists; exact blank_image_rep|].
  assert (Hnf : Format ∉ print_line) by (unfold print_line; rewrite !elem_of_cons, elem_of_nil; intros [?|[?|[]]]; discriminate).
  pose proof (nachos_commands zeros zeros_length zeros_bytes (word "nachos") print_line one_file s1 (<[key (word "ab") := word "hello"]> ∅)) as H2.
  destruct H2 as [_ (fs2&s2&E2&_)].
  - apply Forall_cons_2; [split; discriminate|]. apply Forall_cons_2; [split; discriminate|]. apply Forall_nil_2.
  - cbn. lia.
  - exact Hu.
  - intros u nm Hin. unfold print_line in Hin. rewrite !elem_of_cons, elem_of_nil in Hin. destruct Hin as [?|[?|[]]]; discriminate.
  - rewrite decide_False by exact Hnf. exists fs. exact HF.
  - exists s1, s2. split; [exact E1|]. rewrite E2. reflexivity.
Defined.
