(* ===== verification/Uniprog.v ===== *)
(** userprog/addrspace.cc, the constructor without arguments and Load of a file
    name: one program in memory, whose virtual pages are the frames of the same
    number.  The file system is an argument ([open]), as is the value that the
    constructor leaves in numPages ([garbage]).  The theorem compares this loader
    with the one for several programs in AddrSpace.v. *)

From S2P Require Import Prelude BitmapLib Machine Mips AddrSpace.

Module Uniprog.
Import AddrSpace.

(** One round of the constructor's loop. *)
Definition identity_page (i : Z) (pt : list TranslationEntry) : res (list TranslationEntry) :=
  Ok (pt ++ [mkEntry i i true false false false]).

Definition new_AddrSpace_single (garbage : Z) (w : Frames) : res (AddrSpace * Frames) :=
  pt ← for_up (Z.to_nat NumPhysPages) 0 identity_page [];
  mem ← store_bytes (mainMemory w) 0 (replicate (Z.to_nat MemorySize) 0);
  Ok (mkAddrSpace pt garbage, set_memory mem w).

(** A segment is read in one piece to its virtual address in main memory. *)
Definition copy_segment (executable : list Z) (seg : Segment) (mem : list Z) : res (list Z) :=
  if 0 <? size seg then
    data ← ReadAt executable (size seg) (inFileAddr seg);
    store_bytes mem (virtualAddr seg) data
  else Ok mem.

Definition Load_fileName (open : list Z → option (list Z)) (fileName : list Z) (hgarbage : list Z) (sp : AddrSpace) (w : Frames)
  : res (bool * AddrSpace * Frames) :=
  match open fileName with
  | None => Ok (false, sp, w)
  | Some executable =>
    noffH ← read_header (Some executable) hgarbage;
    let numPages := divRoundUp (space_size noffH) PageSize in
    ASSERT (numPages <=? NumPhysPages) ;;
    mem ← copy_segment executable (code noffH) (mainMemory w);
    mem ← copy_segment executable (initData noffH) mem;
    mem ← copy_segment executable (readonlyData noffH) mem;
    Ok (true, mkAddrSpace (pageTable sp) numPages, set_memory mem w)
  end.
End Uniprog.

Module UniprogSpec.
Import AddrSpace AddrSpaceSpec Uniprog.
Implicit Types (sp : AddrSpace) (w : Frames) (mem : list Z).

(** The page table that maps every page to the frame of its number. *)
Definition identity_table (n : nat) : list TranslationEntry := (λ i, mkEntry (Z.of_nat i) (Z.of_nat i) true false false false) <$> seq 0 n.

Lemma identity_pages n : for_up n 0 identity_page [] = Ok (identity_table n).
Proof.
  destruct (for_up_inv (λ k pt, pt = identity_table (Z.to_nat k)) identity_page n 0 []) as (pt&->&->); [done| |].
  - intros k pt Hk ->. eexists. split; [done|]. replace (Z.to_nat (k + 1)) with (Z.to_nat k + 1)%nat by lia.
    unfold identity_table. rewrite seq_app, fmap_app. cbn. by rewrite Z2Nat.id by lia.
  - do 2 f_equal. lia.
Qed.

Lemma identity_view n mem va : 0 ≤ va < NumPhysPages * PageSize →
  view (mkAddrSpace (identity_table (Z.to_nat NumPhysPages)) n) mem va = mem !! Z.to_nat va.
Proof.
  intros Hva. unfold view, identity_table. cbn [pageTable]. rewrite list_lookup_fmap, lookup_seq_lt by (unfold NumPhysPages, PageSize in *; dlia).
  cbn. f_equal. unfold PageSize in *. dlia.
Qed.

(** ** One segment *)

(** A segment inside main memory; nothing is asked of an empty one. *)
Definition seg_inside (seg : Segment) : Prop :=
  0 < size seg → 0 ≤ inFileAddr seg ∧ 0 ≤ virtualAddr seg ∧ virtualAddr seg + size seg ≤ MemorySize.

(** The bytes of the segment that the file has, put at its virtual address. *)
Definition copy_view (file : list Z) (seg : Segment) (v : Z → option Z) (va : Z) : option Z :=
  if decide (virtualAddr seg ≤ va < virtualAddr seg + size seg ∧ inFileAddr seg + (va - virtualAddr seg) < Z.of_nat (length file))
  then file !! Z.to_nat (inFileAddr seg + (va - virtualAddr seg)) else v va.

Lemma copy_segment_ok file seg mem : Z.of_nat (length mem) = MemorySize → seg_inside seg →
  ∃ mem', copy_segment file seg mem = Ok mem' ∧ Z.of_nat (length mem') = MemorySize
    ∧ ∀ va, 0 ≤ va → mem' !! Z.to_nat va = copy_view file seg (λ va, mem !! Z.to_nat va) va.
Proof.
  intros Hl Hin. unfold copy_segment, copy_view. destruct (Z.ltb_spec 0 (size seg)) as [Hs|Hs].
  2: { exists mem. split_and!; [done..|]. intros va Hva. by rewrite decide_False by lia. }
  destruct (Hin Hs) as (Hf&Hv&He). unfold ReadAt. rewrite (proj2 (Z.leb_le _ _)) by done. cbn [ASSERT mbind res_bind].
  assert (Hsl : Z.of_nat (length (slice file (inFileAddr seg) (size seg))) = (size seg `min` (Z.of_nat (length file) - inFileAddr seg)) `max` 0).
  { unfold slice. rewrite length_take, length_drop. lia. }
  rewrite store_bytes_ok by lia. eexists. split; [done|]. split; [rewrite length_splice; lia|]. intros va Hva.
  rewrite lookup_splice by lia. rewrite Z2Nat.id by done. repeat case_decide; try lia; [|done].
  rewrite lookup_slice by done. rewrite decide_True by lia. f_equal. lia.
Qed.

Lemma copy_view_ext file seg v v' va : v va = v' va → copy_view file seg v va = copy_view file seg v' va.
Proof. intros E. unfold copy_view. by case_decide. Qed.

(** The address space after the constructor. *)
Lemma new_single_ok g w : Z.of_nat (length (mainMemory w)) = MemorySize →
  new_AddrSpace_single g w
  = Ok (mkAddrSpace (identity_table (Z.to_nat NumPhysPages)) g, set_memory (replicate (Z.to_nat MemorySize) 0) w).
Proof.
  intros Hl. unfold new_AddrSpace_single. rewrite identity_pages. cbn [mbind res_bind].
  assert (Hr : Z.of_nat (length (replicate (Z.to_nat MemorySize) 0)) = MemorySize) by (rewrite length_replicate; by apply Z2Nat.id).
  rewrite store_bytes_ok by lia. cbn [mbind res_bind]. do 3 f_equal. unfold splice.
  rewrite drop_ge by lia. by rewrite app_nil_r.
Qed.

Definition three (h : NoffHeader) : list Segment := [code h; initData h; readonlyData h].

(** The three segments over zeroed memory. *)
Definition single_view (file : list Z) (h : NoffHeader) : Z → option Z :=
  copy_view file (readonlyData h) (copy_view file (initData h) (copy_view file (code h) (λ _, Some 0))).

Lemma Load_fileName_ok open name file g h n0 w :
  open name = Some file → read_header (Some file) g = Ok h → mainMemory w = replicate (Z.to_nat MemorySize) 0 → Forall seg_inside (three h) →
  let n := divRoundUp (space_size h) PageSize in
  n ≤ NumPhysPages →
  ∃ mem', Load_fileName open name g (mkAddrSpace (identity_table (Z.to_nat NumPhysPages)) n0) w
      = Ok (true, mkAddrSpace (identity_table (Z.to_nat NumPhysPages)) n, set_memory mem' w)
    ∧ ∀ va, 0 ≤ va < MemorySize → mem' !! Z.to_nat va = single_view file h va.
Proof.
  intros Ho Hh Hm Hsegs n Hn. apply Forall_cons in Hsegs as [H1 Hsegs]. apply Forall_cons in Hsegs as [H2 Hsegs].
  apply Forall_cons in Hsegs as [H3 _]. unfold Load_fileName. rewrite Ho, Hh. cbn [mbind res_bind]. fold n.
  rewrite (proj2 (Z.leb_le _ _)) by done. cbn [ASSERT mbind res_bind].
  assert (Hl : Z.of_nat (length (mainMemory w)) = MemorySize) by (rewrite Hm, length_replicate; by apply Z2Nat.id).
  destruct (copy_segment_ok file (code h) (mainMemory w) Hl H1) as (m1&->&L1&V1). cbn [mbind res_bind].
  destruct (copy_segment_ok file (initData h) m1 L1 H2) as (m2&->&L2&V2). cbn [mbind res_bind].
  destruct (copy_segment_ok file (readonlyData h) m2 L2 H3) as (m3&->&L3&V3).
  cbn [mbind res_bind]. exists m3. split; [done|]. intros va Hva. rewrite V3 by lia. unfold single_view.
  apply copy_view_ext. rewrite V2 by lia. apply copy_view_ext. rewrite V1 by lia. apply copy_view_ext.
  rewrite Hm. apply lookup_replicate_2. lia.
Qed.

(** A byte of a segment that no other segment touches. *)
Lemma single_bytes file h seg va :
  seg ∈ three h → virtualAddr seg ≤ va < virtualAddr seg + size seg → inFileAddr seg + size seg ≤ Z.of_nat (length file) →
  (∀ seg', seg' ∈ three h → seg' ≠ seg → ¬ virtualAddr seg' ≤ va < virtualAddr seg' + size seg') →
  single_view file h va = file !! Z.to_nat (inFileAddr seg + (va - virtualAddr seg)).
Proof.
  intros Hin Hva Hf Hoth.
  assert (Hview : ∀ seg' v, seg' ∈ three h → copy_view file seg' v va
    = if decide (seg' = seg) then file !! Z.to_nat (inFileAddr seg + (va - virtualAddr seg)) else v va).
  { intros seg' v Hin'. unfold copy_view. destruct (decide (seg' = seg)) as [->|Hne]; [by rewrite decide_True by lia|].
    specialize (Hoth seg' Hin' Hne). rewrite decide_False; [done|tauto]. }
  unfold single_view. rewrite !Hview by (unfold three; repeat constructor). unfold three in Hin. rewrite !elem_of_cons, elem_of_nil in Hin.
  repeat case_decide; congruence || intuition congruence.
Qed.
End UniprogSpec.

Import MachineSpec AddrSpace AddrSpaceSpec Uniprog UniprogSpec.

(** Loading a program alone in memory.  The constructor
    zeroes all of memory and maps every page to the frame of its number.  Load of
    a name that cannot be opened returns FALSE and changes nothing; an executable
    of more pages than memory has aborts; any other one whose segments lie in
    memory is loaded, and the program sees exactly its three segments, byte for
    byte, over zeroes.  And it sees what it would see among other programs: when
    its segments also satisfy the conditions of the loader for several programs,
    then for every state of the frames with enough free ones that loader
    succeeds too, gives as many pages, and the two programs have the same byte
    at each address of a segment that the pages of no other segment touch. *)
Theorem loaders_agree (open : list Z → option (list Z)) (name file g : list Z) (h : NoffHeader) (n0 : Z) (w0 : Frames)
    (Hl : Z.of_nat (length (mainMemory w0)) = MemorySize) (Ho : open name = Some file) (Hh : read_header (Some file) g = Ok h) :
  let n := divRoundUp (space_size h) PageSize in
  ∃ sp0 w1, new_AddrSpace_single n0 w0 = Ok (sp0, w1)
    ∧ (∀ va, 0 ≤ va < MemorySize → view sp0 (mainMemory w1) va = Some 0)
    ∧ (∀ other, open other = None → Load_fileName open other g sp0 w1 = Ok (false, sp0, w1))
    ∧ (NumPhysPages < n → Load_fileName open name g sp0 w1 = Err AssertFailed)
    ∧ (n ≤ NumPhysPages → Forall seg_inside (three h) →
       ∃ sp w2, Load_fileName open name g sp0 w1 = Ok (true, sp, w2) ∧ numPages sp = n
         ∧ (∀ va, 0 ≤ va < MemorySize → view sp (mainMemory w2) va = single_view file h va)
         ∧ ∀ w sps ta, Owned w sps → bytes file → n ≤ NumPhysPages - Z.of_nat (length (concat (frames <$> sps))) → Forall (seg_ok n) (three h) →
           ∃ sp1 w3 sp' w4, new_AddrSpace (Some file) g w = Ok (sp1, w3) ∧ Load (Some file) g ta sp1 w3 = Ok (true, sp', w4)
             ∧ numPages sp' = numPages sp
             ∧ ∀ seg va, seg ∈ three h → virtualAddr seg ≤ va < virtualAddr seg + size seg → inFileAddr seg + size seg ≤ Z.of_nat (length file) →
               (∀ seg', seg' ∈ three h → seg' ≠ seg → ¬ virtualAddr seg' ≤ va < virtualAddr seg' + divRoundUp (size seg') PageSize * PageSize) →
               view sp' (mainMemory w4) va = view sp (mainMemory w2) va).
Proof.
  intros n. rewrite new_single_ok by done. eexists _, _. split; [done|]. split.
  { intros va Hva. rewrite identity_view by done. apply lookup_replicate_2. unfold set_memory. cbn. lia. }
  split; [intros other E; unfold Load_fileName; by rewrite E|]. split.
  { intros Hn. unfold Load_fileName. rewrite Ho, Hh. cbn [mbind res_bind]. fold n. by rewrite (proj2 (Z.leb_gt _ _)) by done. }
  intros Hn Hin.
  destruct (Load_fileName_ok open name file g h n0 (set_memory (replicate (Z.to_nat MemorySize) 0) w0) Ho Hh eq_refl Hin Hn) as (mem&->&HV).
  eexists _, _. split; [done|]. split; [done|]. split; [intros va Hva; rewrite identity_view by done; by apply HV|].
  intros w sps ta HO Hb Hfree Hsegs.
  destruct (loaded_view w sps file g h ta HO Hh Hb Hfree Hsegs) as (sp1&w3&sp'&w4&E1&E2&_&Hnp&HV4&_). exists sp1, w3, sp', w4.
  split_and!; [done..|]. intros seg va Hseg Hva Hf Hoth.
  pose proof (proj1 (Forall_forall _ _) Hsegs seg Hseg ltac:(lia)) as Hfit. pose proof Hfit as [_ Hv0 Hvn _].
  pose proof (divRoundUp_spec (size seg) PageSize ltac:(lia) ltac:(done)) as Hd.
  assert (Hr : 0 ≤ va < n * PageSize) by (unfold PageSize in *; lia). fold n in Hnp.
  rewrite HV4 by (rewrite Hnp; done). rewrite identity_view by (unfold MemorySize, NumPhysPages, PageSize in *; lia).
  cbn [mainMemory set_memory]. rewrite HV by (unfold MemorySize, NumPhysPages, PageSize in *; lia).
  rewrite (segment_bytes n file _ _ _ seg va) by done. symmetry. apply single_bytes; [done..|].
  intros seg' Hs' Hne Hc. apply (Hoth seg' Hs' Hne). pose proof (divRoundUp_spec (size seg') PageSize ltac:(lia) ltac:(done)). unfold PageSize in *. lia.
Qed.

(** ** Examples *)

Definition one_name (n : list Z) : option (list Z) := if decide (n = [115]) then Some small else None.

Lemma loaders_agree_witness :
  ∃ sp0 w1 sp w2, new_AddrSpace_single 0 empty_memory = Ok (sp0, w1) ∧ Load_fileName one_name [115] [] sp0 w1 = Ok (true, sp, w2)
    ∧ view sp (mainMemory w2) 129 = Some 6.
Proof.
  assert (Hh : read_header (Some small) [] = Ok small_header) by (vm_compute; reflexivity).
  destruct (loaders_agree one_name [115] small [] small_header 0 empty_memory) as (sp0&w1&E&_&_&_&H); [vm_compute; reflexivity|reflexivity|exact Hh|].
  assert (Hin : Forall seg_inside (three small_header)).
  { repeat (apply Forall_cons; split; [intros _; vm_compute; intuition congruence|]). apply Forall_nil_2. }
  destruct H as (sp&w2&E2&_&HV&_); [vm_compute; congruence|exact Hin|]. exists sp0, w1, sp, w2. split; [exact E|]. split; [exact E2|].
  rewrite HV by (vm_compute; intuition congruence). vm_compute; reflexivity.
Defined.

(** When the file cannot be opened, numPages keeps the value that the memory of
    the object had, and the destructor runs over the end of the page table. *)
Theorem failed_load_destructor :
  ('(sp, w) ← new_AddrSpace_single 1000 empty_memory;
   '(ok, sp, w) ← Load_fileName one_name [116] [] sp w;
   ASSERT (negb ok) ;;
   delete_AddrSpace sp w) = Err BadAccess.
Proof. vm_compute. reflexivity. Qed.
