(* ===== verification/Switch.v ===== *)
(** threads/thread.cc (the constructors, the destructor, StackAllocate and
    CheckOverflow), threads/switch.h and the x86 part of threads/switch.S, and the
    bounded arrays of lib/sysdep.cc: the memory of a thread and the switch from one
    thread to another.

    The program is 32 bits wide, so a Thread object is a block of words: stackTop
    at offset 0, machineState behind it, then id, stack, status, name,
    userRegisters and space.  Memory is a map from the addresses of words to their
    values; the pages that mprotect takes away are kept apart ([guarded]), the
    strings of the heap too.  The assembly of SWITCH and ThreadRoot is a list of
    instructions, one for each line.  Addresses that the linker and the heap choose
    are arguments, as are the contents of new memory ([fresh]) and the code of the
    functions that ThreadRoot calls. *)

From S2P Require Import Prelude.

Module Switch.

(** ** The processor and the memory of the host *)

Inductive reg := ESP | EAX | EBX | ECX | EDX | EBP | ESI | EDI.

Record Cpu := mkCpu { esp : Z; eax : Z; ebx : Z; ecx : Z; edx : Z; ebp : Z; esi : Z; edi : Z }.

Definition get (r : reg) (c : Cpu) : Z :=
  match r with
  | ESP => esp c | EAX => eax c | EBX => ebx c | ECX => ecx c | EDX => edx c | EBP => ebp c | ESI => esi c | EDI => edi c
  end.

Definition put (r : reg) (v : Z) (c : Cpu) : Cpu :=
  let '(mkCpu sp a b c d bp si di) := c in
  match r with
  | ESP => mkCpu v a b c d bp si di | EAX => mkCpu sp v b c d bp si di | EBX => mkCpu sp a v c d bp si di
  | ECX => mkCpu sp a b v d bp si di | EDX => mkCpu sp a b c v bp si di | EBP => mkCpu sp a b c d v si di
  | ESI => mkCpu sp a b c d bp v di | EDI => mkCpu sp a b c d bp si v
  end.

Record Heap := mkHeap { cells : gmap Z Z; guarded : gset Z; strings : gmap Z (list Z) }.

(** ** switch.h *)

Definition _ESP : Z := 0.
Definition _EAX : Z := 4.
Definition _EBX : Z := 8.
Definition _ECX : Z := 12.
Definition _EDX : Z := 16.
Definition _EBP : Z := 20.
Definition _ESI : Z := 24.
Definition _EDI : Z := 28.
Definition _PC : Z := 32.

Definition PCState : Z := _PC / 4 - 1.
Definition InitialPCState : Z := _ESI / 4 - 1.
Definition InitialArgState : Z := _EDX / 4 - 1.
Definition WhenDonePCState : Z := _EDI / 4 - 1.
Definition StartupPCState : Z := _ECX / 4 - 1.

Definition InitialPC : reg := ESI.
Definition InitialArg : reg := EDX.
Definition WhenDonePC : reg := EDI.
Definition StartupPC : reg := ECX.

(** ** The instructions of switch.S *)

Inductive operand := Reg (r : reg) | At (offset : Z) (r : reg) | EaxSave.
Inductive instr := Movl (src dst : operand) | Pushl (src : operand).

Definition SWITCH_code : list instr := [
  Movl (Reg EAX) EaxSave;
  Movl (At 4 ESP) (Reg EAX);
  Movl (Reg EBX) (At _EBX EAX);
  Movl (Reg ECX) (At _ECX EAX);
  Movl (Reg EDX) (At _EDX EAX);
  Movl (Reg ESI) (At _ESI EAX);
  Movl (Reg EDI) (At _EDI EAX);
  Movl (Reg EBP) (At _EBP EAX);
  Movl (Reg ESP) (At _ESP EAX);
  Movl EaxSave (Reg EBX);
  Movl (Reg EBX) (At _EAX EAX);
  Movl (At 0 ESP) (Reg EBX);
  Movl (Reg EBX) (At _PC EAX);
  Movl (At 8 ESP) (Reg EAX);
  Movl (At _EAX EAX) (Reg EBX);
  Movl (Reg EBX) EaxSave;
  Movl (At _EBX EAX) (Reg EBX);
  Movl (At _ECX EAX) (Reg ECX);
  Movl (At _EDX EAX) (Reg EDX);
  Movl (At _ESI EAX) (Reg ESI);
  Movl (At _EDI EAX) (Reg EDI);
  Movl (At _EBP EAX) (Reg EBP);
  Movl (At _ESP EAX) (Reg ESP);
  Movl (At _PC EAX) (Reg EAX);
  Movl (Reg EAX) (At 4 ESP);
  Movl EaxSave (Reg EAX)
].

(** The part of ThreadRoot in front of its calls. *)
Definition ThreadRoot_code : list instr := [
  Pushl (Reg EBP);
  Movl (Reg ESP) (Reg EBP);
  Pushl (Reg InitialArg)
].

(** ** thread.h *)

Definition MachineStateSize : Z := 75.
Definition StackSize : Z := 8 * 1024.
Definition NumTotalRegs : Z := 40.
Definition JUST_CREATED : Z := 0.

(** The offsets of the fields of a Thread. *)
Definition stackTop_ : Z := 0.
Definition machineState_ (i : Z) : Z := 4 + 4 * i.
Definition id_ : Z := 4 + 4 * MachineStateSize.
Definition stack_ : Z := id_ + 4.
Definition status_ : Z := stack_ + 4.
Definition name_ : Z := status_ + 4.
Definition space_ : Z := name_ + 4 + 4 * NumTotalRegs.
Definition sizeof_Thread : Z := space_ + 4.

Definition STACK_FENCEPOST : Z := 233684719.      (* 0xdedbeef *)

Section HOST.
Context (pgSize eax_save ThreadRoot ThreadBegin ThreadFinish : Z).

Definition load (a : Z) (h : Heap) : res Z :=
  if bool_decide (a / pgSize ∈ guarded h) then Err BadAccess else deref (cells h !! a).

Definition store (a v : Z) (h : Heap) : res Heap :=
  load a h ;; Ok (mkHeap (<[a := v]> (cells h)) (guarded h) (strings h)).

Definition read (o : operand) (s : Cpu * Heap) : res Z :=
  match o with
  | Reg r => Ok (get r s.1)
  | At offset r => load (u32 (get r s.1 + offset)) s.2
  | EaxSave => load eax_save s.2
  end.

Definition write (o : operand) (v : Z) (s : Cpu * Heap) : res (Cpu * Heap) :=
  match o with
  | Reg r => Ok (put r v s.1, s.2)
  | At offset r => h ← store (u32 (get r s.1 + offset)) v s.2; Ok (s.1, h)
  | EaxSave => h ← store eax_save v s.2; Ok (s.1, h)
  end.

Definition push (v : Z) (s : Cpu * Heap) : res (Cpu * Heap) :=
  let sp := u32 (esp s.1 - 4) in
  h ← store sp v s.2;
  Ok (put ESP sp s.1, h).

Definition exec (i : instr) (s : Cpu * Heap) : res (Cpu * Heap) :=
  match i with
  | Movl src dst => v ← read src s; write dst v s
  | Pushl src => v ← read src s; push v s
  end.

Fixpoint run (code : list instr) (s : Cpu * Heap) : res (Cpu * Heap) :=
  match code with
  | [] => Ok s
  | i :: code => s ← exec i s; run code s
  end.

(** The instruction ret: the address at which the processor goes on. *)
Definition ret (s : Cpu * Heap) : res (Z * (Cpu * Heap)) :=
  pc ← load (esp s.1) s.2;
  Ok (pc, (put ESP (u32 (esp s.1 + 4)) s.1, s.2)).

Definition SWITCH (s : Cpu * Heap) : res (Z * (Cpu * Heap)) :=
  s ← run SWITCH_code s;
  ret s.

(** The call of SWITCH(oldThread, nextThread) in Scheduler::Run: the arguments and the
    address behind the call are on the stack. *)
Definition call_SWITCH (oldThread nextThread back : Z) (s : Cpu * Heap) : res (Z * (Cpu * Heap)) :=
  s ← push nextThread s;
  s ← push oldThread s;
  s ← push back s;
  SWITCH s.

(** ThreadRoot, as the list of its calls: the address, and the word where a function
    finds its first argument.  [body] is the code of a called function, up to
    its return; the last function does not return. *)
Section ROOT.
Context (body : Z → Cpu * Heap → res (Cpu * Heap)) (back : Z).

Definition enter (r : reg) (s : Cpu * Heap) : res ((Z * Z) * (Cpu * Heap)) :=
  let f := get r s.1 in
  s ← push back s;
  arg ← load (u32 (esp s.1 + 4)) s.2;
  Ok ((f, arg), s).

Definition ThreadRoot_calls (s : Cpu * Heap) : res (list (Z * Z)) :=
  s ← run ThreadRoot_code s;
  '(c1, s) ← enter StartupPC s;
  s ← body c1.1 s;
  '(c2, s) ← enter InitialPC s;
  s ← body c2.1 s;
  '(c3, _) ← enter WhenDonePC s;
  Ok [c1; c2; c3].
End ROOT.

(** ** sysdep.cc: arrays between two pages without access *)

(** mprotect(a, pgSize, ...): it fails, and its result is not looked at, when the
    address is not the beginning of a page. *)
Definition mprotect_none (a : Z) (h : Heap) : Heap :=
  if a mod pgSize =? 0 then mkHeap (cells h) ({[a / pgSize]} ∪ guarded h) (strings h) else h.
Definition mprotect_all (a : Z) (h : Heap) : Heap :=
  if a mod pgSize =? 0 then mkHeap (cells h) (guarded h ∖ {[a / pgSize]}) (strings h) else h.

(** The words of new memory at [a], and of memory that is given back. *)
Fixpoint add_words (a : Z) (fresh : list Z) (m : gmap Z Z) : gmap Z Z :=
  match fresh with
  | [] => m
  | v :: fresh => <[a := v]> (add_words (a + 4) fresh m)
  end.
Fixpoint drop_words (n : nat) (a : Z) (m : gmap Z Z) : gmap Z Z :=
  match n with
  | O => m
  | S n => delete a (drop_words n (a + 4) m)
  end.

(** [ptr] and [fresh] are what new char[pgSize * 2 + size] returns. *)
Definition AllocBoundedArray (size ptr : Z) (fresh : list Z) (h : Heap) : Z * Heap :=
  let h := mkHeap (add_words ptr fresh (cells h)) (guarded h) (strings h) in
  let h := mprotect_none ptr h in
  let h := mprotect_none (ptr + pgSize + size) h in
  (ptr + pgSize, h).

Definition DeallocBoundedArray (ptr size : Z) (h : Heap) : Heap :=
  let h := mprotect_all (ptr - pgSize) h in
  let h := mprotect_all (ptr + size) h in
  mkHeap (drop_words (Z.to_nat ((pgSize * 2 + size) / 4)) (ptr - pgSize) (cells h)) (guarded h) (strings h).

(** ** thread.cc *)

(** The constructors: [nameptr] is the address of the copy of the name.  The one
    without an id leaves -1. *)
Definition new_Thread (this nameptr : Z) (threadName : list Z) (id : Z) (h : Heap) : res Heap :=
  let nameLength := Z.of_nat (length threadName) + 1 in
  ASSERT ((nameLength <=? 32) && (0 <? nameLength)) ;;
  let h := mkHeap (cells h) (guarded h) (<[nameptr := threadName]> (strings h)) in
  h ← store (this + name_) nameptr h;
  h ← store (this + id_) id h;
  h ← store (this + stackTop_) 0 h;
  h ← store (this + stack_) 0 h;
  h ← store (this + status_) JUST_CREATED h;
  h ← for_up (Z.to_nat MachineStateSize) 0 (λ i h, store (this + machineState_ i) 0 h) h;
  store (this + space_) 0 h.

(** StackAllocate, the code for x86. *)
Definition StackAllocate (this func arg ptr : Z) (fresh : list Z) (h : Heap) : res Heap :=
  let '(stack, h) := AllocBoundedArray (StackSize * 4) ptr fresh h in
  h ← store (this + stack_) stack h;
  let stackTop := stack + 4 * (StackSize - 4) in
  let stackTop := stackTop - 4 in
  h ← store (this + stackTop_) stackTop h;
  h ← store stackTop ThreadRoot h;
  h ← store stack STACK_FENCEPOST h;
  h ← store (this + machineState_ PCState) ThreadRoot h;
  h ← store (this + machineState_ StartupPCState) ThreadBegin h;
  h ← store (this + machineState_ InitialPCState) func h;
  h ← store (this + machineState_ InitialArgState) arg h;
  store (this + machineState_ WhenDonePCState) ThreadFinish h.

Definition CheckOverflow (this : Z) (h : Heap) : res unit :=
  stack ← load (this + stack_) h;
  if stack =? 0 then Ok tt
  else v ← load stack h; ASSERT (v =? STACK_FENCEPOST).

(** The destructor, behind the deletion of the address space. *)
Definition delete_Thread (this currentThread : Z) (h : Heap) : res Heap :=
  ASSERT (negb (this =? currentThread)) ;;
  stack ← load (this + stack_) h;
  let h := if stack =? 0 then h else DeallocBoundedArray stack (StackSize * 4) h in
  nameptr ← load (this + name_) h;
  Ok (mkHeap (drop_words (Z.to_nat (sizeof_Thread / 4)) this (cells h)) (guarded h) (delete nameptr (strings h))).
End HOST.
End Switch.

Module SwitchSpec.
Import Switch.

Section HOST.
Context (pgSize eax_save ThreadRoot ThreadBegin ThreadFinish : Z).
Abbreviation load := (load pgSize).
Abbreviation store := (store pgSize).
Abbreviation SWITCH := (SWITCH pgSize eax_save).
Abbreviation call_SWITCH := (call_SWITCH pgSize eax_save).
Implicit Types (h : Heap) (c : Cpu).

(** ** Words of memory *)

(** The program can use the word at [x], and it is [v]. *)
Definition word h (x v : Z) : Prop := cells h !! x = Some v ∧ x / pgSize ∉ guarded h.

Definition upd (x v : Z) h : Heap := mkHeap (<[x := v]> (cells h)) (guarded h) (strings h).

Lemma load_word h x v : word h x v → load x h = Ok v.
Proof. intros [E Hg]. unfold Switch.load. by rewrite bool_decide_false, E by done. Qed.

Lemma store_word h x v w : word h x w → store x v h = Ok (upd x v h).
Proof. intros Hw. unfold Switch.store. by rewrite (load_word h x w Hw). Qed.

Lemma word_here h x y v w : word h x w → x = y → word (upd y v h) x v.
Proof. intros [_ Hg] <-. split; [apply lookup_insert_eq|done]. Qed.

Lemma word_there h x y v w : x ≠ y → word h x w → word (upd y v h) x w.
Proof. intros Hne [E Hg]. split; [|done]. cbn. by rewrite lookup_insert_ne by done. Qed.

(** A block of [n] words at [x]. *)
Definition block h (x n : Z) : Prop := ∀ i, 0 ≤ i < n → ∃ v, word h (x + 4 * i) v.

Lemma block_at h (x n y i : Z) : block h x n → y = x + 4 * i → 0 ≤ i < n → ∃ v, word h y v.
Proof. intros H -> Hi. by apply H. Qed.

Lemma block_upd h (x n y v : Z) : block h x n → block (upd y v h) x n.
Proof.
  intros H i Hi. destruct (H i Hi) as [w Hw]. destruct (decide (x + 4 * i = y)) as [E|E].
  - exists v. by eapply word_here.
  - exists w. by apply word_there.
Qed.

(** Two blocks of [n] and [m] words have no word in common. *)
Definition apart (x n y m : Z) : Prop := x + 4 * n ≤ y ∨ y + 4 * m ≤ x.

(** ** A thread that is not running: what SWITCH finds in its object *)

Record saved h (t : Z) c (pc : Z) : Prop := {
  sv_esp : word h (t + _ESP) (esp c); sv_eax : word h (t + _EAX) (eax c); sv_ebx : word h (t + _EBX) (ebx c);
  sv_ecx : word h (t + _ECX) (ecx c); sv_edx : word h (t + _EDX) (edx c); sv_ebp : word h (t + _EBP) (ebp c);
  sv_esi : word h (t + _ESI) (esi c); sv_edi : word h (t + _EDI) (edi c); sv_pc : word h (t + _PC) pc
}.

(** Where objects lie: in the address space, apart from each other. *)
Record place (a sp b spb : Z) : Prop := {
  pl_a : 0 ≤ a ∧ a + 36 < wordsize; pl_sp : 12 ≤ sp < wordsize; pl_b : 0 ≤ b ∧ b + 36 < wordsize; pl_spb : 0 ≤ spb ∧ spb + 8 < wordsize;
  pl_ab : apart a 9 b 9; pl_as : apart a 9 (sp - 12) 3; pl_asb : apart a 9 spb 2; pl_bs : apart b 9 (sp - 12) 3; pl_bsb : apart b 9 spb 2;
  pl_ssb : apart (sp - 12) 3 spb 2;
  pl_ea : apart a 9 eax_save 1; pl_es : apart (sp - 12) 3 eax_save 1; pl_eb : apart b 9 eax_save 1; pl_esb : apart spb 2 eax_save 1
}.

(** Memory outside the words that a switch writes. *)
Definition same_but (a sp spb : Z) h h' : Prop :=
  guarded h' = guarded h ∧ strings h' = strings h ∧ (∀ x, is_Some (cells h !! x) → is_Some (cells h' !! x))
  ∧ ∀ x, apart x 1 a 9 → apart x 1 (sp - 12) 3 → x ≠ eax_save → x ≠ spb + 4 → cells h' !! x = cells h !! x.

(** Two words differ: by their offsets, or because their blocks are apart. *)
Ltac ne_words := first [ lia | match goal with H : apart _ _ _ _ |- _ => unfold apart in H; lia end ].
Ltac find_word :=
  first [ eassumption | eapply word_there; [ne_words|find_word] | eapply word_here; [find_word|lia] ].
Ltac addr := repeat match goal with |- context [u32 ?x] => rewrite (u32_id x) by (unfold_int; lia) end.
Ltac next :=
  cbn [run exec read write mbind res_bind get put fst snd esp eax ebx ecx edx ebp esi edi]; addr; rewrite ?Z.add_0_r;
  first [ erewrite load_word by find_word | erewrite store_word by find_word ].

Lemma SWITCH_ok c h (a b back x y : Z) cb pcb ret_b :
  place a (esp c + 12) b (esp cb) → block h a 9 → word h eax_save x → word h (esp cb + 4) y →
  word h (esp c) back → word h (esp c + 4) a → word h (esp c + 8) b → saved h b cb pcb → word h (esp cb) ret_b →
  ∃ h', SWITCH (c, h) = Ok (ret_b, (put ESP (esp cb + 4) cb, h')) ∧ saved h' a c back ∧ word h' (esp c) back
    ∧ same_but a (esp c + 12) (esp cb) h h'.
Proof.
  intros [] Hblk Hx Hy H0 H4 H8 [] Hret.
  assert (Hw : ∀ i, 0 ≤ i < 9 → ∃ v, word h (a + 4 * i) v) by exact Hblk.
  destruct (Hw 0 ltac:(lia)) as [? Ha0]. destruct (Hw 1 ltac:(lia)) as [? Ha1]. destruct (Hw 2 ltac:(lia)) as [? Ha2].
  destruct (Hw 3 ltac:(lia)) as [? Ha3]. destruct (Hw 4 ltac:(lia)) as [? Ha4]. destruct (Hw 5 ltac:(lia)) as [? Ha5].
  destruct (Hw 6 ltac:(lia)) as [? Ha6]. destruct (Hw 7 ltac:(lia)) as [? Ha7]. destruct (Hw 8 ltac:(lia)) as [? Ha8]. clear Hw Hblk.
  cbn [Z.mul Pos.mul] in Ha0, Ha1, Ha2, Ha3, Ha4, Ha5, Ha6, Ha7, Ha8.
  destruct c as [sp ra rb rc rd rbp rsi rdi], cb as [spb qa qb qc qd qbp qsi qdi].
  cbn [esp eax ebx ecx edx ebp esi edi] in *. unfold _ESP, _EAX, _EBX, _ECX, _EDX, _EBP, _ESI, _EDI, _PC in *.
  unfold Switch.SWITCH, SWITCH_code, _ESP, _EAX, _EBX, _ECX, _EDX, _EBP, _ESI, _EDI, _PC.
  rewrite ?Z.add_0_r in *. repeat next.
  unfold ret. repeat next. cbn [mbind res_bind put fst snd esp]. addr.
  eexists. split; [done|]. split; [|split; [find_word|]].
  { split; cbn [esp eax ebx ecx edx ebp esi edi]; unfold _ESP, _EAX, _EBX, _ECX, _EDX, _EBP, _ESI, _EDI, _PC; rewrite ?Z.add_0_r; find_word. }
  split; [done|]. split; [done|]. split; [intros w Hw; cbn [upd cells]; by repeat (apply lookup_insert_is_Some'; right)|].
  intros w Hw1 Hw2 Hw3 Hw4. cbn [upd cells]. by rewrite !lookup_insert_ne by ne_words.
Qed.

Lemma push_word_ok c h (v w : Z) : word h (esp c - 4) w → 4 ≤ esp c < wordsize → push pgSize v (c, h) = Ok (put ESP (esp c - 4) c, upd (esp c - 4) v h).
Proof. intros Hw Hr. unfold push. cbn [fst snd]. rewrite u32_id by (unfold_int; lia). by rewrite (store_word h _ v w). Qed.

Lemma esp_put v c : esp (put ESP v c) = v.
Proof. by destruct c. Qed.
Lemma put_esp_twice v w c : put ESP v (put ESP w c) = put ESP v c.
Proof. by destruct c. Qed.
Lemma put_esp c : put ESP (esp c) c = c.
Proof. by destruct c. Qed.

Lemma block_1 h x : block h x 1 → ∃ v, word h x v.
Proof. intros H. destruct (H 0 ltac:(lia)) as [v Hv]. rewrite Z.mul_0_r, Z.add_0_r in Hv. by exists v. Qed.

Lemma saved_upd h t c pc (x v : Z) : saved h t c pc → apart x 1 t 9 → saved (upd x v h) t c pc.
Proof.
  intros [] Ha. unfold apart in Ha.
  split; (apply word_there; [unfold _ESP, _EAX, _EBX, _ECX, _EDX, _EBP, _ESI, _EDI, _PC; lia|done]).
Qed.

(** A call of SWITCH, from the words of memory that it needs. *)
Lemma call_SWITCH_ok c h (a b back : Z) cb pcb ret_b :
  place a (esp c) b (esp cb) → block h a 9 → block h (esp c - 12) 3 → block h eax_save 1 → block h (esp cb) 2 →
  saved h b cb pcb → word h (esp cb) ret_b →
  ∃ h', call_SWITCH a b back (c, h) = Ok (ret_b, (put ESP (esp cb + 4) cb, h')) ∧ saved h' a (put ESP (esp c - 12) c) back
    ∧ word h' (esp c - 12) back ∧ same_but a (esp c) (esp cb) h h'.
Proof.
  intros Hpl Ha Hs He Hb Hsv Hret.
  destruct (block_1 _ _ He) as [x Hx]. destruct (block_at h _ _ (esp cb + 4) 1 Hb ltac:(lia) ltac:(lia)) as [y Hy].
  destruct (block_at h _ _ (esp c - 4) 2 Hs ltac:(lia) ltac:(lia)) as [v1 H1].
  destruct (block_at h _ _ (esp c - 8) 1 Hs ltac:(lia) ltac:(lia)) as [v2 H2].
  destruct (block_at h _ _ (esp c - 12) 0 Hs ltac:(lia) ltac:(lia)) as [v3 H3].
  pose proof Hpl as [_ Hsp _ _ _ Has _ Hbs _ Hsb _ Hes _ _]. unfold Switch.call_SWITCH.
  rewrite (push_word_ok c h b v1) by (done || lia). cbn [mbind res_bind].
  rewrite (push_word_ok _ _ a v2) by (rewrite esp_put; first [lia|replace (esp c - 4 - 4) with (esp c - 8) by lia; find_word]). cbn [mbind res_bind].
  rewrite esp_put, put_esp_twice. replace (esp c - 4 - 4) with (esp c - 8) by lia.
  rewrite (push_word_ok _ _ back v3) by (rewrite esp_put; first [lia|replace (esp c - 8 - 4) with (esp c - 12) by lia; find_word]). cbn [mbind res_bind].
  rewrite esp_put, put_esp_twice. replace (esp c - 8 - 4) with (esp c - 12) by lia.
  set (h0 := upd (esp c - 12) back _). set (c0 := put ESP (esp c - 12) c).
  assert (E0 : esp c0 = esp c - 12) by apply esp_put.
  destruct (SWITCH_ok c0 h0 a b back x y cb pcb ret_b) as (h'&E&Hsv'&Hw&Hsame); rewrite ?E0.
  - by replace (esp c - 12 + 12) with (esp c) by lia.
  - by repeat apply block_upd.
  - unfold h0. find_word.
  - unfold h0. find_word.
  - unfold h0. find_word.
  - replace (esp c - 12 + 4) with (esp c - 8) by lia. unfold h0. find_word.
  - replace (esp c - 12 + 8) with (esp c - 4) by lia. unfold h0. find_word.
  - unfold h0. unfold apart in Hbs. by do 3 (apply saved_upd; [|unfold apart; lia]).
  - unfold h0. find_word.
  - exists h'. rewrite E0 in *. replace (esp c - 12 + 12) with (esp c) in Hsame by lia. split; [done|]. split; [done|]. split; [done|].
    destruct Hsame as (G&St&Hd&Hc). split; [done|]. split; [done|].
    split; [intros w Hw'; apply Hd; unfold h0; cbn [upd cells]; by repeat (apply lookup_insert_is_Some'; right)|]. intros w Hw1 Hw2 Hw3 Hw4. rewrite Hc by done. unfold h0. cbn [upd cells].
    by rewrite !lookup_insert_ne by (unfold apart in Hw2; lia).
Qed.

(** The words of a block that can be used in [h] are the same in [h']. *)
Definition keeps h h' (x n : Z) : Prop := ∀ i v, 0 ≤ i < n → word h (x + 4 * i) v → word h' (x + 4 * i) v.

Lemma keeps_block h h' x n : keeps h h' x n → block h x n → block h' x n.
Proof. intros Hk Hb i Hi. destruct (Hb i Hi) as [v Hv]. exists v. by apply Hk. Qed.

Lemma keeps_word h h' x n y v : keeps h h' x n → (y - x) mod 4 = 0 → x ≤ y < x + 4 * n → word h y v → word h' y v.
Proof.
  intros Hk Hm Hr. replace y with (x + 4 * ((y - x) / 4)) by dlia. apply Hk. dlia.
Qed.

Lemma keeps_saved h h' t c pc : keeps h h' t 9 → saved h t c pc → saved h' t c pc.
Proof.
  intros Hk []. unfold _ESP, _EAX, _EBX, _ECX, _EDX, _EBP, _ESI, _EDI, _PC in *.
  split; (apply (keeps_word h h' t 9); [done|rewrite Z.add_simpl_l; reflexivity|unfold _ESP, _EAX, _EBX, _ECX, _EDX, _EBP, _ESI, _EDI, _PC; lia|done]).
Qed.

Lemma same_but_word a sp spb h h' x v :
  same_but a sp spb h h' → apart x 1 a 9 → apart x 1 (sp - 12) 3 → x ≠ eax_save → x ≠ spb + 4 → word h x v → word h' x v.
Proof. intros (Eg&_&_&Hc) H1 H2 H3 H4 [E Hg]. split; [by rewrite Hc|by rewrite Eg]. Qed.

Lemma same_but_block a sp spb h h' x n : same_but a sp spb h h' → block h x n → block h' x n.
Proof. intros (Eg&_&Hd&_) Hb i Hi. destruct (Hb i Hi) as (v&E&Hg). destruct (Hd (x + 4 * i)) as [w Hw]; [by exists v|]. exists w. split; [done|by rewrite Eg]. Qed.

Lemma same_but_keeps a sp spb h h' x n :
  same_but a sp spb h h' → apart x n a 9 → apart x n (sp - 12) 3 → apart x n eax_save 1 → apart x n spb 2 → keeps h h' x n.
Proof.
  intros Hs H1 H2 H3 H4 i v Hi. apply (same_but_word a sp spb h h' _ v Hs); unfold apart in *; lia.
Qed.

(** ** New memory *)

Lemma add_words_in fresh : ∀ a m (i : nat) v, fresh !! i = Some v → add_words a fresh m !! (a + 4 * Z.of_nat i) = Some v.
Proof.
  induction fresh as [|w fresh IH]; intros a m i v Hi; [done|]. cbn [add_words]. destruct i as [|i].
  - injection Hi as ->. rewrite Z.mul_0_r, Z.add_0_r. apply lookup_insert_eq.
  - rewrite lookup_insert_ne by lia. replace (a + 4 * Z.of_nat (S i)) with (a + 4 + 4 * Z.of_nat i) by lia. by apply IH.
Qed.

Lemma add_words_out fresh : ∀ a m x, apart x 1 a (Z.of_nat (length fresh)) → add_words a fresh m !! x = m !! x.
Proof.
  unfold apart. induction fresh as [|w fresh IH]; intros a m x Hx; [done|]. cbn [add_words length] in *.
  rewrite lookup_insert_ne by lia. apply IH. lia.
Qed.

Lemma drop_words_in n : ∀ a m (i : Z), 0 ≤ i < Z.of_nat n → drop_words n a m !! (a + 4 * i) = None.
Proof.
  induction n as [|n IH]; intros a m i Hi; [lia|]. cbn [drop_words]. destruct (decide (i = 0)) as [->|Hne].
  - rewrite Z.mul_0_r, Z.add_0_r. apply lookup_delete_eq.
  - rewrite lookup_delete_ne by lia. replace (a + 4 * i) with (a + 4 + 4 * (i - 1)) by lia. apply IH. lia.
Qed.

Lemma drop_words_out n : ∀ a m x, apart x 1 a (Z.of_nat n) → drop_words n a m !! x = m !! x.
Proof.
  unfold apart. induction n as [|n IH]; intros a m x Hx; [done|]. cbn [drop_words] in *.
  rewrite lookup_delete_ne by lia. apply IH. lia.
Qed.

Section PAGES.
Context (pg_pos : 0 < pgSize).

Lemma same_page a x : a mod pgSize = 0 → x / pgSize = a / pgSize ↔ a ≤ x < a + pgSize.
Proof. intros Ha. Z.to_euclidean_division_equations. nia. Qed.

Lemma mprotect_none_word a h x v : word h x v → apart x 1 a (pgSize / 4) → pgSize mod 4 = 0 → word (mprotect_none pgSize a h) x v.
Proof.
  intros [E Hg] Hx H4. unfold mprotect_none. destruct (Z.eqb_spec (a mod pgSize) 0) as [Ha|]; [|done]. split; [done|]. cbn.
  pose proof (same_page a x Ha). unfold apart in Hx. rewrite not_elem_of_union, not_elem_of_singleton. split; [|done].
  rewrite H. intros Hc. assert (4 * (pgSize / 4) = pgSize) by dlia. lia.
Qed.
End PAGES.

(** ** The constructor *)

Lemma store_in h (x n y v : Z) : block h x n → (y - x) mod 4 = 0 → x ≤ y < x + 4 * n → store y v h = Ok (upd y v h).
Proof. intros Hb Hm Hr. destruct (block_at h x n y ((y - x) / 4) Hb) as [w Hw]; [dlia..|]. by apply (store_word h y v w). Qed.

Lemma word_upd_in h (x n y v : Z) : block h x n → (y - x) mod 4 = 0 → x ≤ y < x + 4 * n → word (upd y v h) y v.
Proof. intros Hb Hm Hr. destruct (block_at h x n y ((y - x) / 4) Hb) as [w Hw]; [dlia..|]. by apply (word_here h y y v w). Qed.

(** The fields of an object outside machineState. *)
Record fields h (t top id stack status name space : Z) : Prop := {
  fd_top : word h (t + stackTop_) top; fd_id : word h (t + id_) id; fd_stack : word h (t + stack_) stack;
  fd_status : word h (t + status_) status; fd_name : word h (t + name_) name; fd_space : word h (t + space_) space
}.

(** What is left alone outside the object [t]. *)
Definition only (t : Z) h h' : Prop := guarded h' = guarded h ∧ ∀ x, apart x 1 t 121 → cells h' !! x = cells h !! x.

Lemma only_upd t h h' (y v : Z) : only t h h' → t ≤ y < t + 484 → only t h (upd y v h').
Proof. intros [Eg Hc] Hy. split; [done|]. intros x Hx. cbn. rewrite lookup_insert_ne by (unfold apart in Hx; lia). by apply Hc. Qed.

Ltac offsets := unfold stackTop_, space_, name_, status_, stack_, id_, machineState_, MachineStateSize, NumTotalRegs in *.
Ltac in_object := (by done) || (rewrite Z.add_simpl_l; reflexivity) || (offsets; lia).

Lemma clear_state_ok t h0 : block h0 t 121 →
  ∃ h, for_up (Z.to_nat MachineStateSize) 0 (λ i h, store (t + machineState_ i) 0 h) h0 = Ok h
    ∧ block h t 121 ∧ only t h0 h ∧ strings h = strings h0 ∧ (∀ i, 0 ≤ i < 75 → word h (t + machineState_ i) 0)
    ∧ ∀ x v, x < t + 4 ∨ t + 304 ≤ x → word h0 x v → word h x v.
Proof.
  intros Hb. destruct (for_up_inv (λ k h, block h t 121 ∧ only t h0 h ∧ strings h = strings h0 ∧ (∀ i, 0 ≤ i < k → word h (t + machineState_ i) 0)
    ∧ ∀ x v, x < t + 4 ∨ t + 304 ≤ x → word h0 x v → word h x v)
    (λ i h, store (t + machineState_ i) 0 h) (Z.to_nat MachineStateSize) 0 h0) as (h&->&H).
  - split_and!; [done|done|done|intros; lia|done].
  - intros k h Hk (Hb'&Ho&Es&Hz&Hx). unfold MachineStateSize in Hk.
    assert (Hm : (t + machineState_ k - t) mod 4 = 0) by (offsets; dlia). assert (Hr : t ≤ t + machineState_ k < t + 4 * 121) by (offsets; lia).
    rewrite (store_in h t 121) by done. eexists. split; [done|]. split_and!.
    + by apply block_upd.
    + apply only_upd; [done|lia].
    + done.
    + intros i Hi. destruct (decide (i = k)) as [->|]; [by apply (word_upd_in h t 121)|]. apply word_there; [offsets; lia|]. apply Hz. lia.
    + intros x v Hxr Hw. apply word_there; [offsets; lia|]. by apply Hx.
  - by exists h.
Qed.

Lemma new_Thread_ok t np name id h : block h t 121 → (length name ≤ 31)%nat →
  ∃ h1, new_Thread pgSize t np name id h = Ok h1 ∧ block h1 t 121 ∧ only t h h1 ∧ strings h1 = <[np := name]> (strings h)
    ∧ fields h1 t 0 id 0 JUST_CREATED np 0 ∧ ∀ i, 0 ≤ i < 75 → word h1 (t + machineState_ i) 0.
Proof.
  intros Hb Hl. unfold new_Thread. rewrite (proj2 (Z.leb_le _ _)), (proj2 (Z.ltb_lt _ _)) by lia. cbn [andb ASSERT mbind res_bind].
  set (h0 := mkHeap (cells h) (guarded h) _). assert (Hb0 : block h0 t 121) by exact Hb. assert (Ho0 : only t h h0) by done.
  do 5 (rewrite (store_in _ t 121) by (repeat apply block_upd; in_object); cbn [mbind res_bind]).
  set (h1 := upd (t + status_) _ _).
  assert (Ho1 : only t h h1) by (unfold h1; repeat (apply only_upd; [|offsets; lia]); exact Ho0).
  destruct (clear_state_ok t h1) as (h2&->&Hb2&[Eg Ho2]&Es&Hz&Hx); [by repeat apply block_upd|]. cbn [mbind res_bind].
  rewrite (store_in h2 t 121) by in_object. eexists. split; [done|]. split; [by apply block_upd|]. split.
  { apply only_upd; [|offsets; lia]. destruct Ho1 as [Eg1 Ho1]. split; [congruence|]. intros x Hx'. by rewrite Ho2, Ho1. }
  split; [by cbn; rewrite Es|]. split.
  2: { intros i Hi. apply word_there; [offsets; lia|]. by apply Hz. }
  split; [..|by apply (word_upd_in h2 t 121); in_object]; (apply word_there; [offsets; lia|]; apply Hx; [offsets; lia|]; unfold h1;
    repeat first [apply (word_upd_in _ t 121); (by repeat apply block_upd) || in_object | apply word_there; [offsets; lia|]]).
Qed.

(** ** StackAllocate *)

(** What the heap returns for the stack of thread [t]. *)
Record new_memory h (t ptr : Z) (fresh : list Z) : Prop := {
  nm_page : 0 < pgSize ∧ pgSize mod 4 = 0;
  nm_len : 4 * Z.of_nat (length fresh) = pgSize * 2 + StackSize * 4;
  nm_free x : ptr ≤ x < ptr + (pgSize * 2 + StackSize * 4) → x / pgSize ∉ guarded h;
  nm_apart : apart t 121 ptr (Z.of_nat (length fresh));
  nm_range : 0 < ptr ∧ ptr + (pgSize * 2 + StackSize * 4) < wordsize
}.

Lemma Alloc_ok h t ptr fresh : new_memory h t ptr fresh →
  ∃ h', AllocBoundedArray pgSize (StackSize * 4) ptr fresh h = (ptr + pgSize, h') ∧ block h' (ptr + pgSize) StackSize
    ∧ strings h' = strings h ∧ (∀ x, apart x 1 ptr (Z.of_nat (length fresh)) → cells h' !! x = cells h !! x)
    ∧ (∀ x v, apart x 1 ptr (Z.of_nat (length fresh)) → word h x v → word h' x v)
    ∧ (∀ i, 0 ≤ i < Z.of_nat (length fresh) → ∃ v, cells h' !! (ptr + 4 * i) = Some v)
    ∧ guarded h' = (if (ptr + pgSize + StackSize * 4) mod pgSize =? 0 then {[(ptr + pgSize + StackSize * 4) / pgSize]} else ∅)
                   ∪ (if ptr mod pgSize =? 0 then {[ptr / pgSize]} else ∅) ∪ guarded h.
Proof.
  intros [[Hp H4] Hlen Hfree _ _]. unfold AllocBoundedArray. eexists. split; [done|].
  set (h0 := mkHeap (add_words ptr fresh (cells h)) (guarded h) (strings h)).
  assert (E4 : 4 * (pgSize / 4) = pgSize) by dlia. unfold StackSize in *.
  assert (Hin : ∀ i, 0 ≤ i < Z.of_nat (length fresh) → ∃ v, cells h0 !! (ptr + 4 * i) = Some v).
  { intros i Hi. destruct (lookup_lt_is_Some_2 fresh (Z.to_nat i)) as [v Hv]; [lia|]. exists v. cbn.
    rewrite <- (add_words_in fresh ptr (cells h) (Z.to_nat i) v Hv). do 2 f_equal. lia. }
  assert (Hc : ∀ a h, cells (mprotect_none pgSize a h) = cells h) by (intros; unfold mprotect_none; by case_match).
  split; [|split; [|split; [|split; [|split]]]].
  - intros i Hi. destruct (Hin (pgSize / 4 + i)) as [v Hv]; [lia|]. exists v. replace (ptr + 4 * (pgSize / 4 + i)) with (ptr + pgSize + 4 * i) in Hv by lia.
    do 2 (apply mprotect_none_word; [done| |unfold apart; lia|done]). split; [done|]. apply Hfree. lia.
  - unfold mprotect_none. by repeat case_match.
  - intros x Hx. rewrite !Hc. cbn. by apply add_words_out.
  - intros x v Hx [E Hg]. unfold apart in Hx. do 2 (apply mprotect_none_word; [done| |unfold apart; lia|done]). split; [|done].
    cbn. by rewrite add_words_out.
  - intros i Hi. rewrite !Hc. by apply Hin.
  - unfold mprotect_none. destruct (ptr mod pgSize =? 0), ((ptr + pgSize + 8 * 1024 * 4) mod pgSize =? 0); cbn [guarded h0];
    by rewrite ?(left_id_L ∅ (∪)), ?(right_id_L ∅ (∪)), ?(assoc_L (∪)).
Qed.

Definition first_top (stack : Z) : Z := stack + 4 * (StackSize - 5).
Definition first_cpu (stack func arg : Z) : Cpu := mkCpu (first_top stack) 0 0 ThreadBegin arg 0 func ThreadFinish.

(** The thread as StackAllocate leaves it. *)
Record forked h (t func arg stack : Z) : Prop := {
  fk_object : block h t 121; fk_stack : block h stack StackSize;
  fk_saved : saved h t (first_cpu stack func arg) ThreadRoot;
  fk_root : word h (first_top stack) ThreadRoot;
  fk_base : word h (t + stack_) stack; fk_fence : word h stack STACK_FENCEPOST
}.

Ltac find_upd :=
  first [ eassumption
        | eapply word_there; [offsets; lia|find_upd]
        | match goal with |- word (upd ?y _ _) ?x _ => replace x with y by (offsets; lia) end;
          first [ eapply (word_upd_in _ _ 121); [repeat apply block_upd; eassumption|in_object..]
                | eapply (word_upd_in _ _ StackSize); [repeat apply block_upd; eassumption|rewrite ?Z.add_simpl_l, ?Z.sub_diag; reflexivity|unfold StackSize; lia] ] ].

Lemma StackAllocate_ok h t func arg ptr fresh :
  new_memory h t ptr fresh → block h t 121 → (∀ i, 0 ≤ i < 75 → word h (t + machineState_ i) 0) →
  ∃ h0 h', AllocBoundedArray pgSize (StackSize * 4) ptr fresh h = (ptr + pgSize, h0)
    ∧ StackAllocate pgSize ThreadRoot ThreadBegin ThreadFinish t func arg ptr fresh h = Ok h'
    ∧ forked h' t func arg (ptr + pgSize) ∧ guarded h' = guarded h0 ∧ strings h' = strings h
    ∧ (∀ x, apart x 1 t 121 → apart x 1 (ptr + pgSize) StackSize → cells h' !! x = cells h0 !! x)
    ∧ ∀ v, word h (t + name_) v → word h' (t + name_) v.
Proof.
  intros Hnm Hb Hz. destruct (Alloc_ok h t ptr fresh Hnm) as (h0&E&Hst&Es&_&Hw&_). exists h0.
  destruct Hnm as [[Hp H4] Hlen Hfree Hap Hr]. unfold StackAllocate. rewrite E.
  set (stack := ptr + pgSize) in *. replace (stack + 4 * (StackSize - 4) - 4) with (first_top stack) by (unfold first_top; lia).
  assert (Hap' : apart t 121 stack StackSize) by (unfold apart, stack in *; lia).
  assert (Hobj : ∀ x v, t ≤ x ≤ t + 480 → word h x v → word h0 x v) by (intros x v Hx; apply Hw; unfold apart in *; lia).
  assert (Hb0 : block h0 t 121) by (intros i Hi; destruct (Hb i Hi) as [v Hv]; exists v; apply Hobj; [lia|done]).
  assert (Hz0 : ∀ i, 0 ≤ i < 75 → word h0 (t + machineState_ i) 0) by (intros i Hi; apply Hobj; [offsets; lia|by apply Hz]).
  assert (Hz' : word h0 (t + 4) 0 ∧ word h0 (t + 8) 0 ∧ word h0 (t + 20) 0).
  { split_and!; [apply (Hz0 0)|apply (Hz0 1)|apply (Hz0 4)]; lia. } destruct Hz' as (Hz1&Hz2&Hz3).
  assert (Hft : first_top stack = stack + 32748) by (unfold first_top, StackSize; lia).
  set (PCm := machineState_ PCState). assert (PCm = 32) as -> by done.
  set (SPCm := machineState_ StartupPCState). assert (SPCm = 12) as -> by done.
  set (IPCm := machineState_ InitialPCState). assert (IPCm = 24) as -> by done.
  set (IAm := machineState_ InitialArgState). assert (IAm = 16) as -> by done.
  set (WDm := machineState_ WhenDonePCState). assert (WDm = 28) as -> by done. rewrite Hft.
  assert (HT : ∀ h1 y v, block h1 t 121 → (y - t) mod 4 = 0 → t ≤ y < t + 484 → store y v h1 = Ok (upd y v h1)) by (intros; by apply (store_in h1 t 121)).
  assert (HS : ∀ h1 y v, block h1 stack StackSize → (y - stack) mod 4 = 0 → stack ≤ y < stack + 4 * 8192 → store y v h1 = Ok (upd y v h1)) by (intros; by apply (store_in h1 stack StackSize)).
  do 2 (rewrite HT by (first [by repeat apply block_upd|in_object]); cbn [mbind res_bind]).
  do 2 (rewrite HS by (first [by repeat apply block_upd|rewrite ?Z.add_simpl_l, ?Z.sub_diag; reflexivity|lia]); cbn [mbind res_bind]).
  do 4 (rewrite HT by (first [by repeat apply block_upd|in_object]); cbn [mbind res_bind]).
  rewrite HT by (first [by repeat apply block_upd|in_object]).
  eexists. split; [done|]. split; [done|].
  split; [|split; [done|split; [done|split]]].
  - unfold apart, StackSize in Hap'. clear Hap Hobj Hw Hfree HT HS Hlen.
    split; [by repeat apply block_upd|by repeat apply block_upd|split; cbn [first_cpu esp eax ebx ecx edx ebp esi edi]|..];
      unfold _ESP, _EAX, _EBX, _ECX, _EDX, _EBP, _ESI, _EDI, _PC; rewrite ?Hft; find_upd.
  - intros x Hx1 Hx2. cbn [upd cells]. unfold apart, StackSize in Hx1, Hx2. by rewrite !lookup_insert_ne by (offsets; lia).
  - intros v Hv. apply Hobj in Hv; [|offsets; lia]. unfold apart, StackSize in Hap'. find_upd.
Qed.

(** ** Two threads with their stacks *)

Record disjoint_threads (a sa na b sb nb : Z) : Prop := {
  dt_ab : apart a 121 b 121; dt_asa : apart a 121 sa na; dt_asb : apart a 121 sb nb; dt_bsa : apart b 121 sa na;
  dt_bsb : apart b 121 sb nb; dt_ss : apart sa na sb nb;
  dt_ea : apart a 121 eax_save 1; dt_eb : apart b 121 eax_save 1; dt_esa : apart sa na eax_save 1; dt_esb : apart sb nb eax_save 1;
  dt_a : 0 ≤ a ∧ a + 484 < wordsize; dt_b : 0 ≤ b ∧ b + 484 < wordsize;
  dt_sa : 0 ≤ sa ∧ sa + 4 * na < wordsize; dt_sb : 0 ≤ sb ∧ sb + 4 * nb < wordsize
}.

Lemma apart_sub x n y m x' n' y' m' :
  apart x n y m → x ≤ x' → x' + 4 * n' ≤ x + 4 * n → y ≤ y' → y' + 4 * m' ≤ y + 4 * m → apart x' n' y' m'.
Proof. unfold apart. lia. Qed.

Lemma place_of a sa na b sb nb sp spb :
  disjoint_threads a sa na b sb nb → sa + 12 ≤ sp ≤ sa + 4 * na → sb ≤ spb → spb + 8 ≤ sb + 4 * nb → place a sp b spb.
Proof.
  intros [] Hsp H1 H2. split; try lia;
    match goal with H : apart _ _ _ _ |- apart _ _ _ _ => apply (apart_sub _ _ _ _ _ _ _ _ H); lia end.
Qed.

Lemma block_sub h (x n y m i : Z) : block h x n → y = x + 4 * i → 0 ≤ i → i + m ≤ n → block h y m.
Proof. intros Hb -> Hi Hm j Hj. destruct (Hb (i + j)) as [v Hv]; [lia|]. exists v. by replace (x + 4 * i + 4 * j) with (x + 4 * (i + j)) by lia. Qed.

(** A call of SWITCH between two threads. *)
Lemma switch_threads c h (a sa na k b sb nb kb back : Z) cb pcb ret_b :
  disjoint_threads a sa na b sb nb → block h a 121 → block h sa na → block h sb nb → block h eax_save 1 →
  esp c = sa + 4 * k → 3 ≤ k ≤ na → esp cb = sb + 4 * kb → 0 ≤ kb ≤ nb - 2 → saved h b cb pcb → word h (esp cb) ret_b →
  ∃ h', call_SWITCH a b back (c, h) = Ok (ret_b, (put ESP (esp cb + 4) cb, h')) ∧ saved h' a (put ESP (esp c - 12) c) back
    ∧ word h' (esp c - 12) back ∧ same_but a (esp c) (esp cb) h h'.
Proof.
  intros HD Ha Hsa Hsb He Hk Hk' Hkb Hkb' Hsv Hret.
  apply (call_SWITCH_ok c h a b back cb pcb ret_b); try done.
  - apply (place_of a sa na b sb nb); [done|lia..].
  - apply (block_sub h a 121 a 9 0); [done|lia..].
  - apply (block_sub h sa na _ 3 (k - 3)); [done|lia..].
  - apply (block_sub h sb nb _ 2 kb); [done|lia..].
Qed.

(** The stack of the thread that switches, above the call, and the stack of the other thread, above
    the word that SWITCH overwrites. *)
Lemma own_stack_kept a sa na b sb nb k spb h h' i v :
  disjoint_threads a sa na b sb nb → same_but a (sa + 4 * k) spb h h' → sb ≤ spb → spb + 8 ≤ sb + 4 * nb → 3 ≤ k ≤ i → i < na →
  word h (sa + 4 * i) v → word h' (sa + 4 * i) v.
Proof. intros [] Hs H1 H2 H3 H4. apply (same_but_word _ _ _ _ _ _ _ Hs); [..|unfold apart; lia| |]; try (intros ?); ne_words || (unfold apart in dt_asa0; unfold apart; lia). Qed.

Lemma other_stack_kept d sd nd a sa na kd spb h h' i v :
  disjoint_threads d sd nd a sa na → same_but d (sd + 4 * kd) spb h h' → 3 ≤ kd ≤ nd → 0 ≤ i < na → sa + 4 * i ≠ spb + 4 →
  word h (sa + 4 * i) v → word h' (sa + 4 * i) v.
Proof.
  intros [] Hs H1 H2 H3. apply (same_but_word _ _ _ _ _ _ _ Hs); [unfold apart in dt_asb0; unfold apart; lia|unfold apart in dt_ss0; unfold apart; lia|ne_words|done].
Qed.

(** ** ThreadRoot *)

(** The convention of calls for a function [f] with [args] arguments: run with [room] words
    of the stack [lo] free, it returns, pops the return address, keeps
    ebx, ebp, esi and edi and the words of the stack above its arguments. *)
Definition returns (body : Z → Cpu * Heap → res (Cpu * Heap)) (f lo n room args : Z) : Prop :=
  ∀ c h k, block h lo n → esp c = lo + 4 * k → room ≤ k < n →
  ∃ c' h', body f (c, h) = Ok (c', h') ∧ esp c' = esp c + 4 ∧ ebx c' = ebx c ∧ ebp c' = ebp c ∧ esi c' = esi c ∧ edi c' = edi c
    ∧ block h' lo n ∧ ∀ x v, esp c + 4 + 4 * args ≤ x < lo + 4 * n → word h x v → word h' x v.

Lemma enter_ok bk r c h lo n k : block h lo n → 0 ≤ lo → lo + 4 * n < wordsize → esp c = lo + 4 * k → 1 ≤ k < n →
  ∃ arg, word h (esp c) arg ∧ enter pgSize bk r (c, h) = Ok ((get r c, arg), (put ESP (esp c - 4) c, upd (esp c - 4) bk h)).
Proof.
  intros Hb Hlo Hn Hk Hk'. destruct (block_at h lo n (esp c) k Hb Hk ltac:(lia)) as [arg Harg]. exists arg. split; [done|].
  destruct (block_at h lo n (esp c - 4) (k - 1) Hb ltac:(lia) ltac:(lia)) as [w Hw]. unfold enter. cbn [fst snd].
  rewrite (push_word_ok c h bk w) by (done || lia). cbn [mbind res_bind fst snd]. rewrite esp_put. replace (esp c - 4 + 4) with (esp c) by lia.
  rewrite u32_id by (unfold_int; lia). by rewrite (load_word _ _ arg) by (apply word_there; [lia|done]).
Qed.

Lemma ThreadRoot_ok body bk c h lo arg room :
  block h lo StackSize → 0 ≤ lo → lo + 4 * StackSize < wordsize → esp c = first_top lo + 4 → edx c = arg → 0 ≤ room ≤ StackSize - 7 →
  returns body (ecx c) lo StackSize room 0 → returns body (esi c) lo StackSize room 1 →
  ∃ x, ThreadRoot_calls pgSize eax_save body bk (c, h) = Ok [(ecx c, arg); (esi c, arg); (edi c, x)].
Proof.
  intros Hb Hlo Hhi Hsp Harg Hroom R1 R2. unfold first_top, StackSize in *. unfold ThreadRoot_calls, ThreadRoot_code, InitialArg.
  destruct (block_at h lo _ (esp c - 4) (8192 - 5) Hb ltac:(lia) ltac:(lia)) as [w1 Hw1].
  destruct (block_at h lo _ (esp c - 8) (8192 - 6) Hb ltac:(lia) ltac:(lia)) as [w2 Hw2].
  cbn [run exec read write mbind res_bind get fst snd]. rewrite (push_word_ok c h _ w1) by (done || lia). cbn [mbind res_bind fst snd get].
  rewrite esp_put. set (c1 := put EBP (esp c - 4) (put ESP (esp c - 4) c)).
  assert (E1 : esp c1 = esp c - 4) by (by destruct c). assert (Ed : edx c1 = arg) by (by destruct c). rewrite Ed.
  rewrite (push_word_ok c1 _ arg w2) by (rewrite E1; first [lia|replace (esp c - 4 - 4) with (esp c - 8) by lia; apply word_there; [lia|done]]).
  cbn [mbind res_bind]. rewrite E1. replace (esp c - 4 - 4) with (esp c - 8) by lia.
  set (c2 := put ESP (esp c - 8) c1). set (h2 := upd (esp c - 8) arg _).
  assert (E2 : esp c2 = esp c - 8) by apply esp_put. assert (Hb2 : block h2 lo 8192) by (by repeat apply block_upd).
  assert (Hwa : word h2 (esp c - 8) arg) by (unfold h2; eapply word_here; [apply word_there; [lia|exact Hw2]|done]).
  destruct (enter_ok bk StartupPC c2 h2 lo 8192 (8192 - 6) Hb2 Hlo Hhi) as (x1&Hx1&->); [lia..|]. rewrite E2 in *.
  assert (x1 = arg) as -> by (destruct Hx1, Hwa; congruence). cbn [mbind res_bind fst].
  assert (Er : get StartupPC c2 = ecx c ∧ get InitialPC c2 = esi c ∧ get WhenDonePC c2 = edi c) by (by destruct c). destruct Er as (->&Er2&Er3).
  destruct (R1 (put ESP (esp c - 8 - 4) c2) (upd (esp c - 8 - 4) bk h2) (8192 - 7)) as (c3&h3&->&E3&_&_&Es3&Ed3&Hb3&Hk3);
    [by apply block_upd|rewrite esp_put; lia|lia|]. cbn [mbind res_bind]. rewrite esp_put in E3, Hk3.
  destruct (enter_ok bk InitialPC c3 h3 lo 8192 (8192 - 6) Hb3 Hlo Hhi) as (x2&Hx2&->); [lia..|].
  assert (Hw3 : word h3 (esp c3) arg) by (rewrite E3; apply Hk3; [lia|]; replace (esp c - 8 - 4 + 4) with (esp c - 8) by lia; apply word_there; [lia|done]).
  assert (x2 = arg) as -> by (destruct Hx2, Hw3; congruence). cbn [mbind res_bind fst].
  replace (get InitialPC c3) with (esi c) by (rewrite <- Er2; destruct c2; by cbn in *).
  destruct (R2 (put ESP (esp c3 - 4) c3) (upd (esp c3 - 4) bk h3) (8192 - 7)) as (c4&h4&->&E4&_&_&_&Ed4&Hb4&_);
    [by apply block_upd|rewrite esp_put; lia|lia|]. cbn [mbind res_bind]. rewrite esp_put in E4.
  destruct (enter_ok bk WhenDonePC c4 h4 lo 8192 (8192 - 6) Hb4 Hlo Hhi) as (x4&_&->); [lia..|]. cbn [mbind res_bind]. exists x4.
  do 4 f_equal. cbn. rewrite Ed4. rewrite <- Er3. destruct c2, c3; cbn in *. congruence.
Qed.

Lemma CheckOverflow_ok t h stack v : word h (t + stack_) stack → stack ≠ 0 → word h stack v →
  CheckOverflow pgSize t h = ASSERT (v =? STACK_FENCEPOST).
Proof.
  intros H1 H2 H3. unfold CheckOverflow. rewrite (load_word _ _ _ H1). cbn [mbind res_bind]. rewrite (proj2 (Z.eqb_neq _ _)) by done.
  by rewrite (load_word _ _ _ H3).
Qed.
End HOST.
End SwitchSpec.

Import Switch SwitchSpec.

Section PROPERTIES.
Context (pgSize eax_save ThreadRoot ThreadBegin ThreadFinish : Z).
Abbreviation call_SWITCH := (call_SWITCH pgSize eax_save).
Abbreviation word := (word pgSize).
Abbreviation block := (block pgSize).
Abbreviation keeps := (keeps pgSize).
Abbreviation disjoint_threads := (disjoint_threads eax_save).

(** C39 (roundtrip): a thread that calls SWITCH returns from it as if nothing
    had happened.  Thread a calls SWITCH(a, b): the processor goes on where the
    stack of b says, with the registers saved in the object of b.  Whenever some
    other thread d then calls SWITCH(d, a), with any registers and any memory in
    which the object and the stack of a are as a left them, the processor goes on
    behind the call that a made, with all the registers of a (the stack pointer at
    the two arguments of the call, as after any call) and every word of the stack
    of a above the call as it was before. *)
Theorem switch_restores (c cb : Cpu) (h : Heap) (a sa na k b sb nb kb back pcb ret_b : Z)
    (HD : disjoint_threads a sa na b sb nb) (Ha : block h a 121) (Hsa : block h sa na) (Hsb : block h sb nb) (He : block h eax_save 1)
    (Hk : esp c = sa + 4 * k) (Hk' : 3 ≤ k ≤ na) (Hkb : esp cb = sb + 4 * kb) (Hkb' : 0 ≤ kb ≤ nb - 2)
    (Hsv : saved pgSize h b cb pcb) (Hret : word h (esp cb) ret_b) :
  ∃ h1, call_SWITCH a b back (c, h) = Ok (ret_b, (put ESP (esp cb + 4) cb, h1)) ∧ (∀ x n, block h x n → block h1 x n)
    ∧ ∀ (d sd nd kd back2 : Z) c2 h2, disjoint_threads d sd nd a sa na → block h2 d 121 → block h2 sd nd → block h2 eax_save 1 →
        esp c2 = sd + 4 * kd → 3 ≤ kd ≤ nd → keeps h1 h2 a 121 → keeps h1 h2 sa na →
        ∃ h3, call_SWITCH d a back2 (c2, h2) = Ok (back, (put ESP (esp c - 8) c, h3))
          ∧ ∀ i v, k ≤ i < na → word h (sa + 4 * i) v → word h3 (sa + 4 * i) v.
Proof.
  destruct (switch_threads pgSize eax_save c h a sa na k b sb nb kb back cb pcb ret_b) as (h1&E1&Hs1&Hw1&Hsame1); try done.
  exists h1. split; [done|]. split; [intros x n; by eapply same_but_block|]. intros d sd nd kd back2 c2 h2 HD2 Hd Hsd He2 Hkd Hkd' K1 K2.
  assert (Esp : esp (put ESP (esp c - 12) c) = sa + 4 * (k - 3)) by (rewrite esp_put; lia).
  destruct (switch_threads pgSize eax_save c2 h2 d sd nd kd a sa na (k - 3) back2 (put ESP (esp c - 12) c) back back) as (h3&E3&_&_&Hsame3);
    try done; [by eapply keeps_block, same_but_block|lia| | |].
  { eapply keeps_saved; [|exact Hs1]. intros i v Hi. apply K1. lia. }
  { rewrite esp_put. apply (keeps_word pgSize h1 h2 sa na); [done|replace (esp c - 12 - sa) with (4 * (k - 3)) by lia; dlia|lia|done]. }
  rewrite esp_put, put_esp_twice in E3. replace (esp c - 12 + 4) with (esp c - 8) in E3 by lia. exists h3. split; [done|]. intros i v Hi Hw.
  rewrite Hk in Hsame1. rewrite Hkd in Hsame3.
  apply (other_stack_kept pgSize eax_save d sd nd a sa na kd (esp (put ESP (esp c - 12) c)) h2); try done; try lia.
  apply K2; [lia|]. apply (own_stack_kept pgSize eax_save a sa na b sb nb k (esp cb) h); done || lia.
Qed.

(** C40 (functional): starting a thread.  The constructor and StackAllocate
    succeed on an object of usable memory, and CheckOverflow finds the mark at the
    end of the stack.  Whenever a running thread then switches to the new one, with
    the object and the stack of the new one as they were left, the processor goes
    on in ThreadRoot, which calls ThreadBegin, then the function of Fork with the
    argument of Fork, then ThreadFinish, provided that the first two return and obey
    the calling convention; and the mark is still there.  No other word changes. *)
Theorem forked_thread_starts (h : Heap) (t np : Z) (name : list Z) (id func arg ptr : Z) (fresh : list Z)
    (Hobj : block h t 121) (Hname : (length name ≤ 31)%nat) (Hnm : new_memory pgSize h t ptr fresh) :
  ∃ h1 h2, new_Thread pgSize t np name id h = Ok h1
    ∧ StackAllocate pgSize ThreadRoot ThreadBegin ThreadFinish t func arg ptr fresh h1 = Ok h2
    ∧ strings h2 !! np = Some name ∧ CheckOverflow pgSize t h2 = Ok tt
    ∧ (∀ x v, apart x 1 t 121 → apart x 1 ptr (Z.of_nat (length fresh)) → word h x v → word h2 x v)
    ∧ ∀ (a sa na k back : Z) c h3, disjoint_threads a sa na t (ptr + pgSize) StackSize → block h3 a 121 → block h3 sa na → block h3 eax_save 1 →
        esp c = sa + 4 * k → 3 ≤ k ≤ na → keeps h2 h3 t 121 → keeps h2 h3 (ptr + pgSize) StackSize →
        ∃ c4 h4, call_SWITCH a t back (c, h3) = Ok (ThreadRoot, (c4, h4)) ∧ CheckOverflow pgSize t h4 = Ok tt
          ∧ ∀ body bk room, 0 ≤ room ≤ StackSize - 7 → returns pgSize body ThreadBegin (ptr + pgSize) StackSize room 0 →
              returns pgSize body func (ptr + pgSize) StackSize room 1 →
              ∃ x, ThreadRoot_calls pgSize eax_save body bk (c4, h4) = Ok [(ThreadBegin, arg); (func, arg); (ThreadFinish, x)].
Proof.
  destruct (new_Thread_ok pgSize t np name id h Hobj Hname) as (h1&E1&Hb1&[Eg1 Hc1]&Es1&_&Hz1).
  pose proof Hnm as [Hpg Hlen Hfree Hap Hr].
  assert (Hnm1 : new_memory pgSize h1 t ptr fresh) by (split; try done; intros x Hx; rewrite Eg1; by apply Hfree).
  destruct (StackAllocate_ok pgSize ThreadRoot ThreadBegin ThreadFinish h1 t func arg ptr fresh Hnm1 Hb1 Hz1) as (h0&h2&EA&E2&[Fo Fs Fsv Fr Fb Ff]&Eg2&Es2&Hc2&_).
  destruct (Alloc_ok pgSize h1 t ptr fresh Hnm1) as (h0'&EA'&_&_&_&Hw0&_). rewrite EA in EA'. injection EA' as <-.
  exists h1, h2. split; [done|]. split; [done|]. split; [rewrite Es2, Es1; apply lookup_insert_eq|].
  assert (Hne : ptr + pgSize ≠ 0) by lia. split; [by rewrite (CheckOverflow_ok pgSize t h2 _ _ Fb Hne Ff)|]. split.
  { intros x v Hx1 Hx2 [E Hg]. destruct (Hw0 x v Hx2) as [E' Hg']; [split; [by rewrite Hc1|by rewrite Eg1]|].
    split; [|by rewrite Eg2]. rewrite Hc2; [done..|]. unfold apart in *. lia. }
  clear EA Eg2 Hc2 Hw0. intros a sa na k back c h3 HD Ha Hsa He Hk Hk' K1 K2. set (stack := ptr + pgSize) in *.
  assert (Ht : keeps h2 h3 t 9) by (intros i v Hi; apply K1; lia).
  assert (Hft : (first_top stack - stack) mod 4 = 0) by (unfold first_top; rewrite Z.add_simpl_l, Z.mul_comm; apply Z_mod_mult).
  destruct (switch_threads pgSize eax_save c h3 a sa na k t stack StackSize (StackSize - 5) back (first_cpu ThreadBegin ThreadFinish stack func arg) ThreadRoot ThreadRoot)
    as (h4&E4&_&_&Hsame); try done; [by eapply keeps_block|by eapply keeps_saved| |].
  { apply (keeps_word pgSize h2 h3 stack StackSize); [done|exact Hft|unfold first_cpu, first_top, StackSize; cbn [esp]; lia|exact Fr]. }
  eexists _, h4. split; [exact E4|]. rewrite Hk in Hsame. pose proof HD as [D1 D2 D3 D4 D5 D6 D7 D8 D9 D10 _ _ _ _]. split.
  { rewrite (CheckOverflow_ok pgSize t h4 stack STACK_FENCEPOST); [done| |done|].
    - apply (same_but_word _ _ _ _ _ _ _ _ _ Hsame); [unfold apart in *; unfold stack_, id_, MachineStateSize; lia..| | |].
      + unfold apart in D8; unfold stack_, id_, MachineStateSize; lia.
      + unfold apart in D5. unfold stack_, id_, MachineStateSize, first_cpu, first_top, StackSize in *. cbn. lia.
      + apply (keeps_word pgSize h2 h3 t 121); [done|rewrite Z.add_simpl_l; reflexivity|unfold stack_, id_, MachineStateSize; lia|done].
    - assert (Hs0 : stack = stack + 4 * 0) by lia. rewrite Hs0 at 1.
      apply (other_stack_kept pgSize eax_save a sa na t stack StackSize k (first_top stack) h3); [done|done|lia|done|unfold first_top, StackSize; lia|].
      replace (stack + 4 * 0) with stack by lia. apply (keeps_word pgSize h2 h3 stack StackSize); [done|by rewrite Z.sub_diag|unfold StackSize; lia|done]. }
  intros body bk room Hroom R1 R2.
  apply (ThreadRoot_ok pgSize eax_save body bk (put ESP (first_top stack + 4) (first_cpu ThreadBegin ThreadFinish stack func arg)) h4 stack arg room);
    try done; [|lia|unfold stack; lia].
  eapply same_but_block; [exact Hsame|]. by eapply keeps_block.
Qed.

(** Which overflows of a stack are found.  CheckOverflow aborts
    exactly when the last word of the stack is not the mark.  A word below the
    stack cannot be used when the heap returned the beginning of a page; otherwise
    mprotect has refused both pages, and a thread can write below its stack, into
    the memory in front of it, without being found out by CheckOverflow. *)
Theorem stack_overflow_found (h : Heap) (t np : Z) (name : list Z) (id func arg ptr : Z) (fresh : list Z)
    (Hobj : block h t 121) (Hname : (length name ≤ 31)%nat) (Hnm : new_memory pgSize h t ptr fresh) :
  let stack := ptr + pgSize in
  ∃ h1 h2, new_Thread pgSize t np name id h = Ok h1
    ∧ StackAllocate pgSize ThreadRoot ThreadBegin ThreadFinish t func arg ptr fresh h1 = Ok h2
    ∧ (∀ v, ∃ h3, store pgSize stack v h2 = Ok h3
         ∧ CheckOverflow pgSize t h3 = if v =? STACK_FENCEPOST then Ok tt else Err AssertFailed)
    ∧ (ptr mod pgSize = 0 → load pgSize (stack - 4) h2 = Err BadAccess)
    ∧ (ptr mod pgSize ≠ 0 → ∀ v, ∃ h3, store pgSize (stack - 4) v h2 = Ok h3 ∧ CheckOverflow pgSize t h3 = Ok tt).
Proof.
  intros stack. destruct (new_Thread_ok pgSize t np name id h Hobj Hname) as (h1&E1&Hb1&[Eg1 Hc1]&Es1&_&Hz1).
  pose proof Hnm as [Hpg Hlen Hfree Hap Hr].
  assert (Hnm1 : new_memory pgSize h1 t ptr fresh) by (split; try done; intros x Hx; rewrite Eg1; by apply Hfree).
  destruct (StackAllocate_ok pgSize ThreadRoot ThreadBegin ThreadFinish h1 t func arg ptr fresh Hnm1 Hb1 Hz1) as (h0&h2&EA&E2&[Fo Fs Fsv Fr Fb Ff]&Eg2&_&Hc2&_).
  destruct (Alloc_ok pgSize h1 t ptr fresh Hnm1) as (h0'&EA'&_&_&_&_&Hcells&Eg0). rewrite EA in EA'. injection EA' as <-.
  fold stack in Fs, Fsv, Fr, Fb, Ff, Hc2.
  assert (Hne : stack ≠ 0) by (unfold stack; lia). assert (E4 : 4 * (pgSize / 4) = pgSize) by dlia.
  exists h1, h2. split; [done|]. split; [done|]. unfold apart, StackSize in *. split; [|split].
  - intros v. rewrite (store_word _ _ _ _ _ Ff). eexists. split; [done|].
    rewrite (CheckOverflow_ok pgSize t _ stack v); [by destruct (v =? _)| |done|by eapply word_here].
    apply word_there; [unfold stack_, id_, MachineStateSize, stack; lia|done].
  - intros Ha. unfold load. rewrite bool_decide_true; [done|]. rewrite Eg2, Eg0, Ha. cbn.
    replace ((stack - 4) / pgSize) with (ptr / pgSize); [apply elem_of_union_l, elem_of_union_r; by apply elem_of_singleton|]. symmetry. apply same_page; [lia|done|]. unfold stack. lia.
  - intros Ha v. assert (Hw : ∃ w, word h2 (stack - 4) w).
    { destruct (Hcells (pgSize / 4 - 1)) as [w Hw]; [lia|]. replace (ptr + 4 * (pgSize / 4 - 1)) with (stack - 4) in Hw by (unfold stack; lia).
      exists w. split; [rewrite Hc2; [done|unfold stack in *; lia..]|]. rewrite Eg2, Eg0, (proj2 (Z.eqb_neq (ptr mod pgSize) 0)) by done.
      assert (Hf : (stack - 4) / pgSize ∉ guarded h1) by (rewrite Eg1; apply Hfree; unfold stack; lia).
      case_match eqn:Em; [|by rewrite !(left_id_L ∅ (∪))]. apply Z.eqb_eq in Em.
      rewrite !not_elem_of_union, not_elem_of_singleton. split_and!; [|apply not_elem_of_empty|done]. intros Hc. apply same_page in Hc; [unfold stack in *; lia|lia|done]. }
    destruct Hw as [w Hw]. rewrite (store_word _ _ _ _ _ Hw). eexists. split; [done|].
    rewrite (CheckOverflow_ok pgSize t _ stack STACK_FENCEPOST); [done| |done|by apply word_there; [lia|]].
    apply word_there; [unfold stack_, id_, MachineStateSize, stack; lia|done].
Qed.

(** A thread that has been started and is deleted leaves nothing behind: the words
    of its object and of its stack, with the two pages around it, are gone, the
    pages can be used again, its name is gone, and the rest of memory is as it was
    before the constructor.  Deleting the running thread aborts. *)
Theorem thread_memory_returned (h : Heap) (t np : Z) (name : list Z) (id func arg ptr current : Z) (fresh : list Z)
    (Hobj : block h t 121) (Hname : (length name ≤ 31)%nat) (Hnm : new_memory pgSize h t ptr fresh) :
  ∃ h1 h2, new_Thread pgSize t np name id h = Ok h1
    ∧ StackAllocate pgSize ThreadRoot ThreadBegin ThreadFinish t func arg ptr fresh h1 = Ok h2
    ∧ delete_Thread pgSize t t h2 = Err AssertFailed
    ∧ (t ≠ current → ∃ h3, delete_Thread pgSize t current h2 = Ok h3
         ∧ guarded h3 = guarded h ∧ strings h3 = delete np (strings h)
         ∧ (∀ i, 0 ≤ i < 121 → cells h3 !! (t + 4 * i) = None)
         ∧ (∀ i, 0 ≤ i < Z.of_nat (length fresh) → cells h3 !! (ptr + 4 * i) = None)
         ∧ ∀ x, apart x 1 t 121 → apart x 1 ptr (Z.of_nat (length fresh)) → cells h3 !! x = cells h !! x).
Proof.
  destruct (new_Thread_ok pgSize t np name id h Hobj Hname) as (h1&E1&Hb1&[Eg1 Hc1]&Es1&[_ _ _ _ Fn _]&Hz1).
  pose proof Hnm as [Hpg Hlen Hfree Hap Hr].
  assert (Hnm1 : new_memory pgSize h1 t ptr fresh) by (split; try done; intros x Hx; rewrite Eg1; by apply Hfree).
  destruct (StackAllocate_ok pgSize ThreadRoot ThreadBegin ThreadFinish h1 t func arg ptr fresh Hnm1 Hb1 Hz1) as (h0&h2&EA&E2&[_ _ _ _ Fb _]&Eg2&Es2&Hc2&Hn2).
  destruct (Alloc_ok pgSize h1 t ptr fresh Hnm1) as (h0'&EA'&_&_&Hc0&_&_&Eg0). rewrite EA in EA'. injection EA' as <-.
  exists h1, h2. split; [done|]. split; [done|]. split; [unfold delete_Thread; by rewrite Z.eqb_refl|]. intros Hcur.
  unfold delete_Thread. rewrite (proj2 (Z.eqb_neq t current)) by done. cbn [negb ASSERT mbind res_bind].
  rewrite (load_word _ _ _ _ Fb). cbn [mbind res_bind]. rewrite (proj2 (Z.eqb_neq (ptr + pgSize) 0)) by lia.
  set (h3 := DeallocBoundedArray _ _ _ _). assert (HS : StackSize = 8192) by done.
  assert (Hg3 : guarded h3 = guarded h).
  { pose proof (Hfree ptr ltac:(lia)) as G1. pose proof (Hfree (ptr + pgSize + StackSize * 4) ltac:(lia)) as G2.
    unfold h3, DeallocBoundedArray, mprotect_all. replace (ptr + pgSize - pgSize) with ptr by lia.
    destruct (ptr mod pgSize =? 0) eqn:M1, ((ptr + pgSize + StackSize * 4) mod pgSize =? 0) eqn:M2; rewrite ?M1, ?M2; cbn [guarded];
      rewrite Eg2, Eg0, Eg1; clear -G1 G2; set_solver. }
  assert (Hc3 : cells h3 = drop_words (length fresh) ptr (cells h2)).
  { unfold h3, DeallocBoundedArray, mprotect_all. cbn [cells]. replace (ptr + pgSize - pgSize) with ptr by lia.
    replace (Z.to_nat ((pgSize * 2 + StackSize * 4) / 4)) with (length fresh) by (rewrite <- Hlen, Z.mul_comm, Z.div_mul by lia; lia).
    f_equal. by repeat case_match. }
  assert (Hs3 : strings h3 = strings h2) by (unfold h3, DeallocBoundedArray, mprotect_all; cbn [strings]; by repeat case_match).
  assert (Hname3 : word h3 (t + name_) np).
  { destruct (Hn2 np Fn) as [E _]. destruct Fn as [_ G]. split; [|rewrite Hg3; by rewrite <- Eg1].
    rewrite Hc3, drop_words_out; [done|]. unfold apart in *. unfold name_, status_, stack_, id_, MachineStateSize. lia. }
  rewrite (load_word _ _ _ _ Hname3). cbn [mbind res_bind]. eexists. split; [done|]. cbn [guarded strings cells]. split; [done|].
  split; [rewrite Hs3, Es2, Es1; apply delete_insert_eq|]. change (Z.to_nat (sizeof_Thread / 4)) with 121%nat. split; [|split].
  - intros i Hi. apply drop_words_in. lia.
  - intros i Hi. rewrite drop_words_out by (unfold apart in *; lia). rewrite Hc3. by apply drop_words_in.
  - intros x Hx1 Hx2. rewrite drop_words_out by done. rewrite Hc3, drop_words_out by done.
    rewrite Hc2 by (unfold apart in *; lia || done). by rewrite Hc0, Hc1.
Qed.
End PROPERTIES.

(** ** Examples *)

Definition block_check (pgSize : Z) (h : Heap) (x : Z) (n : nat) : bool :=
  forallb (λ i, match cells h !! (x + 4 * Z.of_nat i) with
                | Some _ => negb (bool_decide ((x + 4 * Z.of_nat i) / pgSize ∈ guarded h))
                | None => false
                end) (seq 0 n).

Lemma block_compute pgSize h x n : block_check pgSize h x n = true → block pgSize h x (Z.of_nat n).
Proof.
  intros Hc i Hi. unfold block_check in Hc. rewrite forallb_forall in Hc.
  specialize (Hc (Z.to_nat i)). rewrite in_seq, Z2Nat.id in Hc by lia. specialize (Hc ltac:(lia)).
  destruct (cells h !! (x + 4 * i)) as [v|] eqn:E; [|done]. exists v. split; [done|]. by apply negb_true_iff, bool_decide_eq_false in Hc.
Qed.

(** Two threads, at 1000 with the stack 4000 and at 2000 with the stack 5000; the second one
    waits at 5004 to return to the address 77. *)
Definition two_threads : Heap :=
  mkHeap (add_words 100 [0] (add_words 1000 (replicate 121 0) (add_words 2000 (5004 :: replicate 120 0)
    (add_words 4000 (replicate 16 0) (add_words 5000 [0; 77; 0; 0; 0; 0; 0; 0] ∅))))) ∅ ∅.

Definition running : Cpu := mkCpu 4040 1 2 3 4 5 6 7.
Definition waiting : Cpu := mkCpu 5004 0 0 0 0 0 0 0.

Lemma two_disjoint : disjoint_threads 100 1000 4000 16 2000 5000 8 ∧ disjoint_threads 100 2000 5000 8 1000 4000 16.
Proof. split; split; unfold apart, wordsize; lia. Qed.

(** The first thread switches to the second one, which switches back. *)
Lemma switch_restores_witness :
  ∃ h1 h3, call_SWITCH 4096 100 1000 2000 55 (running, two_threads) = Ok (77, (mkCpu 5008 0 0 0 0 0 0 0, h1))
    ∧ call_SWITCH 4096 100 2000 1000 66 (mkCpu 5020 9 9 9 9 9 9 9, h1) = Ok (55, (mkCpu 4032 1 2 3 4 5 6 7, h3)).
Proof.
  destruct two_disjoint as [HD HD2].
  assert (Hb : block 4096 two_threads 1000 121 ∧ block 4096 two_threads 2000 121 ∧ block 4096 two_threads 4000 16
    ∧ block 4096 two_threads 5000 8 ∧ block 4096 two_threads 100 1).
  { split_and!; [apply (block_compute 4096 _ _ 121)|apply (block_compute 4096 _ _ 121)|apply (block_compute 4096 _ _ 16)
      |apply (block_compute 4096 _ _ 8)|apply (block_compute 4096 _ _ 1)]; vm_compute; reflexivity. }
  destruct Hb as (Hb1&Hb2&Hb3&Hb4&Hb5).
  assert (Hw : ∀ x v, cells two_threads !! x = Some v → word 4096 two_threads x v) by (intros x v E; split; [exact E|apply not_elem_of_empty]).
  destruct (switch_restores 4096 100 running waiting two_threads 1000 4000 16 10 2000 5000 8 1 55 0 77 HD Hb1 Hb3 Hb4 Hb5)
    as (h1&E1&Hblk&Hback); [reflexivity|lia|reflexivity|lia|split; apply Hw; vm_compute; reflexivity|apply Hw; vm_compute; reflexivity|].
  destruct (Hback 2000 5000 8 5 66 (mkCpu 5020 9 9 9 9 9 9 9) h1 HD2 (Hblk _ _ Hb2) (Hblk _ _ Hb4) (Hblk _ _ Hb5)) as (h3&E3&_);
    [reflexivity|lia|intros i v _ H; exact H|intros i v _ H; exact H|].
  exists h1, h3. split; [exact E1|exact E3].
Defined.

(** A function that returns at once and leaves 7 in the registers that it need not keep. *)
Definition quick (f : Z) (s : Cpu * Heap) : res (Cpu * Heap) :=
  Ok (put ESP (esp s.1 + 4) (put EAX 7 (put ECX 7 (put EDX 7 s.1))), s.2).

Lemma quick_returns f lo n args : 0 ≤ args → returns 4096 quick f lo n 0 args.
Proof. intros Ha c h k Hb Hk Hr. eexists _, h. split; [reflexivity|]. destruct c. by split_and!. Qed.

(** A new thread at 2000 whose stack is between the pages at 8192 and 45056. *)
Lemma example_memory : new_memory 4096 two_threads 2000 8192 (replicate (Z.to_nat 10240) 0).
Proof.
  split; [done|by rewrite length_replicate, Z2Nat.id|intros; apply not_elem_of_empty| |unfold StackSize, wordsize; lia].
  rewrite length_replicate, Z2Nat.id by lia. unfold apart. lia.
Qed.

Lemma forked_thread_starts_witness :
  ∃ h1 h2 c4 h4 x, new_Thread 4096 2000 300 [102] (-1) two_threads = Ok h1
    ∧ StackAllocate 4096 11 12 13 2000 14 15 8192 (replicate (Z.to_nat 10240) 0) h1 = Ok h2
    ∧ call_SWITCH 4096 100 1000 2000 55 (running, h2) = Ok (11, (c4, h4))
    ∧ ThreadRoot_calls 4096 100 quick 56 (c4, h4) = Ok [(12, 15); (14, 15); (13, x)].
Proof.
  assert (Hb : ∀ x n, block_check 4096 two_threads x n = true → block 4096 two_threads x (Z.of_nat n)) by (intros; by apply block_compute).
  destruct (forked_thread_starts 4096 100 11 12 13 two_threads 2000 300 [102] (-1) 14 15 8192 (replicate (Z.to_nat 10240) 0))
    as (h1&h2&E1&E2&_&_&Hkeep&Hrun); [apply (Hb 2000 121%nat); vm_compute; reflexivity|cbn; lia|exact example_memory|].
  assert (Hb' : ∀ x n, block_check 4096 two_threads x n = true → x + 4 * Z.of_nat n ≤ 2000 ∨ 2484 ≤ x ∧ x + 4 * Z.of_nat n ≤ 8192 → block 4096 h2 x (Z.of_nat n)).
  { intros x n Hc Hx i Hi. destruct (Hb x n Hc i Hi) as [v Hv]. exists v. apply Hkeep; [unfold apart; lia| |exact Hv].
    rewrite length_replicate, Z2Nat.id by lia. unfold apart. lia. }
  destruct (Hrun 1000 4000 16 10 55 running h2) as (c4&h4&E4&_&Hcalls).
  - split; unfold apart, wordsize, StackSize; lia.
  - apply (Hb' 1000 121%nat); [vm_compute; reflexivity|lia].
  - apply (Hb' 4000 16%nat); [vm_compute; reflexivity|lia].
  - apply (Hb' 100 1%nat); [vm_compute; reflexivity|lia].
  - reflexivity.
  - lia.
  - intros i v _ H. exact H.
  - intros i v _ H. exact H.
  - destruct (Hcalls quick 56 0) as (x&Ex); [unfold StackSize; lia|apply quick_returns; lia|apply quick_returns; lia|].
    exists h1, h2, c4, h4, x. split; [exact E1|]. split; [exact E2|]. split; [exact E4|exact Ex].
Defined.

Lemma stack_overflow_found_witness :
  ∃ h1 h2, new_Thread 4096 2000 300 [102] (-1) two_threads = Ok h1
    ∧ StackAllocate 4096 11 12 13 2000 14 15 8192 (replicate (Z.to_nat 10240) 0) h1 = Ok h2 ∧ load 4096 (8192 + 4096 - 4) h2 = Err BadAccess.
Proof.
  destruct (stack_overflow_found 4096 11 12 13 two_threads 2000 300 [102] (-1) 14 15 8192 (replicate (Z.to_nat 10240) 0))
    as (h1&h2&E1&E2&_&Hg&_); [apply (block_compute 4096 _ 2000 121%nat); vm_compute; reflexivity|cbn; lia|exact example_memory|].
  exists h1, h2. split; [exact E1|]. split; [exact E2|]. apply Hg. reflexivity.
Defined.
